(* ===== verification/_CoqProject ===== *)
-Q . S2P
Prelude.v
Errors.v
Dicts.v
Text.v
Orders.v
OrderFacts.v
Ledger.v
LedgerFacts.v
Contracts.v
BrokerPort.v
FakeBroker.v
Store.v
Repos.v
Stable.v
Evolve.v
Clean.v
RepoFacts.v
Faultless.v
Engine.v
Raises.v
EngineFacts.v
TradeUpdates.v
ControlPlane.v
Reconciler.v
ServiceFacts.v
Safety.v
Submission.v
System.v
Demo.v
SystemFacts.v
PauseFacts.v
TradeFacts.v
ReconcilerFacts.v
Decimals.v
Calendar.v
Json.v
JsonFacts.v
Instants.v
InstantFacts.v
Jobs.v
JobFacts.v
Sources.v
Identity.v
IdentityFacts.v
Actions.v
ActionFacts.v
Quarantine.v
QuarantineFacts.v
SourceLog.v
Master.v
InMemoryFacts.v
SecurityService.v
SecurityServiceFacts.v
DiscoveryFacts.v
Universe.v
Market.v
MarketFacts.v
SnapshotFacts.v
UniverseBuilder.v
BuilderFacts.v
Factors.v
Scores.v
ScoreFacts.v
FactorFacts.v
Features.v
Projection.v
Candidates.v
ScreeningDemo.v
FeatureFacts.v
CandidateFacts.v
FunnelFacts.v
PipelineFacts.v
ProjectionFacts.v
Clusters.v
ClusterFacts.v
Memory.v
Promotion.v
MemoryFacts.v
PromotionFacts.v
MemoryDemo.v
