(* ===== verification/Prelude.v ===== *)
(** * Seven-Lens paper trading

    A model in Rocq of the parts of [src/seven_lens] that decide what is traded and
    what is recorded, and the theorems that make those parts correct.  This file is
    the root of the development; after the header it holds the prelude: exceptions,
    the error monad ([outcome]), the state-and-exception monad in which the services
    are written with its program logic, stable sorting, and shared lemmas.

    ** The program

    Two halves of the repository are modelled, with the job leases that keep two
    workers from doing the same scheduled work and the memory that carries lessons of
    past decisions to later ones.  The execution core takes an order
    intent through a Paper broker: the intent is stored in PostgreSQL before it is
    submitted, a control row can pause entries, broker reports move the mirrors and
    the intents, a reconciliation compares everything with the broker, and an
    operator pauses, resumes, cancels and flattens.  The screening half turns market
    data, filings and the security master into a frozen candidate set: identities and
    quarantine, market snapshots, the monthly universe, factor inputs, feature
    vectors, the quant, evidence and focus stages, and correlation clusters.

    ** The execution core: files and code

    - [Dicts] - insertion-ordered dicts and groups; [Text] - Python text and the closed
      regular expressions of the contracts.
    - [Orders], [OrderFacts] - [execution/orders.py]: statuses and their transition
      maps (a life of an intent has at most one submission), exact money, the collar, client order ids, intents, broker orders, fills.
    - [Ledger], [LedgerFacts] - [execution/ledger.py]: FIFO replay, valuation.
    - [Contracts] - [execution/reconciliation.py], [execution/control.py].
    - [BrokerPort], [FakeBroker] - [application/ports/broker.py] as a class over an
      abstract broker state; [execution/fake_broker.py] as an instance.
    - [Store], [Repos] - [infrastructure/postgres.py]: the connection, the unit of
      work ([commit], [rollback], [uow_enter], [uow_exit], the safety connection) and
      the statements and methods of the order, reconciliation, control and baseline
      repositories, under the constraints and triggers of the migrations.
    - [Engine] - [application/execution_service.py]; [TradeUpdates] -
      [execution/trade_updates.py]; [ControlPlane] - [application/control_service.py];
      [Reconciler] - [application/reconciliation_service.py].
    - [System], [Demo] - sessions of these services over one database, broker moves
      between them, and a concrete system for the witnesses.

    A [world] is the committed database, the view of the open transaction, the flags
    of the connection, the broker, the trace of what was asked of it, and counters of
    the external sources.  A program is [M W A]: a function from a world to an
    outcome and a world, and a raise keeps the world it reached.  Any statement may
    fail: the environment holds a schedule of faults, so theorems over reachable
    worlds hold for every broker and every schedule.

    The proofs are layered: [Stable] states what a relation on worlds must respect for
    every service to respect it, and [EngineFacts] and [ServiceFacts] prove that once;
    [Evolve], [Clean], [RepoFacts], [Raises] and [Faultless] are the relations and
    rules used; [Safety] and [Submission] follow what is sent.  [SystemFacts],
    [PauseFacts], [TradeFacts] and [ReconcilerFacts] hold the theorems: every order
    sent was recorded first and allowed, none is sent again, all submissions of an
    identifier agree, the database only moves forward, a pause is lifted only by a safe
    resume, a trade update refines its specification on databases, a CLEAN
    reconciliation is true of the snapshot it read, a mismatch pauses durably.

    ** The screening half: files and code

    - [Decimals] - the arithmetic of [decimal] under a 28-digit context, with the
      relation [rounds] (correct rounding, half to even) every operation satisfies.
    - [Calendar] - [clock/market_clock.py], the session calendar and the focus
      windows of [screening/funnel.py] and [market_data/snapshots.py].
    - [Json], [JsonFacts] - [domain/json_values.py]: persisted payloads with every
      bound, the canonical writer and the parser; an accepted payload is read back as
      the canonical form of its value.
    - [Instants], [InstantFacts] - dates and timestamps with their texts
      ([domain/value_objects.py]) and the provider timestamps of
      [sources/adapters/records.py]: the conversions are inverse to each other.
    - [Errors] - which exception class a validator may raise, as the hint database
      [raises], and tactics that split a successful run.
    - [Sources] - [sources/roles.py], [securities/contracts.py].
    - [Identity] - [securities/identity.py], the point-in-time resolver; [Actions] -
      [securities/corporate_actions.py], ratios and split lineages; [Quarantine] -
      [securities/quarantine.py], confirmation and the shared evaluator.
    - [SourceLog] - [sources/adapters/in_memory_p4_records.py] and the reader of the
      service; [Master] - [application/ports/securities.py] as a class with its laws,
      and [securities/in_memory.py], an instance; [SecurityService] -
      [securities/service.py] over any instance.
    - [IdentityFacts], [ActionFacts], [QuarantineFacts], [InMemoryFacts],
      [SecurityServiceFacts], [DiscoveryFacts] - theorems: the resolver implements its
      point-in-time specification; a lineage has at most four rows that agree and climb
      the lifecycle; ELIGIBLE means a resolved, current, unambiguous identity without a
      visible split; the in-memory tables keep the laws of the repository; a discovered
      split blocks its security for good, and a valid discovery is accepted.
    - [Universe] - [universe/contracts.py], [screening/reasons.py].
    - [Market] - [market_data/snapshots.py]: decimals from text, bars, quotes and splits
      from source records and lineages, [compute_adv20], [assemble_market_snapshot] and its
      validation.  [MarketFacts] bounds a chain of rounded operations and shows the
      average dollar volume to be that of the twenty latest open sessions whatever the
      splits, without look-ahead; [SnapshotFacts] that an assembled snapshot shows its
      quote and its bars as they are, is labelled truthfully and reads back as it is.
    - [UniverseBuilder] - [universe/builder.py]: asset observations, views, the hard
      filters, [build_universe].  [BuilderFacts]: an entry is eligible exactly when
      every gate admits its asset, the universe uses nothing known later and does not
      depend on the order of its inputs.
    - [Factors], [Scores] - [screening/funnel.py]: closes and splits, trailing
      fundamentals, raw subfactors, percentiles, category scores.
    - [Features], [Projection] - feature vectors ([build_feature_vectors]) and the
      projection of SEC records ([sec_factor_inputs_from_records]).
    - [Candidates] - [quant_candidates], [evidence_candidates], [focus_candidates] and
      [build_candidate_set], with the contracts of [screening/contracts.py].
    - [Clusters] - [build_clusters] and the union-find inside it.
    - [FactorFacts], [ScoreFacts], [FeatureFacts], [ProjectionFacts],
      [CandidateFacts], [FunnelFacts], [PipelineFacts], [ClusterFacts] - theorems:
      fundamentals are totals over the latest four consecutive visible quarters, year-to-date
      facts by their differences, and never see the future;
      percentiles are counted midranks and scores lie in [0, 1]; a build yields one
      checked vector per eligible security in any order of the inputs; the quant stage
      is the top of the canonical order, the evidence stage the first that pass every
      gate, and what a build yields always ends in a valid candidate set; clusters are
      connected components, independent of set iteration, and their loops end.
    - [ScreeningDemo] - a cross-section of two securities for the witnesses.

    ** Job leases: files and code

    - [Jobs] - [domain/jobs.py], the audit event of [domain/events.py],
      [application/job_service.py], the job and audit repositories of
      [infrastructure/postgres.py] and the SQL they call in the migrations: tables
      with their constraints, the trigger on status writes, and the functions that
      acquire, renew and release a lease and write a status under its token.
    - [JobFacts] - any workers with any grants, clocks and failures in any order
      ([JobOp], [run_jobs]): the history of leases counts the tokens and agrees with
      the jobs, acquiring is decided on every branch, a worker that was taken over
      never writes again, and a status and its audit record are written together.

    ** Memory: files and code

    - [Memory] - [memory/fact_closure.py], the regular expressions of the fact-token
      closure and of the instruction policy; [memory/contracts.py], reflection records,
      entries and artifacts with their canonical bytes; [memory/selection.py]; and
      [memory/validation.py].  Case folding, Unicode normalization, SHA-256 and the last
      test of [security/sanitized_text.py] are an interface ([MemoryEnv]).
    - [Promotion] - the repository of [memory/promotion.py] with its current pointer, the
      promoter over a content store ([ContentStore]), and the repository of
      [memory/reflection.py].
    - [MemoryFacts], [PromotionFacts] - theorems: the validator decides a specification of
      a safe memory and always answers; a selection is bounded, ranked, derived from
      sources available by the cutoff, and leaves nothing out without a reason, and what
      providers say of importance does not change it; promotions form one chain; corrections form chains in time; what is
      selected or read as of an instant uses nothing known later.  [MemoryDemo] - two
      reflections, an artifact and a store for the witnesses.

    ** Conventions

    Identifiers, symbols and digests are strings; instants are integers in
    microseconds and dates integers in days; money is in cents where the code keeps
    cents and a [Decimal] elsewhere.  A dataclass is a Record; its [__post_init__] is
    [check_X] or [make_X] in [outcome]; checks of exact Python types are the types of
    the model.  Integers stored in BIGINT columns are checked against their bounds
    where a statement writes them.  Fuel appears in [Decimals.ndigits] (the binary
    length bounds the digits), in [Clusters.find_root] (a path is shorter than the
    dict has keys), in [Json.parse_value] (reading a value consumes text) and in
    [Master.walk_chain] (an event has as many rows as hashes), in [Memory.has_cycle] and
    [Promotion.walk_corrections] (a path visits distinct records) and in
    [Memory.fit_artifact] (each turn drops an entry); all are proved
    to be enough.  Sorting is the stable insertion
    sort [sort_by], and a theorem shows where its result is unique.

    ** Not modelled

    Logging, telemetry and redaction; two sessions at the same time (waiting on row
    locks); [revision_id] columns and [list_baselines]; a rollback that fails while a
    unit of work is left; overflow of [datetime]; exponents, signed zeros and the
    bounds of exponents of decimals; the canonical serialization of frozen records,
    its byte bounds and the digest of it (digests are data, and where a digest is
    derived it is a parameter), and the private authorities that prove a record was
    built by its finalizer; the text of a float (a parameter) and the recursion limit
    of the interpreter; the parsing of provider payloads into normalized records, of a
    split ratio from text, and of halt and news events.  A set of source references
    is iterated in an order that is a parameter.  Network adapters, prompts and language-model transports,
    secrets, configuration, the migration runner, role management, evaluations and the
    command line are I/O or text and are left out, and so are the pipelines of memory
    that call a language model (curation, reflection), the domain event envelope, and
    the analysis and proposal contracts. *)

From Stdlib Require Export Ascii.
From stdpp Require Export base gmap strings list sorting pretty.

(** ** Exceptions

    One constructor per exception class the modelled code raises or catches.
    [EDatabase] stands for the driver's [psycopg.Error] hierarchy. *)
Inductive exn_class :=
  | EValueError
  | ETypeError
  | ERuntimeError
  | EKeyError
  | EAssertionError
  | EDatabase
  | EInvalidOrderTransition
  | EInvalidBrokerOrderTransition
  | ELedgerInvariant
  | EBrokerTransport
  | EDuplicateClientOrderIdUnknown
  | EBrokerQuery
  | EBrokerConflict
  | EPersistenceInvariant
  | EBrokerOrderIdentityConflict
  | EUnitOfWorkState
  | EExecutionState
  | EBrokerMirrorMismatch
  | EExecutionPaused
  | EControlPersistence
  | EControlPlane
  | EResumeBlocked
  | EMarkPriceUnavailable
  | ETradeUpdate
  | EMarketClockUnavailable
  | EIllegalTransition
  | ERecordLineage
  | ESecurityMasterService
  | ESourceLineage
  | EIdentityClosure
  | EInMemorySecurityMaster
  | EInMemoryConcurrentTransition
  | EProviderTimestamp
  | ESourceSchemaDrift
  | EInvalidOperation
  | EStaleLease
  | EAuditContext
  | EContentStore
  | EContentStoreMissing
  | EContentStoreIntegrity
  | EOS
  | EMemorySelection.

#[global] Instance exn_class_eq_dec : EqDecision exn_class.
Proof. solve_decision. Defined.

Record exn := mk_exn { exn_cls : exn_class; exn_msg : string }.

#[global] Instance exn_eq_dec : EqDecision exn.
Proof. solve_decision. Defined.

(** [isinstance(error, cls)] for the classes above. *)
Definition exn_isa (c cls : exn_class) : bool :=
  bool_decide (c = cls) ||
  match c, cls with
  | EInvalidOrderTransition, EValueError => true
  | EInvalidBrokerOrderTransition, EValueError => true
  | EDuplicateClientOrderIdUnknown, EBrokerTransport => true
  | EDuplicateClientOrderIdUnknown, ERuntimeError => true
  | EBrokerTransport, ERuntimeError => true
  | EBrokerQuery, ERuntimeError => true
  | EBrokerConflict, ERuntimeError => true
  | ELedgerInvariant, ERuntimeError => true
  | EPersistenceInvariant, ERuntimeError => true
  | EBrokerOrderIdentityConflict, ERuntimeError => true
  | EUnitOfWorkState, ERuntimeError => true
  | EExecutionState, ERuntimeError => true
  | EBrokerMirrorMismatch, ERuntimeError => true
  | EExecutionPaused, ERuntimeError => true
  | EControlPersistence, ERuntimeError => true
  | EControlPlane, ERuntimeError => true
  | EResumeBlocked, EControlPlane => true
  | EResumeBlocked, ERuntimeError => true
  | EMarkPriceUnavailable, ERuntimeError => true
  | ETradeUpdate, ERuntimeError => true
  | EIllegalTransition, EValueError => true
  | ERecordLineage, EValueError => true
  | ESecurityMasterService, ERuntimeError => true
  | ESourceLineage, ESecurityMasterService => true
  | ESourceLineage, ERuntimeError => true
  | EIdentityClosure, ESecurityMasterService => true
  | EIdentityClosure, ERuntimeError => true
  | EInMemorySecurityMaster, ERuntimeError => true
  | EInMemoryConcurrentTransition, EInMemorySecurityMaster => true
  | EInMemoryConcurrentTransition, ERuntimeError => true
  | EProviderTimestamp, EValueError => true
  | ESourceSchemaDrift, EValueError => true
  | EStaleLease, ERuntimeError => true
  | EAuditContext, EValueError => true
  | EContentStore, ERuntimeError => true
  | EContentStoreMissing, EContentStore => true
  | EContentStoreMissing, ERuntimeError => true
  | EContentStoreIntegrity, EContentStore => true
  | EContentStoreIntegrity, ERuntimeError => true
  | EMemorySelection, ERuntimeError => true
  | _, _ => false
  end.

(** [type(error).__name__] *)
Definition exn_name (c : exn_class) : string :=
  match c with
  | EValueError => "ValueError"
  | ETypeError => "TypeError"
  | ERuntimeError => "RuntimeError"
  | EKeyError => "KeyError"
  | EAssertionError => "AssertionError"
  | EDatabase => "DatabaseError"
  | EInvalidOrderTransition => "InvalidOrderTransitionError"
  | EInvalidBrokerOrderTransition => "InvalidBrokerOrderTransitionError"
  | ELedgerInvariant => "LedgerInvariantError"
  | EBrokerTransport => "BrokerTransportError"
  | EDuplicateClientOrderIdUnknown => "DuplicateClientOrderIdUnknown"
  | EBrokerQuery => "BrokerQueryError"
  | EBrokerConflict => "BrokerConflictError"
  | EPersistenceInvariant => "PersistenceInvariantError"
  | EBrokerOrderIdentityConflict => "BrokerOrderIdentityConflictError"
  | EUnitOfWorkState => "UnitOfWorkStateError"
  | EExecutionState => "ExecutionStateError"
  | EBrokerMirrorMismatch => "BrokerMirrorMismatchError"
  | EExecutionPaused => "ExecutionPausedError"
  | EControlPersistence => "ControlPersistenceError"
  | EControlPlane => "ControlPlaneError"
  | EResumeBlocked => "ResumeBlockedError"
  | EMarkPriceUnavailable => "MarkPriceUnavailableError"
  | ETradeUpdate => "TradeUpdateError"
  | EMarketClockUnavailable => "MarketClockUnavailableError"
  | EIllegalTransition => "IllegalTransitionError"
  | ERecordLineage => "RecordLineageError"
  | ESecurityMasterService => "SecurityMasterServiceError"
  | ESourceLineage => "SourceLineageError"
  | EIdentityClosure => "IdentityClosureError"
  | EInMemorySecurityMaster => "InMemorySecurityMasterError"
  | EInMemoryConcurrentTransition => "InMemoryConcurrentTransitionError"
  | EProviderTimestamp => "ProviderTimestampError"
  | ESourceSchemaDrift => "SourceSchemaDriftError"
  | EInvalidOperation => "InvalidOperation"
  | EStaleLease => "StaleLeaseError"
  | EAuditContext => "AuditTelemetryContextMismatchError"
  | EContentStore => "ContentStoreError"
  | EContentStoreMissing => "ContentStoreMissingError"
  | EContentStoreIntegrity => "ContentStoreIntegrityError"
  | EOS => "OSError"
  | EMemorySelection => "MemorySelectionError"
  end.

(** ** Outcomes: the error monad *)
Inductive outcome (A : Type) :=
  | Ok (a : A)
  | Raise (e : exn).
Arguments Ok {A} a.
Arguments Raise {A} e.

#[global] Instance outcome_ret : MRet outcome := @Ok.
#[global] Instance outcome_bind : MBind outcome := λ A B f o,
  match o with Ok a => f a | Raise e => Raise e end.

Definition raise {A} (c : exn_class) (msg : string) : outcome A :=
  Raise (mk_exn c msg).

(** [guard_that b c msg] raises unless [b]: the shape of the early raises. *)
Definition guard_that (b : bool) (c : exn_class) (msg : string) : outcome unit :=
  if b then Ok () else raise c msg.

Definition is_Ok {A} (o : outcome A) : bool :=
  match o with Ok _ => true | Raise _ => false end.

(** An outcome that succeeds: its steps all do. *)
Lemma obind_Ok {A B} (o : outcome A) (f : A → outcome B) b :
  o ≫= f = Ok b → ∃ a, o = Ok a ∧ f a = Ok b.
Proof. destruct o as [a|e]; [|done]. intros H. by exists a. Qed.
Lemma guard_Ok b c m : guard_that b c m = Ok () → b = true.
Proof. by destruct b. Qed.
Lemma mapM_Ok {A B} (f : A → outcome B) l k :
  mapM f l = Ok k ↔ Forall2 (λ x y, f x = Ok y) l k.
Proof.
  split.
  - revert k. induction l as [|x l IH]; intros k H; simpl in H; [by injection H as <-|].
    apply obind_Ok in H as (y & Hy & H). apply obind_Ok in H as (k' & Hk & H).
    injection H as <-. auto.
  - induction 1 as [|x y l k Hx _ IH]; [done|]. simpl. by rewrite Hx, IH.
Qed.
Lemma mapM_Ok_elem {A B} (f : A → outcome B) l k y :
  mapM f l = Ok k → y ∈ k → ∃ x, x ∈ l ∧ f x = Ok y.
Proof.
  intros Hk%mapM_Ok [i Hy]%list_elem_of_lookup_1.
  destruct (Forall2_lookup_r _ _ _ _ _ Hk Hy) as (x & Hx & Hf). exists x.
  split; [by eapply list_elem_of_lookup_2|done].
Qed.
Lemma mapM_Ok_image {A B} (f : A → outcome B) l k x :
  mapM f l = Ok k → x ∈ l → ∃ y, y ∈ k ∧ f x = Ok y.
Proof.
  intros Hk%mapM_Ok [i Hi]%list_elem_of_lookup_1.
  destruct (Forall2_lookup_l _ _ _ _ _ Hk Hi) as (y & Hy & Hf). exists y.
  split; [by eapply list_elem_of_lookup_2|done].
Qed.
Lemma mapM_unit_Ok {A} (f : A → outcome unit) l k x : mapM f l = Ok k → x ∈ l → f x = Ok ().
Proof.
  intros Hk%mapM_Ok [i Hi]%list_elem_of_lookup_1.
  by destruct (Forall2_lookup_l _ _ _ _ _ Hk Hi) as ([] & _ & ?).
Qed.
Lemma mapM_Ok_perm {A B} (f : A → outcome B) l l' k :
  l ≡ₚ l' → mapM f l = Ok k → ∃ k', mapM f l' = Ok k' ∧ k ≡ₚ k'.
Proof.
  intros Hp Hk%mapM_Ok. revert k Hk. induction Hp as [|x l l' Hp IH|x y l|l l2 l3 _ IH1 _ IH2]; intros k Hk.
  - inversion Hk. by exists [].
  - inversion Hk as [|? b ? k0 Hb Hk0]; subst. destruct (IH _ Hk0) as (k' & Hk'%mapM_Ok & Hpk).
    exists (b :: k'). split; [by apply mapM_Ok; constructor|by constructor].
  - inversion Hk as [|? b ? k0 Hb Hk0]; subst. inversion Hk0 as [|? b' ? k1 Hb' Hk1]; subst.
    exists (b' :: b :: k1). split; [apply mapM_Ok; by repeat constructor|constructor].
  - destruct (IH1 _ Hk) as (k2 & Hk2%mapM_Ok & Hp2). destruct (IH2 _ Hk2) as (k3 & ? & ?).
    exists k3. split; [done|]. by trans k2.
Qed.
Lemma mapM_Ok_exists {A B} (f : A → outcome B) (l : list A) :
  (∀ x, x ∈ l → ∃ y, f x = Ok y) → ∃ k, mapM f l = Ok k.
Proof.
  induction l as [|x l IH]; intros H; [by exists []|]. destruct (H x ltac:(by left)) as [y Hy].
  destruct IH as [k Hk]; [intros z Hz; apply H; by right|]. exists (y :: k). simpl. by rewrite Hy, Hk.
Qed.
Lemma mapM_Ok_fmap {A B} (f : A → outcome B) (g : A → B) (l : list A) :
  (∀ x, x ∈ l → f x = Ok (g x)) → mapM f l = Ok (g <$> l).
Proof.
  induction l as [|x l IH]; intros H; [done|]. rewrite fmap_cons. simpl. rewrite H by by left. simpl.
  rewrite IH; [done|]. intros y Hy. apply H. by right.
Qed.

(** ** The state-and-exception monad: a raise keeps the state reached. *)
Definition M (W A : Type) : Type := W → outcome A * W.

#[global] Instance M_ret W : MRet (M W) := λ A a w, (Ok a, w).
#[global] Instance M_bind W : MBind (M W) := λ A B f m w,
  match m w with
  | (Ok a, w') => f a w'
  | (Raise e, w') => (Raise e, w')
  end.

Definition throw {W A} (c : exn_class) (msg : string) : M W A :=
  λ w, (raise c msg, w).
Definition rethrow {W A} (e : exn) : M W A := λ w, (Raise e, w).
Definition lift {W A} (o : outcome A) : M W A := λ w, (o, w).
Definition gets {W A} (f : W → A) : M W A := λ w, (Ok (f w), w).
(** A primitive step given by its state function. *)
Definition act {W A} (f : W → outcome A * W) : M W A := f.
Definition modify {W} (f : W → W) : M W unit := λ w, (Ok (), f w).

(** [try: m except Exception as e: h e] *)
Definition catch {W A} (m : M W A) (h : exn → M W A) : M W A := λ w,
  match m w with
  | (Ok a, w') => (Ok a, w')
  | (Raise e, w') => h e w'
  end.

(** [try: a = m except ... as e: h e else: k a] *)
Definition try_else {W A B} (m : M W A) (h : exn → M W B) (k : A → M W B) : M W B := λ w,
  match m w with
  | (Ok a, w') => k a w'
  | (Raise e, w') => h e w'
  end.

(** [with contextlib.suppress(Exception): m] *)
Definition suppress {W} (m : M W unit) : M W unit := catch m (λ _, mret ()).

(** [for x in l: acc = f acc x] *)
Fixpoint foldM {W A B} (f : B → A → M W B) (b : B) (l : list A) : M W B :=
  match l with
  | [] => mret b
  | x :: l => b' ← f b x; foldM f b' l
  end.

(** ** Stable sorting: Python's [sorted(l, key=...)] with [leb] on the keys *)
Section sort_by.
Context {A : Type} (leb : A → A → bool).

Fixpoint insert_by (x : A) (l : list A) : list A :=
  match l with
  | [] => [x]
  | y :: l' => if leb x y then x :: y :: l' else y :: insert_by x l'
  end.

Fixpoint sort_by (l : list A) : list A :=
  match l with [] => [] | x :: l' => insert_by x (sort_by l') end.

Lemma insert_by_perm x l : insert_by x l ≡ₚ x :: l.
Proof.
  induction l as [|y l IH]; simpl; [done|].
  destruct (leb x y); [done|]. rewrite IH. apply Permutation_swap.
Qed.

Lemma sort_by_perm l : sort_by l ≡ₚ l.
Proof. induction l as [|x l IH]; simpl; [done|]. by rewrite insert_by_perm, IH. Qed.

Lemma elem_of_sort_by x l : x ∈ sort_by l ↔ x ∈ l.
Proof. by rewrite sort_by_perm. Qed.

Context (Htotal : ∀ x y, leb x y = false → leb y x = true).
Context (Htrans : ∀ x y z, leb x y = true → leb y z = true → leb x z = true).

Lemma insert_by_sorted x l :
  StronglySorted (λ a b, leb a b = true) l →
  StronglySorted (λ a b, leb a b = true) (insert_by x l).
Proof.
  induction 1 as [|y l Hl IH Hy]; simpl; [repeat constructor|].
  destruct (leb x y) eqn:E.
  - repeat constructor; [done..|].
    eapply Forall_impl; [exact Hy|]; simpl; eauto.
  - constructor; [done|]. rewrite insert_by_perm. constructor; auto.
Qed.

Lemma sort_by_sorted l : StronglySorted (λ a b, leb a b = true) (sort_by l).
Proof. induction l; simpl; [constructor|by apply insert_by_sorted]. Qed.

(** Two sorted permutations agree when [leb] separates the elements. *)
Lemma sorted_perm_eq l1 l2 :
  StronglySorted (λ a b, leb a b = true) l1 →
  StronglySorted (λ a b, leb a b = true) l2 →
  (∀ x y, x ∈ l1 → y ∈ l1 → leb x y = true → leb y x = true → x = y) →
  l1 ≡ₚ l2 → l1 = l2.
Proof using Type.
  intros H1. revert l2. induction H1 as [|x l1 Hl1 IH Hx]; intros l2 H2 Hanti Hp.
  { by apply Permutation_nil_l in Hp as ->. }
  destruct H2 as [|y l2 Hl2 Hy]; [by apply Permutation_nil_r in Hp|].
  rewrite Forall_forall in Hx, Hy.
  assert (x = y) as ->.
  { assert (Hxy : x ∈ y :: l2) by (rewrite <-Hp; by constructor).
    assert (Hyx : y ∈ x :: l1) by (rewrite Hp; by constructor).
    rewrite elem_of_cons in Hxy, Hyx.
    destruct Hxy as [->|Hxy]; [done|]. destruct Hyx as [->|Hyx]; [done|].
    apply Hanti; [by constructor|by constructor|by apply Hx|by apply Hy]. }
  f_equal. apply IH; [done| |by eapply Permutation_cons_inv].
  intros a b Ha Hb. apply Hanti; by constructor.
Qed.

Lemma sort_by_unique l1 l2 :
  (∀ x y, x ∈ l1 → y ∈ l1 → leb x y = true → leb y x = true → x = y) →
  l1 ≡ₚ l2 → sort_by l1 = sort_by l2.
Proof using Htotal Htrans.
  intros Hanti Hp. apply sorted_perm_eq.
  - apply sort_by_sorted.
  - apply sort_by_sorted.
  - intros x y Hx Hy. rewrite elem_of_sort_by in Hx, Hy. by apply Hanti.
  - by rewrite !sort_by_perm.
Qed.
End sort_by.

Lemma sort_by_sorted_id {A} (leb : A → A → bool) l :
  StronglySorted (λ a b, leb a b = true) l → sort_by leb l = l.
Proof.
  induction 1 as [|x l _ IH Hx]; [done|]. simpl. rewrite IH. destruct l as [|y l]; [done|]. simpl.
  inversion Hx as [|? ? Hy]; subst. by rewrite Hy.
Qed.

Lemma sort_by_ext {A} (r r' : A → A → bool) l : (∀ x y, r x y = r' x y) → sort_by r l = sort_by r' l.
Proof.
  intros Hr. induction l as [|x l IH]; [done|]. cbn [sort_by]. rewrite IH. generalize (sort_by r' l) as k.
  induction k as [|y k IHk]; [done|]. cbn [insert_by]. rewrite Hr, IHk. done.
Qed.
Lemma sort_by_fmap {A B} (f : A → B) (r : B → B → bool) (l : list A) :
  f <$> sort_by (λ x y, r (f x) (f y)) l = sort_by r (f <$> l).
Proof.
  assert (Hins : ∀ x k, f <$> insert_by (λ x y, r (f x) (f y)) x k = insert_by r (f x) (f <$> k)).
  { intros x k. induction k as [|y k IHk]; [done|]. rewrite fmap_cons. cbn [insert_by].
    destruct (r (f x) (f y)); [by rewrite !fmap_cons|]. by rewrite fmap_cons, IHk. }
  induction l as [|x l IH]; [done|]. rewrite fmap_cons. cbn [sort_by]. by rewrite Hins, IH.
Qed.

Lemma sublist_elem {A} (l k : list A) x : l `sublist_of` k → x ∈ l → x ∈ k.
Proof.
  intros Hs Hx. assert (Hsub : ∀ y, y ∈ l → y ∈ k); [|by apply Hsub].
  clear Hx. induction Hs as [|z l k _ IH|z l k _ IH]; intros y Hy; [done| |].
  - apply elem_of_cons in Hy as [->|Hy]; [by left|right; auto].
  - right. auto.
Qed.
Lemma sublist_map {A B} (f : A → B) l k : l `sublist_of` k → f <$> l `sublist_of` f <$> k.
Proof. induction 1; rewrite ?fmap_cons; by constructor. Qed.
Lemma StronglySorted_sublist {A} (R : relation A) l k :
  l `sublist_of` k → StronglySorted R k → StronglySorted R l.
Proof.
  induction 1 as [|x l k Hlk IH|x l k _ IH]; intros Hk; [constructor| |].
  - inversion Hk as [|? ? Hk' Hx]; subst. constructor; [by apply IH|].
    rewrite Forall_forall in *. intros y Hy. apply Hx. by eapply sublist_elem.
  - inversion Hk; subst. by apply IH.
Qed.

Lemma StronglySorted_weaken {A} (R R' : relation A) l :
  (∀ a b, R a b → R' a b) → StronglySorted R l → StronglySorted R' l.
Proof.
  intros H. induction 1 as [|x l _ IH Hx]; constructor; [done|]. eapply Forall_impl; [done|]. auto.
Qed.

(** Strictly increasing integers. *)
Lemma sorted_lt l : l = sort_by Z.leb l → NoDup l → StronglySorted Z.lt l.
Proof.
  intros Hs Hn. assert (Hle : StronglySorted (λ a b, (a <=? b)%Z = true) l).
  { rewrite Hs. apply sort_by_sorted; intros; lia. }
  clear Hs. induction Hle as [|x l _ IH Hx]; [constructor|]. apply NoDup_cons in Hn as [Hx' Hn].
  constructor; [by apply IH|]. rewrite Forall_forall in Hx |- *. intros y Hy. specialize (Hx y Hy).
  assert (x ≠ y) by (intros ->; done). lia.
Qed.
Lemma sorted_lt_NoDup l : StronglySorted Z.lt l → NoDup l.
Proof.
  induction 1 as [|x l _ IH Hx]; constructor; [|done]. intros Hin.
  rewrite Forall_forall in Hx. specialize (Hx x Hin). lia.
Qed.
Lemma sorted_lt_sort l : StronglySorted Z.lt l → sort_by Z.leb l = l.
Proof. intros Hs. apply sort_by_sorted_id. eapply StronglySorted_weaken; [|exact Hs]. intros; simpl in *; lia. Qed.
Lemma remove_dups_distinct {A} `{EqDecision A} (l : list A) : NoDup l → remove_dups l = l.
Proof.
  induction 1 as [|x l Hx _ IH]; [done|]. simpl. destruct (decide_rel _ _ _); [done|by rewrite IH].
Qed.

Lemma StronglySorted_snoc {A} (R : relation A) l x :
  StronglySorted R l → Forall (λ y, R y x) l → StronglySorted R (l ++ [x]).
Proof.
  induction 1 as [|y l Hl IH Hy]; intros Hx; simpl; [repeat constructor|].
  inversion Hx; subst. constructor; [by apply IH|]. apply Forall_app. split; [done|]. by constructor.
Qed.
Lemma StronglySorted_reverse {A} (R : relation A) l :
  StronglySorted R l → StronglySorted (flip R) (reverse l).
Proof.
  induction 1 as [|x l Hl IH Hx]; [constructor|]. rewrite reverse_cons.
  apply StronglySorted_snoc; [done|]. by apply Forall_reverse.
Qed.

(** ** Lists without duplicates *)

Lemma NoDup_fmap_inj_on {A B} (f : A → B) l x y :
  NoDup (f <$> l) → x ∈ l → y ∈ l → f x = f y → x = y.
Proof.
  induction l as [|z l IH]; intros Hn Hx Hy Hf; [by apply elem_of_nil in Hx|].
  rewrite fmap_cons in Hn. apply NoDup_cons in Hn as [Hz Hn].
  apply elem_of_cons in Hx as [->|Hx], Hy as [->|Hy]; [done| | |by apply IH].
  - destruct Hz. rewrite Hf. by apply list_elem_of_fmap_2.
  - destruct Hz. rewrite <-Hf. by apply list_elem_of_fmap_2.
Qed.
Lemma NoDup_all_eq {A} (l : list A) x : NoDup l → x ∈ l → (∀ y, y ∈ l → y = x) → l = [x].
Proof.
  intros Hn Hx Hall. destruct l as [|y l]; [by apply elem_of_nil in Hx|].
  rewrite (Hall y) in * by by left. f_equal. destruct l as [|z l]; [done|].
  inversion Hn as [|? ? Hy _]; subst. destruct Hy. rewrite (Hall z); [by left|right; by left].
Qed.
Lemma StronglySorted_pair {A} (R : relation A) l x y :
  StronglySorted R l → x ∈ l → y ∈ l → x ≠ y → R x y ∨ R y x.
Proof.
  induction 1 as [|z l _ IH Hz]; [by intros ?%elem_of_nil|]. rewrite Forall_forall in Hz.
  intros [->|Hx]%elem_of_cons [->|Hy]%elem_of_cons Hne; [done|left|right|]; auto.
Qed.

(** ** Program logic

    [wp m Q w]: running [m] from [w] ends in an outcome and a state satisfying
    [Q].  [pres R m]: whatever [m] does, the states before and after are
    related by [R]; used with preorders, one lemma per primitive operation
    lifts to every service built from them. *)
Section logic.
Context {W : Type}.

Definition wp {A} (m : M W A) (Q : outcome A → W → Prop) (w : W) : Prop :=
  Q (m w).1 (m w).2.

Lemma wp_mono {A} (m : M W A) (Q Q' : outcome A → W → Prop) w :
  wp m Q w → (∀ o w', Q o w' → Q' o w') → wp m Q' w.
Proof. unfold wp. auto. Qed.

Lemma wp_ret {A} (a : A) (Q : outcome A → W → Prop) w : Q (Ok a) w → wp (mret a) Q w.
Proof. done. Qed.

Lemma wp_bind {A B} (m : M W A) (f : A → M W B) Q w :
  wp m (λ o w', match o with Ok a => wp (f a) Q w' | Raise e => Q (Raise e) w' end) w →
  wp (m ≫= f) Q w.
Proof. unfold wp, mbind, M_bind. by destruct (m w) as [[a|e] w']. Qed.

Lemma wp_catch {A} (m : M W A) (h : exn → M W A) Q w :
  wp m (λ o w', match o with Ok a => Q (Ok a) w' | Raise e => wp (h e) Q w' end) w →
  wp (catch m h) Q w.
Proof. unfold wp, catch. by destruct (m w) as [[a|e] w']. Qed.

Lemma wp_try_else {A C} (m : M W A) (h : exn → M W C) (k : A → M W C) Q w :
  wp m (λ o w', match o with Ok a => wp (k a) Q w' | Raise e => wp (h e) Q w' end) w →
  wp (try_else m h k) Q w.
Proof. unfold wp, try_else. by destruct (m w) as [[a|e] w']. Qed.

Lemma wp_throw {A} c msg (Q : outcome A → W → Prop) w :
  Q (Raise (mk_exn c msg)) w → wp (throw c msg) Q w.
Proof. done. Qed.

Lemma wp_rethrow {A} e (Q : outcome A → W → Prop) w :
  Q (Raise e) w → wp (rethrow e) Q w.
Proof. done. Qed.

Lemma wp_lift {A} (o : outcome A) (Q : outcome A → W → Prop) w : Q o w → wp (lift o) Q w.
Proof. done. Qed.

Lemma wp_gets {A} (f : W → A) (Q : outcome A → W → Prop) w :
  Q (Ok (f w)) w → wp (gets f) Q w.
Proof. done. Qed.

Lemma wp_modify f (Q : outcome unit → W → Prop) w : Q (Ok ()) (f w) → wp (modify f) Q w.
Proof. done. Qed.

(** A program that succeeds: its steps all do. *)
Lemma run_bind {A B} (m : M W A) (f : A → M W B) w b w' :
  (m ≫= f) w = (Ok b, w') → ∃ a w1, m w = (Ok a, w1) ∧ f a w1 = (Ok b, w').
Proof. unfold mbind, M_bind. destruct (m w) as [[a|e] w1]; [|done]. intros H. by exists a, w1. Qed.
Lemma run_lift {A} (o : outcome A) (w : W) b w' : lift o w = (Ok b, w') → o = Ok b ∧ w' = w.
Proof. unfold lift. intros H. by simplify_eq. Qed.
Lemma run_mret {A} (a : A) w b w' : (mret a : M W A) w = (Ok b, w') → b = a ∧ w' = w.
Proof. intros H. injection H as <- <-. done. Qed.

(** The loop rule: an invariant of every iteration, indexed by the rest. *)
Lemma wp_foldM {A B} (f : B → A → M W B) (I : B → list A → W → Prop)
    (Q : outcome B → W → Prop) :
  (∀ b x l w, I b (x :: l) w →
     wp (f b x) (λ o w', match o with Ok b' => I b' l w' | Raise e => Q (Raise e) w' end) w) →
  (∀ b w, I b [] w → Q (Ok b) w) →
  ∀ l b w, I b l w → wp (foldM f b l) Q w.
Proof.
  intros Hstep Hend l. induction l as [|x l IH]; intros b w HI; simpl.
  { by apply wp_ret, Hend. }
  apply wp_bind. eapply wp_mono; [by apply Hstep|].
  intros [b'|e] w'; simpl; auto.
Qed.

Lemma wp_mapM {A B} (f : A → M W B) (I : W → Prop) (Q : outcome (list B) → W → Prop) :
  (∀ x w, I w → wp (f x) (λ o w', match o with Ok _ => I w' | Raise e => Q (Raise e) w' end) w) →
  (∀ l w, I w → Q (Ok l) w) →
  ∀ l w, I w → wp (mapM f l) Q w.
Proof.
  intros Hstep Hend l. revert Q Hstep Hend.
  induction l as [|x l IH]; intros Q Hstep Hend w HI; simpl; [by apply wp_ret, Hend|].
  apply wp_bind. eapply wp_mono; [by apply Hstep|]. intros [b|e] w' HI'; [|done].
  apply wp_bind. apply IH; [|intros l' w'' HI''; by apply wp_ret, Hend|done].
  intros y w'' HI''. by apply Hstep.
Qed.
End logic.

Section pres.
Context {W : Type} (R : relation W) `{!PreOrder R}.

Definition pres {A} (m : M W A) : Prop := ∀ w, R w (m w).2.

Lemma pres_ret {A} (a : A) : pres (mret a).
Proof using Type*. intros w. by simpl. Qed.
Lemma pres_throw {A} c msg : pres (throw (A:=A) c msg).
Proof using Type*. intros w. by simpl. Qed.
Lemma pres_rethrow {A} e : pres (rethrow (A:=A) e).
Proof using Type*. intros w. by simpl. Qed.
Lemma pres_lift {A} (o : outcome A) : pres (lift o).
Proof using Type*. intros w. by simpl. Qed.
Lemma pres_gets {A} (f : W → A) : pres (gets f).
Proof using Type*. intros w. by simpl. Qed.

Lemma pres_bind {A B} (m : M W A) (f : A → M W B) :
  pres m → (∀ a, pres (f a)) → pres (m ≫= f).
Proof using Type*.
  intros Hm Hf w. specialize (Hm w). unfold mbind, M_bind.
  destruct (m w) as [[a|e] w']; simpl in *; [|done]. by trans w'; [|apply Hf].
Qed.

Lemma pres_catch {A} (m : M W A) (h : exn → M W A) :
  pres m → (∀ e, pres (h e)) → pres (catch m h).
Proof using Type*.
  intros Hm Hh w. specialize (Hm w). unfold catch.
  destruct (m w) as [[a|e] w']; simpl in *; [done|]. by trans w'; [|apply Hh].
Qed.

Lemma pres_try_else {A C} (m : M W A) (h : exn → M W C) (k : A → M W C) :
  pres m → (∀ e, pres (h e)) → (∀ a, pres (k a)) → pres (try_else m h k).
Proof using Type*.
  intros Hm Hh Hk w. specialize (Hm w). unfold try_else.
  destruct (m w) as [[a|e] w']; simpl in *; (trans w'; [done|]); [apply Hk|apply Hh].
Qed.

Lemma pres_suppress (m : M W unit) : pres m → pres (suppress m).
Proof using Type*. intros Hm. apply pres_catch; [done|]. intros e. apply pres_ret. Qed.

Lemma pres_foldM {A B} (f : B → A → M W B) :
  (∀ b x, pres (f b x)) → ∀ l b, pres (foldM f b l).
Proof using Type*.
  intros Hf l. induction l as [|x l IH]; intros b; simpl; [apply pres_ret|].
  apply pres_bind; auto.
Qed.

Lemma pres_mapM {A B} (f : A → M W B) : (∀ x, pres (f x)) → ∀ l, pres (mapM f l).
Proof using Type*.
  intros Hf l. induction l as [|x l IH]; simpl; [apply pres_ret|].
  apply pres_bind; [done|]. intros y. apply pres_bind; [done|]. intros k. apply pres_ret.
Qed.

Lemma pres_run {A} (m : M W A) w o w' : pres m → m w = (o, w') → R w w'.
Proof using Type. intros Hm E. specialize (Hm w). by rewrite E in Hm. Qed.
(** Each element of a loop that succeeds was run, from a state related to the first. *)
Lemma run_mapM {A B} (f : A → M W B) l w k w' x :
  (∀ y, pres (f y)) → mapM f l w = (Ok k, w') → x ∈ l →
  ∃ b w1 w2, b ∈ k ∧ f x w1 = (Ok b, w2) ∧ R w w1.
Proof using Type*.
  intros Hf. revert w k. induction l as [|y l IH]; intros w k H Hx; [by apply elem_of_nil in Hx|].
  simpl in H. apply run_bind in H as (b & w1 & Hy & H). apply run_bind in H as (k' & w2 & Hl & H).
  apply run_mret in H as [-> ->]. apply elem_of_cons in Hx as [->|Hx].
  - exists b, w, w1. split; [by left|]. split; [done|]. reflexivity.
  - destruct (IH _ _ Hl Hx) as (b' & w3 & w4 & Hb & Hf' & HR). exists b', w3, w4.
    split; [by right|]. split; [done|]. trans w1; [by eapply pres_run|done].
Qed.
Lemma run_mapM_length {A B} (f : A → M W B) l w k w' :
  mapM f l w = (Ok k, w') → length l = length k.
Proof using Type.
  revert w k. induction l as [|y l IH]; intros w k H; simpl in H; [by apply run_mret in H as [-> _]|].
  apply run_bind in H as (c & w1 & _ & H). apply run_bind in H as (k' & w2 & Hl & H).
  apply run_mret in H as [-> ->]. simpl. by rewrite (IH _ _ Hl).
Qed.
(** Each result of a loop comes from one of its elements. *)
Lemma run_mapM_elem {A B} (f : A → M W B) l w k w' b :
  mapM f l w = (Ok k, w') → b ∈ k → ∃ x w1 w2, x ∈ l ∧ f x w1 = (Ok b, w2).
Proof using Type.
  revert w k. induction l as [|y l IH]; intros w k H Hb; simpl in H.
  { apply run_mret in H as [-> _]. by apply elem_of_nil in Hb. }
  apply run_bind in H as (c & w1 & Hy & H). apply run_bind in H as (k' & w2 & Hl & H).
  apply run_mret in H as [-> ->]. apply elem_of_cons in Hb as [->|Hb].
  - exists y, w, w1. split; [by left|done].
  - destruct (IH _ _ Hl Hb) as (x & w3 & w4 & Hx & Hf). exists x, w3, w4. split; [by right|done].
Qed.
End pres.

(** ** Automation *)
Create HintDb pres discriminated.
#[export] Hint Constants Opaque : pres.
#[export] Hint Variables Opaque : pres.

(** One step on a [pres R m] goal: the structural rule for [m]'s head, a case
    split on a [match], or a hint about a primitive. *)
Ltac pres_step :=
  lazymatch goal with
  | |- ∀ _, _ => intro
  | |- PreOrder _ => apply _
  | |- pres _ (mret _) => apply pres_ret
  | |- pres _ (throw _ _) => apply pres_throw
  | |- pres _ (rethrow _) => apply pres_rethrow
  | |- pres _ (lift _) => apply pres_lift
  | |- pres _ (gets _) => apply pres_gets
  | |- pres _ (_ ≫= _) => apply pres_bind
  | |- pres _ (catch _ _) => apply pres_catch
  | |- pres _ (try_else _ _ _) => apply pres_try_else
  | |- pres _ (suppress _) => apply pres_suppress
  | |- pres _ (foldM _ _ _) => apply pres_foldM
  | |- pres _ (mapM _ _) => apply pres_mapM
  | |- pres _ (match ?x with _ => _ end) => destruct x
  | |- pres _ ((match ?x with _ => _ end) _) => destruct x
  | |- pres _ (let _ := _ in _) => cbv zeta
  | |- pres _ _ => progress cbv beta
  end.
Ltac pres_auto := repeat (first [pres_step | solve [eauto with pres]]).

(** Split the goal on the discriminee of a match, recording the equation. *)
Ltac split_match :=
  match goal with
  | |- context [match ?x with _ => _ end] =>
      lazymatch x with context [match _ with _ => _ end] => fail | _ => destruct x eqn:? end
  end.
