(* ===== verification/Errors.v ===== *)
(** * Which exceptions a computation may raise

    [raises c o]: if [o] raises, it raises an exception of class [c].  The rules are
    hints of the database [raises], so the guards and loops of a validator are
    discharged by [auto]. *)

From S2P Require Import Prelude.

Definition raises {A} (c : exn_class) (o : outcome A) : Prop :=
  match o with Ok _ => True | Raise e => exn_cls e = c end.

Lemma raises_Ok {A} c (a : A) : raises c (Ok a).
Proof. done. Qed.
Lemma raises_raise {A} c m : raises (A:=A) c (raise c m).
Proof. done. Qed.
Lemma raises_guard c b m : raises c (guard_that b c m).
Proof. by destruct b. Qed.
Lemma raises_bind {A B} c (o : outcome A) (f : A → outcome B) :
  raises c o → (∀ a, o = Ok a → raises c (f a)) → raises c (o ≫= f).
Proof. destruct o as [a|e]; simpl; [|done]. intros _ H. by apply H. Qed.
Lemma raises_mapM {A B} c (f : A → outcome B) l :
  (∀ x, x ∈ l → raises c (f x)) → raises c (mapM f l).
Proof.
  induction l as [|x l IH]; intros H; [done|]. simpl. apply raises_bind; [apply H; by left|].
  intros y _. apply raises_bind; [apply IH; intros z Hz; apply H; by right|]. done.
Qed.
Lemma raises_if {A} c (b : bool) (o1 o2 : outcome A) :
  raises c o1 → raises c o2 → raises c (if b then o1 else o2).
Proof. by destruct b. Qed.

(** A guard that passes, and one that does not. *)
Lemma raises_inv {A} c (o : outcome A) e : raises c o → o = Raise e → exn_cls e = c.
Proof. by intros H ->. Qed.

Create HintDb raises.
#[export] Hint Resolve raises_Ok raises_raise raises_guard raises_mapM raises_if : raises.
#[export] Hint Extern 1 (raises _ (_ ≫= _)) => apply raises_bind; [|intros] : raises.
#[export] Hint Extern 2 (raises _ (match ?x with _ => _ end)) => destruct x : raises.

(** ** The guards of a computation that succeeds *)

Lemma guard_bind_Ok {A} b c m (f : unit → outcome A) y :
  guard_that b c m ≫= f = Ok y ↔ b = true ∧ f () = Ok y.
Proof. destruct b; simpl; [|split; [done|by intros [? _]]]. by split; [|intros [_ ?]]. Qed.
Lemma guard_unit_Ok b c m u : guard_that b c m = Ok u ↔ b = true.
Proof. destruct b, u; split; done. Qed.

(** Split a run that succeeded into its steps, and the guards into propositions. *)
Ltac ok_steps :=
  repeat match goal with
  | H : guard_that _ _ _ ≫= _ = Ok _ |- _ => apply guard_bind_Ok in H as [? H]
  | H : guard_that _ _ _ = Ok _ |- _ => apply guard_unit_Ok in H
  | H : _ ≫= _ = Ok _ |- _ => apply obind_Ok in H as (? & ? & H)
  | H : Ok _ = Ok _ |- _ => injection H as H
  | H : Raise _ = Ok _ |- _ => discriminate H
  | u : unit |- _ => destruct u
  end.
Ltac ok_facts :=
  repeat match goal with
  | H : _ && _ = true |- _ => apply andb_true_iff in H as [? H]
  | H : bool_decide _ = true |- _ => apply bool_decide_eq_true in H
  | H : negb _ = true |- _ => apply negb_true_iff in H
  | H : bool_decide _ = false |- _ => apply bool_decide_eq_false in H
  | H : (_ <? _)%Z = true |- _ => apply Z.ltb_lt in H
  | H : (_ <=? _)%Z = true |- _ => apply Z.leb_le in H
  | H : (_ =? _)%Z = true |- _ => apply Z.eqb_eq in H
  | H : (_ <? _)%nat = true |- _ => apply Nat.ltb_lt in H
  | H : (_ <=? _)%nat = true |- _ => apply Nat.leb_le in H
  end.
Lemma forallb_elem {A} (p : A → bool) l x : forallb p l = true → x ∈ l → p x = true.
Proof. rewrite forallb_forall. intros H Hx%list_elem_of_In. by apply H. Qed.
Lemma forallb_perm {A} (p : A → bool) l k : l ≡ₚ k → forallb p l = forallb p k.
Proof. induction 1; simpl; try congruence. by rewrite !andb_assoc, (andb_comm (p y)). Qed.
