(* ===== verification/Dicts.v ===== *)
(** * Insertion-ordered dicts

    Two idioms of the Python code over a list: [d.setdefault(key(x), []).append(x)],
    which groups, and [{key(x): x for x in l}.values()], which keeps the last element
    of each key at the place of the first. *)

From S2P Require Import Prelude.
Local Open Scope Z_scope.

(** ** Groups *)

(** [grouped.setdefault(key, []).append(x)] over a list: the groups in the order
    of their first elements. *)
Section group_by.
Context {K A : Type} `{EqDecision K} (key : A → K).
Fixpoint group_add (x : A) (d : list (K * list A)) : list (K * list A) :=
  match d with
  | [] => [(key x, [x])]
  | (k, g) :: d => if decide (k = key x) then (k, g ++ [x]) :: d else (k, g) :: group_add x d
  end.
Definition group_by (l : list A) : list (list A) := (foldl (λ d x, group_add x d) [] l).*2.
End group_by.

(** ** Dicts of values keyed by themselves *)
Section keyed.
Context {K A : Type} `{EqDecision K} (key : A → K).
Fixpoint keyed_add (x : A) (d : list A) : list A :=
  match d with
  | [] => [x]
  | y :: d => if decide (key y = key x) then x :: d else y :: keyed_add x d
  end.
Definition keyed (l : list A) : list A := foldl (λ d x, keyed_add x d) [] l.
End keyed.

(** ** Facts about groups *)

Lemma filter_iff_on {A} (P Q : A → Prop) `{∀ x, Decision (P x), ∀ x, Decision (Q x)} (l : list A) :
  (∀ x, x ∈ l → P x ↔ Q x) → filter P l = filter Q l.
Proof.
  induction l as [|x l IH]; intros HPQ; [done|]. rewrite !filter_cons.
  rewrite IH by (intros y Hy; apply HPQ; by right).
  destruct (decide (P x)) as [HP|HP], (decide (Q x)) as [HQ|HQ]; try done; exfalso.
  - by apply HQ, (HPQ x ltac:(by left)).
  - by apply HP, (HPQ x ltac:(by left)).
Qed.

Section groups.
Context {K A : Type} `{EqDecision K}.
Implicit Types (f g : A → K) (l gr : list A).

Lemma foldl_group f l : ∀ k gr d,
  foldl (λ d x, group_add f x d) ((k, gr) :: d) l =
  (k, gr ++ filter (λ y, f y = k) l) :: foldl (λ d x, group_add f x d) d (filter (λ y, f y ≠ k) l).
Proof.
  induction l as [|x l IH]; intros k gr d; [by rewrite app_nil_r|]. rewrite !filter_cons. simpl.
  destruct (decide (k = f x)) as [->|Hne].
  - rewrite decide_True, decide_False by (done || by intros ?). rewrite IH. by rewrite <-app_assoc.
  - rewrite decide_False, decide_True by congruence. by rewrite IH.
Qed.
Lemma group_by_cons f x l :
  group_by f (x :: l) = (x :: filter (λ y, f y = f x) l) :: group_by f (filter (λ y, f y ≠ f x) l).
Proof. unfold group_by. simpl. by rewrite foldl_group. Qed.

(** Induction on the groups: the first one, then those of the rest. *)
Lemma group_ind f (P : list A → Prop) :
  P [] → (∀ x l, P (filter (λ y, f y ≠ f x) l) → P (x :: l)) → ∀ l, P l.
Proof.
  intros Hnil Hcons l. induction l as [l IH] using (induction_ltof1 _ length).
  destruct l as [|x l]; [done|]. apply Hcons, IH. unfold ltof. simpl.
  pose proof (length_filter (λ y, f y ≠ f x) l). lia.
Qed.

(** The groups depend only on which elements have the same key. *)
Lemma group_by_ext f g l :
  (∀ x y, x ∈ l → y ∈ l → f x = f y ↔ g x = g y) → group_by f l = group_by g l.
Proof.
  induction l as [|x l IH] using (group_ind f); intros H; [done|]. rewrite !group_by_cons.
  assert (Hl : ∀ y, y ∈ l → f y = f x ↔ g y = g x) by (intros y Hy; apply H; by constructor).
  assert (H1 : filter (λ y, f y = f x) l = filter (λ y, g y = g x) l) by by apply filter_iff_on.
  assert (H2 : filter (λ y, f y ≠ f x) l = filter (λ y, g y ≠ g x) l)
    by (apply filter_iff_on; intros y Hy; by rewrite (Hl y Hy)).
  rewrite H1, IH, H2; [done|]. intros y z [_ Hy]%list_elem_of_filter [_ Hz]%list_elem_of_filter.
  apply H; by right.
Qed.

Lemma group_by_concat f l : concat (group_by f l) ≡ₚ l.
Proof.
  induction l as [|x l IH] using (group_ind f); [done|]. rewrite group_by_cons. simpl.
  constructor. rewrite IH. apply filter_app_complement.
Qed.
Lemma group_by_elem f l x y :
  x ∈ l → y ∈ l → f x = f y → ∃ gr, gr ∈ group_by f l ∧ x ∈ gr ∧ y ∈ gr.
Proof.
  induction l as [|z l IH] using (group_ind f); [by intros ?%elem_of_nil|]. rewrite group_by_cons.
  intros Hx Hy Hxy. destruct (decide (f x = f z)) as [Hz|Hz].
  - eexists. split; [by left|].
    assert (Hin : ∀ w, w ∈ z :: l → f w = f z → w ∈ z :: filter (λ y, f y = f z) l).
    { intros w [->|Hw]%elem_of_cons Hwz; [by left|]. right. by apply list_elem_of_filter. }
    split; apply Hin; congruence.
  - assert (Hin : ∀ w, w ∈ z :: l → f w ≠ f z → w ∈ filter (λ y, f y ≠ f z) l).
    { intros w [->|Hw]%elem_of_cons Hwz; [done|]. by apply list_elem_of_filter. }
    destruct IH as (gr & Hgr & Hxg & Hyg); [by apply Hin|apply Hin; congruence|done|].
    exists gr. split; [by right|done].
Qed.

(** Each group is a part of the list in its order, and the groups come in the order
    of their first elements. *)
Lemma group_by_sublist f l gr : gr ∈ group_by f l → gr ≠ [] ∧ gr `sublist_of` l.
Proof.
  induction l as [|x l IH] using (group_ind f); [by intros ?%elem_of_nil|]. rewrite group_by_cons.
  intros [->|Hgr]%elem_of_cons; [split; [done|]; apply sublist_skip, sublist_filter|].
  destruct (IH Hgr) as [Hne Hs]. split; [done|]. etrans; [exact Hs|]. apply sublist_cons, sublist_filter.
Qed.
Lemma group_by_heads f (R : relation A) l :
  StronglySorted R l →
  StronglySorted (λ a b, ∀ x y, head a = Some x → head b = Some y → R x y) (group_by f l).
Proof.
  induction l as [|x l IH] using (group_ind f); intros Hs; [constructor|]. rewrite group_by_cons.
  inversion Hs as [|? ? Hl Hx]; subst. constructor.
  { apply IH. eapply StronglySorted_sublist; [apply sublist_filter|done]. }
  apply Forall_forall. intros gr [_ Hgr]%group_by_sublist u v [= <-] Hv.
  apply (proj1 (Forall_forall _ _) Hx).
  assert (v ∈ gr) by (destruct gr; simplify_eq/=; by left).
  eapply sublist_elem in Hgr; [|done]. by apply list_elem_of_filter in Hgr as [_ ?].
Qed.
End groups.


Section group_spec.
Context {K A : Type} `{EqDecision K} (f : A → K).

(** A group is the part of the list with the key of one of its elements. *)
Lemma group_by_spec l gr : gr ∈ group_by f l ↔ ∃ x, x ∈ l ∧ gr = filter (λ y, f y = f x) l.
Proof.
  induction l as [|z l IH] using (group_ind f).
  { split; [by intros ?%elem_of_nil|]. by intros (x & ?%elem_of_nil & _). }
  assert (Hrest : ∀ x, f x ≠ f z →
    filter (λ y, f y = f x) (filter (λ y, f y ≠ f z) l) = filter (λ y, f y = f x) (z :: l)).
  { intros x Hx. rewrite filter_cons_False by congruence. rewrite list_filter_filter.
    apply list_filter_iff. intros y. split; [tauto|]. intros Hy. split; congruence. }
  rewrite group_by_cons, elem_of_cons, IH. split.
  - intros [->|(x & [Hx Hin]%list_elem_of_filter & ->)].
    + exists z. split; [by left|]. by rewrite filter_cons_True.
    + exists x. split; [by right|]. by apply Hrest.
  - intros (x & Hx & ->). destruct (decide (f x = f z)) as [Hz|Hz].
    + left. rewrite Hz. by rewrite filter_cons_True.
    + right. exists x. rewrite Hrest by done. split; [|done]. apply list_elem_of_filter. split; [done|].
      apply elem_of_cons in Hx as [->|?]; done.
Qed.

(** A group holds elements of the list, all with one key. *)
Lemma group_by_key l g : g ∈ group_by f l → ∃ k, ∀ y, y ∈ g → y ∈ l ∧ f y = k.
Proof.
  intros (x & _ & ->)%group_by_spec. exists (f x). by intros y [? ?]%list_elem_of_filter.
Qed.
End group_spec.

(** ** Facts about keyed dicts *)
Section keyed_facts.
Context {K A : Type} `{EqDecision K} (f : A → K).

Lemma keyed_add_keys x d : f <$> keyed_add f x d = f <$> d ∧ f x ∈ f <$> d ∨
  f <$> keyed_add f x d = (f <$> d) ++ [f x] ∧ f x ∉ f <$> d.
Proof.
  induction d as [|y d IH]; simpl; [right; split; [done|apply not_elem_of_nil]|].
  case_decide as E; [left; rewrite fmap_cons, E; split; [done|by left]|].
  rewrite !fmap_cons. destruct IH as [[-> Hin]|[-> Hin]]; [left|right].
  - split; [done|by right].
  - split; [done|]. intros [?|?]%elem_of_cons; [by apply E|done].
Qed.
Lemma keyed_add_NoDup x d : NoDup (f <$> d) → NoDup (f <$> keyed_add f x d).
Proof.
  intros Hd. destruct (keyed_add_keys x d) as [[-> _]|[-> Hn]]; [done|].
  apply NoDup_app. split; [done|]. split; [|apply NoDup_singleton].
  intros k Hk ->%list_elem_of_singleton. done.
Qed.
Lemma elem_of_keyed_add x d z :
  NoDup (f <$> d) → z ∈ keyed_add f x d ↔ z = x ∨ z ∈ d ∧ f z ≠ f x.
Proof.
  induction d as [|y d IH]; simpl; intros Hd.
  { rewrite list_elem_of_singleton. split; [by left|]. intros [?|[?%elem_of_nil _]]; done. }
  inversion Hd as [|? ? Hy Hd']; subst. case_decide as E.
  - rewrite !elem_of_cons. split; [intros [?|Hz]; [by left|right]|intros [?|[[->|?] ?]]; tauto].
    split; [by right|]. intros Hzx. apply Hy. rewrite E, <-Hzx. by apply list_elem_of_fmap_2.
  - rewrite !elem_of_cons, IH by done. split; [intros [->|[?|[? ?]]]; tauto|tauto].
Qed.

Lemma keyed_snoc l x : keyed f (l ++ [x]) = keyed_add f x (keyed f l).
Proof. unfold keyed. by rewrite foldl_app. Qed.
Lemma keyed_NoDup l : NoDup (f <$> keyed f l).
Proof. induction l using rev_ind; [constructor|]. rewrite keyed_snoc. by apply keyed_add_NoDup. Qed.

(** When the key determines the element, the dict holds the elements, once each. *)
Lemma elem_of_keyed l z :
  (∀ x y, x ∈ l → y ∈ l → f x = f y → x = y) → z ∈ keyed f l ↔ z ∈ l.
Proof.
  induction l as [|x l IH] using rev_ind; intros Hinj; [done|].
  rewrite keyed_snoc, elem_of_keyed_add by apply keyed_NoDup.
  rewrite IH by (intros; apply Hinj; rewrite ?elem_of_app; auto).
  rewrite elem_of_app, list_elem_of_singleton. split; [tauto|]. intros [Hz|Hz]; [|by left].
  destruct (decide (f z = f x)) as [E|E]; [|tauto]. left. apply Hinj; rewrite ?elem_of_app; [by left|right; by left|done].
Qed.
Lemma keyed_subset l z : z ∈ keyed f l → z ∈ l.
Proof.
  induction l as [|x l IH] using rev_ind; [done|].
  rewrite keyed_snoc, elem_of_keyed_add by apply keyed_NoDup. rewrite elem_of_app, list_elem_of_singleton. tauto.
Qed.
Lemma keyed_key l x : x ∈ l → ∃ y, y ∈ keyed f l ∧ f y = f x.
Proof.
  induction l as [|z l IH] using rev_ind; [by intros ?%elem_of_nil|].
  rewrite keyed_snoc. intros [Hx|Hx%list_elem_of_singleton]%elem_of_app.
  - destruct (IH Hx) as (y & Hy & E). destruct (decide (f y = f z)).
    + exists z. split; [|congruence]. apply elem_of_keyed_add; [apply keyed_NoDup|by left].
    + exists y. split; [|done]. apply elem_of_keyed_add; [apply keyed_NoDup|by right].
  - subst. exists z. split; [|done]. apply elem_of_keyed_add; [apply keyed_NoDup|by left].
Qed.
End keyed_facts.

Lemma filter_fmap_iff {A B} (g : A → B) (P : B → Prop) (Q : A → Prop)
    `{∀ x, Decision (P x), ∀ x, Decision (Q x)} (l : list A) :
  (∀ x, P (g x) ↔ Q x) → filter P (g <$> l) = g <$> filter Q l.
Proof.
  intros HPQ. induction l as [|x l IH]; [done|]. rewrite fmap_cons, !filter_cons.
  destruct (decide (P _)) as [HP|HP], (decide (Q _)); rewrite HPQ in HP; try done. by rewrite IH, fmap_cons.
Qed.
Lemma group_by_fmap {A} (f : A → string) (g : A → A) (l : list A) : (∀ x, f (g x) = f x) →
  group_by f (g <$> l) = fmap (M:=list) g <$> group_by f l.
Proof.
  intros Hf. induction l as [|x l IH] using (group_ind f); [done|]. rewrite fmap_cons, !group_by_cons, fmap_cons, fmap_cons.
  rewrite (filter_fmap_iff g _ (λ y, f y = f x)) by (intros; by rewrite !Hf). f_equal.
  rewrite (filter_fmap_iff g _ (λ y, f y ≠ f x)) by (intros; by rewrite !Hf). exact IH.
Qed.
