(* ===== verification/Text.v ===== *)
(** * Text

    Python [str] values of the modelled code as byte strings: fixed-width and
    decimal number formatting, the blank-text checks, and the closed regular
    expressions of the source as matchers that return the possible rests. *)

From S2P Require Import Prelude.

(** ** Characters and bounded text *)

Definition is_lower (c : ascii) : bool :=
  let n := nat_of_ascii c in bool_decide (97 ≤ n ∧ n ≤ 122).
Definition is_upper (c : ascii) : bool :=
  let n := nat_of_ascii c in bool_decide (65 ≤ n ∧ n ≤ 90).
Definition is_digit (c : ascii) : bool :=
  let n := nat_of_ascii c in bool_decide (48 ≤ n ∧ n ≤ 57).
Definition is_char (d c : ascii) : bool := bool_decide (c = d).

(** The ASCII part of [str.isspace]. *)
Definition is_space (c : ascii) : bool :=
  let n := nat_of_ascii c in bool_decide ((9 ≤ n ∧ n ≤ 13) ∨ (28 ≤ n ∧ n ≤ 32)).

Fixpoint str_forallb (p : ascii → bool) (s : string) : bool :=
  match s with EmptyString => true | String c s' => p c && str_forallb p s' end.

(** [not value.strip()] *)
Definition is_blank (s : string) : bool := str_forallb is_space s.
(** ["\x00" in value] *)
Definition has_nul (s : string) : bool := negb (str_forallb (λ c, negb (is_char "000" c)) s).

(** The recurring check: exact text, not blank, at most [n] long, no NUL. *)
Definition bounded_text (n : nat) (s : string) : bool :=
  negb (is_blank s) && bool_decide (String.length s ≤ n) && negb (has_nul s).

(** [text[:n]] *)
Definition take_text (n : nat) (s : string) : string := String.substring 0 n s.

(** [",".join(items)] *)
Fixpoint join_comma (l : list string) : string :=
  match l with
  | [] => ""
  | [s] => s
  | s :: l' => s +:+ ("," +:+ join_comma l')
  end.

(** ** Numbers *)

Definition digit (n : Z) : ascii := ascii_of_nat (48 + Z.to_nat n).
Definition digits2 (n : Z) : string :=
  String (digit (n `div` 10)) (String (digit (n `mod` 10)) "").
Definition digits4 (n : Z) : string :=
  String (digit (n `div` 1000)) (String (digit ((n `div` 100) `mod` 10))
    (String (digit ((n `div` 10) `mod` 10)) (String (digit (n `mod` 10)) ""))).

(** [str(n)] for an int *)
Definition int_text (n : Z) : string := pretty n.

(** [f"{n:06d}"] for a non-negative int *)
Fixpoint zeros (n : nat) : string :=
  match n with O => "" | S n' => String "0" (zeros n') end.
Definition pad6 (n : Z) : string :=
  zeros (6 - String.length (int_text n)) +:+ int_text n.

(** ** Matchers: [m s] lists the rests of [s] after one match of the pattern *)

Definition matcher := string → list string.

Definition m_char (p : ascii → bool) : matcher := λ s,
  match s with String c s' => if p c then [s'] else [] | EmptyString => [] end.

(** [p{0,n}] *)
Fixpoint m_upto (p : ascii → bool) (n : nat) : matcher := λ s,
  s :: match n, s with
       | S n', String c s' => if p c then m_upto p n' s' else []
       | _, _ => []
       end.

Definition m_seq (m1 m2 : matcher) : matcher := λ s, m1 s ≫= m2.
Definition m_alt (m1 m2 : matcher) : matcher := λ s, m1 s ++ m2 s.

Fixpoint m_lit (t : string) : matcher := λ s,
  match t with
  | EmptyString => [s]
  | String c t' => match s with
                   | String d s' => if bool_decide (c = d) then m_lit t' s' else []
                   | EmptyString => []
                   end
  end.

(** [p{n}] *)
Fixpoint m_times (p : ascii → bool) (n : nat) : matcher :=
  match n with O => λ s, [s] | S n' => m_seq (m_char p) (m_times p n') end.

(** [re.fullmatch] *)
Definition fullmatch (m : matcher) (s : string) : bool :=
  bool_decide (EmptyString ∈ m s).

(** ** Lemmas on strings *)

#[global] Arguments String.append !_ _ / : simpl nomatch.

Lemma str_app_nil_r s : s +:+ "" = s.
Proof. induction s as [|c s IH]; simpl; [done|by rewrite IH]. Qed.
Lemma str_app_assoc s1 s2 s3 : s1 +:+ (s2 +:+ s3) = (s1 +:+ s2) +:+ s3.
Proof. induction s1 as [|c s1 IH]; simpl; [done|by rewrite IH]. Qed.
Lemma str_length_app s1 s2 :
  String.length (s1 +:+ s2) = String.length s1 + String.length s2.
Proof. induction s1 as [|c s1 IH]; simpl; [done|lia]. Qed.
Lemma str_forallb_app p s1 s2 :
  str_forallb p (s1 +:+ s2) = str_forallb p s1 && str_forallb p s2.
Proof. induction s1 as [|c s1 IH]; simpl; [done|]. by rewrite IH, andb_assoc. Qed.
Lemma str_app_inv_l s s1 s2 : s +:+ s1 = s +:+ s2 → s1 = s2.
Proof. induction s as [|c s IH]; simpl; [done|]. intros [= ?]. auto. Qed.

Lemma str_app_inj_1 s1 s1' s2 s2' :
  String.length s1 = String.length s1' → s1 +:+ s2 = s1' +:+ s2' → s1 = s1' ∧ s2 = s2'.
Proof.
  revert s1'. induction s1 as [|c s1 IH]; intros [|c' s1']; simpl; intros Hl Heq;
    try done. simplify_eq. by destruct (IH s1') as [-> ->].
Qed.
Lemma str_app_inj_2 s1 s1' s2 s2' :
  String.length s2 = String.length s2' → s1 +:+ s2 = s1' +:+ s2' → s1 = s1' ∧ s2 = s2'.
Proof.
  intros Hl Heq. apply str_app_inj_1; [|done].
  apply (f_equal String.length) in Heq. rewrite !str_length_app in Heq. lia.
Qed.

(** The split at the first character outside [p] is unique. *)
Lemma str_span_inj p s1 c1 r1 s2 c2 r2 :
  str_forallb p s1 = true → p c1 = false →
  str_forallb p s2 = true → p c2 = false →
  s1 +:+ String c1 r1 = s2 +:+ String c2 r2 →
  s1 = s2 ∧ c1 = c2 ∧ r1 = r2.
Proof.
  revert s2. induction s1 as [|a s1 IH]; intros [|b s2] H1 Hc1 H2 Hc2 Heq; simpl in *;
    simplify_eq; try done.
  - apply andb_true_iff in H2 as [? _]. congruence.
  - apply andb_true_iff in H1 as [? _]. congruence.
  - apply andb_true_iff in H1 as [_ H1], H2 as [_ H2].
    destruct (IH s2) as (-> & -> & ->); auto.
Qed.

Fixpoint str_rev_app (s acc : string) : string :=
  match s with EmptyString => acc | String c s' => str_rev_app s' (String c acc) end.

Lemma str_rev_app_app s1 s2 acc :
  str_rev_app (s1 +:+ s2) acc = str_rev_app s2 (str_rev_app s1 acc).
Proof. revert acc. induction s1 as [|c s1 IH]; intros acc; simpl; [done|apply IH]. Qed.
Lemma str_rev_app_acc s acc : str_rev_app s acc = str_rev_app s "" +:+ acc.
Proof.
  revert acc. induction s as [|c s IH]; intros acc; simpl; [done|].
  rewrite (IH (String c acc)), (IH (String c "")), <-str_app_assoc. done.
Qed.
Lemma str_rev_app_inj s1 s2 : str_rev_app s1 "" = str_rev_app s2 "" → s1 = s2.
Proof.
  assert (Hinv : ∀ s, str_rev_app (str_rev_app s "") "" = s).
  { induction s as [|c s IH]; simpl; [done|].
    rewrite (str_rev_app_acc s (String c "")), str_rev_app_app, IH. done. }
  intros Heq. by rewrite <-(Hinv s1), <-(Hinv s2), Heq.
Qed.
Lemma str_forallb_rev p s acc :
  str_forallb p (str_rev_app s acc) = str_forallb p s && str_forallb p acc.
Proof.
  revert acc. induction s as [|c s IH]; intros acc; simpl; [done|]. rewrite IH. simpl.
  rewrite andb_assoc. f_equal. apply andb_comm.
Qed.

(** The split after the last character outside [p] is unique. *)
Lemma str_span_last_inj p r1 c1 s1 r2 c2 s2 :
  str_forallb p s1 = true → p c1 = false →
  str_forallb p s2 = true → p c2 = false →
  r1 +:+ String c1 s1 = r2 +:+ String c2 s2 →
  r1 = r2 ∧ c1 = c2 ∧ s1 = s2.
Proof.
  intros H1 Hc1 H2 Hc2 Heq%(f_equal (λ s, str_rev_app s "")).
  rewrite !str_rev_app_app in Heq. simpl in Heq.
  rewrite (str_rev_app_acc s1), (str_rev_app_acc s2) in Heq. simpl in Heq.
  apply (str_span_inj p) in Heq as (Hs & -> & Hr);
    rewrite ?str_forallb_rev; try by rewrite ?H1, ?H2.
  split_and!; [|done|]; by apply str_rev_app_inj.
Qed.

(** ** Lemmas on numbers *)

Lemma is_digit_digit n : (0 ≤ n < 10)%Z → is_digit (digit n) = true.
Proof.
  intros Hn. unfold is_digit, digit. apply bool_decide_eq_true.
  rewrite nat_ascii_embedding by lia. lia.
Qed.
Lemma digit_inj n m : (0 ≤ n < 10)%Z → (0 ≤ m < 10)%Z → digit n = digit m → n = m.
Proof.
  unfold digit. intros Hn Hm Heq%(f_equal nat_of_ascii).
  rewrite !nat_ascii_embedding in Heq by lia. lia.
Qed.

Lemma digits2_inj n m :
  (0 ≤ n < 100)%Z → (0 ≤ m < 100)%Z → digits2 n = digits2 m → n = m.
Proof.
  intros Hn Hm [= H1 H2].
  apply digit_inj in H1; [|split; [apply Z.div_pos|apply Z.div_lt_upper_bound]; lia..].
  apply digit_inj in H2; [|apply Z.mod_pos_bound; lia..].
  rewrite (Z.div_mod n 10), (Z.div_mod m 10) by lia. lia.
Qed.

Lemma digits4_inj n m :
  (0 ≤ n < 10000)%Z → (0 ≤ m < 10000)%Z → digits4 n = digits4 m → n = m.
Proof.
  intros Hn Hm [= H1 H2 H3 H4].
  apply digit_inj in H1; [|split; [apply Z.div_pos|apply Z.div_lt_upper_bound]; lia..].
  apply digit_inj in H2, H3, H4; try (apply Z.mod_pos_bound; lia).
  change 1000%Z with (100 * 10)%Z in H1. rewrite <-!Z.div_div in H1 by lia.
  assert (n `div` 100 = m `div` 100)%Z as H100.
  { rewrite (Z.div_mod (n `div` 100) 10), (Z.div_mod (m `div` 100) 10) by lia. lia. }
  change 100%Z with (10 * 10)%Z in H100, H2. rewrite <-!Z.div_div in H100 by lia.
  assert (n `div` 10 = m `div` 10)%Z as H10.
  { rewrite (Z.div_mod (n `div` 10) 10), (Z.div_mod (m `div` 10) 10) by lia. lia. }
  rewrite (Z.div_mod n 10), (Z.div_mod m 10) by lia. lia.
Qed.

Lemma digits2_digits n : (0 ≤ n < 100)%Z → str_forallb is_digit (digits2 n) = true.
Proof.
  intros Hn. unfold digits2. cbn [str_forallb].
  rewrite !is_digit_digit; [done|apply Z.mod_pos_bound; lia|].
  split; [apply Z.div_pos|apply Z.div_lt_upper_bound]; lia.
Qed.
Lemma digits4_digits n : (0 ≤ n < 10000)%Z → str_forallb is_digit (digits4 n) = true.
Proof.
  intros Hn. unfold digits4. cbn [str_forallb].
  rewrite !is_digit_digit; [done|try (apply Z.mod_pos_bound; lia)..].
  split; [apply Z.div_pos|apply Z.div_lt_upper_bound]; lia.
Qed.

(** [str(n)]: one digit per power of ten, no leading zero. *)
Lemma pretty_go_spec (x : N) s :
  (0 < x)%N → ∃ t : string, pretty_N_go x s = t +:+ s ∧ str_forallb is_digit t = true ∧
    (∃ c t', t = String c t' ∧ c ≠ "048"%char) ∧
    (10 ^ (Z.of_nat (String.length t) - 1) ≤ Z.of_N x < 10 ^ Z.of_nat (String.length t))%Z.
Proof.
  revert s. induction x as [x IH] using (well_founded_induction N.lt_wf_0). intros s Hx.
  rewrite pretty_N_go_step by done.
  assert (Hmod : (x `mod` 10 < 10)%N) by (by apply N.mod_lt).
  assert (Hc : pretty_N_char (x `mod` 10) = digit (Z.of_N (x `mod` 10))).
  { destruct (x `mod` 10)%N as [|p]; [done|].
    do 10 (destruct p as [p|p|]; try done; try lia). }
  assert (Hd : is_digit (pretty_N_char (x `mod` 10)) = true).
  { rewrite Hc. apply is_digit_digit. clear -Hmod. revert Hmod.
    generalize (x `mod` 10)%N. lia. }
  pose proof (N.div_mod x 10 ltac:(done)) as Hdm.
  destruct (decide (x `div` 10 = 0)%N) as [H0|H0].
  - rewrite H0, pretty_N_go_0. exists (String (pretty_N_char (x `mod` 10)) "").
    split; [done|]. split; [by simpl; rewrite Hd|]. split.
    + eexists _, _; split; [done|]. rewrite Hc. intros Heq.
      apply (f_equal nat_of_ascii) in Heq. unfold digit in Heq.
      rewrite nat_ascii_embedding in Heq by lia.
      change (nat_of_ascii "048") with 48 in Heq. lia.
    + change (String.length _) with 1. change (10 ^ (Z.of_nat 1 - 1))%Z with 1%Z.
      change (10 ^ Z.of_nat 1)%Z with 10%Z. lia.
  - destruct (IH (x `div` 10)%N) with (s := String (pretty_N_char (x `mod` 10)) s)
      as (t & -> & Ht & (c & t' & -> & Hne) & Hb); [apply N.div_lt; lia|lia|].
    exists (String c t' +:+ String (pretty_N_char (x `mod` 10)) "").
    split; [by rewrite <-str_app_assoc|].
    split; [by rewrite str_forallb_app, Ht; simpl; rewrite Hd|]. split; [by eexists c, _|].
    rewrite str_length_app. change (String.length (String _ "")) with 1.
    set (k := String.length (String c t')) in *.
    assert (1 ≤ k) by (unfold k; simpl; lia).
    replace (Z.of_nat (k + 1) - 1)%Z with (Z.succ (Z.of_nat k - 1)) by lia.
    replace (Z.of_nat (k + 1)) with (Z.succ (Z.of_nat k)) by lia.
    rewrite !Z.pow_succ_r by lia. clearbody k. revert Hdm Hb Hmod. clear.
    generalize (x `div` 10)%N (x `mod` 10)%N. lia.
Qed.

Lemma int_text_spec n :
  (0 < n)%Z → str_forallb is_digit (int_text n) = true ∧
    (∃ c t, int_text n = String c t ∧ c ≠ "048"%char) ∧
    (10 ^ (Z.of_nat (String.length (int_text n)) - 1) ≤ n
      < 10 ^ Z.of_nat (String.length (int_text n)))%Z.
Proof.
  intros Hn. destruct n as [|p|p]; [lia| |lia].
  destruct (pretty_go_spec (Npos p) "" ltac:(done)) as (t & Heq & H1 & H2 & H3).
  rewrite str_app_nil_r in Heq.
  assert (int_text (Zpos p) = t) as ->; [|done].
  unfold int_text, pretty, pretty_Z, pretty, pretty_N. simpl. done.
Qed.

#[global] Instance int_text_inj : Inj (=) (=) int_text.
Proof. intros n m. apply (inj pretty). Qed.

(** ** Lemmas on matchers *)

Lemma m_seq_intro m1 m2 s t r : t ∈ m1 s → r ∈ m2 t → r ∈ m_seq m1 m2 s.
Proof. intros H1 H2. unfold m_seq. apply list_elem_of_bind. eauto. Qed.
Lemma m_seq_elim m1 m2 s r : r ∈ m_seq m1 m2 s → ∃ t, t ∈ m1 s ∧ r ∈ m2 t.
Proof. unfold m_seq. intros (t & ? & ?)%list_elem_of_bind. eauto. Qed.
Lemma m_char_intro p c r : p c = true → r ∈ m_char p (String c r).
Proof. intros H. simpl. rewrite H. constructor. Qed.
Lemma m_char_elim p s r : r ∈ m_char p s → ∃ c, s = String c r ∧ p c = true.
Proof.
  destruct s as [|c s]; simpl; [by intros ?%elem_of_nil|]. destruct (p c) eqn:E.
  - intros ->%list_elem_of_singleton. eauto.
  - by intros ?%elem_of_nil.
Qed.
Lemma m_lit_intro t r : r ∈ m_lit t (t +:+ r).
Proof.
  induction t as [|c t IH]; simpl; [constructor|]. by rewrite bool_decide_eq_true_2.
Qed.
Lemma m_upto_intro p n s r :
  str_forallb p s = true → String.length s ≤ n → r ∈ m_upto p n (s +:+ r).
Proof.
  revert n. induction s as [|c s IH]; intros n Hp Hn.
  { destruct n; simpl; left. }
  simpl in *. apply andb_true_iff in Hp as [Hc Hp]. destruct n as [|n]; [lia|].
  simpl. rewrite Hc. right. apply IH; [done|lia].
Qed.
Lemma m_upto_elim p n s r :
  r ∈ m_upto p n s → ∃ t, s = t +:+ r ∧ str_forallb p t = true ∧ String.length t ≤ n.
Proof.
  revert s. induction n as [|n IH]; intros s; simpl.
  { intros ->%list_elem_of_singleton. exists "". split_and!; [done..|simpl; lia]. }
  intros [->|H]%elem_of_cons.
  { exists "". split_and!; [done..|simpl; lia]. }
  destruct s as [|c s]; [by apply elem_of_nil in H|].
  destruct (p c) eqn:Hc; [|by apply elem_of_nil in H].
  destruct (IH s H) as (t & -> & Ht & Hl). exists (String c t). simpl.
  rewrite Hc. split_and!; [done..|simpl; lia].
Qed.
Lemma m_times_intro p s r :
  str_forallb p s = true → r ∈ m_times p (String.length s) (s +:+ r).
Proof.
  induction s as [|c s IH]; simpl; [constructor|]. intros [Hc Hs]%andb_true_iff.
  eapply m_seq_intro; [by apply m_char_intro|by apply IH].
Qed.

(** [first][rest]{0,n}: the shape of every identifier pattern of the source. *)
Definition m_ident (first rest : ascii → bool) (n : nat) : matcher :=
  m_seq (m_char first) (m_upto rest n).

Definition ident_shape (first rest : ascii → bool) (n : nat) (s : string) : Prop :=
  ∃ c t, s = String c t ∧ first c = true ∧ str_forallb rest t = true ∧ String.length t ≤ n.

Lemma fullmatch_ident first rest n s :
  fullmatch (m_ident first rest n) s = true ↔ ident_shape first rest n s.
Proof.
  unfold fullmatch, m_ident, ident_shape. rewrite bool_decide_eq_true. split.
  - intros (t & (c & -> & Hc)%m_char_elim & (u & -> & Hu & Hl)%m_upto_elim)%m_seq_elim.
    rewrite str_app_nil_r. eauto 10.
  - intros (c & t & -> & Hc & Ht & Hl). eapply m_seq_intro; [by apply m_char_intro|].
    rewrite <-(str_app_nil_r t) at 1. by apply m_upto_intro.
Qed.
Lemma m_ident_intro first rest n s r :
  ident_shape first rest n s → r ∈ m_ident first rest n (s +:+ r).
Proof.
  intros (c & t & -> & Hc & Ht & Hl). eapply m_seq_intro; [by apply m_char_intro|].
  by apply m_upto_intro.
Qed.

Lemma str_forallb_mono (p q : ascii → bool) s :
  (∀ c, p c = true → q c = true) → str_forallb p s = true → str_forallb q s = true.
Proof.
  intros H. induction s as [|c s IH]; simpl; [done|].
  intros [? ?]%andb_true_iff. apply andb_true_iff. auto.
Qed.

(** ** Lemmas on joining *)
Lemma take_text_length n s : String.length (take_text n s) ≤ n.
Proof.
  unfold take_text. revert n. induction s as [|c s IH]; intros [|n]; simpl; try lia.
  specialize (IH n). lia.
Qed.
