(* ===== verification/Orders.v ===== *)
(** * Orders: [src/seven_lens/execution/orders.py]

    The closed status enumerations and their transition maps, exact two-decimal
    money, the price collar, the deterministic client order id, and the three
    records the execution core moves around: [OrderIntent], [BrokerOrder] and
    [Fill].  Dataclass constructors that validate are [make_*] functions in the
    error monad; instants are integers (microseconds), dates are civil dates. *)

From S2P Require Import Prelude Text.
Local Open Scope Z_scope.

(** ** Enumerations *)

Module OrderSide.
Inductive t := BUY | SELL.
#[global] Instance eq_dec : EqDecision t.
Proof. solve_decision. Defined.
Definition value (s : t) : string := match s with BUY => "BUY" | SELL => "SELL" end.
Definition lower (s : t) : string := match s with BUY => "buy" | SELL => "sell" end.
End OrderSide.

Module OrderIntentType.
Inductive t := REBALANCE | RISK_EXIT.
#[global] Instance eq_dec : EqDecision t.
Proof. solve_decision. Defined.
End OrderIntentType.

Module OrderStatus.
Inductive t :=
  | CREATED | RISK_APPROVED | OUTBOX_PENDING | SUBMITTING | ACKNOWLEDGED
  | PARTIALLY_FILLED | FILLED | CANCEL_PENDING | CANCELED | REJECTED | EXPIRED
  | UNKNOWN | REVIEW_REQUIRED.
#[global] Instance eq_dec : EqDecision t.
Proof. solve_decision. Defined.
Definition all : list t :=
  [CREATED; RISK_APPROVED; OUTBOX_PENDING; SUBMITTING; ACKNOWLEDGED; PARTIALLY_FILLED;
   FILLED; CANCEL_PENDING; CANCELED; REJECTED; EXPIRED; UNKNOWN; REVIEW_REQUIRED].
Definition value (s : t) : string :=
  match s with
  | CREATED => "CREATED" | RISK_APPROVED => "RISK_APPROVED"
  | OUTBOX_PENDING => "OUTBOX_PENDING" | SUBMITTING => "SUBMITTING"
  | ACKNOWLEDGED => "ACKNOWLEDGED" | PARTIALLY_FILLED => "PARTIALLY_FILLED"
  | FILLED => "FILLED" | CANCEL_PENDING => "CANCEL_PENDING"
  | CANCELED => "CANCELED" | REJECTED => "REJECTED" | EXPIRED => "EXPIRED"
  | UNKNOWN => "UNKNOWN" | REVIEW_REQUIRED => "REVIEW_REQUIRED"
  end.
End OrderStatus.

Module BrokerOrderStatus.
Inductive t :=
  | RECEIVED | ACCEPTED | ACCEPTED_FOR_BIDDING | PARTIALLY_FILLED | FILLED
  | PENDING_CANCEL | CANCELED | EXPIRED | REJECTED | DONE_FOR_DAY | REPLACED
  | PENDING_REPLACE | STOPPED | SUSPENDED | CALCULATED.
#[global] Instance eq_dec : EqDecision t.
Proof. solve_decision. Defined.
Definition value (s : t) : string :=
  match s with
  | RECEIVED => "RECEIVED" | ACCEPTED => "ACCEPTED"
  | ACCEPTED_FOR_BIDDING => "ACCEPTED_FOR_BIDDING"
  | PARTIALLY_FILLED => "PARTIALLY_FILLED" | FILLED => "FILLED"
  | PENDING_CANCEL => "PENDING_CANCEL" | CANCELED => "CANCELED"
  | EXPIRED => "EXPIRED" | REJECTED => "REJECTED" | DONE_FOR_DAY => "DONE_FOR_DAY"
  | REPLACED => "REPLACED" | PENDING_REPLACE => "PENDING_REPLACE"
  | STOPPED => "STOPPED" | SUSPENDED => "SUSPENDED" | CALCULATED => "CALCULATED"
  end.
End BrokerOrderStatus.

(** ** The intent lifecycle *)

Definition TERMINAL_ORDER_STATUSES : list OrderStatus.t :=
  [OrderStatus.FILLED; OrderStatus.CANCELED; OrderStatus.REJECTED; OrderStatus.EXPIRED].

Definition ORDER_STATUS_TRANSITIONS (s : OrderStatus.t) : list OrderStatus.t :=
  match s with
  | OrderStatus.CREATED =>
      [OrderStatus.RISK_APPROVED; OrderStatus.REJECTED; OrderStatus.EXPIRED]
  | OrderStatus.RISK_APPROVED => [OrderStatus.OUTBOX_PENDING; OrderStatus.EXPIRED]
  | OrderStatus.OUTBOX_PENDING => [OrderStatus.SUBMITTING; OrderStatus.EXPIRED]
  | OrderStatus.SUBMITTING =>
      [OrderStatus.ACKNOWLEDGED; OrderStatus.PARTIALLY_FILLED; OrderStatus.FILLED;
       OrderStatus.REJECTED; OrderStatus.EXPIRED; OrderStatus.UNKNOWN;
       OrderStatus.CANCEL_PENDING; OrderStatus.CANCELED; OrderStatus.REVIEW_REQUIRED]
  | OrderStatus.ACKNOWLEDGED =>
      [OrderStatus.PARTIALLY_FILLED; OrderStatus.FILLED; OrderStatus.CANCEL_PENDING;
       OrderStatus.EXPIRED; OrderStatus.REVIEW_REQUIRED]
  | OrderStatus.PARTIALLY_FILLED =>
      [OrderStatus.PARTIALLY_FILLED; OrderStatus.FILLED; OrderStatus.CANCEL_PENDING;
       OrderStatus.EXPIRED; OrderStatus.REVIEW_REQUIRED]
  | OrderStatus.CANCEL_PENDING =>
      [OrderStatus.PARTIALLY_FILLED; OrderStatus.FILLED; OrderStatus.CANCELED;
       OrderStatus.EXPIRED; OrderStatus.REVIEW_REQUIRED]
  | OrderStatus.UNKNOWN =>
      [OrderStatus.ACKNOWLEDGED; OrderStatus.PARTIALLY_FILLED; OrderStatus.FILLED;
       OrderStatus.CANCEL_PENDING; OrderStatus.CANCELED; OrderStatus.REJECTED;
       OrderStatus.EXPIRED; OrderStatus.REVIEW_REQUIRED]
  | OrderStatus.FILLED | OrderStatus.CANCELED | OrderStatus.REJECTED
  | OrderStatus.EXPIRED => [OrderStatus.REVIEW_REQUIRED]
  | OrderStatus.REVIEW_REQUIRED => []
  end.

Definition order_transition_allowed (current target : OrderStatus.t) : bool :=
  bool_decide (target ∈ ORDER_STATUS_TRANSITIONS current).

Definition assert_order_transition (current target : OrderStatus.t) : outcome unit :=
  guard_that (order_transition_allowed current target) EInvalidOrderTransition
    ("order status transition " +:+ (OrderStatus.value current +:+ (" -> " +:+
       (OrderStatus.value target +:+ " is not permitted")))).

(** ** The broker-side lifecycle *)

Definition TERMINAL_BROKER_ORDER_STATUSES : list BrokerOrderStatus.t :=
  [BrokerOrderStatus.FILLED; BrokerOrderStatus.CANCELED; BrokerOrderStatus.EXPIRED;
   BrokerOrderStatus.REJECTED].

Definition REVIEW_BROKER_ORDER_STATUSES : list BrokerOrderStatus.t :=
  [BrokerOrderStatus.DONE_FOR_DAY; BrokerOrderStatus.REPLACED;
   BrokerOrderStatus.PENDING_REPLACE; BrokerOrderStatus.STOPPED;
   BrokerOrderStatus.SUSPENDED; BrokerOrderStatus.CALCULATED].

Definition BROKER_ORDER_STATUS_TRANSITIONS (s : BrokerOrderStatus.t)
    : list BrokerOrderStatus.t :=
  match s with
  | BrokerOrderStatus.RECEIVED =>
      [BrokerOrderStatus.ACCEPTED; BrokerOrderStatus.ACCEPTED_FOR_BIDDING;
       BrokerOrderStatus.PARTIALLY_FILLED; BrokerOrderStatus.FILLED;
       BrokerOrderStatus.PENDING_CANCEL; BrokerOrderStatus.CANCELED;
       BrokerOrderStatus.EXPIRED; BrokerOrderStatus.REJECTED]
      ++ REVIEW_BROKER_ORDER_STATUSES
  | BrokerOrderStatus.ACCEPTED | BrokerOrderStatus.ACCEPTED_FOR_BIDDING
  | BrokerOrderStatus.PARTIALLY_FILLED =>
      [BrokerOrderStatus.PARTIALLY_FILLED; BrokerOrderStatus.FILLED;
       BrokerOrderStatus.PENDING_CANCEL; BrokerOrderStatus.CANCELED;
       BrokerOrderStatus.EXPIRED; BrokerOrderStatus.REJECTED]
      ++ REVIEW_BROKER_ORDER_STATUSES
  | BrokerOrderStatus.PENDING_CANCEL =>
      [BrokerOrderStatus.PENDING_CANCEL; BrokerOrderStatus.PARTIALLY_FILLED;
       BrokerOrderStatus.FILLED; BrokerOrderStatus.CANCELED;
       BrokerOrderStatus.EXPIRED; BrokerOrderStatus.REJECTED]
      ++ REVIEW_BROKER_ORDER_STATUSES
  | _ => []
  end.

Definition broker_order_transition_allowed (current target : BrokerOrderStatus.t) : bool :=
  bool_decide (target ∈ BROKER_ORDER_STATUS_TRANSITIONS current).

Definition assert_broker_order_transition (current target : BrokerOrderStatus.t)
    : outcome unit :=
  guard_that (broker_order_transition_allowed current target) EInvalidBrokerOrderTransition
    ("broker order status " +:+ (BrokerOrderStatus.value current +:+ (" -> " +:+
       (BrokerOrderStatus.value target +:+ " is not representable")))).

(** ** Decimals

    [decimal.Decimal] values: a coefficient and a power of ten.  Arithmetic is
    exact because every operand of the source stays below the context's 28
    digits (see [collar_product_digits]). *)

Record Decimal := mk_dec { dec_coeff : Z; dec_exp : Z }.
#[global] Instance Decimal_eq_dec : EqDecision Decimal.
Proof. solve_decision. Defined.

(** What reaches the validating constructors: a finite value or NaN/Infinity. *)
Inductive py_decimal := Finite (d : Decimal) | NonFinite.

(** Comparison by value, through the smaller of the two exponents. *)
Definition dec_at (e : Z) (d : Decimal) : Z := dec_coeff d * 10 ^ (dec_exp d - e).
Definition dec_leb (a b : Decimal) : bool :=
  let e := Z.min (dec_exp a) (dec_exp b) in dec_at e a <=? dec_at e b.
Definition dec_ltb (a b : Decimal) : bool := negb (dec_leb b a).

Definition dec_mul (a b : Decimal) : Decimal :=
  mk_dec (dec_coeff a * dec_coeff b) (dec_exp a + dec_exp b).
Definition scaleb (d : Decimal) (n : Z) : Decimal := mk_dec (dec_coeff d) (dec_exp d + n).
(** [int(d)] truncates toward zero. *)
Definition dec_int (d : Decimal) : Z :=
  if 0 <=? dec_exp d then dec_coeff d * 10 ^ dec_exp d
  else Z.quot (dec_coeff d) (10 ^ (- dec_exp d)).

Inductive rounding := ROUND_FLOOR | ROUND_CEILING.
(** [d.quantize(Decimal("0.01"), rounding=r)] *)
Definition quantize_cents (r : rounding) (d : Decimal) : Decimal :=
  let k := dec_exp d + 2 in
  mk_dec (if 0 <=? k then dec_coeff d * 10 ^ k
          else match r with
               | ROUND_FLOOR => (dec_coeff d) `div` (10 ^ (- k))
               | ROUND_CEILING => - ((- dec_coeff d) `div` (10 ^ (- k)))
               end) (-2).
Definition dec_max (a b : Decimal) : Decimal := if dec_ltb a b then b else a.

Definition CENTS : Decimal := mk_dec 1 (-2).
Definition PRICE_MAX : Decimal := mk_dec 1000000000 (-2).
Definition USD_MAX : Decimal := mk_dec 1000000000000 (-2).
Definition MAX_TARGET_VERSION : Z := 10000000000.
Definition COLLAR_OFFSET_BPS_MIN : Z := 1.
Definition COLLAR_OFFSET_BPS_MAX : Z := 500.

(** ** Value objects *)

Record Price := mk_Price { Price_value : Decimal }.
#[global] Instance Price_eq_dec : EqDecision Price.
Proof. solve_decision. Defined.

Definition make_Price (v : py_decimal) : outcome Price :=
  match v with
  | NonFinite => raise EValueError "price must be finite"
  | Finite d =>
      guard_that (dec_exp d =? -2) EValueError "price must use exactly two decimal places" ≫= λ _,
      guard_that (negb (dec_leb d (mk_dec 0 0) || dec_ltb PRICE_MAX d)) EValueError
        "price must be greater than zero and at most 10,000,000.00" ≫= λ _,
      Ok (mk_Price d)
  end.

Definition Price_from_cents (cents : Z) : outcome Price :=
  guard_that (negb ((cents <? 1) || (1000000000 <? cents))) EValueError
    "cents must be a positive integer up to 1,000,000,000" ≫= λ _,
  make_Price (Finite (scaleb (mk_dec cents 0) (-2))).

Definition Price_cents (p : Price) : Z := dec_int (scaleb (Price_value p) 2).

Record UsdAmount := mk_UsdAmount { UsdAmount_value : Decimal }.
#[global] Instance UsdAmount_eq_dec : EqDecision UsdAmount.
Proof. solve_decision. Defined.

Definition make_UsdAmount (v : py_decimal) : outcome UsdAmount :=
  match v with
  | NonFinite => raise EValueError "amount must be finite"
  | Finite d =>
      guard_that (dec_exp d =? -2) EValueError "amount must use exactly two decimal places" ≫= λ _,
      guard_that (negb (dec_ltb d (mk_dec 0 0) || dec_ltb USD_MAX d)) EValueError
        "amount must be zero or positive and at most 10,000,000,000.00" ≫= λ _,
      Ok (mk_UsdAmount d)
  end.

Definition UsdAmount_from_cents (cents : Z) : outcome UsdAmount :=
  guard_that (negb ((cents <? 0) || (1000000000000 <? cents))) EValueError
    "cents must be a non-negative integer up to 1,000,000,000,000" ≫= λ _,
  make_UsdAmount (Finite (scaleb (mk_dec cents 0) (-2))).

Definition UsdAmount_cents (a : UsdAmount) : Z := dec_int (scaleb (UsdAmount_value a) 2).

(** ** Identifiers *)

Definition symbol_rest (c : ascii) : bool :=
  is_upper c || is_digit c || is_char "." c || is_char "-" c.
Definition ident_first (c : ascii) : bool := is_lower c || is_digit c.
Definition ident_rest (c : ascii) : bool :=
  is_lower c || is_digit c || is_char "_" c || is_char "-" c.

Definition SYMBOL_PATTERN : matcher := m_ident is_upper symbol_rest 9.
Definition STRATEGY_PATTERN : matcher := m_ident ident_first ident_rest 31.
Definition WINDOW_PATTERN : matcher := m_ident ident_first ident_rest 63.

Definition nonzero_digit (c : ascii) : bool := is_digit c && negb (is_char "0" c).

Definition DATE_PATTERN : matcher :=
  m_seq (m_times is_digit 4) (m_seq (m_lit "-") (m_seq (m_times is_digit 2)
    (m_seq (m_lit "-") (m_times is_digit 2)))).

Definition CLIENT_ORDER_ID_PATTERN : matcher :=
  m_seq (m_lit "slv1-") (m_seq STRATEGY_PATTERN
  (m_seq (m_lit "-") (m_seq DATE_PATTERN
  (m_seq (m_lit "-") (m_seq WINDOW_PATTERN
  (m_seq (m_lit "-t") (m_seq (m_ident nonzero_digit is_digit 9)
  (m_seq (m_lit "-") (m_seq SYMBOL_PATTERN
  (m_seq (m_lit "-") (m_alt (m_lit "buy") (m_lit "sell")))))))))))).

Definition CLIENT_ORDER_ID_MAX_LENGTH : nat := 128.

Definition make_Symbol (value : string) : outcome string :=
  guard_that (fullmatch SYMBOL_PATTERN value) EValueError
    "symbol must be uppercase letters, digits, '.' or '-' (max 10)" ≫= λ _, Ok value.

Definition make_OrderQuantity (value : Z) : outcome Z :=
  guard_that (negb (value <? 1)) EValueError
    "quantity must be a positive whole number of shares" ≫= λ _, Ok value.

(** A [datetime.date]; [isoformat] is YYYY-MM-DD with four year digits. *)
Record TradingDate := mk_TradingDate { td_year : Z; td_month : Z; td_day : Z }.
#[global] Instance TradingDate_eq_dec : EqDecision TradingDate.
Proof. solve_decision. Defined.
Definition date_ok (d : TradingDate) : bool :=
  (1 <=? td_year d) && (td_year d <=? 9999) && (1 <=? td_month d) && (td_month d <=? 12)
  && (1 <=? td_day d) && (td_day d <=? 31).
Definition isoformat (d : TradingDate) : string :=
  digits4 (td_year d) +:+ ("-" +:+ (digits2 (td_month d) +:+ ("-" +:+ digits2 (td_day d)))).

(** ** The price collar *)

Record PriceCollar := mk_PriceCollar { pc_reference : Price; pc_offset_bps : Z }.
#[global] Instance PriceCollar_eq_dec : EqDecision PriceCollar.
Proof. solve_decision. Defined.

Definition make_PriceCollar (reference : Price) (offset_bps : Z) : outcome PriceCollar :=
  guard_that (negb ((offset_bps <? COLLAR_OFFSET_BPS_MIN)
                    || (COLLAR_OFFSET_BPS_MAX <? offset_bps)))
    EValueError "collar offset must be between 1 and 500 basis points" ≫= λ _,
  Ok (mk_PriceCollar reference offset_bps).

(** [Decimal(1) + Decimal(bps) / Decimal(10_000)]: exact, four decimals. *)
Definition bps_factor (bps : Z) : Decimal := mk_dec (10000 + bps) (-4).

Definition lower_limit (c : PriceCollar) : outcome Price :=
  let floor := quantize_cents ROUND_FLOOR
    (dec_mul (Price_value (pc_reference c)) (bps_factor (- pc_offset_bps c))) in
  make_Price (Finite (dec_max floor CENTS)).

Definition upper_limit (c : PriceCollar) : outcome Price :=
  let ceiling := quantize_cents ROUND_CEILING
    (dec_mul (Price_value (pc_reference c)) (bps_factor (pc_offset_bps c))) in
  make_Price (Finite ceiling).

(** [lower <= price <= upper]: the upper limit is evaluated only when needed. *)
Definition collar_contains (c : PriceCollar) (price : Price) : outcome bool :=
  lower ← lower_limit c;
  if dec_leb (Price_value lower) (Price_value price)
  then upper ← upper_limit c; Ok (dec_leb (Price_value price) (Price_value upper))
  else Ok false.

(** ** The deterministic client order id *)

Definition make_ClientOrderId (value : string) : outcome string :=
  guard_that (bool_decide (String.length value ≤ CLIENT_ORDER_ID_MAX_LENGTH)%nat
              && fullmatch CLIENT_ORDER_ID_PATTERN value) EValueError
    "client order id must use the canonical slv1 composition format" ≫= λ _, Ok value.

Definition client_order_id_text (strategy : string) (trading_date : TradingDate)
    (window : string) (target_version : Z) (symbol : string) (side : OrderSide.t) : string :=
  "slv1-" +:+ (strategy +:+ ("-" +:+ (isoformat trading_date +:+ ("-" +:+ (window +:+
  ("-t" +:+ (int_text target_version +:+ ("-" +:+ (symbol +:+ ("-" +:+
  OrderSide.lower side)))))))))).

Definition compose (strategy : string) (trading_date : TradingDate) (window : string)
    (target_version : Z) (symbol : string) (side : OrderSide.t) : outcome string :=
  guard_that (fullmatch STRATEGY_PATTERN strategy) EValueError
    "strategy must use lowercase letters, digits, '_' or '-' (max 32)" ≫= λ _,
  guard_that (fullmatch WINDOW_PATTERN window) EValueError
    "window must use lowercase letters, digits, '_' or '-' (max 64)" ≫= λ _,
  guard_that (negb ((target_version <? 1) || (MAX_TARGET_VERSION <? target_version)))
    EValueError "target_version must be a positive integer up to 10,000,000,000" ≫= λ _,
  make_ClientOrderId
    (client_order_id_text strategy trading_date window target_version symbol side).

(** ** Order intents *)

Record OrderIntent := mk_OrderIntent {
  oi_intent_id : N;
  oi_client_order_id : string;
  oi_strategy : string;
  oi_trading_date : TradingDate;
  oi_window : string;
  oi_target_version : Z;
  oi_symbol : string;
  oi_side : OrderSide.t;
  oi_quantity : Z;
  oi_intent_type : OrderIntentType.t;
  oi_limit_price : Price;
  oi_collar : PriceCollar;
  oi_earliest_submit_at : Z;
  oi_cancel_at : Z;
  oi_status : OrderStatus.t;
  oi_run_id : N;
  oi_created_at : Z;
}.
#[global] Instance OrderIntent_eq_dec : EqDecision OrderIntent.
Proof. solve_decision. Defined.

(** [OrderIntent.__post_init__], in the order of the source. *)
Definition check_OrderIntent (i : OrderIntent) : outcome OrderIntent :=
  guard_that (negb (oi_intent_id i =? 0)%N) EValueError "intent_id must be a non-nil UUID" ≫= λ _,
  guard_that (fullmatch STRATEGY_PATTERN (oi_strategy i)) EValueError
    "strategy must use lowercase letters, digits, '_' or '-' (max 32)" ≫= λ _,
  guard_that (fullmatch WINDOW_PATTERN (oi_window i)) EValueError
    "window must use lowercase letters, digits, '_' or '-' (max 64)" ≫= λ _,
  guard_that (negb ((oi_target_version i <? 1) || (MAX_TARGET_VERSION <? oi_target_version i)))
    EValueError "target_version must be a positive integer up to 10,000,000,000" ≫= λ _,
  guard_that (negb (oi_cancel_at i <=? oi_earliest_submit_at i)) EValueError
    "cancel_at must be after earliest_submit_at" ≫= λ _,
  inside ← collar_contains (oi_collar i) (oi_limit_price i);
  guard_that inside EValueError "limit_price must lie inside the price collar" ≫= λ _,
  expected ← compose (oi_strategy i) (oi_trading_date i) (oi_window i)
               (oi_target_version i) (oi_symbol i) (oi_side i);
  guard_that (bool_decide (oi_client_order_id i = expected)) EValueError
    "client_order_id must match its own composition components" ≫= λ _,
  Ok i.

(** [dataclasses.replace(intent, status=...)] *)
Definition with_status (s : OrderStatus.t) (i : OrderIntent) : OrderIntent :=
  mk_OrderIntent (oi_intent_id i) (oi_client_order_id i) (oi_strategy i) (oi_trading_date i)
    (oi_window i) (oi_target_version i) (oi_symbol i) (oi_side i) (oi_quantity i)
    (oi_intent_type i) (oi_limit_price i) (oi_collar i) (oi_earliest_submit_at i)
    (oi_cancel_at i) s (oi_run_id i) (oi_created_at i).

(** [OrderIntent.create]: a fresh intent in CREATED. *)
Definition OrderIntent_create (intent_id : N) (strategy : string)
    (trading_date : TradingDate) (window : string) (target_version : Z)
    (symbol : string) (side : OrderSide.t) (quantity : Z)
    (intent_type : OrderIntentType.t) (limit_price : Price) (collar : PriceCollar)
    (earliest_submit_at cancel_at : Z) (run_id : N) (created_at : Z) : outcome OrderIntent :=
  cid ← compose strategy trading_date window target_version symbol side;
  check_OrderIntent
    (mk_OrderIntent intent_id cid strategy trading_date window target_version symbol
       side quantity intent_type limit_price collar earliest_submit_at cancel_at
       OrderStatus.CREATED run_id created_at).

Definition transition_to (i : OrderIntent) (target : OrderStatus.t) : outcome OrderIntent :=
  assert_order_transition (oi_status i) target ≫= λ _,
  check_OrderIntent (with_status target i).

(** ** Broker orders and fills *)

Record BrokerOrder := mk_BrokerOrder {
  bo_broker_order_id : string;
  bo_client_order_id : string;
  bo_symbol : string;
  bo_side : OrderSide.t;
  bo_quantity : Z;
  bo_filled_quantity : Z;
  bo_limit_price : Price;
  bo_status : BrokerOrderStatus.t;
  bo_submitted_at : Z;
  bo_updated_at : Z;
}.
#[global] Instance BrokerOrder_eq_dec : EqDecision BrokerOrder.
Proof. solve_decision. Defined.

Definition check_BrokerOrder (o : BrokerOrder) : outcome BrokerOrder :=
  guard_that (bounded_text 100 (bo_broker_order_id o)) EValueError
    "broker_order_id must be non-empty text up to 100 characters" ≫= λ _,
  guard_that ((0 <=? bo_filled_quantity o) && (bo_filled_quantity o <=? bo_quantity o))
    EValueError "filled_quantity must be between zero and the order quantity" ≫= λ _,
  Ok o.

(** [dataclasses.replace(order, status=..., filled_quantity=..., updated_at=...)] *)
Definition with_mirror (status : BrokerOrderStatus.t) (filled updated_at : Z)
    (o : BrokerOrder) : BrokerOrder :=
  mk_BrokerOrder (bo_broker_order_id o) (bo_client_order_id o) (bo_symbol o) (bo_side o)
    (bo_quantity o) filled (bo_limit_price o) status (bo_submitted_at o) updated_at.

Definition is_open (o : BrokerOrder) : bool :=
  bool_decide (bo_status o ∉ TERMINAL_BROKER_ORDER_STATUSES) &&
  bool_decide (bo_status o ∉ REVIEW_BROKER_ORDER_STATUSES).

Record Fill := mk_Fill {
  fl_execution_id : string;
  fl_broker_order_id : string;
  fl_quantity : Z;
  fl_price : Price;
  fl_occurred_at : Z;
}.
#[global] Instance Fill_eq_dec : EqDecision Fill.
Proof. solve_decision. Defined.

Definition check_Fill (f : Fill) : outcome Fill :=
  guard_that (bounded_text 100 (fl_execution_id f)) EValueError
    "execution_id must be non-empty text up to 100 characters" ≫= λ _,
  guard_that (bounded_text 100 (fl_broker_order_id f)) EValueError
    "broker_order_id must be non-empty text up to 100 characters" ≫= λ _,
  Ok f.

(** Well-formed values: what the constructors of the source guarantee. *)
Definition price_ok (p : Price) : Prop :=
  dec_exp (Price_value p) = -2 ∧ 1 ≤ dec_coeff (Price_value p) ≤ 1000000000.
Definition fill_ok (f : Fill) : Prop := 1 ≤ fl_quantity f ∧ price_ok (fl_price f).

(** Same order, only the mutable mirror columns differ. *)
Definition same_broker_identity (a b : BrokerOrder) : bool :=
  bool_decide (bo_client_order_id a = bo_client_order_id b) &&
  bool_decide (bo_symbol a = bo_symbol b) && bool_decide (bo_side a = bo_side b) &&
  bool_decide (bo_quantity a = bo_quantity b) &&
  bool_decide (bo_limit_price a = bo_limit_price b) &&
  bool_decide (bo_submitted_at a = bo_submitted_at b).

(** Abstract lifecycle: any number of permitted transitions. *)
Definition order_reaches : relation OrderStatus.t :=
  rtc (λ s t, order_transition_allowed s t = true).
Definition broker_reaches : relation BrokerOrderStatus.t :=
  rtc (λ s t, broker_order_transition_allowed s t = true).

(** The statuses that count as unresolved broker truth. *)
Definition unresolved (s : OrderStatus.t) : bool :=
  bool_decide (s = OrderStatus.UNKNOWN ∨ s = OrderStatus.REVIEW_REQUIRED).

(** ** Proof steps *)
Lemma guard_that_Ok b c msg u : guard_that b c msg = Ok u ↔ b = true.
Proof. unfold guard_that, raise. destruct b, u; naive_solver. Qed.

(** Peel the [guard_that] steps of a successful validation. *)
Ltac inv_guards H :=
  repeat match type of H with
  | (guard_that ?b _ _ ≫= _) = Ok _ =>
      let E := fresh "Hg" in destruct b eqn:E; [cbn in H|discriminate H]
  end.
