(* ===== verification/OrderFacts.v ===== *)
(** * Theorems on orders

    The intent lifecycle and the validated transition, exact money and the
    price collar, and the deterministic client order id of [Orders]. *)

From S2P Require Import Prelude Text Orders.
Local Open Scope Z_scope.

(** ** Decimals with two places *)

Lemma dec_leb_same_exp a b :
  dec_exp a = dec_exp b → dec_leb a b = (dec_coeff a <=? dec_coeff b).
Proof.
  intros He. unfold dec_leb, dec_at. rewrite He, Z.min_id, Z.sub_diag, Z.pow_0_r.
  by rewrite !Z.mul_1_r.
Qed.

Lemma dec_ltb_same_exp a b :
  dec_exp a = dec_exp b → dec_ltb a b = (dec_coeff a <? dec_coeff b).
Proof.
  intros He. unfold dec_ltb. rewrite dec_leb_same_exp by done.
  by rewrite Z.ltb_antisym.
Qed.

Lemma dec_leb_zero d : dec_exp d = -2 → dec_leb d (mk_dec 0 0) = (dec_coeff d <=? 0).
Proof.
  intros He. unfold dec_leb, dec_at. rewrite He. simpl.
  change (-2 - -2) with 0. by rewrite Z.pow_0_r, Z.mul_1_r.
Qed.

Lemma make_Price_spec d :
  make_Price (Finite d) = Ok (mk_Price d) ∧ price_ok (mk_Price d) ∨
  (∃ msg, make_Price (Finite d) = raise EValueError msg) ∧ ¬ price_ok (mk_Price d).
Proof.
  unfold make_Price, guard_that, price_ok; simpl.
  destruct (Z.eqb_spec (dec_exp d) (-2)) as [He|He]; simpl; [|by right; split; [eauto|intros [? ?]]].
  rewrite dec_leb_zero, dec_ltb_same_exp by done. simpl.
  destruct (Z.leb_spec (dec_coeff d) 0); simpl; [by right; split; [eauto|lia]|].
  destruct (Z.ltb_spec 1000000000 (dec_coeff d)); simpl; [by right; split; [eauto|lia]|].
  left. split; [done|lia].
Qed.

Lemma make_Price_Ok d p :
  make_Price (Finite d) = Ok p ↔ p = mk_Price d ∧ price_ok p.
Proof.
  destruct (make_Price_spec d) as [[-> H]|[[msg ->] H]]; unfold raise; split.
  - by intros [= <-].
  - by intros [-> _].
  - done.
  - by intros [-> ?].
Qed.

Lemma make_Price_cents c :
  1 ≤ c ≤ 1000000000 → make_Price (Finite (mk_dec c (-2))) = Ok (mk_Price (mk_dec c (-2))).
Proof. intros Hc. by apply make_Price_Ok. Qed.

Lemma Price_cents_coeff p : price_ok p → Price_cents p = dec_coeff (Price_value p).
Proof.
  intros [He _]. unfold Price_cents, dec_int, scaleb; simpl. rewrite He. simpl. lia.
Qed.

Lemma price_ok_eta p : price_ok p → p = mk_Price (mk_dec (Price_cents p) (-2)).
Proof.
  intros Hp. rewrite Price_cents_coeff by done. destruct p as [[c e]], Hp as [He _].
  simpl in *. by subst.
Qed.

(** ** The collar's limits in cents *)

Definition collar_floor (c : PriceCollar) : Z :=
  Z.max 1 ((Price_cents (pc_reference c) * (10000 - pc_offset_bps c)) `div` 10000).
Definition collar_ceiling (c : PriceCollar) : Z :=
  - ((- (Price_cents (pc_reference c) * (10000 + pc_offset_bps c))) `div` 10000).

Definition collar_ok (c : PriceCollar) : Prop :=
  price_ok (pc_reference c) ∧ 1 ≤ pc_offset_bps c ≤ 500.

Lemma price_ok_cents p : price_ok p → 1 ≤ Price_cents p ≤ 1000000000.
Proof. intros Hp. rewrite Price_cents_coeff by done. apply Hp. Qed.

(** No product of the collar arithmetic reaches the decimal context's 28 digits. *)
Lemma collar_product_digits c bps :
  price_ok (pc_reference c) → -500 ≤ bps ≤ 500 →
  0 ≤ dec_coeff (dec_mul (Price_value (pc_reference c)) (bps_factor bps)) < 10 ^ 28.
Proof. intros [He Hc] Hb. simpl. nia. Qed.

Lemma collar_floor_bounds c :
  collar_ok c → 1 ≤ collar_floor c ≤ Price_cents (pc_reference c).
Proof.
  intros [Hp Hb]. pose proof (price_ok_cents _ Hp) as Hc. unfold collar_floor.
  set (r := Price_cents _) in *.
  assert ((r * (10000 - pc_offset_bps c)) `div` 10000 ≤ r); [|lia].
  apply Z.div_le_upper_bound; nia.
Qed.

Lemma collar_ceiling_bounds c :
  collar_ok c →
  Price_cents (pc_reference c) < collar_ceiling c ≤ Price_cents (pc_reference c) + 50000000.
Proof.
  intros [Hp Hb]. pose proof (price_ok_cents _ Hp) as Hc. unfold collar_ceiling.
  set (r := Price_cents _) in *.
  pose proof (Z.div_mod (- (r * (10000 + pc_offset_bps c))) 10000 ltac:(done)) as Hd.
  pose proof (Z.mod_pos_bound (- (r * (10000 + pc_offset_bps c))) 10000 ltac:(done)).
  nia.
Qed.

Lemma quantize_product r p f :
  dec_exp (Price_value p) = -2 →
  quantize_cents r (dec_mul (Price_value p) (bps_factor f)) =
  mk_dec (match r with
          | ROUND_FLOOR => (dec_coeff (Price_value p) * (10000 + f)) `div` 10000
          | ROUND_CEILING => - ((- (dec_coeff (Price_value p) * (10000 + f))) `div` 10000)
          end) (-2).
Proof. intros He. unfold quantize_cents, dec_mul, bps_factor; simpl. by rewrite He. Qed.

Lemma lower_limit_eq c :
  collar_ok c → lower_limit c = Ok (mk_Price (mk_dec (collar_floor c) (-2))).
Proof.
  intros Hok. pose proof (collar_floor_bounds c Hok) as Hb.
  destruct Hok as [Hp _]. pose proof (price_ok_cents _ Hp) as Hc.
  unfold lower_limit. rewrite quantize_product by apply Hp.
  rewrite <-Price_cents_coeff by done. rewrite <-make_Price_cents by lia.
  do 2 f_equal. unfold dec_max. rewrite dec_ltb_same_exp by done.
  unfold collar_floor, CENTS. simpl. unfold Z.sub.
  destruct (Z.ltb_spec ((Price_cents (pc_reference c) * (10000 + - pc_offset_bps c)) `div` 10000) 1);
    f_equal; lia.
Qed.

Lemma upper_limit_eq c :
  collar_ok c → upper_limit c = make_Price (Finite (mk_dec (collar_ceiling c) (-2))).
Proof.
  intros [Hp _]. unfold upper_limit. rewrite quantize_product by apply Hp.
  by rewrite <-Price_cents_coeff by done.
Qed.

Lemma make_Price_over c :
  1000000000 < c → make_Price (Finite (mk_dec c (-2))) =
    raise EValueError "price must be greater than zero and at most 10,000,000.00".
Proof.
  intros Hc. unfold make_Price. simpl.
  rewrite dec_ltb_same_exp by done. simpl.
  destruct (Z.ltb_spec 1000000000 c); [|lia]. by rewrite orb_true_r.
Qed.

(** ** The lifecycle relation *)

(** A set of statuses closed under the permitted transitions is never left. *)
Lemma order_reaches_closed (P : OrderStatus.t → bool) s t :
  (∀ a b, P a = true → order_transition_allowed a b = true → P b = true) →
  order_reaches s t → P s = true → P t = true.
Proof. intros HP. induction 1 as [|a b c Hab _ IH]; intros; [done|]. eauto. Qed.

Ltac by_status_cases :=
  intros [] []; vm_compute; first [discriminate | reflexivity | intros; discriminate | auto].

Definition submitted_status (s : OrderStatus.t) : bool :=
  bool_decide (s ∉ [OrderStatus.CREATED; OrderStatus.RISK_APPROVED;
                    OrderStatus.OUTBOX_PENDING; OrderStatus.SUBMITTING]).

Lemma order_transition_submitted a b :
  submitted_status a = true → order_transition_allowed a b = true →
  submitted_status b = true.
Proof. revert a b. by_status_cases. Qed.

Lemma order_transition_from_submitting b :
  order_transition_allowed OrderStatus.SUBMITTING b = true → submitted_status b = true.
Proof. destruct b; vm_compute; auto. Qed.

Lemma order_reaches_refl s : order_reaches s s.
Proof. apply rtc_refl. Qed.
Lemma order_reaches_once s t : order_transition_allowed s t = true → order_reaches s t.
Proof. intros H. by apply rtc_once. Qed.

Lemma order_reaches_submitted s t :
  order_reaches s t → submitted_status s = true → submitted_status t = true.
Proof. apply order_reaches_closed, order_transition_submitted. Qed.

(** A chain of permitted transitions, from [s] through [l] to [t], and the
    number of times it is SUBMITTING. *)
Fixpoint order_chain (s : OrderStatus.t) (l : list OrderStatus.t) (t : OrderStatus.t) : Prop :=
  match l with
  | [] => s = t
  | u :: l => order_transition_allowed s u = true ∧ order_chain u l t
  end.

Definition count_submitting (l : list OrderStatus.t) : nat :=
  length (filter (λ s, s = OrderStatus.SUBMITTING) l).

(** The statuses an intent has only after its order was sent. *)
Definition at_broker (s : OrderStatus.t) : bool :=
  bool_decide (s ∈ [OrderStatus.ACKNOWLEDGED; OrderStatus.PARTIALLY_FILLED;
    OrderStatus.FILLED; OrderStatus.CANCEL_PENDING; OrderStatus.CANCELED; OrderStatus.UNKNOWN]).

Lemma order_chain_reaches s t l : order_chain s l t → order_reaches s t.
Proof.
  revert s. induction l as [|u l IH]; intros s; simpl; [intros ->; apply order_reaches_refl|].
  intros [Hu Hl]. eapply rtc_l; [exact Hu|by apply IH].
Qed.

Lemma order_reaches_chain s t : order_reaches s t → ∃ l, order_chain s l t.
Proof.
  induction 1 as [s|s u t Hu _ [l Hl]]; [by exists []|]. by exists (u :: l).
Qed.

Lemma count_submitting_cons s l :
  count_submitting (s :: l) =
  ((if decide (s = OrderStatus.SUBMITTING) then 1 else 0) + count_submitting l)%nat.
Proof. unfold count_submitting. rewrite filter_cons. by destruct (decide _). Qed.

Lemma order_chain_never_again s l t :
  submitted_status s = true → order_chain s l t → count_submitting (s :: l) = 0%nat.
Proof.
  revert s. induction l as [|u l IH]; intros s Hs Hc; rewrite count_submitting_cons.
  - by destruct s.
  - destruct Hc as [Hu Hc]. rewrite (IH u) by eauto using order_transition_submitted.
    by destruct s.
Qed.

Lemma order_chain_once s t l : order_chain s l t → (count_submitting (s :: l) ≤ 1)%nat.
Proof.
  revert s. induction l as [|u l IH]; intros s Hc; rewrite count_submitting_cons.
  - change (count_submitting []) with 0%nat. case_decide; simpl; lia.
  - destruct Hc as [Hu Hc]. specialize (IH u Hc).
    case_decide as Hs; [|simpl; lia]. subst s.
    rewrite (order_chain_never_again u l t); [lia| |done].
    by apply order_transition_from_submitting.
Qed.

(** Before its submission an intent has no status of [at_broker]. *)
Lemma order_chain_through s t l :
  order_chain s l t → at_broker s = false → at_broker t = true →
  (1 ≤ count_submitting (s :: l))%nat.
Proof.
  revert s. induction l as [|u l IH]; intros s Hc Hs Ht; rewrite count_submitting_cons.
  - simpl in Hc. subst t. congruence.
  - destruct Hc as [Hu Hc]. case_decide as Hsub; [lia|]. simpl. apply IH; [done| |done].
    by destruct s, u.
Qed.

Lemma order_reaches_terminal s t :
  s ∈ TERMINAL_ORDER_STATUSES → order_reaches s t → t = s ∨ t = OrderStatus.REVIEW_REQUIRED.
Proof.
  intros Hs Hr.
  pose (P x := bool_decide (x = s ∨ x = OrderStatus.REVIEW_REQUIRED)).
  assert (Hc : P t = true).
  { apply (order_reaches_closed P s); [|done|by apply bool_decide_eq_true; left].
    intros a b Ha Hab. apply bool_decide_eq_true in Ha. apply bool_decide_eq_true. right.
    destruct Ha; subst a; [|by destruct b].
    unfold TERMINAL_ORDER_STATUSES in Hs. rewrite !elem_of_cons, elem_of_nil in Hs.
    destruct Hs as [->|[->|[->|[->|[]]]]]; by destruct b. }
  by apply bool_decide_eq_true in Hc.
Qed.

(** ** Validated construction *)

Lemma check_OrderIntent_with_status s i :
  check_OrderIntent (with_status s i) =
  match check_OrderIntent i with Ok _ => Ok (with_status s i) | Raise e => Raise e end.
Proof.
  unfold check_OrderIntent, mbind, outcome_bind, guard_that, raise; simpl.
  repeat (case_match; simplify_eq; try done).
Qed.

Lemma check_OrderIntent_id i j : check_OrderIntent i = Ok j → j = i.
Proof.
  unfold check_OrderIntent, mbind, outcome_bind, guard_that, raise. intros H.
  repeat (case_match; simplify_eq; try done).
Qed.

(** ** Composition *)

Lemma ident_shape_forallb first rest n s (q : ascii → bool) :
  ident_shape first rest n s →
  (∀ c, first c = true → q c = true) → (∀ c, rest c = true → q c = true) →
  str_forallb q s = true.
Proof.
  intros (c & t & -> & Hc & Ht & _) H1 H2. simpl. rewrite H1 by done. simpl.
  by eapply str_forallb_mono.
Qed.

Ltac char_class :=
  unfold symbol_rest, ident_rest, ident_first, nonzero_digit, is_lower, is_upper, is_digit,
    is_char;
  repeat rewrite ?andb_true_iff, ?orb_true_iff, ?negb_true_iff, ?bool_decide_eq_true,
    ?bool_decide_eq_false;
  intros; repeat match goal with H : _ ∧ _ |- _ => destruct H | H : _ ∨ _ |- _ => destruct H end;
  subst; try (vm_compute; lia); try lia;
  try (intros ->; vm_compute in *; lia).

Lemma symbol_not_lower s :
  fullmatch SYMBOL_PATTERN s = true → str_forallb (λ c, negb (is_lower c)) s = true.
Proof.
  intros Hs%fullmatch_ident. eapply ident_shape_forallb; [done| |]; intros c; char_class.
Qed.

Lemma version_shape v :
  1 ≤ v < MAX_TARGET_VERSION → ident_shape nonzero_digit is_digit 9 (int_text v).
Proof.
  intros Hv. destruct (int_text_spec v) as (Hd & (c & t & Heq & Hc) & Hb); [lia|].
  rewrite Heq in *. simpl in Hd. apply andb_true_iff in Hd as [Hdc Hdt].
  exists c, t. split_and!; [done| |done|].
  - unfold nonzero_digit, is_char. rewrite Hdc. by rewrite bool_decide_eq_false_2.
  - destruct Hb as [Hb _]. simpl in Hb.
    destruct (decide (String.length t ≤ 9)%nat); [done|].
    assert (10 ^ 10 ≤ 10 ^ (Z.of_nat (S (String.length t)) - 1)) by
      (apply Z.pow_le_mono_r; lia).
    unfold MAX_TARGET_VERSION in Hv. lia.
Qed.

Lemma version_digits v : 1 ≤ v → str_forallb is_digit (int_text v) = true.
Proof. intros Hv. apply int_text_spec. lia. Qed.

(** *** What a canonical id looks like *)

Lemma m_lit_elim t s r : r ∈ m_lit t s → s = t +:+ r.
Proof.
  revert s. induction t as [|c t IH]; intros s; simpl.
  { by intros ->%list_elem_of_singleton. }
  destruct s as [|a s]; [by intros ?%elem_of_nil|].
  case_bool_decide; [|by intros ?%elem_of_nil]. intros ->%IH. by subst.
Qed.

Lemma m_times_elim p n s r : r ∈ m_times p n s → ∃ t, s = t +:+ r.
Proof.
  revert s. induction n as [|n IH]; intros s; simpl.
  { intros ->%list_elem_of_singleton. by exists "". }
  intros (t & (c & -> & _)%m_char_elim & (u & ->)%IH)%m_seq_elim. by exists (String c u).
Qed.

Lemma m_ident_elim first rest n s r :
  r ∈ m_ident first rest n s → ∃ t, s = t +:+ r ∧ ident_shape first rest n t.
Proof.
  intros (t & (c & -> & Hc)%m_char_elim & (u & -> & Hu & Hl)%m_upto_elim)%m_seq_elim.
  exists (String c u). split; [done|]. by eexists c, u.
Qed.

Lemma m_date_elim s r : r ∈ DATE_PATTERN s → ∃ t, s = t +:+ r.
Proof.
  unfold DATE_PATTERN. intros H.
  apply m_seq_elim in H as (? & (y & ->)%m_times_elim & H).
  apply m_seq_elim in H as (? & ->%m_lit_elim & H).
  apply m_seq_elim in H as (? & (m & ->)%m_times_elim & H).
  apply m_seq_elim in H as (? & ->%m_lit_elim & (d & ->)%m_times_elim).
  exists (y +:+ ("-" +:+ (m +:+ ("-" +:+ d)))). by rewrite !str_app_assoc.
Qed.

Definition cid_tail (version symbol side : string) : string :=
  "-t" +:+ (version +:+ ("-" +:+ (symbol +:+ ("-" +:+ side)))).

Lemma canonical_id_elim s :
  fullmatch CLIENT_ORDER_ID_PATTERN s = true →
  ∃ head version symbol side, s = head +:+ cid_tail version symbol side ∧
    ident_shape nonzero_digit is_digit 9 version ∧
    fullmatch SYMBOL_PATTERN symbol = true ∧ (side = "buy" ∨ side = "sell").
Proof.
  unfold fullmatch at 1, CLIENT_ORDER_ID_PATTERN. rewrite bool_decide_eq_true.
  intros (? & ->%m_lit_elim & H)%m_seq_elim.
  apply m_seq_elim in H as (? & (strategy & -> & _)%m_ident_elim & H).
  apply m_seq_elim in H as (? & ->%m_lit_elim & H).
  apply m_seq_elim in H as (? & Hdate & H).
  apply m_date_elim in Hdate as [d ->].
  apply m_seq_elim in H as (? & ->%m_lit_elim & H).
  apply m_seq_elim in H as (? & (window & -> & _)%m_ident_elim & H).
  apply m_seq_elim in H as (? & ->%m_lit_elim & H).
  apply m_seq_elim in H as (? & (version & -> & Hv)%m_ident_elim & H).
  apply m_seq_elim in H as (? & ->%m_lit_elim & H).
  apply m_seq_elim in H as (? & (symbol & -> & Hs)%m_ident_elim & H).
  apply m_seq_elim in H as (? & ->%m_lit_elim & H).
  exists ("slv1-" +:+ (strategy +:+ ("-" +:+ (d +:+ ("-" +:+ window))))), version, symbol.
  apply elem_of_app in H as [H|H]; apply m_lit_elim in H; simpl in H; subst;
    [exists "buy"|exists "sell"]; (split_and!; [|done|by apply fullmatch_ident|auto]);
    unfold cid_tail; rewrite !str_app_assoc; done.
Qed.

Lemma canonical_id_intro strategy date window v symbol side :
  fullmatch STRATEGY_PATTERN strategy = true → fullmatch WINDOW_PATTERN window = true →
  1 ≤ v < MAX_TARGET_VERSION → date_ok date = true → fullmatch SYMBOL_PATTERN symbol = true →
  fullmatch CLIENT_ORDER_ID_PATTERN
    (client_order_id_text strategy date window v symbol side) = true.
Proof.
  intros Hs Hw Hv Hd Hsym. apply fullmatch_ident in Hs, Hw, Hsym.
  apply version_shape in Hv. unfold date_ok in Hd.
  rewrite !andb_true_iff, !Z.leb_le in Hd.
  unfold fullmatch. apply bool_decide_eq_true. unfold client_order_id_text, isoformat.
  rewrite <-!str_app_assoc. unfold CLIENT_ORDER_ID_PATTERN, DATE_PATTERN.
  eapply m_seq_intro; [apply m_lit_intro|].
  eapply m_seq_intro; [by apply m_ident_intro|].
  eapply m_seq_intro; [apply m_lit_intro|].
  eapply m_seq_intro.
  { eapply m_seq_intro; [apply (m_times_intro is_digit (digits4 _)), digits4_digits; lia|].
    eapply m_seq_intro; [apply m_lit_intro|].
    eapply m_seq_intro; [apply (m_times_intro is_digit (digits2 _)), digits2_digits; lia|].
    eapply m_seq_intro; [apply m_lit_intro|].
    apply (m_times_intro is_digit (digits2 _)), digits2_digits; lia. }
  eapply m_seq_intro; [apply m_lit_intro|].
  eapply m_seq_intro; [by apply m_ident_intro|].
  eapply m_seq_intro; [apply m_lit_intro|].
  eapply m_seq_intro; [by apply m_ident_intro|].
  eapply m_seq_intro; [apply m_lit_intro|].
  eapply m_seq_intro; [by apply m_ident_intro|].
  eapply m_seq_intro; [apply m_lit_intro|].
  unfold m_alt. apply elem_of_app. destruct side; [left|right];
    rewrite <-(str_app_nil_r (OrderSide.lower _)); apply m_lit_intro.
Qed.

(** The tail of an id determines version, symbol and side. *)
Lemma cid_tail_inj h1 v1 s1 d1 h2 v2 s2 d2 :
  str_forallb is_digit v1 = true → str_forallb is_digit v2 = true →
  fullmatch SYMBOL_PATTERN s1 = true → fullmatch SYMBOL_PATTERN s2 = true →
  (d1 = "buy" ∨ d1 = "sell") → (d2 = "buy" ∨ d2 = "sell") →
  h1 +:+ cid_tail v1 s1 d1 = h2 +:+ cid_tail v2 s2 d2 →
  h1 = h2 ∧ v1 = v2 ∧ s1 = s2 ∧ d1 = d2.
Proof.
  intros Hv1 Hv2 Hs1 Hs2 Hd1 Hd2 Heq.
  assert (Hcut : ∀ h v s d, h +:+ cid_tail v s d =
    (h +:+ ("-t" +:+ (v +:+ ("-" +:+ s)))) +:+ String "-" d).
  { intros h v s d. unfold cid_tail. by rewrite <-!str_app_assoc. }
  rewrite !Hcut in Heq.
  apply (str_span_last_inj (λ c, negb (is_char "-" c))) in Heq as (Heq & _ & ->);
    [|by destruct Hd1 as [-> | ->]|done|by destruct Hd2 as [-> | ->]|done].
  assert (Hcut' : ∀ h r, h +:+ ("-t" +:+ r) = (h +:+ "-") +:+ String "t" r).
  { intros h r. by rewrite <-!str_app_assoc. }
  rewrite !Hcut' in Heq.
  assert (Hrest : ∀ v s, str_forallb is_digit v = true → fullmatch SYMBOL_PATTERN s = true →
    str_forallb (λ c, negb (is_lower c)) (v +:+ ("-" +:+ s)) = true).
  { intros v s Hv Hs. rewrite !str_forallb_app, (symbol_not_lower s) by done.
    rewrite andb_true_iff. split; [|done].
    eapply str_forallb_mono; [|exact Hv]. intros c. char_class. }
  apply (str_span_last_inj (λ c, negb (is_lower c))) in Heq as (Hh & _ & Heq);
    [|by apply Hrest|done|by apply Hrest|done].
  apply str_app_inj_2 in Hh as [-> _]; [|done].
  apply (str_span_inj is_digit) in Heq as (-> & _ & ->); done.
Qed.

Lemma client_order_id_text_tail strategy date window v symbol side :
  client_order_id_text strategy date window v symbol side =
  ("slv1-" +:+ (strategy +:+ ("-" +:+ (isoformat date +:+ ("-" +:+ window))))) +:+
  cid_tail (int_text v) symbol (OrderSide.lower side).
Proof. unfold client_order_id_text, cid_tail. by rewrite <-!str_app_assoc. Qed.

Lemma lower_side side : OrderSide.lower side = "buy" ∨ OrderSide.lower side = "sell".
Proof. destruct side; auto. Qed.

Lemma canonical_id_version strategy date window v symbol side :
  1 ≤ v → fullmatch SYMBOL_PATTERN symbol = true →
  fullmatch CLIENT_ORDER_ID_PATTERN
    (client_order_id_text strategy date window v symbol side) = true →
  v < MAX_TARGET_VERSION.
Proof.
  intros Hv Hsym H. apply canonical_id_elim in H as (h & v' & s' & d' & Heq & Hsh & Hs' & Hd').
  rewrite client_order_id_text_tail in Heq.
  apply cid_tail_inj in Heq as (_ & Hvv & _);
    [|by apply version_digits|by eapply ident_shape_forallb; [done|intros c; char_class..]
     |done|done|apply lower_side|done].
  destruct (int_text_spec v) as (_ & _ & [_ Hb]); [lia|].
  destruct Hsh as (c & t & Ht & _ & _ & Hl). rewrite Hvv, Ht in Hb.
  assert (10 ^ Z.of_nat (String.length (String c t)) ≤ 10 ^ 10)
    by (apply Z.pow_le_mono_r; simpl; lia).
  unfold MAX_TARGET_VERSION. lia.
Qed.

Lemma isoformat_length d : String.length (isoformat d) = 10%nat.
Proof. done. Qed.

Lemma isoformat_inj d d' :
  date_ok d = true → date_ok d' = true → isoformat d = isoformat d' → d = d'.
Proof.
  unfold date_ok. rewrite !andb_true_iff, !Z.leb_le. intros H H' Heq.
  unfold isoformat in Heq. apply str_app_inj_1 in Heq as [Hy Heq]; [|done].
  apply str_app_inv_l in Heq. apply str_app_inj_1 in Heq as [Hm Heq]; [|done].
  apply str_app_inv_l in Heq. apply digits4_inj in Hy; [|lia..].
  apply digits2_inj in Hm, Heq; [|lia..]. destruct d, d'. simpl in *. by subst.
Qed.

Lemma compose_Ok strategy date window v symbol side cid :
  compose strategy date window v symbol side = Ok cid →
  cid = client_order_id_text strategy date window v symbol side ∧
  fullmatch STRATEGY_PATTERN strategy = true ∧ fullmatch WINDOW_PATTERN window = true ∧
  1 ≤ v ∧ (String.length cid ≤ CLIENT_ORDER_ID_MAX_LENGTH)%nat ∧
  fullmatch CLIENT_ORDER_ID_PATTERN cid = true.
Proof.
  unfold compose, make_ClientOrderId. intros H. inv_guards H. simplify_eq.
  rewrite negb_true_iff, orb_false_iff, !Z.ltb_ge in *.
  repeat match goal with
  | H : _ && _ = true |- _ => apply andb_true_iff in H as [? ?]
  | H : bool_decide _ = true |- _ => apply bool_decide_eq_true in H
  end. split_and!; tauto || done.
Qed.

(** ** Properties *)

(** C40. Along every chain of permitted transitions an intent is SUBMITTING at
    most once, and once it has left SUBMITTING, or any later status, it never
    is CREATED, RISK_APPROVED, OUTBOX_PENDING or SUBMITTING again: its life
    contains at most one submission. A chain from CREATED to a status an order
    has at the broker (any but the first three, REJECTED, EXPIRED and
    REVIEW_REQUIRED) contains exactly one. A terminal status is left only for
    REVIEW_REQUIRED, which nothing leaves. *)
Theorem order_lifecycle s t l :
  order_chain s l t →
  (count_submitting (s :: l) ≤ 1)%nat ∧
  (s = OrderStatus.CREATED → at_broker t = true → count_submitting (s :: l) = 1%nat) ∧
  (s = OrderStatus.SUBMITTING → l ≠ [] → submitted_status t = true) ∧
  (submitted_status s = true → submitted_status t = true) ∧
  (s ∈ TERMINAL_ORDER_STATUSES → t = s ∨ t = OrderStatus.REVIEW_REQUIRED) ∧
  (s = OrderStatus.REVIEW_REQUIRED → t = s).
Proof.
  intros Hc. pose proof (order_chain_reaches _ _ _ Hc) as Hr. split_and!.
  - by apply (order_chain_once s t).
  - intros -> Ht. pose proof (order_chain_once _ _ _ Hc) as Hle.
    pose proof (order_chain_through _ _ _ Hc eq_refl Ht). lia.
  - intros -> Hl. destruct l as [|u l]; [done|]. destruct Hc as [Hu Hc].
    apply (order_reaches_submitted u); [by eapply order_chain_reaches|].
    by apply order_transition_from_submitting.
  - by apply order_reaches_submitted.
  - intros Hs. by apply order_reaches_terminal.
  - intros ->. by inversion Hr as [|? b ? Hb]; [|destruct b].
Qed.

Lemma order_lifecycle_witness :
  let l := [OrderStatus.RISK_APPROVED; OrderStatus.OUTBOX_PENDING; OrderStatus.SUBMITTING;
            OrderStatus.UNKNOWN; OrderStatus.ACKNOWLEDGED; OrderStatus.PARTIALLY_FILLED;
            OrderStatus.PARTIALLY_FILLED; OrderStatus.FILLED] in
  order_chain OrderStatus.CREATED l OrderStatus.FILLED ∧
  count_submitting (OrderStatus.CREATED :: l) = 1%nat.
Proof.
  intros l. assert (H : order_chain OrderStatus.CREATED l OrderStatus.FILLED)
    by (vm_compute; repeat split).
  split; [exact H|].
  exact (proj1 (proj2 (order_lifecycle _ _ _ H)) eq_refl eq_refl).
Defined.

(** [transition_to] on a validated intent changes the status and nothing
    else exactly when the transition map permits it, and raises
    InvalidOrderTransitionError otherwise; the result is validated again. *)
Theorem transition_to_spec i s :
  check_OrderIntent i = Ok i →
  if order_transition_allowed (oi_status i) s
  then transition_to i s = Ok (with_status s i) ∧
       check_OrderIntent (with_status s i) = Ok (with_status s i)
  else ∃ msg, transition_to i s = raise EInvalidOrderTransition msg.
Proof.
  intros Hi. unfold transition_to, assert_order_transition, guard_that.
  pose proof (check_OrderIntent_with_status s i) as Hs. rewrite Hi in Hs.
  destruct (order_transition_allowed (oi_status i) s); [|by eexists]. by rewrite Hs.
Qed.

Definition sample_date : TradingDate := mk_TradingDate 2024 1 2.
Definition sample_price : Price := mk_Price (mk_dec 10000 (-2)).
Definition sample_intent : OrderIntent :=
  mk_OrderIntent 7 "slv1-core-2024-01-02-open-t1-AAPL-buy" "core" sample_date "open" 1 "AAPL"
    OrderSide.BUY 10 OrderIntentType.REBALANCE sample_price (mk_PriceCollar sample_price 50)
    100 200 OrderStatus.CREATED 9 50.

Lemma transition_to_spec_witness :
  check_OrderIntent sample_intent = Ok sample_intent ∧
  transition_to sample_intent OrderStatus.RISK_APPROVED =
    Ok (with_status OrderStatus.RISK_APPROVED sample_intent).
Proof.
  assert (H : check_OrderIntent sample_intent = Ok sample_intent) by (vm_compute; reflexivity).
  split; [exact H|]. exact (proj1 (transition_to_spec sample_intent OrderStatus.RISK_APPROVED H)).
Defined.

(** Every validated price is a whole number of cents between 1 and 10^9
    and is recovered from it; [from_cents] raises outside that range, and the
    constructor accepts only exact two-decimal values in range. *)
Theorem price_cents_roundtrip c d :
  (1 ≤ c ≤ 1000000000 →
     ∃ p, Price_from_cents c = Ok p ∧ price_ok p ∧ Price_cents p = c) ∧
  (¬ 1 ≤ c ≤ 1000000000 → ∃ msg, Price_from_cents c = raise EValueError msg) ∧
  match make_Price d with
  | Ok p => price_ok p ∧ d = Finite (Price_value p) ∧ Price_from_cents (Price_cents p) = Ok p
  | Raise e => exn_cls e = EValueError
  end.
Proof.
  assert (Hfrom : ∀ c, 1 ≤ c ≤ 1000000000 →
    Price_from_cents c = Ok (mk_Price (mk_dec c (-2)))).
  { intros k Hk. unfold Price_from_cents, guard_that.
    destruct (Z.ltb_spec k 1), (Z.ltb_spec 1000000000 k); try lia. by apply make_Price_cents. }
  split_and!.
  - intros Hc. eexists. rewrite Hfrom by done. split; [done|].
    assert (Hp : price_ok (mk_Price (mk_dec c (-2)))) by done.
    split; [done|]. by rewrite Price_cents_coeff.
  - intros Hc. unfold Price_from_cents, guard_that.
    destruct (Z.ltb_spec c 1), (Z.ltb_spec 1000000000 c); try lia; by eexists.
  - destruct d as [d|]; [|done].
    destruct (make_Price_spec d) as [[-> Hp]|[[msg ->] _]]; [|done].
    split_and!; [done..|]. rewrite Hfrom by (by apply price_ok_cents).
    f_equal. symmetry. by apply price_ok_eta.
Qed.

Lemma price_cents_roundtrip_witness :
  ∃ p, Price_from_cents 12345 = Ok p ∧ price_ok p ∧ Price_cents p = 12345.
Proof. apply (price_cents_roundtrip 12345 NonFinite). lia. Defined.

(** The collar's lower limit is the reference less the offset rounded down
    to a cent and never below one cent, the upper limit the reference plus the
    offset rounded up; a price is inside exactly when its cents lie between
    them.  A price at or above the lower limit of a collar whose upper limit
    would exceed the largest price makes the check raise ValueError. *)
Theorem collar_contains_decides c p :
  collar_ok c → price_ok p →
  1 ≤ collar_floor c ≤ Price_cents (pc_reference c) ∧
  Price_cents (pc_reference c) < collar_ceiling c ∧
  collar_contains c p =
    if Price_cents p <? collar_floor c then Ok false
    else if collar_ceiling c <=? 1000000000 then Ok (Price_cents p <=? collar_ceiling c)
    else raise EValueError "price must be greater than zero and at most 10,000,000.00".
Proof.
  intros Hc Hp. pose proof (collar_floor_bounds c Hc). pose proof (collar_ceiling_bounds c Hc).
  split; [done|split; [lia|]]. unfold collar_contains.
  rewrite lower_limit_eq, upper_limit_eq by done. cbv [mbind outcome_bind].
  rewrite dec_leb_same_exp by (symmetry; apply Hp). cbn [dec_coeff Price_value]. rewrite <-Price_cents_coeff by done.
  destruct (Z.leb_spec (collar_floor c) (Price_cents p)),
    (Z.ltb_spec (Price_cents p) (collar_floor c)); try lia; [|done].
  pose proof (price_ok_cents _ (proj1 Hc)).
  destruct (Z.leb_spec (collar_ceiling c) 1000000000).
  - rewrite make_Price_cents by lia. rewrite dec_leb_same_exp by apply Hp.
    by rewrite Price_cents_coeff.
  - by rewrite make_Price_over.
Qed.

Lemma collar_contains_decides_witness :
  collar_ok (mk_PriceCollar sample_price 50) ∧ price_ok sample_price ∧
  collar_contains (mk_PriceCollar sample_price 50) sample_price = Ok true.
Proof.
  assert (H1 : collar_ok (mk_PriceCollar sample_price 50)) by (split; [split; [reflexivity|]|]; simpl; lia).
  assert (H2 : price_ok sample_price) by (split; [reflexivity|simpl; lia]).
  split; [exact H1|split; [exact H2|]].
  exact (proj2 (proj2 (collar_contains_decides _ _ H1 H2))).
Defined.

(** For a valid date and symbol, [compose] returns the canonical text
    exactly when strategy and window match their patterns, the target version
    lies in [1, 10^10) and the text has at most 128 characters; otherwise it
    raises ValueError. *)
Theorem compose_decides strategy date window v symbol side :
  date_ok date = true → fullmatch SYMBOL_PATTERN symbol = true →
  let text := client_order_id_text strategy date window v symbol side in
  if fullmatch STRATEGY_PATTERN strategy && fullmatch WINDOW_PATTERN window
     && (1 <=? v) && (v <? 10000000000) && bool_decide (String.length text ≤ 128)%nat
  then compose strategy date window v symbol side = Ok text
  else ∃ msg, compose strategy date window v symbol side = raise EValueError msg.
Proof.
  intros Hd Hsym text. unfold compose, guard_that.
  destruct (fullmatch STRATEGY_PATTERN strategy) eqn:Hs; [|by eexists].
  destruct (fullmatch WINDOW_PATTERN window) eqn:Hw; [|by eexists].
  destruct (Z.leb_spec 1 v), (Z.ltb_spec v 1); try lia; [|by eexists].
  destruct (Z.ltb_spec MAX_TARGET_VERSION v) as [Hv|Hv].
  { destruct (Z.ltb_spec v 10000000000); [unfold MAX_TARGET_VERSION in Hv; lia|by eexists]. }
  cbv [mbind outcome_bind negb orb andb]. fold text. unfold make_ClientOrderId, guard_that.
  change CLIENT_ORDER_ID_MAX_LENGTH with 128%nat.
  destruct (Z.ltb_spec v 10000000000).
  - assert (fullmatch CLIENT_ORDER_ID_PATTERN text = true) as ->
      by (by apply canonical_id_intro).
    case_bool_decide; simpl; [done|by eexists].
  - destruct (fullmatch CLIENT_ORDER_ID_PATTERN text) eqn:Hm.
    + apply canonical_id_version in Hm; [unfold MAX_TARGET_VERSION in Hm; lia|done..].
    + rewrite andb_false_r. by eexists.
Qed.

Lemma compose_decides_witness :
  compose "core" sample_date "open" 1 "AAPL" OrderSide.BUY =
    Ok "slv1-core-2024-01-02-open-t1-AAPL-buy" ∧
  ∃ msg, compose "core" sample_date "open" 10000000000 "AAPL" OrderSide.BUY =
    raise EValueError msg.
Proof.
  split.
  - exact (compose_decides "core" sample_date "open" 1 "AAPL" OrderSide.BUY eq_refl eq_refl).
  - exact (compose_decides "core" sample_date "open" 10000000000 "AAPL" OrderSide.BUY
             eq_refl eq_refl).
Defined.

(** For one strategy the client order id is injective: equal ids come from
    the same date, window, target version, symbol and side. *)
Theorem compose_injective strategy date window v symbol side date' window' v' symbol' side' cid :
  date_ok date = true → date_ok date' = true →
  fullmatch SYMBOL_PATTERN symbol = true → fullmatch SYMBOL_PATTERN symbol' = true →
  compose strategy date window v symbol side = Ok cid →
  compose strategy date' window' v' symbol' side' = Ok cid →
  date = date' ∧ window = window' ∧ v = v' ∧ symbol = symbol' ∧ side = side'.
Proof.
  intros Hd Hd' Hs Hs' (Hc & _ & _ & Hv & _)%compose_Ok (Hc' & _ & _ & Hv' & _)%compose_Ok.
  rewrite Hc, !client_order_id_text_tail in Hc'.
  apply cid_tail_inj in Hc' as (Hh & Hvv & -> & Hside);
    [|by apply version_digits|by apply version_digits|done|done|apply lower_side..].
  apply (inj int_text) in Hvv as ->.
  do 3 apply str_app_inv_l in Hh. apply str_app_inj_1 in Hh as [Hdd Hh]; [|done].
  apply isoformat_inj in Hdd as ->; [|done..]. apply str_app_inv_l in Hh as ->.
  split_and!; [done..|]. by destruct side, side'.
Qed.

Lemma compose_injective_witness :
  compose "core" sample_date "open" 3 "BRK.B" OrderSide.SELL =
    Ok "slv1-core-2024-01-02-open-t3-BRK.B-sell" ∧ sample_date = sample_date.
Proof.
  assert (H : compose "core" sample_date "open" 3 "BRK.B" OrderSide.SELL =
    Ok "slv1-core-2024-01-02-open-t3-BRK.B-sell") by (vm_compute; reflexivity).
  split; [exact H|].
  exact (proj1 (compose_injective "core" sample_date "open" 3 "BRK.B" OrderSide.SELL
           sample_date "open" 3 "BRK.B" OrderSide.SELL _
           eq_refl eq_refl eq_refl eq_refl H H)).
Defined.

(** Across strategies the id is not injective: two different component tuples
    share one id. *)
Example compose_collision :
  compose "a" (mk_TradingDate 2024 1 1) "2024-01-02-w" 1 "A" OrderSide.BUY =
  compose "a-2024-01-01" (mk_TradingDate 2024 1 2) "w" 1 "A" OrderSide.BUY ∧
  is_Ok (compose "a" (mk_TradingDate 2024 1 1) "2024-01-02-w" 1 "A" OrderSide.BUY) = true.
Proof. vm_compute. done. Qed.

(** The largest target version passes its own range check and has no id. *)
Example compose_largest_version :
  is_Ok (compose "a" sample_date "w" MAX_TARGET_VERSION "A" OrderSide.BUY) = false ∧
  is_Ok (compose "a" sample_date "w" (MAX_TARGET_VERSION - 1) "A" OrderSide.BUY) = true.
Proof. vm_compute. done. Qed.

(** A collar whose reference is near the largest price raises on its own
    reference instead of deciding. *)
Example collar_raises_near_max :
  is_Ok (collar_contains (mk_PriceCollar (mk_Price (mk_dec 1000000000 (-2))) 1)
           (mk_Price (mk_dec 1000000000 (-2)))) = false.
Proof. vm_compute. done. Qed.
