(* ===== verification/Ledger.v ===== *)
(** * The fill ledger: [src/seven_lens/execution/ledger.py]

    Replay of the append-only fills, in the canonical order of broker time and
    execution id, into a signed cash delta and FIFO lots.  A dict keyed by
    [Symbol] is a [gmap] keyed by the symbol's text. *)

From S2P Require Import Prelude Text Orders.
Local Open Scope Z_scope.

Definition MAX_ABS_CENTS : Z := 1000000000000.

(** ** Lots and projections *)

Record OpenLot := mk_OpenLot {
  lot_symbol : string;
  lot_quantity : Z;
  lot_price : Price;
  lot_opened_at : Z;
}.
#[global] Instance OpenLot_eq_dec : EqDecision OpenLot.
Proof. solve_decision. Defined.

Definition make_OpenLot (symbol : string) (quantity : Z) (price : Price) (opened_at : Z)
    : outcome OpenLot :=
  guard_that (negb (quantity <? 1)) EValueError
    "lot quantity must be a positive whole number of shares" ≫= λ _,
  Ok (mk_OpenLot symbol quantity price opened_at).

Record LedgerProjection := mk_LedgerProjection {
  lp_cash_delta_cents : Z;
  lp_lots : list OpenLot;
}.
#[global] Instance LedgerProjection_eq_dec : EqDecision LedgerProjection.
Proof. solve_decision. Defined.

Definition make_LedgerProjection (cash : Z) (lots : list OpenLot) : outcome LedgerProjection :=
  guard_that (negb (MAX_ABS_CENTS <? Z.abs cash)) EValueError
    "cash delta must be a bounded integer number of cents" ≫= λ _,
  Ok (mk_LedgerProjection cash lots).

Definition add_position (quantities : gmap string Z) (lot : OpenLot) : gmap string Z :=
  <[lot_symbol lot := default 0 (quantities !! lot_symbol lot) + lot_quantity lot]> quantities.
Definition positions_of (lots : list OpenLot) : gmap string Z :=
  foldl add_position ∅ lots.
Definition positions (p : LedgerProjection) : gmap string Z := positions_of (lp_lots p).

(** ** Valuation *)

(** The marking loop both valuations share. *)
Fixpoint market_value (prices : gmap string Price) (lots : list OpenLot) (acc : Z)
    : outcome Z :=
  match lots with
  | [] => Ok acc
  | lot :: lots =>
      match prices !! lot_symbol lot with
      | None => raise EValueError ("missing price for symbol " +:+ lot_symbol lot)
      | Some price => market_value prices lots (acc + lot_quantity lot * Price_cents price)
      end
  end.

Definition account_valuation (projection : LedgerProjection) (opening_cash_cents : Z)
    (prices : gmap string Price) : outcome Z :=
  guard_that (negb (opening_cash_cents <? 0)) EValueError
    "opening cash must be a non-negative integer number of cents" ≫= λ _,
  mv ← market_value prices (lp_lots projection) 0;
  let total := opening_cash_cents + lp_cash_delta_cents projection + mv in
  guard_that (negb (MAX_ABS_CENTS <? Z.abs total)) EValueError
    "account valuation exceeds the allowed range" ≫= λ _,
  Ok total.

Definition account_equity_from_cash_and_positions (expected_cash_cents : Z)
    (lots : list OpenLot) (prices : gmap string Price) : outcome Z :=
  guard_that (negb (MAX_ABS_CENTS <? Z.abs expected_cash_cents)) EValueError
    "expected cash must be a bounded integer number of cents" ≫= λ _,
  mv ← market_value prices lots 0;
  let total := expected_cash_cents + mv in
  guard_that (negb (MAX_ABS_CENTS <? Z.abs total)) EValueError
    "account valuation exceeds the allowed range" ≫= λ _,
  Ok total.

(** ** Replay *)

(** The sort key [(occurred_at, execution_id)], compared as a tuple. *)
Definition fill_leb (a b : Fill) : bool :=
  (fl_occurred_at a <? fl_occurred_at b) ||
  ((fl_occurred_at a =? fl_occurred_at b) && String.leb (fl_execution_id a) (fl_execution_id b)).

(** The sort key [(symbol, opened_at)]. *)
Definition lot_leb (a b : OpenLot) : bool :=
  if bool_decide (lot_symbol a = lot_symbol b) then lot_opened_at a <=? lot_opened_at b
  else String.leb (lot_symbol a) (lot_symbol b).

Record replay_state := mk_replay_state {
  rs_cash_cents : Z;
  rs_lots : list OpenLot;
  rs_seen_executions : gset string;
  rs_filled_by_order : gmap string Z;
}.

(** The loop over [lots] of one sell fill: what remains to be sold, the cash,
    and the lots kept. *)
Fixpoint consume_lots (symbol : string) (price : Price) (remaining cash : Z)
    (lots : list OpenLot) : outcome (Z * Z * list OpenLot) :=
  match lots with
  | [] => Ok (remaining, cash, [])
  | lot :: lots =>
      if (remaining =? 0) || negb (bool_decide (lot_symbol lot = symbol)) then
        '(r, c, kept) ← consume_lots symbol price remaining cash lots;
        Ok (r, c, lot :: kept)
      else if lot_quantity lot <=? remaining then
        consume_lots symbol price (remaining - lot_quantity lot)
          (cash + lot_quantity lot * Price_cents price) lots
      else
        rest ← make_OpenLot (lot_symbol lot) (lot_quantity lot - remaining)
                 (lot_price lot) (lot_opened_at lot);
        '(r, c, kept) ← consume_lots symbol price 0 (cash + remaining * Price_cents price) lots;
        Ok (r, c, rest :: kept)
  end.

(** One iteration of the replay loop. *)
Definition replay_fill (broker_orders : gmap string BrokerOrder) (s : replay_state)
    (fill : Fill) : outcome replay_state :=
  guard_that (negb (bool_decide (fl_execution_id fill ∈ rs_seen_executions s)))
    ELedgerInvariant "duplicate execution id in fill ledger" ≫= λ _,
  let seen := {[fl_execution_id fill]} ∪ rs_seen_executions s in
  match broker_orders !! fl_broker_order_id fill with
  | None => raise ELedgerInvariant "fill references an unknown broker order"
  | Some order =>
      let cumulative :=
        default 0 (rs_filled_by_order s !! fl_broker_order_id fill) + fl_quantity fill in
      guard_that (negb (bo_quantity order <? cumulative)) ELedgerInvariant
        "fill quantity exceeds the recorded order quantity" ≫= λ _,
      let filled := <[fl_broker_order_id fill := cumulative]> (rs_filled_by_order s) in
      match bo_side order with
      | OrderSide.BUY =>
          let cash := rs_cash_cents s - fl_quantity fill * Price_cents (fl_price fill) in
          guard_that (negb (MAX_ABS_CENTS <? Z.abs cash)) ELedgerInvariant
            "projected cash delta exceeds the allowed range" ≫= λ _,
          lot ← make_OpenLot (bo_symbol order) (fl_quantity fill) (fl_price fill)
                  (fl_occurred_at fill);
          Ok (mk_replay_state cash (rs_lots s ++ [lot]) seen filled)
      | OrderSide.SELL =>
          '(remaining, cash, consumed) ←
            consume_lots (bo_symbol order) (fl_price fill) (fl_quantity fill)
              (rs_cash_cents s) (rs_lots s);
          guard_that (remaining =? 0) ELedgerInvariant
            "sell fill exceeds the projected position" ≫= λ _,
          Ok (mk_replay_state cash consumed seen filled)
      end
  end.

Fixpoint replay (broker_orders : gmap string BrokerOrder) (s : replay_state)
    (fills : list Fill) : outcome replay_state :=
  match fills with
  | [] => Ok s
  | fill :: fills => s' ← replay_fill broker_orders s fill; replay broker_orders s' fills
  end.

Definition initial_replay : replay_state := mk_replay_state 0 [] ∅ ∅.

Definition canonical_fills (fills : list Fill) : list Fill := sort_by fill_leb fills.

Definition project_ledger (fills : list Fill) (broker_orders : gmap string BrokerOrder)
    : outcome LedgerProjection :=
  s ← replay broker_orders initial_replay (canonical_fills fills);
  guard_that (negb (MAX_ABS_CENTS <? Z.abs (rs_cash_cents s))) ELedgerInvariant
    "projected cash delta exceeds the allowed range" ≫= λ _,
  make_LedgerProjection (rs_cash_cents s) (sort_by lot_leb (rs_lots s)).

(** ** Specification: positions, cash and FIFO queues of single shares *)

Section spec.
Context (broker_orders : gmap string BrokerOrder).

(** What one fill adds to the position in [symbol]. *)
Definition fill_delta (symbol : string) (f : Fill) : Z :=
  match broker_orders !! fl_broker_order_id f with
  | Some o =>
      if bool_decide (bo_symbol o = symbol)
      then match bo_side o with
           | OrderSide.BUY => fl_quantity f | OrderSide.SELL => - fl_quantity f end
      else 0
  | None => 0
  end.
Definition net_position (symbol : string) (l : list Fill) : Z :=
  foldr (λ f acc, fill_delta symbol f + acc) 0 l.

(** What one fill adds to the cash. *)
Definition fill_cash (f : Fill) : Z :=
  match broker_orders !! fl_broker_order_id f with
  | Some o =>
      match bo_side o with
      | OrderSide.BUY => - (fl_quantity f * Price_cents (fl_price f))
      | OrderSide.SELL => fl_quantity f * Price_cents (fl_price f)
      end
  | None => 0
  end.
Definition net_cash (l : list Fill) : Z := foldr (λ f acc, fill_cash f + acc) 0 l.

Definition order_filled (broker_order_id : string) (l : list Fill) : Z :=
  foldr (λ f acc, (if bool_decide (fl_broker_order_id f = broker_order_id)
                   then fl_quantity f else 0) + acc) 0 l.

(** First in, first out over single shares: (cost, time bought). *)
Definition fifo_step (symbol : string) (queue : list (Price * Z)) (f : Fill)
    : list (Price * Z) :=
  match broker_orders !! fl_broker_order_id f with
  | Some o =>
      if bool_decide (bo_symbol o = symbol)
      then match bo_side o with
           | OrderSide.BUY =>
               queue ++ replicate (Z.to_nat (fl_quantity f)) (fl_price f, fl_occurred_at f)
           | OrderSide.SELL => drop (Z.to_nat (fl_quantity f)) queue
           end
      else queue
  | None => queue
  end.
Definition fifo (symbol : string) (l : list Fill) : list (Price * Z) :=
  foldl (fifo_step symbol) [] l.

Definition is_buy (f : Fill) : bool :=
  match broker_orders !! fl_broker_order_id f with
  | Some o => bool_decide (bo_side o = OrderSide.BUY) | None => false end.

(** The ledgers that can be projected: distinct executions of known orders
    within the ordered quantity, no position negative after any prefix of the
    canonical replay, cash bounded after every buy and at the end. *)
Record ledger_legal (fills : list Fill) : Prop := {
  ll_executions : NoDup (fl_execution_id <$> fills);
  ll_orders : ∀ f, f ∈ fills → ∃ o, broker_orders !! fl_broker_order_id f = Some o ∧
                order_filled (fl_broker_order_id f) fills ≤ bo_quantity o;
  ll_positions : ∀ l1 l2 y, canonical_fills fills = l1 ++ l2 → 0 ≤ net_position y l1;
  ll_buys : ∀ l1 f l2, canonical_fills fills = l1 ++ f :: l2 → is_buy f = true →
              Z.abs (net_cash (l1 ++ [f])) ≤ MAX_ABS_CENTS;
  ll_cash : Z.abs (net_cash fills) ≤ MAX_ABS_CENTS;
}.
End spec.

(** The shares of [symbol] held in lots, in lot order. *)
Definition shares (symbol : string) (lots : list OpenLot) : list (Price * Z) :=
  lots ≫= λ l, if bool_decide (lot_symbol l = symbol)
               then replicate (Z.to_nat (lot_quantity l)) (lot_price l, lot_opened_at l)
               else [].
