(* ===== verification/LedgerFacts.v ===== *)
(** * Theorems on the fill ledger

    The replay against its specification: cash and positions are the sums of
    the fills, the lots are the FIFO queue of single shares, the result does
    not depend on the order the fills arrive in, and no prefix oversells. *)

From S2P Require Import Prelude Text Orders Ledger.
Local Open Scope Z_scope.

(** ** The sort keys are total preorders *)

Lemma ascii_compare_nat a b :
  Ascii.compare a b = Nat.compare (nat_of_ascii a) (nat_of_ascii b).
Proof.
  unfold Ascii.compare. rewrite N2Nat.inj_compare. done.
Qed.

Lemma str_leb_total a b : String.leb a b = false → String.leb b a = true.
Proof. destruct (String.leb_total a b); congruence. Qed.

Lemma str_leb_antisym a b : String.leb a b = true → String.leb b a = true → a = b.
Proof. apply String.leb_antisym. Qed.

Lemma str_leb_trans a b c :
  String.leb a b = true → String.leb b c = true → String.leb a c = true.
Proof.
  unfold String.leb. revert b c. induction a as [|x a IH]; intros b c; [by destruct c|].
  destruct b as [|y b]; [done|]. destruct c as [|z c]; [done|]. cbn [String.compare].
  rewrite !ascii_compare_nat. specialize (IH b c).
  destruct (Nat.compare_spec (nat_of_ascii x) (nat_of_ascii y)),
    (Nat.compare_spec (nat_of_ascii y) (nat_of_ascii z)),
    (Nat.compare_spec (nat_of_ascii x) (nat_of_ascii z)); try done; lia.
Qed.

Lemma fill_leb_total a b : fill_leb a b = false → fill_leb b a = true.
Proof.
  unfold fill_leb. rewrite !orb_false_iff, !orb_true_iff, !andb_true_iff, !andb_false_iff,
    !Z.ltb_lt, !Z.ltb_ge, !Z.eqb_eq, !Z.eqb_neq.
  intros [H [H'|H']]; [left; lia|].
  apply str_leb_total in H'. destruct (decide (fl_occurred_at a = fl_occurred_at b)); [auto|].
  left; lia.
Qed.

Lemma fill_leb_trans a b c :
  fill_leb a b = true → fill_leb b c = true → fill_leb a c = true.
Proof.
  unfold fill_leb. rewrite !orb_true_iff, !andb_true_iff, !Z.ltb_lt, !Z.eqb_eq.
  intros [?|[? ?]] [?|[? ?]]; try (left; lia). right. split; [lia|]. by eapply str_leb_trans.
Qed.

Lemma fill_leb_antisym a b :
  fill_leb a b = true → fill_leb b a = true → fl_execution_id a = fl_execution_id b.
Proof.
  unfold fill_leb. rewrite !orb_true_iff, !andb_true_iff, !Z.ltb_lt, !Z.eqb_eq.
  intros [?|[? ?]] [?|[? ?]]; try lia. by apply str_leb_antisym.
Qed.

Lemma fill_leb_time a b : fill_leb a b = true → fl_occurred_at a ≤ fl_occurred_at b.
Proof.
  unfold fill_leb. rewrite !orb_true_iff, !andb_true_iff, !Z.ltb_lt, !Z.eqb_eq. lia.
Qed.

Lemma lot_leb_total a b : lot_leb a b = false → lot_leb b a = true.
Proof.
  unfold lot_leb. repeat case_bool_decide; try congruence.
  - rewrite Z.leb_gt, Z.leb_le. lia.
  - apply str_leb_total.
Qed.

Lemma lot_leb_trans a b c : lot_leb a b = true → lot_leb b c = true → lot_leb a c = true.
Proof.
  destruct a, b, c. unfold lot_leb; simpl.
  repeat case_bool_decide; subst; try congruence; rewrite ?Z.leb_le; try lia; auto.
  - intros Hab Hbc. by destruct (str_leb_antisym _ _ Hab Hbc).
  - apply str_leb_trans.
Qed.

(** ** Consuming lots *)

#[local] Arguments shares : simpl never.

Definition lots_ok (lots : list OpenLot) : Prop := Forall (λ l, 1 ≤ lot_quantity l) lots.

Lemma shares_app y l1 l2 : shares y (l1 ++ l2) = shares y l1 ++ shares y l2.
Proof. apply bind_app. Qed.

Lemma shares_cons y l lots :
  shares y (l :: lots) =
  (if bool_decide (lot_symbol l = y)
   then replicate (Z.to_nat (lot_quantity l)) (lot_price l, lot_opened_at l) else [])
  ++ shares y lots.
Proof. done. Qed.

(** What a sell of [remaining] shares does to the lots. *)
Record consumed (y : string) (price remaining cash : Z) (lots : list OpenLot)
    (rem' cash' : Z) (lots' : list OpenLot) : Prop := {
  cons_left : rem' = Z.max 0 (remaining - Z.of_nat (length (shares y lots)));
  cons_cash : cash' = cash + (remaining - rem') * price;
  cons_same : shares y lots' = drop (Z.to_nat remaining) (shares y lots);
  cons_other : ∀ z, z ≠ y → shares z lots' = shares z lots;
  cons_ok : lots_ok lots';
  cons_times : (lot_opened_at <$> lots') `sublist_of` (lot_opened_at <$> lots);
}.

Lemma consume_lots_spec y price remaining cash lots :
  0 ≤ remaining → lots_ok lots →
  ∃ rem' cash' lots', consume_lots y price remaining cash lots = Ok (rem', cash', lots') ∧
    consumed y (Price_cents price) remaining cash lots rem' cash' lots'.
Proof.
  intros Hr Hok. revert remaining cash Hr. induction Hok as [|l lots Hl Hok IH]; intros r c Hr.
  { eexists _, _, _. split; [done|]. split; simpl; try done; try lia; [by destruct (Z.to_nat r)|constructor]. }
  simpl. case_bool_decide as Hy; simpl.
  2: { rewrite orb_true_r. destruct (IH r c Hr) as (r' & c' & k & -> & [? ? ? Hot ? ?]).
       eexists _, _, _. split; [done|].
       split; simpl; rewrite ?shares_cons, ?(bool_decide_false (lot_symbol l = y)) by done;
         try done.
       - intros z Hz. by rewrite !shares_cons, Hot.
       - by constructor.
       - by constructor. }
  rewrite orb_false_r. destruct (Z.eqb_spec r 0) as [->|Hr0].
  { destruct (IH 0 c ltac:(done)) as (r' & c' & k & -> & [? ? Hsame Hot ? ?]).
    eexists _, _, _. split; [done|]. split; simpl.
    - lia.
    - done.
    - by rewrite !shares_cons, Hsame.
    - intros z Hz. by rewrite !shares_cons, Hot.
    - by constructor.
    - by constructor. }
  destruct (Z.leb_spec (lot_quantity l) r).
  - destruct (IH (r - lot_quantity l) (c + lot_quantity l * Price_cents price) ltac:(lia))
      as (r' & c' & k & -> & [Hle Hc Hsame Hot ? ?]).
    eexists _, _, _. split; [done|]. split; simpl.
    + rewrite shares_cons, bool_decide_true, length_app, length_replicate by done. lia.
    + rewrite Hc. lia.
    + rewrite shares_cons, bool_decide_true, Hsame by done.
      rewrite drop_app, length_replicate, (drop_ge (replicate _ _))
        by (rewrite length_replicate; lia).
      simpl. f_equal. lia.
    + intros z Hz. rewrite shares_cons, bool_decide_false by congruence. by apply Hot.
    + done.
    + by constructor.
  - unfold make_OpenLot, guard_that.
    destruct (Z.ltb_spec (lot_quantity l - r) 1); [lia|]. simpl.
    destruct (IH 0 (c + r * Price_cents price) ltac:(done))
      as (r' & c' & k & -> & [Hle Hc Hsame Hot ? ?]).
    eexists _, _, _. split; [done|]. split; simpl.
    + rewrite shares_cons, bool_decide_true, length_app, length_replicate by done. lia.
    + lia.
    + rewrite !shares_cons. simpl. rewrite !bool_decide_true, Hsame by done.
      rewrite drop_app, length_replicate.
      replace (Z.to_nat r - Z.to_nat (lot_quantity l))%nat with 0%nat by lia.
      rewrite drop_replicate. do 2 f_equal. lia.
    + intros z Hz. rewrite !shares_cons. simpl. by rewrite bool_decide_false, Hot by congruence.
    + constructor; [simpl; lia|done].
    + by constructor.
Qed.

(** ** Sums over fills *)

Section replay.
Context (orders : gmap string BrokerOrder).
Implicit Types (l : list Fill) (f : Fill).

Lemma net_position_app y l1 l2 :
  net_position orders y (l1 ++ l2) = net_position orders y l1 + net_position orders y l2.
Proof. induction l1 as [|f l1 IH]; simpl; [done|]. rewrite IH. lia. Qed.
Lemma net_cash_app l1 l2 : net_cash orders (l1 ++ l2) = net_cash orders l1 + net_cash orders l2.
Proof. induction l1 as [|f l1 IH]; simpl; [done|]. rewrite IH. lia. Qed.
Lemma order_filled_app i l1 l2 :
  order_filled i (l1 ++ l2) = order_filled i l1 + order_filled i l2.
Proof. induction l1 as [|f l1 IH]; simpl; [done|]. rewrite IH. lia. Qed.

Lemma net_position_perm y l1 l2 :
  l1 ≡ₚ l2 → net_position orders y l1 = net_position orders y l2.
Proof. induction 1; simpl; lia. Qed.
Lemma net_cash_perm l1 l2 : l1 ≡ₚ l2 → net_cash orders l1 = net_cash orders l2.
Proof. induction 1; simpl; lia. Qed.
Lemma order_filled_perm i l1 l2 : l1 ≡ₚ l2 → order_filled i l1 = order_filled i l2.
Proof. induction 1; simpl; lia. Qed.

(** ** The replay invariant *)

Record replay_inv (done : list Fill) (s : replay_state) : Prop := {
  ri_seen : rs_seen_executions s = list_to_set (fl_execution_id <$> done);
  ri_nodup : NoDup (fl_execution_id <$> done);
  ri_filled : ∀ i, default 0 (rs_filled_by_order s !! i) = order_filled i done;
  ri_within : ∀ f, f ∈ done → ∃ o, orders !! fl_broker_order_id f = Some o ∧
                order_filled (fl_broker_order_id f) done ≤ bo_quantity o;
  ri_cash : rs_cash_cents s = net_cash orders done;
  ri_ok : lots_ok (rs_lots s);
  ri_shares : ∀ y, shares y (rs_lots s) = fifo orders y done;
  ri_net : ∀ y, Z.of_nat (length (shares y (rs_lots s))) = net_position orders y done;
  ri_sorted : StronglySorted Z.le (lot_opened_at <$> rs_lots s);
  ri_times : ∀ t, t ∈ lot_opened_at <$> rs_lots s → ∃ f, f ∈ done ∧ t = fl_occurred_at f;
}.

Lemma replay_inv_init : replay_inv [] initial_replay.
Proof.
  split; simpl; try done; [constructor|by intros f ?%elem_of_nil|constructor|constructor|].
  by intros t ?%elem_of_nil.
Qed.

Lemma order_filled_one i f :
  order_filled i [f] = if bool_decide (fl_broker_order_id f = i) then fl_quantity f else 0.
Proof. simpl. lia. Qed.

Lemma order_filled_nonneg i l : Forall fill_ok l → 0 ≤ order_filled i l.
Proof.
  induction 1 as [|f l [Hf _] _ IH]; simpl; [done|]. case_bool_decide; lia.
Qed.

Lemma sorted_sublist (l k : list Z) :
  StronglySorted Z.le k → l `sublist_of` k → StronglySorted Z.le l.
Proof.
  intros Hk Hs. revert Hk. induction Hs as [|x l k Hs IH|x l k Hs IH]; intros Hk;
    [done| |]; inversion_clear Hk as [|? ? Hk' Hx]; [|by auto].
  constructor; [auto|]. rewrite Forall_forall in *. intros y Hy. apply Hx.
  by eapply elem_of_sublist.
Qed.

(** Extending the part of the invariant that does not concern the lots. *)
Lemma replay_inv_extend done s f o cash lots :
  replay_inv done s → Forall fill_ok done → fill_ok f →
  fl_execution_id f ∉ rs_seen_executions s →
  orders !! fl_broker_order_id f = Some o →
  default 0 (rs_filled_by_order s !! fl_broker_order_id f) + fl_quantity f ≤ bo_quantity o →
  cash = rs_cash_cents s + fill_cash orders f → lots_ok lots →
  (∀ y, shares y lots = fifo_step orders y (shares y (rs_lots s)) f) →
  (∀ y, Z.of_nat (length (shares y lots)) =
        Z.of_nat (length (shares y (rs_lots s))) + fill_delta orders y f) →
  StronglySorted Z.le (lot_opened_at <$> lots) →
  (∀ t, t ∈ lot_opened_at <$> lots → t = fl_occurred_at f ∨ t ∈ lot_opened_at <$> rs_lots s) →
  replay_inv (done ++ [f]) (mk_replay_state cash lots
    ({[fl_execution_id f]} ∪ rs_seen_executions s)
    (<[fl_broker_order_id f :=
        default 0 (rs_filled_by_order s !! fl_broker_order_id f) + fl_quantity f]>
      (rs_filled_by_order s))).
Proof.
  intros [Hseen Hnd Hfilled Hwithin Hcash Hok Hshares Hnet Hsorted Htimes] Hall Hf Hid Ho Hle
    -> Hlots Hsh Hlen Hso Hti.
  split; simpl.
  - rewrite fmap_app, list_to_set_app_L, Hseen. simpl.
    by rewrite (right_id_L ∅ (∪)), (comm_L (∪)).
  - rewrite fmap_app. apply NoDup_app. split_and!; [done| |apply NoDup_singleton].
    intros x Hx ->%list_elem_of_singleton. apply Hid. rewrite Hseen. by apply elem_of_list_to_set.
  - intros i. rewrite order_filled_app, order_filled_one. case_bool_decide as Hi.
    + subst. rewrite lookup_insert_eq. simpl. by rewrite Hfilled.
    + rewrite lookup_insert_ne, Hfilled by done. lia.
  - intros g [Hg|Hg%list_elem_of_singleton]%elem_of_app.
    + destruct (Hwithin g Hg) as (o' & Ho' & Hle'). exists o'. split; [done|].
      rewrite order_filled_app, order_filled_one. case_bool_decide as Hi; [|lia].
      rewrite <-Hi in *. rewrite Ho in Ho'. simplify_eq. rewrite Hfilled in Hle. lia.
    + subst g. exists o. split; [done|]. rewrite order_filled_app, order_filled_one.
      rewrite bool_decide_true, <-Hfilled by done. lia.
  - rewrite net_cash_app, <-Hcash. simpl. lia.
  - done.
  - intros y. unfold fifo. rewrite foldl_app. simpl. by rewrite Hsh, Hshares.
  - intros y. rewrite net_position_app, Hlen, Hnet. simpl. lia.
  - done.
  - intros t [->|(g & Hg & ->)%Htimes]%Hti.
    + exists f. split; [|done]. apply elem_of_app. right. by apply list_elem_of_singleton.
    + exists g. split; [|done]. apply elem_of_app. by left.
Qed.

Lemma replay_fill_inv done s f :
  replay_inv done s → Forall fill_ok done → fill_ok f →
  (∀ g, g ∈ done → fl_occurred_at g ≤ fl_occurred_at f) →
  match replay_fill orders s f with
  | Ok s' => replay_inv (done ++ [f]) s'
  | Raise e => exn_cls e = ELedgerInvariant
  end.
Proof.
  intros Hinv Hall Hf Htime. unfold replay_fill, guard_that.
  case_bool_decide as Hseen; [done|]. simpl.
  destruct (orders !! fl_broker_order_id f) as [o|] eqn:Ho; [|done].
  set (cum := _ + fl_quantity f).
  destruct (Z.ltb_spec (bo_quantity o) cum); [done|]. simpl.
  destruct (bo_side o) eqn:Hside.
  - destruct (MAX_ABS_CENTS <? _); [done|]. simpl. unfold make_OpenLot, guard_that.
    pose proof Hf as [Hq _]. destruct (Z.ltb_spec (fl_quantity f) 1); [lia|]. simpl.
    assert (Hsh : ∀ y, shares y (rs_lots s ++ [mk_OpenLot (bo_symbol o) (fl_quantity f)
        (fl_price f) (fl_occurred_at f)]) = fifo_step orders y (shares y (rs_lots s)) f).
    { intros y. rewrite shares_app, shares_cons. unfold fifo_step. rewrite Ho, Hside. simpl.
      change (shares y []) with (@nil (Price * Z)).
      case_bool_decide; by rewrite ?app_nil_r. }
    eapply replay_inv_extend; try done.
    + unfold fill_cash. rewrite Ho, Hside. lia.
    + apply Forall_app. split; [apply Hinv|]. repeat constructor. simpl. lia.
    + intros y. rewrite Hsh. unfold fifo_step, fill_delta. rewrite Ho, Hside.
      case_bool_decide; rewrite ?length_app, ?length_replicate; lia.
    + rewrite fmap_app. apply StronglySorted_app. split_and!; [|apply Hinv|repeat constructor].
      intros t u Ht ->%list_elem_of_singleton.
      destruct (ri_times _ _ Hinv t Ht) as (g & Hg & ->). by apply Htime.
    + intros t. rewrite fmap_app, elem_of_app. simpl. rewrite list_elem_of_singleton. tauto.
  - pose proof Hf as [Hq _].
    destruct (consume_lots_spec (bo_symbol o) (fl_price f) (fl_quantity f) (rs_cash_cents s)
      (rs_lots s)) as (r & c & k & -> & [Hr Hc Hsame Hother Hok Hsub]); [lia|apply Hinv|].
    simpl. destruct (Z.eqb_spec r 0) as [Hz|]; [|done]. simpl.
    eapply replay_inv_extend; try done.
    + unfold fill_cash. rewrite Ho, Hside. lia.
    + intros y. unfold fifo_step. rewrite Ho, Hside. case_bool_decide as Hy; [by subst|].
      apply Hother. congruence.
    + intros y. unfold fill_delta. rewrite Ho, Hside. case_bool_decide as Hy.
      * subst y. rewrite Hsame, length_drop. lia.
      * rewrite Hother by congruence. lia.
    + eapply sorted_sublist; [apply Hinv|done].
    + intros t Ht. right. by eapply elem_of_sublist.
Qed.

Lemma replay_run done s l :
  replay_inv done s → Forall fill_ok done → Forall fill_ok l →
  StronglySorted (λ a b, fill_leb a b = true) (done ++ l) →
  match replay orders s l with
  | Ok s' => replay_inv (done ++ l) s'
  | Raise e => exn_cls e = ELedgerInvariant
  end.
Proof.
  intros Hinv Hdone Hl. revert done s Hinv Hdone.
  induction Hl as [|f l Hf Hl IH]; intros dn s Hinv Hdone Hs; simpl.
  { by rewrite app_nil_r. }
  assert (Htime : ∀ g, g ∈ dn → fl_occurred_at g ≤ fl_occurred_at f).
  { intros g Hg. apply fill_leb_time.
    by apply (StronglySorted_app_1_elem_of (λ a b, fill_leb a b = true) dn (f :: l)); [| |left]. }
  pose proof (replay_fill_inv dn s f Hinv Hdone Hf Htime) as Hstep.
  destruct (replay_fill orders s f) as [s'|e]; [|done]. simpl.
  rewrite cons_middle, app_assoc in Hs |- *. apply IH; [done| |done].
  apply Forall_app. auto.
Qed.

Lemma replay_app s l1 l2 :
  replay orders s (l1 ++ l2) = (s' ← replay orders s l1; replay orders s' l2).
Proof.
  revert s. induction l1 as [|f l1 IH]; intros s; simpl; [done|].
  destruct (replay_fill orders s f); simpl; [apply IH|done].
Qed.

Lemma canonical_fills_perm l : canonical_fills l ≡ₚ l.
Proof. apply sort_by_perm. Qed.
Lemma canonical_fills_sorted l : StronglySorted (λ a b, fill_leb a b = true) (canonical_fills l).
Proof. apply sort_by_sorted; [apply fill_leb_total|apply fill_leb_trans]. Qed.

Lemma canonical_fills_ok l : Forall fill_ok l → Forall fill_ok (canonical_fills l).
Proof. by rewrite canonical_fills_perm. Qed.

(** Every prefix of a successful replay satisfies the invariant. *)
Lemma replay_prefix l l1 l2 s :
  Forall fill_ok l → canonical_fills l = l1 ++ l2 →
  replay orders initial_replay (canonical_fills l) = Ok s →
  ∃ s1, replay orders initial_replay l1 = Ok s1 ∧ replay_inv l1 s1 ∧
        replay orders s1 l2 = Ok s.
Proof.
  intros Hok Heq Hr. rewrite Heq, replay_app in Hr.
  pose proof (canonical_fills_sorted l) as Hs. rewrite Heq in Hs.
  apply canonical_fills_ok in Hok. rewrite Heq in Hok. apply Forall_app in Hok as [Hok _].
  pose proof (replay_run [] initial_replay l1 replay_inv_init ltac:(constructor) Hok
    ltac:(by eapply StronglySorted_app_1_l)) as Hrun.
  destruct (replay orders initial_replay l1) as [s1|e]; [|done]. by exists s1.
Qed.

Lemma replay_canonical l :
  Forall fill_ok l →
  match replay orders initial_replay (canonical_fills l) with
  | Ok s => replay_inv (canonical_fills l) s
  | Raise e => exn_cls e = ELedgerInvariant
  end.
Proof.
  intros Hok. apply (replay_run []).
  - apply replay_inv_init.
  - constructor.
  - by apply canonical_fills_ok.
  - apply canonical_fills_sorted.
Qed.

Lemma project_ledger_Ok l p :
  project_ledger l orders = Ok p →
  ∃ s, replay orders initial_replay (canonical_fills l) = Ok s ∧
    Z.abs (rs_cash_cents s) ≤ MAX_ABS_CENTS ∧
    p = mk_LedgerProjection (rs_cash_cents s) (sort_by lot_leb (rs_lots s)).
Proof.
  unfold project_ledger, make_LedgerProjection, guard_that, mbind, outcome_bind.
  destruct (replay _ _ _) as [s|e]; [|done].
  destruct (Z.ltb_spec MAX_ABS_CENTS (Z.abs (rs_cash_cents s))); simpl; [done|].
  intros [= <-]. eauto.
Qed.

(** ** The final sort keeps each symbol's queue *)

Lemma shares_insert y x k :
  (∀ z, z ∈ k → lot_symbol z = lot_symbol x → lot_opened_at x ≤ lot_opened_at z) →
  shares y (insert_by lot_leb x k) = shares y (x :: k).
Proof.
  induction k as [|z k IH]; intros Hk; simpl; [done|].
  destruct (lot_leb x z) eqn:E; [done|].
  rewrite shares_cons, IH, !shares_cons by (intros ??; apply Hk; by right).
  assert (lot_symbol z ≠ lot_symbol x) as Hne.
  { intros Hz. unfold lot_leb in E. rewrite bool_decide_true in E by done.
    apply Z.leb_gt in E. specialize (Hk z ltac:(by left) Hz). lia. }
  repeat case_bool_decide; simpl; congruence.
Qed.

Lemma shares_sort y lots :
  StronglySorted Z.le (lot_opened_at <$> lots) →
  shares y (sort_by lot_leb lots) = shares y lots.
Proof.
  induction lots as [|x lots IH]; intros Hs; [done|].
  inversion_clear Hs as [|? ? Hs' Hx]. simpl. rewrite shares_insert.
  - by rewrite !shares_cons, IH.
  - intros z Hz _. rewrite elem_of_sort_by in Hz. rewrite Forall_fmap, Forall_forall in Hx.
    by apply Hx.
Qed.

Lemma positions_shares lots y :
  lots_ok lots →
  positions_of lots !! y =
    if decide (shares y lots = []) then None else Some (Z.of_nat (length (shares y lots))).
Proof.
  intros Hok. unfold positions_of.
  assert (Hgen : ∀ m : gmap string Z, foldl add_position m lots !! y =
    if decide (shares y lots = []) then m !! y
    else Some (default 0 (m !! y) + Z.of_nat (length (shares y lots)))).
  2: { rewrite Hgen, lookup_empty. simpl. by destruct (decide _). }
  induction Hok as [|l lots Hl Hok IH]; intros m; [done|]. simpl. rewrite IH, shares_cons.
  unfold add_position. case_bool_decide as Hy.
  - subst y. rewrite lookup_insert_eq. simpl.
    rewrite (decide_False (P := _ ++ _ = [])), length_app, length_replicate.
    2: { intros [Hr _]%app_eq_nil. apply (f_equal length) in Hr.
         rewrite length_replicate in Hr. simpl in Hr. lia. }
    destruct (decide (shares _ lots = [])) as [->|]; simpl; f_equal; lia.
  - by rewrite lookup_insert_ne.
Qed.
End replay.

(** ** Deciding which ledgers can be projected *)

Section legal.
Context (orders : gmap string BrokerOrder).

Lemma project_ledger_inv l p :
  Forall fill_ok l → project_ledger l orders = Ok p →
  ∃ s, replay_inv orders (canonical_fills l) s ∧
    Z.abs (rs_cash_cents s) ≤ MAX_ABS_CENTS ∧
    p = mk_LedgerProjection (rs_cash_cents s) (sort_by lot_leb (rs_lots s)).
Proof.
  intros Hok (s & Hs & Hc & ->)%project_ledger_Ok. exists s. split; [|done].
  pose proof (replay_canonical orders l Hok) as H. by rewrite Hs in H.
Qed.

Lemma projection_positions l s y :
  replay_inv orders l s →
  0 ≤ net_position orders y l ∧
  positions_of (sort_by lot_leb (rs_lots s)) !! y =
    if net_position orders y l =? 0 then None else Some (net_position orders y l).
Proof.
  intros Hinv. pose proof (ri_net _ _ _ Hinv y) as Hn. split; [lia|].
  rewrite positions_shares.
  2: { unfold lots_ok. rewrite sort_by_perm. apply Hinv. }
  rewrite shares_sort by apply Hinv. rewrite Hn.
  destruct (decide (shares y (rs_lots s) = [])) as [Hd|Hd].
  - rewrite Hd in Hn. simpl in Hn. by rewrite <-Hn.
  - destruct (Z.eqb_spec (net_position orders y l) 0) as [Hz|]; [|done].
    destruct Hd. apply nil_length_inv. lia.
Qed.

Lemma project_ledger_legal_1 l p :
  Forall fill_ok l → project_ledger l orders = Ok p → ledger_legal orders l.
Proof.
  intros Hok Hp. pose proof Hp as (s & Hinv & Hc & _)%project_ledger_inv; [|done].
  apply project_ledger_Ok in Hp as (s' & Hr & _ & _).
  pose proof (canonical_fills_perm l) as Hperm. split.
  - rewrite <-Hperm. apply Hinv.
  - intros f Hf. rewrite <-Hperm in Hf.
    destruct (ri_within _ _ _ Hinv f Hf) as (o & Ho & Hle). exists o. split; [done|].
    by rewrite <-(order_filled_perm _ _ _ Hperm).
  - intros l1 l2 y Heq. destruct (replay_prefix orders l l1 l2 s') as (s1 & _ & Hi & _); [done..|].
    by eapply projection_positions.
  - intros l1 f l2 Heq Hbuy.
    destruct (replay_prefix orders l l1 (f :: l2) s') as (s1 & _ & Hi & Hrest); [done..|].
    unfold is_buy in Hbuy. destruct (orders !! _) as [o|] eqn:Ho; [|done].
    apply bool_decide_eq_true in Hbuy.
    simpl in Hrest. unfold replay_fill, guard_that in Hrest. rewrite Ho, Hbuy in Hrest.
    destruct (bool_decide _); [done|]. simpl in Hrest.
    destruct (bo_quantity o <? _); [done|]. simpl in Hrest.
    destruct (Z.ltb_spec MAX_ABS_CENTS
      (Z.abs (rs_cash_cents s1 - fl_quantity f * Price_cents (fl_price f)))); [done|].
    rewrite net_cash_app, <-(ri_cash _ _ _ Hi). simpl. unfold fill_cash. rewrite Ho, Hbuy. lia.
  - rewrite <-(net_cash_perm _ _ _ Hperm), <-(ri_cash _ _ _ Hinv). lia.
Qed.

Lemma fifo_length_step y (q : list (Price * Z)) f o :
  orders !! fl_broker_order_id f = Some o → bo_side o = OrderSide.SELL → bo_symbol o = y →
  fill_ok f → 0 ≤ Z.of_nat (length q) + fill_delta orders y f →
  fl_quantity f ≤ Z.of_nat (length q).
Proof.
  intros Ho Hs Hy [Hq _]. unfold fill_delta. rewrite Ho, Hs, bool_decide_true by done. lia.
Qed.

Lemma replay_complete l done rest s :
  Forall fill_ok l → ledger_legal orders l → canonical_fills l = done ++ rest →
  replay_inv orders done s → ∃ s', replay orders s rest = Ok s'.
Proof.
  intros Hok Hlegal. revert done s.
  pose proof (canonical_fills_ok _ Hok) as Hcok.
  pose proof (canonical_fills_sorted l) as Hsorted.
  pose proof (canonical_fills_perm l) as Hperm.
  induction rest as [|f rest IH]; intros dn s Heq Hinv; simpl; [by eexists|].
  rewrite Heq in Hcok, Hsorted. apply Forall_app in Hcok as [Hdn Hf].
  apply Forall_cons in Hf as [Hf Hrest].
  assert (Htime : ∀ g, g ∈ dn → fl_occurred_at g ≤ fl_occurred_at f).
  { intros g Hg. apply fill_leb_time.
    by apply (StronglySorted_app_1_elem_of (λ a b, fill_leb a b = true) dn (f :: rest)); [| |left]. }
  pose proof (replay_fill_inv orders dn s f Hinv Hdn Hf Htime) as Hstep.
  assert (∃ s1, replay_fill orders s f = Ok s1) as [s1 Hs1].
  2: { rewrite Hs1 in *. simpl. apply (IH (dn ++ [f])); [|done]. by rewrite <-app_assoc. }
  clear Hstep IH. unfold replay_fill, guard_that.
  assert (Hnew : fl_execution_id f ∉ rs_seen_executions s).
  { rewrite (ri_seen _ _ _ Hinv), elem_of_list_to_set. pose proof (ll_executions _ _ Hlegal) as Hnd.
    rewrite <-Hperm, Heq, fmap_app, fmap_cons in Hnd. apply NoDup_app in Hnd as (_ & Hnd & _).
    intros Hin. apply (Hnd _ Hin). by left. }
  rewrite bool_decide_false by done. simpl.
  destruct (ll_orders _ _ Hlegal f) as (o & Ho & Hle).
  { rewrite <-Hperm, Heq. apply elem_of_app. right. by left. }
  rewrite Ho. rewrite <-(order_filled_perm _ _ _ Hperm), Heq, cons_middle, !order_filled_app,
    order_filled_one, bool_decide_true, <-(ri_filled _ _ _ Hinv) in Hle by done.
  pose proof (order_filled_nonneg (fl_broker_order_id f) rest Hrest).
  destruct (Z.ltb_spec (bo_quantity o)
    (default 0 (rs_filled_by_order s !! fl_broker_order_id f) + fl_quantity f)); [lia|]. simpl.
  pose proof Hf as [Hq _]. destruct (bo_side o) eqn:Hside.
  - pose proof (ll_buys _ _ Hlegal dn f rest Heq) as Hb. unfold is_buy in Hb.
    rewrite Ho, Hside, net_cash_app, <-(ri_cash _ _ _ Hinv) in Hb. simpl in Hb.
    unfold fill_cash in Hb. rewrite Ho, Hside in Hb. specialize (Hb eq_refl).
    destruct (Z.ltb_spec MAX_ABS_CENTS
      (Z.abs (rs_cash_cents s - fl_quantity f * Price_cents (fl_price f)))); [lia|]. simpl.
    unfold make_OpenLot, guard_that. destruct (Z.ltb_spec (fl_quantity f) 1); [lia|]. by eexists.
  - destruct (consume_lots_spec (bo_symbol o) (fl_price f) (fl_quantity f) (rs_cash_cents s)
      (rs_lots s)) as (r & c & k & -> & [Hr _ _ _ _ _]); [lia|apply Hinv|]. simpl.
    pose proof (ll_positions _ _ Hlegal (dn ++ [f]) rest (bo_symbol o)) as Hp.
    rewrite net_position_app, <-(ri_net _ _ _ Hinv), <-app_assoc in Hp. specialize (Hp Heq).
    simpl in Hp. rewrite Z.add_0_r in Hp. eapply fifo_length_step in Hp; [|done..].
    destruct (Z.eqb_spec r 0); [|lia]. by eexists.
Qed.

Lemma project_ledger_legal_2 l :
  Forall fill_ok l → ledger_legal orders l → ∃ p, project_ledger l orders = Ok p.
Proof.
  intros Hok Hlegal.
  destruct (replay_complete l [] (canonical_fills l) initial_replay) as [s Hs];
    [done|done|done|apply replay_inv_init|].
  pose proof (replay_canonical orders l Hok) as Hinv. rewrite Hs in Hinv.
  pose proof (ll_cash _ _ Hlegal) as Hc.
  rewrite <-(net_cash_perm _ _ _ (canonical_fills_perm l)), <-(ri_cash _ _ _ Hinv) in Hc.
  unfold project_ledger, make_LedgerProjection, guard_that. rewrite Hs. simpl.
  destruct (Z.ltb_spec MAX_ABS_CENTS (Z.abs (rs_cash_cents s))); [lia|]. by eexists.
Qed.

Lemma project_ledger_raises l e :
  Forall fill_ok l → project_ledger l orders = Raise e → exn_cls e = ELedgerInvariant.
Proof.
  intros Hok. pose proof (replay_canonical orders l Hok) as H.
  unfold project_ledger, make_LedgerProjection, guard_that, mbind, outcome_bind.
  destruct (replay _ _ _) as [s|e']; [|by intros [= <-]].
  destruct (negb _); [done|]. by intros [= <-].
Qed.
End legal.

Lemma canonical_fills_unique l1 l2 :
  NoDup (fl_execution_id <$> l1) → l1 ≡ₚ l2 → canonical_fills l1 = canonical_fills l2.
Proof.
  intros Hnd Hp. apply sort_by_unique; [apply fill_leb_total|apply fill_leb_trans| |done].
  intros x y Hx Hy H1 H2. pose proof (fill_leb_antisym _ _ H1 H2) as Heq.
  clear -Hnd Hx Hy Heq. induction l1 as [|z l1 IH]; [by apply elem_of_nil in Hx|].
  apply NoDup_cons in Hnd as [Hz Hnd].
  apply elem_of_cons in Hx as [->|Hx], Hy as [->|Hy]; [done| | |by apply IH];
    destruct Hz; [rewrite Heq|rewrite <-Heq]; by apply list_elem_of_fmap_2.
Qed.

Lemma market_value_spec prices lots acc :
  match market_value prices lots acc with
  | Ok v => ∀ l, l ∈ lots → is_Some (prices !! lot_symbol l)
  | Raise e => exn_cls e = EValueError ∧ ∃ l, l ∈ lots ∧ prices !! lot_symbol l = None
  end.
Proof.
  revert acc. induction lots as [|l lots IH]; intros acc; simpl; [by intros ? ?%elem_of_nil|].
  destruct (prices !! lot_symbol l) as [p|] eqn:Hp.
  - specialize (IH (acc + lot_quantity l * Price_cents p)).
    destruct (market_value prices lots _).
    + intros l' [->|Hl']%elem_of_cons; [by eexists|by apply IH].
    + destruct IH as (He & l' & Hl' & Hn). split; [done|]. exists l'. split; [by right|done].
  - split; [done|]. exists l. split; [by left|done].
Qed.

Lemma market_value_sum prices lots acc v :
  market_value prices lots acc = Ok v →
  v = acc + foldr (λ l a, lot_quantity l * default 0 (Price_cents <$> prices !! lot_symbol l) + a)
              0 lots.
Proof.
  revert acc. induction lots as [|l lots IH]; intros acc; simpl; [intros [= ->]; lia|].
  destruct (prices !! lot_symbol l) as [p|]; [|done]. intros ->%IH. simpl. lia.
Qed.

(** ** Properties *)

(** Projecting a ledger of valid fills succeeds exactly when the ledger is
    legal: executions are distinct, every fill belongs to a known order and
    stays within its quantity, no prefix of the canonical replay sells more
    than it bought, and the cash stays bounded.  Otherwise it raises
    LedgerInvariantError and nothing else. *)
Theorem project_ledger_decides orders l :
  Forall fill_ok l →
  match project_ledger l orders with
  | Ok _ => ledger_legal orders l
  | Raise e => ¬ ledger_legal orders l ∧ exn_cls e = ELedgerInvariant
  end.
Proof.
  intros Hok. destruct (project_ledger l orders) as [p|e] eqn:Hp.
  - by eapply project_ledger_legal_1.
  - split; [|by eapply project_ledger_raises].
    intros Hlegal. destruct (project_ledger_legal_2 orders l Hok Hlegal) as [p Hp']. congruence.
Qed.

(** C38. A projection conserves shares and cash: the position of every symbol is
    the shares bought less the shares sold over all fills (absent when that is
    zero, never negative), the cash delta is the sale proceeds less the
    purchase costs, bounded by 10^12 cents, and every lot holds at least one
    share. *)
Theorem project_ledger_conserves orders l p :
  Forall fill_ok l → project_ledger l orders = Ok p →
  lp_cash_delta_cents p = net_cash orders l ∧
  Z.abs (lp_cash_delta_cents p) ≤ MAX_ABS_CENTS ∧
  Forall (λ lot, 1 ≤ lot_quantity lot) (lp_lots p) ∧
  ∀ y, 0 ≤ net_position orders y l ∧
       positions p !! y = if net_position orders y l =? 0 then None
                          else Some (net_position orders y l).
Proof.
  intros Hok (s & Hinv & Hc & ->)%project_ledger_inv; [|done].
  pose proof (canonical_fills_perm l) as Hperm. split_and!; simpl.
  - by rewrite <-(net_cash_perm _ _ _ Hperm), <-(ri_cash _ _ _ Hinv).
  - done.
  - rewrite sort_by_perm. apply Hinv.
  - intros y. rewrite <-(net_position_perm _ _ _ _ Hperm). by apply projection_positions.
Qed.

(** C39. Lots are FIFO at the level of single shares: for every symbol, the
    shares held in the projected lots, with their purchase price and time, are
    the queue obtained by appending each buy and dropping each sale from the
    front in canonical order. *)
Theorem project_ledger_fifo orders l p y :
  Forall fill_ok l → project_ledger l orders = Ok p →
  shares y (lp_lots p) = fifo orders y (canonical_fills l).
Proof.
  intros Hok (s & Hinv & _ & ->)%project_ledger_inv; [|done]. simpl.
  rewrite shares_sort by apply Hinv. apply Hinv.
Qed.

(** The projection does not depend on the order in which the fills arrive:
    permuted ledgers with distinct executions give the same projection or the
    same error, and with a repeated execution both raise
    LedgerInvariantError. *)
Theorem project_ledger_arrival_independent orders l1 l2 :
  Forall fill_ok l1 → l1 ≡ₚ l2 →
  (NoDup (fl_execution_id <$> l1) → project_ledger l1 orders = project_ledger l2 orders) ∧
  (¬ NoDup (fl_execution_id <$> l1) →
     ∃ e1 e2, project_ledger l1 orders = Raise e1 ∧ project_ledger l2 orders = Raise e2 ∧
       exn_cls e1 = ELedgerInvariant ∧ exn_cls e2 = ELedgerInvariant).
Proof.
  intros Hok Hp. split.
  - intros Hnd. unfold project_ledger. by rewrite (canonical_fills_unique l1 l2).
  - intros Hnd. assert (Hok2 : Forall fill_ok l2) by (by rewrite <-Hp).
    assert (Hraise : ∀ l, l ≡ₚ l1 → Forall fill_ok l →
      ∃ e, project_ledger l orders = Raise e ∧ exn_cls e = ELedgerInvariant).
    { intros l Hl Hf. destruct (project_ledger l orders) as [p|e] eqn:He.
      - apply project_ledger_legal_1 in He as [Hd _ _ _ _]; [|done]. by rewrite Hl in Hd.
      - exists e. split; [done|]. by eapply project_ledger_raises. }
    destruct (Hraise l1) as (e1 & ? & ?); [done..|].
    destruct (Hraise l2) as (e2 & ? & ?); [done..|]. by exists e1, e2.
Qed.

(** A valuation is the opening cash plus the ledger's cash effect plus
    every lot at its mark price; it raises ValueError exactly when the opening
    cash is negative, a held symbol has no price, or the total leaves the
    allowed range. *)
Theorem account_valuation_spec p opening prices :
  let priced := forallb (λ l, bool_decide (is_Some (prices !! lot_symbol l))) (lp_lots p) in
  let total := opening + lp_cash_delta_cents p +
    foldr (λ l a, lot_quantity l * default 0 (Price_cents <$> prices !! lot_symbol l) + a)
      0 (lp_lots p) in
  if (0 <=? opening) && priced && (Z.abs total <=? MAX_ABS_CENTS)
  then account_valuation p opening prices = Ok total
  else ∃ msg, account_valuation p opening prices = raise EValueError msg.
Proof.
  intros priced total. unfold account_valuation, guard_that.
  destruct (Z.leb_spec 0 opening), (Z.ltb_spec opening 0); try lia; simpl; [|by eexists].
  pose proof (market_value_spec prices (lp_lots p) 0) as Hm.
  destruct (market_value prices (lp_lots p) 0) as [v|[c m]] eqn:Hv; simpl.
  - assert (priced = true) as ->.
    { apply forallb_forall. intros l Hl%list_elem_of_In. by apply bool_decide_eq_true, Hm. }
    apply market_value_sum in Hv. rewrite Z.add_0_l in Hv. subst v. fold total.
    destruct (Z.leb_spec (Z.abs total) MAX_ABS_CENTS), (Z.ltb_spec MAX_ABS_CENTS (Z.abs total));
      try lia; [done|by eexists].
  - destruct Hm as (Hc & l & Hl & Hn). simpl in Hc. subst c.
    assert (priced = false) as ->; [|by eexists].
    apply not_true_is_false. intros Hall. unfold priced in Hall. rewrite forallb_forall in Hall.
    apply list_elem_of_In, Hall, bool_decide_eq_true in Hl. rewrite Hn in Hl. by destruct Hl.
Qed.

(** ** A concrete ledger: two buys and a sale that splits the second lot *)

Definition cents (c : Z) : Price := mk_Price (mk_dec c (-2)).
Definition sample_order (i : string) (side : OrderSide.t) (q : Z) : BrokerOrder :=
  mk_BrokerOrder i i "AAPL" side q 0 (cents 100) BrokerOrderStatus.ACCEPTED 0 0.
Definition sample_orders : gmap string BrokerOrder :=
  {["b" := sample_order "b" OrderSide.BUY 10; "s" := sample_order "s" OrderSide.SELL 8]}.
Definition sample_fills : list Fill :=
  [mk_Fill "e3" "s" 7 (cents 130) 30; mk_Fill "e1" "b" 4 (cents 100) 10;
   mk_Fill "e2" "b" 6 (cents 110) 20].
Definition sample_projection : LedgerProjection :=
  mk_LedgerProjection (-150) [mk_OpenLot "AAPL" 3 (cents 110) 20].

Lemma sample_fills_ok : Forall fill_ok sample_fills.
Proof. unfold fill_ok, price_ok. repeat constructor; simpl; lia. Defined.
Lemma sample_projected : project_ledger sample_fills sample_orders = Ok sample_projection.
Proof. vm_compute. reflexivity. Defined.

Lemma project_ledger_decides_witness :
  Forall fill_ok sample_fills ∧ ledger_legal sample_orders sample_fills.
Proof.
  split; [exact sample_fills_ok|].
  pose proof (project_ledger_decides sample_orders sample_fills sample_fills_ok) as H.
  rewrite sample_projected in H. exact H.
Defined.

Lemma project_ledger_conserves_witness :
  project_ledger sample_fills sample_orders = Ok sample_projection ∧
  positions sample_projection !! "AAPL" = Some 3.
Proof.
  split; [exact sample_projected|].
  exact (proj2 (proj2 (proj2 (proj2 (project_ledger_conserves _ _ _ sample_fills_ok
    sample_projected))) "AAPL")).
Defined.

Lemma project_ledger_fifo_witness :
  shares "AAPL" (lp_lots sample_projection) = replicate 3 (cents 110, 20).
Proof. exact (project_ledger_fifo _ _ _ "AAPL" sample_fills_ok sample_projected). Defined.

Lemma project_ledger_arrival_independent_witness :
  project_ledger sample_fills sample_orders = project_ledger (reverse sample_fills) sample_orders.
Proof.
  apply (project_ledger_arrival_independent sample_orders sample_fills (reverse sample_fills)
    sample_fills_ok).
  - apply Permutation_sym, reverse_Permutation.
  - apply (bool_decide_unpack _). vm_compute. exact I.
Defined.
