(* ===== verification/Contracts.v ===== *)
(** * Result and command contracts

    [src/seven_lens/execution/reconciliation.py] and
    [src/seven_lens/execution/control.py]: what a reconciliation run concludes,
    the operator's commands and the control state, each with the checks of its
    constructor. *)

From S2P Require Import Prelude Text Orders.
Local Open Scope Z_scope.

(** ** Reconciliation results *)

Inductive ReconciliationStatus := RECON_CLEAN | RECON_MISMATCH.
#[global] Instance ReconciliationStatus_eq_dec : EqDecision ReconciliationStatus.
Proof. solve_decision. Defined.

Inductive ReconciliationScope := SCOPE_PARTIAL | SCOPE_FULL.
#[global] Instance ReconciliationScope_eq_dec : EqDecision ReconciliationScope.
Proof. solve_decision. Defined.

Inductive MismatchKind :=
  | NON_PAPER_ACCOUNT | UNKNOWN_BROKER_ORDER | MISSING_BROKER_ORDER | PARAMETER_MISMATCH
  | STATUS_MISMATCH | INTENT_STATUS_MISMATCH | BROKER_QUERY_FAILURE | MISSING_LOCAL_FILL
  | POSITION_QUANTITY_MISMATCH | POSITION_SYMBOL_MISMATCH | LOCAL_LEDGER_INVARIANT
  | ACCOUNT_ID_MISMATCH | CASH_MISMATCH | NAV_MISMATCH | BUYING_POWER_MISMATCH
  | ACCOUNT_RECONCILIATION_UNAVAILABLE.
#[global] Instance MismatchKind_eq_dec : EqDecision MismatchKind.
Proof. solve_decision. Defined.

Definition MAX_MISMATCHES : nat := Z.to_nat 10000.
Definition MAX_DETAIL_LENGTH : nat := 200.

Record ReconciliationMismatch := mk_Mismatch { mm_kind : MismatchKind; mm_detail : string }.
#[global] Instance ReconciliationMismatch_eq_dec : EqDecision ReconciliationMismatch.
Proof. solve_decision. Defined.

Definition make_Mismatch (kind : MismatchKind) (detail : string)
    : outcome ReconciliationMismatch :=
  guard_that (negb (bool_decide (detail = "")) &&
              bool_decide (String.length detail ≤ MAX_DETAIL_LENGTH)%nat &&
              negb (has_nul detail))
    EValueError "mismatch detail must be bounded text" ≫= λ _,
  Ok (mk_Mismatch kind detail).

Record ReconciliationResult := mk_ReconciliationResult {
  rr_run_id : N;
  rr_trading_date : TradingDate;
  rr_status : ReconciliationStatus;
  rr_mismatches : list ReconciliationMismatch;
  rr_checked_orders : Z;
  rr_checked_fills : Z;
  rr_observed_at : Z;
  rr_scope : ReconciliationScope;
}.
#[global] Instance ReconciliationResult_eq_dec : EqDecision ReconciliationResult.
Proof. solve_decision. Defined.

Definition check_ReconciliationResult (r : ReconciliationResult)
    : outcome ReconciliationResult :=
  guard_that (negb (rr_run_id r =? 0)%N) EValueError "run_id must be a non-nil UUID" ≫= λ _,
  guard_that (bool_decide (length (rr_mismatches r) ≤ MAX_MISMATCHES)%nat) EValueError
    "reconciliation produced too many mismatches" ≫= λ _,
  guard_that (negb (rr_checked_orders r <? 0)) EValueError
    "checked_orders must be a non-negative integer" ≫= λ _,
  guard_that (negb (rr_checked_fills r <? 0)) EValueError
    "checked_fills must be a non-negative integer" ≫= λ _,
  guard_that (negb (bool_decide (bool_decide (rr_status r = RECON_CLEAN)
                                 = negb (bool_decide (rr_mismatches r = []))))) EValueError
    "CLEAN requires zero mismatches; MISMATCH requires at least one" ≫= λ _,
  Ok r.

Definition is_resume_safe (r : ReconciliationResult) : bool :=
  bool_decide (rr_status r = RECON_CLEAN) && bool_decide (rr_scope r = SCOPE_FULL).

(** [ReconciliationResult.create]; [run_id] is the caller's or a fresh uuid. *)
Definition ReconciliationResult_create (trading_date : TradingDate)
    (mismatches : list ReconciliationMismatch) (checked_orders checked_fills observed_at : Z)
    (run_id : N) (scope : ReconciliationScope) : outcome ReconciliationResult :=
  check_ReconciliationResult
    (mk_ReconciliationResult run_id trading_date
       (if bool_decide (mismatches = []) then RECON_CLEAN else RECON_MISMATCH)
       mismatches checked_orders checked_fills observed_at scope).

(** ** Control commands and state *)

Inductive ControlCommand :=
  | PAUSE_ENTRIES | RESUME_ENTRIES | CANCEL_OPEN_ORDERS | FLATTEN_PAPER.
#[global] Instance ControlCommand_eq_dec : EqDecision ControlCommand.
Proof. solve_decision. Defined.

Definition MAX_REASON_LENGTH : nat := 200.
Definition MAX_ACTOR_LENGTH : nat := 100.

Record ControlCommandRecord := mk_ControlCommandRecord {
  cc_command_id : N;
  cc_command : ControlCommand;
  cc_reason : string;
  cc_actor : string;
  cc_run_id : option N;
  cc_requested_at : Z;
  cc_applied_at : option Z;
}.
#[global] Instance ControlCommandRecord_eq_dec : EqDecision ControlCommandRecord.
Proof. solve_decision. Defined.

Definition check_ControlCommandRecord (c : ControlCommandRecord)
    : outcome ControlCommandRecord :=
  guard_that (negb (cc_command_id c =? 0)%N) EValueError
    "command_id must be a non-nil UUID" ≫= λ _,
  guard_that (bounded_text MAX_REASON_LENGTH (cc_reason c)) EValueError
    "reason must be bounded text" ≫= λ _,
  guard_that (bounded_text MAX_ACTOR_LENGTH (cc_actor c)) EValueError
    "actor must be bounded text" ≫= λ _,
  guard_that (match cc_applied_at c with
              | Some t => negb (t <? cc_requested_at c) | None => true end)
    EValueError "applied_at must not precede requested_at" ≫= λ _,
  Ok c.

Record ControlStateSnapshot := mk_ControlState {
  cs_entries_paused : bool;
  cs_paused_reason : option string;
  cs_updated_at : Z;
  cs_flatten_generation : Z;
}.
#[global] Instance ControlStateSnapshot_eq_dec : EqDecision ControlStateSnapshot.
Proof. solve_decision. Defined.

Definition check_ControlState (c : ControlStateSnapshot) : outcome ControlStateSnapshot :=
  guard_that (match cs_paused_reason c with
              | Some r => negb (is_blank r) &&
                          bool_decide (String.length r ≤ MAX_REASON_LENGTH)%nat
              | None => true end)
    EValueError "paused_reason must be bounded text or None" ≫= λ _,
  guard_that (bool_decide (cs_entries_paused c = match cs_paused_reason c with
                                                 | Some _ => true | None => false end))
    EValueError "a pause requires a reason; a resume clears it" ≫= λ _,
  guard_that (negb (cs_flatten_generation c <? 0)) EValueError
    "flatten_generation must be a non-negative counter" ≫= λ _,
  Ok c.
