(* ===== verification/BrokerPort.v ===== *)
(** * The Paper broker port: [src/seven_lens/application/ports/broker.py]

    The values that cross the port and, as a class, the operations a broker
    offers to the services.  A broker is a state; every operation may raise and
    may change it. *)

From S2P Require Import Prelude Text Orders.
Local Open Scope Z_scope.

Inductive RejectionReason :=
  | INSUFFICIENT_CASH | SYMBOL_NOT_TRADEABLE | OUTSIDE_TRADING_WINDOW
  | ORDER_PARAMETERS_REJECTED.
#[global] Instance RejectionReason_eq_dec : EqDecision RejectionReason.
Proof. solve_decision. Defined.

Inductive AssetClass := US_EQUITY | US_OPTION | CRYPTO | FUTURE.
#[global] Instance AssetClass_eq_dec : EqDecision AssetClass.
Proof. solve_decision. Defined.

Inductive AssetStatus := ASSET_ACTIVE | ASSET_INACTIVE.
#[global] Instance AssetStatus_eq_dec : EqDecision AssetStatus.
Proof. solve_decision. Defined.

Record PaperAsset := mk_PaperAsset {
  pa_symbol : string;
  pa_asset_class : AssetClass;
  pa_status : AssetStatus;
  pa_tradable : bool;
  pa_exchange : string;
}.

Definition check_PaperAsset (a : PaperAsset) : outcome PaperAsset :=
  guard_that (bounded_text 20 (pa_exchange a)) EValueError
    "asset exchange must be bounded text" ≫= λ _, Ok a.

(** [config.broker.BrokerEnvironment]: PAPER is the only environment there is. *)
Inductive BrokerEnvironment := PAPER.
#[global] Instance BrokerEnvironment_eq_dec : EqDecision BrokerEnvironment.
Proof. solve_decision. Defined.

Record PaperAccount := mk_PaperAccount {
  ac_account_id : string;
  ac_environment : BrokerEnvironment;
  ac_cash : UsdAmount;
  ac_equity : UsdAmount;
  ac_buying_power : UsdAmount;
}.

Definition check_PaperAccount (a : PaperAccount) : outcome PaperAccount :=
  guard_that (negb (is_blank (ac_account_id a)) &&
              bool_decide (String.length (ac_account_id a) ≤ 100)%nat) EValueError
    "account_id must be non-empty text up to 100 characters" ≫= λ _,
  guard_that (bool_decide (ac_environment a = PAPER)) EValueError
    "account snapshot must assert the PAPER environment" ≫= λ _,
  Ok a.

Record PaperPosition := mk_PaperPosition {
  pp_symbol : string;
  pp_quantity : Z;
  pp_average_entry_price : Price;
}.

Definition check_PaperPosition (p : PaperPosition) : outcome PaperPosition :=
  guard_that (negb (pp_quantity p <? 1)) EValueError
    "position quantity must be a positive whole number of shares" ≫= λ _, Ok p.

Inductive SubmitResult :=
  | SubmitAccepted (order : BrokerOrder)
  | SubmitRejected (reason : RejectionReason).

(** The port.  [broker_call] is one call: an outcome and the broker's new state. *)
Definition broker_call (B A : Type) : Type := B → outcome A * B.

Class PaperBroker (B : Type) := {
  account : broker_call B PaperAccount;
  submit_order : OrderIntent → broker_call B SubmitResult;
  get_order : string → broker_call B (option BrokerOrder);
  list_recent_orders : Z → broker_call B (list BrokerOrder);
  list_open_orders : broker_call B (list BrokerOrder);
  list_positions : broker_call B (list PaperPosition);
  list_fills : string → broker_call B (list Fill);
  get_asset : string → broker_call B (option PaperAsset);
  cancel_order : string → broker_call B bool;
}.
