(* ===== verification/FakeBroker.v ===== *)
(** * The in-memory Paper broker: [src/seven_lens/execution/fake_broker.py]

    The deterministic broker the acceptance scenarios run against, as a state
    and an instance of [PaperBroker].  Its clock is external: the n-th reading
    is [clock n].  The stored but never read mismatch flags of the constructor
    are left out. *)

From S2P Require Import Prelude Text Orders BrokerPort.
Local Open Scope Z_scope.

Inductive FakeSubmitOutcome :=
  | ACKNOWLEDGE | REJECT | TIMEOUT_BEFORE_ACCEPT | TIMEOUT_AFTER_ACCEPT.
#[global] Instance FakeSubmitOutcome_eq_dec : EqDecision FakeSubmitOutcome.
Proof. solve_decision. Defined.

Inductive FakeCancelMode := IMMEDIATE | PENDING | TIMEOUT.
#[global] Instance FakeCancelMode_eq_dec : EqDecision FakeCancelMode.
Proof. solve_decision. Defined.

Record FakeFillStep := mk_FillStep { fs_quantity : Z; fs_price : Price }.

Record FakeSubmitPlan := mk_SubmitPlan {
  sp_outcome : FakeSubmitOutcome;
  sp_first_fill : option FakeFillStep;
  sp_rejection_reason : option RejectionReason;
}.

Definition check_SubmitPlan (p : FakeSubmitPlan) : outcome FakeSubmitPlan :=
  if bool_decide (sp_outcome p = REJECT) then
    guard_that (bool_decide (is_Some (sp_rejection_reason p))) EValueError
      "REJECT plans require a closed RejectionReason" ≫= λ _,
    guard_that (match sp_first_fill p with None => true | Some _ => false end) EValueError
      "REJECT plans cannot include a fill step" ≫= λ _,
    Ok p
  else
    guard_that (match sp_rejection_reason p with None => true | Some _ => false end)
      EValueError "only REJECT plans carry a rejection reason" ≫= λ _,
    Ok p.

Record OrderState := mk_OrderState { os_order : BrokerOrder; os_fills : list Fill }.

Definition SubmitParams : Type := string * OrderSide.t * Z * Price.

Record FakePaperBroker := mk_FakeBroker {
  fb_plans : gmap string FakeSubmitPlan;
  fb_default_plan : FakeSubmitPlan;
  fb_cash : UsdAmount;
  fb_equity : UsdAmount;
  fb_buying_power : UsdAmount;
  fb_account_id : string;
  fb_cancel_mode : FakeCancelMode;
  fb_hidden_client_ids : gset string;
  fb_assets : gmap string PaperAsset;
  fb_unknown_assets : gset string;
  fb_orders : gmap string OrderState;
  fb_by_client : gmap string string;
  fb_submit_params : gmap string SubmitParams;
  fb_results : gmap string SubmitResult;
  fb_sequence : Z;
  fb_ticks : nat;
}.

(** Attribute assignments. *)
Definition set_plans (v : gmap string FakeSubmitPlan) (b : FakePaperBroker) : FakePaperBroker :=
  mk_FakeBroker v (fb_default_plan b) (fb_cash b) (fb_equity b) (fb_buying_power b)
    (fb_account_id b) (fb_cancel_mode b) (fb_hidden_client_ids b) (fb_assets b)
    (fb_unknown_assets b) (fb_orders b) (fb_by_client b) (fb_submit_params b) (fb_results b)
    (fb_sequence b) (fb_ticks b).
Definition set_hidden (v : gset string) (b : FakePaperBroker) : FakePaperBroker :=
  mk_FakeBroker (fb_plans b) (fb_default_plan b) (fb_cash b) (fb_equity b) (fb_buying_power b)
    (fb_account_id b) (fb_cancel_mode b) v (fb_assets b)
    (fb_unknown_assets b) (fb_orders b) (fb_by_client b) (fb_submit_params b) (fb_results b)
    (fb_sequence b) (fb_ticks b).
Definition set_orders (v : gmap string OrderState) (b : FakePaperBroker) : FakePaperBroker :=
  mk_FakeBroker (fb_plans b) (fb_default_plan b) (fb_cash b) (fb_equity b) (fb_buying_power b)
    (fb_account_id b) (fb_cancel_mode b) (fb_hidden_client_ids b) (fb_assets b)
    (fb_unknown_assets b) v (fb_by_client b) (fb_submit_params b) (fb_results b)
    (fb_sequence b) (fb_ticks b).
Definition set_by_client (v : gmap string string) (b : FakePaperBroker) : FakePaperBroker :=
  mk_FakeBroker (fb_plans b) (fb_default_plan b) (fb_cash b) (fb_equity b) (fb_buying_power b)
    (fb_account_id b) (fb_cancel_mode b) (fb_hidden_client_ids b) (fb_assets b)
    (fb_unknown_assets b) (fb_orders b) v (fb_submit_params b) (fb_results b)
    (fb_sequence b) (fb_ticks b).
Definition set_submit_params (v : gmap string SubmitParams) (b : FakePaperBroker)
    : FakePaperBroker :=
  mk_FakeBroker (fb_plans b) (fb_default_plan b) (fb_cash b) (fb_equity b) (fb_buying_power b)
    (fb_account_id b) (fb_cancel_mode b) (fb_hidden_client_ids b) (fb_assets b)
    (fb_unknown_assets b) (fb_orders b) (fb_by_client b) v (fb_results b)
    (fb_sequence b) (fb_ticks b).
Definition set_results (v : gmap string SubmitResult) (b : FakePaperBroker)
    : FakePaperBroker :=
  mk_FakeBroker (fb_plans b) (fb_default_plan b) (fb_cash b) (fb_equity b) (fb_buying_power b)
    (fb_account_id b) (fb_cancel_mode b) (fb_hidden_client_ids b) (fb_assets b)
    (fb_unknown_assets b) (fb_orders b) (fb_by_client b) (fb_submit_params b) v
    (fb_sequence b) (fb_ticks b).
Definition set_sequence (v : Z) (b : FakePaperBroker) : FakePaperBroker :=
  mk_FakeBroker (fb_plans b) (fb_default_plan b) (fb_cash b) (fb_equity b) (fb_buying_power b)
    (fb_account_id b) (fb_cancel_mode b) (fb_hidden_client_ids b) (fb_assets b)
    (fb_unknown_assets b) (fb_orders b) (fb_by_client b) (fb_submit_params b) (fb_results b)
    v (fb_ticks b).
Definition set_ticks (v : nat) (b : FakePaperBroker) : FakePaperBroker :=
  mk_FakeBroker (fb_plans b) (fb_default_plan b) (fb_cash b) (fb_equity b) (fb_buying_power b)
    (fb_account_id b) (fb_cancel_mode b) (fb_hidden_client_ids b) (fb_assets b)
    (fb_unknown_assets b) (fb_orders b) (fb_by_client b) (fb_submit_params b) (fb_results b)
    (fb_sequence b) v.

(** [__init__] with the default account of 100,000,000 cents. *)
Definition default_amount : UsdAmount := mk_UsdAmount (mk_dec 100000000 (-2)).
Definition FakePaperBroker_init (plans : gmap string FakeSubmitPlan)
    (default_plan : option FakeSubmitPlan) (cash equity buying_power : option UsdAmount)
    (account_id : string) (cancel_mode : FakeCancelMode) (hidden_client_ids : gset string)
    (assets : gmap string PaperAsset) (unknown_assets : gset string) : FakePaperBroker :=
  mk_FakeBroker plans (default (mk_SubmitPlan ACKNOWLEDGE None None) default_plan)
    (default default_amount cash) (default default_amount equity)
    (default default_amount buying_power) account_id cancel_mode hidden_client_ids assets
    unknown_assets ∅ ∅ ∅ ∅ 0 0.

(** [sorted(self._orders.items())]: by broker order id. *)
Definition key_leb {A} (a b : string * A) : bool := String.leb a.1 b.1.
Definition sorted_items {A} (m : gmap string A) : list (string * A) :=
  sort_by key_leb (map_to_list m).

Section fake.
Context (clock : nat → Z).
Notation FB := (M FakePaperBroker).

Definition read_clock : FB Z := λ b, (Ok (clock (fb_ticks b)), set_ticks (S (fb_ticks b)) b).

(** The mutable [_OrderState] held in [_orders] under its broker order id. *)
Definition put_state (s : OrderState) : FB unit :=
  modify (λ b, set_orders (<[bo_broker_order_id (os_order s) := s]> (fb_orders b)) b).

(** [_transition]: the status and a new broker timestamp. *)
Definition fb_transition (s : OrderState) (target : BrokerOrderStatus.t) : FB OrderState :=
  let order := os_order s in
  lift (assert_broker_order_transition (bo_status order) target) ≫= λ _,
  now ← read_clock;
  order' ← lift (check_BrokerOrder (with_mirror target (bo_filled_quantity order) now order));
  let s' := mk_OrderState order' (os_fills s) in
  put_state s' ≫= λ _, mret s'.

(** [_apply_fill_step] *)
Definition apply_fill_step (s : OrderState) (step : FakeFillStep) : FB Fill :=
  let order := os_order s in
  let new_filled := bo_filled_quantity order + fs_quantity step in
  lift (guard_that (negb (bo_quantity order <? new_filled)) EValueError
          "scripted fills exceed the submitted quantity") ≫= λ _,
  modify (λ b, set_sequence (fb_sequence b + 1) b) ≫= λ _,
  seq ← gets fb_sequence;
  now ← read_clock;
  fill ← lift (check_Fill (mk_Fill ("fake-exec-" +:+ pad6 seq) (bo_broker_order_id order)
                 (fs_quantity step) (fs_price step) now));
  let target := if new_filled =? bo_quantity order then BrokerOrderStatus.FILLED
                else BrokerOrderStatus.PARTIALLY_FILLED in
  s' ← fb_transition s target;
  order' ← lift (check_BrokerOrder (with_mirror (bo_status (os_order s')) new_filled
                   (bo_updated_at (os_order s')) (os_order s')));
  put_state (mk_OrderState order' (os_fills s' ++ [fill])) ≫= λ _,
  mret fill.

(** [_record_accepted_order]; the caller reads the state back by its id. *)
Definition record_accepted_order (intent : OrderIntent) (plan : FakeSubmitPlan) : FB string :=
  modify (λ b, set_sequence (fb_sequence b + 1) b) ≫= λ _,
  seq ← gets fb_sequence;
  let broker_order_id := "fake-order-" +:+ pad6 seq in
  now ← read_clock;
  let initial_status :=
    if bool_decide (sp_outcome plan = TIMEOUT_AFTER_ACCEPT) then BrokerOrderStatus.RECEIVED
    else BrokerOrderStatus.ACCEPTED in
  order ← lift (check_BrokerOrder (mk_BrokerOrder broker_order_id
            (oi_client_order_id intent) (oi_symbol intent) (oi_side intent)
            (oi_quantity intent) 0 (oi_limit_price intent) initial_status now now));
  let state := mk_OrderState order [] in
  put_state state ≫= λ _,
  modify (λ b, set_by_client (<[oi_client_order_id intent := broker_order_id]>
                                (fb_by_client b)) b) ≫= λ _,
  match sp_first_fill plan with
  | Some step => apply_fill_step state step ≫= λ _, mret broker_order_id
  | None => mret broker_order_id
  end.

(** [self._orders[broker_order_id].order] *)
Definition order_at (broker_order_id : string) : FB BrokerOrder :=
  o ← gets (λ b, fb_orders b !! broker_order_id);
  match o with
  | Some s => mret (os_order s)
  | None => throw EKeyError broker_order_id
  end.

Definition fake_account : FB PaperAccount :=
  b ← gets id;
  lift (check_PaperAccount (mk_PaperAccount (fb_account_id b) PAPER (fb_cash b) (fb_equity b)
          (fb_buying_power b))).

Definition submit_params_of (i : OrderIntent) : SubmitParams :=
  (oi_symbol i, oi_side i, oi_quantity i, oi_limit_price i).

Definition fake_submit_order (intent : OrderIntent) : FB SubmitResult :=
  let client_id := oi_client_order_id intent in
  let params := submit_params_of intent in
  b ← gets id;
  match fb_submit_params b !! client_id with
  | Some previous =>
      if negb (bool_decide (previous = params)) then
        throw EBrokerConflict "client order id was already submitted with different parameters"
      else match fb_results b !! client_id with
      | Some (SubmitRejected reason) => mret (SubmitRejected reason)
      | _ =>
          match fb_by_client b !! client_id with
          | None => throw EBrokerTransport
              "fake broker submit outcome remains unknown for this client order id"
          | Some broker_order_id =>
              order ← order_at broker_order_id; mret (SubmitAccepted order)
          end
      end
  | None =>
      let plan := default (fb_default_plan b) (fb_plans b !! client_id) in
      modify (λ b, set_plans (delete client_id (fb_plans b)) b) ≫= λ _,
      if bool_decide (sp_outcome plan = TIMEOUT_BEFORE_ACCEPT) then
        throw EBrokerTransport "fake broker timed out before accepting the order"
      else
      modify (λ b, set_submit_params (<[client_id := params]> (fb_submit_params b)) b) ≫= λ _,
      if bool_decide (sp_outcome plan = REJECT) then
        match sp_rejection_reason plan with
        | None => throw EAssertionError ""
        | Some reason =>
            modify (λ b, set_results (<[client_id := SubmitRejected reason]> (fb_results b)) b)
              ≫= λ _, mret (SubmitRejected reason)
        end
      else
      broker_order_id ← record_accepted_order intent plan;
      if bool_decide (sp_outcome plan = TIMEOUT_AFTER_ACCEPT) then
        throw EBrokerTransport "fake broker timed out after accepting the order"
      else
      order ← order_at broker_order_id;
      modify (λ b, set_results (<[client_id := SubmitAccepted order]> (fb_results b)) b)
        ≫= λ _, mret (SubmitAccepted order)
  end.

Definition fake_get_order (client_order_id : string) : FB (option BrokerOrder) :=
  b ← gets id;
  if bool_decide (client_order_id ∈ fb_hidden_client_ids b) then mret None
  else match fb_by_client b !! client_order_id with
       | None => mret None
       | Some broker_order_id => order ← order_at broker_order_id; mret (Some order)
       end.

Definition reveal_order (client_order_id : string) : FB unit :=
  modify (λ b, set_hidden (fb_hidden_client_ids b ∖ {[client_order_id]}) b).

Definition fake_list_recent_orders (since : Z) : FB (list BrokerOrder) :=
  gets (λ b, filter (λ o, since <=? bo_updated_at o = true)
               ((λ kv, os_order kv.2) <$> sorted_items (fb_orders b))).

Definition fake_list_open_orders : FB (list BrokerOrder) :=
  gets (λ b, filter (λ o, is_open o = true)
               ((λ kv, os_order kv.2) <$> sorted_items (fb_orders b))).

Definition fake_get_asset (symbol : string) : FB (option PaperAsset) :=
  b ← gets id;
  if bool_decide (symbol ∈ fb_unknown_assets b) then mret None
  else match fb_assets b !! symbol with
       | Some a => mret (Some a)
       | None => mret (Some (mk_PaperAsset symbol US_EQUITY ASSET_ACTIVE true "ARCA"))
       end.

(** The loop of [list_positions] over the fills of one order:
    (quantity, cost in cents) per symbol. *)
Definition position_step (order : BrokerOrder) (acc : gmap string (Z * Z)) (fill : Fill)
    : outcome (gmap string (Z * Z)) :=
  let symbol := bo_symbol order in
  let '(quantity, cost) := default (0, 0) (acc !! symbol) in
  match bo_side order with
  | OrderSide.BUY =>
      Ok (<[symbol := (quantity + fl_quantity fill,
                       cost + fl_quantity fill * Price_cents (fl_price fill))]> acc)
  | OrderSide.SELL =>
      guard_that (negb (quantity <? fl_quantity fill)) EBrokerConflict
        "fake broker recorded an oversell" ≫= λ _,
      let average := if quantity =? 0 then 0 else cost `div` quantity in
      Ok (<[symbol := (quantity - fl_quantity fill, cost - average * fl_quantity fill)]> acc)
  end.

Definition fold_positions (acc : gmap string (Z * Z)) (states : list OrderState)
    : outcome (gmap string (Z * Z)) :=
  foldl (λ acc s, foldl (λ acc f, m ← acc; position_step (os_order s) m f) acc (os_fills s))
    (Ok acc) states.

Definition positions_view (m : gmap string (Z * Z)) : outcome (list PaperPosition) :=
  mapM (λ '(symbol, (quantity, invested)),
          price ← Price_from_cents (Z.max (invested `div` quantity) 1);
          check_PaperPosition (mk_PaperPosition symbol quantity price))
       (filter (λ '(_, (quantity, _)), quantity <? 1 = false) (sorted_items m)).

Definition fake_list_positions : FB (list PaperPosition) :=
  b ← gets id;
  lift (m ← fold_positions ∅ ((λ kv, kv.2) <$> sorted_items (fb_orders b)); positions_view m).

Definition fake_list_fills (broker_order_id : string) : FB (list Fill) :=
  gets (λ b, match fb_orders b !! broker_order_id with
             | Some s => os_fills s | None => [] end).

Definition fake_cancel_order (broker_order_id : string) : FB bool :=
  b ← gets id;
  match fb_orders b !! broker_order_id with
  | None => mret false
  | Some state =>
      if negb (is_open (os_order state)) then mret false
      else match fb_cancel_mode b with
      | TIMEOUT => throw EBrokerTransport "fake broker cancel outcome is unknown"
      | PENDING => fb_transition state BrokerOrderStatus.PENDING_CANCEL ≫= λ _, mret true
      | IMMEDIATE => fb_transition state BrokerOrderStatus.CANCELED ≫= λ _, mret true
      end
  end.

Definition resolve_pending_cancel (broker_order_id : string) : FB unit :=
  b ← gets id;
  match fb_orders b !! broker_order_id with
  | Some state =>
      if bool_decide (bo_status (os_order state) = BrokerOrderStatus.PENDING_CANCEL)
      then fb_transition state BrokerOrderStatus.CANCELED ≫= λ _, mret ()
      else throw EValueError "resolve_pending_cancel requires a PENDING_CANCEL order"
  | None => throw EValueError "resolve_pending_cancel requires a PENDING_CANCEL order"
  end.

Definition fake_apply_fill (broker_order_id : string) (step : FakeFillStep) : FB Fill :=
  b ← gets id;
  match fb_orders b !! broker_order_id with
  | None => throw EValueError "unknown broker order id"
  | Some state =>
      if negb (is_open (os_order state))
      then throw EValueError "terminal broker orders cannot receive fills"
      else apply_fill_step state step
  end.

Definition fake_expire_order (broker_order_id : string) : FB bool :=
  b ← gets id;
  match fb_orders b !! broker_order_id with
  | None => mret false
  | Some state =>
      if negb (is_open (os_order state)) then mret false
      else fb_transition state BrokerOrderStatus.EXPIRED ≫= λ _, mret true
  end.

Definition force_status (client_order_id : string) (status : BrokerOrderStatus.t) : FB unit :=
  b ← gets id;
  match fb_by_client b !! client_order_id with
  | None => throw EValueError "no recorded order for this client order id"
  | Some broker_order_id =>
      match fb_orders b !! broker_order_id with
      | None => throw EKeyError broker_order_id
      | Some state => fb_transition state status ≫= λ _, mret ()
      end
  end.

#[export] Instance fake_paper_broker : PaperBroker FakePaperBroker := {
  account := fake_account;
  submit_order := fake_submit_order;
  get_order := fake_get_order;
  list_recent_orders := fake_list_recent_orders;
  list_open_orders := fake_list_open_orders;
  list_positions := fake_list_positions;
  list_fills := fake_list_fills;
  get_asset := fake_get_asset;
  cancel_order := fake_cancel_order;
}.
End fake.
