(* ===== verification/Store.v ===== *)
(** * The durable store and the unit of work

    [src/seven_lens/infrastructure/postgres.py]: one PostgreSQL connection with
    its open transaction, seen by the services as a unit of work.

    A [db] holds the execution tables.  A [world] holds the committed database,
    the view of the open transaction ([w_work]), the connection's flags, the
    broker behind the port, and the counters of the external sources (clock,
    statement timestamps, uuids).  Faults come from the environment: the n-th
    statement may fail and abort the transaction, lose the connection, or -
    for a commit - be durable although it raises. *)

From S2P Require Import Prelude Text Orders Contracts BrokerPort.
Local Open Scope Z_scope.

(** ** Tables *)

(** A row of [broker_orders]; the broker watermark may be NULL. *)
Record mirror_row := mk_mirror { mr_order : BrokerOrder; mr_watermark : option Z }.

(** [AccountBaseline]: a revision of the opening cash. *)
Record AccountBaseline := mk_AccountBaseline {
  ab_account_id : string;
  ab_opening_cash_cents : Z;
  ab_effective_at : Z;
  ab_created_at : Z;
  ab_cutoff_occurred_at : option Z;
  ab_cutoff_execution_id : option string;
  ab_reason : option string;
  ab_actor : option string;
}.

(** A row of [reconciliation_runs] with its [reconciliation_mismatches] rows in
    ordinal order; [mismatch_count] is the number of kinds. *)
Record run_row := mk_run_row {
  rn_run_id : N;
  rn_trading_date : TradingDate;
  rn_status : ReconciliationStatus;
  rn_mismatch_kinds : list MismatchKind;
  rn_checked_orders : Z;
  rn_checked_fills : Z;
  rn_observed_at : Z;
  rn_scope : ReconciliationScope;
  rn_recorded_at : Z;
  rn_mismatches : list ReconciliationMismatch;
}.

Record db := mk_db {
  db_intents : gmap string OrderIntent;      (* by client order id *)
  db_mirrors : gmap string mirror_row;       (* by broker order id *)
  db_fills : list Fill;                      (* by fill id *)
  db_control : ControlStateSnapshot;
  db_commands : list ControlCommandRecord;
  db_runs : list run_row;                    (* in insertion order *)
  db_baselines : list AccountBaseline;       (* the revisions *)
  db_genesis : gmap string AccountBaseline;  (* by account id *)
}.

Definition set_intents v (d : db) : db :=
  mk_db v (db_mirrors d) (db_fills d) (db_control d) (db_commands d) (db_runs d) (db_baselines d)
    (db_genesis d).
Definition set_mirrors v (d : db) : db :=
  mk_db (db_intents d) v (db_fills d) (db_control d) (db_commands d) (db_runs d) (db_baselines d)
    (db_genesis d).
Definition set_fills v (d : db) : db :=
  mk_db (db_intents d) (db_mirrors d) v (db_control d) (db_commands d) (db_runs d) (db_baselines d)
    (db_genesis d).
Definition set_control v (d : db) : db :=
  mk_db (db_intents d) (db_mirrors d) (db_fills d) v (db_commands d) (db_runs d) (db_baselines d)
    (db_genesis d).
Definition set_commands v (d : db) : db :=
  mk_db (db_intents d) (db_mirrors d) (db_fills d) (db_control d) v (db_runs d) (db_baselines d)
    (db_genesis d).
Definition set_runs v (d : db) : db :=
  mk_db (db_intents d) (db_mirrors d) (db_fills d) (db_control d) (db_commands d) v (db_baselines d)
    (db_genesis d).
Definition set_baselines v (d : db) : db :=
  mk_db (db_intents d) (db_mirrors d) (db_fills d) (db_control d) (db_commands d) (db_runs d) v
    (db_genesis d).
Definition set_genesis v (d : db) : db :=
  mk_db (db_intents d) (db_mirrors d) (db_fills d) (db_control d) (db_commands d) (db_runs d)
    (db_baselines d) v.

(** ** The environment *)

Inductive fault := no_fault | lost_fault (broken : bool) | late_fault (broken : bool).

Class Env := {
  env_now : nat → Z;               (* the n-th reading of the process clock *)
  env_stamp : nat → Z;             (* statement_timestamp() of the n-th statement *)
  env_fault : nat → fault;         (* what goes wrong in the n-th statement *)
  env_uuid4 : nat → N;             (* the n-th random uuid *)
  env_uuid5 : N → string → N;      (* uuid.uuid5 *)
  env_collate : string → string → bool; (* the database's collation order *)
}.

(** ** The world *)

(** What the broker was asked to do, with the committed database at that time. *)
Inductive event :=
  | EvSubmit (intent : OrderIntent) (committed : db)
  | EvCancel (broker_order_id : string) (committed : db).

Record world (B : Type) := mk_world {
  w_work : db;          (* what the open transaction sees *)
  w_committed : db;     (* what is durable *)
  w_open : bool;        (* the unit of work is active *)
  w_broken : bool;      (* the connection is lost *)
  w_aborted : bool;     (* the transaction is in the failed state *)
  w_dirty : bool;       (* [_has_uncommitted_work] *)
  w_repeatable : bool;  (* the isolation level is REPEATABLE READ *)
  w_broker : B;
  w_clock : nat;
  w_stmt : nat;
  w_uuid : nat;
  w_trace : list event; (* latest first *)
}.
Arguments mk_world {B}.
Arguments w_work {B}. Arguments w_committed {B}. Arguments w_open {B}.
Arguments w_broken {B}. Arguments w_aborted {B}. Arguments w_dirty {B}.
Arguments w_repeatable {B}. Arguments w_broker {B}. Arguments w_clock {B}.
Arguments w_stmt {B}. Arguments w_uuid {B}. Arguments w_trace {B}.

Section store.
Context {E : Env} {B : Type}.
Implicit Types (w : world B).

(** Field updates. *)
Definition with_tx (work committed : db) (opened broken aborted dirty : bool) w : world B :=
  mk_world work committed opened broken aborted dirty (w_repeatable w) (w_broker w)
    (w_clock w) (w_stmt w) (w_uuid w) (w_trace w).
Definition with_work (d : db) w : world B :=
  with_tx d (w_committed w) (w_open w) (w_broken w) (w_aborted w) (w_dirty w) w.
Definition with_failed (broken : bool) w : world B :=
  with_tx (w_work w) (w_committed w) (w_open w) (w_broken w || broken) true (w_dirty w) w.
Definition with_dirty (b : bool) w : world B :=
  with_tx (w_work w) (w_committed w) (w_open w) (w_broken w) (w_aborted w) b w.
Definition with_broker (b : B) w : world B :=
  mk_world (w_work w) (w_committed w) (w_open w) (w_broken w) (w_aborted w) (w_dirty w)
    (w_repeatable w) b (w_clock w) (w_stmt w) (w_uuid w) (w_trace w).
Definition with_counters (clock stmt uuid : nat) w : world B :=
  mk_world (w_work w) (w_committed w) (w_open w) (w_broken w) (w_aborted w) (w_dirty w)
    (w_repeatable w) (w_broker w) clock stmt uuid (w_trace w).
Definition with_repeatable (b : bool) w : world B :=
  mk_world (w_work w) (w_committed w) (w_open w) (w_broken w) (w_aborted w) (w_dirty w)
    b (w_broker w) (w_clock w) (w_stmt w) (w_uuid w) (w_trace w).
Definition with_trace (t : list event) w : world B :=
  mk_world (w_work w) (w_committed w) (w_open w) (w_broken w) (w_aborted w) (w_dirty w)
    (w_repeatable w) (w_broker w) (w_clock w) (w_stmt w) (w_uuid w) t.

Local Notation P := (M (world B)).

(** ** External sources *)

(** [self._clock()] *)
Definition clock_now : P Z := λ w,
  (Ok (env_now (w_clock w)), with_counters (S (w_clock w)) (w_stmt w) (w_uuid w) w).

(** [uuid4()] *)
Definition fresh_uuid : P N := λ w,
  (Ok (env_uuid4 (w_uuid w)), with_counters (w_clock w) (w_stmt w) (S (w_uuid w)) w).

Definition next_stmt : P nat := λ w,
  (Ok (w_stmt w), with_counters (w_clock w) (S (w_stmt w)) (w_uuid w) w).

Definition db_error {A} (msg : string) : outcome A := raise EDatabase msg.

(** ** Statements *)

(** [_require_connection] *)
Definition require_connection : P unit := λ w,
  (guard_that (w_open w) EUnitOfWorkState
     "repository access requires an active unit of work", w).

(** One SQL statement on the open transaction: [f] sees the statement's
    timestamp and the transaction's database.  An error of the statement, a
    fault or a lost connection leaves the transaction failed, and a failed
    transaction refuses every further statement. *)
Definition stmt {A} (f : Z → db → outcome (A * db)) : P A :=
  require_connection ≫= λ _,
  n ← next_stmt;
  act (λ w,
    if w_broken w then (db_error "the connection is lost", w)
    else if w_aborted w then (db_error "current transaction is aborted", w)
    else match env_fault n with
    | lost_fault broken | late_fault broken =>
        (db_error "statement failed", with_failed broken w)
    | no_fault =>
        match f (env_stamp n) (w_work w) with
        | Ok (a, d) => (Ok a, with_work d w)
        | Raise e => (Raise e, with_failed false w)
        end
    end).

Definition query {A} (f : db → A) : P A := stmt (λ _ d, Ok (f d, d)).

(** [_mark_write] *)
Definition mark_write : P unit := modify (with_dirty true).

(** ** Transaction control *)

(** [connection.commit()]: a failed transaction is rolled back by the server
    without an error; a fault either loses the work or keeps it durable while
    the client sees an error. *)
Definition connection_commit : P unit :=
  n ← next_stmt;
  act (λ w,
    if w_broken w then (db_error "the connection is lost", w)
    else
      let work := if w_aborted w then w_committed w else w_work w in
      match env_fault n with
      | no_fault => (Ok (), with_tx work work (w_open w) false false (w_dirty w) w)
      | lost_fault broken =>
          (db_error "commit failed",
           with_tx (w_committed w) (w_committed w) (w_open w) broken false (w_dirty w) w)
      | late_fault broken =>
          (db_error "commit outcome unknown",
           with_tx work work (w_open w) broken false (w_dirty w) w)
      end).

(** [connection.rollback()] *)
Definition connection_rollback : P unit :=
  n ← next_stmt;
  act (λ w,
    if w_broken w then (db_error "the connection is lost", w)
    else
      let w' := with_tx (w_committed w) (w_committed w) (w_open w) false false (w_dirty w) w in
      match env_fault n with
      | no_fault => (Ok (), w')
      | lost_fault broken | late_fault broken =>
          (db_error "rollback failed", with_failed broken w')
      end).

(** [_set_local_utc_timezone]: one statement without effect on the tables. *)
Definition set_local_utc_timezone : P unit := stmt (λ _ d, Ok ((), d)).

Definition commit : P unit :=
  require_connection ≫= λ _,
  connection_commit ≫= λ _,
  set_local_utc_timezone ≫= λ _,
  modify (with_dirty false).

Definition rollback : P unit :=
  require_connection ≫= λ _,
  connection_rollback ≫= λ _,
  set_local_utc_timezone ≫= λ _,
  modify (with_dirty false).

(** [__enter__]: a fresh connection, default isolation, one statement. *)
Definition uow_enter : P unit :=
  opened ← gets w_open;
  if (opened : bool) then throw EUnitOfWorkState "unit of work is already active" else
  n ← next_stmt;
  match env_fault n with
  | no_fault =>
      modify (λ w, with_repeatable false
                (with_tx (w_committed w) (w_committed w) true false false false w)) ≫= λ _,
      catch set_local_utc_timezone
        (λ e, modify (λ w, with_tx (w_committed w) (w_committed w) false false false false w)
                ≫= λ _, rethrow e)
  | _ => throw EDatabase "connection failed"
  end.

(** [__exit__]: whatever was not committed is lost when the connection closes. *)
Definition uow_exit : P unit :=
  modify (λ w, with_tx (w_committed w) (w_committed w) false false false false w).

(** [begin_reconciliation_snapshot] *)
Definition begin_reconciliation_snapshot : P unit :=
  require_connection ≫= λ _,
  dirty ← gets w_dirty;
  if (dirty : bool) then
    throw EUnitOfWorkState "reconciliation snapshot must begin before any unit-of-work writes"
  else
    connection_rollback ≫= λ _,
    modify (with_repeatable true) ≫= λ _,
    set_local_utc_timezone.

(** ** The control row, as the functions of migration 0019 guard it *)

Definition pause_row (stamp : Z) (reason : string) (c : ControlStateSnapshot)
    : ControlStateSnapshot :=
  mk_ControlState true (Some reason) stamp (cs_flatten_generation c).

(** [length(btrim(text)) = 0]: only spaces. *)
Definition sql_blank (s : string) : bool := str_forallb (is_char " ") s.

Definition sql_pause_entries (reason : option string) (stamp : Z) (d : db)
    : outcome (ControlStateSnapshot * db) :=
  match reason with
  | Some r =>
      if negb (sql_blank r) && bool_decide (String.length r ≤ 200)%nat
      then let c := pause_row stamp r (db_control d) in Ok (c, set_control c d)
      else db_error "control pause reason is invalid"
  | None => db_error "control pause reason is invalid"
  end.

(** [persist_safety_pause]: connect, pause and commit on a connection of its
    own.  The caller's transaction sees the new row unless it reads from a
    repeatable snapshot. *)
Definition persist_safety_pause (reason : string) : P unit :=
  connect ← next_stmt;
  timezone ← next_stmt;
  update ← next_stmt;
  commit_n ← next_stmt;
  act (λ w,
    match env_fault connect, env_fault timezone, env_fault update with
    | no_fault, no_fault, no_fault =>
        match sql_pause_entries (Some reason) (env_stamp update) (w_committed w) with
        | Raise e => (Raise e, w)
        | Ok (c, d) =>
            let visible := with_tx (if w_repeatable w then w_work w
                                    else set_control c (w_work w))
                             d (w_open w) (w_broken w) (w_aborted w) (w_dirty w) w in
            match env_fault commit_n with
            | no_fault => (Ok (), visible)
            | lost_fault _ => (db_error "commit failed", w)
            | late_fault _ => (db_error "commit outcome unknown", visible)
            end
        end
    | _, _, _ => (db_error "safety connection failed", w)
    end).

(** ** Broker calls *)

Definition call {A} (m : broker_call B A) : P A := λ w,
  let '(o, b) := m (w_broker w) in (o, with_broker b w).

Definition log_event (f : db → event) : P unit := modify (λ w,
  with_trace (f (w_committed w) :: w_trace w) w).

Context `{!PaperBroker B}.

Definition broker_submit (intent : OrderIntent) : P SubmitResult :=
  log_event (EvSubmit intent) ≫= λ _, call (submit_order intent).
Definition broker_cancel (broker_order_id : string) : P bool :=
  log_event (EvCancel broker_order_id) ≫= λ _, call (cancel_order broker_order_id).
End store.
