(* ===== verification/Repos.v ===== *)
(** * Repositories: [src/seven_lens/infrastructure/postgres.py]

    The statements of the order, reconciliation, control and baseline
    repositories.  A [sql_*] function is what PostgreSQL does for one statement
    under the constraints and triggers of the migrations 0003 to 0019; a
    repository method is the sequence of statements, checks and row decodings
    of its source. *)

From S2P Require Import Prelude Text Orders Contracts BrokerPort Store.
Local Open Scope Z_scope.

Definition sql_check (b : bool) : outcome unit :=
  guard_that b EDatabase "new row violates a check constraint or trigger".

Definition BIGINT_MAX : Z := 9223372036854775807.

(** ** Row decoding: every constructor validates what the database returned *)

Definition decode_intent (i : OrderIntent) : outcome OrderIntent :=
  make_ClientOrderId (oi_client_order_id i) ≫= λ _,
  make_Symbol (oi_symbol i) ≫= λ _,
  make_OrderQuantity (oi_quantity i) ≫= λ _,
  make_Price (Finite (Price_value (oi_limit_price i))) ≫= λ _,
  make_Price (Finite (Price_value (pc_reference (oi_collar i)))) ≫= λ _,
  make_PriceCollar (pc_reference (oi_collar i)) (pc_offset_bps (oi_collar i)) ≫= λ _,
  check_OrderIntent i.

(** A NULL watermark reads as the submission time. *)
Definition mirror_view (r : mirror_row) : BrokerOrder :=
  let o := mr_order r in
  with_mirror (bo_status o) (bo_filled_quantity o)
    (default (bo_submitted_at o) (mr_watermark r)) o.

Definition decode_mirror (r : mirror_row) : outcome BrokerOrder :=
  let o := mirror_view r in
  make_ClientOrderId (bo_client_order_id o) ≫= λ _,
  make_Symbol (bo_symbol o) ≫= λ _,
  make_OrderQuantity (bo_quantity o) ≫= λ _,
  make_Price (Finite (Price_value (bo_limit_price o))) ≫= λ _,
  check_BrokerOrder o.

Definition decode_fill (f : Fill) : outcome Fill :=
  make_OrderQuantity (fl_quantity f) ≫= λ _,
  make_Price (Finite (Price_value (fl_price f))) ≫= λ _,
  check_Fill f.

(** [AccountBaseline.__post_init__]; the genesis row has no provenance. *)
Definition MAX_OPENING_CASH_CENTS : Z := 100000000000.
Definition bounded_by (n : nat) (s : string) : bool :=
  negb (is_blank s) && bool_decide (String.length s ≤ n)%nat.
Definition check_AccountBaseline (a : AccountBaseline) : outcome AccountBaseline :=
  guard_that (bounded_by 100 (ab_account_id a)) EValueError
    "account_id must be non-empty text up to 100 characters" ≫= λ _,
  guard_that ((0 <=? ab_opening_cash_cents a) &&
              (ab_opening_cash_cents a <=? MAX_OPENING_CASH_CENTS)) EValueError
    "opening_cash_cents must be a non-negative integer up to 100000000000" ≫= λ _,
  guard_that (match ab_cutoff_execution_id a with
              | Some s => bounded_by 100 s | None => true end) EValueError
    "cutoff_execution_id must be bounded text" ≫= λ _,
  guard_that (match ab_reason a with Some s => bounded_by 200 s | None => true end)
    EValueError "reason must be bounded text" ≫= λ _,
  guard_that (match ab_actor a with Some s => bounded_by 100 s | None => true end)
    EValueError "actor must be bounded text" ≫= λ _,
  Ok a.

(** ** Statements on [order_intents] *)

(** A NUMERIC(12,2) column that must be positive. *)
Definition sql_price (p : Price) : bool :=
  (1 <=? dec_coeff (Price_value p)) && (dec_coeff (Price_value p) <? 1000000000000).

Definition sql_intent_checks (i : OrderIntent) : bool :=
  negb (sql_blank (oi_client_order_id i)) &&
  bool_decide (String.length (oi_client_order_id i) ≤ 128)%nat &&
  fullmatch STRATEGY_PATTERN (oi_strategy i) && fullmatch WINDOW_PATTERN (oi_window i) &&
  (1 <=? oi_target_version i) && (oi_target_version i <=? BIGINT_MAX) &&
  fullmatch SYMBOL_PATTERN (oi_symbol i) &&
  (1 <=? oi_quantity i) && (oi_quantity i <=? BIGINT_MAX) &&
  sql_price (oi_limit_price i) && sql_price (pc_reference (oi_collar i)) &&
  (1 <=? pc_offset_bps (oi_collar i)) && (pc_offset_bps (oi_collar i) <=? 500) &&
  (oi_earliest_submit_at i <? oi_cancel_at i) &&
  bool_decide (oi_client_order_id i =
    client_order_id_text (oi_strategy i) (oi_trading_date i) (oi_window i)
      (oi_target_version i) (oi_symbol i) (oi_side i)).

(** [created_at] is the statement's timestamp, whatever the caller holds. *)
Definition with_created_at (t : Z) (i : OrderIntent) : OrderIntent :=
  mk_OrderIntent (oi_intent_id i) (oi_client_order_id i) (oi_strategy i) (oi_trading_date i)
    (oi_window i) (oi_target_version i) (oi_symbol i) (oi_side i) (oi_quantity i)
    (oi_intent_type i) (oi_limit_price i) (oi_collar i) (oi_earliest_submit_at i)
    (oi_cancel_at i) (oi_status i) (oi_run_id i) t.

Definition intent_rows (d : db) : list OrderIntent := (map_to_list (db_intents d)).*2.

(** INSERT ... ON CONFLICT (client_order_id) DO NOTHING RETURNING ... *)
Definition sql_insert_intent (i : OrderIntent) (stamp : Z) (d : db)
    : outcome (option OrderIntent * db) :=
  sql_check (sql_intent_checks i) ≫= λ _,
  match db_intents d !! oi_client_order_id i with
  | Some _ => Ok (None, d)
  | None =>
      sql_check (forallb (λ r, negb (oi_intent_id r =? oi_intent_id i)%N) (intent_rows d))
        ≫= λ _,
      let row := with_created_at stamp i in
      Ok (Some row, set_intents (<[oi_client_order_id i := row]> (db_intents d)) d)
  end.

(** The trigger [guard_order_intent_write] on the status column. *)
Definition sql_intent_update_ok (old new : OrderStatus.t) : bool :=
  bool_decide (old = new) || order_transition_allowed old new.

(** UPDATE order_intents SET status ... RETURNING ... *)
Definition sql_update_intent_status (cid : string) (target : OrderStatus.t) (stamp : Z) (d : db)
    : outcome (option OrderIntent * db) :=
  match db_intents d !! cid with
  | None => Ok (None, d)
  | Some i =>
      sql_check (sql_intent_update_ok (oi_status i) target) ≫= λ _,
      let row := with_status target i in
      Ok (Some row, set_intents (<[cid := row]> (db_intents d)) d)
  end.

(** ** Statements on [broker_orders] and [fills] *)

Definition sql_text_id (s : string) : bool :=
  negb (sql_blank s) && bool_decide (String.length s ≤ 100)%nat.

Definition sql_filled_exactly (o : BrokerOrder) : bool :=
  negb (bool_decide (bo_status o = BrokerOrderStatus.FILLED)) ||
  (bo_filled_quantity o =? bo_quantity o).

Definition sql_mirror_checks (o : BrokerOrder) : bool :=
  sql_text_id (bo_broker_order_id o) &&
  String.prefix "slv1-" (bo_client_order_id o) &&
  fullmatch SYMBOL_PATTERN (bo_symbol o) &&
  (1 <=? bo_quantity o) && (bo_quantity o <=? BIGINT_MAX) &&
  (0 <=? bo_filled_quantity o) && (bo_filled_quantity o <=? bo_quantity o) &&
  sql_price (bo_limit_price o) && sql_filled_exactly o.

Definition mirror_rows (d : db) : list mirror_row := (map_to_list (db_mirrors d)).*2.

Definition mirror_by_client (cid : string) (d : db) : option mirror_row :=
  head (filter (λ r, bo_client_order_id (mr_order r) = cid) (mirror_rows d)).

(** INSERT ... ON CONFLICT DO NOTHING RETURNING ... *)
Definition sql_insert_mirror (o : BrokerOrder) (stamp : Z) (d : db)
    : outcome (option mirror_row * db) :=
  sql_check (sql_mirror_checks o) ≫= λ _,
  match db_mirrors d !! bo_broker_order_id o, mirror_by_client (bo_client_order_id o) d with
  | None, None =>
      sql_check (bool_decide (is_Some (db_intents d !! bo_client_order_id o))) ≫= λ _,
      let row := mk_mirror o (Some (bo_updated_at o)) in
      Ok (Some row, set_mirrors (<[bo_broker_order_id o := row]> (db_mirrors d)) d)
  | _, _ => Ok (None, d)
  end.

(** The triggers [guard_broker_order_write] and [guard_broker_updated_at]. *)
Definition sql_mirror_update_ok (old : mirror_row) (status : BrokerOrderStatus.t) (filled : Z)
    (observed : option Z) : bool :=
  let o := mr_order old in
  (bool_decide (bo_status o = status) || broker_order_transition_allowed (bo_status o) status) &&
  (bo_filled_quantity o <=? filled) && (0 <=? filled) && (filled <=? bo_quantity o) &&
  (negb (bool_decide (status = BrokerOrderStatus.FILLED)) || (filled =? bo_quantity o)) &&
  match mr_watermark old, observed with Some a, Some b => a <=? b | _, _ => true end.

(** UPDATE broker_orders SET status, filled_quantity [, broker_updated_at] ... *)
Definition sql_update_mirror (bid : string) (status : BrokerOrderStatus.t) (filled : Z)
    (observed : option Z) (stamp : Z) (d : db) : outcome (option mirror_row * db) :=
  match db_mirrors d !! bid with
  | None => Ok (None, d)
  | Some old =>
      sql_check (sql_mirror_update_ok old status filled observed) ≫= λ _,
      let row := mk_mirror (with_mirror status filled (bo_updated_at (mr_order old)) (mr_order old))
                   (match observed with Some t => Some t | None => mr_watermark old end) in
      Ok (Some row, set_mirrors (<[bid := row]> (db_mirrors d)) d)
  end.

Definition fill_by_execution (execution_id : string) (d : db) : option Fill :=
  head (filter (λ f, fl_execution_id f = execution_id) (db_fills d)).

(** INSERT ... ON CONFLICT (execution_id) DO NOTHING RETURNING fill_id *)
Definition sql_insert_fill (f : Fill) (stamp : Z) (d : db) : outcome (bool * db) :=
  sql_check (sql_text_id (fl_execution_id f) && (1 <=? fl_quantity f) &&
             (fl_quantity f <=? BIGINT_MAX) && sql_price (fl_price f)) ≫= λ _,
  match fill_by_execution (fl_execution_id f) d with
  | Some _ => Ok (false, d)
  | None =>
      sql_check (bool_decide (is_Some (db_mirrors d !! fl_broker_order_id f))) ≫= λ _,
      Ok (true, set_fills (db_fills d ++ [f]) d)
  end.

(** ** Statements on the reconciliation, control and baseline tables *)

(** ORDER BY recorded_at DESC, run_id DESC LIMIT 1 *)
Definition run_before (a b : run_row) : bool :=
  (rn_recorded_at a <? rn_recorded_at b) ||
  ((rn_recorded_at a =? rn_recorded_at b) && (rn_run_id a <? rn_run_id b)%N).
Definition latest_run (d : db) : option run_row :=
  foldl (λ acc r, match acc with
                  | Some a => if run_before a r then Some r else acc
                  | None => Some r end) None (db_runs d).

Definition sql_insert_run (r : ReconciliationResult) (stamp : Z) (d : db)
    : outcome (Z * db) :=
  let kinds := mm_kind <$> rr_mismatches r in
  sql_check ((0 <=? rr_checked_orders r) && (0 <=? rr_checked_fills r) &&
             bool_decide (rr_status r = if bool_decide (kinds = []) then RECON_CLEAN
                                        else RECON_MISMATCH) &&
             forallb (λ x, negb (rn_run_id x =? rr_run_id r)%N) (db_runs d)) ≫= λ _,
  Ok (stamp, set_runs (db_runs d ++
        [mk_run_row (rr_run_id r) (rr_trading_date r) (rr_status r) kinds
           (rr_checked_orders r) (rr_checked_fills r) (rr_observed_at r) (rr_scope r)
           stamp []]) d).

Definition add_child (m : ReconciliationMismatch) (r : run_row) : run_row :=
  mk_run_row (rn_run_id r) (rn_trading_date r) (rn_status r) (rn_mismatch_kinds r)
    (rn_checked_orders r) (rn_checked_fills r) (rn_observed_at r) (rn_scope r)
    (rn_recorded_at r) (rn_mismatches r ++ [m]).

Definition sql_insert_mismatch (run_id : N) (m : ReconciliationMismatch) (stamp : Z) (d : db)
    : outcome (unit * db) :=
  sql_check (negb (sql_blank (mm_detail m)) &&
             bool_decide (String.length (mm_detail m) ≤ 200)%nat &&
             existsb (λ r, (rn_run_id r =? run_id)%N) (db_runs d)) ≫= λ _,
  Ok ((), set_runs ((λ r, if (rn_run_id r =? run_id)%N then add_child m r else r)
                      <$> db_runs d) d).

(** [resume_entries()] of migration 0019. *)
Definition sql_resume_entries (stamp : Z) (d : db) : outcome (ControlStateSnapshot * db) :=
  match latest_run d with
  | Some r =>
      guard_that (bool_decide (rn_status r = RECON_CLEAN) &&
                  bool_decide (rn_scope r = SCOPE_FULL)) EDatabase
        "entries cannot resume without a latest FULL CLEAN reconciliation" ≫= λ _,
      guard_that (forallb (λ i, negb (unresolved (oi_status i))) (intent_rows d)) EDatabase
        "entries cannot resume while unresolved order intents remain" ≫= λ _,
      let c := mk_ControlState false None stamp (cs_flatten_generation (db_control d)) in
      Ok (c, set_control c d)
  | None => raise EDatabase
              "entries cannot resume without a latest FULL CLEAN reconciliation"
  end.

Definition sql_bump_flatten_generation (stamp : Z) (d : db) : outcome (Z * db) :=
  let c := db_control d in
  let g := cs_flatten_generation c + 1 in
  sql_check (g <=? BIGINT_MAX) ≫= λ _,
  Ok (g, set_control (mk_ControlState (cs_entries_paused c) (cs_paused_reason c) stamp g) d).

Definition command_by_id (id : N) (d : db) : option ControlCommandRecord :=
  head (filter (λ c, cc_command_id c = id) (db_commands d)).

(** INSERT ... ON CONFLICT (command_id) DO NOTHING RETURNING applied_at *)
Definition sql_insert_command (c : ControlCommandRecord) (stamp : Z) (d : db)
    : outcome (option (option Z) * db) :=
  sql_check (negb (sql_blank (cc_reason c)) &&
             bool_decide (String.length (cc_reason c) ≤ 200)%nat &&
             negb (sql_blank (cc_actor c)) &&
             bool_decide (String.length (cc_actor c) ≤ 100)%nat &&
             match cc_applied_at c with Some t => cc_requested_at c <=? t | None => true end)
    ≫= λ _,
  match command_by_id (cc_command_id c) d with
  | Some _ => Ok (None, d)
  | None => Ok (Some (cc_applied_at c), set_commands (db_commands d ++ [c]) d)
  end.

Definition sql_insert_genesis (a : AccountBaseline) (stamp : Z) (d : db)
    : outcome (AccountBaseline * db) :=
  sql_check (sql_text_id (ab_account_id a) &&
             bool_decide (db_genesis d !! ab_account_id a = None)) ≫= λ _,
  let row := mk_AccountBaseline (ab_account_id a) (ab_opening_cash_cents a)
               (ab_effective_at a) stamp None None None None in
  Ok (row, set_genesis (<[ab_account_id a := row]> (db_genesis d)) d).

Definition sql_insert_revision (a : AccountBaseline) (stamp : Z) (d : db)
    : outcome (AccountBaseline * db) :=
  sql_check (sql_text_id (ab_account_id a) && (ab_effective_at a <=? stamp) &&
             match ab_cutoff_execution_id a with Some s => sql_text_id s | None => true end &&
             match ab_reason a, ab_actor a with
             | Some r, Some c => negb (sql_blank r) && bool_decide (String.length r ≤ 200)%nat
                                 && negb (sql_blank c) && bool_decide (String.length c ≤ 100)%nat
             | _, _ => false end) ≫= λ _,
  let row := mk_AccountBaseline (ab_account_id a) (ab_opening_cash_cents a)
               (ab_effective_at a) stamp (ab_cutoff_occurred_at a)
               (ab_cutoff_execution_id a) (ab_reason a) (ab_actor a) in
  Ok (row, set_baselines (db_baselines d ++ [row]) d).

(** ORDER BY effective_at DESC, created_at DESC LIMIT 1; the first of equals. *)
Definition baseline_before (a b : AccountBaseline) : bool :=
  (ab_effective_at a <? ab_effective_at b) ||
  ((ab_effective_at a =? ab_effective_at b) && (ab_created_at a <? ab_created_at b)).
Definition latest_baseline (account_id : string) (d : db) : option AccountBaseline :=
  foldl (λ acc r, match acc with
                  | Some a => if baseline_before a r then Some r else acc
                  | None => Some r end) None
    (filter (λ r, ab_account_id r = account_id) (db_baselines d)).

(** ** Repositories *)

Section repos.
Context {E : Env} {B : Type}.
Local Notation P := (M (world B)).

Definition decode {A R} (f : R → outcome A) (r : option R) : P (option A) :=
  match r with
  | Some r => a ← lift (f r); mret (Some a)
  | None => mret None
  end.

(** *** [PostgresOrderRepository] *)

Definition orders_get (cid : string) : P (option OrderIntent) :=
  row ← query (λ d, db_intents d !! cid);
  decode decode_intent row.

Definition orders_add (intent : OrderIntent) : P OrderIntent :=
  row ← stmt (sql_insert_intent intent);
  match row with
  | Some r => mark_write ≫= λ _, lift (decode_intent r)
  | None =>
      existing ← orders_get (oi_client_order_id intent);
      match existing with
      | Some e =>
          if (oi_intent_id e =? oi_intent_id intent)%N then mret e
          else throw EPersistenceInvariant
                 "client order id is bound to a different order intent"
      | None => throw EPersistenceInvariant
                  "client order id is bound to a different order intent"
      end
  end.

(** Rows with the status, ORDER BY client_order_id. *)
Definition intents_with_status (s : OrderStatus.t) (d : db) : list OrderIntent :=
  sort_by (λ a b, env_collate (oi_client_order_id a) (oi_client_order_id b))
    (filter (λ i, oi_status i = s) (intent_rows d)).

Definition list_by_status (s : OrderStatus.t) : P (list OrderIntent) :=
  rows ← query (intents_with_status s);
  lift (mapM decode_intent rows).

Definition transition_status (cid : string) (target : OrderStatus.t) : P OrderIntent :=
  row ← stmt (sql_update_intent_status cid target);
  match row with
  | None => throw EPersistenceInvariant "order intent disappeared during transition"
  | Some r => mark_write ≫= λ _, lift (decode_intent r)
  end.

Definition record_broker_order (order : BrokerOrder) : P BrokerOrder :=
  row ← stmt (sql_insert_mirror order);
  match row with
  | Some r => mark_write ≫= λ _, lift (decode_mirror r)
  | None =>
      by_id ← query (λ d, db_mirrors d !! bo_broker_order_id order);
      match by_id with
      | None =>
          by_client ← query (mirror_by_client (bo_client_order_id order));
          match by_client with
          | Some _ => throw EBrokerOrderIdentityConflict
              "client order id is already bound to a different broker order"
          | None => throw EPersistenceInvariant
              "broker order insert conflicted but no existing identity was found"
          end
      | Some r =>
          existing ← lift (decode_mirror r);
          if negb (same_broker_identity existing order) then
            throw EBrokerOrderIdentityConflict
              "broker order id is already bound to a different local order"
          else
            row ← stmt (sql_update_mirror (bo_broker_order_id order) (bo_status order)
                          (bo_filled_quantity order) (Some (bo_updated_at order)));
            match row with
            | None => throw EPersistenceInvariant "broker order upsert did not return a row"
            | Some r => mark_write ≫= λ _, lift (decode_mirror r)
            end
      end
  end.

Definition get_broker_order (cid : string) : P (option BrokerOrder) :=
  row ← query (mirror_by_client cid); decode decode_mirror row.
Definition get_broker_order_by_id (bid : string) : P (option BrokerOrder) :=
  row ← query (λ d, db_mirrors d !! bid); decode decode_mirror row.

Definition update_broker_order_status (bid : string) (status : BrokerOrderStatus.t)
    (filled : Z) (observed : option Z) : P BrokerOrder :=
  row ← stmt (sql_update_mirror bid status filled observed);
  match row with
  | None => throw EPersistenceInvariant "broker order disappeared during refresh"
  | Some r => mark_write ≫= λ _, lift (decode_mirror r)
  end.

Definition add_fill (fill : Fill) : P bool :=
  inserted ← stmt (sql_insert_fill fill);
  (if (inserted : bool) then mark_write else mret ()) ≫= λ _, mret inserted.

Definition get_fill_by_execution_id (execution_id : string) : P (option Fill) :=
  row ← query (fill_by_execution execution_id); decode decode_fill row.

Definition orders_list_fills (bid : string) : P (list Fill) :=
  rows ← query (λ d, filter (λ f, fl_broker_order_id f = bid) (db_fills d));
  lift (mapM decode_fill rows).

Definition mirrors_ordered (d : db) : list mirror_row :=
  sort_by (λ a b, env_collate (bo_broker_order_id (mr_order a)) (bo_broker_order_id (mr_order b)))
    (mirror_rows d).

Definition list_open_broker_orders : P (list BrokerOrder) :=
  rows ← query (λ d, filter (λ r, bo_status (mr_order r) ∉ TERMINAL_BROKER_ORDER_STATUSES)
                       (mirrors_ordered d));
  lift (mapM decode_mirror rows).
Definition list_all_broker_orders : P (list BrokerOrder) :=
  rows ← query mirrors_ordered; lift (mapM decode_mirror rows).
Definition list_all_fills : P (list Fill) :=
  rows ← query db_fills; lift (mapM decode_fill rows).

(** *** [PostgresReconciliationRepository] *)

Definition reconciliations_add (r : ReconciliationResult) : P Z :=
  recorded ← stmt (sql_insert_run r);
  foldM (λ _ m, stmt (sql_insert_mismatch (rr_run_id r) m)) () (rr_mismatches r) ≫= λ _,
  mark_write ≫= λ _, mret recorded.

Definition decode_run (r : run_row) : outcome ReconciliationResult :=
  guard_that (bool_decide (length (rn_mismatches r) = length (rn_mismatch_kinds r)))
    EPersistenceInvariant
    "reconciliation parent mismatch_count does not match child rows" ≫= λ _,
  mapM (λ m, make_Mismatch (mm_kind m) (mm_detail m)) (rn_mismatches r) ≫= λ mismatches,
  guard_that (bool_decide (mm_kind <$> rn_mismatches r = rn_mismatch_kinds r))
    EPersistenceInvariant
    "reconciliation parent mismatch_kinds does not match child rows" ≫= λ _,
  guard_that (negb (bool_decide (bool_decide (rn_status r = RECON_CLEAN)
                                 = negb (bool_decide (mismatches = []))))) EPersistenceInvariant
    "reconciliation status does not match mismatch presence" ≫= λ _,
  check_ReconciliationResult
    (mk_ReconciliationResult (rn_run_id r) (rn_trading_date r) (rn_status r) mismatches
       (rn_checked_orders r) (rn_checked_fills r) (rn_observed_at r) (rn_scope r)).

(** [latest]: the parent row, then its children. *)
Definition reconciliations_latest : P (option ReconciliationResult) :=
  parent ← query latest_run;
  match parent with
  | None => mret None
  | Some r =>
      query (λ _, ()) ≫= λ _,
      result ← lift (decode_run r); mret (Some result)
  end.

(** *** [PostgresControlRepository] *)

Definition control_state : P ControlStateSnapshot :=
  row ← query db_control; lift (check_ControlState row).

(** [with submission_guard() as state: body state] *)
Definition submission_guard {A} (body : ControlStateSnapshot → P A) : P A :=
  row ← query db_control;
  try_else (state ← lift (check_ControlState row); body state)
    (λ e, rollback ≫= λ _, rethrow e)
    (λ a, commit ≫= λ _, mret a).

Definition bump_flatten_generation : P Z :=
  g ← stmt sql_bump_flatten_generation; mark_write ≫= λ _, mret g.

Definition set_entries_paused (paused : bool) (reason : option string)
    : P ControlStateSnapshot :=
  if negb paused && bool_decide (is_Some reason) then
    throw EPersistenceInvariant "paused_reason must be null when entries are resumed"
  else
    row ← (if paused then stmt (sql_pause_entries reason) else stmt sql_resume_entries);
    mark_write ≫= λ _, lift (check_ControlState row).

(** The retry of a recorded command must carry the same command. *)
Definition same_command (a b : ControlCommandRecord) : bool :=
  bool_decide (cc_command a = cc_command b) && bool_decide (cc_reason a = cc_reason b) &&
  bool_decide (cc_actor a = cc_actor b) && bool_decide (cc_run_id a = cc_run_id b).

Definition add_command (record : ControlCommandRecord) : P (option Z) :=
  inserted ← stmt (sql_insert_command record);
  match inserted with
  | Some applied => mark_write ≫= λ _, mret applied
  | None =>
      row ← query (command_by_id (cc_command_id record));
      match row with
      | None => throw EPersistenceInvariant "control command idempotency lookup"
      | Some existing =>
          if same_command existing record then mret (cc_applied_at existing)
          else throw EPersistenceInvariant
                 "control command id is already bound to a different command"
      end
  end.

(** *** [PostgresAccountBaselineRepository] *)

Definition valid_account_id (s : string) : bool := bounded_by 100 s.
Definition validate_opening_cash_cents (v : Z) : P unit :=
  lift (guard_that ((0 <=? v) && (v <=? MAX_OPENING_CASH_CENTS)) EValueError
          "opening_cash_cents must be a non-negative integer up to 100000000000").

Definition set_baseline (account_id : string) (opening_cash_cents effective_at : Z)
    : P AccountBaseline :=
  lift (guard_that (valid_account_id account_id) EValueError
          "account_id must be non-empty text up to 100 characters") ≫= λ _,
  validate_opening_cash_cents opening_cash_cents ≫= λ _,
  query (λ _, ()) ≫= λ _, (* LOCK TABLE fills *)
  has_fills ← query (λ d, negb (bool_decide (db_fills d = [])));
  if (has_fills : bool) then throw EValueError "genesis baseline requires empty fill ledger" else
  row ← stmt (sql_insert_genesis
    (mk_AccountBaseline account_id opening_cash_cents effective_at 0 None None None None));
  stmt (sql_insert_revision
    (mk_AccountBaseline account_id opening_cash_cents effective_at 0 None None
       (Some "genesis") (Some "system"))) ≫= λ _,
  mark_write ≫= λ _, lift (check_AccountBaseline row).

Definition add_revision (account_id : string) (opening_cash_cents effective_at : Z)
    (cutoff_occurred_at : option Z) (cutoff_execution_id : option string)
    (reason actor : string) : P AccountBaseline :=
  lift (guard_that (valid_account_id account_id) EValueError
          "account_id must be bounded text") ≫= λ _,
  validate_opening_cash_cents opening_cash_cents ≫= λ _,
  lift (guard_that (match cutoff_execution_id with
                    | Some s => bounded_by 100 s
                    | None => true end) EValueError
          "cutoff_execution_id must be bounded text") ≫= λ _,
  lift (guard_that (bounded_by 200 reason)
          EValueError "reason must be bounded text") ≫= λ _,
  lift (guard_that (bounded_by 100 actor)
          EValueError "actor must be bounded text") ≫= λ _,
  lift (guard_that (bool_decide (bool_decide (cutoff_occurred_at = None)
                                 = bool_decide (cutoff_execution_id = None))) EValueError
          "cutoff_occurred_at and cutoff_execution_id must be both set or both None") ≫= λ _,
  has_fills ← query (λ d, negb (bool_decide (db_fills d = [])));
  if (has_fills : bool) && bool_decide (cutoff_occurred_at = None) then
    throw EValueError "revision after fills requires explicit cutoff" else
  match cutoff_occurred_at, cutoff_execution_id with
  | Some at_, Some id_ =>
      found ← query (λ d, existsb (λ f, bool_decide (fl_execution_id f = id_) &&
                                       (fl_occurred_at f =? at_)) (db_fills d));
      if (found : bool) then mret ()
      else throw EValueError "cutoff must reference an existing fill"
  | _, _ => mret ()
  end ≫= λ _,
  row ← stmt (sql_insert_revision
    (mk_AccountBaseline account_id opening_cash_cents effective_at 0 cutoff_occurred_at
       cutoff_execution_id (Some reason) (Some actor)));
  mark_write ≫= λ _, lift (check_AccountBaseline row).

Definition get_baseline (account_id : string) : P (option AccountBaseline) :=
  lift (guard_that (negb (is_blank account_id)) EValueError
          "account_id must be non-empty text") ≫= λ _,
  row ← query (latest_baseline account_id);
  match row with
  | Some r => a ← lift (check_AccountBaseline r); mret (Some a)
  | None => row ← query (λ d, db_genesis d !! account_id); decode check_AccountBaseline row
  end.
End repos.
