(* ===== verification/Stable.v ===== *)
(** * Relations every operation respects

    The interface between the store and the theorems about all services: a
    preorder on worlds that reads, transaction control and the environment
    respect ([Transactional]), and the statements that write too ([Stable]).  Submitting, canceling and resuming are
    separate promises, so a relation may hold of what avoids them.  From a
    [Stable] relation, [pres R m] follows for every repository method here and
    for every service operation in EngineFacts and ServiceFacts. *)

From S2P Require Import Prelude Text Orders Contracts BrokerPort Store Repos.
Local Open Scope Z_scope.

Section classes.
Context {E : Env} {B : Type}.

Class Transactional (R : relation (world B)) := {
  stable_preorder :: PreOrder R;
  (* neither the tables nor the trace changed *)
  stable_same : ∀ w w', w_work w' = w_work w → w_committed w' = w_committed w →
    w_trace w' = w_trace w → R w w';
  (* what was not committed is lost *)
  stable_reset : ∀ w w', w_work w' = w_committed w → w_committed w' = w_committed w →
    w_trace w' = w_trace w → R w w';
  (* what the transaction sees is durable *)
  stable_durable : ∀ w w', w_work w' = w_work w → w_committed w' = w_work w →
    w_trace w' = w_trace w → R w w';
}.

Class Stable (R : relation (world B)) := {
  stable_transactional :: Transactional R;
  stable_insert_intent : ∀ i, pres R (stmt (sql_insert_intent i));
  stable_update_intent_status : ∀ cid s, pres R (stmt (sql_update_intent_status cid s));
  stable_insert_mirror : ∀ o, pres R (stmt (sql_insert_mirror o));
  stable_update_mirror : ∀ bid s f t, pres R (stmt (sql_update_mirror bid s f t));
  stable_insert_fill : ∀ f, pres R (stmt (sql_insert_fill f));
  stable_insert_run : ∀ r, pres R (stmt (sql_insert_run r));
  stable_insert_mismatch : ∀ i m, pres R (stmt (sql_insert_mismatch i m));
  stable_pause : ∀ r, pres R (stmt (sql_pause_entries r));
  stable_bump : pres R (stmt sql_bump_flatten_generation);
  stable_insert_command : ∀ c, pres R (stmt (sql_insert_command c));
  stable_insert_genesis : ∀ a, pres R (stmt (sql_insert_genesis a));
  stable_insert_revision : ∀ a, pres R (stmt (sql_insert_revision a));
  stable_safety_pause : ∀ reason, pres R (persist_safety_pause reason);
}.

Class StableResume (R : relation (world B)) :=
  stable_resume : pres R (stmt sql_resume_entries).
Class StableSubmit (R : relation (world B)) `{!PaperBroker B} :=
  stable_submit : ∀ i, pres R (broker_submit i).
Class StableCancel (R : relation (world B)) `{!PaperBroker B} :=
  stable_cancel : ∀ bid, pres R (broker_cancel bid).
End classes.

#[export] Hint Extern 0 (Transactional _) => apply _ : pres.
#[export] Hint Extern 0 (Stable _) => apply _ : pres.
#[export] Hint Extern 0 (StableResume _) => apply _ : pres.
#[export] Hint Extern 0 (StableSubmit _) => apply _ : pres.
#[export] Hint Extern 0 (StableCancel _) => apply _ : pres.
#[export] Hint Resolve stable_insert_intent stable_update_intent_status stable_insert_mirror
  stable_update_mirror stable_insert_fill stable_insert_run stable_insert_mismatch stable_pause
  stable_bump stable_insert_command stable_insert_genesis stable_insert_revision
  stable_safety_pause stable_resume stable_submit stable_cancel : pres.

Section stable.
Context {E : Env} {B : Type} (R : relation (world B)) `{!Transactional R}.

(** ** Primitives *)

(** A statement either changed the transaction's view by its function, or
    neither the tables nor the trace. *)
Lemma stmt_stable {A} (f : Z → db → outcome (A * db)) :
  (∀ t w a d w', f t (w_work w) = Ok (a, d) → w_work w' = d →
     w_committed w' = w_committed w → w_trace w' = w_trace w → R w w') →
  pres R (stmt f).
Proof using Type*.
  intros Hf w. unfold stmt, require_connection, next_stmt, act, mbind, M_bind, guard_that.
  destruct (w_open w); simpl; [|reflexivity].
  destruct (w_broken w); [by apply stable_same|].
  destruct (w_aborted w); [by apply stable_same|].
  destruct (env_fault (w_stmt w)); simpl; [|by apply stable_same..].
  destruct (f (env_stamp (w_stmt w)) (w_work w)) as [[a d]|e] eqn:Hfd; [|by apply stable_same].
  by eapply Hf.
Qed.

Lemma query_stable {A} (f : db → A) : pres R (query f).
Proof using Type*.
  apply stmt_stable. intros t w a d w' [= <- <-]. apply stable_same.
Qed.

Lemma modify_stable (f : world B → world B) : (∀ w, R w (f w)) → pres R (modify f).
Proof using Type*. intros Hf w. apply Hf. Qed.

Lemma connection_commit_stable : pres R connection_commit.
Proof using Type*.
  intros w. unfold connection_commit, next_stmt, act, mbind, M_bind. simpl.
  destruct (w_broken w); [by apply stable_same|].
  destruct (env_fault (w_stmt w)), (w_aborted w); simpl;
    first [by apply stable_reset | by apply stable_durable].
Qed.

Lemma connection_rollback_stable : pres R connection_rollback.
Proof using Type*.
  intros w. unfold connection_rollback, next_stmt, act, mbind, M_bind. simpl.
  destruct (w_broken w); [by apply stable_same|].
  destruct (env_fault (w_stmt w)); by apply stable_reset.
Qed.

Lemma require_connection_stable : pres R require_connection.
Proof using Type*. intros w. by apply stable_same. Qed.
Lemma clock_now_stable : pres R clock_now.
Proof using Type*. intros w. by apply stable_same. Qed.
Lemma fresh_uuid_stable : pres R fresh_uuid.
Proof using Type*. intros w. by apply stable_same. Qed.
Lemma next_stmt_stable : pres R next_stmt.
Proof using Type*. intros w. by apply stable_same. Qed.
Lemma mark_write_stable : pres R mark_write.
Proof using Type*. apply modify_stable. intros w. by apply stable_same. Qed.
Lemma with_dirty_stable b : pres R (modify (with_dirty b)).
Proof using Type*. apply modify_stable. intros w. by apply stable_same. Qed.
Lemma with_repeatable_stable b : pres R (modify (with_repeatable b)).
Proof using Type*. apply modify_stable. intros w. by apply stable_same. Qed.
Lemma call_stable {A} (m : broker_call B A) : pres R (call m).
Proof using Type*. intros w. unfold call. destruct (m (w_broker w)). by apply stable_same. Qed.
Lemma set_local_utc_timezone_stable : pres R set_local_utc_timezone.
Proof using Type*. apply (query_stable (λ _, ())). Qed.
End stable.

#[export] Hint Resolve query_stable connection_commit_stable connection_rollback_stable
  require_connection_stable clock_now_stable fresh_uuid_stable next_stmt_stable
  mark_write_stable with_dirty_stable with_repeatable_stable call_stable
  set_local_utc_timezone_stable : pres.

(** ** The unit of work *)

Section uow.
Context {E : Env} {B : Type} (R : relation (world B)) `{!Transactional R}.

Lemma commit_stable : pres R commit.
Proof using Type*. unfold commit. pres_auto. Qed.
Lemma rollback_stable : pres R rollback.
Proof using Type*. unfold rollback. pres_auto. Qed.
#[local] Hint Extern 1 (pres R (modify _)) =>
  apply modify_stable; [apply _|]; intros; by apply stable_reset : pres.
Lemma uow_enter_stable : pres R uow_enter.
Proof using Type*. unfold uow_enter. pres_auto. Qed.
Lemma uow_exit_stable : pres R uow_exit.
Proof using Type*. unfold uow_exit. pres_auto. Qed.
Lemma begin_reconciliation_snapshot_stable : pres R begin_reconciliation_snapshot.
Proof using Type*. unfold begin_reconciliation_snapshot. pres_auto. Qed.
End uow.

#[export] Hint Resolve commit_stable rollback_stable uow_enter_stable uow_exit_stable
  begin_reconciliation_snapshot_stable : pres.

(** ** Repositories: reads *)

Section reads.
Context {E : Env} {B : Type} (R : relation (world B)) `{!Transactional R}.

Lemma decode_stable {A C} (f : C → outcome A) r : pres R (decode f r).
Proof using Type*. unfold decode. pres_auto. Qed.
#[local] Hint Resolve decode_stable : pres.
Lemma orders_get_stable cid : pres R (orders_get cid).
Proof using Type*. unfold orders_get. pres_auto. Qed.
#[local] Hint Resolve orders_get_stable : pres.
Lemma list_by_status_stable s : pres R (list_by_status s).
Proof using Type*. unfold list_by_status. pres_auto. Qed.
Lemma get_broker_order_stable cid : pres R (get_broker_order cid).
Proof using Type*. unfold get_broker_order. pres_auto. Qed.
Lemma get_broker_order_by_id_stable bid : pres R (get_broker_order_by_id bid).
Proof using Type*. unfold get_broker_order_by_id. pres_auto. Qed.
Lemma get_fill_by_execution_id_stable i : pres R (get_fill_by_execution_id i).
Proof using Type*. unfold get_fill_by_execution_id. pres_auto. Qed.
Lemma orders_list_fills_stable bid : pres R (orders_list_fills bid).
Proof using Type*. unfold orders_list_fills. pres_auto. Qed.
Lemma list_open_broker_orders_stable : pres R (list_open_broker_orders).
Proof using Type*. unfold list_open_broker_orders. pres_auto. Qed.
Lemma list_all_broker_orders_stable : pres R (list_all_broker_orders).
Proof using Type*. unfold list_all_broker_orders. pres_auto. Qed.
Lemma list_all_fills_stable : pres R (list_all_fills).
Proof using Type*. unfold list_all_fills. pres_auto. Qed.
Lemma reconciliations_latest_stable : pres R (reconciliations_latest).
Proof using Type*. unfold reconciliations_latest. pres_auto. Qed.
Lemma control_state_stable : pres R control_state.
Proof using Type*. unfold control_state. pres_auto. Qed.
Lemma get_baseline_stable i : pres R (get_baseline i).
Proof using Type*. unfold get_baseline. pres_auto. Qed.
Lemma submission_guard_stable {A} (body : ControlStateSnapshot → M (world B) A) :
  (∀ c, pres R (body c)) → pres R (submission_guard body).
Proof using Type*. intros Hb. unfold submission_guard. pres_auto. Qed.
End reads.

#[export] Hint Extern 2 (pres _ (submission_guard _)) =>
  apply submission_guard_stable; [apply _|pres_auto] : pres.
#[export] Hint Resolve decode_stable orders_get_stable list_by_status_stable
  get_broker_order_stable get_broker_order_by_id_stable get_fill_by_execution_id_stable
  orders_list_fills_stable list_open_broker_orders_stable list_all_broker_orders_stable
  list_all_fills_stable reconciliations_latest_stable control_state_stable
  get_baseline_stable : pres.

(** ** Repositories: writes *)

Section writes.
Context {E : Env} {B : Type} (R : relation (world B)) `{!Stable R}.

Lemma orders_add_stable i : pres R (orders_add i).
Proof using Type*. unfold orders_add. pres_auto. Qed.
Lemma transition_status_stable cid s : pres R (transition_status cid s).
Proof using Type*. unfold transition_status. pres_auto. Qed.
Lemma record_broker_order_stable o : pres R (record_broker_order o).
Proof using Type*. unfold record_broker_order. pres_auto. Qed.
Lemma update_broker_order_status_stable bid s f t : pres R (update_broker_order_status bid s f t).
Proof using Type*. unfold update_broker_order_status. pres_auto. Qed.
Lemma add_fill_stable f : pres R (add_fill f).
Proof using Type*. unfold add_fill. pres_auto. Qed.
Lemma reconciliations_add_stable r : pres R (reconciliations_add r).
Proof using Type*. unfold reconciliations_add. pres_auto. Qed.
Lemma bump_flatten_generation_stable : pres R (bump_flatten_generation).
Proof using Type*. unfold bump_flatten_generation. pres_auto. Qed.
Lemma add_command_stable c : pres R (add_command c).
Proof using Type*. unfold add_command. pres_auto. Qed.
Lemma set_entries_paused_stable r : pres R (set_entries_paused true r).
Proof using Type*. unfold set_entries_paused. pres_auto. Qed.
Lemma set_baseline_stable i c t : pres R (set_baseline i c t).
Proof using Type*. unfold set_baseline, validate_opening_cash_cents. pres_auto. Qed.
Lemma add_revision_stable i c t x y r a : pres R (add_revision i c t x y r a).
Proof using Type*. unfold add_revision, validate_opening_cash_cents. pres_auto. Qed.
Lemma resume_stable `{!StableResume R} r : pres R (set_entries_paused false r).
Proof using Type*. unfold set_entries_paused. pres_auto. Qed.
End writes.

#[export] Hint Resolve orders_add_stable transition_status_stable
  record_broker_order_stable update_broker_order_status_stable add_fill_stable
  reconciliations_add_stable bump_flatten_generation_stable add_command_stable
  set_entries_paused_stable set_baseline_stable add_revision_stable resume_stable : pres.
