(* ===== verification/Evolve.v ===== *)
(** * How the durable state evolves

    [db_wf] is the integrity every database of the system satisfies, and
    [db_evolves] the order in which databases follow each other: identities
    never change, statuses move along their maps, quantities and watermarks grow,
    the ledgers are append-only.  Every statement keeps both; hence every program
    built from them does, under every schedule of faults ([evolves]). *)

From S2P Require Import Prelude Text Orders Contracts BrokerPort Store Repos Stable.
Local Open Scope Z_scope.

(** ** Integrity *)

Record db_wf (d : db) : Prop := {
  wf_intents : ∀ cid i, db_intents d !! cid = Some i →
    oi_client_order_id i = cid ∧ sql_intent_checks i = true;
  wf_intent_ids : ∀ cid cid' i i', db_intents d !! cid = Some i →
    db_intents d !! cid' = Some i' → oi_intent_id i = oi_intent_id i' → cid = cid';
  wf_mirrors : ∀ bid r, db_mirrors d !! bid = Some r →
    bo_broker_order_id (mr_order r) = bid ∧ sql_mirror_checks (mr_order r) = true ∧
    is_Some (db_intents d !! bo_client_order_id (mr_order r));
  wf_mirror_clients : ∀ bid bid' r r', db_mirrors d !! bid = Some r →
    db_mirrors d !! bid' = Some r' →
    bo_client_order_id (mr_order r) = bo_client_order_id (mr_order r') → bid = bid';
  wf_executions : NoDup (fl_execution_id <$> db_fills d);
  wf_fills : ∀ f, f ∈ db_fills d →
    1 ≤ fl_quantity f ∧ is_Some (db_mirrors d !! fl_broker_order_id f);
  wf_control : cs_entries_paused (db_control d) = true ↔
    is_Some (cs_paused_reason (db_control d));
  wf_commands : NoDup (cc_command_id <$> db_commands d);
  wf_runs : NoDup (rn_run_id <$> db_runs d);
}.

(** ** Evolution *)

Record mirror_le (r r' : mirror_row) : Prop := {
  ml_order : mr_order r' = with_mirror (bo_status (mr_order r'))
               (bo_filled_quantity (mr_order r')) (bo_updated_at (mr_order r')) (mr_order r);
  ml_status : broker_reaches (bo_status (mr_order r)) (bo_status (mr_order r'));
  ml_filled : bo_filled_quantity (mr_order r) ≤ bo_filled_quantity (mr_order r');
  ml_watermark : ∀ t, mr_watermark r = Some t → ∃ t', mr_watermark r' = Some t' ∧ t ≤ t';
}.

Definition run_le (r r' : run_row) : Prop :=
  ∃ l, r' = foldl (λ r m, add_child m r) r l.

Record db_evolves (a b : db) : Prop := {
  ev_intents : ∀ cid i, db_intents a !! cid = Some i →
    ∃ s, db_intents b !! cid = Some (with_status s i) ∧ order_reaches (oi_status i) s;
  ev_mirrors : ∀ bid r, db_mirrors a !! bid = Some r →
    ∃ r', db_mirrors b !! bid = Some r' ∧ mirror_le r r';
  ev_fills : db_fills a `prefix_of` db_fills b;
  ev_generation :
    cs_flatten_generation (db_control a) ≤ cs_flatten_generation (db_control b);
  ev_commands : db_commands a `prefix_of` db_commands b;
  ev_runs : ∀ k r, db_runs a !! k = Some r → ∃ r', db_runs b !! k = Some r' ∧ run_le r r';
  ev_baselines : db_baselines a `prefix_of` db_baselines b;
  ev_genesis : db_genesis a ⊆ db_genesis b;
}.

Lemma with_status_id i : with_status (oi_status i) i = i.
Proof. by destruct i. Qed.
Lemma with_status_twice s t i : with_status s (with_status t i) = with_status s i.
Proof. done. Qed.
Lemma with_mirror_id o : with_mirror (bo_status o) (bo_filled_quantity o) (bo_updated_at o) o = o.
Proof. by destruct o. Qed.

#[export] Instance mirror_le_preorder : PreOrder mirror_le.
Proof.
  split.
  - intros r. split; [by rewrite with_mirror_id|apply rtc_refl|done|naive_solver lia].
  - intros r s t [H1 H2 H3 H4] [K1 K2 K3 K4]. split.
    + rewrite K1, H1. done.
    + by etrans.
    + lia.
    + intros u Hu. destruct (H4 u Hu) as (v & Hv & ?). destruct (K4 v Hv) as (x & Hx & ?).
      exists x. split; [done|lia].
Qed.

#[export] Instance run_le_preorder : PreOrder run_le.
Proof.
  split.
  - intros r. by exists [].
  - intros r s t [l ->] [k ->]. exists (l ++ k). by rewrite foldl_app.
Qed.

#[export] Instance db_evolves_preorder : PreOrder db_evolves.
Proof.
  split.
  - intros d. split; try done.
    + intros cid i Hi. exists (oi_status i). by rewrite with_status_id.
    + intros bid r Hr. by exists r.
    + intros k r Hr. by exists r.
  - intros a b c [] []. split; try (by etrans); try lia.
    + intros cid i (s & Hs & Hr)%ev_intents0. apply ev_intents1 in Hs as (t & Ht & Hr').
      exists t. split; [done|]. by trans s.
    + intros bid r (r' & Hr' & ?)%ev_mirrors0. apply ev_mirrors1 in Hr' as (r'' & Hr'' & ?).
      exists r''. split; [done|]. by trans r'.
    + intros k r (r' & Hr' & ?)%ev_runs0. apply ev_runs1 in Hr' as (r'' & Hr'' & ?).
      exists r''. split; [done|]. by trans r'.
Qed.

(** ** Statements keep integrity and evolve the database *)

Definition sql_ok {A} (f : Z → db → outcome (A * db)) : Prop :=
  ∀ t d a d', db_wf d → f t d = Ok (a, d') → db_wf d' ∧ db_evolves d d'.

Lemma sql_check_bind {A} b (k : unit → outcome A) r :
  (sql_check b ≫= k) = Ok r → b = true ∧ k () = Ok r.
Proof. unfold sql_check, guard_that. by destruct b. Qed.

Lemma elem_of_intent_rows d i :
  i ∈ intent_rows d ↔ ∃ cid, db_intents d !! cid = Some i.
Proof.
  unfold intent_rows. rewrite list_elem_of_fmap. split.
  - intros ([cid j] & -> & Hj%elem_of_map_to_list). by exists cid.
  - intros (cid & Hi). exists (cid, i). split; [done|]. by apply elem_of_map_to_list.
Qed.

Lemma elem_of_mirror_rows d r :
  r ∈ mirror_rows d ↔ ∃ bid, db_mirrors d !! bid = Some r.
Proof.
  unfold mirror_rows. rewrite list_elem_of_fmap. split.
  - intros ([bid j] & -> & Hj%elem_of_map_to_list). by exists bid.
  - intros (bid & Hi). exists (bid, r). split; [done|]. by apply elem_of_map_to_list.
Qed.

Lemma head_filter_None {A} (P : A → Prop) {HD : ∀ x, Decision (P x)} l :
  head (filter P l) = None ↔ ∀ x, x ∈ l → ¬ P x.
Proof.
  split.
  - intros H x Hx HP. destruct (filter P l) as [|y k] eqn:E; [|done].
    assert (x ∈ filter P l) as Hin by (by apply list_elem_of_filter). rewrite E in Hin.
    by apply elem_of_nil in Hin.
  - intros H. destruct (filter P l) as [|y k] eqn:E; [done|].
    assert (y ∈ filter P l) as Hin by (rewrite E; by left).
    apply list_elem_of_filter in Hin as [HP Hy]. by destruct (H y Hy).
Qed.

Lemma head_filter_Some {A} (P : A → Prop) {HD : ∀ x, Decision (P x)} l x :
  head (filter P l) = Some x → x ∈ l ∧ P x.
Proof.
  intros H. destruct (filter P l) as [|y k] eqn:E; [done|]. simplify_eq/=.
  assert (x ∈ filter P l) as Hin by (rewrite E; by left).
  apply list_elem_of_filter in Hin as [HP Hy]. done.
Qed.

Lemma mirror_by_client_None d cid :
  mirror_by_client cid d = None ↔
  ∀ bid r, db_mirrors d !! bid = Some r → bo_client_order_id (mr_order r) ≠ cid.
Proof.
  unfold mirror_by_client. rewrite head_filter_None. split.
  - intros H bid r Hr. apply H, elem_of_mirror_rows. by exists bid.
  - intros H r (bid & Hr)%elem_of_mirror_rows. by eapply H.
Qed.

Lemma mirror_by_client_Some d cid r :
  mirror_by_client cid d = Some r →
  bo_client_order_id (mr_order r) = cid ∧ ∃ bid, db_mirrors d !! bid = Some r.
Proof.
  intros [Hr Hc]%head_filter_Some. split; [done|]. by apply elem_of_mirror_rows.
Qed.

Lemma mirror_by_client_wf d cid bid r :
  db_wf d → db_mirrors d !! bid = Some r → bo_client_order_id (mr_order r) = cid →
  mirror_by_client cid d = Some r.
Proof.
  intros Hwf Hr Hc. destruct (mirror_by_client cid d) as [r'|] eqn:E.
  - apply mirror_by_client_Some in E as [Hc' (bid' & Hr')].
    assert (bid = bid') as -> by (eapply (wf_mirror_clients d); eauto; congruence). congruence.
  - rewrite mirror_by_client_None in E. by destruct (E bid r).
Qed.

Lemma sql_query_ok {A} (f : db → A) : sql_ok (λ _ d, Ok (f d, d)).
Proof. intros t d a d' Hwf [= <- <-]. done. Qed.

(** Databases that differ in one table. *)
Lemma evolves_intents d m :
  (∀ cid i, db_intents d !! cid = Some i →
    ∃ s, m !! cid = Some (with_status s i) ∧ order_reaches (oi_status i) s) →
  db_evolves d (set_intents m d).
Proof.
  intros H. split; simpl; try done; intros k r Hr; by exists r.
Qed.

Lemma evolves_mirrors d m :
  (∀ bid r, db_mirrors d !! bid = Some r → ∃ r', m !! bid = Some r' ∧ mirror_le r r') →
  db_evolves d (set_mirrors m d).
Proof.
  intros H. split; simpl; try done.
  - intros cid i Hi. exists (oi_status i). by rewrite with_status_id.
  - intros k r Hr; by exists r.
Qed.

(** The tables of [d'] other than intents and mirrors extend those of [d]. *)
Lemma evolves_logs d d' :
  db_intents d' = db_intents d → db_mirrors d' = db_mirrors d →
  db_fills d `prefix_of` db_fills d' →
  cs_flatten_generation (db_control d) ≤ cs_flatten_generation (db_control d') →
  db_commands d `prefix_of` db_commands d' →
  (∀ k r, db_runs d !! k = Some r → ∃ r', db_runs d' !! k = Some r' ∧ run_le r r') →
  db_baselines d `prefix_of` db_baselines d' → db_genesis d ⊆ db_genesis d' →
  db_evolves d d'.
Proof.
  intros Hi Hm Hf Hg Hc Hr Hb Hgen. split; try done.
  - intros cid i Hcid. exists (oi_status i). by rewrite with_status_id, Hi.
  - intros bid r Hbid. exists r. by rewrite Hm.
Qed.

Ltac same_runs := intros k r Hr; by exists r.

Lemma sql_insert_intent_ok i : sql_ok (sql_insert_intent i).
Proof.
  intros t d a d' Hwf H. unfold sql_insert_intent in H.
  apply sql_check_bind in H as [Hck H].
  destruct (db_intents d !! oi_client_order_id i) as [j|] eqn:Hi; [by simplify_eq|].
  apply sql_check_bind in H as [Hid H]. injection H as <- <-.
  set (row := with_created_at t i).
  split.
  - destruct Hwf as [H1 H2 H3 H4 H5 H6 H7 H8 H9]. split; simpl; try done.
    + intros cid r [[<- <-]|[_ Hr]]%lookup_insert_Some; [split; [done|exact Hck]|by apply H1].
    + rewrite forallb_forall in Hid.
      assert (Hfresh : ∀ cid r, db_intents d !! cid = Some r → oi_intent_id r ≠ oi_intent_id i).
      { intros cid r Hr. specialize (Hid r). rewrite negb_true_iff, N.eqb_neq in Hid.
        apply Hid, list_elem_of_In, elem_of_intent_rows. by exists cid. }
      intros cid cid' r r' [[<- <-]|Hr]%lookup_insert_Some [[<- <-]|Hr']%lookup_insert_Some Heq;
        [done| | |].
      * destruct Hr' as [_ Hr']. by destruct (Hfresh _ _ Hr').
      * destruct Hr as [_ Hr]. by destruct (Hfresh _ _ Hr).
      * destruct Hr as [_ Hr], Hr' as [_ Hr']. by eapply H2.
    + intros bid r Hr. destruct (H3 bid r Hr) as (? & ? & [j Hj]).
      split_and!; [done..|]. rewrite lookup_insert_ne; [by eexists|]. congruence.
  - apply evolves_intents. intros cid r Hr. exists (oi_status r).
    rewrite with_status_id, lookup_insert_ne by congruence. split; [done|apply rtc_refl].
Qed.

Lemma sql_update_intent_status_ok cid target : sql_ok (sql_update_intent_status cid target).
Proof.
  intros t d a d' Hwf H. unfold sql_update_intent_status in H.
  destruct (db_intents d !! cid) as [i|] eqn:Hi; [|by simplify_eq].
  apply sql_check_bind in H as [Hck H]. injection H as <- <-.
  assert (Hlk : ∀ c j, <[cid:=with_status target i]> (db_intents d) !! c = Some j →
    ∃ j', db_intents d !! c = Some j' ∧ j = with_status (oi_status j) j').
  { intros c j Hj. destruct (decide (c = cid)) as [->|Hne].
    - rewrite lookup_insert_eq in Hj. simplify_eq. exists i. done.
    - rewrite lookup_insert_ne in Hj by done. exists j. by rewrite with_status_id. }
  split.
  - destruct Hwf as [H1 H2 H3 H4 H5 H6 H7 H8 H9]. split; simpl; try done.
    + intros c j (j' & Hj' & ->)%Hlk. destruct (H1 c j' Hj') as [? ?]. done.
    + intros c c' j j' (k & Hk & ->)%Hlk (k' & Hk' & ->)%Hlk Heq. by eapply H2.
    + intros bid r Hr. destruct (H3 bid r Hr) as (? & ? & Hj). split_and!; [done..|].
      destruct (decide (bo_client_order_id (mr_order r) = cid)) as [->|].
      * rewrite lookup_insert_eq. by eexists.
      * by rewrite lookup_insert_ne.
  - apply evolves_intents. intros c j Hj. destruct (decide (c = cid)) as [->|Hne].
    + rewrite lookup_insert_eq. exists target. split; [congruence|]. simplify_eq.
      unfold sql_intent_update_ok in Hck. apply orb_true_iff in Hck as [Hck|Hck].
      * apply bool_decide_eq_true in Hck as ->. apply rtc_refl.
      * by apply rtc_once.
    + rewrite lookup_insert_ne by done. exists (oi_status j). rewrite with_status_id.
      split; [done|apply rtc_refl].
Qed.

Lemma sql_insert_mirror_ok o : sql_ok (sql_insert_mirror o).
Proof.
  intros t d a d' Hwf H. unfold sql_insert_mirror in H. apply sql_check_bind in H as [Hck H].
  destruct (db_mirrors d !! bo_broker_order_id o) as [r|] eqn:Hr; [by simplify_eq|].
  destruct (mirror_by_client (bo_client_order_id o) d) as [r|] eqn:Hc; [by simplify_eq|].
  apply sql_check_bind in H as [Hfk H]. injection H as <- <-.
  rewrite mirror_by_client_None in Hc. apply bool_decide_eq_true in Hfk.
  set (row := mk_mirror o (Some (bo_updated_at o))).
  assert (Hlk : ∀ b j, <[bo_broker_order_id o:=row]> (db_mirrors d) !! b = Some j →
    (b = bo_broker_order_id o ∧ j = row) ∨ (b ≠ bo_broker_order_id o ∧ db_mirrors d !! b = Some j)).
  { intros b j Hj. destruct (decide (b = bo_broker_order_id o)) as [->|Hne].
    - rewrite lookup_insert_eq in Hj. simplify_eq. auto.
    - rewrite lookup_insert_ne in Hj by done. auto. }
  split.
  - destruct Hwf as [H1 H2 H3 H4 H5 H6 H7 H8 H9]. split; simpl; try done.
    + intros b j [[-> ->]|[_ Hj]]%Hlk; [done|by apply H3].
    + intros b b' j j' [[-> ->]|[Hne Hj]]%Hlk [[-> ->]|[Hne' Hj']]%Hlk Heq; [done| | |by eapply H4].
      * by destruct (Hc _ _ Hj').
      * by destruct (Hc _ _ Hj).
    + intros f Hf. destruct (H6 f Hf) as [? [j Hj]]. split; [done|].
      rewrite lookup_insert_ne by congruence. by eexists.
  - apply evolves_mirrors. intros b j Hj. exists j. rewrite lookup_insert_ne by congruence. done.
Qed.

Lemma broker_reaches_step a b :
  bool_decide (a = b) || broker_order_transition_allowed a b = true → broker_reaches a b.
Proof.
  intros [->%bool_decide_eq_true|H]%orb_true_iff; [apply rtc_refl|by apply rtc_once].
Qed.

Lemma sql_mirror_update_spec old st f obs :
  sql_mirror_update_ok old st f obs = true →
  broker_reaches (bo_status (mr_order old)) st ∧ bo_filled_quantity (mr_order old) ≤ f ∧
  0 ≤ f ≤ bo_quantity (mr_order old) ∧
  (st = BrokerOrderStatus.FILLED → f = bo_quantity (mr_order old)) ∧
  (∀ a b, mr_watermark old = Some a → obs = Some b → a ≤ b).
Proof.
  unfold sql_mirror_update_ok.
  intros [[[[[Hs Hm]%andb_true_iff H0]%andb_true_iff H1]%andb_true_iff Hx]%andb_true_iff
          Hw]%andb_true_iff.
  apply broker_reaches_step in Hs. apply Z.leb_le in Hm, H0, H1. split_and!; try done.
  - intros ->. rewrite bool_decide_true in Hx by done. by apply Z.eqb_eq.
  - intros a b Ha ->. rewrite Ha in Hw. by apply Z.leb_le.
Qed.

Lemma sql_update_mirror_ok bid st f obs : sql_ok (sql_update_mirror bid st f obs).
Proof.
  intros t d a d' Hwf H. unfold sql_update_mirror in H.
  destruct (db_mirrors d !! bid) as [old|] eqn:Hold; [|by simplify_eq].
  apply sql_check_bind in H as [Hck H]. injection H as <- <-.
  apply sql_mirror_update_spec in Hck as (Hst & Hmono & Hrange & Hfull & Hwm).
  set (row := mk_mirror _ _).
  assert (Hlk : ∀ b j, <[bid:=row]> (db_mirrors d) !! b = Some j →
    ∃ j', db_mirrors d !! b = Some j' ∧
      bo_broker_order_id (mr_order j) = bo_broker_order_id (mr_order j') ∧
      bo_client_order_id (mr_order j) = bo_client_order_id (mr_order j') ∧
      (sql_mirror_checks (mr_order j') = true → sql_mirror_checks (mr_order j) = true)).
  { intros b j Hj. destruct (decide (b = bid)) as [->|Hne].
    - rewrite lookup_insert_eq in Hj. injection Hj as <-. exists old. split_and!; try done.
      unfold sql_mirror_checks, sql_filled_exactly. simpl.
      repeat rewrite andb_true_iff. rewrite !Z.leb_le, !orb_true_iff, !negb_true_iff,
        !bool_decide_eq_false, !Z.eqb_eq. intros [[[[[[[[? ?] ?] ?] ?] ?] ?] ?] ?].
      split_and!; try done; try lia.
      destruct (decide (st = BrokerOrderStatus.FILLED)) as [Hf|]; [right; by apply Hfull|by left].
    - rewrite lookup_insert_ne in Hj by done. exists j. done. }
  split.
  - destruct Hwf as [H1 H2 H3 H4 H5 H6 H7 H8 H9]. split; simpl; try done.
    + intros b j (j' & Hj' & -> & -> & Hchk)%Hlk. destruct (H3 b j' Hj') as (? & ? & ?). auto.
    + intros b b' j j' (k & Hk & _ & -> & _)%Hlk (k' & Hk' & _ & -> & _)%Hlk. by apply H4.
    + intros g Hg. destruct (H6 g Hg) as [? [j Hj]]. split; [done|].
      destruct (decide (fl_broker_order_id g = bid)) as [->|].
      * rewrite lookup_insert_eq. by eexists.
      * rewrite lookup_insert_ne by done. by eexists.
  - apply evolves_mirrors. intros b j Hj. destruct (decide (b = bid)) as [->|Hne].
    + rewrite lookup_insert_eq. exists row. simplify_eq. split; [done|]. split; try done.
      intros u Hu. simpl. destruct obs as [o|]; [|exists u; split; [done|lia]].
      exists o. split; [done|]. by apply (Hwm u o).
    + rewrite lookup_insert_ne by done. exists j. done.
Qed.

Lemma sql_insert_fill_ok f : sql_ok (sql_insert_fill f).
Proof.
  intros t d a d' Hwf H. unfold sql_insert_fill in H. apply sql_check_bind in H as [Hck H].
  destruct (fill_by_execution (fl_execution_id f) d) eqn:Hf; [by simplify_eq|].
  apply sql_check_bind in H as [Hfk H]. injection H as <- <-.
  unfold fill_by_execution in Hf. rewrite head_filter_None in Hf.
  apply bool_decide_eq_true in Hfk. rewrite !andb_true_iff, !Z.leb_le in Hck.
  split; [|apply evolves_logs; simpl; try done; [by apply prefix_app_r|same_runs]].
  destruct Hwf as [H1 H2 H3 H4 H5 H6 H7 H8 H9]. split; simpl; try done.
  - rewrite fmap_app. apply NoDup_app. split_and!; [done| |apply NoDup_singleton].
    intros x (g & -> & Hg)%list_elem_of_fmap Hx%list_elem_of_singleton. by apply (Hf g).
  - intros g [Hg| ->%list_elem_of_singleton]%elem_of_app; [by apply H6|]. split; [lia|done].
Qed.

Lemma sql_insert_run_ok r : sql_ok (sql_insert_run r).
Proof.
  intros t d a d' Hwf H. unfold sql_insert_run in H. apply sql_check_bind in H as [Hck H].
  injection H as <- <-. rewrite !andb_true_iff, forallb_forall in Hck. destruct Hck as [_ Hck].
  split.
  - destruct Hwf as [H1 H2 H3 H4 H5 H6 H7 H8 H9]. split; simpl; try done.
    rewrite fmap_app. apply NoDup_app. split_and!; [done| |apply NoDup_singleton].
    intros x (g & -> & Hg)%list_elem_of_fmap Hx%list_elem_of_singleton.
    apply list_elem_of_In, Hck in Hg. simpl in Hx. rewrite negb_true_iff, N.eqb_neq in Hg. done.
  - apply evolves_logs; simpl; try done. intros k x Hx. exists x. split; [|done].
    by apply lookup_app_l_Some.
Qed.

Lemma sql_insert_mismatch_ok i m : sql_ok (sql_insert_mismatch i m).
Proof.
  intros t d a d' Hwf H. unfold sql_insert_mismatch in H. apply sql_check_bind in H as [Hck H].
  injection H as <- <-.
  set (g := λ r, if (rn_run_id r =? i)%N then add_child m r else r).
  split.
  - destruct Hwf as [H1 H2 H3 H4 H5 H6 H7 H8 H9]. split; simpl; try done.
    rewrite <-list_fmap_compose. rewrite (list_fmap_ext _ rn_run_id (db_runs d)); [done|].
    intros k r _. unfold compose, g. simpl. by destruct (rn_run_id r =? i)%N.
  - apply evolves_logs; simpl; try done. intros k r Hr. exists (g r).
    rewrite list_lookup_fmap, Hr. split; [done|]. unfold g.
    destruct (rn_run_id r =? i)%N; [by exists [m]|done].
Qed.

Lemma set_control_ok d c :
  db_wf d → (cs_entries_paused c = true ↔ is_Some (cs_paused_reason c)) →
  cs_flatten_generation (db_control d) ≤ cs_flatten_generation c →
  db_wf (set_control c d) ∧ db_evolves d (set_control c d).
Proof.
  intros [] Hc Hg. split; [by split|]. apply evolves_logs; simpl; try done. same_runs.
Qed.

Lemma sql_pause_entries_ok r : sql_ok (sql_pause_entries r).
Proof.
  intros t d a d' Hwf H. unfold sql_pause_entries in H. destruct r as [r|]; [|done].
  destruct (_ && _); [|done]. injection H as <- <-.
  apply set_control_ok; [done| |simpl; lia]. split; [by eexists|done].
Qed.

Lemma sql_resume_entries_ok : sql_ok sql_resume_entries.
Proof.
  intros t d a d' Hwf H. unfold sql_resume_entries, guard_that in H.
  destruct (latest_run d); [|done]. destruct (_ && _); [|done]. simpl in H.
  destruct (forallb _ _); [|done]. simpl in H. injection H as <- <-.
  apply set_control_ok; [done| |simpl; lia]. simpl. split; [done|by intros [? ?]].
Qed.

Lemma sql_bump_ok : sql_ok sql_bump_flatten_generation.
Proof.
  intros t d a d' Hwf H. unfold sql_bump_flatten_generation in H.
  apply sql_check_bind in H as [_ H]. injection H as <- <-.
  apply set_control_ok; [done| |simpl; lia]. apply Hwf.
Qed.

Lemma sql_insert_command_ok c : sql_ok (sql_insert_command c).
Proof.
  intros t d a d' Hwf H. unfold sql_insert_command in H. apply sql_check_bind in H as [_ H].
  destruct (command_by_id (cc_command_id c) d) eqn:Hc; [by simplify_eq|]. injection H as <- <-.
  unfold command_by_id in Hc. rewrite head_filter_None in Hc.
  split; [|apply evolves_logs; simpl; try done; [by apply prefix_app_r|same_runs]].
  destruct Hwf as [H1 H2 H3 H4 H5 H6 H7 H8 H9]. split; simpl; try done.
  rewrite fmap_app. apply NoDup_app. split_and!; [done| |apply NoDup_singleton].
  intros x (g & -> & Hg)%list_elem_of_fmap Hx%list_elem_of_singleton. by apply (Hc g).
Qed.

Lemma sql_insert_genesis_ok b : sql_ok (sql_insert_genesis b).
Proof.
  intros t d a d' Hwf H. unfold sql_insert_genesis in H. apply sql_check_bind in H as [Hck H].
  injection H as <- <-. apply andb_true_iff in Hck as [_ Hck%bool_decide_eq_true].
  split; [destruct Hwf; by split|]. apply evolves_logs; simpl; try done; [same_runs|].
  by apply insert_subseteq.
Qed.

Lemma sql_insert_revision_ok b : sql_ok (sql_insert_revision b).
Proof.
  intros t d a d' Hwf H. unfold sql_insert_revision in H. apply sql_check_bind in H as [_ H].
  injection H as <- <-. split; [destruct Hwf; by split|].
  apply evolves_logs; simpl; try done; [same_runs|by apply prefix_app_r].
Qed.

(** ** Evolution of worlds *)

Section evolves.
Context {E : Env} {B : Type}.
Implicit Types (w : world B).

(** The transaction's view extends what is durable, and both are sound. *)
Definition coherent w : Prop :=
  db_wf (w_committed w) ∧ db_wf (w_work w) ∧ db_evolves (w_committed w) (w_work w).

(** Whatever happens between two states, coherence is kept and the durable
    database evolves. *)
Definition evolves w w' : Prop :=
  coherent w → coherent w' ∧ db_evolves (w_committed w) (w_committed w').

#[global] Instance evolves_preorder : PreOrder evolves.
Proof.
  split.
  - by intros w Hw.
  - intros w1 w2 w3 H12 H23 H1. destruct (H12 H1) as [H2 Hev]. destruct (H23 H2) as [H3 Hev'].
    split; [done|]. by etrans.
Qed.

Lemma evolves_same w w' :
  w_work w' = w_work w → w_committed w' = w_committed w → evolves w w'.
Proof. unfold evolves, coherent. by intros -> ->. Qed.

Lemma evolves_reset w w' :
  w_work w' = w_committed w → w_committed w' = w_committed w → evolves w w'.
Proof. unfold evolves, coherent. intros -> -> (Hc & _ & _). done. Qed.

Lemma evolves_commit w w' :
  w_work w' = w_work w → w_committed w' = w_work w → evolves w w'.
Proof. unfold evolves, coherent. intros -> -> (Hc & Hw & He). done. Qed.

Lemma stmt_evolves {A} (f : Z → db → outcome (A * db)) :
  sql_ok f → pres evolves (stmt (B:=B) f).
Proof.
  intros Hf w. unfold stmt, require_connection, next_stmt, act, mbind, M_bind, guard_that.
  destruct (w_open w); [|done]. simpl. destruct (w_broken w); [by apply evolves_same|].
  destruct (w_aborted w); [by apply evolves_same|].
  destruct (env_fault (w_stmt w)); simpl; [|by apply evolves_same..].
  destruct (f _ (w_work w)) as [[a d]|e] eqn:Hfd; [|by apply evolves_same].
  intros (Hc & Hw & He). destruct (Hf _ _ _ _ Hw Hfd) as [Hwf Hev]. unfold coherent. simpl.
  split; [|done]. split_and!; [done..|]. by trans (w_work w).
Qed.

Lemma persist_safety_pause_evolves reason : pres evolves (persist_safety_pause (B:=B) reason).
Proof.
  intros w. unfold persist_safety_pause, next_stmt, act, mbind, M_bind. simpl.
  set (w1 := with_counters _ _ _ _).
  assert (Hsame : ∀ o : outcome unit, evolves w (o, w1).2) by (by intros; apply evolves_same).
  destruct (env_fault (w_stmt w)), (env_fault (S (w_stmt w))), (env_fault (S (S (w_stmt w))));
    try apply Hsame. unfold sql_pause_entries.
  destruct (_ && _); [|apply Hsame].
  set (c := pause_row _ _ _). set (w2 := with_tx _ _ _ _ _ _ _).
  assert (H2 : evolves w w2).
  { intros (Hc & Hw & He). unfold coherent. simpl.
    assert (Hpause : cs_entries_paused c = true ↔ is_Some (cs_paused_reason c))
      by (split; [by eexists|done]).
    destruct (set_control_ok (w_committed w) c Hc Hpause) as [Hc' He']; [simpl; lia|].
    split; [|done]. pose proof (ev_generation _ _ He) as Hg.
    assert (Hsc : ∀ d, db_evolves (w_committed w) d →
      cs_flatten_generation (db_control (w_committed w)) ≤ cs_flatten_generation (db_control d) →
      db_evolves (set_control c (w_committed w)) d).
    { intros d [] Hgd. by split. }
    assert (Hwc : db_wf (set_control c (w_work w))) by (destruct Hw; by split).
    destruct (w_repeatable w); (split_and!; [done|done|]); apply Hsc; try done.
    - destruct He. by split. }
  destruct (env_fault (S (S (S (w_stmt w))))); [exact H2|apply Hsame|exact H2].
Qed.

#[global] Instance evolves_transactional : Transactional evolves.
Proof.
  split; [apply _|..]; intros;
    [by apply evolves_same|by apply evolves_reset|by apply evolves_commit].
Qed.
#[global] Instance evolves_stable : Stable evolves.
Proof.
  split; [apply _|..]; intros; try apply stmt_evolves; first
    [ apply sql_insert_intent_ok | apply sql_update_intent_status_ok | apply sql_insert_mirror_ok
    | apply sql_update_mirror_ok | apply sql_insert_fill_ok | apply sql_insert_run_ok
    | apply sql_insert_mismatch_ok | apply sql_pause_entries_ok | apply sql_bump_ok
    | apply sql_insert_command_ok | apply sql_insert_genesis_ok | apply sql_insert_revision_ok
    | apply persist_safety_pause_evolves ].
Qed.
#[global] Instance evolves_resume : StableResume evolves.
Proof. apply stmt_evolves, sql_resume_entries_ok. Qed.

Context `{!PaperBroker B}.

Lemma log_event_evolves f : pres evolves (log_event (B:=B) f).
Proof. apply modify_stable; [apply _|]. intros w. by apply evolves_same. Qed.
#[global] Instance evolves_submit : StableSubmit evolves.
Proof.
  intros i. unfold broker_submit. apply pres_bind; [apply _|apply log_event_evolves|intros _].
  apply call_stable, _.
Qed.
#[global] Instance evolves_cancel : StableCancel evolves.
Proof.
  intros i. unfold broker_cancel. apply pres_bind; [apply _|apply log_event_evolves|intros _].
  apply call_stable, _.
Qed.
End evolves.
