(* ===== verification/Clean.v ===== *)
(** * Traces and clean transactions

    Two bookkeeping facts about programs over a world.  [keeps_trace m]: [m]
    asks the broker neither to submit nor to cancel.  [keeps_clean m] and
    [ok_clean m]: when [m] returns, the open transaction holds nothing that is
    not durable - given that it did before, or in any case. *)

From S2P Require Import Prelude Text Orders Contracts BrokerPort Store Repos Stable.
Local Open Scope Z_scope.

Section defs.
Context {B : Type}.
Implicit Types (w : world B).

Definition same_trace w w' : Prop := w_trace w' = w_trace w.
#[global] Instance same_trace_preorder : PreOrder same_trace.
Proof. split; unfold same_trace; [done|]. intros x y z H1 H2. by rewrite H2. Qed.

Definition clean w : Prop := w_work w = w_committed w ∧ w_aborted w = false.

Definition keeps_clean {A} (m : M (world B) A) : Prop :=
  ∀ w, clean w → ∀ a, (m w).1 = Ok a → clean (m w).2.
Definition ok_clean {A} (m : M (world B) A) : Prop :=
  ∀ w a, (m w).1 = Ok a → clean (m w).2.

Lemma ok_keeps {A} (m : M (world B) A) : ok_clean m → keeps_clean m.
Proof. intros H w _ a. apply H. Qed.

Lemma ok_throw {A} c msg : ok_clean (throw (A:=A) c msg).
Proof. by intros w a. Qed.
Lemma ok_rethrow {A} e : ok_clean (rethrow (A:=A) e).
Proof. by intros w a. Qed.
Lemma keeps_ret {A} (a : A) : keeps_clean (mret a).
Proof. by intros w Hw b _. Qed.
Lemma keeps_lift {A} (o : outcome A) : keeps_clean (lift o).
Proof. by intros w Hw b _. Qed.
Lemma keeps_gets {A} (f : world B → A) : keeps_clean (gets f).
Proof. by intros w Hw b _. Qed.

Lemma ok_bind_r {A C} (m : M (world B) A) (f : A → M (world B) C) :
  (∀ a, ok_clean (f a)) → ok_clean (m ≫= f).
Proof.
  intros Hf w c. unfold mbind, M_bind. destruct (m w) as [[a|e] w']; [apply Hf|done].
Qed.
Lemma ok_bind_l {A C} (m : M (world B) A) (f : A → M (world B) C) :
  ok_clean m → (∀ a, keeps_clean (f a)) → ok_clean (m ≫= f).
Proof.
  intros Hm Hf w c. unfold mbind, M_bind. specialize (Hm w).
  destruct (m w) as [[a|e] w']; [|done]. apply Hf. by eapply Hm.
Qed.
Lemma keeps_bind {A C} (m : M (world B) A) (f : A → M (world B) C) :
  keeps_clean m → (∀ a, keeps_clean (f a)) → keeps_clean (m ≫= f).
Proof.
  intros Hm Hf w Hw c. unfold mbind, M_bind. specialize (Hm w Hw).
  destruct (m w) as [[a|e] w']; [|done]. apply Hf. by eapply Hm.
Qed.
Lemma ok_catch {A} (m : M (world B) A) h :
  ok_clean m → (∀ e, ok_clean (h e)) → ok_clean (catch m h).
Proof.
  intros Hm Hh w c. unfold catch. specialize (Hm w). destruct (m w) as [[a|e] w'].
  - intros [= <-]. by eapply Hm.
  - apply Hh.
Qed.
Lemma keeps_catch {A} (m : M (world B) A) h :
  keeps_clean m → (∀ e, ok_clean (h e)) → keeps_clean (catch m h).
Proof.
  intros Hm Hh w Hw c. unfold catch. specialize (Hm w Hw). destruct (m w) as [[a|e] w'].
  - intros [= <-]. by eapply Hm.
  - apply Hh.
Qed.
Lemma ok_try {A C} (m : M (world B) A) (h : exn → M (world B) C) k :
  (∀ e, ok_clean (h e)) → (∀ a, ok_clean (k a)) → ok_clean (try_else m h k).
Proof.
  intros Hh Hk w c. unfold try_else. destruct (m w) as [[a|e] w']; [apply Hk|apply Hh].
Qed.
Lemma keeps_try {A C} (m : M (world B) A) (h : exn → M (world B) C) k :
  keeps_clean m → (∀ e, ok_clean (h e)) → (∀ a, keeps_clean (k a)) →
  keeps_clean (try_else m h k).
Proof.
  intros Hm Hh Hk w Hw c. unfold try_else. specialize (Hm w Hw).
  destruct (m w) as [[a|e] w']; [|apply Hh]. apply Hk. by eapply Hm.
Qed.
Lemma keeps_foldM {A C} (f : C → A → M (world B) C) :
  (∀ c x, keeps_clean (f c x)) → ∀ l c, keeps_clean (foldM f c l).
Proof.
  intros Hf l. induction l as [|x l IH]; intros c; simpl; [apply keeps_ret|].
  apply keeps_bind; auto.
Qed.
Lemma keeps_mapM {A C} (f : A → M (world B) C) :
  (∀ x, keeps_clean (f x)) → ∀ l, keeps_clean (mapM f l).
Proof.
  intros Hf l. induction l as [|x l IH]; simpl; [apply keeps_ret|].
  apply keeps_bind; [done|]. intros y. apply keeps_bind; [done|]. intros k. apply keeps_ret.
Qed.
End defs.

(** ** Primitives *)

Section prims.
Context {E : Env} {B : Type}.
Implicit Types (w : world B).

(** What one statement does. *)
Lemma stmt_cases {A} (f : Z → db → outcome (A * db)) w :
  (∃ t a d, w_aborted w = false ∧ f t (w_work w) = Ok (a, d) ∧ (stmt f w).1 = Ok a ∧
     w_work (stmt f w).2 = d ∧ w_committed (stmt f w).2 = w_committed w ∧
     w_aborted (stmt f w).2 = false ∧ w_trace (stmt f w).2 = w_trace w) ∨
  (∃ e, (stmt f w).1 = Raise e ∧ w_work (stmt f w).2 = w_work w ∧
     w_committed (stmt f w).2 = w_committed w ∧ w_trace (stmt f w).2 = w_trace w).
Proof.
  unfold stmt, require_connection, next_stmt, act, mbind, M_bind, guard_that.
  destruct (w_open w); simpl; [|by right; eexists].
  destruct (w_broken w); [by right; eexists|]. destruct (w_aborted w) eqn:Ha;
    [by right; eexists|].
  destruct (env_fault (w_stmt w)); simpl; [|by right; eexists..].
  destruct (f (env_stamp (w_stmt w)) (w_work w)) as [[a d]|e] eqn:Hf; [|by right; eexists].
  left. exists (env_stamp (w_stmt w)), a, d. simpl. rewrite Ha. done.
Qed.

Lemma stmt_same_trace {A} (f : Z → db → outcome (A * db)) : pres same_trace (stmt (B:=B) f).
Proof.
  intros w. unfold same_trace.
  by destruct (stmt_cases f w) as [(?&?&?&?&?&?&?&?&?&?)|(?&?&?&?&?)].
Qed.

(** A query that returns read the view and changed no table. *)
Lemma query_Ok {A} (f : db → A) w a w' :
  query f w = (Ok a, w') →
  a = f (w_work w) ∧ w_aborted w = false ∧ w_work w' = w_work w ∧
  w_committed w' = w_committed w ∧ w_aborted w' = false ∧ w_trace w' = w_trace w.
Proof.
  unfold query. intros H. destruct (stmt_cases (λ _ d, Ok (f d, d)) w)
    as [(t & b & d & Ha & Hf & Ho & Hw & Hc & Hab & Ht)|(e & Ho & _)];
    rewrite H in *; simpl in *; simplify_eq. done.
Qed.

Lemma stmt_Ok {A} (f : Z → db → outcome (A * db)) w a w' :
  stmt f w = (Ok a, w') →
  ∃ t, f t (w_work w) = Ok (a, w_work w') ∧ w_aborted w = false ∧
  w_committed w' = w_committed w ∧ w_aborted w' = false ∧ w_trace w' = w_trace w.
Proof.
  intros H. destruct (stmt_cases f w)
    as [(t & b & d & Ha & Hf & Ho & Hw & Hc & Hab & Ht)|(e & Ho & _)];
    rewrite H in *; simpl in *; simplify_eq. by exists t.
Qed.

Lemma query_keeps {A} (f : db → A) : keeps_clean (query (B:=B) f).
Proof.
  intros w [Hw Ha] a Ho. destruct (query f w) as [o w'] eqn:Hq. simpl in *. subst o.
  apply query_Ok in Hq as (_ & _ & Hw' & Hc & Ha' & _). split; congruence.
Qed.

(** A commit that returns made the view durable - unless the transaction had
    failed, in which case the server rolled it back. *)
Lemma commit_Ok w w' :
  commit w = (Ok (), w') →
  w_committed w' = (if w_aborted w then w_committed w else w_work w) ∧ clean w' ∧
  w_trace w' = w_trace w.
Proof.
  unfold commit, require_connection, guard_that, mbind, M_bind.
  destruct (w_open w); simpl; [|done].
  unfold connection_commit, next_stmt, act, mbind, M_bind. simpl.
  destruct (w_broken w); [done|].
  destruct (env_fault (w_stmt w)); try done. set (w1 := with_tx _ _ _ _ _ _ _).
  unfold set_local_utc_timezone. intros H.
  destruct (stmt (λ _ d, Ok ((), d)) w1) as [[[]|e] w2] eqn:Hs; [|done].
  apply stmt_Ok in Hs as (t & [= Hw2] & _ & Hc & Ha & Ht). unfold modify in H. simplify_eq/=.
  split; [by rewrite Hc|]. split; [|by rewrite Ht]. split; simpl; [|done]. by rewrite <-Hw2, Hc.
Qed.

Lemma commit_ok_clean : ok_clean (commit (B:=B)).
Proof.
  intros w [] H. destruct (commit w) as [o w'] eqn:Hc. simpl in *. subst o.
  by apply commit_Ok in Hc as (_ & ? & _).
Qed.

Lemma rollback_ok_clean : ok_clean (rollback (B:=B)).
Proof.
  intros w [] H. unfold rollback, require_connection, guard_that, mbind, M_bind in *.
  destruct (w_open w); simpl in *; [|done].
  unfold connection_rollback, next_stmt, act, mbind, M_bind in *. simpl in *.
  destruct (w_broken w); [done|]. destruct (env_fault (w_stmt w)); try done.
  revert H. set (w1 := with_tx _ _ _ _ _ _ _). unfold set_local_utc_timezone.
  destruct (stmt (λ _ d, Ok ((), d)) w1) as [[[]|e] w2] eqn:Hs; [|done]. intros _.
  apply stmt_Ok in Hs as (t & [= Hw2] & _ & Hc & Ha & Ht). split; simpl; [|done].
  by rewrite <-Hw2, Hc.
Qed.

Lemma clock_now_keeps : keeps_clean (clock_now (B:=B)).
Proof. by intros w Hw a _. Qed.
Lemma fresh_uuid_keeps : keeps_clean (fresh_uuid (B:=B)).
Proof. by intros w Hw a _. Qed.
Lemma next_stmt_keeps : keeps_clean (next_stmt (B:=B)).
Proof. by intros w Hw a _. Qed.
Lemma call_keeps {A} (m : broker_call B A) : keeps_clean (call m).
Proof. intros w Hw a. unfold call. by destruct (m (w_broker w)). Qed.
Lemma log_event_keeps f : keeps_clean (log_event (B:=B) f).
Proof. by intros w Hw a _. Qed.
Lemma mark_write_keeps : keeps_clean (mark_write (B:=B)).
Proof. by intros w Hw a _. Qed.

Lemma persist_safety_pause_same_trace r : pres same_trace (persist_safety_pause (B:=B) r).
Proof.
  intros w. unfold persist_safety_pause, next_stmt, act, mbind, M_bind, same_trace. simpl.
  repeat (case_match; simplify_eq/=; try done).
Qed.
#[global] Instance same_trace_transactional : Transactional (same_trace (B:=B)).
Proof. by split; [apply _|..]; intros. Qed.
#[global] Instance same_trace_stable : Stable (same_trace (B:=B)).
Proof.
  split; intros; first
    [ apply _ | apply stmt_same_trace | apply persist_safety_pause_same_trace ].
Qed.
#[global] Instance same_trace_resume : StableResume (same_trace (B:=B)).
Proof. apply stmt_same_trace. Qed.
End prims.

(** ** Automation: the transaction is clean when the program returns *)

Create HintDb clean discriminated.
#[export] Hint Constants Opaque : clean.
#[export] Hint Variables Opaque : clean.
#[export] Hint Resolve commit_ok_clean rollback_ok_clean clock_now_keeps fresh_uuid_keeps
  next_stmt_keeps call_keeps log_event_keeps mark_write_keeps query_keeps : clean.

Ltac clean_auto :=
  lazymatch goal with
  | |- ∀ _, _ => intro; clean_auto
  | |- ok_clean ((fun _ => _) _) => cbv beta; clean_auto
  | |- keeps_clean ((fun _ => _) _) => cbv beta; clean_auto
  | |- ok_clean (throw _ _) => apply ok_throw
  | |- ok_clean (rethrow _) => apply ok_rethrow
  | |- ok_clean (_ ≫= _) =>
      first [ solve [apply ok_bind_r; clean_auto]
            | apply ok_bind_l; [solve [clean_auto] | clean_auto] ]
  | |- ok_clean (catch _ _) => apply ok_catch; clean_auto
  | |- ok_clean (try_else _ _ _) => apply ok_try; clean_auto
  | |- ok_clean (match ?x with _ => _ end) => destruct x; clean_auto
  | |- ok_clean ((match ?x with _ => _ end) _) => destruct x; clean_auto
  | |- ok_clean (let _ := _ in _) => cbv zeta; clean_auto
  | |- ok_clean _ => solve [eauto with clean]
  | |- keeps_clean (mret _) => apply keeps_ret
  | |- keeps_clean (lift _) => apply keeps_lift
  | |- keeps_clean (gets _) => apply keeps_gets
  | |- keeps_clean (throw _ _) => apply ok_keeps, ok_throw
  | |- keeps_clean (rethrow _) => apply ok_keeps, ok_rethrow
  | |- keeps_clean (_ ≫= _) =>
      first [ apply keeps_bind; [solve [clean_auto] | solve [clean_auto]]
            | apply ok_keeps; clean_auto ]
  | |- keeps_clean (catch _ _) =>
      first [ apply keeps_catch; [solve [clean_auto] | solve [clean_auto]]
            | apply ok_keeps; clean_auto ]
  | |- keeps_clean (try_else _ _ _) =>
      first [ apply keeps_try; [solve [clean_auto] | solve [clean_auto] | solve [clean_auto]]
            | apply ok_keeps; clean_auto ]
  | |- keeps_clean (foldM _ _ _) => apply keeps_foldM; clean_auto
  | |- keeps_clean (mapM _ _) => apply keeps_mapM; clean_auto
  | |- keeps_clean (match ?x with _ => _ end) => destruct x; clean_auto
  | |- keeps_clean ((match ?x with _ => _ end) _) => destruct x; clean_auto
  | |- keeps_clean (let _ := _ in _) => cbv zeta; clean_auto
  | |- keeps_clean _ => first [solve [eauto with clean] | apply ok_keeps; solve [eauto with clean]]
  end.

(** ** Repositories *)

Section repos.
Context {E : Env} {B : Type}.

Lemma decode_keeps {A R} (f : R → outcome A) r : keeps_clean (decode (B:=B) f r).
Proof. unfold decode. clean_auto. Qed.
#[local] Hint Resolve decode_keeps : clean.
Lemma orders_get_keeps cid : keeps_clean (orders_get (B:=B) cid).
Proof. unfold orders_get. clean_auto. Qed.
Lemma list_by_status_keeps s : keeps_clean (list_by_status (B:=B) s).
Proof. unfold list_by_status. clean_auto. Qed.
Lemma get_broker_order_keeps cid : keeps_clean (get_broker_order (B:=B) cid).
Proof. unfold get_broker_order. clean_auto. Qed.
Lemma get_broker_order_by_id_keeps bid : keeps_clean (get_broker_order_by_id (B:=B) bid).
Proof. unfold get_broker_order_by_id. clean_auto. Qed.
Lemma get_fill_by_execution_id_keeps i : keeps_clean (get_fill_by_execution_id (B:=B) i).
Proof. unfold get_fill_by_execution_id. clean_auto. Qed.
Lemma orders_list_fills_keeps bid : keeps_clean (orders_list_fills (B:=B) bid).
Proof. unfold orders_list_fills. clean_auto. Qed.
Lemma list_open_broker_orders_keeps : keeps_clean (list_open_broker_orders (B:=B)).
Proof. unfold list_open_broker_orders. clean_auto. Qed.
Lemma list_all_broker_orders_keeps : keeps_clean (list_all_broker_orders (B:=B)).
Proof. unfold list_all_broker_orders. clean_auto. Qed.
Lemma list_all_fills_keeps : keeps_clean (list_all_fills (B:=B)).
Proof. unfold list_all_fills. clean_auto. Qed.
Lemma reconciliations_latest_keeps : keeps_clean (reconciliations_latest (B:=B)).
Proof. unfold reconciliations_latest. clean_auto. Qed.
Lemma control_state_keeps : keeps_clean (control_state (B:=B)).
Proof. unfold control_state. clean_auto. Qed.
Lemma get_baseline_keeps i : keeps_clean (get_baseline (B:=B) i).
Proof. unfold get_baseline. clean_auto. Qed.

(** The guard always ends its transaction. *)
Lemma submission_guard_ok_clean {A} (body : ControlStateSnapshot → M (world B) A) :
  ok_clean (submission_guard body).
Proof. unfold submission_guard. clean_auto. Qed.
End repos.

#[export] Hint Resolve submission_guard_ok_clean decode_keeps orders_get_keeps
  list_by_status_keeps get_broker_order_keeps get_broker_order_by_id_keeps
  get_fill_by_execution_id_keeps orders_list_fills_keeps list_open_broker_orders_keeps
  list_all_broker_orders_keeps list_all_fills_keeps reconciliations_latest_keeps
  control_state_keeps get_baseline_keeps : clean.
