(* ===== verification/RepoFacts.v ===== *)
(** * What a repository call returned

    Inversion lemmas: from a call that returned, what it read or wrote.  A
    decoded row is the row itself, so what a service holds after a read is what
    the transaction sees. *)

From S2P Require Import Prelude Text Orders OrderFacts Contracts BrokerPort Store Repos Clean.
Local Open Scope Z_scope.

(** ** Inversion of runs *)

Lemma bind_Ok {W A C} (m : M W A) (f : A → M W C) w c w' :
  (m ≫= f) w = (Ok c, w') → ∃ a w1, m w = (Ok a, w1) ∧ f a w1 = (Ok c, w').
Proof. unfold mbind, M_bind. destruct (m w) as [[a|e] w1]; [|done]. by exists a, w1. Qed.

Lemma lift_Ok {W A} (o : outcome A) (w : W) a w' :
  lift o w = (Ok a, w') → o = Ok a ∧ w' = w.
Proof. by intros [= -> ->]. Qed.

Lemma ret_Ok {W A} (a b : A) (w w' : W) : (mret a : M W A) w = (Ok b, w') → b = a ∧ w' = w.
Proof. by intros [= -> ->]. Qed.

Lemma mapM_Ok_id {A} (f : A → outcome A) l k :
  (∀ x y, f x = Ok y → y = x) → mapM f l = Ok k → k = l.
Proof.
  intros Hf. revert k. induction l as [|x l IH]; intros k; simpl; [by intros [= ->]|].
  intros (y & ->%Hf & (k' & Hk%IH & [= <-])%obind_Ok)%obind_Ok. by subst.
Qed.

(** Split a run of binds that returned into the runs of its parts. *)
Ltac inv_run :=
  repeat match goal with
  | H : (_ ≫= _) _ = (Ok _, _) |- _ =>
      let a := fresh "a" in let w := fresh "w" in let H1 := fresh "H" in
      apply bind_Ok in H as (a & w & H1 & H)
  | H : lift _ _ = (Ok _, _) |- _ => apply lift_Ok in H as [H ->]
  | H : mret _ _ = (Ok _, _) |- _ => apply ret_Ok in H as [H ->]
  | H : throw _ _ _ = (Ok _, _) |- _ => discriminate H
  | H : rethrow _ _ = (Ok _, _) |- _ => discriminate H
  end.

(** ** Decoded rows are the rows *)

Lemma decode_intent_id r i : decode_intent r = Ok i → i = r.
Proof.
  unfold decode_intent. intros H. do 6 (apply obind_Ok in H as (? & _ & H)).
  by apply check_OrderIntent_id in H.
Qed.

Lemma check_Fill_id f g : check_Fill f = Ok g → g = f.
Proof. unfold check_Fill. intros H. repeat (apply obind_Ok in H as (? & _ & H)). by simplify_eq. Qed.

Lemma decode_fill_id r f : decode_fill r = Ok f → f = r.
Proof.
  unfold decode_fill. intros H. do 2 (apply obind_Ok in H as (? & _ & H)).
  by apply check_Fill_id in H.
Qed.

Lemma check_BrokerOrder_id o p : check_BrokerOrder o = Ok p → p = o.
Proof.
  unfold check_BrokerOrder. intros H. repeat (apply obind_Ok in H as (? & _ & H)).
  by simplify_eq.
Qed.

Lemma decode_mirror_view r o : decode_mirror r = Ok o → o = mirror_view r.
Proof.
  unfold decode_mirror. intros H. do 4 (apply obind_Ok in H as (? & _ & H)).
  by apply check_BrokerOrder_id in H.
Qed.

Lemma check_ControlState_id c c' : check_ControlState c = Ok c' → c' = c.
Proof.
  unfold check_ControlState. intros H. repeat (apply obind_Ok in H as (? & _ & H)).
  by simplify_eq.
Qed.

(** ** Reads *)

(** The call changed no table and left the transaction usable. *)
Definition unchanged {B} (w w' : world B) : Prop :=
  w_work w' = w_work w ∧ w_committed w' = w_committed w ∧ w_trace w' = w_trace w ∧
  w_aborted w = false ∧ w_aborted w' = false ∧ w_broker w' = w_broker w.

Lemma unchanged_trans {B} (w w1 w2 : world B) : unchanged w w1 → unchanged w1 w2 → unchanged w w2.
Proof. intros (?&?&?&?&?&?) (?&?&?&?&?&?). unfold unchanged. split_and!; congruence. Qed.

Lemma unchanged_clean {B} (w w' : world B) : unchanged w w' → clean w → clean w'.
Proof. intros (?&?&?&?&?&?) []. split; congruence. Qed.

Section reads.
Context {E : Env} {B : Type}.
Implicit Types (w : world B).

(** Statements do not reach the broker. *)
Lemma stmt_broker {A} (f : Z → db → outcome (A * db)) w : w_broker (stmt f w).2 = w_broker w.
Proof.
  unfold stmt, require_connection, next_stmt, act, mbind, M_bind, guard_that.
  destruct (w_open w); simpl; [|done]. destruct (w_broken w); [done|].
  destruct (w_aborted w); [done|]. destruct (env_fault _); [|done..].
  by destruct (f (env_stamp (w_stmt w)) (w_work w)) as [[a d]|e].
Qed.

Lemma query_inv {A} (f : db → A) w a w' :
  query f w = (Ok a, w') → a = f (w_work w) ∧ unchanged w w'.
Proof.
  intros H. pose proof (stmt_broker (λ _ d, Ok (f d, d)) w) as Hb. unfold query in H.
  rewrite H in Hb. apply query_Ok in H as (?&?&?&?&?&?). done.
Qed.

Lemma decode_inv {A R} (f : R → outcome A) r w o w' :
  decode f r w = (Ok o, w') →
  w' = w ∧ match r with Some x => ∃ a, f x = Ok a ∧ o = Some a | None => o = None end.
Proof.
  unfold decode. destruct r as [x|]; intros H; inv_run; [|by subst]. subst. eauto.
Qed.

Lemma orders_get_inv cid w o w' :
  orders_get cid w = (Ok o, w') → o = db_intents (w_work w) !! cid ∧ unchanged w w'.
Proof.
  unfold orders_get. intros H. inv_run. apply query_inv in H0 as [-> Hu].
  apply decode_inv in H as [-> H]. split; [|done].
  destruct (db_intents (w_work w) !! cid); [|done].
  destruct H as (i & ->%decode_intent_id & ->). done.
Qed.

Lemma list_by_status_inv s w l w' :
  list_by_status s w = (Ok l, w') → l = intents_with_status s (w_work w) ∧ unchanged w w'.
Proof.
  unfold list_by_status. intros H. inv_run. apply query_inv in H0 as [-> Hu].
  split; [|done]. eapply mapM_Ok_id; [|done]. apply decode_intent_id.
Qed.

Lemma elem_of_intents_with_status s d i :
  i ∈ intents_with_status s d ↔ oi_status i = s ∧ ∃ cid, db_intents d !! cid = Some i.
Proof.
  unfold intents_with_status. rewrite elem_of_sort_by, list_elem_of_filter.
  unfold intent_rows. rewrite list_elem_of_fmap. split.
  - intros [? ([cid j] & -> & Hj%elem_of_map_to_list)]. eauto.
  - intros [? [cid Hi]]. split; [done|]. exists (cid, i). by rewrite elem_of_map_to_list.
Qed.

Lemma get_fill_inv i w o w' :
  get_fill_by_execution_id i w = (Ok o, w') → o = fill_by_execution i (w_work w) ∧ unchanged w w'.
Proof.
  unfold get_fill_by_execution_id. intros H. inv_run. apply query_inv in H0 as [-> Hu].
  apply decode_inv in H as [-> H]. split; [|done].
  destruct (fill_by_execution i (w_work w)); [|done].
  destruct H as (g & ->%decode_fill_id & ->). done.
Qed.

Lemma get_broker_order_inv cid w o w' :
  get_broker_order cid w = (Ok o, w') →
  o = mirror_view <$> mirror_by_client cid (w_work w) ∧ unchanged w w'.
Proof.
  unfold get_broker_order. intros H. inv_run. apply query_inv in H0 as [-> Hu].
  apply decode_inv in H as [-> H]. split; [|done].
  destruct (mirror_by_client cid (w_work w)); [|done].
  destruct H as (g & ->%decode_mirror_view & ->). done.
Qed.

Lemma get_broker_order_by_id_inv bid w o w' :
  get_broker_order_by_id bid w = (Ok o, w') →
  o = mirror_view <$> db_mirrors (w_work w) !! bid ∧ unchanged w w'.
Proof.
  unfold get_broker_order_by_id. intros H. inv_run. apply query_inv in H0 as [-> Hu].
  apply decode_inv in H as [-> H]. split; [|done].
  destruct (db_mirrors (w_work w) !! bid); [|done].
  destruct H as (g & ->%decode_mirror_view & ->). done.
Qed.

Lemma orders_list_fills_inv bid w l w' :
  orders_list_fills bid w = (Ok l, w') →
  l = filter (λ f, fl_broker_order_id f = bid) (db_fills (w_work w)) ∧ unchanged w w'.
Proof.
  unfold orders_list_fills. intros H. inv_run. apply query_inv in H0 as [-> Hu].
  split; [|done]. eapply mapM_Ok_id; [|done]. apply decode_fill_id.
Qed.

Lemma list_all_fills_inv w l w' :
  list_all_fills w = (Ok l, w') → l = db_fills (w_work w) ∧ unchanged w w'.
Proof.
  unfold list_all_fills. intros H. inv_run. apply query_inv in H0 as [-> Hu].
  split; [|done]. eapply mapM_Ok_id; [|done]. apply decode_fill_id.
Qed.

Lemma mapM_decode_mirror rows l :
  mapM decode_mirror rows = Ok l → l = mirror_view <$> rows.
Proof.
  revert l. induction rows as [|r rows IH]; intros l; simpl; [by intros [= ->]|].
  intros (y & ->%decode_mirror_view & (k' & ->%IH & [= <-])%obind_Ok)%obind_Ok. done.
Qed.

Lemma list_all_broker_orders_inv w l w' :
  list_all_broker_orders w = (Ok l, w') →
  l = mirror_view <$> mirrors_ordered (w_work w) ∧ unchanged w w'.
Proof.
  unfold list_all_broker_orders. intros H. inv_run. apply query_inv in H0 as [-> Hu].
  split; [|done]. by apply mapM_decode_mirror.
Qed.

Lemma list_open_broker_orders_inv w l w' :
  list_open_broker_orders w = (Ok l, w') →
  l = mirror_view <$> filter (λ r, bo_status (mr_order r) ∉ TERMINAL_BROKER_ORDER_STATUSES)
                        (mirrors_ordered (w_work w)) ∧ unchanged w w'.
Proof.
  unfold list_open_broker_orders. intros H. inv_run. apply query_inv in H0 as [-> Hu].
  split; [|done]. by apply mapM_decode_mirror.
Qed.

Lemma elem_of_mirrors_ordered d r :
  r ∈ mirrors_ordered d ↔ ∃ bid, db_mirrors d !! bid = Some r.
Proof.
  unfold mirrors_ordered, mirror_rows. rewrite elem_of_sort_by, list_elem_of_fmap. split.
  - intros ([bid x] & -> & Hx%elem_of_map_to_list). eauto.
  - intros [bid Hx]. exists (bid, r). by rewrite elem_of_map_to_list.
Qed.

Lemma decode_run_observed row r : decode_run row = Ok r → rr_observed_at r = rn_observed_at row.
Proof.
  unfold decode_run, check_ReconciliationResult. intros H.
  repeat (apply obind_Ok in H as (? & _ & H)).
  injection H as <-. done.
Qed.
Lemma reconciliations_latest_inv w o w' :
  reconciliations_latest w = (Ok o, w') →
  rr_observed_at <$> o = rn_observed_at <$> latest_run (w_work w) ∧ unchanged w w'.
Proof.
  unfold reconciliations_latest. intros H. inv_run. apply query_inv in H0 as [-> Hu].
  destruct (latest_run (w_work w)) as [row|]; inv_run; [|by subst]. apply query_inv in H0 as [_ Hu'].
  split; [|by eapply unchanged_trans]. subst o. simpl. f_equal.
  match goal with Hd : decode_run row = Ok _ |- _ => by apply decode_run_observed in Hd end.
Qed.

Lemma check_AccountBaseline_id a a' : check_AccountBaseline a = Ok a' → a' = a.
Proof.
  unfold check_AccountBaseline. intros H. repeat (apply obind_Ok in H as (? & _ & H)).
  by simplify_eq.
Qed.

(** The revision in force, or else the genesis row. *)
Definition baseline_in_force (account_id : string) (d : db) : option AccountBaseline :=
  match latest_baseline account_id d with
  | Some a => Some a | None => db_genesis d !! account_id end.

Lemma get_baseline_inv i w o w' :
  get_baseline i w = (Ok o, w') → o = baseline_in_force i (w_work w) ∧ unchanged w w'.
Proof.
  unfold get_baseline, baseline_in_force. intros H. inv_run. apply query_inv in H1 as [-> Hu].
  destruct (latest_baseline i (w_work w)) as [r|]; inv_run.
  - apply check_AccountBaseline_id in H1 as ->. by subst.
  - apply query_inv in H1 as [-> Hu']. apply decode_inv in H as [-> H].
    split; [|by eapply unchanged_trans]. destruct Hu as (Hw & _). rewrite Hw in H.
    destruct (db_genesis (w_work w) !! i); [|done].
    destruct H as (base & ->%check_AccountBaseline_id & ->). done.
Qed.

Lemma control_state_inv w c w' :
  control_state w = (Ok c, w') → c = db_control (w_work w) ∧ unchanged w w'.
Proof.
  unfold control_state. intros H. inv_run. apply query_inv in H0 as [-> Hu].
  by apply check_ControlState_id in H as ->.
Qed.

(** ** Writes *)

(** The call wrote: the transaction's view is [d'] now. *)
Definition wrote (d' : db) w w' : Prop :=
  w_work w' = d' ∧ w_committed w' = w_committed w ∧ w_trace w' = w_trace w ∧
  w_aborted w = false ∧ w_aborted w' = false.

Lemma stmt_inv {A} (f : Z → db → outcome (A * db)) w a w' :
  stmt f w = (Ok a, w') → ∃ t d', f t (w_work w) = Ok (a, d') ∧ wrote d' w w'.
Proof. intros (t & ? & ? & ? & ? & ?)%stmt_Ok. exists t, (w_work w'). unfold wrote. done. Qed.

Lemma transition_status_inv cid target w i w' :
  transition_status cid target w = (Ok i, w') →
  ∃ old, db_intents (w_work w) !! cid = Some old ∧ i = with_status target old ∧
    sql_intent_update_ok (oi_status old) target = true ∧
    wrote (set_intents (<[cid := i]> (db_intents (w_work w))) (w_work w)) w w'.
Proof.
  unfold transition_status. intros H. inv_run. apply stmt_inv in H0 as (t & d' & Hf & Hw).
  unfold sql_update_intent_status in Hf.
  destruct (db_intents (w_work w) !! cid) as [old|] eqn:Hold; [|by simplify_eq].
  unfold sql_check, guard_that in Hf. destruct (sql_intent_update_ok _ _) eqn:Hok; [|done].
  simpl in Hf. simplify_eq. inv_run. unfold mark_write, modify in H0. simplify_eq.
  apply decode_intent_id in H as ->. exists old. split_and!; try done.
Qed.

Lemma commit_inv w u w' :
  commit w = (Ok u, w') →
  clean w' ∧ w_trace w' = w_trace w ∧
  w_committed w' = (if w_aborted w then w_committed w else w_work w).
Proof. destruct u. intros (? & ? & ?)%commit_Ok. done. Qed.

Lemma call_inv {A} (m : broker_call B A) w a w' :
  call m w = (Ok a, w') →
  w_work w' = w_work w ∧ w_committed w' = w_committed w ∧ w_trace w' = w_trace w ∧
  w_aborted w' = w_aborted w ∧ (m (w_broker w)).1 = Ok a.
Proof. unfold call. destruct (m (w_broker w)) as [o b]. by intros [= -> <-]. Qed.
End reads.
