(* ===== verification/Faultless.v ===== *)
(** * Runs without faults

    Total-correctness rules for programs over a world whose statements never
    fail by themselves: [live d c b tr w] describes such a world, and one rule
    per primitive and repository call says what it returns and leaves, provided
    the rows of the database decode ([decodable]). *)

From S2P Require Import Prelude Text Orders OrderFacts Contracts BrokerPort Store Repos.
From S2P Require Import Stable Evolve Clean RepoFacts.
Local Open Scope Z_scope.

(** The environment lets every statement succeed. *)
Definition faultless (E : Env) : Prop := ∀ n, env_fault n = no_fault.

(** An open session with view [d], durable database [c], broker [b], trace [tr]. *)
Record live {B} (d c : db) (b : B) (tr : list event) (w : world B) : Prop := {
  lv_open : w_open w = true;
  lv_broken : w_broken w = false;
  lv_aborted : w_aborted w = false;
  lv_work : w_work w = d;
  lv_committed : w_committed w = c;
  lv_broker : w_broker w = b;
  lv_trace : w_trace w = tr;
  lv_isolation : w_repeatable w = false;
}.

(** The same after a statement raised: only a rollback or a commit helps. *)
Record stuck {B} (c : db) (b : B) (tr : list event) (w : world B) : Prop := {
  sk_open : w_open w = true;
  sk_broken : w_broken w = false;
  sk_aborted : w_aborted w = true;
  sk_committed : w_committed w = c;
  sk_broker : w_broker w = b;
  sk_trace : w_trace w = tr;
  sk_isolation : w_repeatable w = false;
}.

(** Every row passes the constructors' checks. *)
Record decodable (d : db) : Prop := {
  dc_intents : ∀ cid i, db_intents d !! cid = Some i → decode_intent i = Ok i;
  dc_mirrors : ∀ bid r, db_mirrors d !! bid = Some r → decode_mirror r = Ok (mirror_view r);
  dc_fills : ∀ f, f ∈ db_fills d → decode_fill f = Ok f;
  dc_control : check_ControlState (db_control d) = Ok (db_control d);
}.

(** [decodable], as a test. *)
Definition decodable_b (d : db) : bool :=
  forallb (λ i, is_Ok (decode_intent i)) (intent_rows d) &&
  forallb (λ r, is_Ok (decode_mirror r)) (mirror_rows d) &&
  forallb (λ f, is_Ok (decode_fill f)) (db_fills d) && is_Ok (check_ControlState (db_control d)).

Lemma is_Ok_exists {A} (o : outcome A) : is_Ok o = true → ∃ a, o = Ok a.
Proof. destruct o; [by eexists|done]. Qed.

Lemma decodable_test d : decodable_b d = true → decodable d.
Proof.
  intros [[[Hi Hm]%andb_true_iff Hf]%andb_true_iff Hc]%andb_true_iff.
  rewrite forallb_forall in Hi, Hm, Hf. split.
  - intros cid i Hx. destruct (is_Ok_exists (decode_intent i)) as [j Hj];
      [apply Hi, list_elem_of_In, elem_of_intent_rows; by exists cid|].
    by rewrite Hj, (decode_intent_id _ _ Hj).
  - intros bid r Hx. destruct (is_Ok_exists (decode_mirror r)) as [j Hj];
      [apply Hm, list_elem_of_In, elem_of_mirror_rows; by exists bid|].
    by rewrite Hj, (decode_mirror_view _ _ Hj).
  - intros f Hx. destruct (is_Ok_exists (decode_fill f)) as [j Hj]; [by apply Hf, list_elem_of_In|].
    by rewrite Hj, (decode_fill_id _ _ Hj).
  - apply is_Ok_exists in Hc as [j Hj]. by rewrite Hj, (check_ControlState_id _ _ Hj).
Qed.

(** ** Rows that decode keep decoding *)

Lemma with_status_decodes s i :
  decode_intent i = Ok i → decode_intent (with_status s i) = Ok (with_status s i).
Proof.
  unfold decode_intent. simpl. intros H. rewrite check_OrderIntent_with_status.
  do 6 (apply obind_Ok in H as (? & Hs & H); simpl in *; rewrite Hs; clear Hs; simpl).
  by rewrite H.
Qed.

Lemma mirror_decodes r st f t :
  decode_mirror r = Ok (mirror_view r) → 0 ≤ f ≤ bo_quantity (mr_order r) →
  let r' := mk_mirror (with_mirror st f (bo_updated_at (mr_order r)) (mr_order r)) t in
  decode_mirror r' = Ok (mirror_view r').
Proof.
  unfold decode_mirror. intros H Hf. simpl in *.
  do 4 (apply obind_Ok in H as (? & -> & H); simpl).
  unfold check_BrokerOrder in *. simpl in *. apply obind_Ok in H as (? & -> & _). simpl.
  assert ((0 <=? f) && (f <=? bo_quantity (mr_order r)) = true) as -> by lia. done.
Qed.

Lemma decodable_intents d cid i s :
  decodable d → db_intents d !! cid = Some i →
  decodable (set_intents (<[cid := with_status s i]> (db_intents d)) d).
Proof.
  intros [H1 H2 H3 H4] Hi. split; simpl; try done.
  intros cid' j [[<- <-]|[_ Hj]]%lookup_insert_Some; [|by apply (H1 cid')].
  by eapply with_status_decodes, H1.
Qed.

Lemma decodable_mirrors d bid r st f t :
  decodable d → db_mirrors d !! bid = Some r → 0 ≤ f ≤ bo_quantity (mr_order r) →
  decodable (set_mirrors (<[bid :=
    mk_mirror (with_mirror st f (bo_updated_at (mr_order r)) (mr_order r)) t]> (db_mirrors d)) d).
Proof.
  intros [H1 H2 H3 H4] Hr Hf. split; simpl; try done.
  intros bid' r' [[<- <-]|[_ Hr']]%lookup_insert_Some; [|by apply (H2 bid')].
  by apply mirror_decodes; [eapply H2|].
Qed.

Lemma decodable_fills d f :
  decodable d → decode_fill f = Ok f → decodable (set_fills (db_fills d ++ [f]) d).
Proof.
  intros [H1 H2 H3 H4] Hf. split; simpl; try done.
  by intros g [Hg| ->%list_elem_of_singleton]%elem_of_app; [apply H3|].
Qed.

Lemma mapM_decodes {R A} (f : R → outcome A) (g : R → A) l :
  (∀ x, x ∈ l → f x = Ok (g x)) → mapM f l = Ok (g <$> l).
Proof.
  induction l as [|x l IH]; intros H; simpl; [done|].
  rewrite H by constructor. simpl. rewrite IH; [done|]. intros y Hy. apply H. by constructor.
Qed.

(** ** Rules *)

Section rules.
Context {E : Env} {B : Type} (Hf : faultless E).
Implicit Types (w : world B) (d c : db) (tr : list event).

Lemma wp_stmt {A} (f : Z → db → outcome (A * db)) d c b tr w (Q : outcome A → world B → Prop) :
  live d c b tr w →
  (∀ t, match f t d with
        | Ok (a, d') => ∀ w', live d' c b tr w' → Q (Ok a) w'
        | Raise e => ∀ w', stuck c b tr w' → Q (Raise e) w' end) →
  wp (stmt f) Q w.
Proof using Hf.
  intros [Ho Hb Ha Hw Hc Hbr Ht Hi] HQ. unfold wp, stmt, require_connection, next_stmt, act.
  cbv [mbind M_bind guard_that]. rewrite Ho. simpl. rewrite Hb, Ha, Hf, Hw. simpl.
  specialize (HQ (env_stamp (w_stmt w))).
  destruct (f (env_stamp (w_stmt w)) d) as [[a d']|e]; simpl; apply HQ; split; simpl; auto.
  by rewrite Hb.
Qed.

Lemma wp_query {A} (f : db → A) d c b tr w (Q : outcome A → world B → Prop) :
  live d c b tr w → (∀ w', live d c b tr w' → Q (Ok (f d)) w') → wp (query f) Q w.
Proof using Hf. intros Hl HQ. by eapply wp_stmt. Qed.

Lemma wp_commit d c b tr w (Q : outcome unit → world B → Prop) :
  live d c b tr w → (∀ w', live d d b tr w' → Q (Ok ()) w') → wp commit Q w.
Proof using Hf.
  intros [Ho Hb Ha Hw Hc Hbr Ht Hi] HQ. unfold commit, require_connection, guard_that. apply wp_bind.
  unfold wp at 1. rewrite Ho. simpl. apply wp_bind.
  unfold wp at 1, connection_commit, next_stmt, act. cbv [mbind M_bind]. simpl.
  rewrite Hb, Ha, Hf, Hw. simpl. apply wp_bind.
  eapply (wp_stmt _ d d b tr); [by split|]. intros t w' [] . simpl. apply wp_modify, HQ. by split.
Qed.

Lemma wp_rollback d c b tr w (Q : outcome unit → world B → Prop) :
  live d c b tr w ∨ stuck c b tr w → (∀ w', live c c b tr w' → Q (Ok ()) w') → wp rollback Q w.
Proof using Hf.
  intros Hl HQ.
  assert (w_open w = true ∧ w_broken w = false ∧ w_committed w = c ∧ w_broker w = b ∧ w_trace w = tr
    ∧ w_repeatable w = false) as (Ho & Hb & Hc & Hbr & Ht & Hi) by (by destruct Hl as [[]|[]]).
  unfold rollback, require_connection, guard_that. apply wp_bind.
  unfold wp at 1. rewrite Ho. simpl. apply wp_bind.
  unfold wp at 1, connection_rollback, next_stmt, act. cbv [mbind M_bind]. simpl.
  rewrite Hb, Hf, Hc. simpl. apply wp_bind.
  eapply (wp_stmt _ c c b tr); [by split|]. intros t w' []. simpl. apply wp_modify, HQ. by split.
Qed.

Lemma wp_suppress_rollback d c b tr w (Q : outcome unit → world B → Prop) :
  live d c b tr w ∨ stuck c b tr w → (∀ w', live c c b tr w' → Q (Ok ()) w') →
  wp (suppress rollback) Q w.
Proof using Hf. intros Hl HQ. unfold suppress. apply wp_catch. by eapply wp_rollback. Qed.

Lemma wp_mark_write d c b tr w (Q : outcome unit → world B → Prop) :
  live d c b tr w → (∀ w', live d c b tr w' → Q (Ok ()) w') → wp mark_write Q w.
Proof using Type. intros [] HQ. apply wp_modify, HQ. by split. Qed.

Lemma wp_safety_pause reason d c b tr w (Q : outcome unit → world B → Prop) :
  live d c b tr w → negb (sql_blank reason) && bool_decide (String.length reason ≤ 200)%nat = true →
  (∀ t w', let p := pause_row t reason (db_control c) in
     live (set_control p d) (set_control p c) b tr w' → Q (Ok ()) w') →
  wp (persist_safety_pause reason) Q w.
Proof using Hf.
  intros [Ho Hb Ha Hw Hc Hbr Ht Hi] Hr HQ. unfold wp, persist_safety_pause, next_stmt, act.
  cbv [mbind M_bind]. simpl. rewrite !Hf. unfold sql_pause_entries. rewrite Hr, Hi. simpl.
  eapply HQ. rewrite Hc. split; simpl; try done. by rewrite Hw.
Qed.

Lemma wp_clock d c b tr w (Q : outcome Z → world B → Prop) :
  live d c b tr w → (∀ t w', live d c b tr w' → Q (Ok t) w') → wp clock_now Q w.
Proof using Type. intros [] HQ. unfold wp, clock_now. simpl. apply HQ. by split. Qed.

(** *** Repository calls *)

Lemma wp_decode {R A} (f : R → outcome A) (o : option R) (a : option A) w
    (Q : outcome (option A) → world B → Prop) :
  match o with Some r => ∃ y, f r = Ok y ∧ a = Some y | None => a = None end →
  Q (Ok a) w → wp (decode f o) Q w.
Proof using Type.
  unfold decode. destruct o as [r|]; [|by intros ->]. intros (y & Hy & ->) HQ.
  apply wp_bind, wp_lift. rewrite Hy. by apply wp_ret.
Qed.

Lemma wp_orders_get cid d c b tr w (Q : outcome (option OrderIntent) → world B → Prop) :
  live d c b tr w → decodable d →
  (∀ w', live d c b tr w' → Q (Ok (db_intents d !! cid)) w') → wp (orders_get cid) Q w.
Proof using Hf.
  intros Hl Hd HQ. unfold orders_get. apply wp_bind. eapply wp_query; [done|]. intros w' Hl'.
  eapply wp_decode; [|by apply HQ]. destruct (db_intents d !! cid) as [i|] eqn:Hi; [|done].
  exists i. split; [|done]. by apply (dc_intents d Hd cid).
Qed.

Lemma wp_get_broker_order cid d c b tr w (Q : outcome (option BrokerOrder) → world B → Prop) :
  live d c b tr w → decodable d → db_wf d →
  (∀ w', live d c b tr w' → Q (Ok (mirror_view <$> mirror_by_client cid d)) w') →
  wp (get_broker_order cid) Q w.
Proof using Hf.
  intros Hl Hd Hwf HQ. unfold get_broker_order. apply wp_bind. eapply wp_query; [done|].
  intros w' Hl'. eapply wp_decode; [|by apply HQ].
  destruct (mirror_by_client cid d) as [r|] eqn:Hr; [|done]. apply mirror_by_client_Some in Hr as (_ & bid & Hr).
  exists (mirror_view r). split; [|done]. by apply (dc_mirrors d Hd bid).
Qed.

Lemma wp_get_broker_order_by_id bid d c b tr w (Q : outcome (option BrokerOrder) → world B → Prop) :
  live d c b tr w → decodable d →
  (∀ w', live d c b tr w' → Q (Ok (mirror_view <$> db_mirrors d !! bid)) w') →
  wp (get_broker_order_by_id bid) Q w.
Proof using Hf.
  intros Hl Hd HQ. unfold get_broker_order_by_id. apply wp_bind. eapply wp_query; [done|].
  intros w' Hl'. eapply wp_decode; [|by apply HQ].
  destruct (db_mirrors d !! bid) as [r|] eqn:Hr; [|done]. exists (mirror_view r).
  split; [|done]. by apply (dc_mirrors d Hd bid).
Qed.

Lemma fill_by_execution_elem x d f : fill_by_execution x d = Some f → f ∈ db_fills d.
Proof. unfold fill_by_execution. intros H%head_Some_elem_of. by apply list_elem_of_filter in H as [_ ?]. Qed.

Lemma wp_get_fill x d c b tr w (Q : outcome (option Fill) → world B → Prop) :
  live d c b tr w → decodable d →
  (∀ w', live d c b tr w' → Q (Ok (fill_by_execution x d)) w') →
  wp (get_fill_by_execution_id x) Q w.
Proof using Hf.
  intros Hl Hd HQ. unfold get_fill_by_execution_id. apply wp_bind. eapply wp_query; [done|].
  intros w' Hl'. eapply wp_decode; [|by apply HQ].
  destruct (fill_by_execution x d) as [f|] eqn:Hx; [|done]. exists f. split; [|done].
  by apply (dc_fills d Hd), fill_by_execution_elem with x.
Qed.

Definition fills_of (bid : string) (d : db) : list Fill :=
  filter (λ f, fl_broker_order_id f = bid) (db_fills d).

Lemma wp_orders_list_fills bid d c b tr w (Q : outcome (list Fill) → world B → Prop) :
  live d c b tr w → decodable d →
  (∀ w', live d c b tr w' → Q (Ok (fills_of bid d)) w') → wp (orders_list_fills bid) Q w.
Proof using Hf.
  intros Hl Hd HQ. unfold orders_list_fills. apply wp_bind. eapply wp_query; [done|].
  intros w' Hl'. apply wp_lift. rewrite (mapM_decodes _ id).
  - rewrite list_fmap_id. by apply HQ.
  - intros f [_ Hx]%list_elem_of_filter. by apply (dc_fills d Hd).
Qed.

Lemma wp_control_state d c b tr w (Q : outcome ControlStateSnapshot → world B → Prop) :
  live d c b tr w → decodable d →
  (∀ w', live d c b tr w' → Q (Ok (db_control d)) w') → wp control_state Q w.
Proof using Hf.
  intros Hl Hd HQ. unfold control_state. apply wp_bind. eapply wp_query; [done|].
  intros w' Hl'. apply wp_lift. rewrite dc_control; auto.
Qed.

Lemma wp_transition_status cid target i d c b tr w (Q : outcome OrderIntent → world B → Prop) :
  live d c b tr w → decodable d → db_intents d !! cid = Some i →
  (if sql_intent_update_ok (oi_status i) target then
     ∀ w', live (set_intents (<[cid := with_status target i]> (db_intents d)) d) c b tr w' →
       Q (Ok (with_status target i)) w'
   else ∀ e w', stuck c b tr w' → exn_cls e = EDatabase → Q (Raise e) w') →
  wp (transition_status cid target) Q w.
Proof using Hf.
  intros Hl Hd Hi HQ. unfold transition_status. apply wp_bind. eapply wp_stmt; [done|]. intros t.
  unfold sql_update_intent_status, sql_check, guard_that. rewrite Hi.
  destruct (sql_intent_update_ok _ _); simpl; intros w' Hl'; [|by apply HQ].
  apply wp_bind. eapply wp_mark_write; [done|]. intros w2 Hl2. apply wp_lift.
  rewrite with_status_decodes by (by eapply dc_intents). by apply HQ.
Qed.

(** A pause reason both the table and the constructor accept. *)
Definition reason_ok (r : string) : bool :=
  negb (sql_blank r) && negb (is_blank r) && bool_decide (String.length r ≤ 200)%nat.

Lemma reason_ok_sql r :
  reason_ok r = true → negb (sql_blank r) && bool_decide (String.length r ≤ 200)%nat = true.
Proof using Type. unfold reason_ok. by intros [[-> _]%andb_true_iff ->]%andb_true_iff. Qed.

Lemma pause_row_checked r t s :
  check_ControlState s = Ok s → reason_ok r = true →
  check_ControlState (pause_row t r s) = Ok (pause_row t r s).
Proof using Type.
  unfold check_ControlState. intros H [[_ Hb]%andb_true_iff Hl]%andb_true_iff.
  apply obind_Ok in H as (? & _ & H). apply obind_Ok in H as (? & _ & H). simpl.
  unfold MAX_REASON_LENGTH. rewrite Hb, Hl. simpl.
  apply obind_Ok in H as (? & Hg & _). by rewrite Hg.
Qed.

Lemma decodable_pause t r d :
  decodable d → reason_ok r = true → decodable (set_control (pause_row t r (db_control d)) d).
Proof using Type. intros [H1 H2 H3 H4] Hr. split; simpl; try done. by apply pause_row_checked. Qed.

Lemma wp_set_entries_paused r d c b tr w (Q : outcome ControlStateSnapshot → world B → Prop) :
  live d c b tr w → decodable d → reason_ok r = true →
  (∀ t w', let p := pause_row t r (db_control d) in
     live (set_control p d) c b tr w' → Q (Ok p) w') →
  wp (set_entries_paused true (Some r)) Q w.
Proof using Hf.
  intros Hl Hd Hr HQ. unfold set_entries_paused. simpl. apply wp_bind. eapply wp_stmt; [done|].
  intros t. unfold sql_pause_entries. rewrite reason_ok_sql by done. intros w' Hl'.
  apply wp_bind. eapply wp_mark_write; [done|]. intros w2 Hl2. apply wp_lift.
  rewrite pause_row_checked; [|by apply dc_control|done]. by apply HQ.
Qed.

Lemma wp_add_command cmd d c b tr w (Q : outcome (option Z) → world B → Prop) :
  live d c b tr w →
  (∀ l a w', live (set_commands l d) c b tr w' → Q (Ok a) w') →
  (∀ e w', live d c b tr w' ∨ stuck c b tr w' → Q (Raise e) w') →
  wp (add_command cmd) Q w.
Proof using Hf.
  intros Hl HQ HE. unfold add_command. apply wp_bind. eapply wp_stmt; [done|]. intros t.
  unfold sql_insert_command, sql_check, guard_that. destruct (_ && _); simpl; [|by auto].
  assert (set_commands (db_commands d) d = d) as Hid by by destruct d.
  destruct (command_by_id (cc_command_id cmd) d) as [e|] eqn:He; intros w' Hl'.
  - apply wp_bind. eapply wp_query; [done|]. intros w2 Hl2. rewrite He.
    destruct (same_command e cmd); [|apply wp_throw, HE; by left].
    apply wp_ret, (HQ (db_commands d)). by rewrite Hid.
  - apply wp_bind. eapply wp_mark_write; [done|]. intros w2 Hl2. by eapply wp_ret, HQ.
Qed.

Lemma wp_add_fill f d c b tr w (Q : outcome bool → world B → Prop) :
  live d c b tr w → sql_text_id (fl_execution_id f) && (1 <=? fl_quantity f) &&
     (fl_quantity f <=? BIGINT_MAX) && sql_price (fl_price f) = true →
  is_Some (db_mirrors d !! fl_broker_order_id f) →
  (∀ w', match fill_by_execution (fl_execution_id f) d with
         | Some _ => live d c b tr w' → Q (Ok false) w'
         | None => live (set_fills (db_fills d ++ [f]) d) c b tr w' → Q (Ok true) w' end) →
  wp (add_fill f) Q w.
Proof using Hf.
  intros Hl Hc Hm HQ. unfold add_fill. apply wp_bind. eapply wp_stmt; [done|]. intros t.
  unfold sql_insert_fill, sql_check, guard_that. rewrite Hc. simpl.
  destruct (fill_by_execution _ d); simpl; [intros w' Hl'; apply wp_bind, wp_ret, wp_ret; by apply HQ|].
  rewrite bool_decide_eq_true_2 by done. simpl. intros w' Hl'. apply wp_bind.
  eapply wp_mark_write; [done|]. intros w2 Hl2. apply wp_ret. by apply HQ.
Qed.

Definition moved_mirror (r : mirror_row) (st : BrokerOrderStatus.t) (filled : Z)
    (observed : option Z) : mirror_row :=
  mk_mirror (with_mirror st filled (bo_updated_at (mr_order r)) (mr_order r))
    (match observed with Some t => Some t | None => mr_watermark r end).

Lemma wp_update_mirror bid st filled obs r d c b tr w (Q : outcome BrokerOrder → world B → Prop) :
  live d c b tr w → decodable d → db_mirrors d !! bid = Some r →
  (if sql_mirror_update_ok r st filled obs then
     ∀ w', live (set_mirrors (<[bid := moved_mirror r st filled obs]> (db_mirrors d)) d) c b tr w' →
       Q (Ok (mirror_view (moved_mirror r st filled obs))) w'
   else ∀ e w', stuck c b tr w' → exn_cls e = EDatabase → Q (Raise e) w') →
  wp (update_broker_order_status bid st filled obs) Q w.
Proof using Hf.
  intros Hl Hd Hr HQ. unfold update_broker_order_status. apply wp_bind. eapply wp_stmt; [done|].
  intros t. unfold sql_update_mirror, sql_check, guard_that. rewrite Hr.
  destruct (sql_mirror_update_ok r st filled obs) eqn:Hok; simpl; intros w' Hl'; [|by apply HQ].
  apply wp_bind. eapply wp_mark_write; [done|]. intros w2 Hl2. apply wp_lift.
  rewrite mirror_decodes; [by apply HQ|by eapply dc_mirrors|].
  unfold sql_mirror_update_ok in Hok. lia.
Qed.
End rules.
