(* ===== verification/Engine.v ===== *)
(** * The execution engine: [src/seven_lens/application/execution_service.py]

    Moving one intent at a time through the broker.  The unit of work is the
    PostgreSQL one, so its control repository is always present and used; the
    engine's own control source, read before an intent is reserved, may be
    absent, the same connection or another one. *)

From S2P Require Import Prelude Text Orders Contracts BrokerPort Store Repos.
Local Open Scope Z_scope.

Definition LIVE_ORDER_STATUSES : list OrderStatus.t :=
  [OrderStatus.CREATED; OrderStatus.RISK_APPROVED; OrderStatus.OUTBOX_PENDING;
   OrderStatus.SUBMITTING; OrderStatus.ACKNOWLEDGED; OrderStatus.PARTIALLY_FILLED;
   OrderStatus.CANCEL_PENDING; OrderStatus.UNKNOWN; OrderStatus.REVIEW_REQUIRED].

Definition INTENT_STATUS_BY_BROKER_STATUS (s : BrokerOrderStatus.t) : OrderStatus.t :=
  match s with
  | BrokerOrderStatus.RECEIVED | BrokerOrderStatus.ACCEPTED
  | BrokerOrderStatus.ACCEPTED_FOR_BIDDING => OrderStatus.ACKNOWLEDGED
  | BrokerOrderStatus.PARTIALLY_FILLED => OrderStatus.PARTIALLY_FILLED
  | BrokerOrderStatus.FILLED => OrderStatus.FILLED
  | BrokerOrderStatus.PENDING_CANCEL => OrderStatus.CANCEL_PENDING
  | BrokerOrderStatus.CANCELED => OrderStatus.CANCELED
  | BrokerOrderStatus.EXPIRED => OrderStatus.EXPIRED
  | BrokerOrderStatus.REJECTED => OrderStatus.REJECTED
  | BrokerOrderStatus.DONE_FOR_DAY | BrokerOrderStatus.REPLACED
  | BrokerOrderStatus.PENDING_REPLACE | BrokerOrderStatus.STOPPED
  | BrokerOrderStatus.SUSPENDED | BrokerOrderStatus.CALCULATED => OrderStatus.REVIEW_REQUIRED
  end.

(** Where the engine's construction-time control repository reads from. *)
Inductive control_source := no_control | same_connection | other_connection.

Definition EXECUTION_CONFLICT_COMMAND_NAMESPACE : N :=
  0xa4f5d73e85f14dbba9c93e06f078a10c%N.

(** The unit separator between the parts of a uuid name. *)
Definition unit_separator : string := String (ascii_of_nat 31) "".

Section engine.
Context {E : Env} {B : Type} `{!PaperBroker B} (source : control_source).
Local Notation P := (M (world B)).

Definition execution_conflict_command_id (client_order_id conflict : string) : N :=
  env_uuid5 EXECUTION_CONFLICT_COMMAND_NAMESPACE
    (client_order_id +:+ (unit_separator +:+ conflict)).

(** [self._control.state()]; another connection reads what is durable. *)
Definition engine_control_state : P ControlStateSnapshot :=
  match source with
  | other_connection =>
      n ← next_stmt;
      match env_fault n with
      | no_fault => c ← gets (λ w, db_control (w_committed w)); lift (check_ControlState c)
      | _ => throw EDatabase "statement failed"
      end
  | _ => control_state
  end.

Definition require_intent (client_order_id : string) : P OrderIntent :=
  intent ← orders_get client_order_id;
  match intent with
  | Some i => mret i
  | None => throw EExecutionState "client order id has no order intent"
  end.

Definition is_risk_exit (i : OrderIntent) : bool :=
  bool_decide (oi_intent_type i = OrderIntentType.RISK_EXIT).

Definition paused_message : string :=
  "entries are paused; new intents cannot submit until a CLEAN reconciliation resumes them".

Definition assert_entries_allowed (intent : OrderIntent) : P unit :=
  match source with
  | no_control => mret ()
  | _ =>
      state ← engine_control_state;
      if negb (cs_entries_paused state) then mret ()
      else if is_risk_exit intent then mret ()
      else throw EExecutionPaused paused_message
  end.

Definition assert_asset_tradable (intent : OrderIntent) : P unit :=
  asset ← call (get_asset (oi_symbol intent));
  match asset with
  | Some a =>
      if bool_decide (pa_status a = ASSET_ACTIVE) && pa_tradable a
         && bool_decide (pa_asset_class a = US_EQUITY)
      then mret ()
      else throw EExecutionState
        ("asset gate: the broker does not trade symbol as a US equity " +:+
         (oi_symbol intent +:+ "; the intent was not submitted"))
  | None => throw EExecutionState
        ("asset gate: the broker does not trade symbol as a US equity " +:+
         (oi_symbol intent +:+ "; the intent was not submitted"))
  end.

Definition has_unresolved_intents : P bool :=
  unknown ← list_by_status OrderStatus.UNKNOWN;
  if negb (bool_decide (unknown = [])) then mret true
  else review ← list_by_status OrderStatus.REVIEW_REQUIRED;
       mret (negb (bool_decide (review = []))).

(** [with self._entry_submission_guard(intent, unit_of_work): body] *)
Definition entry_submission_guard {A} (intent : OrderIntent) (body : P A) : P A :=
  if is_risk_exit intent then body
  else submission_guard (λ state,
    if cs_entries_paused state then throw EExecutionPaused paused_message
    else
      blocked ← has_unresolved_intents;
      if (blocked : bool) then throw EExecutionPaused
        "reconciliation required; unresolved broker truth blocks new entries"
      else body).

(** [try: m except Exception: suppress(rollback); raise ControlPersistenceError] *)
Definition or_control_persistence_error {A} (m : P A) (msg : string) : P A :=
  catch m (λ _, suppress rollback ≫= λ _, throw EControlPersistence msg).

Definition pause_for_reconciliation_required (intent : OrderIntent) (conflict : string)
    : P unit :=
  if is_risk_exit intent then mret () else
  or_control_persistence_error
    (set_entries_paused true (Some ("reconciliation required; " +:+ conflict)) ≫= λ _, commit)
    "failed to persist entries_paused" ≫= λ _,
  or_control_persistence_error
    (now ← clock_now;
     record ← lift (check_ControlCommandRecord
       (mk_ControlCommandRecord
          (execution_conflict_command_id (oi_client_order_id intent) conflict)
          PAUSE_ENTRIES ("automatic pause on " +:+ conflict) "execution_engine" None
          now (Some now)));
     add_command record ≫= λ _, mret ())
    "failed to persist pause audit command; durable pause remains" ≫= λ _,
  or_control_persistence_error commit
    "failed to commit pause audit; durable pause remains".

Definition ambiguous_outcome : string := "ambiguous broker outcome".

Definition persist_review_and_pause (intent : OrderIntent) (conflict : string)
    : P OrderIntent :=
  current ← orders_get (oi_client_order_id intent);
  match current with
  | None => throw EControlPersistence
      "cannot persist unresolved broker conflict: order intent is missing"
  | Some current =>
      current' ←
        (if negb (bool_decide (oi_status current = OrderStatus.REVIEW_REQUIRED)) then
           or_control_persistence_error
             (c ← transition_status (oi_client_order_id intent) OrderStatus.REVIEW_REQUIRED;
              commit ≫= λ _, mret c)
             "failed to persist REVIEW_REQUIRED after broker conflict"
         else mret current);
      pause_for_reconciliation_required current' conflict ≫= λ _, mret current'
  end.

(** The fields of the broker's order that contradict the intent. *)
Definition mismatch_fields (intent : OrderIntent) (order : BrokerOrder) : list string :=
  (if bool_decide (bo_client_order_id order = oi_client_order_id intent) then []
   else ["client_order_id"]) ++
  (if bool_decide (bo_symbol order = oi_symbol intent) then [] else ["symbol"]) ++
  (if bool_decide (bo_side order = oi_side intent) then [] else ["side"]) ++
  (if bool_decide (bo_quantity order = oi_quantity intent) then [] else ["quantity"]) ++
  (if bool_decide (bo_limit_price order = oi_limit_price intent) then [] else ["limit_price"]).

Definition binding_conflict (intent : OrderIntent) (order : BrokerOrder)
    (local_mirror local_by_broker_id : option BrokerOrder) : bool :=
  match local_mirror with
  | Some m => negb (bool_decide (bo_broker_order_id m = bo_broker_order_id order))
  | None => false end ||
  match local_by_broker_id with
  | Some m => negb (bool_decide (bo_client_order_id m = oi_client_order_id intent))
  | None => false end.

Definition assert_mirror_matches (intent : OrderIntent) (order : BrokerOrder) : P unit :=
  local_mirror ← get_broker_order (oi_client_order_id intent);
  local_by_broker_id ← get_broker_order_by_id (bo_broker_order_id order);
  let fields := mismatch_fields intent order ++
    (if binding_conflict intent order local_mirror local_by_broker_id
     then ["broker_order_id"] else []) in
  if bool_decide (fields = []) then mret ()
  else
    persist_review_and_pause intent "broker mirror mismatch" ≫= λ _,
    throw EBrokerMirrorMismatch
      ("broker order parameters contradict the order intent; mismatch_fields=" +:+
       join_comma fields).

(** The check of the whole response before anything is written; [seen] maps
    the execution ids of this response to their fills. *)
Fixpoint preflight_fills (intent : OrderIntent) (order : BrokerOrder)
    (seen : gmap string Fill) (fills : list Fill) : P unit :=
  match fills with
  | [] => mret ()
  | fill :: fills =>
      match seen !! fl_execution_id fill with
      | Some s =>
          if negb (bool_decide (s = fill)) then
            persist_review_and_pause intent "conflicting fill" ≫= λ _,
            throw EBrokerMirrorMismatch
              "broker response contains conflicting fills for one execution id; reconciliation required"
          else preflight_fills intent order seen fills
      | None =>
          if negb (bool_decide (fl_broker_order_id fill = bo_broker_order_id order)) then
            persist_review_and_pause intent "conflicting fill" ≫= λ _,
            throw EBrokerMirrorMismatch
              "broker fill is bound to a different order; reconciliation required"
          else
            existing ← get_fill_by_execution_id (fl_execution_id fill);
            match existing with
            | Some e =>
                if negb (bool_decide (e = fill)) then
                  persist_review_and_pause intent "conflicting fill" ≫= λ _,
                  throw EBrokerMirrorMismatch
                    "broker fill conflicts with an existing execution id; reconciliation required"
                else preflight_fills intent order (<[fl_execution_id fill := fill]> seen) fills
            | None => preflight_fills intent order (<[fl_execution_id fill := fill]> seen) fills
            end
      end
  end.

(** One iteration of the loop that appends the fills. *)
Definition absorb_fill (intent : OrderIntent) (fill : Fill) : P unit :=
  inserted ← add_fill fill;
  if (inserted : bool) then mret ()
  else
    existing ← get_fill_by_execution_id (fl_execution_id fill);
    if bool_decide (existing = Some fill) then mret ()
    else
      persist_review_and_pause intent "conflicting fill" ≫= λ _,
      throw EBrokerMirrorMismatch
        "broker fill conflicts with an existing execution id; reconciliation required".

(** The intent status the broker's status asks for; a live order never makes
    the intent regress. *)
Definition refresh_target (intent : OrderIntent) (order : BrokerOrder) : OrderStatus.t :=
  let target := INTENT_STATUS_BY_BROKER_STATUS (bo_status order) in
  if bool_decide (target = OrderStatus.ACKNOWLEDGED) &&
     bool_decide (oi_status intent ∈ [OrderStatus.PARTIALLY_FILLED; OrderStatus.CANCEL_PENDING])
  then oi_status intent else target.

Definition refresh_from_broker_order (intent : OrderIntent) (order : BrokerOrder)
    : P OrderIntent :=
  fills ← call (list_fills (bo_broker_order_id order));
  preflight_fills intent order ∅ fills ≫= λ _,
  catch (record_broker_order order ≫= λ _, mret ()) (λ e,
    if bool_decide (exn_cls e = EBrokerOrderIdentityConflict) then
      suppress rollback ≫= λ _,
      persist_review_and_pause intent "broker order identity conflict" ≫= λ _,
      throw EBrokerMirrorMismatch
        "broker order identity is already bound to another local order; reconciliation required"
    else rethrow e) ≫= λ _,
  foldM (λ _ fill, absorb_fill intent fill) () fills ≫= λ _,
  let target := refresh_target intent order in
  refreshed ←
    (if negb (bool_decide (target = oi_status intent)) then
       if negb (order_transition_allowed (oi_status intent) target) then
         throw EExecutionState
           "broker order state has no legal intent transition; reconciliation must arbitrate"
       else transition_status (oi_client_order_id intent) target
     else mret intent);
  commit ≫= λ _, mret refreshed.

Definition record_accepted (intent : OrderIntent) (order : BrokerOrder) : P OrderIntent :=
  assert_mirror_matches intent order ≫= λ _,
  refresh_from_broker_order intent order.

Definition submit_while_guarded (submitting : OrderIntent) : P OrderIntent :=
  let cid := oi_client_order_id submitting in
  try_else (broker_submit submitting)
    (λ e,
      if exn_isa (exn_cls e) EBrokerTransport then
        unknown ← transition_status cid OrderStatus.UNKNOWN;
        commit ≫= λ _,
        pause_for_reconciliation_required submitting ambiguous_outcome ≫= λ _,
        mret unknown
      else if exn_isa (exn_cls e) EBrokerConflict then
        transition_status cid OrderStatus.UNKNOWN ≫= λ _,
        commit ≫= λ _,
        pause_for_reconciliation_required submitting ambiguous_outcome ≫= λ _,
        throw EBrokerMirrorMismatch
          "broker reports a conflicting order for our deterministic client id"
      else rethrow e)
    (λ result,
      match result with
      | SubmitRejected _ =>
          rejected ← transition_status cid OrderStatus.REJECTED;
          commit ≫= λ _, mret rejected
      | SubmitAccepted order => record_accepted submitting order
      end).

Definition complete_submission (submitting : OrderIntent) : P OrderIntent :=
  catch (entry_submission_guard submitting (submit_while_guarded submitting)) (λ e,
    if bool_decide (exn_cls e = EExecutionPaused) then
      if bool_decide (oi_status submitting = OrderStatus.SUBMITTING) then
        unknown ← transition_status (oi_client_order_id submitting) OrderStatus.UNKNOWN;
        commit ≫= λ _,
        pause_for_reconciliation_required unknown ambiguous_outcome ≫= λ _,
        mret unknown
      else mret submitting
    else rethrow e).

(** *** The engine's operations *)

Definition submit_from_outbox (client_order_id : string) : P OrderIntent :=
  intent ← require_intent client_order_id;
  if negb (bool_decide (oi_status intent = OrderStatus.OUTBOX_PENDING)) then mret intent
  else
    assert_entries_allowed intent ≫= λ _,
    assert_asset_tradable intent ≫= λ _,
    assert_entries_allowed intent ≫= λ _,
    submitting ← transition_status client_order_id OrderStatus.SUBMITTING;
    commit ≫= λ _,
    complete_submission submitting.

Definition resolve (client_order_id : string) : P OrderIntent :=
  intent ← require_intent client_order_id;
  if negb (bool_decide (oi_status intent ∈ [OrderStatus.SUBMITTING; OrderStatus.UNKNOWN]))
  then mret intent
  else
    order ← call (get_order client_order_id);
    match order with
    | None =>
        now ← clock_now;
        if oi_cancel_at intent <=? now then
          unknown ←
            (if bool_decide (oi_status intent = OrderStatus.SUBMITTING)
             then transition_status client_order_id OrderStatus.UNKNOWN else mret intent);
          commit ≫= λ _, mret unknown
        else complete_submission intent
    | Some order =>
        assert_mirror_matches intent order ≫= λ _,
        record_accepted intent order
    end.

Definition accepted_statuses : list OrderStatus.t :=
  [OrderStatus.ACKNOWLEDGED; OrderStatus.PARTIALLY_FILLED; OrderStatus.CANCEL_PENDING].

Definition no_mirror_message : string :=
  "intent claims broker acceptance but no local mirror exists".
Definition no_order_message : string :=
  "broker no longer knows an order we recorded as accepted".

Definition apply_fills (client_order_id : string) : P OrderIntent :=
  intent ← require_intent client_order_id;
  if negb (bool_decide (oi_status intent ∈ accepted_statuses)) then mret intent
  else
    mirror ← get_broker_order client_order_id;
    match mirror with
    | None => throw EExecutionState no_mirror_message
    | Some _ =>
        order ← call (get_order client_order_id);
        match order with
        | None => throw EBrokerMirrorMismatch no_order_message
        | Some order =>
            assert_mirror_matches intent order ≫= λ _,
            refresh_from_broker_order intent order
        end
    end.

Definition request_cancel (client_order_id : string) : P OrderIntent :=
  intent ← require_intent client_order_id;
  intent ←
    (if bool_decide (oi_status intent = OrderStatus.CANCEL_PENDING) then mret intent
     else if bool_decide (oi_status intent ∈ [OrderStatus.ACKNOWLEDGED;
                                             OrderStatus.PARTIALLY_FILLED]) then
       i ← transition_status client_order_id OrderStatus.CANCEL_PENDING;
       commit ≫= λ _, mret i
     else throw EExecutionState
       "cancel requires an acknowledged, partially filled, or cancel-pending intent");
  mirror ← get_broker_order client_order_id;
  match mirror with
  | None => throw EExecutionState no_mirror_message
  | Some m =>
      broker_cancel (bo_broker_order_id m) ≫= λ _,
      order ← call (get_order client_order_id);
      match order with
      | None => throw EBrokerMirrorMismatch no_order_message
      | Some order =>
          assert_mirror_matches intent order ≫= λ _,
          refresh_from_broker_order intent order
      end
  end.

(** A dict by client order id keeps the position of the first insertion. *)
Fixpoint dict_put (i : OrderIntent) (l : list OrderIntent) : list OrderIntent :=
  match l with
  | [] => [i]
  | j :: l => if bool_decide (oi_client_order_id j = oi_client_order_id i)
              then i :: l else j :: dict_put i l
  end.

Definition overdue (now : Z) (i : OrderIntent) : bool := oi_cancel_at i <=? now.

(** First sweep: the ambiguous intents are resolved by query. *)
Definition expire_ambiguous (now : Z) (closed : list OrderIntent) (status : OrderStatus.t)
    : P (list OrderIntent) :=
  intents ← list_by_status status;
  foldM (λ closed i,
    if overdue now i then
      resolved ← resolve (oi_client_order_id i); mret (dict_put resolved closed)
    else mret closed) closed intents.

(** Second sweep: what never reached the broker expires locally. *)
Definition expire_local (now : Z) (closed : list OrderIntent) (status : OrderStatus.t)
    : P (list OrderIntent) :=
  intents ← list_by_status status;
  foldM (λ closed i,
    if overdue now i then
      expired ← transition_status (oi_client_order_id i) OrderStatus.EXPIRED;
      mret (dict_put expired closed)
    else mret closed) closed intents.

(** Third sweep: what the broker holds is canceled there; a transport failure
    or a conflict leaves the intent to reconciliation.  The first component is
    [handled_client_order_ids]. *)
Definition expire_accepted (now : Z) (acc : gset string * list OrderIntent)
    (status : OrderStatus.t) : P (gset string * list OrderIntent) :=
  intents ← list_by_status status;
  foldM (λ '(handled, closed) i,
    if bool_decide (oi_client_order_id i ∈ handled) then mret (handled, closed)
    else
      let handled := {[oi_client_order_id i]} ∪ handled in
      if overdue now i then
        try_else (request_cancel (oi_client_order_id i))
          (λ e, if exn_isa (exn_cls e) EBrokerTransport
                   || exn_isa (exn_cls e) EExecutionState
                   || exn_isa (exn_cls e) EBrokerMirrorMismatch
                then mret (handled, closed) else rethrow e)
          (λ result, mret (handled, dict_put result closed))
      else mret (handled, closed)) acc intents.

Definition expire_overdue : P (list OrderIntent) :=
  now ← clock_now;
  closed ← foldM (expire_ambiguous now) [] [OrderStatus.SUBMITTING; OrderStatus.UNKNOWN];
  closed ← foldM (expire_local now) closed
    [OrderStatus.CREATED; OrderStatus.RISK_APPROVED; OrderStatus.OUTBOX_PENDING];
  '(_, closed) ← foldM (expire_accepted now) (∅, closed) accepted_statuses;
  (if negb (bool_decide (closed = [])) then commit else mret ()) ≫= λ _,
  mret closed.

Definition recover : P (list OrderIntent) :=
  submitting ← list_by_status OrderStatus.SUBMITTING;
  unknown ← list_by_status OrderStatus.UNKNOWN;
  let by_id := foldl (λ l i, dict_put i l) [] (submitting ++ unknown) in
  foldM (λ resolved i, r ← resolve (oi_client_order_id i); mret (resolved ++ [r])) [] by_id.

Definition engine_list_positions : P (list PaperPosition) := call list_positions.
Definition engine_get_asset (symbol : string) : P (option PaperAsset) :=
  call (get_asset symbol).
End engine.
