(* ===== verification/Raises.v ===== *)
(** * Where [ExecutionPausedError] can come from

    [unpaused m]: [m] does not raise the engine's pause error.  No statement and
    no repository raises it; so when the engine catches it, it came from its own
    guards or from the broker, before anything was written. *)

From S2P Require Import Prelude Text Orders Contracts BrokerPort Store Repos Engine.
Local Open Scope Z_scope.

(** ** Values of the error monad *)

Definition unpaused_outcome {A} (o : outcome A) : Prop :=
  match o with Ok _ => True | Raise e => exn_cls e ≠ EExecutionPaused end.

Lemma uo_guard b c msg : c ≠ EExecutionPaused → unpaused_outcome (guard_that b c msg).
Proof. by destruct b. Qed.
Lemma uo_bind {A C} (o : outcome A) (f : A → outcome C) :
  unpaused_outcome o → (∀ a, unpaused_outcome (f a)) → unpaused_outcome (o ≫= f).
Proof. destruct o; simpl; auto. Qed.
Lemma uo_mapM {A C} (f : A → outcome C) l :
  (∀ a, unpaused_outcome (f a)) → unpaused_outcome (mapM f l).
Proof.
  intros Hf. induction l as [|x l IH]; simpl; [done|].
  apply uo_bind; [done|]. intros y. by apply uo_bind.
Qed.

Ltac uo_step :=
  lazymatch goal with
  | |- ∀ _, _ => intro
  | |- unpaused_outcome (guard_that _ _ _) => apply uo_guard; discriminate
  | |- unpaused_outcome (_ ≫= _) => apply uo_bind
  | |- unpaused_outcome (mapM _ _) => apply uo_mapM
  | |- unpaused_outcome (Ok _) => exact I
  | |- unpaused_outcome (raise _ _) => discriminate
  | |- unpaused_outcome (match ?x with _ => _ end) => destruct x
  | |- unpaused_outcome (let _ := _ in _) => cbv zeta
  | |- unpaused_outcome (?f _ _ _ _ _ _) => unfold f
  | |- unpaused_outcome (?f _ _ _ _ _) => unfold f
  | |- unpaused_outcome (?f _ _ _ _) => unfold f
  | |- unpaused_outcome (?f _ _ _) => unfold f
  | |- unpaused_outcome (?f _ _) => unfold f
  | |- unpaused_outcome (?f _) => unfold f
  end.
Ltac uo_auto := repeat uo_step.

Lemma decode_intent_unpaused i : unpaused_outcome (decode_intent i).
Proof. uo_auto. Qed.
Lemma decode_mirror_unpaused r : unpaused_outcome (decode_mirror r).
Proof. uo_auto. Qed.
Lemma decode_fill_unpaused f : unpaused_outcome (decode_fill f).
Proof. uo_auto. Qed.
Lemma check_ControlState_unpaused c : unpaused_outcome (check_ControlState c).
Proof. uo_auto. Qed.
Lemma check_ControlCommandRecord_unpaused c : unpaused_outcome (check_ControlCommandRecord c).
Proof. uo_auto. Qed.

(** ** Programs *)

Section programs.
Context {E : Env} {B : Type}.

Definition unpaused {W A} (m : M W A) : Prop := ∀ w, unpaused_outcome (m w).1.

Lemma up_ret {W A} (a : A) : unpaused (mret a : M W A).
Proof. done. Qed.
Lemma up_throw {W A} c msg : c ≠ EExecutionPaused → unpaused (throw c msg : M W A).
Proof. intros H w. exact H. Qed.
Lemma up_lift {W A} (o : outcome A) : unpaused_outcome o → unpaused (lift o : M W A).
Proof. intros H w. exact H. Qed.
Lemma up_gets {W A} (f : W → A) : unpaused (gets f).
Proof. done. Qed.
Lemma up_modify {W} (f : W → W) : unpaused (modify f).
Proof. done. Qed.
Lemma up_bind {W A C} (m : M W A) (f : A → M W C) :
  unpaused m → (∀ a, unpaused (f a)) → unpaused (m ≫= f).
Proof.
  intros Hm Hf w. specialize (Hm w). unfold mbind, M_bind.
  destruct (m w) as [[a|e] w']; [apply Hf|done].
Qed.
(** A handler that lets an error through lets only unpaused ones through. *)
Lemma up_catch {W A} (m : M W A) h :
  unpaused m → (∀ e, exn_cls e ≠ EExecutionPaused → unpaused (h e)) → unpaused (catch m h).
Proof.
  intros Hm Hh w. specialize (Hm w). unfold catch.
  destruct (m w) as [[a|e] w']; [done|]. by apply Hh.
Qed.
Lemma up_rethrow {W A} e : exn_cls e ≠ EExecutionPaused → unpaused (rethrow e : M W A).
Proof. intros H w. exact H. Qed.
Lemma up_foldM {W A C} (f : C → A → M W C) :
  (∀ c x, unpaused (f c x)) → ∀ l c, unpaused (foldM f c l).
Proof.
  intros Hf l. induction l as [|x l IH]; intros c; simpl; [apply up_ret|].
  apply up_bind; auto.
Qed.

Lemma up_stmt {A} (f : Z → db → outcome (A * db)) :
  (∀ t d, unpaused_outcome (f t d)) → unpaused (stmt (B:=B) f).
Proof.
  intros Hf w. unfold stmt, require_connection, next_stmt, act, mbind, M_bind, guard_that.
  destruct (w_open w); simpl; [|done]. destruct (w_broken w); [done|].
  destruct (w_aborted w); [done|]. destruct (env_fault _); [|done..].
  specialize (Hf (env_stamp (w_stmt w)) (w_work w)).
  by destruct (f (env_stamp (w_stmt w)) (w_work w)) as [[a d]|e].
Qed.
Lemma up_query {A} (f : db → A) : unpaused (query (B:=B) f).
Proof. by apply up_stmt. Qed.
Lemma up_commit : unpaused (commit (B:=B)).
Proof.
  unfold commit. apply up_bind; [intros w; unfold require_connection; by destruct (w_open w)|].
  intros _. apply up_bind; [|intros _; apply up_bind; [by apply up_stmt|done]].
  intros w. unfold connection_commit, next_stmt, act, mbind, M_bind. simpl.
  destruct (w_broken w); [done|]. by destruct (env_fault _).
Qed.
Lemma up_rollback : unpaused (rollback (B:=B)).
Proof.
  unfold rollback. apply up_bind; [intros w; unfold require_connection; by destruct (w_open w)|].
  intros _. apply up_bind; [|intros _; apply up_bind; [by apply up_stmt|done]].
  intros w. unfold connection_rollback, next_stmt, act, mbind, M_bind. simpl.
  destruct (w_broken w); [done|]. by destruct (env_fault _).
Qed.
Lemma up_clock : unpaused (clock_now (B:=B)).
Proof. done. Qed.
End programs.

Create HintDb unpaused discriminated.
#[export] Hint Constants Opaque : unpaused.
#[export] Hint Variables Opaque : unpaused.
#[export] Hint Resolve up_query up_commit up_rollback up_clock decode_intent_unpaused
  decode_mirror_unpaused decode_fill_unpaused check_ControlState_unpaused
  check_ControlCommandRecord_unpaused : unpaused.
#[export] Hint Extern 2 (unpaused (stmt _)) => apply up_stmt; solve [uo_auto] : unpaused.

Ltac up_step :=
  lazymatch goal with
  | |- ∀ _, _ => intro
  | |- unpaused (mret _) => apply up_ret
  | |- unpaused (throw _ _) => apply up_throw; discriminate
  | |- unpaused (rethrow _) => apply up_rethrow; assumption
  | |- unpaused (lift _) => apply up_lift; solve [eauto with unpaused | uo_auto; eauto with unpaused]
  | |- unpaused (gets _) => apply up_gets
  | |- unpaused (modify _) => apply up_modify
  | |- unpaused (_ ≫= _) => apply up_bind
  | |- unpaused (catch _ _) => apply up_catch
  | |- unpaused (foldM _ _ _) => apply up_foldM
  | |- unpaused (match ?x with _ => _ end) => destruct x
  | |- unpaused ((match ?x with _ => _ end) _) => destruct x
  | |- unpaused (let _ := _ in _) => cbv zeta
  | |- unpaused _ => progress cbv beta
  end.
Ltac up_auto := repeat (first [up_step | solve [eauto with unpaused]]).

Section services.
Context {E : Env} {B : Type} `{!PaperBroker B}.

Lemma decode_up {A R} (f : R → outcome A) r :
  (∀ x, unpaused_outcome (f x)) → unpaused (decode (B:=B) f r).
Proof. intros Hf. unfold decode. destruct r; up_auto. Qed.
#[local] Hint Extern 1 (unpaused (decode _ _)) => apply decode_up; solve [eauto with unpaused]
  : unpaused.
Lemma orders_get_up cid : unpaused (orders_get (B:=B) cid).
Proof. unfold orders_get. up_auto. Qed.
Lemma get_broker_order_up cid : unpaused (get_broker_order (B:=B) cid).
Proof. unfold get_broker_order. up_auto. Qed.
Lemma get_broker_order_by_id_up cid : unpaused (get_broker_order_by_id (B:=B) cid).
Proof. unfold get_broker_order_by_id. up_auto. Qed.
Lemma get_fill_up cid : unpaused (get_fill_by_execution_id (B:=B) cid).
Proof. unfold get_fill_by_execution_id. up_auto. Qed.
Lemma list_by_status_up s : unpaused (list_by_status (B:=B) s).
Proof. unfold list_by_status. up_auto. Qed.
Lemma transition_status_up cid s : unpaused (transition_status (B:=B) cid s).
Proof. unfold transition_status, mark_write. up_auto. Qed.
Lemma record_broker_order_up o : unpaused (record_broker_order (B:=B) o).
Proof. unfold record_broker_order, mark_write. up_auto. Qed.
Lemma add_fill_up f : unpaused (add_fill (B:=B) f).
Proof. unfold add_fill, mark_write. up_auto. Qed.
Lemma set_entries_paused_up b r : unpaused (set_entries_paused (B:=B) b r).
Proof. unfold set_entries_paused, mark_write. up_auto. Qed.
Lemma add_command_up c : unpaused (add_command (B:=B) c).
Proof. unfold add_command, mark_write. up_auto. Qed.
#[local] Hint Resolve orders_get_up get_broker_order_up get_broker_order_by_id_up get_fill_up
  list_by_status_up transition_status_up record_broker_order_up add_fill_up set_entries_paused_up
  add_command_up : unpaused.

Lemma or_control_persistence_error_up {A} (m : M (world B) A) msg :
  unpaused m → unpaused (or_control_persistence_error m msg).
Proof. intros Hm. unfold or_control_persistence_error, suppress. up_auto. Qed.
#[local] Hint Extern 1 (unpaused (or_control_persistence_error _ _)) =>
  apply or_control_persistence_error_up; up_auto : unpaused.
Lemma pause_for_reconciliation_required_up i c :
  unpaused (pause_for_reconciliation_required (B:=B) i c).
Proof. unfold pause_for_reconciliation_required. up_auto. Qed.
#[local] Hint Resolve pause_for_reconciliation_required_up : unpaused.
Lemma persist_review_and_pause_up i c : unpaused (persist_review_and_pause (B:=B) i c).
Proof. unfold persist_review_and_pause. up_auto. Qed.
#[local] Hint Resolve persist_review_and_pause_up : unpaused.
Lemma assert_mirror_matches_up i o : unpaused (assert_mirror_matches (B:=B) i o).
Proof. unfold assert_mirror_matches. up_auto. Qed.
Lemma preflight_fills_up i o seen l : unpaused (preflight_fills (B:=B) i o seen l).
Proof. revert seen. induction l as [|f l IH]; intros seen; simpl; up_auto. Qed.
Lemma absorb_fill_up i f : unpaused (absorb_fill (B:=B) i f).
Proof. unfold absorb_fill. up_auto. Qed.
End services.

#[export] Hint Resolve orders_get_up get_broker_order_up get_broker_order_by_id_up get_fill_up
  list_by_status_up transition_status_up record_broker_order_up add_fill_up set_entries_paused_up
  add_command_up pause_for_reconciliation_required_up persist_review_and_pause_up
  assert_mirror_matches_up preflight_fills_up absorb_fill_up : unpaused.
