(* ===== verification/EngineFacts.v ===== *)
(** * The engine's operations respect every stable relation *)

From S2P Require Import Prelude Text Orders OrderFacts Contracts BrokerPort Store Repos.
From S2P Require Import Stable Engine.
Local Open Scope Z_scope.

Section stable.
Context {E : Env} {B : Type} `{!PaperBroker B} (R : relation (world B)) `{!Stable R}.
#[local] Notation st m := (pres R (m : M (world B) _)).

Lemma engine_control_state_stable source : st (engine_control_state source).
Proof using Type*. unfold engine_control_state. pres_auto. Qed.
Lemma require_intent_stable cid : st (require_intent cid).
Proof using Type*. unfold require_intent. pres_auto. Qed.
#[local] Hint Resolve engine_control_state_stable require_intent_stable : pres.
Lemma assert_entries_allowed_stable source i : st (assert_entries_allowed source i).
Proof using Type*. unfold assert_entries_allowed. pres_auto. Qed.
Lemma assert_asset_tradable_stable i : st (assert_asset_tradable i).
Proof using Type*. unfold assert_asset_tradable. pres_auto. Qed.
Lemma has_unresolved_intents_stable : st has_unresolved_intents.
Proof using Type*. unfold has_unresolved_intents. pres_auto. Qed.
#[local] Hint Resolve assert_entries_allowed_stable assert_asset_tradable_stable
  has_unresolved_intents_stable : pres.
Lemma entry_submission_guard_stable {A} i (m : M (world B) A) :
  st m → st (entry_submission_guard i m).
Proof using Type*. intros Hm. unfold entry_submission_guard. pres_auto. Qed.
Lemma or_control_persistence_error_stable {A} (m : M (world B) A) msg :
  st m → st (or_control_persistence_error m msg).
Proof using Type*. intros Hm. unfold or_control_persistence_error. pres_auto. Qed.
#[local] Hint Extern 2 (pres R (or_control_persistence_error _ _)) =>
  apply or_control_persistence_error_stable; pres_auto : pres.
Lemma pause_for_reconciliation_required_stable i c :
  st (pause_for_reconciliation_required i c).
Proof using Type*. unfold pause_for_reconciliation_required. pres_auto. Qed.
#[local] Hint Resolve pause_for_reconciliation_required_stable : pres.
Lemma persist_review_and_pause_stable i c : st (persist_review_and_pause i c).
Proof using Type*. unfold persist_review_and_pause. pres_auto. Qed.
#[local] Hint Resolve persist_review_and_pause_stable : pres.
Lemma assert_mirror_matches_stable i o : st (assert_mirror_matches i o).
Proof using Type*. unfold assert_mirror_matches. pres_auto. Qed.
Lemma preflight_fills_stable i o seen l : st (preflight_fills i o seen l).
Proof using Type*. revert seen. induction l as [|f l IH]; intros seen; simpl; pres_auto. Qed.
Lemma absorb_fill_stable i f : st (absorb_fill i f).
Proof using Type*. unfold absorb_fill. pres_auto. Qed.
#[local] Hint Resolve assert_mirror_matches_stable preflight_fills_stable
  absorb_fill_stable : pres.
Lemma refresh_from_broker_order_stable i o : st (refresh_from_broker_order i o).
Proof using Type*. unfold refresh_from_broker_order. pres_auto. Qed.
#[local] Hint Resolve refresh_from_broker_order_stable : pres.
Lemma record_accepted_stable i o : st (record_accepted i o).
Proof using Type*. unfold record_accepted. pres_auto. Qed.
Lemma apply_fills_stable cid : st (apply_fills cid).
Proof using Type*. unfold apply_fills. pres_auto. Qed.
Lemma expire_local_stable now l s : st (expire_local now l s).
Proof using Type*. unfold expire_local. pres_auto. Qed.
Lemma request_cancel_stable `{!StableCancel R} cid : st (request_cancel cid).
Proof using Type*. unfold request_cancel. pres_auto. Qed.
#[local] Hint Resolve record_accepted_stable request_cancel_stable : pres.
Lemma expire_accepted_stable `{!StableCancel R} now acc s : st (expire_accepted now acc s).
Proof using Type*. unfold expire_accepted. pres_auto. Qed.

(** Submission. *)
Context `{!StableSubmit R}.
Lemma submit_while_guarded_stable i : st (submit_while_guarded i).
Proof using Type*. unfold submit_while_guarded. pres_auto. Qed.
#[local] Hint Resolve submit_while_guarded_stable entry_submission_guard_stable : pres.
Lemma complete_submission_stable i : st (complete_submission i).
Proof using Type*. unfold complete_submission. pres_auto. Qed.
#[local] Hint Resolve complete_submission_stable : pres.
Lemma submit_from_outbox_stable source cid : st (submit_from_outbox source cid).
Proof using Type*. unfold submit_from_outbox. pres_auto. Qed.
Lemma resolve_stable cid : st (resolve cid).
Proof using Type*. unfold resolve. pres_auto. Qed.
#[local] Hint Resolve resolve_stable : pres.
Lemma expire_ambiguous_stable now l s : st (expire_ambiguous now l s).
Proof using Type*. unfold expire_ambiguous. pres_auto. Qed.
#[local] Hint Resolve expire_ambiguous_stable expire_local_stable expire_accepted_stable : pres.
Lemma expire_overdue_stable `{!StableCancel R} : st expire_overdue.
Proof using Type*. unfold expire_overdue. pres_auto. Qed.
Lemma recover_stable : st recover.
Proof using Type*. unfold recover. pres_auto. Qed.
End stable.

#[export] Hint Resolve engine_control_state_stable require_intent_stable
  assert_entries_allowed_stable assert_asset_tradable_stable has_unresolved_intents_stable
  pause_for_reconciliation_required_stable persist_review_and_pause_stable
  assert_mirror_matches_stable preflight_fills_stable absorb_fill_stable
  refresh_from_broker_order_stable record_accepted_stable apply_fills_stable
  expire_local_stable request_cancel_stable expire_accepted_stable submit_while_guarded_stable
  complete_submission_stable submit_from_outbox_stable resolve_stable expire_ambiguous_stable
  expire_overdue_stable recover_stable : pres.
