(* ===== verification/TradeUpdates.v ===== *)
(** * Trade updates: [src/seven_lens/execution/trade_updates.py]

    The idempotent consumer of broker events: fills are made durable before
    any derived state, status observations are ordered by the broker's time,
    and a conflict is persisted as a review marker and a pause. *)

From S2P Require Import Prelude Text Orders Contracts BrokerPort Store Repos Engine.
Local Open Scope Z_scope.

Inductive TradeUpdateOutcome := APPLIED | DUPLICATE | STALE | UNKNOWN_ORDER.
#[global] Instance TradeUpdateOutcome_eq_dec : EqDecision TradeUpdateOutcome.
Proof. solve_decision. Defined.

Record OrderStatusUpdate := mk_StatusUpdate {
  su_client_order_id : string;
  su_broker_order_id : string;
  su_status : BrokerOrderStatus.t;
  su_filled_quantity : Z;
  su_observed_at : Z;
}.

Definition check_StatusUpdate (u : OrderStatusUpdate) : outcome OrderStatusUpdate :=
  guard_that (negb (is_blank (su_broker_order_id u)) &&
              bool_decide (String.length (su_broker_order_id u) ≤ 100)%nat) EValueError
    "status update requires a bounded broker order id" ≫= λ _,
  guard_that (negb (su_filled_quantity u <? 0)) EValueError
    "status update requires a non-negative filled quantity" ≫= λ _,
  Ok u.

Inductive TradeUpdate := FillUpdate (fill : Fill) | StatusUpdate (update : OrderStatusUpdate).

(** [fill_update]: the convenience constructor. *)
Definition fill_update (execution_id broker_order_id : string) (quantity price_cents occurred_at : Z)
    : outcome TradeUpdate :=
  q ← make_OrderQuantity quantity;
  p ← Price_from_cents price_cents;
  f ← check_Fill (mk_Fill execution_id broker_order_id q p occurred_at);
  Ok (FillUpdate f).

Definition CONFLICT_PAUSE_COMMAND_NAMESPACE : N := 0x2a4d9c4c0bd24b7f9f0a5e4ef4e03b22%N.

(** The consumer's own copy of the status map. *)
Definition INTENT_STATUS_BY_BROKER (s : BrokerOrderStatus.t) : OrderStatus.t :=
  match s with
  | BrokerOrderStatus.RECEIVED => OrderStatus.ACKNOWLEDGED
  | BrokerOrderStatus.ACCEPTED => OrderStatus.ACKNOWLEDGED
  | BrokerOrderStatus.ACCEPTED_FOR_BIDDING => OrderStatus.ACKNOWLEDGED
  | BrokerOrderStatus.PARTIALLY_FILLED => OrderStatus.PARTIALLY_FILLED
  | BrokerOrderStatus.FILLED => OrderStatus.FILLED
  | BrokerOrderStatus.PENDING_CANCEL => OrderStatus.CANCEL_PENDING
  | BrokerOrderStatus.CANCELED => OrderStatus.CANCELED
  | BrokerOrderStatus.EXPIRED => OrderStatus.EXPIRED
  | BrokerOrderStatus.REJECTED => OrderStatus.REJECTED
  | BrokerOrderStatus.DONE_FOR_DAY => OrderStatus.REVIEW_REQUIRED
  | BrokerOrderStatus.REPLACED => OrderStatus.REVIEW_REQUIRED
  | BrokerOrderStatus.PENDING_REPLACE => OrderStatus.REVIEW_REQUIRED
  | BrokerOrderStatus.STOPPED => OrderStatus.REVIEW_REQUIRED
  | BrokerOrderStatus.SUSPENDED => OrderStatus.REVIEW_REQUIRED
  | BrokerOrderStatus.CALCULATED => OrderStatus.REVIEW_REQUIRED
  end.

Section consumer.
Context {E : Env} {B : Type} `{!PaperBroker B}.
Local Notation P := (M (world B)).

Definition conflict_pause_command_id (client_order_id conflict : string) : N :=
  env_uuid5 CONFLICT_PAUSE_COMMAND_NAMESPACE
    (client_order_id +:+ (unit_separator +:+ conflict)).

(** [try: m except Exception: suppress(rollback); raise TradeUpdateError] *)
Definition or_trade_update_error {A} (m : P A) (msg : string) : P A :=
  catch m (λ _, suppress rollback ≫= λ _, throw ETradeUpdate msg).

Definition persist_conflict_marker (client_order_id conflict : string) : P unit :=
  intent ← orders_get client_order_id;
  match intent with
  | None => throw ETradeUpdate
      ("cannot persist unresolved intent after " +:+ (conflict +:+ "; order intent is missing"))
  | Some i =>
      if unresolved (oi_status i) then mret ()
      else or_trade_update_error
        (transition_status client_order_id OrderStatus.REVIEW_REQUIRED ≫= λ _, commit)
        ("failed to persist unresolved intent after " +:+ conflict)
  end.

Definition persist_conflict_pause (client_order_id conflict : string) : P unit :=
  catch (persist_conflict_marker client_order_id conflict) (λ e,
    if bool_decide (exn_cls e = ETradeUpdate) then
      catch (persist_safety_pause ("reconciliation required; " +:+ conflict)) (λ _,
        throw ETradeUpdate
          ("failed to persist unresolved intent and entries_paused after " +:+
           (conflict +:+ "; safety persistence failed"))) ≫= λ _,
      throw ETradeUpdate
        ("failed to persist unresolved intent after " +:+
         (conflict +:+ "; bounded safety pause fallback persisted entries_paused"))
    else rethrow e) ≫= λ _,
  or_trade_update_error
    (set_entries_paused true (Some ("reconciliation required; " +:+ conflict)) ≫= λ _, commit)
    ("failed to persist entries_paused after " +:+ conflict) ≫= λ _,
  or_trade_update_error
    (state ← control_state;
     let now := cs_updated_at state in
     record ← lift (check_ControlCommandRecord
       (mk_ControlCommandRecord (conflict_pause_command_id client_order_id conflict)
          PAUSE_ENTRIES ("automatic pause on " +:+ conflict) "trade_update_consumer" None
          now (Some now)));
     add_command record ≫= λ _, mret ())
    ("failed to persist pause audit after " +:+ (conflict +:+ "; durable pause remains")) ≫= λ _,
  or_trade_update_error commit
    ("failed to commit pause audit after " +:+ (conflict +:+ "; durable pause remains")).

Definition cannot_apply : string :=
  "trade update cannot be applied fail-safely; reconciliation required".

(** The derived work of an update: any failure rolls it back, persists the
    conflict, and surfaces as a TradeUpdateError. *)
Definition derived {A} (client_order_id conflict : string) (m : P A) : P A :=
  catch m (λ e,
    suppress rollback ≫= λ _,
    persist_conflict_pause client_order_id conflict ≫= λ _,
    if bool_decide (exn_cls e = ETradeUpdate) then rethrow e
    else throw ETradeUpdate cannot_apply).

Definition sum_quantities (l : list Fill) : Z := foldl (λ a f, a + fl_quantity f) 0 l.

(** The mirror status after a fill that makes the cumulative quantity
    [new_filled]. *)
Definition fill_broker_target (mirror : BrokerOrder) (new_filled : Z)
    : outcome BrokerOrderStatus.t :=
  let s := bo_status mirror in
  if bool_decide (s ∈ TERMINAL_BROKER_ORDER_STATUSES)
     || bool_decide (s ∈ REVIEW_BROKER_ORDER_STATUSES) then Ok s
  else if bool_decide (s = BrokerOrderStatus.PENDING_CANCEL) then Ok s
  else
    let candidate :=
      if new_filled =? bo_quantity mirror then BrokerOrderStatus.FILLED
      else if 0 <? new_filled then BrokerOrderStatus.PARTIALLY_FILLED else s in
    if bool_decide (candidate = s) then Ok s
    else if broker_order_transition_allowed s candidate then Ok candidate
    else raise ETradeUpdate
      "fill update has no legal broker transition; reconciliation must arbitrate".

Definition fill_intent_target (broker_target : BrokerOrderStatus.t) (current : OrderStatus.t)
    : OrderStatus.t :=
  match broker_target with
  | BrokerOrderStatus.FILLED => OrderStatus.FILLED
  | BrokerOrderStatus.PARTIALLY_FILLED => OrderStatus.PARTIALLY_FILLED
  | BrokerOrderStatus.PENDING_CANCEL => OrderStatus.CANCEL_PENDING
  | _ => current
  end.

(** The body of the [try] after the fill is durable. *)
Definition derive_from_fill (mirror : BrokerOrder) (fill : Fill) : P TradeUpdateOutcome :=
  fills ← orders_list_fills (bo_broker_order_id mirror);
  let total := sum_quantities fills in
  let new_filled := if total <? bo_filled_quantity mirror then bo_filled_quantity mirror
                    else total in
  if bo_quantity mirror <? new_filled then
    throw ETradeUpdate "trade update fills exceed the recorded order quantity"
  else
    let new_observed := if bo_updated_at mirror <? fl_occurred_at fill
                        then Some (fl_occurred_at fill) else None in
    broker_target ← lift (fill_broker_target mirror new_filled);
    if bool_decide (broker_target = bo_status mirror)
       && (new_filled =? bo_filled_quantity mirror) && bool_decide (new_observed = None)
    then mret APPLIED
    else
      update_broker_order_status (bo_broker_order_id mirror) broker_target new_filled
        new_observed ≫= λ _,
      intent ← orders_get (bo_client_order_id mirror);
      match intent with
      | None => mret ()
      | Some i =>
          let intent_target := fill_intent_target broker_target (oi_status i) in
          if bool_decide (intent_target = oi_status i) then mret ()
          else if negb (order_transition_allowed (oi_status i) intent_target) then
            throw ETradeUpdate
              "fill update has no legal intent transition; reconciliation must arbitrate"
          else transition_status (bo_client_order_id mirror) intent_target ≫= λ _, mret ()
      end ≫= λ _,
      commit ≫= λ _, mret APPLIED.

Definition apply_fill_update (fill : Fill) : P TradeUpdateOutcome :=
  mirror ← get_broker_order_by_id (fl_broker_order_id fill);
  match mirror with
  | None => mret UNKNOWN_ORDER
  | Some mirror =>
      inserted ← add_fill fill;
      if negb (inserted : bool) then
        existing ← get_fill_by_execution_id (fl_execution_id fill);
        if negb (bool_decide (existing = Some fill)) then
          suppress rollback ≫= λ _,
          persist_conflict_pause (bo_client_order_id mirror) "conflicting fill" ≫= λ _,
          throw ETradeUpdate
            "duplicate execution id has a conflicting fill; reconciliation required"
        else commit ≫= λ _, mret DUPLICATE
      else
        commit ≫= λ _,
        derived (bo_client_order_id mirror) "conflicting fill" (derive_from_fill mirror fill)
  end.

(** [_transition_intent]: a cancel the broker made goes through CANCEL_PENDING. *)
Definition transition_intent (client_order_id : string) (current target : OrderStatus.t)
    : P unit :=
  (if negb (order_transition_allowed current target) then
     if bool_decide (target = OrderStatus.CANCELED)
        && order_transition_allowed current OrderStatus.CANCEL_PENDING
     then transition_status client_order_id OrderStatus.CANCEL_PENDING ≫= λ _, mret ()
     else throw ETradeUpdate
       "trade update state has no legal intent transition; reconciliation must arbitrate"
   else mret ()) ≫= λ _,
  transition_status client_order_id target ≫= λ _, mret ().

Definition status_intent_target (s : BrokerOrderStatus.t) (current : OrderStatus.t)
    : OrderStatus.t :=
  let target := INTENT_STATUS_BY_BROKER s in
  if bool_decide (target = OrderStatus.ACKNOWLEDGED) &&
     bool_decide (current ∈ [OrderStatus.PARTIALLY_FILLED; OrderStatus.CANCEL_PENDING])
  then current else target.

(** The body of the [try] of a status update. *)
Definition derive_from_status (mirror : BrokerOrder) (intent : OrderIntent)
    (u : OrderStatusUpdate) : P TradeUpdateOutcome :=
  if su_observed_at u =? bo_updated_at mirror then throw ETradeUpdate
    "equal broker timestamp with a conflicting payload; ordering is ambiguous"
  else if su_filled_quantity u <? bo_filled_quantity mirror then throw ETradeUpdate
    "status update would regress filled quantity; reconciliation required"
  else if bo_quantity mirror <? su_filled_quantity u then throw ETradeUpdate
    "status update exceeds the recorded order quantity; reconciliation required"
  else if bool_decide (su_status u = BrokerOrderStatus.FILLED)
          && negb (su_filled_quantity u =? bo_quantity mirror) then throw ETradeUpdate
    "a filled status must carry exactly the full order quantity; reconciliation required"
  else
    (if negb (bool_decide (su_status u = bo_status mirror))
     then lift (assert_broker_order_transition (bo_status mirror) (su_status u))
     else mret ()) ≫= λ _,
    update_broker_order_status (bo_broker_order_id mirror) (su_status u)
      (su_filled_quantity u) (Some (su_observed_at u)) ≫= λ _,
    let intent_target := status_intent_target (su_status u) (oi_status intent) in
    (if negb (bool_decide (intent_target = oi_status intent))
     then transition_intent (su_client_order_id u) (oi_status intent) intent_target
     else mret ()) ≫= λ _,
    commit ≫= λ _, mret APPLIED.

Definition apply_status_update (u : OrderStatusUpdate) : P TradeUpdateOutcome :=
  intent ← orders_get (su_client_order_id u);
  match intent with
  | None => mret UNKNOWN_ORDER
  | Some intent =>
      mirror ← get_broker_order (su_client_order_id u);
      match mirror with
      | None => mret UNKNOWN_ORDER
      | Some mirror =>
          if negb (bool_decide (bo_broker_order_id mirror = su_broker_order_id u))
          then mret UNKNOWN_ORDER
          else if su_observed_at u <? bo_updated_at mirror then mret STALE
          else if bool_decide (su_status u = bo_status mirror)
                  && (su_filled_quantity u =? bo_filled_quantity mirror) then mret DUPLICATE
          else derived (su_client_order_id u) "conflicting status"
                 (derive_from_status mirror intent u)
      end
  end.

Definition apply_trade_update (update : TradeUpdate) : P TradeUpdateOutcome :=
  match update with
  | FillUpdate f => apply_fill_update f
  | StatusUpdate u => apply_status_update u
  end.
End consumer.
