(* ===== verification/ControlPlane.v ===== *)
(** * The control plane: [src/seven_lens/application/control_service.py]

    The operator's pause, resume, cancel and flatten commands over the unit of
    work and the execution engine. *)

From S2P Require Import Prelude Text Orders Ledger Contracts BrokerPort Store Repos Engine.
Local Open Scope Z_scope.

Definition FLATTEN_STRATEGY : string := "control-flatten".
Definition FLATTEN_WINDOW : string := "emergency".
Definition FLATTEN_CONFIRMATION : string := "FLATTEN_PAPER".
Definition FLATTEN_COLLAR_BPS : Z := 500.
(** [timedelta(hours=4)] in microseconds. *)
Definition FLATTEN_CANCEL_HOURS : Z := 14400000000.
Definition UNRESOLVED_FLATTEN_STATUSES : list OrderStatus.t :=
  [OrderStatus.SUBMITTING; OrderStatus.UNKNOWN; OrderStatus.ACKNOWLEDGED;
   OrderStatus.PARTIALLY_FILLED; OrderStatus.CANCEL_PENDING; OrderStatus.REVIEW_REQUIRED].

(** A price provider of the caller: a symbol's price or an exception. *)
Definition price_source : Type := string → outcome Price.

(** The largest fill by [(occurred_at, execution_id)], the first of equals. *)
Definition fill_key_lt (a b : Fill) : bool := negb (fill_leb b a).
Definition max_fill (l : list Fill) : option Fill :=
  foldl (λ acc f, match acc with
                  | Some a => if fill_key_lt a f then Some f else acc
                  | None => Some f end) None l.

Section control.
Context {E : Env} {B : Type} `{!PaperBroker B} (source : control_source).
Context (flatten_prices : option price_source).
Local Notation P := (M (world B)).

(** [{order.broker_order_id: order for order in orders}] *)
Definition orders_by_id (orders : list BrokerOrder) : gmap string BrokerOrder :=
  foldl (λ m o, <[bo_broker_order_id o := o]> m) ∅ orders.

(** [LedgerFlattenPriceProvider.current_price] *)
Fixpoint matching_fills (broker_orders : gmap string BrokerOrder) (symbol : string)
    (fills : list Fill) : outcome (list Fill) :=
  match fills with
  | [] => Ok []
  | fill :: fills =>
      match broker_orders !! fl_broker_order_id fill with
      | None => raise EControlPlane "flatten found a fill without a local broker order"
      | Some order =>
          rest ← matching_fills broker_orders symbol fills;
          Ok (if bool_decide (bo_symbol order = symbol) then fill :: rest else rest)
      end
  end.

Definition ledger_flatten_price (symbol : string) : P Price :=
  orders ← list_all_broker_orders;
  fills ← list_all_fills;
  matching ← lift (matching_fills (orders_by_id orders) symbol fills);
  match max_fill matching with
  | Some f => mret (fl_price f)
  | None => throw EControlPlane "flatten found no local fill price for a projected position"
  end.

Definition flatten_price (symbol : string) : P Price :=
  match flatten_prices with
  | Some f => lift (f symbol)
  | None => ledger_flatten_price symbol
  end.

(** *** The audit log *)

Definition record_command (command : ControlCommand) (reason actor : string) (applied : bool)
    : P unit :=
  now ← clock_now;
  id ← fresh_uuid;
  record ← lift (check_ControlCommandRecord
    (mk_ControlCommandRecord id command reason actor None now
       (if applied then Some now else None)));
  add_command record ≫= λ _, mret ().

Fixpoint lstrip (s : string) : string :=
  match s with
  | String c s' => if is_space c then lstrip s' else s
  | EmptyString => EmptyString
  end.
Fixpoint rev_string (s acc : string) : string :=
  match s with String c s' => rev_string s' (String c acc) | EmptyString => acc end.
(** [text.strip()] *)
Definition strip (s : string) : string :=
  rev_string (lstrip (rev_string (lstrip s) "")) "".

Definition partial_failure_detail (reason : string) (completed total : nat) (error : exn)
    (completed_ids : list string) : string :=
  let ids := if bool_decide (completed_ids = []) then ""
             else " completed_ids=" +:+ join_comma completed_ids in
  take_text 200
    ("PARTIAL_FAILURE " +:+ (int_text (Z.of_nat completed) +:+ ("/" +:+
     (int_text (Z.of_nat total) +:+ (" " +:+ (exn_name (exn_cls error) +:+ (ids +:+
     ("; " +:+ strip reason)))))))).

Definition record_partial_failure (command : ControlCommand) (reason actor : string)
    (completed total : nat) (error : exn) (completed_ids : list string) : P unit :=
  record_command command
    (partial_failure_detail reason completed total error completed_ids) actor false.

(** *** State, pause and resume *)

Definition plane_state : P ControlStateSnapshot := control_state.
Definition entries_allowed : P bool :=
  s ← control_state; mret (negb (cs_entries_paused s)).
Definition plane_assert_entries_allowed : P unit :=
  s ← control_state;
  if cs_entries_paused s then
    throw EControlPlane "entries are paused; resume requires a CLEAN reconciliation"
  else mret ().

Definition pause_entries (reason actor : string) : P ControlStateSnapshot :=
  snapshot ← set_entries_paused true (Some reason);
  record_command PAUSE_ENTRIES reason actor true ≫= λ _,
  commit ≫= λ _, mret snapshot.

Definition resume_entries (actor : string) : P ControlStateSnapshot :=
  submission_guard (λ _,
    latest ← reconciliations_latest;
    match latest with
    | Some r =>
        if is_resume_safe r then
          foldM (λ _ status,
            intents ← list_by_status status;
            if bool_decide (intents = []) then mret ()
            else throw EResumeBlocked
              ("resume blocked while " +:+ (OrderStatus.value status +:+
               " intents remain unresolved"))) ()
            [OrderStatus.UNKNOWN; OrderStatus.REVIEW_REQUIRED] ≫= λ _,
          snapshot ← set_entries_paused false None;
          record_command RESUME_ENTRIES "resume after full-scope CLEAN reconciliation" actor
            true ≫= λ _,
          mret snapshot
        else throw EResumeBlocked
          "resume requires a latest full-scope CLEAN reconciliation run"
    | None => throw EResumeBlocked
          "resume requires a latest full-scope CLEAN reconciliation run"
    end).

(** *** Loops that may fail in the middle *)

(** Run [f] on the candidates; on a failure, the number done and the error. *)
Fixpoint run_each {A} (f : OrderIntent → P A) (done : list A) (l : list OrderIntent)
    : P (list A * option exn) :=
  match l with
  | [] => mret (done, None)
  | i :: l =>
      try_else (f i) (λ e, mret (done, Some e)) (λ a, run_each f (done ++ [a]) l)
  end.

Definition list_by_statuses (statuses : list OrderStatus.t) : P (list OrderIntent) :=
  foldM (λ acc s, l ← list_by_status s; mret (acc ++ l)) [] statuses.

(** What the [except] block does: audit, commit, raise. *)
Definition fail_partially {A} (command : ControlCommand) (reason actor : string)
    (completed total : nat) (error : exn) (ids : list string) (raised : exn) : P A :=
  record_partial_failure command reason actor completed total error ids ≫= λ _,
  commit ≫= λ _, rethrow raised.

Definition control_plane_error (msg : string) : exn := mk_exn EControlPlane msg.

Definition cancel_open_orders (reason actor : string) : P (list OrderIntent) :=
  candidates ← list_by_statuses accepted_statuses;
  '(canceled, failed) ← run_each (λ i, request_cancel (oi_client_order_id i)) [] candidates;
  match failed with
  | Some error =>
      fail_partially CANCEL_OPEN_ORDERS reason actor (length canceled) (length candidates)
        error (oi_client_order_id <$> canceled)
        (control_plane_error "cancel open orders partially failed; inspect the per-order ledger and retry")
  | None =>
      record_command CANCEL_OPEN_ORDERS reason actor true ≫= λ _,
      commit ≫= λ _, mret canceled
  end.

(** *** Flatten *)

Definition positions_by_symbol (l : list PaperPosition) : gmap string Z :=
  foldl (λ m p, <[pp_symbol p := pp_quantity p]> m) ∅ l.

Definition disagreement : string :=
  "flatten aborted: the broker position view disagrees with the local ledger".

Definition assert_positions_agree (projection : LedgerProjection) : P unit :=
  broker_positions ← engine_list_positions;
  if bool_decide (positions_by_symbol broker_positions = positions projection) then mret ()
  else throw EControlPlane disagreement.

(** [projection.positions] in the insertion order of its lots. *)
Definition position_symbols (projection : LedgerProjection) : list string :=
  foldl (λ l lot, if bool_decide (lot_symbol lot ∈ l) then l else l ++ [lot_symbol lot])
    [] (lp_lots projection).

Definition assert_flatten_assets_tradable (projection : LedgerProjection) : P unit :=
  foldM (λ _ symbol,
    asset ← engine_get_asset symbol;
    let refuse := throw EControlPlane
      ("flatten aborted: the broker cannot trade a projected position as US equity " +:+
       symbol) in
    match asset with
    | Some a => if bool_decide (pa_status a = ASSET_ACTIVE) && pa_tradable a
                   && bool_decide (pa_asset_class a = US_EQUITY) then mret () else refuse
    | None => refuse
    end) () (position_symbols projection).

Definition sorted_positions (projection : LedgerProjection) : list (string * Z) :=
  sort_by (λ a b, String.leb a.1 b.1) (map_to_list (positions projection)).

(** A priced position: symbol, quantity and the collar of its exit. *)
Definition priced : Type := string * Z * PriceCollar.

(** The preflight: project, then compare with the broker, price and count. *)
Definition flatten_projection : P LedgerProjection :=
  mirrors ← list_all_broker_orders;
  fills ← list_all_fills;
  lift (project_ledger fills (orders_by_id mirrors)).

Definition flatten_preflight (projection : LedgerProjection) : P (Z * list priced * Z) :=
  assert_positions_agree projection ≫= λ _,
  assert_flatten_assets_tradable projection ≫= λ _,
  now ← clock_now;
  priced_positions ← mapM (λ '(symbol, quantity),
    reference ← flatten_price symbol;
    collar ← lift (make_PriceCollar reference FLATTEN_COLLAR_BPS);
    mret (symbol, quantity, collar)) (sorted_positions projection);
  generation ← bump_flatten_generation;
  mret (now, priced_positions, generation).

(** One exit: created, approved, put in the outbox and submitted. *)
Definition flatten_exit (trading_date : TradingDate) (now cancel_at generation : Z)
    (p : priced) : P OrderIntent :=
  let '(symbol, quantity, collar) := p in
  q ← lift (make_OrderQuantity quantity);
  limit ← lift (lower_limit collar);
  run_id ← fresh_uuid;
  intent_id ← fresh_uuid;
  intent ← lift (OrderIntent_create intent_id FLATTEN_STRATEGY trading_date FLATTEN_WINDOW
    generation symbol OrderSide.SELL q OrderIntentType.RISK_EXIT limit collar now cancel_at
    run_id now);
  orders_add intent ≫= λ _,
  transition_status (oi_client_order_id intent) OrderStatus.RISK_APPROVED ≫= λ _,
  transition_status (oi_client_order_id intent) OrderStatus.OUTBOX_PENDING ≫= λ _,
  result ← submit_from_outbox source (oi_client_order_id intent);
  if bool_decide (oi_status result ∈ [OrderStatus.ACKNOWLEDGED; OrderStatus.PARTIALLY_FILLED;
                                     OrderStatus.FILLED]) then mret result
  else throw EControlPlane
    ("flatten exit was not accepted by the broker for " +:+ (oi_symbol result +:+ (": " +:+
     OrderStatus.value (oi_status result)))).

Fixpoint run_exits (f : priced → P OrderIntent) (done : list OrderIntent) (l : list priced)
    : P (list OrderIntent * option exn) :=
  match l with
  | [] => mret (done, None)
  | p :: l =>
      try_else (f p) (λ e, mret (done, Some e)) (λ r, run_exits f (done ++ [r]) l)
  end.

Section flatten.
Context (trading_date : TradingDate) (reason actor : string).

Definition fail_flatten {A} (completed total : nat) (error : exn) (ids : list string)
    (raised : exn) : P A :=
  fail_partially FLATTEN_PAPER reason actor completed total error ids raised.

(** The first three phases: resolve, cancel, refresh. *)
Definition flatten_converge : P unit :=
  ambiguous ← list_by_statuses [OrderStatus.SUBMITTING; OrderStatus.UNKNOWN];
  '(resolved, failed) ← run_each (λ i, resolve (oi_client_order_id i)) [] ambiguous;
  match failed with
  | Some error => fail_flatten (length resolved) (length ambiguous) error []
      (control_plane_error
         "flatten partially failed while resolving ambiguous orders; entries remain paused")
  | None => mret ()
  end ≫= λ _,
  cancel_candidates ← list_by_statuses accepted_statuses;
  '(canceled, failed) ← run_each (λ i, request_cancel (oi_client_order_id i) ≫= λ _,
                                   mret (oi_client_order_id i)) [] cancel_candidates;
  match failed with
  | Some error => fail_flatten (length canceled) (length cancel_candidates) error canceled
      (control_plane_error
         "flatten partially failed while canceling open orders; entries remain paused")
  | None => mret ()
  end ≫= λ _,
  refresh_candidates ← list_by_statuses accepted_statuses;
  '(refreshed, failed) ← run_each (λ i, apply_fills (oi_client_order_id i)) []
                           refresh_candidates;
  match failed with
  | Some error => fail_flatten (length refreshed) (length refresh_candidates) error []
      (control_plane_error
         "flatten partially failed while refreshing canceled orders; entries remain paused")
  | None => mret ()
  end.

Definition unresolved_message : string :=
  "one or more broker orders remain unresolved after cancellation".

(** The last two phases: preflight and exits. *)
Definition flatten_exits : P (list OrderIntent) :=
  let preflight_failed (total : nat) (error : exn) : P (list OrderIntent) :=
    fail_flatten 0 total error []
      (if exn_isa (exn_cls error) EControlPlane then error
       else control_plane_error "flatten preflight failed; entries remain paused") in
  try_else flatten_projection (preflight_failed 0%nat) (λ projection,
  let total := length (sorted_positions projection) in
  try_else (flatten_preflight projection) (preflight_failed total)
  (λ '(now, priced_positions, generation),
    '(submitted, failed) ←
      run_exits (flatten_exit trading_date now (now + FLATTEN_CANCEL_HOURS) generation) []
        priced_positions;
    match failed with
    | Some error => fail_flatten (length submitted) total error
        (oi_client_order_id <$> submitted)
        (control_plane_error
           "flatten partially failed while submitting exits; entries remain paused")
    | None =>
        record_command FLATTEN_PAPER reason actor true ≫= λ _,
        commit ≫= λ _, mret submitted
    end)).

Definition flatten_paper (confirmation : string) : P (list OrderIntent) :=
  if negb (bool_decide (confirmation = FLATTEN_CONFIRMATION)) then
    throw EControlPlane "flatten requires the explicit FLATTEN_PAPER confirmation"
  else
  snapshot ← control_state;
  if negb (cs_entries_paused snapshot) then
    throw EControlPlane "flatten requires entries to be paused first"
  else
  flatten_converge ≫= λ _,
  unresolved ← list_by_statuses UNRESOLVED_FLATTEN_STATUSES;
  if negb (bool_decide (unresolved = [])) then
    fail_flatten 0 (length unresolved) (control_plane_error unresolved_message) []
      (control_plane_error ("flatten aborted: " +:+ unresolved_message))
  else flatten_exits.
End flatten.
End control.
