(* ===== verification/Reconciler.v ===== *)
(** * Reconciliation: [src/seven_lens/application/reconciliation_service.py]

    The comparison of the broker's account, orders, fills and positions with
    the local tables, and the run that records it and pauses on a mismatch. *)

From S2P Require Import Prelude Text Orders Ledger Contracts BrokerPort Store Repos Engine.
From S2P Require Import ControlPlane.
Local Open Scope Z_scope.

(** [timedelta(days=1)] in microseconds. *)
Definition HISTORY_OVERLAP : Z := 86400000000.

Record AccountReconciliationPolicy := mk_AccountPolicy {
  ap_expected_account_id : string;
  ap_cash_tolerance_cents : Z;
  ap_nav_tolerance_cents : Z;
}.

Definition make_AccountPolicy (account_id : string) (cash_tolerance nav_tolerance : Z)
    : outcome AccountReconciliationPolicy :=
  guard_that (valid_account_id account_id) EValueError
    "expected_account_id must be non-empty text up to 100 characters" ≫= λ _,
  guard_that (negb (cash_tolerance <? 0)) EValueError
    "cash_tolerance_cents must be a non-negative integer" ≫= λ _,
  guard_that (negb (nav_tolerance <? 0)) EValueError
    "nav_tolerance_cents must be a non-negative integer" ≫= λ _,
  Ok (mk_AccountPolicy account_id cash_tolerance nav_tolerance).

Definition TERMINAL_INTENT_STATUSES : list OrderStatus.t :=
  [OrderStatus.FILLED; OrderStatus.CANCELED; OrderStatus.EXPIRED; OrderStatus.REJECTED].

(** Midnight UTC of a date, in microseconds since 1970-01-01. *)
Definition days_from_civil (d : TradingDate) : Z :=
  let y := if td_month d <=? 2 then td_year d - 1 else td_year d in
  let era := y `div` 400 in
  let yoe := y - era * 400 in
  let m := (td_month d + 9) `mod` 12 in
  let doy := ((153 * m + 2) `div` 5) + td_day d - 1 in
  let doe := yoe * 365 + (yoe `div` 4) - (yoe `div` 100) + doy in
  era * 146097 + doe - 719468.
Definition midnight (d : TradingDate) : Z := days_from_civil d * HISTORY_OVERLAP.

(** The running lists and counters of [collect]. *)
Record collected := mk_collected {
  co_mismatches : list ReconciliationMismatch;
  co_orders : Z;
  co_fills : Z;
}.

Definition add_mismatch (kind : MismatchKind) (detail : string) (c : collected)
    : outcome collected :=
  m ← make_Mismatch kind detail;
  Ok (mk_collected (co_mismatches c ++ [m]) (co_orders c) (co_fills c)).
Definition mismatch_if (b : bool) (kind : MismatchKind) (detail : string) (c : collected)
    : outcome collected :=
  if b then add_mismatch kind detail c else Ok c.
Definition count_order (c : collected) : collected :=
  mk_collected (co_mismatches c) (co_orders c + 1) (co_fills c).
Definition count_fill (c : collected) : collected :=
  mk_collected (co_mismatches c) (co_orders c) (co_fills c + 1).

Fixpoint foldO {A S} (f : S → A → outcome S) (s : S) (l : list A) : outcome S :=
  match l with [] => Ok s | x :: l => s' ← f s x; foldO f s' l end.

(** Broker fills the local ledger does not have. *)
Definition compare_fills (local_fill_ids : gset string) (c : collected) (fills : list Fill)
    : outcome collected :=
  foldO (λ c f, mismatch_if (negb (bool_decide (fl_execution_id f ∈ local_fill_ids)))
                  MISSING_LOCAL_FILL (fl_execution_id f) (count_fill c)) c fills.

(** Positions, by symbol in order. *)
Definition compare_positions (projected broker : gmap string Z) (c : collected)
    : outcome collected :=
  foldO (λ c symbol,
    match projected !! symbol, broker !! symbol with
    | Some p, Some q =>
        mismatch_if (negb (p =? q)) POSITION_QUANTITY_MISMATCH symbol c
    | None, None => Ok c
    | _, _ => add_mismatch POSITION_SYMBOL_MISMATCH symbol c
    end) c (sort_by String.leb (elements (dom projected ∪ dom broker : gset string))).

(** The fills after the baseline's cutoff. *)
Definition post_baseline (b : AccountBaseline) (f : Fill) : bool :=
  match ab_cutoff_occurred_at b, ab_cutoff_execution_id b with
  | Some at_, Some id_ =>
      (at_ <? fl_occurred_at f) ||
      ((fl_occurred_at f =? at_) && negb (String.leb (fl_execution_id f) id_))
  | Some at_, None => at_ <? fl_occurred_at f
  | None, _ => ab_effective_at b <=? fl_occurred_at f
  end.

(** The direct sum of the cash effects, bounded at every step. *)
Definition cash_delta (orders : gmap string BrokerOrder) (fills : list Fill) : outcome Z :=
  foldO (λ acc f,
    match orders !! fl_broker_order_id f with
    | None => raise ELedgerInvariant "fill references an unknown broker order"
    | Some o =>
        let acc := match bo_side o with
                   | OrderSide.BUY => acc - fl_quantity f * Price_cents (fl_price f)
                   | OrderSide.SELL => acc + fl_quantity f * Price_cents (fl_price f) end in
        guard_that (negb (1000000000000 <? Z.abs acc)) ELedgerInvariant
          "projected cash delta exceeds the allowed range" ≫= λ _,
        Ok acc
    end) 0 fills.

Definition expected_got (a b : Z) : string :=
  "expected " +:+ (int_text a +:+ (" got " +:+ int_text b)).

Definition text_or (text fallback : string) : string :=
  if is_blank text then fallback else take_text 200 text.

Fixpoint remove_nul (s : string) : string :=
  match s with
  | EmptyString => EmptyString
  | String c s' => if is_char "000" c then remove_nul s' else String c (remove_nul s')
  end.

Section reconciler.
Context {E : Env} {B : Type} `{!PaperBroker B}.
Context (policy : option AccountReconciliationPolicy) (prices : option price_source).
Local Notation P := (M (world B)).

Definition history_horizon (trading_date : TradingDate) : P Z :=
  latest ← reconciliations_latest;
  mret (match latest with
        | Some r => rr_observed_at r - HISTORY_OVERLAP
        | None => midnight trading_date - HISTORY_OVERLAP
        end).

(** REVIEW_REQUIRED and UNKNOWN intents are mismatches. *)
Definition collect_unresolved (c : collected) (status : OrderStatus.t) : P collected :=
  intents ← list_by_status status;
  lift (foldO (λ c i, add_mismatch INTENT_STATUS_MISMATCH (oi_client_order_id i) c) c intents).

(** One open local mirror against the broker. *)
Definition collect_open_mirror (c : collected) (mirror : BrokerOrder) : P collected :=
  let c := count_order c in
  let bid := bo_broker_order_id mirror in
  broker_order ← call (get_order (bo_client_order_id mirror));
  match broker_order with
  | None => lift (add_mismatch MISSING_BROKER_ORDER bid c)
  | Some o =>
      intent ← orders_get (bo_client_order_id mirror);
      c ← lift (
        match intent with
        | Some i =>
            c ← mismatch_if (negb (bool_decide (bo_symbol o = oi_symbol i) &&
                                   bool_decide (bo_side o = oi_side i) &&
                                   bool_decide (bo_quantity o = oi_quantity i) &&
                                   bool_decide (bo_limit_price o = oi_limit_price i)))
                  PARAMETER_MISMATCH bid c;
            mismatch_if (bool_decide (oi_status i ∈ TERMINAL_INTENT_STATUSES) && is_open o)
              INTENT_STATUS_MISMATCH bid c
        | None => Ok c
        end);
      c ← lift (mismatch_if (negb (bool_decide (bo_status o = bo_status mirror)))
                  STATUS_MISMATCH bid c);
      local ← orders_list_fills bid;
      fills ← call (list_fills bid);
      lift (compare_fills (list_to_set (fl_execution_id <$> local)) c fills)
  end.

(** A mirror that is closed here but still open at the broker. *)
Definition collect_closed_mirror (checked : gset string) (c : collected) (mirror : BrokerOrder)
    : P collected :=
  if bool_decide (bo_broker_order_id mirror ∈ checked) then mret c
  else
    broker_order ← call (get_order (bo_client_order_id mirror));
    match broker_order with
    | Some o =>
        if is_open o
        then lift (add_mismatch STATUS_MISMATCH (bo_broker_order_id mirror) (count_order c))
        else mret c
    | None => mret c
    end.

(** The broker's open orders: all must be known. *)
Definition collect_reported (known : gset string)
    (acc : collected * gmap string BrokerOrder) (o : BrokerOrder)
    : outcome (collected * gmap string BrokerOrder) :=
  let '(c, reported) := acc in
  c ← mismatch_if (negb (bool_decide (bo_client_order_id o ∈ known)))
        UNKNOWN_BROKER_ORDER (bo_broker_order_id o) (count_order c);
  Ok (c, <[bo_broker_order_id o := o]> reported).

Definition already_reported (reported : gmap string BrokerOrder) (o : BrokerOrder) : bool :=
  match reported !! bo_broker_order_id o with
  | Some s => (bo_updated_at o <? bo_updated_at s) ||
              ((bo_updated_at o =? bo_updated_at s) && bool_decide (bo_status o = bo_status s))
  | None => false
  end.

(** One order of the broker's closed history. *)
Definition collect_history (acc : collected * gmap string BrokerOrder) (o : BrokerOrder)
    : P (collected * gmap string BrokerOrder) :=
  let '(c, reported) := acc in
  if already_reported reported o || is_open o then mret (c, reported)
  else
    let reported := <[bo_broker_order_id o := o]> reported in
    let c := count_order c in
    closed ← get_broker_order (bo_client_order_id o);
    match closed with
    | None =>
        c ← lift (add_mismatch UNKNOWN_BROKER_ORDER (bo_broker_order_id o) c);
        mret (c, reported)
    | Some mirror =>
        c ← lift (mismatch_if (negb (bool_decide (bo_status o = bo_status mirror)))
                    STATUS_MISMATCH (bo_broker_order_id mirror) c);
        local ← orders_list_fills (bo_broker_order_id mirror);
        fills ← call (list_fills (bo_broker_order_id o));
        c ← lift (compare_fills (list_to_set (fl_execution_id <$> local)) c fills);
        mret (c, reported)
    end.

(** Net asset value against the broker's equity. *)
Definition collect_nav (p : AccountReconciliationPolicy) (account : PaperAccount)
    (projection : LedgerProjection) (expected_cash : Z) (c : collected) : outcome collected :=
  let equity := UsdAmount_cents (ac_equity account) in
  let compare nav c :=
    mismatch_if (ap_nav_tolerance_cents p <? Z.abs (equity - nav)) NAV_MISMATCH
      (expected_got nav equity) c in
  match prices with
  | None =>
      if negb (bool_decide (positions projection = ∅)) then
        add_mismatch ACCOUNT_RECONCILIATION_UNAVAILABLE "missing mark price provider" c
      else compare expected_cash c
  | Some current_price =>
      let marked :=
        m ← foldO (λ m symbol, price ← current_price symbol; Ok (<[symbol := price]> m)) ∅
              (position_symbols projection);
        nav ← account_equity_from_cash_and_positions expected_cash (lp_lots projection) m;
        compare nav c in
      match marked with
      | Raise e =>
          if bool_decide (exn_cls e = EMarkPriceUnavailable) then
            add_mismatch ACCOUNT_RECONCILIATION_UNAVAILABLE
              (text_or (exn_msg e) "mark price unavailable") c
          else Raise e
      | Ok c => Ok c
      end
  end.

(** Account identity, buying power, cash and NAV. *)
Definition collect_account (p : AccountReconciliationPolicy) (account : PaperAccount)
    (projection : LedgerProjection) (c : collected) : P collected :=
  c ← lift (mismatch_if (negb (bool_decide (ac_account_id account = ap_expected_account_id p)))
              ACCOUNT_ID_MISMATCH (take_text 100 (ac_account_id account)) c);
  let buying_power := UsdAmount_cents (ac_buying_power account) in
  c ← lift (mismatch_if (buying_power <? 0) BUYING_POWER_MISMATCH
              (take_text 200 (int_text buying_power)) c);
  baseline ← get_baseline (ac_account_id account);
  match baseline with
  | None => lift (add_mismatch ACCOUNT_RECONCILIATION_UNAVAILABLE
                    "missing opening cash baseline" c)
  | Some b =>
      all_fills ← list_all_fills;
      let post_fills := filter (λ f, post_baseline b f = true) all_fills in
      mirrors ← list_all_broker_orders;
      lift (
        guard_that (negb (ab_opening_cash_cents b <? 0)) ETypeError
          "baseline opening_cash_cents must be a non-negative integer" ≫= λ _,
        delta ← cash_delta (orders_by_id mirrors) post_fills;
        let expected_cash := ab_opening_cash_cents b + delta in
        let broker_cash := UsdAmount_cents (ac_cash account) in
        c ← mismatch_if (ap_cash_tolerance_cents p <? Z.abs (broker_cash - expected_cash))
              CASH_MISMATCH (expected_got expected_cash broker_cash) c;
        collect_nav p account projection expected_cash c)
  end.

(** The passes over orders and fills; also the account read at the start. *)
Definition collect_orders (trading_date : TradingDate) : P (PaperAccount * collected) :=
  begin_reconciliation_snapshot ≫= λ _,
  acct ← call account;
  c ← lift (mismatch_if (negb (bool_decide (ac_environment acct = PAPER))) NON_PAPER_ACCOUNT
              "broker account does not assert PAPER" (mk_collected [] 0 0));
  c ← foldM collect_unresolved c [OrderStatus.REVIEW_REQUIRED; OrderStatus.UNKNOWN];
  local_mirrors ← list_open_broker_orders;
  c ← foldM collect_open_mirror c local_mirrors;
  let checked := list_to_set (bo_broker_order_id <$> local_mirrors) in
  mirrors ← list_all_broker_orders;
  c ← foldM (collect_closed_mirror checked) c mirrors;
  known ← list_all_broker_orders;
  open_orders ← call list_open_orders;
  '(c, reported) ← lift (foldO (collect_reported
      (list_to_set (bo_client_order_id <$> known))) (c, ∅) open_orders);
  horizon ← history_horizon trading_date;
  recent ← call (list_recent_orders horizon);
  '(c, _) ← foldM collect_history (c, reported) recent;
  mret (acct, c).

(** The ledger's projection against the broker's positions and account. *)
Definition collect_ledger (acct : PaperAccount) (c : collected) : P collected :=
  fills ← list_all_fills;
  ledger_orders ← list_all_broker_orders;
  projection ← lift (project_ledger fills (orders_by_id ledger_orders));
  broker_positions ← call list_positions;
  c ← lift (compare_positions (positions projection) (positions_by_symbol broker_positions) c);
  match policy with
  | Some p => collect_account p acct projection c
  | None => mret c
  end.

Definition collect (trading_date : TradingDate) : P ReconciliationResult :=
  '(acct, c) ← collect_orders trading_date;
  c ← collect_ledger acct c;
  now ← clock_now;
  run_id ← fresh_uuid;
  lift (ReconciliationResult_create trading_date (co_mismatches c) (co_orders c) (co_fills c)
          now run_id (match policy with Some _ => SCOPE_FULL | None => SCOPE_PARTIAL end)).

(** The result of a run that could not compare. *)
Definition failed_run (trading_date : TradingDate) (kind : MismatchKind) (detail : string)
    : P ReconciliationResult :=
  m ← lift (make_Mismatch kind detail);
  now ← clock_now;
  run_id ← fresh_uuid;
  lift (ReconciliationResult_create trading_date [m] 0 0 now run_id SCOPE_PARTIAL).

Definition ledger_detail (msg : string) : string :=
  let d := strip (take_text 200 (remove_nul (text_or msg "ledger invariant failure"))) in
  if bool_decide (d = "") then "ledger invariant failure" else d.

Definition reconciler_run (trading_date : TradingDate) : P ReconciliationResult :=
  result ← catch (collect trading_date) (λ e,
    if exn_isa (exn_cls e) EBrokerTransport then
      failed_run trading_date BROKER_QUERY_FAILURE
        "broker query failed during reconciliation"
    else if exn_isa (exn_cls e) ELedgerInvariant then
      failed_run trading_date LOCAL_LEDGER_INVARIANT (ledger_detail (exn_msg e))
    else rethrow e);
  reconciliations_add result ≫= λ _,
  (if bool_decide (rr_status result = RECON_MISMATCH) then
     set_entries_paused true (Some "reconciliation mismatch") ≫= λ _,
     now ← clock_now;
     id ← fresh_uuid;
     record ← lift (check_ControlCommandRecord
       (mk_ControlCommandRecord id PAUSE_ENTRIES "automatic pause on reconciliation mismatch"
          "reconciler" None now (Some now)));
     add_command record ≫= λ _, mret ()
   else mret ()) ≫= λ _,
  commit ≫= λ _, mret result.
End reconciler.
