(* ===== verification/ServiceFacts.v ===== *)
(** * The services respect every stable relation

    Trade updates, reconciliation and the operator's commands are built from
    operations that respect a [Stable] relation; hence they respect it. *)

From S2P Require Import Prelude Text Orders Ledger Contracts BrokerPort Store Repos Stable.
From S2P Require Import Engine EngineFacts TradeUpdates ControlPlane Reconciler.
Local Open Scope Z_scope.

Section services.
Context {E : Env} {B : Type} `{!PaperBroker B} (R : relation (world B)) `{!Stable R}.
#[local] Notation st m := (pres R (m : M (world B) _)).

(** ** Trade updates *)

Lemma or_trade_update_error_stable {A} (m : M (world B) A) msg :
  st m → st (or_trade_update_error m msg).
Proof using Type*. intros Hm. unfold or_trade_update_error. pres_auto. Qed.
#[local] Hint Extern 2 (pres R (or_trade_update_error _ _)) =>
  apply or_trade_update_error_stable; pres_auto : pres.
Lemma persist_conflict_marker_stable cid c : st (persist_conflict_marker cid c).
Proof using Type*. unfold persist_conflict_marker. pres_auto. Qed.
#[local] Hint Resolve persist_conflict_marker_stable : pres.
Lemma persist_conflict_pause_stable cid c : st (persist_conflict_pause cid c).
Proof using Type*. unfold persist_conflict_pause. pres_auto. Qed.
#[local] Hint Resolve persist_conflict_pause_stable : pres.
Lemma derived_stable {A} cid c (m : M (world B) A) : st m → st (derived cid c m).
Proof using Type*. intros Hm. unfold derived. pres_auto. Qed.
Lemma derive_from_fill_stable m f : st (derive_from_fill m f).
Proof using Type*. unfold derive_from_fill. pres_auto. Qed.
Lemma transition_intent_stable cid a b : st (transition_intent cid a b).
Proof using Type*. unfold transition_intent. pres_auto. Qed.
#[local] Hint Resolve derived_stable derive_from_fill_stable transition_intent_stable : pres.
Lemma derive_from_status_stable m i u : st (derive_from_status m i u).
Proof using Type*. unfold derive_from_status. pres_auto. Qed.
#[local] Hint Resolve derive_from_status_stable : pres.
Lemma apply_trade_update_stable u : st (apply_trade_update u).
Proof using Type*.
  destruct u as [f|u]; simpl; [unfold apply_fill_update|unfold apply_status_update]; pres_auto.
Qed.

(** ** The control plane *)

Lemma ledger_flatten_price_stable s : st (ledger_flatten_price s).
Proof using Type*. unfold ledger_flatten_price. pres_auto. Qed.
#[local] Hint Resolve ledger_flatten_price_stable : pres.
Lemma flatten_price_stable prices s : st (flatten_price prices s).
Proof using Type*. unfold flatten_price. pres_auto. Qed.
Lemma record_command_stable c r a b : st (record_command c r a b).
Proof using Type*. unfold record_command. pres_auto. Qed.
#[local] Hint Resolve flatten_price_stable record_command_stable : pres.
Lemma fail_partially_stable {A} c r a n t e l x : st (fail_partially (A:=A) c r a n t e l x).
Proof using Type*. unfold fail_partially, record_partial_failure. pres_auto. Qed.
Lemma list_by_statuses_stable l : st (list_by_statuses l).
Proof using Type*. unfold list_by_statuses. pres_auto. Qed.
Lemma run_each_stable {A} (f : OrderIntent → M (world B) A) d l :
  (∀ i, st (f i)) → st (run_each f d l).
Proof using Type*. intros Hf. revert d. induction l as [|i l IH]; intros d; simpl; pres_auto. Qed.
#[local] Hint Extern 2 (pres R (run_each _ _ _)) =>
  apply run_each_stable; pres_auto : pres.
#[local] Hint Resolve fail_partially_stable list_by_statuses_stable : pres.

Lemma plane_state_stable : st plane_state.
Proof using Type*. unfold plane_state. pres_auto. Qed.
Lemma entries_allowed_stable : st entries_allowed.
Proof using Type*. unfold entries_allowed. pres_auto. Qed.
Lemma plane_assert_entries_allowed_stable : st plane_assert_entries_allowed.
Proof using Type*. unfold plane_assert_entries_allowed. pres_auto. Qed.
Lemma pause_entries_stable r a : st (pause_entries r a).
Proof using Type*. unfold pause_entries. pres_auto. Qed.
Lemma resume_entries_stable `{!StableResume R} a : st (resume_entries a).
Proof using Type*. unfold resume_entries. pres_auto. Qed.
Lemma cancel_open_orders_stable `{!StableCancel R} r a : st (cancel_open_orders r a).
Proof using Type*. unfold cancel_open_orders. pres_auto. Qed.

Lemma flatten_projection_stable : st flatten_projection.
Proof using Type*. unfold flatten_projection. pres_auto. Qed.
Lemma flatten_preflight_stable prices p : st (flatten_preflight prices p).
Proof using Type*.
  unfold flatten_preflight, assert_positions_agree, assert_flatten_assets_tradable,
    engine_list_positions, engine_get_asset. pres_auto.
Qed.
(** ** The reconciler *)

Lemma history_horizon_stable d : st (history_horizon d).
Proof using Type*. unfold history_horizon. pres_auto. Qed.
Lemma collect_unresolved_stable c s : st (collect_unresolved c s).
Proof using Type*. unfold collect_unresolved. pres_auto. Qed.
Lemma collect_open_mirror_stable c m : st (collect_open_mirror c m).
Proof using Type*. unfold collect_open_mirror. pres_auto. Qed.
Lemma collect_closed_mirror_stable s c m : st (collect_closed_mirror s c m).
Proof using Type*. unfold collect_closed_mirror. pres_auto. Qed.
Lemma collect_history_stable acc o : st (collect_history acc o).
Proof using Type*. unfold collect_history. pres_auto. Qed.
Lemma collect_account_stable prices p a l c : st (collect_account prices p a l c).
Proof using Type*. unfold collect_account. pres_auto. Qed.
#[local] Hint Resolve history_horizon_stable collect_unresolved_stable
  collect_open_mirror_stable collect_closed_mirror_stable collect_history_stable
  collect_account_stable : pres.
Lemma collect_stable policy prices d : st (collect policy prices d).
Proof using Type*. unfold collect, collect_orders, collect_ledger. pres_auto. Qed.
Lemma failed_run_stable d k s : st (failed_run d k s).
Proof using Type*. unfold failed_run. pres_auto. Qed.
#[local] Hint Resolve collect_stable failed_run_stable : pres.
Lemma reconciler_run_stable policy prices d : st (reconciler_run policy prices d).
Proof using Type*. unfold reconciler_run. pres_auto. Qed.
(** ** Flatten submits and cancels *)
Lemma run_exits_stable f d l : (∀ p, st (f p)) → st (run_exits f d l).
Proof using Type*. intros Hf. revert d. induction l as [|i l IH]; intros d; simpl; pres_auto. Qed.

Context `{!StableSubmit R, !StableCancel R}.
Lemma flatten_exit_stable source d n c g p : st (flatten_exit source d n c g p).
Proof using Type*. unfold flatten_exit. pres_auto. Qed.
#[local] Hint Resolve flatten_projection_stable flatten_preflight_stable
  flatten_exit_stable : pres.
#[local] Hint Extern 2 (pres R (run_exits _ _ _)) =>
  apply run_exits_stable; pres_auto : pres.
Lemma flatten_converge_stable r a : st (flatten_converge r a).
Proof using Type*. unfold flatten_converge, fail_flatten. pres_auto. Qed.
Lemma flatten_exits_stable source prices d r a : st (flatten_exits source prices d r a).
Proof using Type*. unfold flatten_exits, fail_flatten. pres_auto. Qed.
#[local] Hint Resolve flatten_converge_stable flatten_exits_stable : pres.
Lemma flatten_paper_stable source prices d r a c :
  st (flatten_paper source prices d r a c).
Proof using Type*. unfold flatten_paper, fail_flatten. pres_auto. Qed.
End services.

#[export] Hint Resolve persist_conflict_pause_stable derived_stable derive_from_fill_stable
  derive_from_status_stable apply_trade_update_stable ledger_flatten_price_stable
  flatten_price_stable record_command_stable fail_partially_stable list_by_statuses_stable
  plane_state_stable entries_allowed_stable plane_assert_entries_allowed_stable
  pause_entries_stable resume_entries_stable cancel_open_orders_stable
  flatten_projection_stable flatten_preflight_stable flatten_exit_stable
  flatten_converge_stable flatten_exits_stable flatten_paper_stable history_horizon_stable
  collect_unresolved_stable collect_open_mirror_stable collect_closed_mirror_stable
  collect_history_stable collect_account_stable collect_stable failed_run_stable
  reconciler_run_stable : pres.
#[export] Hint Extern 2 (pres _ (run_each _ _ _)) =>
  apply run_each_stable; [apply _|pres_auto] : pres.
#[export] Hint Extern 2 (pres _ (run_exits _ _ _)) =>
  apply run_exits_stable; [apply _|pres_auto] : pres.
