(* ===== verification/Safety.v ===== *)
(** * Submission safety

    Every order the engine sends was durably recorded before it was sent, and an
    entry order is sent only while the durable control row allows entries and
    no durable intent is unresolved - whatever the broker answers and whatever
    statement fails. *)

From S2P Require Import Prelude Text Orders OrderFacts Ledger Contracts BrokerPort Store Repos.
From S2P Require Import Stable Evolve Clean RepoFacts Engine Raises EngineFacts TradeUpdates.
From S2P Require Import ControlPlane Reconciler ServiceFacts.
Local Open Scope Z_scope.

(** ** Statement *)

(** Sending [i] is allowed while [d] is what is durable. *)
Definition submission_allowed (i : OrderIntent) (d : db) : Prop :=
  db_intents d !! oi_client_order_id i = Some i ∧
  oi_status i ∈ [OrderStatus.SUBMITTING; OrderStatus.UNKNOWN] ∧
  (is_risk_exit i = false →
     oi_status i = OrderStatus.SUBMITTING ∧
     cs_entries_paused (db_control d) = false ∧
     ∀ cid j, db_intents d !! cid = Some j → unresolved (oi_status j) = false).

Definition is_submit (e : event) : Prop := match e with EvSubmit _ _ => True | _ => False end.
#[global] Instance is_submit_dec e : Decision (is_submit e).
Proof. destruct e; solve_decision. Defined.

Definition submits (t : list event) : list event := filter is_submit t.

Section defs.
Context {B : Type}.
Implicit Types (w : world B).

Definition submits_safe w : Prop :=
  ∀ i d, EvSubmit i d ∈ w_trace w → submission_allowed i d.

(** No submission was sent between the two states. *)
Definition quiet w w' : Prop := submits (w_trace w') = submits (w_trace w).
#[global] Instance quiet_preorder : PreOrder quiet.
Proof. split; unfold quiet; [done|]. intros x y z H1 H2. by rewrite H2. Qed.

Definition good w : Prop := coherent w ∧ submits_safe w.
Definition sound w w' : Prop := good w → good w'.
#[global] Instance sound_preorder : PreOrder sound.
Proof. split; [by intros w Hw|]. intros x y z H1 H2 H. by apply H2, H1. Qed.

Lemma quiet_safe w w' : quiet w w' → submits_safe w → submits_safe w'.
Proof.
  intros Hq Hs i d Hin. apply Hs.
  assert (H : EvSubmit i d ∈ submits (w_trace w'))
    by (apply list_elem_of_filter; split; [exact I|done]).
  rewrite Hq in H. by apply list_elem_of_filter in H as [_ H].
Qed.

Lemma quiet_sound {A} (m : M (world B) A) : pres evolves m → pres quiet m → pres sound m.
Proof.
  intros He Hq w [Hc Hs]. split; [by apply He|].
  apply (quiet_safe w); [apply Hq|done].
Qed.

Lemma wp_sound {A} (m : M (world B) A) (Q : outcome A → world B → Prop) w :
  pres sound m → good w → (∀ o w', good w' → Q o w') → wp m Q w.
Proof. intros Hm Hg HQ. apply HQ, Hm, Hg. Qed.

(** Sound when started from a clean transaction. *)
Definition sound_clean {A} (m : M (world B) A) : Prop := ∀ w, clean w → sound w (m w).2.

Lemma sound_sound_clean {A} (m : M (world B) A) : pres sound m → sound_clean m.
Proof. intros H w _. apply H. Qed.

Lemma sound_clean_bind {A C} (m : M (world B) A) (f : A → M (world B) C) :
  sound_clean m → keeps_clean m → (∀ a, sound_clean (f a)) → sound_clean (m ≫= f).
Proof.
  intros Hm Hk Hf w Hw Hg. specialize (Hm w Hw Hg). specialize (Hk w Hw).
  unfold mbind, M_bind. destruct (m w) as [[a|e] w']; simpl in *; [|done].
  by apply Hf; [eapply Hk|].
Qed.

Lemma sound_clean_foldM {A C} (f : C → A → M (world B) C) :
  (∀ c x, sound_clean (f c x)) → (∀ c x, keeps_clean (f c x)) →
  ∀ l c, sound_clean (foldM f c l).
Proof.
  intros Hf Hk l. induction l as [|x l IH]; intros c; simpl.
  { apply sound_sound_clean, pres_ret, _. }
  by apply sound_clean_bind.
Qed.

Lemma sound_clean_try {A C} (m : M (world B) A) (h : exn → M (world B) C) k :
  sound_clean m → keeps_clean m → (∀ e, pres sound (h e)) → (∀ a, sound_clean (k a)) →
  sound_clean (try_else m h k).
Proof.
  intros Hm Hk Hh Hc w Hw Hg. specialize (Hm w Hw Hg). specialize (Hk w Hw).
  unfold try_else. destruct (m w) as [[a|e] w']; simpl in *; [|by apply Hh].
  by apply Hc; [eapply Hk|].
Qed.
End defs.

(** ** What sends no order *)

Section quiet.
Context {E : Env} {B : Type}.

Lemma same_trace_quiet {A} (m : M (world B) A) : pres same_trace m → pres quiet m.
Proof. intros H w. specialize (H w). unfold same_trace, quiet in *. by rewrite H. Qed.

#[global] Instance quiet_transactional : Transactional (quiet (B:=B)).
Proof. split; [apply _|..]; intros; unfold quiet; congruence. Qed.
#[global] Instance quiet_stable : Stable (quiet (B:=B)).
Proof.
  split; intros; first
    [ apply _ | apply same_trace_quiet, stmt_same_trace
    | apply same_trace_quiet, persist_safety_pause_same_trace ].
Qed.
#[global] Instance quiet_resume : StableResume (quiet (B:=B)).
Proof. apply same_trace_quiet, stmt_same_trace. Qed.
(** A cancellation is no submission. *)
#[global] Instance quiet_cancel `{!PaperBroker B} : StableCancel (quiet (B:=B)).
Proof.
  intros bid. unfold broker_cancel. apply pres_bind; [apply _|by intros w|intros _].
  apply call_stable, _.
Qed.

Lemma sound_intro (w w' : world B) : evolves w w' → quiet w w' → sound w w'.
Proof. intros He Hq [Hc Hs]. split; [by apply He|by eapply quiet_safe]. Qed.

#[global] Instance sound_transactional : Transactional (sound (B:=B)).
Proof.
  split; [apply _|..]; intros; (apply sound_intro; [|unfold quiet; congruence]);
    [by apply stable_same|by apply stable_reset|by apply stable_durable].
Qed.
#[global] Instance sound_stable : Stable (sound (B:=B)).
Proof. split; [apply _|..]; intros; apply quiet_sound; solve [pres_auto]. Qed.
#[global] Instance sound_resume : StableResume (sound (B:=B)).
Proof. apply quiet_sound; apply stable_resume. Qed.
#[global] Instance sound_cancel `{!PaperBroker B} : StableCancel (sound (B:=B)).
Proof. intros bid. apply quiet_sound; apply stable_cancel. Qed.
End quiet.

(** ** Clean transactions of the engine *)

Section clean.
Context {E : Env} {B : Type} `{!PaperBroker B}.
Implicit Types (w : world B).

(** When the pause error surfaces, nothing is pending. *)
Definition keeps_pause {A} (m : M (world B) A) : Prop :=
  ∀ w, clean w → ∀ e, (m w).1 = Raise e → exn_cls e = EExecutionPaused → clean (m w).2.

Lemma kp_unpaused {A} (m : M (world B) A) : unpaused m → keeps_pause m.
Proof. intros Hm w _ e He Hp. specialize (Hm w). by rewrite He in Hm. Qed.

Lemma kp_bind {A C} (m : M (world B) A) (f : A → M (world B) C) :
  keeps_clean m → keeps_pause m → (∀ a, keeps_pause (f a)) → keeps_pause (m ≫= f).
Proof.
  intros Hk Hm Hf w Hw. specialize (Hk w Hw). specialize (Hm w Hw).
  unfold mbind, M_bind. destruct (m w) as [[a|e'] w']; simpl in *.
  - apply Hf. by eapply Hk.
  - intros e [= ->]. by apply Hm.
Qed.

Lemma kp_call {A} (m : broker_call B A) : keeps_pause (call m).
Proof. intros w Hw e _ _. unfold call. by destruct (m (w_broker w)). Qed.

Lemma broker_submit_clean i w : clean w → clean (broker_submit i w).2.
Proof.
  intros Hw. unfold broker_submit, log_event, modify, mbind, M_bind, call. simpl.
  by destruct (submit_order i (w_broker w)).
Qed.

Lemma require_intent_keeps cid : keeps_clean (require_intent (B:=B) cid).
Proof. unfold require_intent. clean_auto. Qed.
Lemma has_unresolved_intents_keeps : keeps_clean (has_unresolved_intents (B:=B)).
Proof. unfold has_unresolved_intents. clean_auto. Qed.
Lemma assert_mirror_matches_keeps i o : keeps_clean (assert_mirror_matches (B:=B) i o).
Proof. unfold assert_mirror_matches. clean_auto. Qed.
#[local] Hint Resolve require_intent_keeps has_unresolved_intents_keeps
  assert_mirror_matches_keeps : clean.
Lemma refresh_from_broker_order_ok_clean i o : ok_clean (refresh_from_broker_order (B:=B) i o).
Proof. unfold refresh_from_broker_order. clean_auto. Qed.
#[local] Hint Resolve refresh_from_broker_order_ok_clean : clean.
Lemma record_accepted_ok_clean i o : ok_clean (record_accepted (B:=B) i o).
Proof. unfold record_accepted. clean_auto. Qed.
#[local] Hint Resolve record_accepted_ok_clean : clean.
Lemma pause_for_reconciliation_required_keeps i c :
  keeps_clean (pause_for_reconciliation_required (B:=B) i c).
Proof. unfold pause_for_reconciliation_required, or_control_persistence_error. clean_auto. Qed.
#[local] Hint Resolve pause_for_reconciliation_required_keeps : clean.
Lemma submit_while_guarded_ok_clean i : ok_clean (submit_while_guarded (B:=B) i).
Proof. unfold submit_while_guarded. clean_auto. Qed.
#[local] Hint Resolve submit_while_guarded_ok_clean : clean.
Lemma entry_submission_guard_ok_clean i :
  ok_clean (entry_submission_guard (B:=B) i (submit_while_guarded i)).
Proof. unfold entry_submission_guard. clean_auto. Qed.

Lemma record_accepted_keeps_pause i o : keeps_pause (record_accepted (B:=B) i o).
Proof.
  unfold record_accepted, refresh_from_broker_order, suppress.
  apply kp_bind; [clean_auto|apply kp_unpaused; up_auto|intros _].
  apply kp_bind; [clean_auto|apply kp_call|intros fills]. apply kp_unpaused. up_auto.
Qed.

Lemma submit_while_guarded_keeps_pause i : keeps_pause (submit_while_guarded (B:=B) i).
Proof.
  intros w Hw. pose proof (broker_submit_clean i w Hw) as Hc.
  unfold submit_while_guarded, try_else.
  destruct (broker_submit i w) as [[r|e'] w']; simpl in Hc.
  - destruct r as [o|r]; [by apply record_accepted_keeps_pause|].
    revert w' Hc. apply kp_unpaused. up_auto.
  - destruct (exn_isa (exn_cls e') EBrokerTransport);
      [revert w' Hc; apply kp_unpaused; up_auto|].
    destruct (exn_isa (exn_cls e') EBrokerConflict);
      [revert w' Hc; apply kp_unpaused; up_auto|]. done.
Qed.

Lemma submission_guard_keeps_pause {A} (body : ControlStateSnapshot → M (world B) A) :
  keeps_pause (submission_guard body).
Proof.
  unfold submission_guard. apply kp_bind; [clean_auto|apply kp_unpaused; up_auto|].
  intros row w _ e. unfold try_else.
  set (m := lift (check_ControlState row) ≫= (λ state, body state)).
  destruct (m w) as [[a|e'] w'].
  - intros He Hp. assert (H : unpaused (commit (B:=B) ≫= λ _, mret a)) by up_auto.
    specialize (H w'). by rewrite He in H.
  - unfold mbind, M_bind. pose proof (rollback_ok_clean (B:=B) w' ()) as Hr.
    pose proof (up_rollback (B:=B) w') as Hu. destruct (rollback w') as [[[]|e''] w'']; simpl in *.
    + intros _ _. by apply Hr.
    + by intros [= ->] ?.
Qed.

Lemma entry_submission_guard_keeps_pause i :
  keeps_pause (entry_submission_guard (B:=B) i (submit_while_guarded i)).
Proof.
  unfold entry_submission_guard. destruct (is_risk_exit i);
    [apply submit_while_guarded_keeps_pause|apply submission_guard_keeps_pause].
Qed.

Lemma complete_submission_keeps i : keeps_clean (complete_submission (B:=B) i).
Proof.
  intros w Hw a. unfold complete_submission, catch.
  pose proof (entry_submission_guard_keeps_pause i w Hw) as Hp.
  pose proof (entry_submission_guard_ok_clean i w) as Ho.
  destruct (entry_submission_guard i (submit_while_guarded i) w) as [[b|e] w']; simpl in *.
  { intros [= ->]. by eapply Ho. }
  destruct (decide (exn_cls e = EExecutionPaused)) as [He|He].
  - specialize (Hp e eq_refl He). rewrite bool_decide_true by done. clear Ho. revert w' Hp a.
    change (keeps_clean (B:=B) (if bool_decide (oi_status i = OrderStatus.SUBMITTING)
      then unknown ← transition_status (oi_client_order_id i) OrderStatus.UNKNOWN;
           commit ≫= λ _, pause_for_reconciliation_required unknown ambiguous_outcome ≫= λ _,
           mret unknown
      else mret i)). clean_auto.
  - by rewrite bool_decide_false.
Qed.
#[local] Hint Resolve complete_submission_keeps : clean.

Lemma resolve_keeps cid : keeps_clean (resolve (B:=B) cid).
Proof. unfold resolve. clean_auto. Qed.
Lemma request_cancel_keeps cid : keeps_clean (request_cancel (B:=B) cid).
Proof. unfold request_cancel, broker_cancel. clean_auto. Qed.
Lemma apply_fills_keeps cid : keeps_clean (apply_fills (B:=B) cid).
Proof. unfold apply_fills. clean_auto. Qed.
End clean.

#[export] Hint Resolve require_intent_keeps has_unresolved_intents_keeps
  assert_mirror_matches_keeps complete_submission_keeps resolve_keeps request_cancel_keeps
  apply_fills_keeps : clean.
