(* ===== verification/Submission.v ===== *)
(** * Every submission is allowed

    The engine's operations, the control plane's and their compositions keep
    the trace of submissions within what [submission_allowed] permits. *)

From S2P Require Import Prelude Text Orders OrderFacts Ledger Contracts BrokerPort Store Repos.
From S2P Require Import Stable Evolve Clean RepoFacts Engine Raises EngineFacts TradeUpdates.
From S2P Require Import ControlPlane Reconciler ServiceFacts Safety.
Local Open Scope Z_scope.

Section sound.
Context {E : Env} {B : Type} `{!PaperBroker B}.
Implicit Types (w : world B).

(** ** Sequencing with what the first part returned *)

Lemma good_bind {A C} (m : M (world B) A) (f : A → M (world B) C) w :
  pres sound m → good w → (∀ a w1, m w = (Ok a, w1) → good w1 → good (f a w1).2) →
  good ((m ≫= f) w).2.
Proof.
  intros Hm Hg Hf. specialize (Hm w Hg). unfold mbind, M_bind.
  destruct (m w) as [[a|e] w1] eqn:Hw; simpl in *; [by apply Hf|done].
Qed.

Lemma good_pres {A} (m : M (world B) A) w : pres sound m → good w → good (m w).2.
Proof. intros Hm. apply Hm. Qed.

Lemma good_try {A C} (m : M (world B) A) (h : exn → M (world B) C) k w :
  good (m w).2 → (∀ e, pres sound (h e)) → (∀ a, pres sound (k a)) →
  good (try_else m h k w).2.
Proof.
  intros Hm Hh Hk. unfold try_else. destruct (m w) as [[a|e] w1]; simpl in *;
    [by apply Hk|by apply Hh].
Qed.

(** ** Sending *)

Lemma broker_submit_good i w :
  good w → submission_allowed i (w_committed w) → good (broker_submit i w).2.
Proof.
  intros [Hc Hs] Ha. unfold broker_submit, log_event, modify, mbind, M_bind, call. simpl.
  destruct (submit_order i (w_broker w)) as [o b]. split; [exact Hc|].
  intros j d [[= -> ->]|Hin]%elem_of_cons; [done|]. by apply Hs.
Qed.

Lemma submit_while_guarded_good i w :
  good w → submission_allowed i (w_committed w) → good (submit_while_guarded i w).2.
Proof.
  intros Hg Ha. pose proof (broker_submit_good i w Hg Ha) as Hg1.
  unfold submit_while_guarded. apply good_try; [done|pres_auto..].
Qed.

Lemma has_unresolved_intents_inv w b w' :
  has_unresolved_intents w = (Ok b, w') →
  unchanged w w' ∧
  (b = false → ∀ cid j, db_intents (w_work w) !! cid = Some j → unresolved (oi_status j) = false).
Proof.
  unfold has_unresolved_intents. intros H. inv_run. apply list_by_status_inv in H0 as [-> Hu].
  case_bool_decide as Hl; simpl in H; inv_run.
  - apply list_by_status_inv in H0 as [-> Hu']. split; [by eapply unchanged_trans|]. subst b.
    rewrite negb_false_iff, bool_decide_eq_true. intros Hl' cid j Hj.
    destruct Hu as (Hw & _). rewrite Hw in Hl'.
    assert (Hno : ∀ s, intents_with_status s (w_work w) = [] → oi_status j ≠ s).
    { intros s Hs Hjs. assert (Hin : j ∈ intents_with_status s (w_work w))
        by (apply elem_of_intents_with_status; eauto).
      rewrite Hs in Hin. by apply elem_of_nil in Hin. }
    apply Hno in Hl, Hl'. by destruct (oi_status j).
  - subst. split; done.
Qed.

Lemma submission_guard_good {A} (body : ControlStateSnapshot → M (world B) A) w :
  good w →
  (∀ w1, good w1 → unchanged w w1 → good (body (db_control (w_work w)) w1).2) →
  good (submission_guard body w).2.
Proof.
  intros Hg Hbody. unfold submission_guard. apply good_bind; [pres_auto|done|].
  intros row w1 [-> Hu]%query_inv Hg1. apply good_try; [|pres_auto..].
  apply good_bind; [pres_auto|done|].
  intros c w2 [->%check_ControlState_id ->]%lift_Ok _. by apply Hbody.
Qed.

Lemma entry_submission_guard_good i w :
  good w → clean w → db_intents (w_work w) !! oi_client_order_id i = Some i →
  oi_status i ∈ [OrderStatus.SUBMITTING; OrderStatus.UNKNOWN] →
  good (entry_submission_guard i (submit_while_guarded i) w).2.
Proof.
  intros Hg [Hcl _] Hi Hst. unfold entry_submission_guard.
  destruct (is_risk_exit i) eqn:Hrisk.
  { apply submit_while_guarded_good; [done|]. rewrite <-Hcl. split; [done|].
    rewrite Hrisk. done. }
  apply submission_guard_good; [done|]. intros w1 Hg1 Hu1.
  destruct (cs_entries_paused (db_control (w_work w))) eqn:Hp; [done|].
  apply good_bind; [pres_auto|done|]. intros b w2 [Hu2 Hun]%has_unresolved_intents_inv Hg2.
  destruct b; [done|]. apply submit_while_guarded_good; [done|].
  pose proof (unchanged_trans _ _ _ Hu1 Hu2) as (Hw2 & Hc2 & _).
  destruct Hu1 as (Hw1 & _). rewrite Hw1 in Hun.
  rewrite Hc2, <-Hcl. split; [done|]. split; [done|]. intros _.
  specialize (Hun eq_refl). split_and!; [|done|done].
  specialize (Hun _ _ Hi). rewrite !elem_of_cons, elem_of_nil in Hst.
  destruct Hst as [->|[Hs|[]]]; [done|]. by rewrite Hs in Hun.
Qed.

Lemma complete_submission_good i w :
  good w → clean w → db_intents (w_work w) !! oi_client_order_id i = Some i →
  oi_status i ∈ [OrderStatus.SUBMITTING; OrderStatus.UNKNOWN] →
  good (complete_submission i w).2.
Proof.
  intros Hg Hc Hi Hst. pose proof (entry_submission_guard_good i w Hg Hc Hi Hst) as Hg1.
  unfold complete_submission, catch.
  destruct (entry_submission_guard i (submit_while_guarded i) w) as [[a|e] w1]; [done|].
  case_bool_decide; [|done]. case_bool_decide; [|done].
  apply good_pres; [pres_auto|exact Hg1].
Qed.

Lemma good_wf w cid i :
  good w → db_intents (w_work w) !! cid = Some i → oi_client_order_id i = cid.
Proof. intros [(_ & Hwf & _) _] Hi. by apply (wf_intents _ Hwf) in Hi as []. Qed.

Lemma require_intent_inv cid w i w' :
  require_intent cid w = (Ok i, w') →
  db_intents (w_work w) !! cid = Some i ∧ unchanged w w'.
Proof.
  unfold require_intent. intros H. inv_run. apply orders_get_inv in H0 as [-> Hu].
  destruct (db_intents (w_work w) !! cid); inv_run. subst. done.
Qed.

(** ** The engine's operations *)

Lemma submit_from_outbox_sound source cid : pres sound (submit_from_outbox source cid : M (world B) _).
Proof.
  intros w Hg. unfold submit_from_outbox. apply good_bind; [pres_auto|done|].
  intros i w1 [Hi Hu]%require_intent_inv Hg1. case_bool_decide; simpl; [|done].
  apply good_bind; [pres_auto|done|]. intros [] w2 _ Hg2.
  apply good_bind; [pres_auto|done|]. intros [] w3 _ Hg3.
  apply good_bind; [pres_auto|done|]. intros [] w4 _ Hg4.
  apply good_bind; [pres_auto|done|].
  intros j w5 (old & Hold & -> & _ & Hw5 & _ & _ & _ & Ha5)%transition_status_inv Hg5.
  apply good_bind; [pres_auto|done|]. intros [] w6 (Hcl & _ & Hc6)%commit_inv Hg6.
  rewrite Ha5, Hw5 in Hc6. destruct Hcl as [Hcl1 Hcl2].
  apply complete_submission_good; [done|done| |by left].
  rewrite Hcl1, Hc6. simpl. rewrite (good_wf w4 cid old) by done. by rewrite lookup_insert_eq.
Qed.

Lemma resolve_sound_clean cid : sound_clean (resolve (B:=B) cid).
Proof.
  intros w Hcl Hg. unfold resolve. apply good_bind; [pres_auto|done|].
  intros i w1 [Hi Hu]%require_intent_inv Hg1.
  case_bool_decide as Hst; simpl; [|done].
  apply good_bind; [pres_auto|done|].
  intros o w2 (Hw2 & Hc2 & _ & Ha2 & _)%call_inv Hg2.
  destruct o as [o|]; [apply good_pres; [pres_auto|done]|].
  apply good_bind; [pres_auto|done|]. intros now w3 [= _ <-] Hg3.
  case_match; [apply good_pres; [pres_auto|done]|].
  destruct Hu as (Hw1 & Hc1 & _ & _ & Ha1 & _). destruct Hcl as [Hcl _].
  apply complete_submission_good; [done|split; simpl; congruence| |done].
  simpl. rewrite Hw2, Hw1. by rewrite (good_wf w cid i).
Qed.

(** ** Sweeps and recovery *)

Lemma expire_ambiguous_sound now closed s : sound_clean (expire_ambiguous (B:=B) now closed s).
Proof.
  unfold expire_ambiguous. apply sound_clean_bind; [apply sound_sound_clean; pres_auto|clean_auto|].
  intros l. apply sound_clean_foldM; [|clean_auto]. intros c i.
  case_match; [|apply sound_sound_clean; pres_auto].
  apply sound_clean_bind; [apply resolve_sound_clean|clean_auto|].
  intros r. apply sound_sound_clean. pres_auto.
Qed.

Lemma expire_ambiguous_keeps now closed s : keeps_clean (expire_ambiguous (B:=B) now closed s).
Proof. unfold expire_ambiguous. clean_auto. Qed.

Lemma expire_overdue_sound : sound_clean (expire_overdue (B:=B)).
Proof.
  unfold expire_overdue.
  apply sound_clean_bind; [apply sound_sound_clean; pres_auto|clean_auto|intros now].
  apply sound_clean_bind; [|apply keeps_foldM, expire_ambiguous_keeps|].
  - apply sound_clean_foldM; [apply expire_ambiguous_sound|apply expire_ambiguous_keeps].
  - intros closed. apply sound_sound_clean. pres_auto.
Qed.

Lemma recover_sound : sound_clean (recover (B:=B)).
Proof.
  unfold recover.
  apply sound_clean_bind; [apply sound_sound_clean; pres_auto|clean_auto|intros l].
  apply sound_clean_bind; [apply sound_sound_clean; pres_auto|clean_auto|intros k].
  apply sound_clean_foldM; [|clean_auto]. intros c i.
  apply sound_clean_bind; [apply resolve_sound_clean|clean_auto|intros r].
  apply sound_sound_clean. pres_auto.
Qed.

(** ** Flatten *)

Context (source : control_source) (flatten_prices : option price_source).

Lemma run_each_sound {A} (f : OrderIntent → M (world B) A) done l :
  (∀ i, sound_clean (f i)) → (∀ i, keeps_clean (f i)) → sound_clean (run_each f done l).
Proof.
  intros Hf Hk. revert done. induction l as [|i l IH]; intros done; simpl.
  { apply sound_sound_clean. pres_auto. }
  apply sound_clean_try; [apply Hf|apply Hk|intros e; pres_auto|]. intros a. apply IH.
Qed.

Lemma sound_clean_then {A C} (m : M (world B) A) (f : A → M (world B) C) :
  sound_clean m → (∀ a, pres sound (f a)) → sound_clean (m ≫= f).
Proof.
  intros Hm Hf w Hw Hg. specialize (Hm w Hw Hg). unfold mbind, M_bind.
  destruct (m w) as [[a|e] w1]; simpl in *; [by apply Hf|done].
Qed.

#[local] Hint Resolve submit_from_outbox_sound : pres.

Lemma flatten_exit_sound d now cancel g p :
  pres sound (flatten_exit source d now cancel g p : M (world B) _).
Proof. unfold flatten_exit. pres_auto. Qed.
#[local] Hint Resolve flatten_exit_sound : pres.
Lemma flatten_exits_sound d reason actor :
  pres sound (flatten_exits source flatten_prices d reason actor : M (world B) _).
Proof. unfold flatten_exits, fail_flatten. pres_auto. Qed.
#[local] Hint Resolve flatten_exits_sound : pres.

Lemma flatten_converge_sound reason actor : sound_clean (flatten_converge (B:=B) reason actor).
Proof.
  unfold flatten_converge, fail_flatten.
  apply sound_clean_bind; [apply sound_sound_clean; pres_auto| |intros l].
  { unfold list_by_statuses. clean_auto. }
  apply sound_clean_then; [|intros [done failed]; pres_auto].
  apply run_each_sound; [intros i; apply resolve_sound_clean|clean_auto].
Qed.

Lemma flatten_paper_sound d reason actor confirmation :
  sound_clean (flatten_paper (B:=B) source flatten_prices d reason actor confirmation).
Proof.
  unfold flatten_paper, fail_flatten. case_match; [apply sound_sound_clean; pres_auto|].
  apply sound_clean_bind; [apply sound_sound_clean; pres_auto|clean_auto|intros c].
  case_match; [apply sound_sound_clean; pres_auto|].
  apply sound_clean_then; [apply flatten_converge_sound|intros []; pres_auto].
Qed.
End sound.
