(* ===== verification/System.v ===== *)
(** * The system: sessions over a shared database

    Each operation runs in a unit of work of its own.  Between sessions the
    broker moves as it likes.  Reachable worlds are those any sequence of
    sessions and broker moves leads to, under one schedule of faults, clocks
    and identifiers (the environment). *)

From S2P Require Import Prelude Text Orders Ledger Contracts BrokerPort Store Repos Evolve.
From S2P Require Import Engine TradeUpdates ControlPlane Reconciler.
Local Open Scope Z_scope.

(** How the composition root wires the services. *)
Record wiring := mk_wiring {
  wr_source : control_source;
  wr_flatten_prices : option price_source;
  wr_policy : option AccountReconciliationPolicy;
  wr_prices : option price_source;
}.

(** One session's work.  [OpAdd] and [OpTransition] stand for the planner that
    creates intents and moves them to the outbox: any intent, any status. *)
Inductive op :=
  | OpAdd (intent : OrderIntent)
  | OpTransition (client_order_id : string) (target : OrderStatus.t)
  | OpSubmit (client_order_id : string)
  | OpResolve (client_order_id : string)
  | OpApplyFills (client_order_id : string)
  | OpRequestCancel (client_order_id : string)
  | OpExpireOverdue
  | OpRecover
  | OpTradeUpdate (update : TradeUpdate)
  | OpReconcile (trading_date : TradingDate)
  | OpPause (reason actor : string)
  | OpResume (actor : string)
  | OpCancelOpenOrders (reason actor : string)
  | OpFlatten (trading_date : TradingDate) (reason actor confirmation : string)
  | OpSetBaseline (account_id : string) (cash effective_at : Z)
  | OpAddRevision (account_id : string) (cash effective_at : Z) (cutoff_at : option Z)
      (cutoff_id : option string) (reason actor : string).

Section system.
Context {E : Env} {B : Type} `{!PaperBroker B} (c : wiring).
Local Notation P := (M (world B)).

Definition ignore {A} (m : P A) : P unit := m ≫= λ _, mret ().

Definition run_op (o : op) : P unit :=
  match o with
  | OpAdd i => orders_add i ≫= λ _, commit
  | OpTransition cid s => transition_status cid s ≫= λ _, commit
  | OpSubmit cid => ignore (submit_from_outbox (wr_source c) cid)
  | OpResolve cid => ignore (resolve cid)
  | OpApplyFills cid => ignore (apply_fills cid)
  | OpRequestCancel cid => ignore (request_cancel cid)
  | OpExpireOverdue => ignore expire_overdue
  | OpRecover => ignore recover
  | OpTradeUpdate u => ignore (apply_trade_update u)
  | OpReconcile d => ignore (reconciler_run (wr_policy c) (wr_prices c) d)
  | OpPause r a => ignore (pause_entries r a)
  | OpResume a => ignore (resume_entries a)
  | OpCancelOpenOrders r a => ignore (cancel_open_orders r a)
  | OpFlatten d r a conf =>
      ignore (flatten_paper (wr_source c) (wr_flatten_prices c) d r a conf)
  | OpSetBaseline i cash t => set_baseline i cash t ≫= λ _, commit
  | OpAddRevision i cash t x y r a => add_revision i cash t x y r a ≫= λ _, commit
  end.

(** [with UnitOfWork() as unit_of_work: ...] *)
Definition session (o : op) : P unit :=
  uow_enter ≫= λ _,
  try_else (run_op o) (λ e, uow_exit ≫= λ _, rethrow e) (λ _, uow_exit).

Inductive step (w : world B) : world B → Prop :=
  | step_session o : step w (session o w).2
  | step_broker b : step w (with_broker b w).

(** A closed unit of work over a sound database, nothing sent yet. *)
Record initial (w : world B) : Prop := {
  init_closed : w_open w = false;
  init_committed : w_work w = w_committed w;
  init_sound : db_wf (w_committed w);
  init_trace : w_trace w = [];
}.

Definition reachable (w0 w : world B) : Prop := rtc step w0 w.

(** The sessions of a list, one after the other. *)
Definition run_sessions (l : list op) (w : world B) : world B :=
  foldl (λ w o, (session o w).2) w l.

Lemma run_sessions_reachable l w : reachable w (run_sessions l w).
Proof.
  revert w. induction l as [|o l IH]; intros w; [apply rtc_refl|].
  eapply rtc_l; [apply step_session|apply IH].
Qed.
End system.
