(* ===== verification/Demo.v ===== *)
(** * A concrete system

    Environments with a scripted fault, the fake broker and one intent: the
    inputs at which the theorems' witnesses run the model. *)

From S2P Require Import Prelude Text Orders OrderFacts Ledger Contracts BrokerPort FakeBroker.
From S2P Require Import Store Repos Evolve Engine TradeUpdates ControlPlane Reconciler System.
Local Open Scope Z_scope.

(** The clock reads 120, inside the sample intent's window; [faults] lists the
    statements that fail. *)
Definition demo_env (now : Z) (faults : list (nat * fault)) : Env := {|
  env_now := λ _, now;
  env_stamp := λ n, 100 + Z.of_nat n;
  env_fault := λ n, match find (λ p, Nat.eqb p.1 n) faults with
                    | Some (_, f) => f | None => no_fault end;
  env_uuid4 := λ n, (N.of_nat n + 1)%N;
  env_uuid5 := λ ns s, (ns + N.of_nat (String.length s))%N;
  env_collate := String.leb;
|}.

#[global] Instance demo_broker : PaperBroker FakePaperBroker :=
  fake_paper_broker (λ n, 110 + Z.of_nat n).

Definition demo_control (paused : bool) : ControlStateSnapshot :=
  mk_ControlState paused (if paused then Some "operator" else None) 90 0.

Definition demo_db (paused : bool) : db := mk_db ∅ ∅ [] (demo_control paused) [] [] [] ∅.

Definition demo_fake (plan : FakeSubmitPlan) : FakePaperBroker :=
  FakePaperBroker_init ∅ (Some plan) None None None "paper-1" IMMEDIATE ∅ ∅ ∅.

Definition demo_world (paused : bool) (plan : FakeSubmitPlan) : world FakePaperBroker :=
  mk_world (demo_db paused) (demo_db paused) false false false false false (demo_fake plan)
    0 0 0 [].

Definition plain_wiring : wiring := mk_wiring same_connection None None None.

Definition to_outbox (cid : string) : list op :=
  [OpTransition cid OrderStatus.RISK_APPROVED; OpTransition cid OrderStatus.OUTBOX_PENDING].

Definition demo_cid : string := oi_client_order_id sample_intent.
Definition submit_script : list op :=
  OpAdd sample_intent :: to_outbox demo_cid ++ [OpSubmit demo_cid].

Definition accept_plan : FakeSubmitPlan := mk_SubmitPlan ACKNOWLEDGE None None.
Definition timeout_plan : FakeSubmitPlan := mk_SubmitPlan TIMEOUT_AFTER_ACCEPT None None.

Definition after_submit : world FakePaperBroker :=
  run_sessions (E:=demo_env 120 []) plain_wiring submit_script (demo_world false accept_plan).

Lemma demo_db_wf paused : db_wf (demo_db paused).
Proof.
  split; simpl; try apply NoDup_nil_2.
  - intros cid i Hi. by rewrite lookup_empty in Hi.
  - intros cid cid' i i' Hi. by rewrite lookup_empty in Hi.
  - intros bid r Hr. by rewrite lookup_empty in Hr.
  - intros bid bid' r r' Hr. by rewrite lookup_empty in Hr.
  - by intros f Hf%elem_of_nil.
  - destruct paused; simpl; split; try done; try (by intros [x Hx]); by eexists.
Qed.

Lemma demo_initial paused plan : initial (demo_world paused plan).
Proof. split; [done|done|apply demo_db_wf|done]. Qed.

Lemma demo_faultless now : ∀ n, env_fault (Env:=demo_env now []) n = no_fault.
Proof. done. Qed.
