(* ===== verification/SystemFacts.v ===== *)
(** * Theorems on the system

    What holds in every reachable world, for every broker and every schedule of
    faults: the durable database stays sound and only moves forward; every order
    sent was allowed; an order past submission is never sent again. *)

From S2P Require Import Prelude Text Orders OrderFacts Ledger Contracts BrokerPort Store Repos.
From S2P Require Import Stable Evolve Clean RepoFacts Engine EngineFacts TradeUpdates ControlPlane.
From S2P Require Import Reconciler ServiceFacts Safety Submission FakeBroker System Demo.
Local Open Scope Z_scope.

(** ** The trace grows, and its entries saw a durable state in between *)

Definition event_db (e : event) : db :=
  match e with EvSubmit _ d | EvCancel _ d => d end.

Section logged.
Context {E : Env} {B : Type} `{!PaperBroker B}.
Implicit Types (w : world B).

Definition logged w w' : Prop :=
  coherent w → coherent w' ∧ db_evolves (w_committed w) (w_committed w') ∧
  ∃ l, w_trace w' = l ++ w_trace w ∧
    ∀ e, e ∈ l → db_evolves (w_committed w) (event_db e) ∧
                 db_evolves (event_db e) (w_committed w').

#[global] Instance logged_preorder : PreOrder logged.
Proof.
  split.
  - intros w Hw. split_and!; [done..|]. exists []. split; [done|]. by intros e He%elem_of_nil.
  - intros w1 w2 w3 H12 H23 H1. destruct (H12 H1) as (H2 & Hev & l & Hl & Hin).
    destruct (H23 H2) as (H3 & Hev' & l' & Hl' & Hin').
    split_and!; [done|by etrans|]. exists (l' ++ l). split; [by rewrite Hl', Hl, app_assoc|].
    intros e [He|He]%elem_of_app.
    + destruct (Hin' e He) as [? ?]. split; [by etrans|done].
    + destruct (Hin e He) as [? ?]. split; [done|by etrans].
Qed.

Lemma logged_same {A} (m : M (world B) A) :
  pres evolves m → pres same_trace m → pres logged m.
Proof.
  intros He Ht w Hw. destruct (He w Hw) as [Hc Hev]. split_and!; [done..|].
  exists []. split; [apply Ht|]. by intros e Hin%elem_of_nil.
Qed.

Lemma log_event_logged f (Hf : ∀ d, event_db (f d) = d) : pres logged (log_event (B:=B) f).
Proof.
  intros w Hw. simpl. split_and!; [done..|]. exists [f (w_committed w)]. split; [done|].
  intros e He%list_elem_of_singleton. subst. by rewrite !Hf.
Qed.

Lemma logged_intro w w' : evolves w w' → w_trace w' = w_trace w → logged w w'.
Proof.
  intros He Ht Hw. destruct (He Hw) as [Hc Hev]. split_and!; [done..|].
  exists []. split; [done|]. by intros e Hin%elem_of_nil.
Qed.

#[global] Instance logged_transactional : Transactional logged.
Proof.
  split; [apply _|..]; intros; (apply logged_intro; [|done]);
    [by apply stable_same|by apply stable_reset|by apply stable_durable].
Qed.
#[global] Instance logged_stable : Stable logged.
Proof. split; [apply _|..]; intros; apply logged_same; solve [pres_auto]. Qed.
#[global] Instance logged_resume : StableResume logged.
Proof. apply logged_same; apply stable_resume. Qed.
#[global] Instance logged_submit : StableSubmit logged.
Proof.
  intros i. unfold broker_submit. apply pres_bind; [apply _|by apply log_event_logged|intros _].
  apply call_stable, _.
Qed.
#[global] Instance logged_cancel : StableCancel logged.
Proof.
  intros i. unfold broker_cancel. apply pres_bind; [apply _|by apply log_event_logged|intros _].
  apply call_stable, _.
Qed.

Lemma session_stable (R : relation (world B)) `{!Stable R, !StableResume R, !StableSubmit R,
    !StableCancel R} c o : pres R (session c o).
Proof. unfold session, run_op, ignore. destruct o; pres_auto. Qed.
Lemma session_logged c o : pres logged (session c o).
Proof. apply session_stable; apply _. Qed.

Lemma with_broker_logged b w : logged w (with_broker b w).
Proof.
  intros Hw. split_and!; [done..|]. exists []. split; [done|]. by intros e He%elem_of_nil.
Qed.

Lemma reachable_logged c w w' : reachable c w w' → logged w w'.
Proof.
  induction 1 as [|w1 w2 w3 Hs _ IH]; [done|]. etrans; [|exact IH].
  destruct Hs; [apply session_logged|apply with_broker_logged].
Qed.
End logged.

(** ** Sessions start clean *)

Section sessions.
Context {E : Env} {B : Type} `{!PaperBroker B}.
Implicit Types (w : world B).

Lemma uow_enter_ok_clean : ok_clean (uow_enter (B:=B)).
Proof.
  intros w []. unfold uow_enter, mbind, M_bind, gets, next_stmt. simpl.
  destruct (w_open w); [done|]. destruct (env_fault (w_stmt w)); try done.
  unfold modify, catch. simpl. set (w1 := with_repeatable _ _).
  pose proof (query_keeps (B:=B) (λ _, ()) w1) as Hk. unfold query in Hk.
  unfold set_local_utc_timezone. destruct (stmt _ w1) as [[[]|e] w2]; [|done].
  intros _. by eapply Hk.
Qed.

Lemma run_op_sound c o : sound_clean (run_op (B:=B) c o).
Proof.
  destruct o; simpl; unfold ignore;
    try (apply sound_sound_clean; solve [pres_auto]).
  - apply sound_sound_clean. pose proof (submit_from_outbox_sound (B:=B) (wr_source c)) as H.
    pres_auto.
  - apply sound_clean_then; [apply resolve_sound_clean|intros ?; pres_auto].
  - apply sound_clean_then; [apply expire_overdue_sound|intros ?; pres_auto].
  - apply sound_clean_then; [apply recover_sound|intros ?; pres_auto].
  - apply sound_clean_then; [apply flatten_paper_sound|intros ?; pres_auto].
Qed.

Lemma session_sound c o : pres sound (session (B:=B) c o).
Proof.
  intros w Hg. unfold session. apply good_bind; [pres_auto|done|].
  intros [] w1 He Hg1. assert (Hcl : clean w1).
  { pose proof (uow_enter_ok_clean w ()) as H. rewrite He in H. by apply H. }
  apply good_try; [by apply run_op_sound|pres_auto..].
Qed.

(** Between sessions the unit of work is closed and holds nothing. *)
Definition closed w : Prop := w_open w = false ∧ w_work w = w_committed w.

Lemma session_closed c o w : closed w → closed (session c o w).2.
Proof.
  intros [Ho Hw]. unfold session, mbind, M_bind.
  assert (Henter : match uow_enter w with (Ok _, _) => True | (Raise _, w') => closed w' end).
  { unfold uow_enter, mbind, M_bind, gets, next_stmt, modify, catch. simpl. rewrite Ho.
    destruct (env_fault (w_stmt w)); [|done..]. simpl.
    destruct (set_local_utc_timezone _) as [[[]|e] w2]; done. }
  destruct (uow_enter w) as [[[]|e] w1]; [|done].
  unfold try_else. by destruct (run_op c o w1) as [[[]|e] w2].
Qed.

Lemma reachable_closed c w w' : closed w → reachable c w w' → closed w'.
Proof.
  intros Hc Hr. induction Hr as [|w1 w2 w3 Hs _ IH]; [done|]. apply IH.
  destruct Hs; [by apply session_closed|done].
Qed.

Lemma initial_closed w : initial w → closed w.
Proof. by intros []. Qed.

Lemma initial_good w : initial w → good w.
Proof.
  intros [_ Hw Hwf Ht]. split.
  - split; [done|]. by rewrite Hw.
  - intros i d Hin. rewrite Ht in Hin. by apply elem_of_nil in Hin.
Qed.

Lemma reachable_good c w w' : good w → reachable c w w' → good w'.
Proof.
  intros Hg Hr. induction Hr as [|w1 w2 w3 Hs _ IH]; [done|]. apply IH.
  destruct Hs; [by apply session_sound|]. done.
Qed.
End sessions.

(** ** Properties *)

Section properties.
Context {E : Env} {B : Type} `{!PaperBroker B}.
Implicit Types (w : world B).

(** C1. Write-ahead and pause discipline of the whole system: in every world
    reachable from a sound database - any broker, any faults, any sequence of
    sessions - each order the broker was asked to place had been committed as
    SUBMITTING or UNKNOWN under its client order id when it was sent; and if it
    is not a RISK_EXIT, it was SUBMITTING, the committed control row allowed
    entries, and no committed intent was UNKNOWN or REVIEW_REQUIRED. *)
Theorem submissions_allowed c w0 w i d :
  initial w0 → reachable c w0 w → EvSubmit i d ∈ w_trace w →
  db_intents d !! oi_client_order_id i = Some i ∧
  (oi_status i = OrderStatus.SUBMITTING ∨ oi_status i = OrderStatus.UNKNOWN) ∧
  (oi_intent_type i ≠ OrderIntentType.RISK_EXIT →
     oi_status i = OrderStatus.SUBMITTING ∧
     cs_entries_paused (db_control d) = false ∧
     ∀ cid j, db_intents d !! cid = Some j →
       oi_status j ≠ OrderStatus.UNKNOWN ∧ oi_status j ≠ OrderStatus.REVIEW_REQUIRED).
Proof.
  intros Hi Hr Hin. pose proof (reachable_good c w0 w (initial_good w0 Hi) Hr) as [_ Hs].
  destruct (Hs i d Hin) as (H1 & H2 & H3). split; [done|]. split.
  { rewrite !elem_of_cons, elem_of_nil in H2. tauto. }
  intros Hne. destruct H3 as (? & ? & Hun); [by apply bool_decide_eq_false|].
  split_and!; [done..|]. intros cid j Hj. specialize (Hun cid j Hj).
  by destruct (oi_status j).
Qed.

(** C2. The durable database is sound in every reachable world and only moves
    forward: no intent, mirror, fill, command, run or baseline is lost or
    changes identity, statuses follow their transition maps, filled quantities
    and broker watermarks never decrease, the fill and command ledgers are
    append-only, and the flatten generation never decreases. *)
Theorem durable_state_evolves c w0 w w' :
  initial w0 → reachable c w0 w → reachable c w w' →
  db_wf (w_committed w') ∧ db_evolves (w_committed w) (w_committed w').
Proof.
  intros Hi H1 H2. pose proof (reachable_good c w0 w (initial_good w0 Hi) H1) as [Hc _].
  destruct (reachable_logged c w w' H2 Hc) as ((Hwf & _) & Hev & _). done.
Qed.

(** A status from which no submission starts. *)
Definition settled (s : OrderStatus.t) : bool :=
  submitted_status s && negb (bool_decide (s = OrderStatus.UNKNOWN)).

Lemma settled_closed a b :
  settled a = true → order_transition_allowed a b = true → settled b = true.
Proof. revert a b. by_status_cases. Qed.

(** C3. An order past its submission is never sent again: once an intent is
    durably in a status other than CREATED, RISK_APPROVED, OUTBOX_PENDING,
    SUBMITTING or UNKNOWN, no later submission carries its client order id. *)
Theorem no_resubmission c w0 w w' cid i :
  initial w0 → reachable c w0 w → reachable c w w' →
  db_intents (w_committed w) !! cid = Some i → settled (oi_status i) = true →
  ∃ l, w_trace w' = l ++ w_trace w ∧
    ∀ j d, EvSubmit j d ∈ l → oi_client_order_id j ≠ cid.
Proof.
  intros Hi H1 H2 Hcid Hset. pose proof (reachable_good c w0 w (initial_good w0 Hi) H1) as Hg.
  pose proof (reachable_good c w w' Hg H2) as [_ Hs].
  destruct (reachable_logged c w w' H2 (proj1 Hg)) as (_ & _ & l & Hl & Hin).
  exists l. split; [done|]. intros j d Hj Heq. destruct (Hin _ Hj) as [Hev _]. simpl in Hev.
  destruct (Hs j d) as (Hdj & Hst & _); [rewrite Hl; apply elem_of_app; by left|].
  destruct (ev_intents _ _ Hev cid i Hcid) as (s & Hs' & Hreach). rewrite <-Heq, Hdj in Hs'.
  injection Hs' as Hs'. apply (order_reaches_closed settled) in Hreach;
    [|apply settled_closed|done].
  rewrite Hs' in Hst. simpl in Hst. rewrite !elem_of_cons, elem_of_nil in Hst.
  by destruct Hst as [->|[->|[]]].
Qed.

(** C4. A client order id means one order: any two submissions under the same
    id carry the same intent up to its status - symbol, side, quantity, limit,
    collar, window and run - so a resubmission repeats the request exactly. *)
Theorem submissions_agree c w0 w i d j d' :
  initial w0 → reachable c w0 w → EvSubmit i d ∈ w_trace w → EvSubmit j d' ∈ w_trace w →
  oi_client_order_id i = oi_client_order_id j →
  with_status OrderStatus.SUBMITTING i = with_status OrderStatus.SUBMITTING j.
Proof.
  intros Hi Hr Hin Hjn Heq. pose proof (initial_good w0 Hi) as Hg0.
  pose proof (reachable_good c w0 w Hg0 Hr) as [_ Hs].
  destruct (reachable_logged c w0 w Hr (proj1 Hg0)) as (_ & _ & l & Hl & Hall).
  rewrite (init_trace w0 Hi), app_nil_r in Hl.
  assert (Hrow : ∀ k e, EvSubmit k e ∈ w_trace w → ∃ s,
    db_intents (w_committed w) !! oi_client_order_id k = Some (with_status s k)).
  { intros k e Hk. destruct (Hs k e Hk) as (Hd & _). rewrite Hl in Hk.
    destruct (Hall _ Hk) as [_ Hev]. destruct (ev_intents _ _ Hev _ _ Hd) as (s & ? & _). eauto. }
  destruct (Hrow i d Hin) as [s Hsi], (Hrow j d' Hjn) as [t Htj]. rewrite Heq, Htj in Hsi.
  injection Hsi as Hsi. by destruct i, j; simplify_eq/=.
Qed.
End properties.

Lemma after_submit_reachable :
  reachable (E:=demo_env 120 []) plain_wiring (demo_world false accept_plan) after_submit.
Proof. apply run_sessions_reachable. Qed.

Lemma submissions_allowed_witness :
  match w_trace after_submit with
  | EvSubmit i d :: _ => db_intents d !! oi_client_order_id i = Some i
  | _ => False
  end.
Proof.
  destruct (w_trace after_submit) as [|[i d|b d] l] eqn:Ht; [vm_compute in Ht; discriminate Ht| |
    vm_compute in Ht; discriminate Ht].
  refine (proj1 (submissions_allowed (E:=demo_env 120 []) plain_wiring _ after_submit i d
    (demo_initial false accept_plan) after_submit_reachable _)).
  rewrite Ht. by left.
Defined.

Lemma durable_state_evolves_witness :
  db_wf (w_committed after_submit) ∧ length (map_to_list (db_intents (w_committed after_submit))) = 1%nat.
Proof.
  split; [|by vm_compute].
  exact (proj1 (durable_state_evolves (E:=demo_env 120 []) plain_wiring _ _ _
    (demo_initial false accept_plan) (rtc_refl _ _) after_submit_reachable)).
Defined.

Lemma no_resubmission_witness :
  ∃ i, db_intents (w_committed after_submit) !! demo_cid = Some i ∧
    settled (oi_status i) = true ∧
    ∃ l, w_trace after_submit = l ++ w_trace after_submit ∧
      ∀ j d, EvSubmit j d ∈ l → oi_client_order_id j ≠ demo_cid.
Proof.
  assert (H : ∃ i, db_intents (w_committed after_submit) !! demo_cid = Some i ∧
    settled (oi_status i) = true) by (vm_compute; eexists; split; reflexivity).
  destruct H as (i & Hi & Hs). exists i. split; [exact Hi|]. split; [exact Hs|].
  exact (no_resubmission (E:=demo_env 120 []) plain_wiring _ _ _ demo_cid i
    (demo_initial false accept_plan) after_submit_reachable (rtc_refl _ _) Hi Hs).
Defined.

Lemma submissions_agree_witness :
  match w_trace after_submit with
  | EvSubmit i d :: _ =>
      with_status OrderStatus.SUBMITTING i = with_status OrderStatus.SUBMITTING i
  | _ => False
  end.
Proof.
  destruct (w_trace after_submit) as [|[i d|b d] l] eqn:Ht; [vm_compute in Ht; discriminate Ht| |
    vm_compute in Ht; discriminate Ht].
  assert (Hin : EvSubmit i d ∈ w_trace after_submit) by (rewrite Ht; by left).
  exact (submissions_agree (E:=demo_env 120 []) plain_wiring _ after_submit i d i d
    (demo_initial false accept_plan) after_submit_reachable Hin Hin eq_refl).
Defined.
