(* ===== verification/PauseFacts.v ===== *)
(** * The pause is durable

    Once the durable control row pauses entries, no session and no fault lifts
    the pause except a resume command, and that only while the latest
    reconciliation is CLEAN and FULL and no intent is unresolved. *)

From S2P Require Import Prelude Text Orders OrderFacts Ledger Contracts BrokerPort Store Repos.
From S2P Require Import Stable Evolve Clean RepoFacts Engine EngineFacts TradeUpdates ControlPlane.
From S2P Require Import Reconciler ServiceFacts FakeBroker System Demo SystemFacts.
Local Open Scope Z_scope.

(** Entries are paused in this database. *)
Definition db_paused (d : db) : Prop := cs_entries_paused (db_control d) = true.

(** What a resume requires of the database. *)
Definition resumable (d : db) : Prop :=
  (∃ r, latest_run d = Some r ∧ rn_status r = RECON_CLEAN ∧ rn_scope r = SCOPE_FULL) ∧
  ∀ cid i, db_intents d !! cid = Some i →
    oi_status i ≠ OrderStatus.UNKNOWN ∧ oi_status i ≠ OrderStatus.REVIEW_REQUIRED.

Section paused.
Context {E : Env} {B : Type} `{!PaperBroker B}.
Implicit Types (w : world B).

Definition paused w : Prop := db_paused (w_work w) ∧ db_paused (w_committed w).
Definition stays_paused w w' : Prop := paused w → paused w'.

#[global] Instance stays_paused_preorder : PreOrder stays_paused.
Proof. split; [by intros w Hw|]. intros x y z H1 H2 H. by apply H2, H1. Qed.

#[global] Instance stays_paused_transactional : Transactional stays_paused.
Proof. split; [apply _|..]; intros w w' Hw Hc _; unfold stays_paused, paused; rewrite Hw, Hc; tauto. Qed.

Definition keeps_pause_row {A} (f : Z → db → outcome (A * db)) : Prop :=
  ∀ t d a d', db_paused d → f t d = Ok (a, d') → db_paused d'.

Lemma stmt_stays_paused {A} (f : Z → db → outcome (A * db)) :
  keeps_pause_row f → pres stays_paused (stmt f).
Proof.
  intros Hf. apply stmt_stable; [apply _|]. intros t w a d w' Hfd Hw Hc _ [H1 H2].
  split; [|by rewrite Hc]. rewrite Hw. exact (Hf _ _ _ _ H1 Hfd).
Qed.

(** A statement that returned passed its checks. *)
Ltac sql_cases :=
  intros t d a d' Hp H;
  repeat match goal with
  | H : (sql_check _ ≫= _) = Ok _ |- _ => apply sql_check_bind in H as [_ H]
  | H : context [match ?x with _ => _ end] |- _ => destruct x
  end; simplify_eq; done.

Lemma sql_insert_intent_paused i : keeps_pause_row (sql_insert_intent i).
Proof. unfold sql_insert_intent. sql_cases. Qed.
Lemma sql_update_intent_status_paused cid s : keeps_pause_row (sql_update_intent_status cid s).
Proof. unfold sql_update_intent_status. sql_cases. Qed.
Lemma sql_insert_mirror_paused o : keeps_pause_row (sql_insert_mirror o).
Proof. unfold sql_insert_mirror. sql_cases. Qed.
Lemma sql_update_mirror_paused bid s f obs : keeps_pause_row (sql_update_mirror bid s f obs).
Proof. unfold sql_update_mirror. sql_cases. Qed.
Lemma sql_insert_fill_paused f : keeps_pause_row (sql_insert_fill f).
Proof. unfold sql_insert_fill. sql_cases. Qed.
Lemma sql_insert_run_paused r : keeps_pause_row (sql_insert_run r).
Proof. unfold sql_insert_run. sql_cases. Qed.
Lemma sql_insert_mismatch_paused i m : keeps_pause_row (sql_insert_mismatch i m).
Proof. unfold sql_insert_mismatch. sql_cases. Qed.
Lemma sql_pause_entries_paused r : keeps_pause_row (sql_pause_entries r).
Proof. unfold sql_pause_entries. sql_cases. Qed.
Lemma sql_bump_paused : keeps_pause_row sql_bump_flatten_generation.
Proof. unfold sql_bump_flatten_generation. sql_cases. Qed.
Lemma sql_insert_command_paused c : keeps_pause_row (sql_insert_command c).
Proof. unfold sql_insert_command. sql_cases. Qed.
Lemma sql_insert_genesis_paused c : keeps_pause_row (sql_insert_genesis c).
Proof. unfold sql_insert_genesis. sql_cases. Qed.
Lemma sql_insert_revision_paused c : keeps_pause_row (sql_insert_revision c).
Proof. unfold sql_insert_revision. sql_cases. Qed.

(** The safety connection leaves the view and the durable row paused or alone. *)
Lemma persist_safety_pause_paused r : pres stays_paused (persist_safety_pause r).
Proof.
  intros w [Hw Hc]. unfold persist_safety_pause, next_stmt, act, mbind, M_bind, paused. simpl.
  repeat (split_match; simpl; try done);
    match goal with
    | H : sql_pause_entries _ _ _ = Ok _ |- _ =>
        unfold sql_pause_entries in H; destruct (_ && _); [|done]; simplify_eq/=
    end; done.
Qed.

#[global] Instance stays_paused_stable : Stable stays_paused.
Proof.
  split; [apply _|..]; intros; try apply stmt_stays_paused; first
    [ apply sql_insert_intent_paused | apply sql_update_intent_status_paused
    | apply sql_insert_mirror_paused | apply sql_update_mirror_paused
    | apply sql_insert_fill_paused | apply sql_insert_run_paused
    | apply sql_insert_mismatch_paused | apply sql_pause_entries_paused | apply sql_bump_paused
    | apply sql_insert_command_paused | apply sql_insert_genesis_paused
    | apply sql_insert_revision_paused | apply persist_safety_pause_paused ].
Qed.

Lemma log_event_paused f : pres stays_paused (log_event (B:=B) f).
Proof. by intros w Hw. Qed.
#[global] Instance stays_paused_submit : StableSubmit stays_paused.
Proof.
  intros i. unfold broker_submit. apply pres_bind; [apply _|apply log_event_paused|intros _].
  apply call_stable, _.
Qed.
#[global] Instance stays_paused_cancel : StableCancel stays_paused.
Proof.
  intros i. unfold broker_cancel. apply pres_bind; [apply _|apply log_event_paused|intros _].
  apply call_stable, _.
Qed.

Definition is_resume (o : op) : Prop := match o with OpResume _ => True | _ => False end.

Lemma session_stays_paused c o : ¬ is_resume o → pres stays_paused (session c o).
Proof. intros Ho. unfold session, run_op, ignore. destruct o; try (by destruct (Ho I)); pres_auto. Qed.

(** ** What a resume does to the pause *)

Section resume.
Context (D : db).

(** The order and run tables are those of [D], and entries are paused unless
    [D] allows a resume. *)
Definition resume_db (d : db) : Prop :=
  db_intents d = db_intents D ∧ db_runs d = db_runs D ∧ (db_paused d ∨ resumable D).
Definition resume_ok w w' : Prop :=
  resume_db (w_work w) ∧ resume_db (w_committed w) →
  resume_db (w_work w') ∧ resume_db (w_committed w').

#[local] Instance resume_ok_preorder : PreOrder resume_ok.
Proof. split; [by intros w Hw|]. intros x y z H1 H2 H. by apply H2, H1. Qed.
#[local] Instance resume_ok_transactional : Transactional resume_ok.
Proof.
  split; [apply _|..]; intros w w' Hw Hc _; unfold resume_ok; rewrite Hw, Hc; tauto.
Qed.

Lemma sql_resume_resume_ok : pres resume_ok (stmt sql_resume_entries).
Proof.
  apply stmt_stable; [apply _|]. intros t w a d w' H Hw Hc _ [(Hi & Hr & _) H2]. rewrite Hw, Hc.
  split; [|done]. unfold sql_resume_entries, guard_that in H.
  destruct (latest_run (w_work w)) as [r|] eqn:Hl; [|done].
  destruct (bool_decide (rn_status r = RECON_CLEAN) && _) eqn:Hcl; [|done].
  destruct (forallb _ _) eqn:Hun; [|done]. simpl in H.
  injection H as <- <-. split; [exact Hi|]. split; [exact Hr|]. right.
  apply andb_true_iff in Hcl as [H3%bool_decide_eq_true H4%bool_decide_eq_true]. split.
  - exists r. split; [|done]. unfold latest_run in *. rewrite <-Hr. exact Hl.
  - intros cid i Hcid. rewrite forallb_forall in Hun. specialize (Hun i).
    assert (Hin : i ∈ intent_rows (w_work w)) by (apply elem_of_intent_rows; exists cid; congruence).
    apply list_elem_of_In, Hun in Hin. by destruct (oi_status i).
Qed.

Lemma sql_command_resume_ok c : pres resume_ok (stmt (sql_insert_command c)).
Proof.
  apply stmt_stable; [apply _|]. intros t w a d w' H Hw Hc _ [H1 H2]. rewrite Hw, Hc.
  split; [|done]. unfold sql_insert_command in H. apply sql_check_bind in H as [_ H].
  destruct (command_by_id _ _); injection H as <- <-; exact H1.
Qed.

#[local] Hint Resolve sql_resume_resume_ok sql_command_resume_ok : pres.
Lemma resume_session_ok c a : pres resume_ok (session c (OpResume a)).
Proof.
  unfold session, run_op, ignore, resume_entries, set_entries_paused, record_command,
    add_command. simpl. pres_auto.
Qed.
End resume.
End paused.

(** ** Properties *)

Section properties.
Context {E : Env} {B : Type} `{!PaperBroker B}.
Implicit Types (w : world B).

(** C5. A durable pause is sticky: if the committed control row pauses entries
    before a session - of any kind, under any faults - and does not after it,
    then the session was a resume command and, in the committed database before
    it, the latest reconciliation run was CLEAN and FULL and no intent was
    UNKNOWN or REVIEW_REQUIRED. *)
Theorem pause_lifted_only_by_safe_resume c w0 w o :
  initial w0 → reachable c w0 w →
  db_paused (w_committed w) → ¬ db_paused (w_committed (session c o w).2) →
  is_resume o ∧ resumable (w_committed w).
Proof.
  intros Hi Hr Hp Hn.
  destruct (reachable_closed c w0 w (initial_closed w0 Hi) Hr) as [_ Hw].
  assert (Hres : is_resume o).
  { destruct o; try done; exfalso; apply Hn;
      (refine (proj2 (session_stays_paused c _ _ w _)); [by intros []|split; by rewrite ?Hw]). }
  split; [done|]. destruct o; try by destruct Hres.
  assert (H1 : resume_db (w_committed w) (w_committed w)) by (split_and!; [done..|by left]).
  destruct (resume_session_ok (w_committed w) c actor w) as [_ (_ & _ & [H|H])];
    [by rewrite Hw| |]; done.
Qed.

End properties.

(** An operator's pause, a FULL and CLEAN run, then a resume. *)
Definition full_wiring : wiring :=
  mk_wiring same_connection None (Some (mk_AccountPolicy "paper-1" 0 0)) None.
Definition before_resume : world FakePaperBroker :=
  run_sessions (E:=demo_env 120 []) full_wiring
    [OpSetBaseline "paper-1" 100000000 80; OpReconcile sample_date]
    (demo_world true accept_plan).

Lemma before_resume_reachable :
  reachable (E:=demo_env 120 []) full_wiring (demo_world true accept_plan) before_resume.
Proof. apply run_sessions_reachable. Qed.

Lemma pause_lifted_only_by_safe_resume_witness :
  db_paused (w_committed before_resume) ∧
  ¬ db_paused (w_committed
      (session (E:=demo_env 120 []) full_wiring (OpResume "operator") before_resume).2) ∧
  resumable (w_committed before_resume).
Proof.
  assert (H1 : db_paused (w_committed before_resume)) by (vm_compute; reflexivity).
  assert (H2 : ¬ db_paused (w_committed
    (session (E:=demo_env 120 []) full_wiring (OpResume "operator") before_resume).2))
    by (vm_compute; discriminate).
  split; [exact H1|]. split; [exact H2|].
  exact (proj2 (pause_lifted_only_by_safe_resume (E:=demo_env 120 []) full_wiring
    (demo_world true accept_plan) before_resume (OpResume "operator")
    (demo_initial true accept_plan) before_resume_reachable H1 H2)).
Defined.
