(* ===== verification/TradeFacts.v ===== *)
(** * What a trade update does

    The abstract specification of the consumer is a function on databases
    ([trade_spec]): a report, the database the update leads to, or a conflict.
    Without faults the consumer decides exactly as the specification; under any
    faults what it returns is still what the specification says. *)

From S2P Require Import Prelude Text Orders OrderFacts Contracts BrokerPort Store Repos Stable.
From S2P Require Import Evolve Clean RepoFacts Faultless Engine TradeUpdates FakeBroker.
From S2P Require Import System Demo SystemFacts.
Local Open Scope Z_scope.

(** ** The specification *)

Inductive trade_verdict :=
  | Reported (r : TradeUpdateOutcome)   (* nothing changes *)
  | Applied (d : db)                    (* the database afterwards *)
  | Conflict (cid conflict : string) (d : db). (* what is kept; entries must pause *)

(** The intent [cid] follows the broker to [target], if the map lets it. *)
Definition spec_follow (cid : string) (target : OrderStatus.t → OrderStatus.t)
    (may : OrderStatus.t → OrderStatus.t → bool) (d : db) : option db :=
  match db_intents d !! cid with
  | None => Some d
  | Some i =>
      let t := target (oi_status i) in
      if bool_decide (t = oi_status i) then Some d
      else if may (oi_status i) t
      then Some (set_intents (<[cid := with_status t i]> (db_intents d)) d)
      else None
  end.

Definition spec_move_mirror (bid : string) (r : mirror_row) (st : BrokerOrderStatus.t)
    (filled : Z) (observed : option Z) (d : db) : db :=
  set_mirrors (<[bid := moved_mirror r st filled observed]> (db_mirrors d)) d.

(** A new fill: the cumulative quantity is the larger of the mirror's and the
    ledger's, the watermark never moves back. *)
Definition spec_derive_fill (f : Fill) (r : mirror_row) (d : db) : option db :=
  let m := mirror_view r in
  let filled := Z.max (bo_filled_quantity m)
                  (sum_quantities (fills_of (bo_broker_order_id m) d)) in
  let observed := if bo_updated_at m <? fl_occurred_at f then Some (fl_occurred_at f) else None in
  if bo_quantity m <? filled then None
  else match fill_broker_target m filled with
  | Raise _ => None
  | Ok st =>
      if bool_decide (st = bo_status m) && (filled =? bo_filled_quantity m)
         && bool_decide (observed = None)
      then Some d
      else spec_follow (bo_client_order_id m) (fill_intent_target st) order_transition_allowed
             (spec_move_mirror (bo_broker_order_id m) r st filled observed d)
  end.

Definition spec_fill (f : Fill) (d : db) : trade_verdict :=
  match db_mirrors d !! fl_broker_order_id f with
  | None => Reported UNKNOWN_ORDER
  | Some r =>
      let cid := bo_client_order_id (mr_order r) in
      match fill_by_execution (fl_execution_id f) d with
      | Some g => if bool_decide (g = f) then Reported DUPLICATE
                  else Conflict cid "conflicting fill" d
      | None =>
          let d1 := set_fills (db_fills d ++ [f]) d in
          match spec_derive_fill f r d1 with
          | Some d2 => Applied d2
          | None => Conflict cid "conflicting fill" d1
          end
      end
  end.

(** A cancel the broker made may pass through CANCEL_PENDING. *)
Definition may_follow_status (s t : OrderStatus.t) : bool :=
  order_transition_allowed s t ||
  bool_decide (t = OrderStatus.CANCELED) && order_transition_allowed s OrderStatus.CANCEL_PENDING.

Definition spec_derive_status (u : OrderStatusUpdate) (r : mirror_row) (d : db) : option db :=
  let m := mirror_view r in
  if (bo_updated_at m <? su_observed_at u) &&
     (bo_filled_quantity m <=? su_filled_quantity u) &&
     (su_filled_quantity u <=? bo_quantity m) &&
     (negb (bool_decide (su_status u = BrokerOrderStatus.FILLED)) ||
      (su_filled_quantity u =? bo_quantity m)) &&
     (bool_decide (su_status u = bo_status m) ||
      broker_order_transition_allowed (bo_status m) (su_status u))
  then spec_follow (su_client_order_id u) (status_intent_target (su_status u)) may_follow_status
         (spec_move_mirror (bo_broker_order_id m) r (su_status u) (su_filled_quantity u)
            (Some (su_observed_at u)) d)
  else None.

Definition spec_status (u : OrderStatusUpdate) (d : db) : trade_verdict :=
  let cid := su_client_order_id u in
  match db_intents d !! cid, mirror_by_client cid d with
  | Some i, Some r =>
      let m := mirror_view r in
      if negb (bool_decide (bo_broker_order_id m = su_broker_order_id u)) then Reported UNKNOWN_ORDER
      else if su_observed_at u <? bo_updated_at m then Reported STALE
      else if bool_decide (su_status u = bo_status m)
              && (su_filled_quantity u =? bo_filled_quantity m) then Reported DUPLICATE
      else match spec_derive_status u r d with
           | Some d' => Applied d'
           | None => Conflict cid "conflicting status" d
           end
  | _, _ => Reported UNKNOWN_ORDER
  end.

Definition trade_spec (u : TradeUpdate) (d : db) : trade_verdict :=
  match u with FillUpdate f => spec_fill f d | StatusUpdate s => spec_status s d end.

(** After a conflict: the intent is marked for review where its status allows
    that, entries are paused, and nothing but the command log changed besides. *)
Definition marked (cid : string) (d : db) : gmap string OrderIntent :=
  match db_intents d !! cid with
  | Some i =>
      if negb (unresolved (oi_status i)) &&
         order_transition_allowed (oi_status i) OrderStatus.REVIEW_REQUIRED
      then <[cid := with_status OrderStatus.REVIEW_REQUIRED i]> (db_intents d)
      else db_intents d
  | None => db_intents d
  end.

Definition conflict_reason (conflict : string) : string := "reconciliation required; " +:+ conflict.

Definition conflicted (cid conflict : string) (d d' : db) : Prop :=
  ∃ t l, d' = set_commands l (set_control (pause_row t (conflict_reason conflict) (db_control d))
                (set_intents (marked cid d) d)).

(** The consumer did what the verdict says. *)
Definition verdict_met {B} (v : trade_verdict) (d : db) (o : outcome TradeUpdateOutcome)
    (w : world B) : Prop :=
  match v with
  | Reported r => o = Ok r ∧ w_committed w = d
  | Applied d' => o = Ok APPLIED ∧ w_committed w = d'
  | Conflict cid conflict d' =>
      (∃ e, o = Raise e ∧ exn_cls e = ETradeUpdate) ∧ conflicted cid conflict d' (w_committed w)
  end.

(** A fill of the constructors whose quantity fits the column. *)
Definition update_ok (u : TradeUpdate) : Prop :=
  match u with
  | FillUpdate f => decode_fill f = Ok f ∧ fl_quantity f ≤ BIGINT_MAX
  | StatusUpdate _ => True
  end.

(** ** Without faults *)

Section faultless.
Context {E : Env} {B : Type} `{!PaperBroker B} (Hf : faultless E).
Implicit Types (w : world B) (d c : db).

Lemma wp_or_trade_update_error {A} (m : M (world B) A) msg c b tr (Q : outcome A → world B → Prop) w :
  wp m (λ o w', match o with
    | Ok a => Q (Ok a) w'
    | Raise _ => (∃ d, live d c b tr w') ∨ stuck c b tr w' end) w →
  (∀ w', live c c b tr w' → Q (Raise (mk_exn ETradeUpdate msg)) w') →
  wp (or_trade_update_error m msg) Q w.
Proof using Hf.
  intros Hm HQ. apply wp_catch. eapply wp_mono; [exact Hm|]. intros [a|e] w' H; [done|].
  apply wp_bind. eapply (wp_suppress_rollback Hf (w_work w') c b tr).
  - destruct H as [[d Hl]|?]; [left|by right]. by rewrite (lv_work _ _ _ _ _ Hl).
  - intros w2 Hl2. apply wp_throw. by apply HQ.
Qed.

Definition raises_trade_update {A} (o : outcome A) : Prop :=
  match o with Ok _ => True | Raise e => exn_cls e = ETradeUpdate end.

(** The marker: durable, or refused with the transaction rolled back. *)
Lemma wp_conflict_marker cid conflict d b tr w (Q : outcome unit → world B → Prop) :
  live d d b tr w → decodable d →
  (∀ w', let d' := set_intents (marked cid d) d in live d' d' b tr w' → Q (Ok ()) w') →
  (∀ e w', exn_cls e = ETradeUpdate → marked cid d = db_intents d → live d d b tr w' →
     Q (Raise e) w') →
  wp (persist_conflict_marker cid conflict) Q w.
Proof using Hf.
  intros Hl Hd HQ HE. unfold persist_conflict_marker. apply wp_bind.
  eapply wp_orders_get; [done..|]. intros w1 Hl1. unfold marked in *.
  assert (set_intents (db_intents d) d = d) as Hid by by destruct d.
  destruct (db_intents d !! cid) as [i|] eqn:Hi; [|by apply wp_throw, HE].
  destruct (unresolved (oi_status i)) eqn:Hu; simpl in *.
  { apply wp_ret, HQ. by rewrite Hid. }
  assert (oi_status i ≠ OrderStatus.REVIEW_REQUIRED) by (by intros H; rewrite H in Hu).
  destruct (order_transition_allowed (oi_status i) OrderStatus.REVIEW_REQUIRED) eqn:Ht; simpl in *.
  - apply wp_catch, wp_bind. eapply wp_transition_status; [done..|]. unfold sql_intent_update_ok.
    rewrite Ht, orb_true_r. intros w2 Hl2. eapply wp_commit; [done..|]. intros w3 Hl3. by apply HQ.
  - apply (wp_or_trade_update_error _ _ d b tr); [|by auto].
    apply wp_bind. eapply wp_transition_status; [done..|]. unfold sql_intent_update_ok.
    rewrite Ht, bool_decide_eq_false_2 by (by intros Heq; rewrite Heq in Hu). simpl.
    intros e w2 Hs _. by right.
Qed.

(** A conflict always ends with entries durably paused. *)
Lemma wp_conflict_pause cid conflict d b tr w (Q : outcome unit → world B → Prop) :
  live d d b tr w → decodable d → reason_ok (conflict_reason conflict) = true →
  (∀ o w', raises_trade_update o → conflicted cid conflict d (w_committed w') → Q o w') →
  wp (persist_conflict_pause cid conflict) Q w.
Proof using Hf.
  intros Hl Hd Hr HQ. unfold persist_conflict_pause. apply wp_bind, wp_catch.
  apply (wp_conflict_marker cid conflict d b tr); [done..| |].
  - intros w1 d1 Hl1. set (p t := pause_row t (conflict_reason conflict) (db_control d)).
    assert (Hd1 : decodable d1).
    { assert (set_intents (db_intents d) d = d) as Hid by (by destruct d). unfold d1, marked.
      destruct (db_intents d !! cid) as [i|] eqn:Hi; [destruct (_ && _)|];
        [by apply decodable_intents|by rewrite Hid..]. }
    assert (Hdone : ∀ t l o w', raises_trade_update o →
      w_committed w' = set_commands l (set_control (p t) d1) → Q o w').
    { intros t l o w' Ho Hw. apply HQ; [done|]. by exists t, l. }
    apply wp_bind, wp_catch, wp_bind. eapply wp_set_entries_paused; [done..|]. intros t w2 p2 Hl2.
    eapply wp_commit; [done..|]. intros w3 Hl3. set (d2 := set_control (p t) d1) in *.
    assert (Hd2 : decodable d2) by exact (decodable_pause t _ d1 Hd1 Hr).
    assert (Hsame : d2 = set_commands (db_commands d1) d2) by done.
    apply wp_bind, (wp_or_trade_update_error _ _ d2 b tr);
      [|intros w4 Hl4; apply (Hdone t (db_commands d1)); [done|apply Hl4]].
    apply wp_bind. eapply wp_control_state; [done..|]. intros w4 Hl4. apply wp_bind, wp_lift.
    destruct (check_ControlCommandRecord _) as [rec|e]; [|by left; exists d2].
    apply wp_bind. eapply wp_add_command; [done..| |].
    + intros l a w5 Hl5. apply wp_ret, wp_catch. eapply wp_commit; [done..|]. intros w6 Hl6.
      apply (Hdone t l); [done|apply Hl6].
    + intros e w5 [Hl5|Hs]; [left; by exists d2|by right].
  - intros e w1 He Hm Hl1. rewrite bool_decide_eq_true_2 by done. apply wp_bind, wp_catch.
    eapply wp_safety_pause; [done..|by apply reason_ok_sql|]. intros t w2 p Hl2. apply wp_throw.
    apply HQ; [done|]. exists t, (db_commands d). rewrite (lv_committed _ _ _ _ _ Hl2), Hm.
    by destruct d.
Qed.

(** The handler of the derived work turns every failure into a conflict. *)
Lemma wp_derived {A} cid conflict (m : M (world B) A) d b tr w (Q : outcome A → world B → Prop) :
  decodable d → reason_ok (conflict_reason conflict) = true →
  wp m (λ o w', match o with
    | Ok a => Q (Ok a) w'
    | Raise _ => ((∃ d', live d' d b tr w') ∨ stuck d b tr w') ∧
        ∀ e w2, exn_cls e = ETradeUpdate → conflicted cid conflict d (w_committed w2) → Q (Raise e) w2
    end) w →
  wp (derived cid conflict m) Q w.
Proof using Hf.
  intros Hd Hr Hm. apply wp_catch. eapply wp_mono; [exact Hm|]. intros [a|e] w1 H; [done|].
  destruct H as [H HQ]. apply wp_bind. eapply (wp_suppress_rollback Hf (w_work w1) d b tr).
  { destruct H as [[d' Hl]|?]; [left|by right]. by rewrite (lv_work _ _ _ _ _ Hl). }
  intros w2 Hl2. apply wp_bind. eapply wp_conflict_pause; [done..|].
  intros [u|e'] w3 He Hc; [|by apply HQ].
  case_bool_decide; [by apply wp_rethrow, HQ|by apply wp_throw, HQ].
Qed.

Lemma fill_broker_target_ok m n st :
  fill_broker_target m n = Ok st →
  (st = bo_status m ∨ broker_order_transition_allowed (bo_status m) st = true) ∧
  (st = BrokerOrderStatus.FILLED → n = bo_quantity m ∨ bo_status m = BrokerOrderStatus.FILLED).
Proof using Type.
  unfold fill_broker_target. destruct (_ || _); [naive_solver|].
  case_bool_decide as Hp; [naive_solver|]. set (cand := if n =? _ then _ else _).
  case_bool_decide as Hc; [|destruct (broker_order_transition_allowed _ cand) eqn:Ha; [|done]];
    intros [= <-]; (split; [by auto|]); intros Hs; [by right|].
  left. subst cand. destruct (n =? bo_quantity m) eqn:Hn; [by apply Z.eqb_eq|].
  by destruct (0 <? n).
Qed.

(** What a mirror row of a well-formed database satisfies. *)
Lemma mirror_row_wf d bid r :
  db_wf d → db_mirrors d !! bid = Some r →
  bo_broker_order_id (mr_order r) = bid ∧
  0 ≤ bo_filled_quantity (mr_order r) ≤ bo_quantity (mr_order r) ∧
  (bo_status (mr_order r) = BrokerOrderStatus.FILLED →
   bo_filled_quantity (mr_order r) = bo_quantity (mr_order r)).
Proof using Type.
  intros Hwf Hr. destruct (wf_mirrors d Hwf bid r Hr) as (Hid & Hc & _).
  unfold sql_mirror_checks, sql_filled_exactly in Hc. split; [done|].
  split; [lia|]. intros Hs. rewrite bool_decide_eq_true_2 in Hc by done. simpl in Hc. lia.
Qed.

Definition observed_after (m : BrokerOrder) (t : Z) : option Z :=
  if bo_updated_at m <? t then Some t else None.

Lemma fill_update_allowed d bid r f n st :
  db_wf d → db_mirrors d !! bid = Some r →
  fill_broker_target (mirror_view r) n = Ok st →
  bo_filled_quantity (mr_order r) ≤ n ≤ bo_quantity (mr_order r) →
  sql_mirror_update_ok r st n (observed_after (mirror_view r) (fl_occurred_at f)) = true.
Proof using Type.
  intros Hwf Hr Ht Hn. destruct (mirror_row_wf d bid r Hwf Hr) as (_ & Hq & Hfull).
  apply fill_broker_target_ok in Ht as [Hst Hex]. simpl in *.
  unfold sql_mirror_update_ok, observed_after. simpl.
  assert (bool_decide (bo_status (mr_order r) = st) ||
    broker_order_transition_allowed (bo_status (mr_order r)) st = true) as ->.
  { destruct Hst as [<-| ->]; [by rewrite bool_decide_eq_true_2|apply orb_true_r]. }
  assert (negb (bool_decide (st = BrokerOrderStatus.FILLED)) || (n =? bo_quantity (mr_order r)) = true)
    as ->.
  { case_bool_decide as Hs; [|done]. simpl. apply Z.eqb_eq. destruct (Hex Hs) as [?|Hs']; [done|].
    rewrite (Hfull Hs') in Hn. lia. }
  destruct (mr_watermark r) as [t|]; simpl; [|lia]. destruct (t <? fl_occurred_at f) eqn:Hlt; lia.
Qed.

Lemma wp_derive_from_fill r f d b tr w (Q : outcome TradeUpdateOutcome → world B → Prop) :
  live d d b tr w → decodable d → db_wf d →
  db_mirrors d !! bo_broker_order_id (mr_order r) = Some r →
  match spec_derive_fill f r d with
  | Some d' => ∀ w', live d' d' b tr w' → Q (Ok APPLIED) w'
  | None => ∀ e w', (∃ d', live d' d b tr w') ∨ stuck d b tr w' → Q (Raise e) w'
  end →
  wp (derive_from_fill (mirror_view r) f) Q w.
Proof using Hf.
  intros Hl Hd Hwf Hr HQ. unfold derive_from_fill, spec_derive_fill in *. cbv zeta in *.
  apply wp_bind. eapply wp_orders_list_fills; [done..|]. intros w1 Hl1.
  set (total := sum_quantities _) in *.
  assert ((if total <? bo_filled_quantity (mirror_view r) then bo_filled_quantity (mirror_view r)
           else total) = Z.max (bo_filled_quantity (mirror_view r)) total) as ->
    by (destruct (Z.ltb_spec total (bo_filled_quantity (mirror_view r))); lia).
  set (n := Z.max _ _) in *. fold (observed_after (mirror_view r) (fl_occurred_at f)) in *.
  destruct (bo_quantity (mirror_view r) <? n) eqn:Hn; [by apply wp_throw, HQ; eauto|].
  apply wp_bind, wp_lift.
  destruct (fill_broker_target (mirror_view r) n) as [st|e] eqn:Ht; [|by apply HQ; eauto].
  destruct (_ && _ && _); [by apply wp_ret, HQ|].
  assert (Hn' : bo_filled_quantity (mr_order r) ≤ n ≤ bo_quantity (mr_order r)) by (simpl in *; lia).
  pose proof (mirror_row_wf d _ r Hwf Hr) as (_ & Hq & _).
  apply wp_bind. eapply wp_update_mirror; [done..|].
  rewrite (fill_update_allowed d _ r f n st Hwf Hr Ht Hn'). intros w2 Hl2.
  change (live (spec_move_mirror (bo_broker_order_id (mirror_view r)) r st n
    (observed_after (mirror_view r) (fl_occurred_at f)) d) d b tr w2) in Hl2.
  assert (Hd2 : decodable (spec_move_mirror (bo_broker_order_id (mirror_view r)) r st n
    (observed_after (mirror_view r) (fl_occurred_at f)) d)) by (apply decodable_mirrors; [done..|lia]).
  set (d2 := spec_move_mirror _ _ _ _ _ d) in *.
  assert (Hcommit : ∀ d' w', spec_follow (bo_client_order_id (mirror_view r))
      (fill_intent_target st) order_transition_allowed d2 = Some d' → live d' d b tr w' →
    wp (commit ≫= λ _, mret APPLIED) Q w').
  { intros d' w' Hs Hl'. rewrite Hs in HQ. apply wp_bind. eapply wp_commit; [done..|].
    intros w4 Hl4. by apply wp_ret, HQ. }
  apply wp_bind. eapply wp_orders_get; [done..|]. intros w3 Hl3. apply wp_bind.
  unfold spec_follow in HQ, Hcommit.
  destruct (db_intents d2 !! bo_client_order_id (mirror_view r)) as [i|] eqn:Hi; [|by eapply wp_ret, Hcommit].
  case_bool_decide as Heq; [by eapply wp_ret, Hcommit|].
  destruct (order_transition_allowed _ _) eqn:Ha; simpl; [|by apply wp_throw, HQ; eauto].
  apply wp_bind. eapply wp_transition_status; [done..|]. unfold sql_intent_update_ok.
  rewrite Ha, orb_true_r. intros w4 Hl4. by eapply wp_ret, Hcommit.
Qed.

(** What the fill's constructor guarantees passes the table's checks, the
    quantity's width apart. *)
Lemma sql_blank_is_blank s : sql_blank s = true → is_blank s = true.
Proof using Type.
  apply str_forallb_mono. unfold is_char. intros a H. apply bool_decide_eq_true in H as ->. done.
Qed.

Lemma decode_fill_sql f :
  decode_fill f = Ok f → fl_quantity f ≤ BIGINT_MAX →
  sql_text_id (fl_execution_id f) && (1 <=? fl_quantity f) &&
    (fl_quantity f <=? BIGINT_MAX) && sql_price (fl_price f) = true.
Proof using Type.
  unfold decode_fill, make_OrderQuantity, check_Fill. intros H Hmax.
  apply obind_Ok in H as (q & Hq & H). apply obind_Ok in Hq as ([] & Hq & _).
  apply guard_that_Ok in Hq. apply obind_Ok in H as (p & Hp & H).
  destruct (fl_price f) as [v] eqn:Hv. simpl in Hp. apply make_Price_Ok in Hp as [-> [_ Hp]].
  apply obind_Ok in H as ([] & Hx & _). apply guard_that_Ok in Hx.
  unfold bounded_text in Hx. apply andb_true_iff in Hx as [[Hb Hlen]%andb_true_iff _].
  unfold sql_text_id, sql_price. rewrite Hlen. simpl in *.
  destruct (sql_blank (fl_execution_id f)) eqn:Hs; [by rewrite (sql_blank_is_blank _ Hs) in Hb|].
  simpl. lia.
Qed.

(** A fill that enters the table leaves it well formed. *)
Lemma fill_wf f d :
  db_wf d → decode_fill f = Ok f → fl_quantity f ≤ BIGINT_MAX →
  is_Some (db_mirrors d !! fl_broker_order_id f) → fill_by_execution (fl_execution_id f) d = None →
  db_wf (set_fills (db_fills d ++ [f]) d).
Proof using Type.
  intros Hwf Hdec Hmax Hm Hnew. apply (sql_insert_fill_ok f 0 d true); [done|].
  unfold sql_insert_fill, sql_check. rewrite decode_fill_sql, Hnew, bool_decide_eq_true_2 by done.
  done.
Qed.

Lemma fill_update_met f d b tr w :
  live d d b tr w → decodable d → db_wf d → update_ok (FillUpdate f) →
  wp (apply_fill_update f) (verdict_met (spec_fill f d) d) w.
Proof using Hf.
  intros Hl Hd Hwf [Hdec Hmax]. unfold apply_fill_update, spec_fill. apply wp_bind.
  eapply wp_get_broker_order_by_id; [done..|]. intros w1 Hl1.
  destruct (db_mirrors d !! fl_broker_order_id f) as [r|] eqn:Hr; simpl; [|by apply wp_ret; destruct Hl1].
  pose proof (proj1 (mirror_row_wf d _ r Hwf Hr)) as Hbid.
  apply wp_bind. eapply (wp_add_fill Hf); [done|by apply decode_fill_sql|by eexists|]. intros w2.
  destruct (fill_by_execution (fl_execution_id f) d) as [g|] eqn:Hg; intros Hl2; simpl.
  - apply wp_bind. eapply wp_get_fill; [done..|]. intros w3 Hl3. rewrite Hg.
    destruct (decide (g = f)) as [->|Hne].
    + rewrite !bool_decide_eq_true_2 by done. simpl. apply wp_bind. eapply wp_commit; [done..|].
      intros w4 Hl4. apply wp_ret. by destruct Hl4.
    + rewrite !bool_decide_eq_false_2 by congruence. simpl. apply wp_bind.
      eapply (wp_suppress_rollback Hf); [by left|]. intros w4 Hl4. apply wp_bind.
      eapply wp_conflict_pause; [done..|]. intros [u|e] w5 He Hc; [apply wp_throw|]; split; eauto.
  - apply wp_bind. eapply wp_commit; [done..|]. intros w3 Hl3.
    set (d1 := set_fills _ d) in *.
    assert (Hd1 : decodable d1) by by apply decodable_fills.
    assert (Hwf1 : db_wf d1) by (by apply fill_wf; [..|eexists|]).
    apply (wp_derived _ _ _ d1 b tr); [done..|].
    apply (wp_derive_from_fill r f d1 b tr); [done..|by rewrite Hbid|].
    destruct (spec_derive_fill f r d1) as [d2|]; [intros w4 []; done|].
    intros e w4 Hw4. split; [done|]. intros e' w5 He' Hc. split; eauto.
Qed.

Lemma wp_transition_intent cid i target d c b tr w (Q : outcome unit → world B → Prop) :
  live d c b tr w → decodable d → db_intents d !! cid = Some i →
  (if may_follow_status (oi_status i) target then
     ∀ w', live (set_intents (<[cid := with_status target i]> (db_intents d)) d) c b tr w' →
       Q (Ok ()) w'
   else ∀ e w', live d c b tr w' → Q (Raise e) w') →
  wp (transition_intent cid (oi_status i) target) Q w.
Proof using Hf.
  intros Hl Hd Hi HQ. unfold transition_intent, may_follow_status in *. apply wp_bind.
  destruct (order_transition_allowed (oi_status i) target) eqn:Ha; simpl in *.
  { apply wp_ret, wp_bind. eapply wp_transition_status; [done..|]. unfold sql_intent_update_ok.
    rewrite Ha, orb_true_r. intros w1 Hl1. by apply wp_ret, HQ. }
  case_bool_decide as Ht; simpl in *; [|by apply wp_throw, HQ]. subst target.
  destruct (order_transition_allowed (oi_status i) OrderStatus.CANCEL_PENDING) eqn:Hp; simpl;
    [|by apply wp_throw, HQ].
  apply wp_bind. eapply wp_transition_status; [done..|]. unfold sql_intent_update_ok at 1.
  rewrite Hp, orb_true_r. intros w1 Hl1. apply wp_ret, wp_bind.
  eapply wp_transition_status; [done|done|by apply decodable_intents|by apply lookup_insert_eq|].
  simpl. intros w2 Hl2. apply wp_ret, HQ. by rewrite insert_insert_eq in Hl2.
Qed.

(** The tail of a status update: the intent follows, then the commit. *)
Lemma wp_follow_status u i d d0 b tr w (Q : outcome TradeUpdateOutcome → world B → Prop) :
  live d d0 b tr w → decodable d → db_intents d !! su_client_order_id u = Some i →
  match spec_follow (su_client_order_id u) (status_intent_target (su_status u)) may_follow_status d
  with
  | Some d' => ∀ w', live d' d' b tr w' → Q (Ok APPLIED) w'
  | None => ∀ e w', live d d0 b tr w' → Q (Raise e) w'
  end →
  let target := status_intent_target (su_status u) (oi_status i) in
  wp ((if negb (bool_decide (target = oi_status i))
       then transition_intent (su_client_order_id u) (oi_status i) target else mret ()) ≫= λ _,
      commit ≫= λ _, mret APPLIED) Q w.
Proof using Hf.
  intros Hl Hd Hi HQ target. unfold spec_follow in HQ. rewrite Hi in HQ. fold target in HQ.
  cbv zeta in HQ.
  assert (Hcommit : ∀ d' w', live d' d0 b tr w' → (∀ w', live d' d' b tr w' → Q (Ok APPLIED) w') →
    wp (commit ≫= λ _, mret APPLIED) Q w').
  { intros d' w' Hl' H. apply wp_bind. eapply wp_commit; [done..|]. intros w2 Hl2. by apply wp_ret, H. }
  apply wp_bind. case_bool_decide as He; simpl; [by eapply wp_ret, Hcommit|].
  eapply wp_transition_intent; [done..|].
  destruct (may_follow_status (oi_status i) target); [intros w1 Hl1; by eapply Hcommit|done].
Qed.

Lemma status_update_allowed d bid r u :
  db_wf d → db_mirrors d !! bid = Some r →
  (bo_updated_at (mirror_view r) <? su_observed_at u) = true →
  bo_filled_quantity (mr_order r) ≤ su_filled_quantity u ≤ bo_quantity (mr_order r) →
  negb (bool_decide (su_status u = BrokerOrderStatus.FILLED)) ||
    (su_filled_quantity u =? bo_quantity (mr_order r)) = true →
  bool_decide (su_status u = bo_status (mr_order r)) ||
    broker_order_transition_allowed (bo_status (mr_order r)) (su_status u) = true →
  sql_mirror_update_ok r (su_status u) (su_filled_quantity u) (Some (su_observed_at u)) = true.
Proof using Type.
  intros Hwf Hr Ht Hq Hfull Hst. destruct (mirror_row_wf d bid r Hwf Hr) as (_ & Hq0 & _).
  unfold sql_mirror_update_ok. rewrite Hfull, (bool_decide_ext _ (su_status u = bo_status (mr_order r))),
    Hst by done. simpl in *. destruct (mr_watermark r); simpl in *; lia.
Qed.

Lemma wp_derive_from_status r i u d b tr w (Q : outcome TradeUpdateOutcome → world B → Prop) :
  live d d b tr w → decodable d → db_wf d →
  db_mirrors d !! bo_broker_order_id (mr_order r) = Some r →
  db_intents d !! su_client_order_id u = Some i →
  (su_observed_at u <? bo_updated_at (mirror_view r)) = false →
  match spec_derive_status u r d with
  | Some d' => ∀ w', live d' d' b tr w' → Q (Ok APPLIED) w'
  | None => ∀ e w', (∃ d', live d' d b tr w') ∨ stuck d b tr w' → Q (Raise e) w'
  end →
  wp (derive_from_status (mirror_view r) i u) Q w.
Proof using Hf.
  intros Hl Hd Hwf Hr Hi Hstale HQ. unfold derive_from_status, spec_derive_status in *. cbv zeta in *.
  set (m := mirror_view r) in *.
  assert ((bo_updated_at m <? su_observed_at u) = negb (su_observed_at u =? bo_updated_at m)) as Hlt
    by lia. rewrite Hlt, (Z.leb_antisym (su_filled_quantity u)), (Z.leb_antisym (bo_quantity m)) in HQ.
  destruct (su_observed_at u =? bo_updated_at m); cbn [negb andb orb] in HQ; [by apply wp_throw, HQ; eauto|].
  destruct (su_filled_quantity u <? bo_filled_quantity m) eqn:H1; cbn [negb andb orb] in HQ;
    [by apply wp_throw, HQ; eauto|].
  destruct (bo_quantity m <? su_filled_quantity u) eqn:H2; cbn [negb andb orb] in HQ;
    [by apply wp_throw, HQ; eauto|].
  assert (negb (bool_decide (su_status u = BrokerOrderStatus.FILLED)) ||
      (su_filled_quantity u =? bo_quantity m) =
    negb (bool_decide (su_status u = BrokerOrderStatus.FILLED) &&
      negb (su_filled_quantity u =? bo_quantity m))) as Hfull
    by (by destruct (bool_decide _), (_ =? _)).
  rewrite Hfull in HQ. destruct (bool_decide (su_status u = BrokerOrderStatus.FILLED) && _);
    cbn [negb andb orb] in HQ, Hfull; [by apply wp_throw, HQ; eauto|].
  apply wp_bind.
  assert (Hst : bool_decide (su_status u = bo_status m)
      || broker_order_transition_allowed (bo_status m) (su_status u) = true ∨
    bool_decide (su_status u = bo_status m) = false ∧
      broker_order_transition_allowed (bo_status m) (su_status u) = false)
    by (destruct (bool_decide (su_status u = bo_status m)), (broker_order_transition_allowed _ _); auto).
  destruct Hst as [Hst|[Hne Hno]].
  2: { rewrite Hne, Hno in *. cbn [negb andb orb] in *. unfold assert_broker_order_transition, guard_that.
       rewrite Hno. apply wp_lift, HQ. eauto. }
  rewrite Hst in HQ.
  assert (Hgo : ∀ Q' : outcome unit → world B → Prop, Q' (Ok ()) w →
    wp (if negb (bool_decide (su_status u = bo_status m))
        then lift (assert_broker_order_transition (bo_status m) (su_status u)) else mret ()) Q' w).
  { intros Q' H. destruct (bool_decide (su_status u = bo_status m)); cbn [negb andb orb] in *; [by apply wp_ret|].
    apply wp_lift. unfold assert_broker_order_transition. by rewrite Hst. }
  apply Hgo. apply wp_bind. eapply wp_update_mirror; [done..|].
  rewrite (status_update_allowed d _ r u Hwf Hr) by (done || (simpl in *; lia)). intros w1 Hl1.
  apply (wp_follow_status u i (spec_move_mirror (bo_broker_order_id m) r (su_status u)
    (su_filled_quantity u) (Some (su_observed_at u)) d) d b tr);
    [done|by apply decodable_mirrors; [..|simpl in *; pose proof (mirror_row_wf d _ r Hwf Hr); lia]|done|].
  destruct (spec_follow _ _ _ _); [done|]. eauto.
Qed.

Lemma status_update_met u d b tr w :
  live d d b tr w → decodable d → db_wf d →
  wp (apply_status_update u) (verdict_met (spec_status u d) d) w.
Proof using Hf.
  intros Hl Hd Hwf. unfold apply_status_update, spec_status. cbv zeta. apply wp_bind.
  eapply wp_orders_get; [done..|]. intros w1 Hl1.
  destruct (db_intents d !! su_client_order_id u) as [i|] eqn:Hi; [|by apply wp_ret; destruct Hl1].
  apply wp_bind. eapply wp_get_broker_order; [done..|]. intros w2 Hl2.
  destruct (mirror_by_client (su_client_order_id u) d) as [r|] eqn:Hr; simpl;
    [|by apply wp_ret; destruct Hl2].
  apply mirror_by_client_Some in Hr as (Hcid & bid & Hr).
  pose proof (proj1 (mirror_row_wf d _ r Hwf Hr)) as Hbid. subst bid.
  case_bool_decide; simpl; [|by apply wp_ret; destruct Hl2].
  destruct (su_observed_at u <? _) eqn:Hstale; [by apply wp_ret; destruct Hl2|].
  destruct (_ && _); [by apply wp_ret; destruct Hl2|].
  apply (wp_derived _ _ _ d b tr); [done..|].
  apply (wp_derive_from_status r i u d b tr); [done..|].
  destruct (spec_derive_status u r d) as [d2|]; [intros w4 []; done|].
  intros e w4 Hw4. split; [done|]. intros e' w5 He' Hc. split; eauto.
Qed.
End faultless.

(** ** Under any faults: what a returned report means *)

Section faults.
Context {E : Env} {B : Type} `{!PaperBroker B}.
Implicit Types (w : world B).

Lemma add_fill_inv f w b w' :
  add_fill f w = (Ok b, w') →
  match fill_by_execution (fl_execution_id f) (w_work w) with
  | Some _ => b = false ∧ wrote (w_work w) w w'
  | None => b = true ∧ wrote (set_fills (db_fills (w_work w) ++ [f]) (w_work w)) w w'
  end.
Proof.
  unfold add_fill. intros H. apply bind_Ok in H as (x & w1 & H1 & H).
  apply bind_Ok in H as ([] & w2 & H2 & [-> ->]%ret_Ok).
  apply stmt_inv in H1 as (t & d & Hf & Hw). unfold sql_insert_fill in Hf.
  apply sql_check_bind in Hf as [_ Hf].
  destruct (fill_by_execution _ _) as [g|].
  - injection Hf as <- <-. by apply ret_Ok in H2 as [_ ->].
  - apply sql_check_bind in Hf as [_ Hf]. injection Hf as <- <-.
    unfold mark_write, modify in H2. by simplify_eq/=.
Qed.

Lemma update_mirror_inv bid st n obs w o w' :
  update_broker_order_status bid st n obs w = (Ok o, w') →
  ∃ r, db_mirrors (w_work w) !! bid = Some r ∧ sql_mirror_update_ok r st n obs = true ∧
    wrote (spec_move_mirror bid r st n obs (w_work w)) w w'.
Proof.
  unfold update_broker_order_status. intros H. apply bind_Ok in H as (x & w1 & H1 & H).
  apply stmt_inv in H1 as (t & d & Hf & Hw). unfold sql_update_mirror in Hf.
  destruct (db_mirrors (w_work w) !! bid) as [r|] eqn:Hr; [|by simplify_eq].
  apply sql_check_bind in Hf as [Hok Hf]. injection Hf as <- <-.
  apply bind_Ok in H as ([] & w2 & [= <-] & [_ ->]%lift_Ok). by exists r.
Qed.

Lemma derived_Ok {A} cid conflict (m : M (world B) A) w a w' :
  derived cid conflict m w = (Ok a, w') → m w = (Ok a, w').
Proof.
  unfold derived, catch. destruct (m w) as [[b|e] w1]; [done|]. intros H.
  apply bind_Ok in H as ([] & w2 & _ & H). apply bind_Ok in H as ([] & w3 & _ & H).
  by destruct (bool_decide _).
Qed.

(** The open transaction sees [d]. *)
Definition sees (d : db) w : Prop := w_work w = d ∧ w_aborted w = false.

Lemma unchanged_sees d w w' : unchanged w w' → sees d w → sees d w'.
Proof. intros (Hw & _ & _ & _ & Ha & _) [H1 H2]. split; congruence. Qed.
Lemma wrote_sees d w w' : wrote d w w' → sees d w'.
Proof. by intros (? & _ & _ & _ & ?). Qed.
Lemma sees_commit {A} d (a : A) w o w' :
  sees d w → (commit ≫= λ _, mret a) w = (Ok o, w') → o = a ∧ w_committed w' = d.
Proof.
  intros [Hw Ha] H. apply bind_Ok in H as ([] & w1 & (_ & _ & Hc)%commit_inv & [-> ->]%ret_Ok).
  by rewrite Ha, Hw in Hc.
Qed.

(** A commit on the way makes the view durable. *)
Lemma commit_sees d w u w' :
  sees d w → commit w = (Ok u, w') → sees d w' ∧ w_committed w' = d.
Proof.
  intros [Hw Ha] ([Hcl Ha'] & _ & Hc)%commit_inv. rewrite Ha, Hw in Hc. by repeat split; [congruence|..].
Qed.

Lemma transition_sees cid target d w i w' :
  sees d w → transition_status cid target w = (Ok i, w') →
  ∃ old, db_intents d !! cid = Some old ∧ i = with_status target old ∧
    sees (set_intents (<[cid := i]> (db_intents d)) d) w'.
Proof.
  intros [<- _] (old & ? & ? & _ & Hw)%transition_status_inv. exists old.
  split_and!; [done..|]. by eapply wrote_sees.
Qed.

Lemma derive_from_fill_Ok r f d w o w' :
  sees d w → w_committed w = d → db_mirrors d !! bo_broker_order_id (mr_order r) = Some r →
  derive_from_fill (mirror_view r) f w = (Ok o, w') →
  o = APPLIED ∧ spec_derive_fill f r d = Some (w_committed w').
Proof.
  intros Hd Hc Hr H. unfold derive_from_fill, spec_derive_fill in *. cbv zeta in *.
  apply bind_Ok in H as (fills & w1 & [-> Hu1]%orders_list_fills_inv & H).
  pose proof (unchanged_sees d _ _ Hu1 Hd) as Hd1. destruct Hu1 as (_ & Hc1 & _).
  rewrite (proj1 Hd) in H. fold (fills_of (bo_broker_order_id (mirror_view r)) d) in H.
  set (total := sum_quantities _) in *.
  assert ((if total <? bo_filled_quantity (mirror_view r) then bo_filled_quantity (mirror_view r)
           else total) = Z.max (bo_filled_quantity (mirror_view r)) total) as Hmax
    by (destruct (Z.ltb_spec total (bo_filled_quantity (mirror_view r))); lia).
  rewrite Hmax in H. clear Hmax. set (n := Z.max _ _) in *.
  fold (observed_after (mirror_view r) (fl_occurred_at f)) in *.
  destruct (bo_quantity (mirror_view r) <? n); [done|].
  apply bind_Ok in H as (st & w2 & [Ht ->]%lift_Ok & H). rewrite Ht.
  destruct (_ && _ && _); [apply ret_Ok in H as [-> ->]; split; congruence|].
  apply bind_Ok in H as (m & w2 & (r' & Hr' & _ & Hw2)%update_mirror_inv & H).
  rewrite (proj1 Hd1) in Hr', Hw2. assert (r' = r) as -> by (simpl in *; congruence).
  apply wrote_sees in Hw2. set (d2 := spec_move_mirror _ _ _ _ _ d) in *.
  apply bind_Ok in H as (i & w3 & [-> Hu3]%orders_get_inv & H).
  pose proof (unchanged_sees d2 _ _ Hu3 Hw2) as Hd3. rewrite (proj1 Hw2) in H.
  apply bind_Ok in H as ([] & w4 & H4 & H). unfold spec_follow.
  assert (Hfinal : ∀ d4, sees d4 w4 → o = APPLIED ∧ Some d4 = Some (w_committed w')).
  { intros d4 Hd4. destruct (sees_commit d4 _ _ _ _ Hd4 H) as [-> ->]. done. }
  destruct (db_intents d2 !! bo_client_order_id (mirror_view r)) as [i|] eqn:Hi;
    [|apply ret_Ok in H4 as [_ ->]; by apply Hfinal].
  case_bool_decide; [apply ret_Ok in H4 as [_ ->]; by apply Hfinal|].
  destruct (order_transition_allowed _ _); [|done]. simpl in H4.
  apply bind_Ok in H4 as (j & w5 & H5 & [_ ->]%ret_Ok).
  apply (transition_sees _ _ d2) in H5 as (old & Hold & -> & Hs); [|done].
  assert (Some i = Some old) as [= <-] by (etrans; [symmetry; exact Hi|exact Hold]).
  by apply Hfinal.
Qed.

Lemma transition_intent_Ok cid i target d w u w' :
  sees d w → db_intents d !! cid = Some i →
  transition_intent cid (oi_status i) target w = (Ok u, w') →
  may_follow_status (oi_status i) target = true ∧
  sees (set_intents (<[cid := with_status target i]> (db_intents d)) d) w'.
Proof.
  intros Hd Hi H. unfold transition_intent, may_follow_status in *.
  apply bind_Ok in H as ([] & w1 & H1 & H). apply bind_Ok in H as (j & w2 & H & [_ ->]%ret_Ok).
  destruct (order_transition_allowed (oi_status i) target); simpl in *.
  - apply ret_Ok in H1 as [_ ->].
    apply (transition_sees _ _ d) in H as (old & Hold & -> & Hs); [|done].
    rewrite Hi in Hold. by simplify_eq.
  - destruct (bool_decide _ && _) eqn:Hb; [|done]. split; [done|].
    apply bind_Ok in H1 as (k & w3 & H1 & [_ ->]%ret_Ok).
    apply (transition_sees _ _ d) in H1 as (old & Hold & -> & Hs); [|done].
    rewrite Hi in Hold. simplify_eq.
    apply (transition_sees _ _ _ _ _ _ Hs) in H as (old2 & Hold2 & -> & Hs2).
    simpl in Hold2. rewrite lookup_insert_eq in Hold2. simplify_eq. simpl in Hs2.
    by rewrite insert_insert_eq in Hs2.
Qed.

Lemma derive_from_status_Ok r i u d w o w' :
  sees d w → db_mirrors d !! bo_broker_order_id (mr_order r) = Some r →
  db_intents d !! su_client_order_id u = Some i →
  (su_observed_at u <? bo_updated_at (mirror_view r)) = false →
  derive_from_status (mirror_view r) i u w = (Ok o, w') →
  o = APPLIED ∧ spec_derive_status u r d = Some (w_committed w').
Proof.
  intros Hd Hr Hi Hstale H. unfold derive_from_status, spec_derive_status in *. cbv zeta in *.
  set (m := mirror_view r) in *.
  destruct (su_observed_at u =? bo_updated_at m) eqn:H1; [done|].
  destruct (su_filled_quantity u <? bo_filled_quantity m) eqn:H2; [done|].
  destruct (bo_quantity m <? su_filled_quantity u) eqn:H3; [done|].
  destruct (bool_decide (su_status u = BrokerOrderStatus.FILLED) && _) eqn:H4; [done|].
  apply bind_Ok in H as ([] & w1 & H5 & H).
  assert (w1 = w ∧ bool_decide (su_status u = bo_status m)
      || broker_order_transition_allowed (bo_status m) (su_status u) = true) as [-> Hst].
  { destruct (bool_decide (su_status u = bo_status m)); cbn [negb] in H5;
      [by apply ret_Ok in H5 as [_ ->]|]. apply lift_Ok in H5 as [H5 ->]. split; [done|].
    by apply guard_that_Ok in H5. }
  rewrite Hst. clear H5 Hst.
  assert ((bo_updated_at m <? su_observed_at u) && (bo_filled_quantity m <=? su_filled_quantity u) &&
    (su_filled_quantity u <=? bo_quantity m) = true) as -> by lia.
  assert (negb (bool_decide (su_status u = BrokerOrderStatus.FILLED)) ||
      (su_filled_quantity u =? bo_quantity m) = true) as ->
    by (destruct (bool_decide _), (su_filled_quantity u =? bo_quantity m); done).
  cbn [andb].
  apply bind_Ok in H as (m' & w2 & (r' & Hr' & _ & Hw2)%update_mirror_inv & H).
  rewrite (proj1 Hd) in Hr', Hw2. assert (r' = r) as -> by (simpl in *; congruence).
  apply wrote_sees in Hw2. set (d2 := spec_move_mirror _ _ _ _ _ d) in *.
  apply bind_Ok in H as ([] & w3 & H3' & H). unfold spec_follow.
  change (db_intents d2) with (db_intents d). rewrite Hi.
  assert (Hfinal : ∀ d4, sees d4 w3 → o = APPLIED ∧ Some d4 = Some (w_committed w')).
  { intros d4 Hd4. destruct (sees_commit d4 _ _ _ _ Hd4 H) as [-> ->]. done. }
  case_bool_decide; [apply ret_Ok in H3' as [_ ->]; by apply Hfinal|]. cbn [negb] in H3'.
  apply (transition_intent_Ok _ _ _ d2) in H3' as [-> Hs]; [|done..]. by apply Hfinal.
Qed.

Lemma fill_update_Ok f d w r w' :
  sees d w → w_committed w = d → db_wf d → apply_fill_update f w = (Ok r, w') →
  verdict_met (spec_fill f d) d (Ok r) w'.
Proof.
  intros Hd Hcd Hwf H. unfold apply_fill_update, spec_fill in *.
  apply bind_Ok in H as (m & w1 & [-> Hu1]%get_broker_order_by_id_inv & H).
  pose proof (unchanged_sees d _ _ Hu1 Hd) as Hd1. rewrite (proj1 Hd) in H.
  assert (Hc1 : w_committed w1 = d) by (rewrite <-Hcd; apply Hu1).
  destruct (db_mirrors d !! fl_broker_order_id f) as [row|] eqn:Hr; simpl in H;
    [|by apply ret_Ok in H as [-> ->]].
  pose proof (proj1 (mirror_row_wf d _ row Hwf Hr)) as Hbid.
  apply bind_Ok in H as (ins & w2 & H2%add_fill_inv & H). rewrite (proj1 Hd1) in H2.
  destruct (fill_by_execution (fl_execution_id f) d) as [g|] eqn:Hg;
    destruct H2 as [-> H2]; simpl in H.
  - apply bind_Ok in H as (e & w3 & [-> Hu3]%get_fill_inv & H).
    pose proof (unchanged_sees d _ _ Hu3 (wrote_sees _ _ _ H2)) as Hd3.
    rewrite (proj1 (wrote_sees _ _ _ H2)), Hg in H.
    destruct (decide (g = f)) as [->|Hne].
    + rewrite bool_decide_eq_true_2 in * by done. simpl in H.
      by destruct (sees_commit d _ _ _ _ Hd3 H) as [-> ?].
    + rewrite bool_decide_eq_false_2 in H by congruence. simpl in H.
      apply bind_Ok in H as ([] & w4 & _ & H). by apply bind_Ok in H as ([] & w5 & _ & H).
  - apply bind_Ok in H as ([] & w3 & Hc & H%derived_Ok).
    destruct (commit_sees _ _ _ _ (wrote_sees _ _ _ H2) Hc) as [Hs3 Hc3].
    apply (derive_from_fill_Ok row f (set_fills (db_fills d ++ [f]) d)) in H as [-> ->];
      [done..|by rewrite Hbid].
Qed.

Lemma status_update_Ok u d w r w' :
  sees d w → w_committed w = d → db_wf d → apply_status_update u w = (Ok r, w') →
  verdict_met (spec_status u d) d (Ok r) w'.
Proof.
  intros Hd Hcd Hwf H. unfold apply_status_update, spec_status in *. cbv zeta.
  apply bind_Ok in H as (i & w1 & [-> Hu1]%orders_get_inv & H).
  pose proof (unchanged_sees d _ _ Hu1 Hd) as Hd1. rewrite (proj1 Hd) in H.
  assert (Hc1 : w_committed w1 = d) by (rewrite <-Hcd; apply Hu1).
  destruct (db_intents d !! su_client_order_id u) as [i|] eqn:Hi; [|by apply ret_Ok in H as [-> ->]].
  apply bind_Ok in H as (m & w2 & [-> Hu2]%get_broker_order_inv & H).
  pose proof (unchanged_sees d _ _ Hu2 Hd1) as Hd2. rewrite (proj1 Hd1) in H.
  assert (Hc2 : w_committed w2 = d) by (rewrite <-Hc1; apply Hu2).
  destruct (mirror_by_client (su_client_order_id u) d) as [row|] eqn:Hr; simpl in H;
    [|by apply ret_Ok in H as [-> ->]].
  apply mirror_by_client_Some in Hr as (_ & bid & Hr).
  pose proof (proj1 (mirror_row_wf d _ row Hwf Hr)) as Hbid. subst bid.
  simpl. case_bool_decide; simpl in *; [|by apply ret_Ok in H as [-> ->]].
  destruct (su_observed_at u <? _) eqn:Hstale; [by apply ret_Ok in H as [-> ->]|].
  destruct (_ && _); [by apply ret_Ok in H as [-> ->]|].
  apply derived_Ok in H. apply (derive_from_status_Ok row i u d) in H as [-> ->]; done.
Qed.
End faults.

(** ** Property *)

Section properties.
Context {E : Env} {B : Type} `{!PaperBroker B}.
Implicit Types (w : world B).

(** C8. Without faults the trade-update consumer refines its specification on
    databases, on every branch.  An unknown, stale or duplicate update changes
    nothing; an applied one leaves exactly the specified database: the fill
    appended, the mirror moved to the larger of its own and the ledger's filled
    quantity with a status its map permits and a watermark that never moves
    back, the intent following; every other update raises TradeUpdateError and
    leaves entries durably paused, the intent marked for review where its
    status allows that, and - for a new fill - the fill recorded. *)
Theorem trade_update_refines_spec u d b tr w :
  faultless E → live d d b tr w → decodable d → db_wf d → update_ok u →
  let '(o, w') := apply_trade_update u w in verdict_met (trade_spec u d) d o w'.
Proof.
  intros Hf Hl Hd Hwf Hu.
  assert (H : wp (apply_trade_update u) (verdict_met (trade_spec u d) d) w).
  { destruct u as [f|s]; [by eapply fill_update_met|by eapply status_update_met]. }
  unfold wp in H. by destruct (apply_trade_update u w).
Qed.

(** C9. Whatever faults occur, a trade update that returns reports the truth:
    its outcome is the one the specification gives for the committed database
    it started from, and APPLIED is durable - the committed database is exactly
    the specified one - while every other outcome left it unchanged. *)
Theorem trade_update_report_sound u w r w' :
  clean w → db_wf (w_committed w) → apply_trade_update u w = (Ok r, w') →
  verdict_met (trade_spec u (w_committed w)) (w_committed w) (Ok r) w'.
Proof.
  intros [Hw Ha] Hwf H. destruct u as [f|s]; [eapply fill_update_Ok|eapply status_update_Ok]; by eauto.
Qed.
End properties.

(** ** Witnesses: a partial fill and a contradicting status of the order sent. *)

Definition updating : world FakePaperBroker := (uow_enter (E:=demo_env 120 []) after_submit).2.
Definition updating_db : db := w_committed updating.
Definition sample_fill : Fill := mk_Fill "exec-1" "fake-order-000001" 4 sample_price 130.
Definition regressing_status : OrderStatusUpdate :=
  mk_StatusUpdate demo_cid "fake-order-000001" BrokerOrderStatus.RECEIVED 0 140.

Lemma updating_coherent : coherent updating.
Proof.
  pose proof (initial_good _ (demo_initial false accept_plan)) as Hg.
  pose proof (reachable_good (E:=demo_env 120 []) plain_wiring (demo_world false accept_plan)
    after_submit Hg after_submit_reachable) as [Hc _].
  pose proof (uow_enter_stable (E:=demo_env 120 []) evolves after_submit) as He.
  exact (proj1 (He Hc)).
Qed.

Lemma updating_live :
  live updating_db updating_db (w_broker updating) (w_trace updating) updating.
Proof. split; vm_compute; reflexivity. Qed.
Lemma updating_wf_db : db_wf updating_db.
Proof. exact (proj1 updating_coherent). Qed.
Lemma updating_decodable : decodable updating_db.
Proof. apply decodable_test. vm_compute. reflexivity. Qed.
Lemma updating_wf : db_wf (w_committed updating).
Proof. exact (proj1 updating_coherent). Qed.

Lemma trade_update_refines_spec_witness :
  (let '(o, w') := apply_trade_update (E:=demo_env 120 []) (FillUpdate sample_fill) updating in
   o = Ok APPLIED ∧ db_fills (w_committed w') = [sample_fill]) ∧
  (let '(o, w') := apply_trade_update (E:=demo_env 120 []) (StatusUpdate regressing_status) updating in
   verdict_met (Conflict demo_cid "conflicting status" updating_db) updating_db o w').
Proof.
  pose proof updating_live as Hl. pose proof updating_decodable as Hd. pose proof updating_wf_db as Hw.
  assert (Hu : update_ok (FillUpdate sample_fill)) by (split; [vm_compute; reflexivity|by vm_compute]).
  pose proof (trade_update_refines_spec (E:=demo_env 120 []) (FillUpdate sample_fill) updating_db
    (w_broker updating) (w_trace updating) updating (demo_faultless 120) Hl Hd Hw Hu) as H1.
  pose proof (trade_update_refines_spec (E:=demo_env 120 []) (StatusUpdate regressing_status)
    updating_db (w_broker updating) (w_trace updating) updating (demo_faultless 120) Hl Hd Hw I) as H2.
  assert (Hs1 : ∃ d', trade_spec (FillUpdate sample_fill) updating_db = Applied d' ∧
    db_fills d' = [sample_fill]) by (eexists; split; vm_compute; reflexivity).
  assert (Hs2 : trade_spec (StatusUpdate regressing_status) updating_db =
    Conflict demo_cid "conflicting status" updating_db) by (vm_compute; reflexivity).
  rewrite Hs2 in H2. split; [|exact H2]. destruct Hs1 as (d' & Hs1 & Hfills). rewrite Hs1 in H1.
  destruct (apply_trade_update (E:=demo_env 120 []) (FillUpdate sample_fill) updating) as [o w'].
  destruct H1 as [Ho Hc]. split; [exact Ho|]. rewrite Hc. exact Hfills.
Defined.

(** The session's run of the fill. *)
Local Notation fill_run :=
  (apply_trade_update (E:=demo_env 120 []) (FillUpdate sample_fill) updating).
Lemma run_pair {A W} (x : outcome A * W) a : x.1 = Ok a → x = (Ok a, x.2).
Proof. destruct x as [o w]. simpl. by intros ->. Qed.
Lemma fill_run_applied : fill_run = (Ok APPLIED, fill_run.2).
Proof. apply run_pair. vm_compute. reflexivity. Qed.

Lemma updating_clean : clean updating.
Proof. split; vm_compute; reflexivity. Qed.

Lemma trade_update_report_sound_witness :
  verdict_met (trade_spec (FillUpdate sample_fill) (w_committed updating)) (w_committed updating)
    (Ok APPLIED) fill_run.2.
Proof.
  exact (trade_update_report_sound (E:=demo_env 120 []) (FillUpdate sample_fill) updating APPLIED
    fill_run.2 updating_clean updating_wf fill_run_applied).
Defined.
