(* ===== verification/ReconcilerFacts.v ===== *)
(** * Theorems on the reconciliation service

    A run that says CLEAN looked at what it claims; a run that says MISMATCH has
    paused entries durably; no run touches orders, fills or the broker. *)

From S2P Require Import Prelude Text Orders OrderFacts Ledger LedgerFacts Contracts BrokerPort Store Repos.
From S2P Require Import Stable Evolve Clean RepoFacts Engine EngineFacts TradeUpdates ControlPlane.
From S2P Require Import Reconciler ServiceFacts FakeBroker System Demo SystemFacts PauseFacts.
Local Open Scope Z_scope.

(** ** Queries that do not move the broker *)

Class ReadOnlyQueries (B : Type) `{!PaperBroker B} := {
  ro_account : ∀ b, (account b).2 = b;
  ro_get_order : ∀ cid b, (get_order cid b).2 = b;
  ro_list_recent_orders : ∀ t b, (list_recent_orders t b).2 = b;
  ro_list_open_orders : ∀ b, (list_open_orders b).2 = b;
  ro_list_positions : ∀ b, (list_positions b).2 = b;
  ro_list_fills : ∀ bid b, (list_fills bid b).2 = b;
}.

#[global] Instance fake_read_only clock : @ReadOnlyQueries FakePaperBroker (fake_paper_broker clock).
Proof.
  split; intros; simpl; try done;
    unfold fake_get_order, order_at, fake_list_positions, fake_account, mbind, M_bind, mret,
      M_ret, throw, gets; simpl;
    try done; repeat (case_match; simplify_eq/=; try done).
Qed.

(** ** Loops over a fixed view *)

Section loops.
Context {W S A : Type}.

(** A loop that returned without spoiling [C] never spoiled it, and did its
    check [Q] for every element. *)
Lemma foldM_clean (f : S → A → M W S) (I : W → Prop) (C : S → Prop) (Q : A → Prop) :
  (∀ s x w s' w', I w → f s x w = (Ok s', w') → I w' ∧ (C s' → C s ∧ Q x)) →
  ∀ l s w s' w', I w → foldM f s l w = (Ok s', w') → I w' ∧ (C s' → C s ∧ Forall Q l).
Proof.
  intros Hf l. induction l as [|x l IH]; intros s w s' w' HI H; simpl in H.
  - apply ret_Ok in H as [-> ->]. auto.
  - apply bind_Ok in H as (t & w1 & H1 & H2). apply Hf in H1 as [HI1 HC1]; [|done].
    apply IH in H2 as [HI2 HC2]; [|done]. split; [done|]. intros HC.
    destruct (HC2 HC) as [Ht ?], (HC1 (proj1 (HC2 HC))) as [? ?]. auto.
Qed.

Lemma foldO_clean (f : S → A → outcome S) (C : S → Prop) (Q : A → Prop) :
  (∀ s x s', f s x = Ok s' → C s' → C s ∧ Q x) →
  ∀ l s s', foldO f s l = Ok s' → C s' → C s ∧ Forall Q l.
Proof.
  intros Hf l. induction l as [|x l IH]; intros s s' H HC; simpl in H.
  - injection H as ->. auto.
  - apply obind_Ok in H as (t & H1 & H2). destruct (IH _ _ H2 HC) as [Ht ?].
    destruct (Hf _ _ _ H1 Ht). auto.
Qed.
End loops.

(** No mismatch so far. *)
Definition unspoiled (c : collected) : Prop := co_mismatches c = [].

Lemma add_mismatch_clean k d c c' : add_mismatch k d c = Ok c' → ¬ unspoiled c'.
Proof.
  unfold add_mismatch. intros (m & _ & [= <-])%obind_Ok. unfold unspoiled. simpl.
  by destruct (co_mismatches c).
Qed.

Lemma mismatch_if_clean b k d c c' :
  mismatch_if b k d c = Ok c' → unspoiled c' → unspoiled c ∧ b = false.
Proof.
  unfold mismatch_if. destruct b; [|by intros [= ->]]. intros H Hc.
  by destruct (add_mismatch_clean _ _ _ _ H).
Qed.

Lemma compare_fills_clean ids c l c' :
  compare_fills ids c l = Ok c' → unspoiled c' →
  unspoiled c ∧ ∀ f, f ∈ l → fl_execution_id f ∈ ids.
Proof.
  intros H Hc. unfold compare_fills in H.
  apply (foldO_clean _ unspoiled (λ f, fl_execution_id f ∈ ids)) in H as [Hu Hl]; [| |done].
  - split; [done|]. by rewrite Forall_forall in Hl.
  - intros s f s' H1 Hs'. destruct (mismatch_if_clean _ _ _ _ _ H1 Hs') as [Hu Hb].
    split; [exact Hu|]. by apply negb_false_iff, bool_decide_eq_true in Hb.
Qed.

Lemma compare_positions_clean p q c c' :
  compare_positions p q c = Ok c' → unspoiled c' → unspoiled c ∧ p = q.
Proof.
  intros H Hc. unfold compare_positions in H.
  apply (foldO_clean _ unspoiled (λ s, p !! s = q !! s)) in H as [Hu Hl]; [| |done].
  - split; [done|]. apply map_eq. intros s. rewrite Forall_forall in Hl.
    destruct (p !! s) as [x|] eqn:Hp, (q !! s) as [y|] eqn:Hq; try done;
      rewrite <-Hp, <-Hq; apply Hl, elem_of_sort_by, elem_of_elements, elem_of_union;
      rewrite !elem_of_dom, Hp, Hq; eauto.
  - intros s k s' H1 Hs'. destruct (p !! k), (q !! k).
    + destruct (mismatch_if_clean _ _ _ _ _ H1 Hs') as [Hu Hb]. split; [exact Hu|].
      apply negb_false_iff, Z.eqb_eq in Hb. by subst.
    + by destruct (add_mismatch_clean _ _ _ _ H1).
    + by destruct (add_mismatch_clean _ _ _ _ H1).
    + by injection H1 as ->.
Qed.

(** ** The steps of [collect] over a snapshot [D] and a broker state [b] *)

Section collect.
Context {E : Env} {B : Type} `{!PaperBroker B, !ReadOnlyQueries B}.
Implicit Types (w : world B).
Context (D : db) (b : B).

Definition views w : Prop := w_work w = D ∧ w_broker w = b.

Lemma unchanged_views w w' : unchanged w w' → views w → views w'.
Proof. intros (Hw & _ & _ & _ & _ & Hb) [H1 H2]. split; congruence. Qed.

Lemma call_views {A} (m : broker_call B A) w a w' :
  (∀ s, (m s).2 = s) → views w → call m w = (Ok a, w') → views w' ∧ (m b).1 = Ok a.
Proof.
  intros Hro [Hw Hb] H. unfold call in H. specialize (Hro (w_broker w)).
  destruct (m (w_broker w)) as [o s] eqn:Hm. simpl in Hro. subst s. simplify_eq.
  split; [done|]. by rewrite <-Hb, Hm.
Qed.

(** Every broker fill of the order is in the local ledger. *)
Definition fills_recorded (local_id broker_id : string) : Prop :=
  ∃ fills, (list_fills broker_id b).1 = Ok fills ∧
    ∀ f, f ∈ fills → ∃ g, g ∈ db_fills D ∧ fl_broker_order_id g = local_id ∧
      fl_execution_id g = fl_execution_id f.

Lemma local_ids_elem bid f :
  fl_execution_id f ∈ (list_to_set
    (fl_execution_id <$> filter (λ g, fl_broker_order_id g = bid) (db_fills D)) : gset string) →
  ∃ g, g ∈ db_fills D ∧ fl_broker_order_id g = bid ∧ fl_execution_id g = fl_execution_id f.
Proof.
  rewrite elem_of_list_to_set, list_elem_of_fmap.
  intros (g & Hg & [? ?]%list_elem_of_filter). eauto.
Qed.

Lemma collect_unresolved_clean c s w c' w' :
  views w → collect_unresolved c s w = (Ok c', w') →
  views w' ∧ (unspoiled c' → unspoiled c ∧
    ∀ cid i, db_intents D !! cid = Some i → oi_status i ≠ s).
Proof.
  intros Hv H. unfold collect_unresolved in H. inv_run.
  apply list_by_status_inv in H0 as [-> Hu]. split; [by eapply unchanged_views|].
  intros Hc. apply (foldO_clean _ unspoiled (λ _, False)) in H as [Hc' Hl]; [| |done].
  - split; [done|]. intros cid i Hi Hs. rewrite Forall_forall in Hl. apply (Hl i).
    apply elem_of_intents_with_status. destruct Hv as [-> _]. eauto.
  - intros x i x' Hx Hx'. by destruct (add_mismatch_clean _ _ _ _ Hx).
Qed.

(** An open local order agrees with the broker's. *)
Definition open_agrees (m : BrokerOrder) : Prop :=
  ∃ o, (get_order (bo_client_order_id m) b).1 = Ok (Some o) ∧ bo_status o = bo_status m ∧
    fills_recorded (bo_broker_order_id m) (bo_broker_order_id m) ∧
    ∀ i, db_intents D !! bo_client_order_id m = Some i →
      bo_symbol o = oi_symbol i ∧ bo_side o = oi_side i ∧ bo_quantity o = oi_quantity i ∧
      bo_limit_price o = oi_limit_price i ∧
      (is_open o = true → oi_status i ∉ TERMINAL_INTENT_STATUSES).

Lemma collect_open_mirror_clean c m w c' w' :
  views w → collect_open_mirror c m w = (Ok c', w') →
  views w' ∧ (unspoiled c' → unspoiled c ∧ open_agrees m).
Proof.
  intros Hv H. unfold collect_open_mirror in H. apply bind_Ok in H as (o & w1 & H1 & H).
  apply call_views in H1 as [Hv1 Ho]; [|apply ro_get_order|done].
  destruct o as [o|]; inv_run.
  2:{ split; [done|]. intros Hc. by destruct (add_mismatch_clean _ _ _ _ H). }
  apply orders_get_inv in H0 as [-> Hu0]. apply orders_list_fills_inv in H3 as [-> Hu3].
  pose proof (unchanged_views _ _ Hu0 Hv1) as Hv0.
  pose proof (unchanged_views _ _ Hu3 Hv0) as Hv2.
  apply call_views in H4 as [Hv4 Hf]; [|apply ro_list_fills|done].
  split; [done|]. intros Hc. apply compare_fills_clean in H as [Hc2 Hin]; [|done].
  destruct (mismatch_if_clean _ _ _ _ _ H2 Hc2) as [Hc3 Hst].
  apply negb_false_iff, bool_decide_eq_true in Hst.
  destruct Hv1 as [Hw1 _], Hv0 as [Hw0 _]. rewrite Hw1 in H1. rewrite Hw0 in Hin.
  assert (Hq : unspoiled c ∧ ∀ i, db_intents D !! bo_client_order_id m = Some i →
      bo_symbol o = oi_symbol i ∧ bo_side o = oi_side i ∧ bo_quantity o = oi_quantity i ∧
      bo_limit_price o = oi_limit_price i ∧
      (is_open o = true → oi_status i ∉ TERMINAL_INTENT_STATUSES)).
  { destruct (db_intents D !! bo_client_order_id m) as [i|]; [|by injection H1 as <-].
    apply obind_Ok in H1 as (c3 & Hp & Ht). destruct (mismatch_if_clean _ _ _ _ _ Ht Hc3) as [Hc4 Hterm].
    destruct (mismatch_if_clean _ _ _ _ _ Hp Hc4) as [Hc5 Hpar]. split; [exact Hc5|].
    intros j [= <-]. apply negb_false_iff in Hpar.
    rewrite !andb_true_iff, !bool_decide_eq_true in Hpar. split_and!; try tauto.
    intros Hop Hin'. by rewrite bool_decide_true, Hop in Hterm. }
  destruct Hq as [Hc5 Hpar]. split; [done|]. exists o. split_and!; [done..| |done].
  exists a3. split; [done|]. intros f Hf'. by apply local_ids_elem, Hin.
Qed.

Lemma collect_closed_mirror_clean checked c m w c' w' :
  views w → collect_closed_mirror checked c m w = (Ok c', w') →
  views w' ∧ (unspoiled c' → unspoiled c ∧ (bo_broker_order_id m ∈ checked ∨
    ∀ o, (get_order (bo_client_order_id m) b).1 = Ok (Some o) → is_open o = false)).
Proof.
  intros Hv H. unfold collect_closed_mirror in H. case_bool_decide as Hin.
  { inv_run. subst. auto. }
  apply bind_Ok in H as (o & w1 & H1 & H).
  apply call_views in H1 as [Hv1 Ho]; [|apply ro_get_order|done].
  destruct o as [o|]; [destruct (is_open o) eqn:Hop|]; inv_run; subst; (split; [done|]); intros Hc.
  - by destruct (add_mismatch_clean _ _ _ _ H).
  - split; [done|right]. intros o'. rewrite Ho. by intros [= <-].
  - split; [done|right]. intros o'. by rewrite Ho.
Qed.

Lemma collect_reported_clean known l s s' :
  foldO (collect_reported known) s l = Ok s' → unspoiled s'.1 →
  unspoiled s.1 ∧ ∀ o, o ∈ l → bo_client_order_id o ∈ known.
Proof.
  intros H Hc.
  apply (foldO_clean _ (λ s, unspoiled s.1) (λ o, bo_client_order_id o ∈ known)) in H
    as [Hs Hl]; [by rewrite Forall_forall in Hl| |done].
  intros [x rep] o [x' rep'] (y & Hy & [= <- <-])%obind_Ok Hx'. simpl in *.
  destruct (mismatch_if_clean _ _ _ _ _ Hy Hx') as [Hu Hb]. split; [exact Hu|].
  by apply negb_false_iff, bool_decide_eq_true in Hb.
Qed.

(** An order of the closed history agrees with its mirror: the status is the same and
    every fill the broker reports for it is recorded. *)
Definition history_agrees (o : BrokerOrder) : Prop :=
  ∃ bid row, db_mirrors D !! bid = Some row ∧
    bo_client_order_id (mr_order row) = bo_client_order_id o ∧
    bo_status (mr_order row) = bo_status o ∧ fills_recorded bid (bo_broker_order_id o).
(** The report [x] of an order is newer than [o], or says the same at the same time. *)
Definition newer (x o : BrokerOrder) : Prop :=
  bo_broker_order_id x = bo_broker_order_id o ∧
  (bo_updated_at o < bo_updated_at x ∨
   bo_updated_at o = bo_updated_at x ∧ bo_status o = bo_status x).

Lemma already_reported_spec reported o : already_reported reported o = true →
  ∃ x, reported !! bo_broker_order_id o = Some x ∧
    (bo_updated_at o < bo_updated_at x ∨
     bo_updated_at o = bo_updated_at x ∧ bo_status o = bo_status x).
Proof.
  unfold already_reported. destruct (reported !! _) as [x|]; [|done].
  rewrite orb_true_iff, andb_true_iff, Z.ltb_lt, Z.eqb_eq, bool_decide_eq_true. eauto.
Qed.

(** One step of the history: the order is skipped for a newer report or because it is
    open, or it agrees and is reported from now on. *)
Definition history_step (o : BrokerOrder) (rep rep' : gmap string BrokerOrder) : Prop :=
  rep' = rep ∧ (is_open o = true ∨ already_reported rep o = true) ∨
  rep' = <[bo_broker_order_id o := o]> rep ∧ history_agrees o.
Lemma collect_history_clean s o w s' w' : db_wf D →
  views w → collect_history s o w = (Ok s', w') →
  views w' ∧ (unspoiled s'.1 → unspoiled s.1 ∧ history_step o s.2 s'.2).
Proof.
  intros Hwf.
  intros Hv H. destruct s as [c rep]. unfold collect_history in H.
  destruct (_ || _) eqn:Hskip.
  { inv_run. subst. split; [done|]. intros Hc. split; [done|]. left. split; [done|].
    apply orb_true_iff in Hskip. tauto. }
  apply bind_Ok in H as (m & w1 & H1 & H). apply get_broker_order_inv in H1 as [-> Hu].
  pose proof (unchanged_views _ _ Hu Hv) as Hv1. rewrite (proj1 Hv) in H.
  destruct (mirror_by_client _ _) as [row|] eqn:Hm; simpl in H; inv_run; subst; simpl.
  - apply orders_list_fills_inv in H1 as [-> Hu1].
    pose proof (unchanged_views _ _ Hu1 Hv1) as Hv2.
    apply call_views in H2 as [Hv3 Hf]; [|apply ro_list_fills|done]. split; [done|].
    intros Hc. apply compare_fills_clean in H3 as [Hc3 Hin]; [|done].
    destruct (mismatch_if_clean _ _ _ _ _ H0 Hc3) as [Hc2 Hst].
    apply negb_false_iff, bool_decide_eq_true in Hst. split; [done|right]. split; [done|].
    apply mirror_by_client_Some in Hm as [Hcid (bid & Hrow)].
    destruct (wf_mirrors D Hwf bid row Hrow) as (Hbid & _). rewrite (proj1 Hv1) in Hin. simpl in Hin, Hst.
    rewrite Hbid in Hin. exists bid, row. split_and!; [done..|].
    eexists. split; [exact Hf|]. intros f Hf'. by apply local_ids_elem, Hin.
  - split; [done|]. intros Hc. by destruct (add_mismatch_clean _ _ _ _ H0).
Qed.

(** The orders [opens] are those reported before the pass, [recent] is the history. *)
Definition reported_ok (opens recent : list BrokerOrder) (rep : gmap string BrokerOrder) : Prop :=
  ∀ bid x, rep !! bid = Some x → bo_broker_order_id x = bid ∧
    (x ∈ opens ∨ x ∈ recent ∧ history_agrees x).
(** A closed order of the history agrees, or a newer report of it was looked at: one of
    the open orders, or one of the history that agrees. *)
Definition history_covered (opens recent : list BrokerOrder) (o : BrokerOrder) : Prop :=
  is_open o = true ∨ history_agrees o ∨
  ∃ x, newer x o ∧ (x ∈ opens ∨ x ∈ recent ∧ history_agrees x).

Lemma history_step_covered opens recent o rep rep' : o ∈ recent → history_step o rep rep' →
  reported_ok opens recent rep → reported_ok opens recent rep' ∧ history_covered opens recent o.
Proof.
  intros Ho [[-> Hskip]|[-> Ha]] Hrep; (split; [try done|]).
  - destruct Hskip as [Hop|(x & Hx & Hn)%already_reported_spec]; [by left|right; right].
    destruct (Hrep _ _ Hx) as [Hb Hin]. by exists x.
  - intros bid x Hx. destruct (decide (bid = bo_broker_order_id o)) as [->|Hne].
    + rewrite lookup_insert_eq in Hx. injection Hx as <-. auto.
    + rewrite lookup_insert_ne in Hx by done. by apply Hrep.
  - by right; left.
Qed.
Lemma collect_history_pass opens recent l s w s' w' : db_wf D → (∀ o, o ∈ l → o ∈ recent) →
  views w → foldM collect_history s l w = (Ok s', w') →
  views w' ∧ (unspoiled s'.1 → unspoiled s.1 ∧
    (reported_ok opens recent s.2 → ∀ o, o ∈ l → history_covered opens recent o)).
Proof.
  intros Hwf. revert s w. induction l as [|o l IH]; intros s w Hl Hv H; simpl in H.
  { apply ret_Ok in H as [-> ->]. split; [done|]. intros Hc. split; [done|]. by intros _ o ?%elem_of_nil. }
  apply bind_Ok in H as (s1 & w1 & H1 & H). apply collect_history_clean in H1 as [Hv1 H1]; [|done..].
  apply IH in H as [Hv' H]; [|intros x Hx; apply Hl; by right|done]. split; [done|]. intros Hc.
  destruct (H Hc) as [Hc1 Hrest], (H1 (proj1 (H Hc))) as [Hc0 Hstep]. split; [done|]. intros Hrep.
  destruct (history_step_covered opens recent o _ _ (Hl o ltac:(by left)) Hstep Hrep) as [Hrep1 Ho].
  intros x [->|Hx]%elem_of_cons; [done|]. by apply Hrest.
Qed.
Lemma collect_reported_ok opens recent known l s s' : (∀ o, o ∈ l → o ∈ opens) →
  reported_ok opens recent s.2 → foldO (collect_reported known) s l = Ok s' → reported_ok opens recent s'.2.
Proof.
  revert s. induction l as [|o l IH]; intros [c rep] Hl Hrep H; simpl in H; [by injection H as <-|].
  apply obind_Ok in H as (s1 & H1 & H). apply obind_Ok in H1 as (c1 & _ & [= <-]).
  eapply IH; [|exact (λ x, x)|exact H] || (eapply IH; [| |exact H]); [intros x Hx; apply Hl; by right|].
  intros bid x Hx. simpl in Hx. destruct (decide (bid = bo_broker_order_id o)) as [->|Hne].
  - rewrite lookup_insert_eq in Hx. injection Hx as <-. split; [done|left]. apply Hl. by left.
  - rewrite lookup_insert_ne in Hx by done. by apply Hrep.
Qed.

(** The local orders by broker order id, as the reconciler reads them. *)
Definition local_orders : gmap string BrokerOrder :=
  orders_by_id (mirror_view <$> mirrors_ordered D).

(** The prices of the provider at which the lots are marked, and their value. *)
Definition marked (price : price_source) (lots : list OpenLot) : Prop :=
  ∀ l, l ∈ lots → ∃ p, price (lot_symbol l) = Ok p.
Definition lot_value (price : price_source) (l : OpenLot) : Z :=
  match price (lot_symbol l) with Ok p => lot_quantity l * Price_cents p | Raise _ => 0 end.
Definition lots_value (price : price_source) (lots : list OpenLot) : Z :=
  foldr (λ l acc, lot_value price l + acc) 0 lots.

(** The account agrees with the ledger within the policy's tolerances. *)
Definition account_agrees (p : AccountReconciliationPolicy) (prices : option price_source)
    (a : PaperAccount) (projection : LedgerProjection) : Prop :=
  ac_account_id a = ap_expected_account_id p ∧ 0 ≤ UsdAmount_cents (ac_buying_power a) ∧
  ∃ base delta nav, baseline_in_force (ac_account_id a) D = Some base ∧
    delta = net_cash local_orders (filter (λ f, post_baseline base f = true) (db_fills D)) ∧
    Z.abs (UsdAmount_cents (ac_cash a) - (ab_opening_cash_cents base + delta))
      ≤ ap_cash_tolerance_cents p ∧
    Z.abs (UsdAmount_cents (ac_equity a) - nav) ≤ ap_nav_tolerance_cents p ∧
    match prices with
    | None => positions projection = ∅ ∧ nav = ab_opening_cash_cents base + delta
    | Some price => marked price (lp_lots projection) ∧
        nav = ab_opening_cash_cents base + delta + lots_value price (lp_lots projection)
    end.

Lemma cash_delta_net orders l d : cash_delta orders l = Ok d → d = net_cash orders l.
Proof.
  assert (Hacc : ∀ l acc, foldO (λ acc f,
    match orders !! fl_broker_order_id f with
    | None => raise ELedgerInvariant "fill references an unknown broker order"
    | Some o =>
        let acc := match bo_side o with
                   | OrderSide.BUY => acc - fl_quantity f * Price_cents (fl_price f)
                   | OrderSide.SELL => acc + fl_quantity f * Price_cents (fl_price f) end in
        guard_that (negb (1000000000000 <? Z.abs acc)) ELedgerInvariant
          "projected cash delta exceeds the allowed range" ≫= λ _, Ok acc
    end) acc l = Ok d → d = acc + net_cash orders l).
  { clear. induction l as [|f l IH]; intros acc H; simpl in H; [injection H as <-; simpl; lia|].
    apply obind_Ok in H as (t & Ht & H). rewrite (IH _ H). simpl. unfold fill_cash.
    destruct (orders !! _) as [o|]; [|done]. apply obind_Ok in Ht as (_ & _ & [= <-]).
    destruct (bo_side o); lia. }
  intros H. apply (Hacc l 0) in H. lia.
Qed.
Lemma market_value_marked price marks lots acc v :
  (∀ s p, marks !! s = Some p → price s = Ok p) → market_value marks lots acc = Ok v →
  marked price lots ∧ v = acc + lots_value price lots.
Proof.
  intros Hm. revert acc. induction lots as [|l lots IH]; intros acc H; simpl in H.
  { injection H as <-. split; [by intros ? ?%elem_of_nil|simpl; lia]. }
  destruct (marks !! lot_symbol l) as [p|] eqn:Hp; [|done]. apply IH in H as [Hl Hv].
  apply Hm in Hp. split.
  - intros x [->|Hx]%elem_of_cons; [by exists p|by apply Hl].
  - assert (Hl' : lot_value price l = lot_quantity l * Price_cents p) by (unfold lot_value; by rewrite Hp).
    change (lots_value price (l :: lots)) with (lot_value price l + lots_value price lots). lia.
Qed.
Lemma collected_marks (price : price_source) syms (m m' : gmap string Price) :
  foldO (λ m symbol, p ← price symbol; Ok (<[symbol := p]> m)) m syms = Ok m' →
  (∀ s p, m !! s = Some p → price s = Ok p) → ∀ s p, m' !! s = Some p → price s = Ok p.
Proof.
  revert m. induction syms as [|y syms IH]; intros m H Hm; simpl in H; [by injection H as <-|].
  apply obind_Ok in H as (m1 & (p & Hp & [= <-])%obind_Ok & H). apply (IH _ H).
  intros s q. destruct (decide (s = y)) as [->|]; [rewrite lookup_insert_eq; congruence|].
  rewrite lookup_insert_ne by done. apply Hm.
Qed.

Lemma collect_nav_clean prices p a projection cash c c' :
  collect_nav prices p a projection cash c = Ok c' → unspoiled c' →
  unspoiled c ∧ ∃ nav, Z.abs (UsdAmount_cents (ac_equity a) - nav) ≤ ap_nav_tolerance_cents p ∧
    match prices with
    | None => positions projection = ∅ ∧ nav = cash
    | Some price => marked price (lp_lots projection) ∧ nav = cash + lots_value price (lp_lots projection)
    end.
Proof.
  intros H Hc. unfold collect_nav in H. destruct prices as [f|].
  - destruct (foldO _ ∅ (position_symbols projection) ≫= _) as [c1|e] eqn:Hm.
    + injection H as ->. apply obind_Ok in Hm as (marks & Hmarks & Hm).
      apply obind_Ok in Hm as (nav & Hnav & Hm).
      destruct (mismatch_if_clean _ _ _ _ _ Hm Hc) as [Hu Hb%Z.ltb_ge]. split; [done|]. exists nav. split; [done|].
      unfold account_equity_from_cash_and_positions in Hnav.
      apply obind_Ok in Hnav as (_ & _ & (mv & Hmv & Hnav)%obind_Ok).
      apply obind_Ok in Hnav as (_ & _ & [= <-]).
      apply (market_value_marked f) in Hmv as [Hl ->]; [split; [done|lia]|].
      by apply (collected_marks f _ _ _ Hmarks).
    + destruct (bool_decide _); [|done]. by destruct (add_mismatch_clean _ _ _ _ H).
  - case_bool_decide as Hp; simpl in H; [|by destruct (add_mismatch_clean _ _ _ _ H)].
    destruct (mismatch_if_clean _ _ _ _ _ H Hc) as [Hu Hb%Z.ltb_ge]. eauto 10.
Qed.

Lemma collect_account_clean prices p a projection c w c' w' :
  views w → collect_account prices p a projection c w = (Ok c', w') →
  views w' ∧ (unspoiled c' → unspoiled c ∧ account_agrees p prices a projection).
Proof.
  intros Hv H. unfold collect_account in H. inv_run.
  apply get_baseline_inv in H2 as [-> Hu]. pose proof (unchanged_views _ _ Hu Hv) as Hv1.
  destruct Hv as [Hw _]. rewrite Hw in H.
  destruct (baseline_in_force (ac_account_id a) D) as [base|] eqn:Hbase; inv_run.
  2:{ split; [done|]. intros Hc. by destruct (add_mismatch_clean _ _ _ _ H). }
  apply list_all_fills_inv in H2 as [-> Hu2]. pose proof (unchanged_views _ _ Hu2 Hv1) as Hv2.
  apply list_all_broker_orders_inv in H3 as [-> Hu3].
  pose proof (unchanged_views _ _ Hu3 Hv2) as Hv3. split; [done|]. intros Hc.
  destruct Hv1 as [Hw1 _], Hv2 as [Hw2 _]. rewrite Hw1, Hw2 in H. fold local_orders in H.
  apply obind_Ok in H as (? & _ & H). apply obind_Ok in H as (delta & Hdelta & H).
  apply obind_Ok in H as (c3 & Hcash & H).
  destruct (collect_nav_clean _ _ _ _ _ _ _ H Hc) as (Hc3 & nav & Hnav & Hm).
  destruct (mismatch_if_clean _ _ _ _ _ Hcash Hc3) as [Hc2 Hcb%Z.ltb_ge].
  destruct (mismatch_if_clean _ _ _ _ _ H1 Hc2) as [Hc1 Hbp%Z.ltb_ge].
  destruct (mismatch_if_clean _ _ _ _ _ H0 Hc1) as [Hc0 Hid].
  apply negb_false_iff, bool_decide_eq_true in Hid. split; [done|].
  split_and!; [done..|]. exists base, delta, nav. split_and!; try done. by apply cash_delta_net.
Qed.
End collect.

(** ** The whole comparison *)

Section clean.
Context {E : Env} {B : Type} `{!PaperBroker B, !ReadOnlyQueries B}.
Implicit Types (w : world B).

Lemma snapshot_inv w u w' :
  begin_reconciliation_snapshot w = (Ok u, w') → views (w_committed w) (w_broker w) w'.
Proof.
  unfold begin_reconciliation_snapshot. intros H.
  apply bind_Ok in H as ([] & w1 & H1 & H). apply bind_Ok in H as (dirty & w2 & H2 & H).
  unfold require_connection in H1. injection H1 as _ <-. injection H2 as _ <-.
  destruct dirty; [done|]. apply bind_Ok in H as ([] & w3 & H3 & H).
  unfold connection_rollback, next_stmt, act, mbind, M_bind in H3. simpl in H3.
  destruct (w_broken w); [done|]. destruct (env_fault (w_stmt w)); [|done..].
  injection H3 as <-. apply bind_Ok in H as ([] & w4 & [= <-] & H).
  pose proof (stmt_broker (λ _ d, Ok ((), d)) (with_repeatable true
    (with_tx (w_committed w) (w_committed w) (w_open w) false false (w_dirty w)
       (with_counters (w_clock w) (S (w_stmt w)) (w_uuid w) w)))) as Hb.
  unfold set_local_utc_timezone in H. rewrite H in Hb. simpl in Hb.
  apply stmt_inv in H as (t & d & [= <- <-] & Hw & _). split; [exact Hw|exact Hb].
Qed.

Lemma result_create_clean d mm o f t i s r :
  ReconciliationResult_create d mm o f t i s = Ok r →
  rr_mismatches r = mm ∧ rr_scope r = s ∧ (rr_status r = RECON_CLEAN ↔ mm = []).
Proof.
  unfold ReconciliationResult_create, check_ReconciliationResult. intros H.
  repeat (apply obind_Ok in H as (? & _ & H)). injection H as <-. simpl.
  split; [done|]. split; [done|]. by case_bool_decide.
Qed.

Lemma elem_of_terminal_views D row :
  bo_status (mirror_view row) = bo_status (mr_order row) ∧
  bo_client_order_id (mirror_view row) = bo_client_order_id (mr_order row) ∧
  bo_broker_order_id (mirror_view row) = bo_broker_order_id (mr_order row) ∧
  (row ∈ mirrors_ordered D → mirror_view row ∈ mirror_view <$> mirrors_ordered D).
Proof. split_and!; try done. intros H. apply list_elem_of_fmap. by exists row. Qed.

Lemma foldM_views {S A} D b (f : S → A → M (world B) S) l s w s' w' :
  (∀ s x w s' w', views D b w → f s x w = (Ok s', w') → views D b w') →
  views D b w → foldM f s l w = (Ok s', w') → views D b w'.
Proof.
  intros Hf Hv H. apply (foldM_clean _ (views D b) (λ _, True) (λ _, True)) in H as [? _]; auto.
  intros t x v t' v' Ht Hx. split; [by eapply Hf|done].
Qed.

(** The passes over the local orders. *)
Lemma collect_local_passes D b c w c1 w1 v1 c2 w2 v2 l c3 w3 :
  db_wf D → views D b w → views D b v1 → views D b v2 → foldM collect_unresolved c
    [OrderStatus.REVIEW_REQUIRED; OrderStatus.UNKNOWN] w = (Ok c1, w1) →
  l = mirror_view <$> filter (λ r, bo_status (mr_order r) ∉ TERMINAL_BROKER_ORDER_STATUSES)
        (mirrors_ordered D) →
  foldM collect_open_mirror c1 l v1 = (Ok c2, w2) →
  foldM (collect_closed_mirror (list_to_set (bo_broker_order_id <$> l))) c2
    (mirror_view <$> mirrors_ordered D) v2 = (Ok c3, w3) →
  views D b w3 ∧ (unspoiled c3 → unspoiled c ∧
    (∀ cid i, db_intents D !! cid = Some i →
       oi_status i ≠ OrderStatus.UNKNOWN ∧ oi_status i ≠ OrderStatus.REVIEW_REQUIRED) ∧
    ∀ bid row, db_mirrors D !! bid = Some row →
      if bool_decide (bo_status (mr_order row) ∈ TERMINAL_BROKER_ORDER_STATUSES)
      then ∀ o, (get_order (bo_client_order_id (mr_order row)) b).1 = Ok (Some o) →
             is_open o = false
      else open_agrees D b (mirror_view row)).
Proof.
  intros Hwf Hv Hv1 Hv2 H1 Hl H2 H3.
  apply (foldM_clean _ (views D b) unspoiled
    (λ s, ∀ cid i, db_intents D !! cid = Some i → oi_status i ≠ s)) in H1 as [_ Hc1];
    [|intros s x v s' v' Hsv; by apply collect_unresolved_clean|done].
  apply (foldM_clean _ (views D b) unspoiled (open_agrees D b)) in H2 as [_ Hc2];
    [|intros s x v s' v' Hsv; by apply collect_open_mirror_clean|done].
  apply (foldM_clean _ (views D b) unspoiled (λ m, bo_broker_order_id m ∈
      (list_to_set (bo_broker_order_id <$> l) : gset string) ∨
      ∀ o, (get_order (bo_client_order_id m) b).1 = Ok (Some o) → is_open o = false))
    in H3 as [Hv3 Hc3]; [|intros s x v s' v' Hsv; by apply collect_closed_mirror_clean|done].
  split; [done|]. intros Hu3. destruct (Hc3 Hu3) as [Hu2 Hclosed].
  destruct (Hc2 Hu2) as [Hu1 Hopen], (Hc1 Hu1) as [Hu0 Hun].
  rewrite Forall_forall in Hclosed. rewrite Forall_forall in Hopen.
  rewrite Forall_forall in Hun. split; [exact Hu0|]. split.
  { intros cid i Hi. split; [apply (Hun OrderStatus.UNKNOWN) with cid
      |apply (Hun OrderStatus.REVIEW_REQUIRED) with cid]; (done || by repeat constructor). }
  intros bid row Hrow. destruct (wf_mirrors D Hwf bid row Hrow) as (Hbid & _).
  assert (Hin : row ∈ mirrors_ordered D) by (apply elem_of_mirrors_ordered; eauto).
  case_bool_decide as Ht.
  - destruct (Hclosed (mirror_view row)) as [Hck|Hck]; [by apply elem_of_terminal_views| |done].
    rewrite elem_of_list_to_set, list_elem_of_fmap in Hck. destruct Hck as (m & Hm & Hml).
    rewrite Hl, list_elem_of_fmap in Hml. destruct Hml as (row' & -> & [Ht' Hr']%list_elem_of_filter).
    apply elem_of_mirrors_ordered in Hr' as [bid' Hr'].
    destruct (wf_mirrors D Hwf bid' row' Hr') as (Hbid' & _). simpl in Hm.
    rewrite Hbid, Hbid' in Hm. subst bid'. rewrite Hrow in Hr'. by injection Hr' as <-.
  - apply Hopen. rewrite Hl. apply list_elem_of_fmap. exists row. split; [done|].
    by apply list_elem_of_filter.
Qed.

(** The whole pass over orders, from a snapshot [D] and a broker state [b]. *)
Definition horizon_of (D : db) (d : TradingDate) : Z :=
  match latest_run D with
  | Some row => rn_observed_at row - HISTORY_OVERLAP
  | None => midnight d - HISTORY_OVERLAP
  end.
Definition orders_agree (D : db) (b : B) (d : TradingDate) : Prop :=
  (∀ cid i, db_intents D !! cid = Some i →
     oi_status i ≠ OrderStatus.UNKNOWN ∧ oi_status i ≠ OrderStatus.REVIEW_REQUIRED) ∧
  (∀ bid row, db_mirrors D !! bid = Some row →
     if bool_decide (bo_status (mr_order row) ∈ TERMINAL_BROKER_ORDER_STATUSES)
     then ∀ o, (get_order (bo_client_order_id (mr_order row)) b).1 = Ok (Some o) →
            is_open o = false
     else open_agrees D b (mirror_view row)) ∧
  ∃ opens recent, (list_open_orders b).1 = Ok opens ∧
    (list_recent_orders (horizon_of D d) b).1 = Ok recent ∧
    (∀ o, o ∈ opens → ∃ bid row, db_mirrors D !! bid = Some row ∧
       bo_client_order_id (mr_order row) = bo_client_order_id o) ∧
    ∀ o, o ∈ recent → history_covered D b opens recent o.

Lemma known_clients D o :
  bo_client_order_id o ∈ (list_to_set (bo_client_order_id <$>
    (mirror_view <$> mirrors_ordered D)) : gset string) →
  ∃ bid row, db_mirrors D !! bid = Some row ∧
    bo_client_order_id (mr_order row) = bo_client_order_id o.
Proof.
  rewrite elem_of_list_to_set, list_elem_of_fmap. intros (m & Hm & Hin).
  apply list_elem_of_fmap in Hin as (row & -> & [bid Hrow]%elem_of_mirrors_ordered).
  by exists bid, row.
Qed.

Lemma horizon_views D b d w t w' :
  views D b w → history_horizon d w = (Ok t, w') → views D b w' ∧ t = horizon_of D d.
Proof.
  intros Hv H. unfold history_horizon in H. apply bind_Ok in H as (x & v & Hx & [-> ->]%ret_Ok).
  apply reconciliations_latest_inv in Hx as [Hx Hu]. split; [by eapply unchanged_views|].
  rewrite (proj1 Hv) in Hx. unfold horizon_of.
  destruct x as [x|], (latest_run D) as [row|]; simpl in Hx; try done. by injection Hx as ->.
Qed.

Lemma collect_orders_clean d w acct c w' :
  coherent w → collect_orders d w = (Ok (acct, c), w') →
  views (w_committed w) (w_broker w) w' ∧ (account (w_broker w)).1 = Ok acct ∧
  (unspoiled c → ac_environment acct = PAPER ∧ orders_agree (w_committed w) (w_broker w) d).
Proof.
  intros (Hwf & _) H. unfold collect_orders in H.
  apply bind_Ok in H as (u & w1 & Hv1%snapshot_inv & H).
  set (D := w_committed w) in *. set (b := w_broker w) in *.
  apply bind_Ok in H as (a & w2 & H2 & H).
  apply (call_views D b) in H2 as [Hv2 Hacct]; [|apply ro_account|done].
  apply bind_Ok in H as (c0 & w3 & [H3 ->]%lift_Ok & H).
  apply bind_Ok in H as (c1 & w4 & H4 & H).
  assert (Hv4 : views D b w4) by (eapply foldM_views; [|exact Hv2|exact H4];
    intros s x v s' v' Hs Hx; exact (proj1 (collect_unresolved_clean D b _ _ _ _ _ Hs Hx))).
  apply bind_Ok in H as (locals & w5 & [Hl Hu5]%list_open_broker_orders_inv & H).
  pose proof (unchanged_views D b _ _ Hu5 Hv4) as Hv5. rewrite (proj1 Hv4) in Hl.
  apply bind_Ok in H as (c2 & w6 & H6 & H).
  assert (Hv6 : views D b w6) by (eapply foldM_views; [|exact Hv5|exact H6];
    intros s x v s' v' Hs Hx; exact (proj1 (collect_open_mirror_clean D b _ _ _ _ _ Hs Hx))).
  apply bind_Ok in H as (mirrors & w7 & [-> Hu7]%list_all_broker_orders_inv & H).
  pose proof (unchanged_views D b _ _ Hu7 Hv6) as Hv7. rewrite (proj1 Hv6) in H.
  apply bind_Ok in H as (c3 & w8 & H8 & H).
  destruct (collect_local_passes D b c0 w2 c1 w4 w5 c2 w6 w7 locals c3 w8)
    as [Hv8 Hlocal]; [done..|].
  apply bind_Ok in H as (known & w9 & [-> Hu9]%list_all_broker_orders_inv & H).
  pose proof (unchanged_views D b _ _ Hu9 Hv8) as Hv9. rewrite (proj1 Hv8) in H.
  apply bind_Ok in H as (opens & w10 & H10 & H).
  apply (call_views D b) in H10 as [Hv10 Hopens]; [|apply ro_list_open_orders|done].
  apply bind_Ok in H as ([c4 rep] & w11 & [H11 ->]%lift_Ok & H).
  apply bind_Ok in H as (t & w12 & H12 & H). apply (horizon_views D b) in H12 as [Hv12 ->]; [|done].
  apply bind_Ok in H as (recent & w13 & H13 & H).
  apply (call_views D b) in H13 as [Hv13 Hrecent]; [|apply ro_list_recent_orders|done].
  apply bind_Ok in H as ([c5 rep'] & w14 & H14 & [[= -> ->] ->]%ret_Ok).
  apply (collect_history_pass D b opens recent) in H14 as [Hv14 Hc5]; [|done..].
  split; [done|]. split; [done|]. intros HuE. destruct (Hc5 HuE) as [Hu4 Hhist].
  destruct (collect_reported_clean _ _ _ _ H11 Hu4) as [Hu3 Hknown].
  destruct (Hlocal Hu3) as (Hu0 & Hun & Hmir).
  destruct (mismatch_if_clean _ _ _ _ _ H3 Hu0) as [_ Hpaper].
  apply negb_false_iff, bool_decide_eq_true in Hpaper. split; [done|]. split; [done|]. split; [done|].
  exists opens, recent. split_and!; [done..| |].
  - intros o Ho. by apply known_clients, Hknown.
  - apply Hhist. by apply (collect_reported_ok D b opens recent _ opens (c3, ∅) _ (λ _ H, H)) in H11.
Qed.

Lemma collect_ledger_clean policy prices D b acct c w c' w' :
  views D b w → collect_ledger policy prices acct c w = (Ok c', w') →
  unspoiled c' → unspoiled c ∧ ∃ projection l,
    project_ledger (db_fills D) (local_orders D) = Ok projection ∧
    (list_positions b).1 = Ok l ∧ positions projection = positions_by_symbol l ∧
    ∀ p, policy = Some p → account_agrees D p prices acct projection.
Proof.
  intros Hv H Hc. unfold collect_ledger in H.
  apply bind_Ok in H as (fills & w1 & [-> Hu1]%list_all_fills_inv & H).
  pose proof (unchanged_views D b _ _ Hu1 Hv) as Hv1.
  apply bind_Ok in H as (orders & w2 & [-> Hu2]%list_all_broker_orders_inv & H).
  pose proof (unchanged_views D b _ _ Hu2 Hv1) as Hv2.
  rewrite (proj1 Hv), (proj1 Hv1) in H. fold (local_orders D) in H.
  apply bind_Ok in H as (projection & w3 & [Hp ->]%lift_Ok & H).
  apply bind_Ok in H as (l & w4 & H4 & H).
  apply (call_views D b) in H4 as [Hv4 Hl]; [|apply ro_list_positions|done].
  apply bind_Ok in H as (c1 & w5 & [Hc1 ->]%lift_Ok & H).
  assert (H5 : unspoiled c1 ∧ ∀ p, policy = Some p → account_agrees D p prices acct projection).
  { destruct policy as [p|]; [|apply ret_Ok in H as [-> _]; by split].
    apply (collect_account_clean D b) in H as [_ H]; [|done]. destruct (H Hc) as [? ?].
    split; [done|]. by intros p' [= <-]. }
  destruct H5 as [Hu1' Hacc]. destruct (compare_positions_clean _ _ _ _ Hc1 Hu1') as [Hu0 Heq].
  split; [done|]. by exists projection, l.
Qed.

(** C6. A CLEAN result is true of the snapshot it was computed from: no intent
    is UNKNOWN or REVIEW_REQUIRED; the fill ledger projects, and its positions
    are exactly the broker's; every open local order exists at the broker with
    the same status and the intent's parameters, and all its broker fills are
    recorded; no closed local order is open at the broker; every order open at
    the broker is known; every closed order the broker reports since the horizon
    has a mirror with its status and all its fills recorded, unless a newer report
    of it was looked at; the account is a Paper one; and with an account policy
    (scope FULL) the account id, the cash - opening balance and the net cash of
    the fills after the baseline - and the net asset value - that cash and the lots
    at the provider's prices - agree within the tolerances. *)
Theorem reconciliation_clean_sound policy prices d w r w' :
  coherent w → collect policy prices d w = (Ok r, w') → rr_status r = RECON_CLEAN →
  orders_agree (w_committed w) (w_broker w) d ∧
  ∃ projection l a, (account (w_broker w)).1 = Ok a ∧ ac_environment a = PAPER ∧
    project_ledger (db_fills (w_committed w)) (local_orders (w_committed w)) = Ok projection ∧
    (list_positions (w_broker w)).1 = Ok l ∧ positions projection = positions_by_symbol l ∧
    match policy with
    | None => rr_scope r = SCOPE_PARTIAL
    | Some p => rr_scope r = SCOPE_FULL ∧ account_agrees (w_committed w) p prices a projection
    end.
Proof.
  intros Hco H Hclean. unfold collect in H.
  apply bind_Ok in H as ([acct c] & w1 & H1 & H).
  apply collect_orders_clean in H1 as (Hv1 & Hacct & Horders); [|done].
  apply bind_Ok in H as (c' & w2 & H2 & H).
  apply bind_Ok in H as (now & w3 & _ & H). apply bind_Ok in H as (run & w4 & _ & H).
  apply lift_Ok in H as [H ->]. apply result_create_clean in H as (_ & Hscope & Hst).
  apply Hst in Hclean.
  destruct (collect_ledger_clean _ _ _ _ _ _ _ _ _ Hv1 H2 Hclean) as (Hc & p & l & ? & ? & ? & Hacc).
  destruct (Horders Hc) as [Hpaper Hagree]. split; [done|]. exists p, l, acct. split_and!; try done.
  destruct policy as [pol|]; [|done]. split; [done|]. by apply Hacc.
Qed.
End clean.

(** ** What a run leaves behind *)

Section run.
Context {E : Env} {B : Type} `{!PaperBroker B}.
Implicit Types (w : world B).

(** The tables a reconciliation must not touch. *)
Definition order_tables (d : db) : gmap string OrderIntent * gmap string mirror_row * list Fill :=
  (db_intents d, db_mirrors d, db_fills d).
Definition keeps_orders w w' : Prop :=
  order_tables (w_work w) = order_tables (w_committed w) →
  order_tables (w_work w') = order_tables (w_committed w') ∧
  order_tables (w_committed w') = order_tables (w_committed w).

#[global] Instance keeps_orders_preorder : PreOrder keeps_orders.
Proof.
  split; [by intros w Hw|]. intros x y z Hxy Hyz Hx. destruct (Hxy Hx) as [Hy Heq].
  destruct (Hyz Hy) as [Hz Heq']. split; [done|congruence].
Qed.
#[global] Instance keeps_orders_transactional : Transactional keeps_orders.
Proof.
  split; [apply _|..]; intros w w' Hw Hc _; unfold keeps_orders; rewrite Hw, Hc; intuition congruence.
Qed.

Lemma stmt_keeps_orders {A} (f : Z → db → outcome (A * db)) :
  (∀ t d a d', f t d = Ok (a, d') → order_tables d' = order_tables d) → pres keeps_orders (stmt f).
Proof.
  intros Hf. apply stmt_stable; [apply _|]. intros t w a d w' Hfd Hw Hc _ Heq.
  rewrite Hw, Hc. split; [|done]. rewrite <-Heq. by eapply Hf.
Qed.

Ltac same_orders :=
  apply stmt_keeps_orders; intros t d a d' H;
  repeat match goal with
  | H : (sql_check _ ≫= _) = Ok _ |- _ => apply sql_check_bind in H as [_ H]
  | H : context [match ?x with _ => _ end] |- _ => destruct x
  end; simplify_eq; done.

Lemma insert_run_keeps_orders r : pres keeps_orders (stmt (sql_insert_run r)).
Proof. unfold sql_insert_run. same_orders. Qed.
Lemma insert_mismatch_keeps_orders i m : pres keeps_orders (stmt (sql_insert_mismatch i m)).
Proof. unfold sql_insert_mismatch. same_orders. Qed.
Lemma pause_keeps_orders r : pres keeps_orders (stmt (sql_pause_entries r)).
Proof. unfold sql_pause_entries. same_orders. Qed.
Lemma insert_command_keeps_orders c : pres keeps_orders (stmt (sql_insert_command c)).
Proof. unfold sql_insert_command. same_orders. Qed.
#[local] Hint Resolve insert_run_keeps_orders insert_mismatch_keeps_orders pause_keeps_orders
  insert_command_keeps_orders : pres.

Lemma collect_keeps_orders policy prices d : pres keeps_orders (collect policy prices d).
Proof.
  unfold collect, collect_orders, collect_ledger, history_horizon, collect_unresolved,
    collect_open_mirror, collect_closed_mirror, collect_history, collect_account. pres_auto.
Qed.
#[local] Hint Resolve collect_keeps_orders : pres.

Lemma run_keeps_orders policy prices d : pres keeps_orders (reconciler_run policy prices d).
Proof.
  unfold reconciler_run, failed_run, reconciliations_add, set_entries_paused, add_command.
  pres_auto.
Qed.

(** The row of a run that was recorded. *)
Definition recorded (r : ReconciliationResult) (d : db) : Prop :=
  ∃ row, row ∈ db_runs d ∧ rn_run_id row = rr_run_id r ∧ rn_status row = rr_status r ∧
    rn_scope row = rr_scope r ∧ rn_mismatches row = rr_mismatches r ∧
    rn_observed_at row = rr_observed_at r.

(** The children of the run [rid] are inserted one after the other. *)
Lemma insert_mismatches_inv rid l w w' row :
  row ∈ db_runs (w_work w) → rn_run_id row = rid → w_aborted w = false →
  foldM (λ _ m, stmt (sql_insert_mismatch rid m)) () l w = (Ok (), w') →
  foldl (λ r m, add_child m r) row l ∈ db_runs (w_work w') ∧ w_aborted w' = false.
Proof.
  revert w row. induction l as [|m l IH]; intros w row Hin Hid Ha H; simpl in H.
  { apply ret_Ok in H as [_ ->]. done. }
  apply bind_Ok in H as ([] & w1 & H1 & H).
  apply stmt_inv in H1 as (t & d & Hf & Hw & _ & _ & _ & Ha1).
  unfold sql_insert_mismatch in Hf. apply sql_check_bind in Hf as [_ Hf]. injection Hf as <-.
  apply (IH w1 (add_child m row)); [|done..]. rewrite Hw. simpl.
  apply list_elem_of_fmap. exists row. split; [|done]. rewrite Hid. by rewrite N.eqb_refl.
Qed.

Lemma add_children_fields r l :
  let r' := foldl (λ r m, add_child m r) r l in
  rn_run_id r' = rn_run_id r ∧ rn_status r' = rn_status r ∧ rn_scope r' = rn_scope r ∧
  rn_observed_at r' = rn_observed_at r ∧ rn_mismatches r' = rn_mismatches r ++ l.
Proof.
  revert r. induction l as [|m l IH]; intros r; simpl; [by rewrite app_nil_r|].
  destruct (IH (add_child m r)) as (-> & -> & -> & -> & ->). simpl. by rewrite <-app_assoc.
Qed.

Lemma reconciliations_add_inv r w t w' :
  reconciliations_add r w = (Ok t, w') → recorded r (w_work w') ∧ w_aborted w' = false.
Proof.
  unfold reconciliations_add. intros H. apply bind_Ok in H as (s & w1 & H1 & H).
  apply bind_Ok in H as ([] & w2 & H2 & H). apply bind_Ok in H as ([] & w3 & [= <-] & H).
  apply ret_Ok in H as [_ ->]. apply stmt_inv in H1 as (u & d & Hf & Hw & _ & _ & _ & Ha).
  unfold sql_insert_run in Hf. apply sql_check_bind in Hf as [_ Hf]. injection Hf as <- <-.
  set (row := mk_run_row _ _ _ _ _ _ _ _ _ _) in Hw.
  apply (insert_mismatches_inv _ _ _ _ row) in H2 as [H2 Ha2]; [|rewrite Hw; simpl;
    apply elem_of_app; right; by apply list_elem_of_singleton|done..].
  destruct (add_children_fields row (rr_mismatches r)) as (? & ? & ? & ? & ?).
  split; [|done]. exists (foldl (λ r m, add_child m r) row (rr_mismatches r)). done.
Qed.

Lemma set_entries_paused_inv r w c w' :
  set_entries_paused true r w = (Ok c, w') →
  ∃ t msg, r = Some msg ∧ w_aborted w' = false ∧ w_committed w' = w_committed w ∧
    w_work w' = set_control (pause_row t msg (db_control (w_work w))) (w_work w).
Proof.
  unfold set_entries_paused. simpl. intros H. apply bind_Ok in H as (row & w1 & H1 & H).
  apply bind_Ok in H as ([] & w2 & [= <-] & [_ ->]%lift_Ok).
  apply stmt_inv in H1 as (t & d & Hf & Hw & Hc & _ & _ & Ha). unfold sql_pause_entries in Hf.
  destruct r as [msg|]; [|done]. destruct (_ && _); [|done]. injection Hf as <- <-.
  exists t, msg. split_and!; done.
Qed.

Lemma add_command_inv c w a w' :
  add_command c w = (Ok a, w') →
  w_aborted w' = false ∧ ∃ l, w_work w' = set_commands l (w_work w).
Proof.
  unfold add_command. intros H. apply bind_Ok in H as (row & w1 & H1 & H).
  apply stmt_inv in H1 as (t & d & Hf & Hw & _ & _ & _ & Ha). unfold sql_insert_command in Hf.
  apply sql_check_bind in Hf as [_ Hf].
  assert (Hl : ∃ l, w_work w1 = set_commands l (w_work w)).
  { rewrite Hw. destruct (command_by_id _ _); injection Hf as <- <-;
      [exists (db_commands (w_work w)); by destruct (w_work w)|by eexists]. }
  destruct row as [applied|].
  - apply bind_Ok in H as ([] & w2 & [= <-] & [_ ->]%ret_Ok). done.
  - apply bind_Ok in H as (e & w2 & (_ & Hw2 & _ & _ & _ & Ha2 & _)%query_inv & H).
    destruct e as [e|]; [|done]. destruct (same_command e c); [|done].
    apply ret_Ok in H as [_ ->]. by rewrite Hw2.
Qed.

(** C7. A reconciliation that returned is durable: its run is in the committed
    history with its status, scope and mismatches, and if it found a mismatch -
    a failed broker query or a broken ledger included - entries are durably
    paused.  Whatever it returned or raised, under any faults, it left the
    intents, mirrors and fills as they were and asked the broker for nothing. *)
Theorem reconciliation_durable policy prices d w :
  w_work w = w_committed w →
  let '(o, w') := reconciler_run policy prices d w in
  order_tables (w_committed w') = order_tables (w_committed w) ∧ w_trace w' = w_trace w ∧
  match o with
  | Ok r => recorded r (w_committed w') ∧
      (rr_status r = RECON_MISMATCH → db_paused (w_committed w'))
  | Raise _ => True
  end.
Proof.
  intros Hclean. pose proof (run_keeps_orders policy prices d w) as Hk.
  pose proof (reconciler_run_stable same_trace policy prices d w) as Ht.
  destruct (reconciler_run policy prices d w) as [o w'] eqn:H. simpl in *.
  split; [apply Hk; by rewrite Hclean|]. split; [exact Ht|]. destruct o as [r|]; [|done].
  unfold reconciler_run in H. apply bind_Ok in H as (r' & w1 & _ & H).
  apply bind_Ok in H as (t & w2 & [Hrec Ha2]%reconciliations_add_inv & H).
  apply bind_Ok in H as ([] & w3 & H3 & H).
  apply bind_Ok in H as ([] & w4 & (_ & _ & Hc)%commit_inv & [-> ->]%ret_Ok). rewrite Hc.
  case_bool_decide as Hm.
  - apply bind_Ok in H3 as (c & v1 & (t1 & msg & _ & _ & _ & Hv1)%set_entries_paused_inv & H3).
    apply bind_Ok in H3 as (now & v2 & [= _ <-] & H3).
    apply bind_Ok in H3 as (i & v3 & [= _ <-] & H3).
    apply bind_Ok in H3 as (rec & v4 & [_ ->]%lift_Ok & H3).
    apply bind_Ok in H3 as (x & v5 & (Ha & l & Hl)%add_command_inv & [_ ->]%ret_Ok).
    rewrite Ha, Hl. simpl. rewrite Hv1. split; [exact Hrec|done].
  - apply ret_Ok in H3 as [_ ->]. by rewrite Ha2.
Qed.
End run.

(** ** Witnesses *)

(** An accepted order and a baseline; then the session that reconciles opens. *)
Definition before_reconcile : world FakePaperBroker :=
  run_sessions (E:=demo_env 120 []) full_wiring
    (OpSetBaseline "paper-1" 100000000 80 :: submit_script) (demo_world false accept_plan).
Definition reconciling : world FakePaperBroker :=
  (uow_enter (E:=demo_env 120 []) before_reconcile).2.
Definition full_policy : option AccountReconciliationPolicy :=
  Some (mk_AccountPolicy "paper-1" 0 0).

Lemma before_reconcile_reachable :
  reachable (E:=demo_env 120 []) full_wiring (demo_world false accept_plan) before_reconcile.
Proof. apply run_sessions_reachable. Qed.

Lemma reconciling_coherent : coherent reconciling.
Proof.
  pose proof (initial_good _ (demo_initial false accept_plan)) as Hg.
  pose proof (reachable_good (E:=demo_env 120 []) full_wiring (demo_world false accept_plan)
    before_reconcile Hg before_reconcile_reachable) as [Hc _].
  pose proof (uow_enter_stable (E:=demo_env 120 []) evolves before_reconcile) as He.
  exact (proj1 (He Hc)).
Qed.

(** An order filled in full at its limit price, seen again in the closed history. *)
Definition usd_cents (c : Z) : UsdAmount := mk_UsdAmount (mk_dec c (-2)).
Definition fill_plan : FakeSubmitPlan :=
  mk_SubmitPlan ACKNOWLEDGE (Some (mk_FillStep (oi_quantity sample_intent) sample_price)) None.
Definition traded_start : world FakePaperBroker :=
  mk_world (demo_db false) (demo_db false) false false false false false
    (FakePaperBroker_init ∅ (Some fill_plan) (Some (usd_cents 99900000)) None None "paper-1" IMMEDIATE ∅ ∅ ∅)
    0 0 0 [].
Definition before_traded : world FakePaperBroker :=
  run_sessions (E:=demo_env 120 []) full_wiring
    (OpSetBaseline "paper-1" 100000000 80 :: submit_script ++ [OpApplyFills demo_cid]) traded_start.
Definition traded : world FakePaperBroker := (uow_enter (E:=demo_env 120 []) before_traded).2.
Definition traded_date : TradingDate := mk_TradingDate 1970 1 1.
Definition traded_prices : option price_source := Some (λ _, Ok sample_price).

Lemma traded_coherent : coherent traded.
Proof.
  assert (Hi : initial traded_start) by (split; [done|done|apply demo_db_wf|done]).
  pose proof (reachable_good (E:=demo_env 120 []) full_wiring traded_start before_traded
    (initial_good _ Hi) (run_sessions_reachable _ _ _)) as [Hc _].
  exact (proj1 (uow_enter_stable (E:=demo_env 120 []) evolves before_traded Hc)).
Qed.
Definition traded_run : outcome ReconciliationResult :=
  (collect (E:=demo_env 120 []) full_policy traded_prices traded_date traded).1.
Example traded_run_clean : match traded_run with
  | Ok r => rr_status r = RECON_CLEAN ∧ rr_checked_orders r = 1 ∧ rr_checked_fills r = 1
  | Raise _ => False
  end.
Proof. vm_compute. repeat split. Qed.

Lemma reconciliation_clean_sound_witness :
  length (db_fills (w_committed traded)) = 1%nat ∧
  orders_agree (w_committed traded) (w_broker traded) traded_date ∧
  ∃ projection l, (list_positions (w_broker traded)).1 = Ok l ∧ length l = 1%nat ∧
    positions projection = positions_by_symbol l ∧
    ∃ a, account_agrees (E:=demo_env 120 []) (w_committed traded) (mk_AccountPolicy "paper-1" 0 0) traded_prices a projection.
Proof.
  split; [by vm_compute|].
  destruct (collect (E:=demo_env 120 []) full_policy traded_prices traded_date traded) as [o w'] eqn:H.
  assert (Ho : o = traded_run) by (unfold traded_run; by rewrite H).
  pose proof traded_run_clean as Hc. rewrite <-Ho in Hc. destruct o as [r|e]; [|destruct Hc].
  destruct (reconciliation_clean_sound (E:=demo_env 120 []) full_policy traded_prices traded_date
    traded r w' traded_coherent H (proj1 Hc)) as (Ha & p & l & a & _ & _ & _ & Hl & Hp & _ & Hacc).
  split; [exact Ha|]. exists p, l. split; [exact Hl|]. split; [|split; [exact Hp|by exists a]].
  assert (Hlen : match (list_positions (w_broker traded)).1 with
    | Ok l => length l = 1%nat | Raise _ => False end) by (vm_compute; reflexivity).
  rewrite Hl in Hlen. exact Hlen.
Defined.

(** A baseline without a cutoff leaves out the fills before it takes effect. *)
Example genesis_leaves_out_early_fills :
  post_baseline (mk_AccountBaseline "paper-1" 100000000 80 80 None None None None)
    (mk_Fill "fake-exec-000001" "fake-order-000001" 10 sample_price 79) = false.
Proof. reflexivity. Qed.

Lemma reconciliation_durable_witness :
  w_work reconciling = w_committed reconciling ∧
  w_trace (reconciler_run (E:=demo_env 120 []) full_policy None sample_date reconciling).2 =
    w_trace reconciling.
Proof.
  assert (Hw : w_work reconciling = w_committed reconciling) by (vm_compute; reflexivity).
  split; [exact Hw|].
  pose proof (reconciliation_durable (E:=demo_env 120 []) full_policy None sample_date
    reconciling Hw) as H.
  destruct (reconciler_run (E:=demo_env 120 []) full_policy None sample_date reconciling) as [o w'].
  exact (proj1 (proj2 H)).
Defined.
