(* ===== verification/Decimals.v ===== *)
(** * Decimal arithmetic under a context

    Python's [decimal] as the screening code uses it: every operation computes
    the exact result and rounds it half to even to the digits of the context
    ([_SCREENING_DECIMAL_CONTEXT]: 28).  Trailing zeros of a result are not tracked,
    so values are compared, never exponents; exponents are not bounded, and a
    negative zero is zero.  [dq] is the rational a decimal stands for. *)

From S2P Require Import Prelude Orders.
From Stdlib Require Import QArith Qpower Qabs Lqa.
Local Open Scope Z_scope.

(** ** Rounding *)

Definition PREC : Z := 28.

(** Decimal digits of a positive integer. *)
Fixpoint ndigits_go (fuel : nat) (n : Z) : Z :=
  match fuel with
  | O => 1
  | S f => if n <? 10 then 1 else 1 + ndigits_go f (n `div` 10)
  end.
(** Most of the digits are read off the binary length; 10 ^ 77 < 2 ^ 256. *)
Definition digits_below (n : Z) : Z := (Z.log2 n * 77) `div` 256.
Definition ndigits (n : Z) : Z :=
  let k := digits_below n in
  let m := n `div` 10 ^ k in
  k + ndigits_go (Z.to_nat (Z.log2 m)) m.

(** floor(log10(n / d)) for positive [n] and [d]. *)
Definition ilog10 (n d : Z) : Z :=
  let k := ndigits n - ndigits d in
  if (if 0 <=? k then d * 10 ^ k <=? n else d <=? n * 10 ^ (- k)) then k else k - 1.

(** The integer nearest to [n / d], ties to the even one. *)
Definition half_even (n d : Z) : Z :=
  let q := n `div` d in
  let r := n `mod` d in
  match 2 * r ?= d with
  | Lt => q
  | Gt => q + 1
  | Eq => if Z.even q then q else q + 1
  end.

(** [n / d * 10 ^ e], rounded to [prec] significant digits. *)
Definition round_padded (prec n d e : Z) : Decimal :=
  if n =? 0 then mk_dec 0 e
  else
    let k := ilog10 (Z.abs n) d - (prec - 1) in
    if 0 <=? k then mk_dec (half_even n (d * 10 ^ k)) (e + k)
    else mk_dec (half_even (n * 10 ^ (- k)) d) (e + k).
(** An integer that fits is kept as it is. *)
Definition round_ratio (prec n d e : Z) : Decimal :=
  if (d =? 1) && (Z.abs n <? 10 ^ prec) then mk_dec n e else round_padded prec n d e.

(** ** Operations *)

Definition dec_of_Z (n : Z) : Decimal := mk_dec n 0.
Definition dzero : Decimal := dec_of_Z 0.
Definition d_one : Decimal := dec_of_Z 1.

Definition d_add (a b : Decimal) : Decimal :=
  let e := Z.min (dec_exp a) (dec_exp b) in round_ratio PREC (dec_at e a + dec_at e b) 1 e.
Definition d_neg (a : Decimal) : Decimal := round_ratio PREC (- dec_coeff a) 1 (dec_exp a).
Definition d_sub (a b : Decimal) : Decimal :=
  let e := Z.min (dec_exp a) (dec_exp b) in round_ratio PREC (dec_at e a - dec_at e b) 1 e.
Definition d_mul (a b : Decimal) : Decimal :=
  round_ratio PREC (dec_coeff a * dec_coeff b) 1 (dec_exp a + dec_exp b).
(** Division by a decimal that is not zero. *)
Definition d_div (a b : Decimal) : Decimal :=
  round_ratio PREC (Z.sgn (dec_coeff b) * dec_coeff a) (Z.abs (dec_coeff b))
    (dec_exp a - dec_exp b).
(** [d ** 2]: the power keeps three more digits until its result is rounded. *)
Definition d_square (a : Decimal) : Decimal :=
  let s := round_ratio (PREC + 3) (dec_coeff a * dec_coeff a) 1 (dec_exp a + dec_exp a) in
  round_ratio PREC (dec_coeff s) 1 (dec_exp s).
(** [d.sqrt()] of a decimal that is not negative: the integer root of enough
    digits, its last digit made sticky, then rounded. *)
Definition d_sqrt (a : Decimal) : Decimal :=
  let c := dec_coeff a in
  let r := Z.min (dec_exp a `div` 2) ((dec_exp a + ndigits c - 60) `div` 2) in
  let n := c * 10 ^ (dec_exp a - 2 * r) in
  let s := Z.sqrt n in
  round_ratio PREC (if (s * s =? n) || negb (s `mod` 5 =? 0) then s else s + 1) 1 r.
(** [sum(l, Decimal(0))] *)
Definition d_sum (l : list Decimal) : Decimal := foldl d_add dzero l.
Definition dec_eqb (a b : Decimal) : bool := dec_leb a b && dec_leb b a.
(** [min] and [max] of the first and the second argument. *)
Definition d_min (a b : Decimal) : Decimal := if dec_ltb b a then b else a.

(** ** The value of a decimal *)

Local Open Scope Q_scope.

Definition p10 (e : Z) : Q := Qpower 10 e.
Definition dq (d : Decimal) : Q := inject_Z (dec_coeff d) * p10 (dec_exp d).

Lemma p10_pos e : 0 < p10 e.
Proof. apply Qpower_0_lt. lra. Qed.
Lemma p10_plus a b : p10 (a + b) == p10 a * p10 b.
Proof. apply Qpower_plus. lra. Qed.
Lemma p10_nat e : (0 ≤ e)%Z → p10 e == inject_Z (10 ^ e).
Proof.
  intros He. unfold p10. destruct e as [|p|p]; [done| |lia].
  change (10 : Q) with (inject_Z 10). now rewrite Qpower_decomp_pos || rewrite <-Zpower_Qpower by lia.
Qed.
Lemma p10_le a b : (a ≤ b)%Z → p10 a <= p10 b.
Proof.
  intros Hab. replace b with (a + (b - a))%Z by lia. rewrite p10_plus.
  rewrite (p10_nat (b - a)) by lia. pose proof (p10_pos a).
  assert (1 <= inject_Z (10 ^ (b - a))).
  { change 1 with (inject_Z 1). rewrite <-Zle_Qle. pose proof (Z.pow_pos_nonneg 10 (b - a)). lia. }
  nra.
Qed.

Lemma p10_inv k : p10 k * p10 (- k) == 1.
Proof. rewrite <-p10_plus. by replace (k + - k)%Z with 0%Z by lia. Qed.
Lemma p10_shift_le x y k : x * p10 k <= y ↔ x <= y * p10 (- k).
Proof.
  pose proof (p10_inv k) as Hi. pose proof (p10_pos k) as Hk.
  rewrite <-(Qmult_le_r x (y * p10 (- k)) (p10 k)) by done.
  assert (y * p10 (- k) * p10 k == y) as ->; [|done].
  assert (y * p10 (- k) * p10 k == y * (p10 k * p10 (- k))) as -> by ring. rewrite Hi. ring.
Qed.

Lemma ndigits_go_spec fuel n :
  (0 < n < 10 ^ (Z.of_nat fuel + 1))%Z →
  (0 < ndigits_go fuel n ∧ 10 ^ (ndigits_go fuel n - 1) ≤ n < 10 ^ ndigits_go fuel n)%Z.
Proof.
  revert n. induction fuel as [|f IH]; intros n Hn; simpl ndigits_go.
  { change (10 ^ (Z.of_nat 0 + 1))%Z with 10%Z in Hn. change (10 ^ (1 - 1))%Z with 1%Z.
    change (10 ^ 1)%Z with 10%Z. lia. }
  destruct (n <? 10)%Z eqn:Hlt.
  { change (10 ^ (1 - 1))%Z with 1%Z. change (10 ^ 1)%Z with 10%Z. lia. }
  assert (H : (0 < n `div` 10 < 10 ^ (Z.of_nat f + 1))%Z).
  { split; [apply Z.div_str_pos; lia|]. apply Z.div_lt_upper_bound; [lia|].
    rewrite <-Z.pow_succ_r by lia. replace (Z.succ (Z.of_nat f + 1)) with (Z.of_nat (S f) + 1)%Z by lia.
    lia. }
  destruct (IH _ H) as (Hpos & Hlo & Hhi). set (m := ndigits_go f _) in *.
  split; [lia|]. replace (1 + m - 1)%Z with (Z.succ (m - 1)) by lia.
  replace (1 + m)%Z with (Z.succ m) by lia. rewrite !Z.pow_succ_r by lia.
  pose proof (Z.mul_div_le n 10). pose proof (Z.mul_succ_div_gt n 10). lia.
Qed.

Lemma digits_below_spec n : (0 < n)%Z → (0 ≤ digits_below n ∧ 10 ^ digits_below n ≤ n)%Z.
Proof.
  intros Hn. unfold digits_below. pose proof (Z.log2_nonneg n) as Hl.
  destruct (Z.log2_spec n Hn) as [Hlo _]. set (l := Z.log2 n) in *. set (k := ((l * 77) `div` 256)%Z).
  assert (Hk : (0 ≤ k)%Z) by (apply Z.div_pos; lia). split; [done|].
  etrans; [|exact Hlo]. apply (Z.pow_le_mono_l_iff _ _ 256); [lia|lia|lia|].
  rewrite <-!Z.pow_mul_r by lia. etrans; [apply (Z.pow_le_mono_r 10 (k * 256) (77 * l))|].
  - lia.
  - pose proof (Z.mul_div_le (l * 77) 256). subst k. lia.
  - replace (l * 256)%Z with (256 * l)%Z by lia. rewrite (Z.pow_mul_r 10), (Z.pow_mul_r 2) by lia.
    apply Z.pow_le_mono_l. split; [apply Z.pow_nonneg; lia|]. by apply Z.leb_le; vm_compute.
Qed.

Lemma ndigits_spec n :
  (0 < n)%Z → (0 < ndigits n ∧ 10 ^ (ndigits n - 1) ≤ n < 10 ^ ndigits n)%Z.
Proof.
  intros Hn. destruct (digits_below_spec n Hn) as [Hk Hkn]. unfold ndigits.
  set (k := digits_below n) in *. assert (Hp : (0 < 10 ^ k)%Z) by (apply Z.pow_pos_nonneg; lia).
  set (m := (n `div` 10 ^ k)%Z). assert (Hm : (0 < m)%Z) by (apply Z.div_str_pos; lia).
  destruct (ndigits_go_spec (Z.to_nat (Z.log2 m)) m) as (Hg & Hlo & Hhi).
  { split; [done|]. rewrite Z2Nat.id by apply Z.log2_nonneg.
    destruct (Z.log2_spec m Hm) as [_ H]. eapply Z.lt_le_trans; [exact H|].
    replace (Z.log2 m + 1)%Z with (Z.succ (Z.log2 m)) by lia. apply Z.pow_le_mono_l. lia. }
  set (g := ndigits_go _ m) in *. split; [lia|].
  pose proof (Z.mul_div_le n (10 ^ k) Hp). pose proof (Z.mul_succ_div_gt n (10 ^ k) Hp). fold m in H, H0.
  replace (k + g - 1)%Z with (k + (g - 1))%Z by lia. rewrite !Z.pow_add_r by lia. nia.
Qed.

Lemma ilog10_spec n d :
  (0 < n)%Z → (0 < d)%Z →
  inject_Z d * p10 (ilog10 n d) <= inject_Z n ∧ inject_Z n < inject_Z d * p10 (ilog10 n d + 1).
Proof.
  intros Hn Hd. unfold ilog10. destruct (ndigits_spec n Hn) as (Hn0 & Hnl & Hnh).
  destruct (ndigits_spec d Hd) as (Hd0 & Hdl & Hdh).
  set (a := ndigits n) in *. set (b := ndigits d) in *.
  rewrite Zle_Qle, <-p10_nat in Hnl, Hdl by lia. rewrite Zlt_Qlt, <-p10_nat in Hnh, Hdh by lia.
  (* n < 10^a <= d * 10^(a-b+1) and d * 10^(a-b-1) <= 10^(a-1) <= n *)
  assert (Hhi : inject_Z n < inject_Z d * p10 (a - b + 1)).
  { replace a with ((b - 1) + (a - b + 1))%Z in Hnh at 1 by lia. rewrite p10_plus in Hnh.
    pose proof (p10_pos (a - b + 1)). nra. }
  assert (Hlo : inject_Z d * p10 (a - b - 1) <= inject_Z n).
  { replace (a - 1)%Z with (b + (a - b - 1))%Z in Hnl by lia. rewrite p10_plus in Hnl.
    pose proof (p10_pos (a - b - 1)). nra. }
  assert (Ht : (if (0 <=? a - b)%Z then (d * 10 ^ (a - b) <=? n)%Z else (d <=? n * 10 ^ (- (a - b)))%Z)
    = true ↔ inject_Z d * p10 (a - b) <= inject_Z n).
  { destruct (0 <=? a - b)%Z eqn:Hk; rewrite Z.leb_le, Zle_Qle, inject_Z_mult, <-p10_nat by lia.
    - done.
    - symmetry. apply p10_shift_le. }
  destruct (if (0 <=? a - b)%Z then _ else _) eqn:Hc.
  - split; [by apply Ht|done].
  - replace (a - b - 1 + 1)%Z with (a - b)%Z by lia. split; [done|].
    apply Qnot_le_lt. intros H. by apply Ht in H.
Qed.

(** ** Correct rounding, as a relation *)

Definition nearest (x : Q) (h : Z) : Prop :=
  inject_Z h - (1 # 2) <= x ∧ x <= inject_Z h + (1 # 2) ∧
  (x == inject_Z h + (1 # 2) ∨ x == inject_Z h - (1 # 2) → Z.even h = true).

Lemma half_even_nearest n d x :
  (0 < d)%Z → x * inject_Z d == inject_Z n → nearest x (half_even n d).
Proof.
  intros Hd Hx. unfold half_even.
  pose proof (Z.div_mod n d ltac:(lia)) as Hdm. pose proof (Z.mod_pos_bound n d Hd) as Hr.
  set (q := (n `div` d)%Z) in *. set (r := (n mod d)%Z) in *.
  assert (Hxr : x * inject_Z d == inject_Z q * inject_Z d + inject_Z r).
  { rewrite Hx, Hdm, inject_Z_plus, inject_Z_mult. ring. }
  assert (Hd' : 0 < inject_Z d) by (by rewrite Zlt_Qlt in Hd).
  assert (Hr0 : 0 <= inject_Z r) by (destruct Hr as [Hr _]; by rewrite Zle_Qle in Hr).
  assert (Hr1 : inject_Z r < inject_Z d) by (destruct Hr as [_ Hr]; by rewrite Zlt_Qlt in Hr).
  assert (Hcmp : ∀ c, (2 * r ?= d)%Z = c → match c with
    | Lt => 2 * inject_Z r < inject_Z d | Eq => 2 * inject_Z r == inject_Z d
    | Gt => inject_Z d < 2 * inject_Z r end).
  { change 2 with (inject_Z 2). rewrite <-inject_Z_mult. intros [] Hc.
    - apply Z.compare_eq in Hc. by rewrite Hc.
    - rewrite Z.compare_lt_iff in Hc. by rewrite <-Zlt_Qlt.
    - rewrite Z.compare_gt_iff in Hc. by rewrite <-Zlt_Qlt. }
  unfold nearest. destruct (2 * r ?= d)%Z eqn:Hc; specialize (Hcmp _ eq_refl); simpl in Hcmp.
  - destruct (Z.even q) eqn:He; rewrite ?inject_Z_plus; change (inject_Z 1) with 1;
      (split; [nra|]; split; [nra|]); [done|].
    intros _. by rewrite Z.even_add, He.
  - split; [nra|]. split; [nra|]. intros [H|H]; exfalso; nra.
  - rewrite inject_Z_plus. change (inject_Z 1) with 1. split; [nra|]. split; [nra|].
    intros [H|H]; exfalso; nra.
Qed.

Lemma nearest_mono x y h k : x <= y → nearest x h → nearest y k → (h ≤ k)%Z.
Proof.
  intros Hxy (Hx1 & Hx2 & Hxe) (Hy1 & Hy2 & Hye).
  destruct (Z.le_gt_cases h k) as [|Hlt]; [done|exfalso].
  assert (Hk : inject_Z k + 1 <= inject_Z h).
  { change 1 with (inject_Z 1). rewrite <-inject_Z_plus, <-Zle_Qle. lia. }
  assert (Hh : inject_Z h == inject_Z k + 1) by lra.
  assert (h = k + 1)%Z as ->.
  { change 1 with (inject_Z 1) in Hh. rewrite <-inject_Z_plus in Hh. exact (proj1 (inject_Z_injective _ _) Hh). }
  assert (Z.even (k + 1) = true) as H1 by (apply Hxe; right; lra).
  assert (Z.even k = true) as H2 by (apply Hye; left; lra).
  by rewrite Z.even_add, H2 in H1.
Qed.

Lemma nearest_int h : nearest (inject_Z h) h.
Proof. split; [lra|]. split; [lra|]. intros [H|H]; exfalso; lra. Qed.

#[global] Instance nearest_proper : Proper (Qeq ==> eq ==> iff) nearest.
Proof. intros x y Hxy h ? <-. unfold nearest. by rewrite Hxy. Qed.

(** [y] is [x] correctly rounded to [prec] digits: [h] units of the last place
    [p10 k]. *)
Definition rounds (prec : Z) (x y : Q) : Prop :=
  x == 0 ∧ y == 0 ∨
  ∃ k h, p10 (k + prec - 1) <= Qabs x ∧ Qabs x < p10 (k + prec) ∧
    nearest (x * p10 (- k)) h ∧ y == inject_Z h * p10 k.

Lemma Qabs_inject n : Qabs (inject_Z n) == inject_Z (Z.abs n).
Proof. done. Qed.

Lemma round_padded_rounds prec n d e x :
  (0 < prec)%Z → (0 < d)%Z → x * inject_Z d == inject_Z n * p10 e →
  rounds prec x (dq (round_padded prec n d e)).
Proof.
  intros Hp Hd Hx. unfold round_padded.
  assert (Hd' : 0 < inject_Z d) by (by rewrite Zlt_Qlt in Hd). pose proof (p10_pos e) as He.
  destruct (n =? 0)%Z eqn:Hn.
  { apply Z.eqb_eq in Hn as ->. left. split; [|unfold dq; simpl; ring].
    rewrite Qmult_0_l in Hx. by apply Qmult_integral in Hx as [?|?]; [|lra]. }
  apply Z.eqb_neq in Hn. right. set (L := ilog10 (Z.abs n) d).
  destruct (ilog10_spec (Z.abs n) d ltac:(lia) Hd) as [Hlo Hhi]. fold L in Hlo, Hhi.
  assert (Hax : Qabs x * inject_Z d == inject_Z (Z.abs n) * p10 e).
  { rewrite <-(Qabs_pos (inject_Z d)), <-Qabs_Qmult, Hx, Qabs_Qmult, (Qabs_pos (p10 e)) by lra. done. }
  set (k := (L - (prec - 1))%Z). exists (e + k)%Z.
  exists (if (0 <=? k)%Z then half_even n (d * 10 ^ k) else half_even (n * 10 ^ (- k)) d).
  replace (e + k + prec - 1)%Z with (L + e)%Z by lia. replace (e + k + prec)%Z with (L + 1 + e)%Z by lia.
  rewrite !(p10_plus _ e). split.
  { apply (Qmult_le_r _ _ (inject_Z d) Hd'). rewrite Hax.
    assert (p10 L * p10 e * inject_Z d == (inject_Z d * p10 L) * p10 e) as -> by ring.
    by apply Qmult_le_r. }
  split.
  { apply (Qmult_lt_r _ _ (inject_Z d) Hd'). rewrite Hax.
    assert (p10 (L + 1) * p10 e * inject_Z d == (inject_Z d * p10 (L + 1)) * p10 e) as -> by ring.
    by apply Qmult_lt_r. }
  split.
  - destruct (0 <=? k)%Z eqn:Hk.
    + apply half_even_nearest; [apply Z.mul_pos_pos; [done|apply Z.pow_pos_nonneg; lia]|].
      rewrite inject_Z_mult, <-p10_nat by lia.
      assert (x * p10 (- (e + k)) * (inject_Z d * p10 k) == (x * inject_Z d) * (p10 (- (e + k)) * p10 k))
        as -> by ring. rewrite Hx, <-p10_plus, <-Qmult_assoc, <-p10_plus.
      replace (e + (- (e + k) + k))%Z with 0%Z by lia. by rewrite Qmult_1_r.
    + apply half_even_nearest; [done|]. rewrite inject_Z_mult, <-p10_nat by lia.
      assert (x * p10 (- (e + k)) * inject_Z d == (x * inject_Z d) * p10 (- (e + k))) as -> by ring.
      rewrite Hx, <-Qmult_assoc, <-p10_plus. by replace (e + - (e + k))%Z with (- k)%Z by lia.
  - unfold dq. by destruct (0 <=? k)%Z.
Qed.

Lemma half_even_one n : half_even n 1 = n.
Proof. unfold half_even. by rewrite Z.div_1_r, Z.mod_1_r. Qed.
Lemma round_padded_exact prec n e :
  (0 < prec)%Z → (Z.abs n < 10 ^ prec)%Z → dq (round_padded prec n 1 e) == dq (mk_dec n e).
Proof.
  intros Hp Hn. unfold round_padded. destruct (n =? 0)%Z eqn:Hz.
  { by apply Z.eqb_eq in Hz as ->. }
  apply Z.eqb_neq in Hz. destruct (ilog10_spec (Z.abs n) 1 ltac:(lia) ltac:(done)) as [Hlo _].
  change (inject_Z 1) with 1 in Hlo. rewrite Qmult_1_l in Hlo. set (L := ilog10 (Z.abs n) 1) in *.
  assert (HL : (L < prec)%Z).
  { destruct (Z.lt_ge_cases L prec) as [|Hge]; [done|exfalso].
    pose proof (p10_le prec L Hge) as H. rewrite p10_nat in H by lia. rewrite Zlt_Qlt in Hn. lra. }
  destruct (0 <=? L - (prec - 1))%Z eqn:Hk.
  - replace (L - (prec - 1))%Z with 0%Z by lia. by rewrite half_even_one, Z.add_0_r.
  - rewrite half_even_one. unfold dq. simpl dec_coeff. simpl dec_exp.
    set (k := (L - (prec - 1))%Z) in *. rewrite inject_Z_mult, <-p10_nat, <-Qmult_assoc, <-p10_plus by lia.
    by replace (- k + (e + k))%Z with e by lia.
Qed.
#[global] Instance rounds_value_proper prec x : Proper (Qeq ==> iff) (rounds prec x).
Proof. intros y y' Hy. unfold rounds. by setoid_rewrite Hy. Qed.

Lemma round_ratio_rounds prec n d e x :
  (0 < prec)%Z → (0 < d)%Z → x * inject_Z d == inject_Z n * p10 e →
  rounds prec x (dq (round_ratio prec n d e)).
Proof.
  intros Hp Hd Hx. pose proof (round_padded_rounds prec n d e x Hp Hd Hx) as H. unfold round_ratio.
  destruct (_ && _) eqn:Hc; [|done]. apply andb_true_iff in Hc as [->%Z.eqb_eq Hn%Z.ltb_lt].
  by rewrite <-(round_padded_exact prec n e Hp Hn).
Qed.

(** The units of a positive or negative value. *)
Lemma nearest_units prec k x h :
  (0 < prec)%Z → p10 (k + prec - 1) <= Qabs x → Qabs x < p10 (k + prec) →
  nearest (x * p10 (- k)) h →
  (0 < x → (10 ^ (prec - 1) ≤ h ≤ 10 ^ prec)%Z) ∧
  (x < 0 → (- 10 ^ prec ≤ h ≤ - 10 ^ (prec - 1))%Z).
Proof.
  intros Hp Hlo Hhi Hn. pose proof (p10_pos (- k)) as Hk.
  replace (k + prec - 1)%Z with ((prec - 1) + k)%Z in Hlo by lia.
  replace (k + prec)%Z with (prec + k)%Z in Hhi by lia. rewrite p10_plus in Hlo, Hhi.
  rewrite p10_nat in Hlo, Hhi by lia. pose proof (p10_inv k) as Hi. pose proof (p10_pos k) as Hk0.
  assert (Hz : Qabs x == Qabs x * p10 (- k) * p10 k)
    by (rewrite <-Qmult_assoc, (Qmult_comm (p10 (- k))), Hi; ring).
  set (z := Qabs x * p10 (- k)) in *. rewrite Hz in Hlo, Hhi.
  apply Qmult_le_r in Hlo; [|done]. apply Qmult_lt_r in Hhi; [|done]. split; intros Hx.
  - assert (x * p10 (- k) == z) as Hxz by (unfold z; rewrite Qabs_pos by lra; ring).
    rewrite Hxz in Hn. split; eapply nearest_mono;
      [exact Hlo|apply nearest_int|exact Hn|apply Qlt_le_weak, Hhi|exact Hn|apply nearest_int].
  - assert (x * p10 (- k) == - z) as Hxz by (unfold z; rewrite Qabs_neg by lra; ring).
    rewrite Hxz in Hn. split; eapply nearest_mono; [|apply nearest_int|exact Hn| |exact Hn|apply nearest_int];
      rewrite inject_Z_opp; lra.
Qed.

Lemma inject_pow_p10 p k : (0 ≤ p)%Z → inject_Z (10 ^ p) * p10 k == p10 (k + p).
Proof. intros Hp. rewrite <-p10_nat by done. rewrite <-p10_plus. by rewrite Z.add_comm. Qed.

Lemma p10_lt a b : (a < b)%Z → p10 a < p10 b.
Proof.
  intros Hab. pose proof (p10_le (a + 1) b ltac:(lia)) as H. rewrite p10_plus in H.
  change (p10 1) with (inject_Z 10) in H. pose proof (p10_pos a).
  assert (inject_Z 10 == 10) as Ht by done. rewrite Ht in H. lra.
Qed.
Lemma p10_lt_inv a b : p10 a < p10 b → (a < b)%Z.
Proof.
  intros H. destruct (Z.lt_ge_cases a b) as [|Hge]; [done|]. pose proof (p10_le b a Hge). lra.
Qed.

(** Where a rounded value lies: its sign, and the decade it came from. *)
Lemma rounds_sign prec x y : (0 < prec)%Z → rounds prec x y → (0 <= x → 0 <= y) ∧ (x <= 0 → y <= 0).
Proof.
  intros Hp [[Hx Hy]|(k & h & Hlo & Hhi & Hn & Hy)]; [split; intros; lra|].
  destruct (nearest_units prec k x h Hp Hlo Hhi Hn) as [Hpos Hneg]. pose proof (p10_pos k) as Hk.
  assert (0 < 10 ^ (prec - 1))%Z as H1 by (apply Z.pow_pos_nonneg; lia).
  assert (Hx0 : ¬ x == 0).
  { intros Hx. pose proof (p10_pos (k + prec - 1)). assert (Qabs x == 0) by (rewrite Hx; done). lra. }
  rewrite Hy. split; intros Hx.
  - assert (0 <= inject_Z h); [|nra]. change 0 with (inject_Z 0). rewrite <-Zle_Qle.
    assert (0 < x) as Hx' by lra. specialize (Hpos Hx'). lia.
  - assert (inject_Z h <= 0); [|nra]. change 0 with (inject_Z 0). rewrite <-Zle_Qle.
    assert (x < 0) as Hx' by lra. specialize (Hneg Hx'). lia.
Qed.

(** Rounding a positive value stays within its decade. *)
Lemma rounds_decade prec k x h :
  (0 < prec)%Z → p10 (k + prec - 1) <= Qabs x → Qabs x < p10 (k + prec) →
  nearest (x * p10 (- k)) h →
  (0 < x → p10 (k + prec - 1) <= inject_Z h * p10 k ∧ inject_Z h * p10 k <= p10 (k + prec)) ∧
  (x < 0 → - p10 (k + prec) <= inject_Z h * p10 k ∧ inject_Z h * p10 k <= - p10 (k + prec - 1)).
Proof.
  intros Hp Hlo Hhi Hn. destruct (nearest_units prec k x h Hp Hlo Hhi Hn) as [Hpos Hneg].
  pose proof (p10_pos k) as Hk.
  replace (k + prec - 1)%Z with (k + (prec - 1))%Z by lia.
  rewrite <-(inject_pow_p10 (prec - 1) k), <-(inject_pow_p10 prec k) by lia.
  assert (Hmul : ∀ a b, (a ≤ b)%Z → inject_Z a * p10 k <= inject_Z b * p10 k).
  { intros a b Hab. apply Qmult_le_r; [done|]. by rewrite <-Zle_Qle. }
  split; intros Hx.
  - specialize (Hpos Hx). split; apply Hmul; lia.
  - specialize (Hneg Hx). destruct Hneg as [H1 H2]. apply Hmul in H1, H2.
    rewrite inject_Z_opp in H1, H2. split; lra.
Qed.

Lemma rounds_mono prec x y x' y' :
  (0 < prec)%Z → rounds prec x y → rounds prec x' y' → x <= x' → y <= y'.
Proof.
  intros Hp Hr Hr' Hle. pose proof (rounds_sign _ _ _ Hp Hr) as [Hs1 Hs2].
  pose proof (rounds_sign _ _ _ Hp Hr') as [Hs1' Hs2'].
  destruct (Qlt_le_dec 0 x) as [Hx|Hx]; destruct (Qlt_le_dec x' 0) as [Hx'|Hx'].
  - lra.
  - (* both positive *)
    destruct Hr as [[? _]|(k & h & Hlo & Hhi & Hn & Hy)]; [lra|].
    destruct Hr' as [[? _]|(k' & h' & Hlo' & Hhi' & Hn' & Hy')]; [lra|]. rewrite Hy, Hy'.
    destruct (Z.lt_trichotomy k k') as [Hk|[->|Hk]].
    + apply (rounds_decade prec k x h) in Hn as [Hd _]; try done.
      apply (rounds_decade prec k' x' h') in Hn' as [Hd' _]; try done.
      assert (p10 (k + prec) <= p10 (k' + prec - 1)) by (apply p10_le; lia).
      specialize (Hd Hx). assert (0 < x') as Hx2 by lra. specialize (Hd' Hx2). lra.
    + apply Qmult_le_r; [apply p10_pos|]. rewrite <-Zle_Qle. eapply nearest_mono; [|exact Hn|exact Hn'].
      apply Qmult_le_r; [apply p10_pos|done].
    + exfalso. rewrite Qabs_pos in Hlo, Hhi' by lra.
      assert (p10 (k' + prec) <= p10 (k + prec - 1)) by (apply p10_le; lia). lra.
  - (* both negative *)
    destruct Hr as [[? _]|(k & h & Hlo & Hhi & Hn & Hy)]; [lra|].
    destruct Hr' as [[? _]|(k' & h' & Hlo' & Hhi' & Hn' & Hy')]; [lra|]. rewrite Hy, Hy'.
    destruct (Z.lt_trichotomy k k') as [Hk|[->|Hk]].
    + exfalso. rewrite Qabs_neg in Hlo', Hhi by lra.
      assert (p10 (k + prec) <= p10 (k' + prec - 1)) by (apply p10_le; lia). lra.
    + apply Qmult_le_r; [apply p10_pos|]. rewrite <-Zle_Qle. eapply nearest_mono; [|exact Hn|exact Hn'].
      apply Qmult_le_r; [apply p10_pos|done].
    + assert (x < 0) as Hx2 by lra.
      apply (rounds_decade prec k x h) in Hn as [_ Hd]; try done.
      apply (rounds_decade prec k' x' h') in Hn' as [_ Hd']; try done.
      assert (p10 (k' + prec) <= p10 (k + prec - 1)) by (apply p10_le; lia).
      specialize (Hd Hx2). specialize (Hd' Hx'). lra.
  - specialize (Hs2 Hx). specialize (Hs1' Hx'). lra.
Qed.

Lemma rounds_unique prec x y y' : (0 < prec)%Z → rounds prec x y → rounds prec x y' → y == y'.
Proof.
  intros Hp H H'. apply Qle_antisym; eapply rounds_mono; eauto; lra.
Qed.

(** What fits in the digits is not changed. *)
Lemma rounds_exact prec x y c e :
  (0 < prec)%Z → (Z.abs c ≤ 10 ^ prec)%Z → x == inject_Z c * p10 e → rounds prec x y → y == x.
Proof.
  intros Hp Hc Hx [[Hx0 Hy]|(k & h & Hlo & Hhi & Hn & Hy)]; [lra|].
  assert (Habs : Qabs x == inject_Z (Z.abs c) * p10 e).
  { rewrite Hx, Qabs_Qmult, (Qabs_pos (p10 e)) by (apply Qlt_le_weak, p10_pos). done. }
  assert (Hint : ∃ z, x == inject_Z z * p10 k).
  { destruct (Z.le_gt_cases k e) as [Hke|Hke].
    - exists (c * 10 ^ (e - k))%Z. rewrite Hx, inject_Z_mult, <-Qmult_assoc, inject_pow_p10 by lia.
      by replace (k + (e - k))%Z with e by lia.
    - assert (Hup : inject_Z (Z.abs c) * p10 e <= p10 (e + prec)).
      { rewrite <-inject_pow_p10 by lia. apply Qmult_le_r; [apply p10_pos|]. by rewrite <-Zle_Qle. }
      assert (Hk : k = (e + 1)%Z).
      { destruct (Z.le_gt_cases k (e + 1)) as [|Hgt]; [lia|exfalso].
        assert (p10 (e + prec) < p10 (k + prec - 1)) by (apply p10_lt; lia). lra. }
      assert (Hc2 : (Z.abs c = 10 ^ prec)%Z).
      { apply Z.le_antisymm; [done|]. rewrite Zle_Qle.
        apply (Qmult_le_r _ _ (p10 e)); [apply p10_pos|]. rewrite inject_pow_p10 by lia.
        rewrite <-Habs. by replace (e + prec)%Z with (k + prec - 1)%Z by lia. }
      exists (Z.sgn c * 10 ^ (prec - 1))%Z. rewrite Hx.
      assert (c = Z.sgn c * (10 ^ (prec - 1) * 10))%Z as Hc3.
      { replace (10 ^ (prec - 1) * 10)%Z with (10 ^ prec)%Z; [lia|].
        replace prec with (Z.succ (prec - 1)) at 1 by lia. rewrite Z.pow_succ_r by lia. lia. }
      rewrite Hc3 at 1. rewrite Hk, (p10_plus e 1), !inject_Z_mult. change (p10 1) with (inject_Z 10).
      ring. }
  destruct Hint as [z Hz].
  assert (nearest (inject_Z z) h) as Hn'.
  { eapply nearest_proper; [|done|exact Hn]. rewrite Hz, <-Qmult_assoc, p10_inv. ring. }
  assert (h = z) as ->.
  { apply Z.le_antisymm.
    - exact (nearest_mono _ _ _ _ (Qle_refl _) Hn' (nearest_int z)).
    - exact (nearest_mono _ _ _ _ (Qle_refl _) (nearest_int z) Hn'). }
  by rewrite Hy, Hz.
Qed.

(** A value between two that fit the digits stays between them. *)
Definition fits (prec : Z) (x : Q) : Prop :=
  ∃ c e, (Z.abs c ≤ 10 ^ prec)%Z ∧ x == inject_Z c * p10 e.

Lemma rounds_fits prec x : (0 < prec)%Z → fits prec x → rounds prec x x.
Proof.
  intros Hp (c & e & Hc & Hx).
  assert (H : rounds prec x (dq (round_ratio prec c 1 e))).
  { apply round_ratio_rounds; [done|lia|]. rewrite Hx. change (inject_Z 1) with 1. ring. }
  assert (He : dq (round_ratio prec c 1 e) == x) by (eapply rounds_exact; eauto).
  destruct H as [[H1 H2]|(k & h & H1 & H2 & H3 & H4)]; [left; split; lra|].
  right. exists k, h. split_and!; try done. lra.
Qed.

Lemma rounds_between prec lo x y hi :
  (0 < prec)%Z → fits prec lo → fits prec hi → lo <= x → x <= hi → rounds prec x y →
  lo <= y ∧ y <= hi.
Proof.
  intros Hp Hlo Hhi H1 H2 Hr. apply (rounds_fits prec) in Hlo, Hhi; try done.
  split; eapply rounds_mono; eauto.
Qed.

(** ** The operations round correctly *)

Lemma dq_at e d : (e ≤ dec_exp d)%Z → dq d == inject_Z (dec_at e d) * p10 e.
Proof.
  intros He. unfold dq, dec_at. rewrite inject_Z_mult, <-Qmult_assoc, inject_pow_p10 by lia.
  by replace (e + (dec_exp d - e))%Z with (dec_exp d) by lia.
Qed.

Lemma dec_leb_spec a b : dec_leb a b = true ↔ dq a <= dq b.
Proof.
  unfold dec_leb. set (e := Z.min _ _). rewrite Z.leb_le, (dq_at e a), (dq_at e b) by lia.
  rewrite Qmult_le_r by apply p10_pos. by rewrite <-Zle_Qle.
Qed.
Lemma dec_leb_false a b : dec_leb a b = false ↔ dq b < dq a.
Proof.
  destruct (dec_leb a b) eqn:E.
  - apply dec_leb_spec in E. split; [done|lra].
  - split; [|done]. intros _. apply Qnot_le_lt. intros H. apply dec_leb_spec in H. congruence.
Qed.
Lemma dec_ltb_spec a b : dec_ltb a b = true ↔ dq a < dq b.
Proof. unfold dec_ltb. rewrite negb_true_iff. apply dec_leb_false. Qed.
Lemma dec_ltb_false a b : dec_ltb a b = false ↔ dq b <= dq a.
Proof. unfold dec_ltb. rewrite negb_false_iff. apply dec_leb_spec. Qed.
Lemma dec_eqb_spec a b : dec_eqb a b = true ↔ dq a == dq b.
Proof.
  unfold dec_eqb. rewrite andb_true_iff, !dec_leb_spec. split; [intros [? ?]; lra|intros; split; lra].
Qed.
Lemma dec_leb_total a b : dec_leb a b = false → dec_leb b a = true.
Proof. rewrite dec_leb_false, dec_leb_spec. lra. Qed.
Lemma dec_leb_trans a b c : dec_leb a b = true → dec_leb b c = true → dec_leb a c = true.
Proof. rewrite !dec_leb_spec. lra. Qed.

Lemma d_add_rounds a b : rounds PREC (dq a + dq b) (dq (d_add a b)).
Proof.
  unfold d_add. set (e := Z.min _ _). apply round_ratio_rounds; [done|done|].
  rewrite inject_Z_plus, (dq_at e a), (dq_at e b) by lia. change (inject_Z 1) with 1. ring.
Qed.
Lemma d_sub_rounds a b : rounds PREC (dq a - dq b) (dq (d_sub a b)).
Proof.
  unfold d_sub. set (e := Z.min _ _). apply round_ratio_rounds; [done|done|].
  unfold Z.sub. rewrite inject_Z_plus, inject_Z_opp, (dq_at e a), (dq_at e b) by lia.
  change (inject_Z 1) with 1. ring.
Qed.
Lemma d_mul_rounds a b : rounds PREC (dq a * dq b) (dq (d_mul a b)).
Proof.
  apply round_ratio_rounds; [done|done|]. unfold dq. rewrite inject_Z_mult, p10_plus.
  change (inject_Z 1) with 1. ring.
Qed.
Lemma d_neg_rounds a : rounds PREC (- dq a) (dq (d_neg a)).
Proof.
  apply round_ratio_rounds; [done|done|]. unfold dq. rewrite inject_Z_opp.
  change (inject_Z 1) with 1. ring.
Qed.
Lemma d_div_rounds a b : ¬ dq b == 0 → rounds PREC (dq a / dq b) (dq (d_div a b)).
Proof.
  intros Hb. assert (dec_coeff b ≠ 0)%Z as Hcb.
  { intros H. apply Hb. unfold dq. rewrite H. change (inject_Z 0) with 0. ring. }
  apply round_ratio_rounds; [done|lia|]. unfold Z.sub. rewrite inject_Z_mult, p10_plus.
  assert (Hsgn : inject_Z (Z.abs (dec_coeff b)) == inject_Z (Z.sgn (dec_coeff b)) * inject_Z (dec_coeff b)).
  { rewrite <-inject_Z_mult. apply inject_Z_injective. lia. }
  rewrite Hsgn. assert (dq a / dq b * dq b == dq a) as Hab by (field; done).
  assert (dq b == inject_Z (dec_coeff b) * p10 (dec_exp b)) as Hdb by done.
  set (r := dq a / dq b) in *. rewrite Hdb in Hab. pose proof (p10_inv (dec_exp b)) as Hi.
  assert (r * (inject_Z (Z.sgn (dec_coeff b)) * inject_Z (dec_coeff b)) ==
    inject_Z (Z.sgn (dec_coeff b)) * (r * (inject_Z (dec_coeff b) * p10 (dec_exp b))) * p10 (- dec_exp b))
    as ->.
  { assert (inject_Z (Z.sgn (dec_coeff b)) * (r * (inject_Z (dec_coeff b) * p10 (dec_exp b))) *
      p10 (- dec_exp b) == (p10 (dec_exp b) * p10 (- dec_exp b)) *
      (r * (inject_Z (Z.sgn (dec_coeff b)) * inject_Z (dec_coeff b)))) as -> by ring.
    rewrite Hi. ring. }
  rewrite Hab. unfold dq. ring.
Qed.

(** ** Monotonicity of the operations *)

Lemma d_add_mono a b a' b' : dq a <= dq a' → dq b <= dq b' → dq (d_add a b) <= dq (d_add a' b').
Proof. intros Ha Hb. eapply rounds_mono; [|apply d_add_rounds..|]; [done|lra]. Qed.
Lemma d_sub_mono a b a' b' : dq a <= dq a' → dq b' <= dq b → dq (d_sub a b) <= dq (d_sub a' b').
Proof. intros Ha Hb. eapply rounds_mono; [|apply d_sub_rounds..|]; [done|lra]. Qed.
Lemma d_neg_anti a b : dq a <= dq b → dq (d_neg b) <= dq (d_neg a).
Proof. intros Ha. eapply rounds_mono; [|apply d_neg_rounds..|]; [done|lra]. Qed.
Lemma d_mul_mono_l c a b : 0 <= dq c → dq a <= dq b → dq (d_mul c a) <= dq (d_mul c b).
Proof.
  intros Hc Ha. eapply rounds_mono; [|apply d_mul_rounds..|]; [done|].
  rewrite !(Qmult_comm (dq c)). by apply Qmult_le_compat_r.
Qed.
Lemma d_div_mono a b c : 0 < dq c → dq a <= dq b → dq (d_div a c) <= dq (d_div b c).
Proof.
  intros Hc Ha. eapply rounds_mono; [|apply d_div_rounds; lra..|]; [done|].
  apply Qmult_le_compat_r; [done|]. apply Qinv_le_0_compat. lra.
Qed.
Lemma d_div_anti a b c : 0 <= dq a → 0 < dq b → dq b <= dq c → dq (d_div a c) <= dq (d_div a b).
Proof.
  intros Ha Hb Hbc. eapply rounds_mono; [|apply d_div_rounds; lra..|]; [done|].
  unfold Qdiv. rewrite !(Qmult_comm (dq a)). apply Qmult_le_compat_r; [|done].
  apply Qle_shift_inv_r; [lra|]. rewrite Qmult_comm.
  apply Qle_shift_div_l; lra.
Qed.

(** ** Values that the digits hold *)

Lemma dq_of_Z n : dq (dec_of_Z n) == inject_Z n.
Proof. unfold dq. simpl. change (p10 0) with 1. ring. Qed.
Lemma dq_one : dq d_one == 1.
Proof. apply dq_of_Z. Qed.
Lemma dq_zero : dq dzero == 0.
Proof. apply dq_of_Z. Qed.
Lemma fits_Z n : (Z.abs n ≤ 10 ^ PREC)%Z → fits PREC (inject_Z n).
Proof. intros Hn. exists n, 0%Z. split; [done|]. change (p10 0) with 1. ring. Qed.
Lemma fits_dq c e : (Z.abs c ≤ 10 ^ PREC)%Z → fits PREC (dq (mk_dec c e)).
Proof. intros Hc. by exists c, e. Qed.
#[global] Instance fits_proper prec : Proper (Qeq ==> iff) (fits prec).
Proof.
  intros x y Hxy. unfold fits. split; intros (c & e & Hc & H); exists c, e; (split; [done|]); lra.
Qed.
Lemma fits_0 : fits PREC 0.
Proof. apply (fits_Z 0). done. Qed.
Lemma fits_1 : fits PREC 1.
Proof. by apply (fits_Z 1). Qed.

Lemma PREC_pos : (0 < PREC)%Z.
Proof. done. Qed.

(** An operation whose exact result lies between two representable values stays
    between them; one whose exact result is representable is exact. *)
Lemma rounds_le x y hi : rounds PREC x y → fits PREC hi → x <= hi → y <= hi.
Proof.
  intros Hr Hf Hx. apply (rounds_fits PREC hi PREC_pos) in Hf.
  exact (rounds_mono PREC x y hi hi PREC_pos Hr Hf Hx).
Qed.
Lemma rounds_ge x y lo : rounds PREC x y → fits PREC lo → lo <= x → lo <= y.
Proof.
  intros Hr Hf Hx. apply (rounds_fits PREC lo PREC_pos) in Hf.
  exact (rounds_mono PREC lo lo x y PREC_pos Hf Hr Hx).
Qed.
Lemma rounds_eq x y : rounds PREC x y → fits PREC x → y == x.
Proof.
  intros Hr Hf. apply (rounds_fits PREC x PREC_pos) in Hf. exact (rounds_unique PREC x y x PREC_pos Hr Hf).
Qed.

#[global] Instance rounds_proper prec : Proper (Qeq ==> Qeq ==> iff) (rounds prec).
Proof.
  intros x x' Hx y y' Hy. unfold rounds, nearest.
  split; (intros [[? ?]|(k & h & H1 & H2 & H3 & H4)];
    [left; split; lra|right; exists k, h]).
  - by rewrite <-Hx, <-Hy.
  - by rewrite Hx, Hy.
Qed.

Lemma d_square_nonneg a : 0 <= dq (d_square a).
Proof.
  unfold d_square. set (s := round_ratio (PREC + 3) _ _ _).
  assert (Hs : rounds (PREC + 3) (dq a * dq a) (dq s)).
  { apply round_ratio_rounds; [done|done|]. unfold dq. rewrite inject_Z_mult, p10_plus.
    change (inject_Z 1) with 1. ring. }
  assert (H0 : 0 <= dq s) by (apply (rounds_sign (PREC + 3) (dq a * dq a)); [done|done|nra]).
  assert (Hr : rounds PREC (dq s) (dq (round_ratio PREC (dec_coeff s) 1 (dec_exp s)))).
  { apply round_ratio_rounds; [done|done|]. unfold dq. change (inject_Z 1) with 1. ring. }
  by apply (rounds_sign PREC (dq s)).
Qed.
Lemma d_add_nonneg a b : 0 <= dq a → 0 <= dq b → 0 <= dq (d_add a b).
Proof. intros Ha Hb. apply (rounds_ge _ _ 0 (d_add_rounds a b) fits_0). lra. Qed.
Lemma d_sum_nonneg l : Forall (λ x, 0 <= dq x) l → 0 <= dq (d_sum l).
Proof.
  unfold d_sum. assert (H0 : 0 <= dq dzero) by (rewrite dq_zero; lra). revert H0.
  generalize dzero. induction l as [|x l IH]; intros z Hz Hl; [done|].
  inversion Hl; subst. simpl. apply IH; [|done]. by apply d_add_nonneg.
Qed.
Lemma d_div_nonneg a b : 0 <= dq a → 0 < dq b → 0 <= dq (d_div a b).
Proof.
  intros Ha Hb. apply (rounds_ge _ _ 0 (d_div_rounds a b ltac:(lra)) fits_0).
  apply Qle_shift_div_l; lra.
Qed.
