(* ===== verification/Calendar.v ===== *)
(** * The exchange calendar: [clock/market_clock.py] and the session rules

    Market days with their regular-session windows, the deterministic clock, the
    session calendar of the screening code ([screening/funnel.py],
    [market_data/snapshots.py]) and the two daily focus windows.  An instant is
    a number of microseconds since 1970-01-01 UTC, a date its number of days. *)

From S2P Require Import Prelude.
Local Open Scope Z_scope.

(** ** Dates and instants *)

Definition HOUR : Z := 3600000000.
Definition MINUTE : Z := 60000000.
Definition DAY : Z := 86400000000.

(** [instant.date()] and [instant.time()] *)
Definition utc_date (t : Z) : Z := t `div` DAY.
Definition utc_time (t : Z) : Z := t `mod` DAY.
(** [date.weekday()]: Monday is 0, and 1970-01-01 was a Thursday. *)
Definition weekday (d : Z) : Z := (d + 3) `mod` 7.

(** Year and month of a date of the proleptic Gregorian calendar. *)
Definition year_month (d : Z) : Z * Z :=
  let z := d + 719468 in
  let doe := z `mod` 146097 in
  let yoe := (doe - doe `div` 1460 + doe `div` 36524 - doe `div` 146096) `div` 365 in
  let doy := doe - (365 * yoe + yoe `div` 4 - yoe `div` 100) in
  let mp := (5 * doy + 2) `div` 153 in
  let m := if mp <? 10 then mp + 3 else mp - 9 in
  (yoe + z `div` 146097 * 400 + (if m <=? 2 then 1 else 0), m).

Example year_month_leap :
  year_month <$> [0; 11016; 11017; 19782; 19783] =
  [(1970, 1); (2000, 2); (2000, 3); (2024, 2); (2024, 3)].
Proof. reflexivity. Qed.

(** ** Market sessions *)

Inductive MarketDayKind := REGULAR | HALF_DAY | CLOSED.
#[global] Instance MarketDayKind_eq_dec : EqDecision MarketDayKind.
Proof. solve_decision. Defined.

Record RegularSessionWindow := mk_Window { opens_at : Z; closes_at : Z }.
#[global] Instance RegularSessionWindow_eq_dec : EqDecision RegularSessionWindow.
Proof. solve_decision. Defined.

Definition make_RegularSessionWindow (opens closes : Z) : outcome RegularSessionWindow :=
  guard_that (opens <? closes) EValueError "regular session must close after it opens" ≫= λ _,
  Ok (mk_Window opens closes).

(** The half-open interval [open, close). *)
Definition window_contains (w : RegularSessionWindow) (t : Z) : bool :=
  (opens_at w <=? t) && (t <? closes_at w).

Record MarketSession := mk_Session {
  ms_trading_date : Z;
  ms_day_kind : MarketDayKind;
  ms_regular_session : option RegularSessionWindow;
}.
#[global] Instance MarketSession_eq_dec : EqDecision MarketSession.
Proof. solve_decision. Defined.

Definition make_MarketSession (d : Z) (k : MarketDayKind) (w : option RegularSessionWindow)
    : outcome MarketSession :=
  (if bool_decide (k = CLOSED)
   then guard_that (bool_decide (w = None)) EValueError
          "a closed day cannot have a regular-session window"
   else guard_that (bool_decide (is_Some w)) EValueError
          "an open market day requires a regular-session window") ≫= λ _,
  Ok (mk_Session d k w).

Definition is_closed (s : MarketSession) : bool := bool_decide (ms_day_kind s = CLOSED).
Definition is_regular_session (s : MarketSession) (t : Z) : bool :=
  match ms_regular_session s with Some w => window_contains w t | None => false end.

(** [FakeMarketClock] *)
Fixpoint FakeMarketClock_go (m : gmap Z MarketSession) (l : list MarketSession)
    : outcome (gmap Z MarketSession) :=
  match l with
  | [] => Ok m
  | s :: l =>
      match m !! ms_trading_date s with
      | Some _ => raise EValueError "fake market clock contains a duplicate trading date"
      | None => FakeMarketClock_go (<[ms_trading_date s := s]> m) l
      end
  end.
Definition FakeMarketClock_init : list MarketSession → outcome (gmap Z MarketSession) :=
  FakeMarketClock_go ∅.
Definition session_for (clock : gmap Z MarketSession) (d : Z) : outcome MarketSession :=
  match clock !! d with
  | Some s => Ok s
  | None => raise EMarketClockUnavailable "no deterministic market session for the date"
  end.

(** ** The session calendar *)

(** [validate_nyse_session_window]: the hours a window may claim. *)
Definition OPENS_UTC_EARLIEST : Z := 12 * HOUR.
Definition OPENS_UTC_LATEST : Z := 16 * HOUR.
Definition SESSION_WINDOW_MIN : Z := HOUR.
Definition REGULAR_WINDOW_MAX : Z := 6 * HOUR + 30 * MINUTE.

Definition validate_nyse_session_window (s : MarketSession) : outcome unit :=
  match ms_regular_session s with
  | None => Ok ()
  | Some w =>
      let duration := closes_at w - opens_at w in
      guard_that ((OPENS_UTC_EARLIEST <=? utc_time (opens_at w)) &&
                  (utc_time (opens_at w) <=? OPENS_UTC_LATEST)) EValueError
        "NYSE session window opens outside the plausible UTC range" ≫= λ _,
      guard_that ((SESSION_WINDOW_MIN <=? duration) && (duration <=? REGULAR_WINDOW_MAX))
        EValueError "NYSE session window duration is implausible"
  end.

Definition weekend_open (s : MarketSession) : bool :=
  (5 <=? weekday (ms_trading_date s)) && negb (is_closed s).

(** [_session_calendar]: a dict in the order of the sessions. *)
Definition session_calendar (sessions : list MarketSession) : outcome (gmap Z MarketSession) :=
  let dates := ms_trading_date <$> sessions in
  guard_that (bool_decide (NoDup dates)) EValueError
    "sessions must not contain duplicate trading dates" ≫= λ _,
  guard_that (bool_decide (dates = sort_by Z.leb dates)) EValueError
    "sessions must be ordered by trading date" ≫= λ _,
  guard_that (negb (existsb weekend_open sessions)) EValueError
    "NYSE weekends must be explicit CLOSED sessions" ≫= λ _,
  mapM validate_nyse_session_window sessions ≫= λ _,
  Ok (list_to_map ((λ s, (ms_trading_date s, s)) <$> sessions)).

(** [l[-count:]] for a positive count. *)
Definition last_n {A} (count : nat) (l : list A) : list A := drop (length l - count) l.

Definition open_kind (s : MarketSession) : bool :=
  bool_decide (ms_day_kind s = REGULAR) || bool_decide (ms_day_kind s = HALF_DAY).

(** [_latest_open_session_dates] *)
Definition latest_open_session_dates (m : gmap Z MarketSession) (cutoff : Z) (count : nat)
    : outcome (list Z) :=
  let dates := sort_by Z.leb
    (filter (λ d, d < cutoff ∧ (open_kind <$> m !! d) = Some true) (map_to_list m).*1) in
  let selected := last_n count dates in
  (if bool_decide (length selected = count) then
     let first := default cutoff (head selected) in
     guard_that (forallb (λ d, negb ((weekday d <? 5) && bool_decide (m !! d = None)))
                   (seqZ first (cutoff - first))) EValueError
       "NYSE calendar window must include every weekday explicitly"
   else Ok ()) ≫= λ _,
  Ok selected.

(** [_has_latest_session_coverage] *)
Definition has_latest_session_coverage (dates : list Z) (m : gmap Z MarketSession) (cutoff : Z)
    (count : nat) : outcome bool :=
  expected ← latest_open_session_dates m cutoff count;
  Ok (bool_decide (length expected = count) && bool_decide (count ≤ length dates)%nat &&
      bool_decide (last_n count dates = expected)).

(** ** The focus windows *)

Inductive FocusWindow := OPEN_PLUS_60M | CLOSE_MINUS_90M.
#[global] Instance FocusWindow_eq_dec : EqDecision FocusWindow.
Proof. solve_decision. Defined.

Definition select_focus_window (as_of : Z) (s : MarketSession) : outcome FocusWindow :=
  match ms_regular_session s with
  | None => raise EValueError "focus window requires an open market session"
  | Some w =>
      guard_that (negb (is_closed s)) EValueError
        "focus window requires an open market session" ≫= λ _,
      validate_nyse_session_window s ≫= λ _,
      let open_deadline := opens_at w + 60 * MINUTE in
      let close_deadline := closes_at w - 90 * MINUTE in
      guard_that (open_deadline <? close_deadline) EValueError
        "focus windows overlap for this market session" ≫= λ _,
      if (opens_at w <=? as_of) && (as_of <? open_deadline) then Ok OPEN_PLUS_60M
      else if (close_deadline <=? as_of) && (as_of <? closes_at w) then Ok CLOSE_MINUS_90M
      else raise EValueError "as_of is outside both focus windows"
  end.

(** ** Properties *)


Lemma last_n_length {A} n (l : list A) : (n ≤ length l)%nat → length (last_n n l) = n.
Proof. unfold last_n. rewrite length_drop. lia. Qed.

(** The focus window of an instant is decided by the session alone: inside
    the first 60 minutes it is the open window, inside the last 90 minutes the
    close window, and the two never overlap; every other instant, a closed day,
    implausible hours and a session too short for both windows raise
    ValueError. *)
Theorem focus_window_decides t s :
  match select_focus_window t s with
  | Ok f => ∃ w, ms_regular_session s = Some w ∧ ms_day_kind s ≠ CLOSED ∧
      SESSION_WINDOW_MIN ≤ closes_at w - opens_at w ≤ REGULAR_WINDOW_MAX ∧
      150 * MINUTE < closes_at w - opens_at w ∧ is_regular_session s t = true ∧
      (f = OPEN_PLUS_60M ↔ t < opens_at w + 60 * MINUTE) ∧
      (f = CLOSE_MINUS_90M ↔ closes_at w - 90 * MINUTE ≤ t)
  | Raise e => exn_cls e = EValueError ∧
      (ms_regular_session s = None ∨ ms_day_kind s = CLOSED ∨
       (∃ e', validate_nyse_session_window s = Raise e') ∨
       ∃ w, ms_regular_session s = Some w ∧
         (closes_at w - opens_at w ≤ 150 * MINUTE ∨ t < opens_at w ∨ closes_at w ≤ t ∨
          opens_at w + 60 * MINUTE ≤ t < closes_at w - 90 * MINUTE))
  end.
Proof.
  unfold select_focus_window, is_regular_session.
  destruct (ms_regular_session s) as [w|] eqn:Hw; [|split; [done|by left]].
  unfold is_closed, guard_that, window_contains, raise.
  case_bool_decide as Hc; simpl; [split; [done|]; by right; left|].
  destruct (validate_nyse_session_window s) as [[]|e] eqn:Hv; simpl.
  2: { split; [|by eauto]. unfold validate_nyse_session_window, guard_that, raise in Hv.
       rewrite Hw in Hv. destruct (_ && _), (_ && _) in Hv; simpl in Hv; by simplify_eq. }
  unfold validate_nyse_session_window, guard_that, raise in Hv. rewrite Hw in Hv. cbv zeta in Hv.
  destruct (_ && (utc_time _ <=? _)) in Hv; simpl in Hv; [|done].
  destruct (_ && _) eqn:Hd in Hv; [|done]. apply andb_true_iff in Hd as [Hd1%Z.leb_le Hd2%Z.leb_le].
  unfold MINUTE in *.
  destruct (opens_at w + 60 * 60000000 <? closes_at w - 90 * 60000000) eqn:Ho; simpl.
  - destruct (_ && _) eqn:H1; [|destruct (_ && (t <? closes_at w)) eqn:H2]; simpl.
    + exists w. repeat split; try done; lia.
    + exists w. repeat split; try done; lia.
    + split; [done|]. right. right. right. exists w. split; [done|]. lia.
  - split; [done|]. right. right. right. exists w. split; [done|]. lia.
Qed.

(** The open days of the calendar before a date. *)
Definition open_before (m : gmap Z MarketSession) (cutoff d : Z) : Prop :=
  d < cutoff ∧ ∃ s, m !! d = Some s ∧ open_kind s = true.

Lemma sort_Z_strict l : NoDup l → StronglySorted Z.lt (sort_by Z.leb l).
Proof.
  intros Hl.
  assert (Hs : StronglySorted (λ a b, Z.leb a b = true) (sort_by Z.leb l))
    by (apply sort_by_sorted; intros; lia).
  assert (Hn : NoDup (sort_by Z.leb l)) by by rewrite sort_by_perm.
  induction Hs as [|x k Hk IH Hx]; constructor.
  - apply IH. by inversion Hn.
  - apply Forall_forall. intros y Hy. rewrite Forall_forall in Hx. specialize (Hx y Hy).
    apply NoDup_cons in Hn as [Hn _]. destruct (decide (x = y)) as [->|]; [done|lia].
Qed.

Lemma StronglySorted_drop {A} (R : relation A) n l : StronglySorted R l → StronglySorted R (drop n l).
Proof.
  revert l. induction n as [|n IH]; intros l Hl; [done|]. destruct Hl as [|x l Hl _]; [constructor|].
  simpl. by apply IH.
Qed.

Lemma StronglySorted_split {A} (R : relation A) n l x y :
  StronglySorted R l → x ∈ take n l → y ∈ drop n l → R x y.
Proof.
  revert l. induction n as [|n IH]; intros l Hl Hx Hy; [by apply elem_of_nil in Hx|].
  destruct Hl as [|z l Hl Hz]; [by apply elem_of_nil in Hx|]. simpl in *.
  apply elem_of_cons in Hx as [->|Hx]; [|by eapply IH].
  rewrite Forall_forall in Hz. apply Hz. rewrite <-(take_drop n l). apply elem_of_app. by right.
Qed.

(** The latest open sessions before a date are its greatest open days, in
    increasing order, as many as asked for or all there are; and when that many
    exist, the calendar records every weekday from the first of them to the
    date - otherwise, and only then, the call raises ValueError. *)
Theorem latest_sessions_decides m cutoff count :
  match latest_open_session_dates m cutoff count with
  | Ok l => StronglySorted Z.lt l ∧ (length l ≤ count)%nat ∧
      (∀ d, d ∈ l → open_before m cutoff d) ∧
      (∀ d, open_before m cutoff d → d ∉ l → length l = count ∧ ∀ x, x ∈ l → d < x) ∧
      (length l = count → ∀ f d, head l = Some f → f ≤ d < cutoff → weekday d < 5 → is_Some (m !! d))
  | Raise e => exn_cls e = EValueError ∧ ∃ f d, open_before m cutoff f ∧ f ≤ d < cutoff ∧
      weekday d < 5 ∧ m !! d = None
  end.
Proof.
  unfold latest_open_session_dates.
  set (D := filter (λ d, d < cutoff ∧ (open_kind <$> m !! d) = Some true) (map_to_list m).*1).
  assert (HD : ∀ d, d ∈ D ↔ open_before m cutoff d).
  { intros d. unfold D, open_before. rewrite list_elem_of_filter, list_elem_of_fmap. split.
    - intros [[Hd Ho] _]. split; [done|]. destruct (m !! d) as [s|]; [|done]. exists s. naive_solver.
    - intros (Hd & s & Hs & Ho). rewrite Hs. simpl. rewrite Ho. split; [done|].
      exists (d, s). by rewrite elem_of_map_to_list. }
  assert (HnD : NoDup D) by apply NoDup_filter, NoDup_fst_map_to_list.
  pose proof (sort_Z_strict D HnD) as Hs. set (S := sort_by Z.leb D) in *.
  assert (HS : ∀ d, d ∈ S ↔ open_before m cutoff d) by (intros d; unfold S; by rewrite elem_of_sort_by).
  set (sel := last_n count S).
  assert (Hsel : ∀ d, d ∈ sel → d ∈ S).
  { intros d Hd. unfold sel, last_n in Hd. rewrite <-(take_drop (length S - count) S).
    apply elem_of_app. by right. }
  assert (Hlen : (length sel ≤ count)%nat) by (unfold sel, last_n; rewrite length_drop; lia).
  assert (Hrest : ∀ d, open_before m cutoff d → d ∉ sel → length sel = count ∧ ∀ x, x ∈ sel → d < x).
  { intros d Hd Hnd. apply HS in Hd. rewrite <-(take_drop (length S - count) S) in Hd.
    apply elem_of_app in Hd as [Hd|Hd]; [|done]. split.
    - apply last_n_length. destruct (decide (count ≤ length S)%nat) as [|Hc]; [done|].
      replace (length S - count)%nat with 0%nat in Hd by lia. by apply elem_of_nil in Hd.
    - intros x Hx. by eapply StronglySorted_split. }
  assert (Hss : StronglySorted Z.lt sel) by by apply StronglySorted_drop.
  assert (Hin : ∀ d, d ∈ sel → open_before m cutoff d) by (intros d Hd; by apply HS, Hsel).
  case_bool_decide as Hcount; simpl; [|split_and!; try done].
  unfold guard_that, raise. destruct (forallb _ _) eqn:Hall; simpl.
  - split_and!; try done.
    intros _ f d Hf Hd Hw. rewrite Hf in Hall. simpl in Hall. rewrite forallb_forall in Hall.
    specialize (Hall d). destruct (m !! d) as [s|] eqn:Hm; [by eexists|]. exfalso.
    rewrite <-list_elem_of_In, elem_of_seqZ in Hall. specialize (Hall ltac:(lia)).
    rewrite bool_decide_true, (proj2 (Z.ltb_lt _ _) Hw) in Hall by done. done.
  - split; [done|]. apply not_true_iff_false in Hall. rewrite forallb_forall in Hall.
    assert (Hex : Exists (λ d, weekday d < 5 ∧ m !! d = None)
      (seqZ (default cutoff (head sel)) (cutoff - default cutoff (head sel)))).
    { apply dec_stable. intros HE. apply Hall. intros d Hd. apply list_elem_of_In in Hd.
      case_bool_decide as Hm; [|by rewrite andb_false_r].
      destruct (Z.ltb_spec (weekday d) 5) as [Hw|Hw]; [|done].
      exfalso. apply HE, Exists_exists. by exists d. }
    apply Exists_exists in Hex as (d & Hd & Hw & Hm). rewrite elem_of_seqZ in Hd.
    destruct (head sel) as [f|] eqn:Hf; simpl in Hd; [|lia]. exists f, d. split_and!; try done; try lia.
    apply HS, Hsel. destruct sel; [done|]. simplify_eq/=. by constructor.
Qed.
