(* ===== verification/Json.v ===== *)
(** * Canonical JSON: [domain/json_values.py]

    [JsonObject]: the bounded normal form of a persisted payload, its canonical
    text, and reading it back.  A [str] is its UTF-8 bytes, a lone surrogate being
    the three bytes UTF-8 would give it.  A float is its [repr]; reading a
    number text as a float and printing it again is a parameter.  The printer and
    the parser are those of the [json] module with the options the source passes;
    the recursion limit of the interpreter is not modelled. *)

From S2P Require Import Prelude Dicts Text.
Local Open Scope Z_scope.

(** ** Values *)

#[local] Unset Elimination Schemes.
Inductive json :=
  | JNull
  | JBool (b : bool)
  | JInt (n : Z)
  | JFloat (repr : string)
  | JStr (s : string)
  | JList (items : list json)
  | JObj (members : list (string * json)).
#[local] Set Elimination Schemes.

Definition MAX_JSON_DEPTH : nat := 32.
Definition MAX_SERIALIZED_BYTES : nat := Z.to_nat 65536.
Definition MAX_TOTAL_NODES : Z := 4096.
Definition MAX_OBJECT_MEMBERS : nat := 256.
Definition MAX_LIST_ITEMS : nat := 512.
Definition MAX_KEY_BYTES : nat := 128.
Definition MAX_STRING_BYTES : nat := Z.to_nat 16384.

(** ** Normal form *)

(** [_encoded_size]: strict UTF-8 has no surrogates, [0xED 0xA0..0xBF]. *)
Fixpoint has_surrogate (s : string) : bool :=
  match s with
  | String c ((String d _) as s') =>
      (nat_of_ascii c =? 237)%nat && (160 <=? nat_of_ascii d)%nat && (nat_of_ascii d <=? 191)%nat
      || has_surrogate s'
  | _ => false
  end.
Definition encoded_size (s : string) (maximum : nat) : outcome unit :=
  guard_that (negb (has_surrogate s)) EValueError
    "persisted payload strings must contain valid Unicode" ≫= λ _,
  guard_that (String.length s <=? maximum)%nat EValueError "exceeds maximum UTF-8 bytes".

(** [math.isfinite] on the representation of a float. *)
Definition float_finite (s : string) : bool :=
  negb (bool_decide (s = "inf") || bool_decide (s = "-inf") || bool_decide (s = "nan")).

(** A loop that passes the node budget along. *)
Section mapM_budget.
Context {A B : Type} (f : A → Z → outcome (B * Z)).
Fixpoint mapM_budget (l : list A) (nodes : Z) : outcome (list B * Z) :=
  match l with
  | [] => Ok ([], nodes)
  | x :: l =>
      '(y, nodes) ← f x nodes;
      '(k, nodes) ← mapM_budget l nodes;
      Ok (y :: k, nodes)
  end.
End mapM_budget.

Definition check_key (k : string) : outcome unit :=
  guard_that (negb (has_nul k)) EValueError
    "persisted payload object keys must not contain NUL" ≫= λ _,
  encoded_size k MAX_KEY_BYTES.

(** [_normalize_json], with the nodes consumed so far. *)
Fixpoint normalize_json (depth : nat) (v : json) (nodes : Z) : outcome (json * Z) :=
  guard_that (depth <=? MAX_JSON_DEPTH)%nat EValueError
    "persisted payload exceeds maximum JSON depth" ≫= λ _,
  let nodes := nodes + 1 in
  guard_that (nodes <=? MAX_TOTAL_NODES) EValueError
    "persisted payload exceeds maximum total JSON nodes" ≫= λ _,
  match v with
  | JNull | JBool _ | JInt _ => Ok (v, nodes)
  | JStr s =>
      guard_that (negb (has_nul s)) EValueError
        "persisted payload strings must not contain NUL" ≫= λ _,
      encoded_size s MAX_STRING_BYTES ≫= λ _, Ok (v, nodes)
  | JFloat s =>
      guard_that (float_finite s) EValueError "persisted payload numbers must be finite" ≫= λ _,
      Ok (v, nodes)
  | JObj m =>
      guard_that (length m <=? MAX_OBJECT_MEMBERS)%nat EValueError
        "persisted payload object exceeds maximum members" ≫= λ _,
      '(m', nodes) ← mapM_budget (λ kv nodes,
        check_key kv.1 ≫= λ _,
        '(x, nodes) ← normalize_json (S depth) kv.2 nodes;
        Ok ((kv.1, x), nodes)) m nodes;
      Ok (JObj m', nodes)
  | JList l =>
      guard_that (length l <=? MAX_LIST_ITEMS)%nat EValueError
        "persisted payload list exceeds maximum items" ≫= λ _,
      '(l', nodes) ← mapM_budget (normalize_json (S depth)) l nodes;
      Ok (JList l', nodes)
  end.

(** ** Printing: [json.dumps(..., ensure_ascii=False, separators=(",", ":"),
    sort_keys=True)] *)

Definition QUOTE : ascii := "034".
Definition BACKSLASH : ascii := "092".
Definition hex_digit (n : nat) : ascii := ascii_of_nat (if (n <? 10)%nat then 48 + n else 87 + n).

Definition escape_char (c : ascii) (rest : string) : string :=
  let n := nat_of_ascii c in
  let short d := String BACKSLASH (String d rest) in
  if bool_decide (c = QUOTE) then short QUOTE
  else if bool_decide (c = BACKSLASH) then short BACKSLASH
  else if (n =? 10)%nat then short "n"%char
  else if (n =? 13)%nat then short "r"%char
  else if (n =? 9)%nat then short "t"%char
  else if (n =? 12)%nat then short "f"%char
  else if (n =? 8)%nat then short "b"%char
  else if (n <? 32)%nat then
    String BACKSLASH (String "u" (String "0" (String "0"
      (String (hex_digit (n / 16)) (String (hex_digit (n mod 16)) rest)))))
  else String c rest.
Fixpoint escape_text (s rest : string) : string :=
  match s with
  | EmptyString => rest
  | String c s => escape_char c (escape_text s rest)
  end.
Definition quote_text (s : string) : string := String QUOTE (escape_text s (String QUOTE "")).

Definition key_leb {A} (a b : string * A) : bool := String.leb a.1 b.1.

Definition member_text (kt : string * string) : string := quote_text kt.1 +:+ (":" +:+ kt.2).
Fixpoint dumps (v : json) : string :=
  match v with
  | JNull => "null"
  | JBool b => if b then "true" else "false"
  | JInt n => int_text n
  | JFloat s => s
  | JStr s => quote_text s
  | JList l => "[" +:+ (join_comma (dumps <$> l) +:+ "]")
  | JObj m =>
      "{" +:+ (join_comma (member_text <$> sort_by key_leb ((λ kv, (kv.1, dumps kv.2)) <$> m)) +:+ "}")
  end.

(** [sys.get_int_max_str_digits()]: longer integers do not convert. *)
Definition MAX_INT_DIGITS : nat := Z.to_nat 4300.
Definition int_digits (n : Z) : nat := String.length (int_text (Z.abs n)).
Fixpoint ints_convert (v : json) : bool :=
  match v with
  | JInt n => (int_digits n <=? MAX_INT_DIGITS)%nat
  | JList l => forallb ints_convert l
  | JObj m => forallb (λ kv, ints_convert kv.2) m
  | _ => true
  end.
Definition dumps_checked (v : json) : outcome string :=
  guard_that (ints_convert v) EValueError
    "Exceeds the limit (4300 digits) for integer string conversion" ≫= λ _,
  Ok (dumps v).

(** ** Reading: [json.loads] *)

Definition is_json_space (c : ascii) : bool :=
  let n := nat_of_ascii c in (n =? 32)%nat || (n =? 9)%nat || (n =? 10)%nat || (n =? 13)%nat.
Fixpoint skip_space (s : string) : string :=
  match s with
  | String c s' => if is_json_space c then skip_space s' else s
  | EmptyString => s
  end.

Definition hex_value (c : ascii) : option nat :=
  let n := nat_of_ascii c in
  if is_digit c then Some (n - 48)%nat
  else if (97 <=? n)%nat && (n <=? 102)%nat then Some (n - 87)%nat
  else if (65 <=? n)%nat && (n <=? 70)%nat then Some (n - 55)%nat
  else None.
Definition hex4 (a b c d : ascii) : option N :=
  wa ← hex_value a; wb ← hex_value b; wc ← hex_value c; wd ← hex_value d;
  Some (N.of_nat wa * 4096 + N.of_nat wb * 256 + N.of_nat wc * 16 + N.of_nat wd)%N.

(** The UTF-8 bytes of a code point. *)
Definition utf8 (n : N) (rest : string) : string :=
  let byte m := ascii_of_N m in
  let tail k := byte (128 + (n / 2 ^ k) mod 64)%N in
  if (n <? 128)%N then String (byte n) rest
  else if (n <? 2048)%N then String (byte (192 + n / 64)%N) (String (tail 0%N) rest)
  else if (n <? 65536)%N then
    String (byte (224 + n / 4096)%N) (String (tail 6%N) (String (tail 0%N) rest))
  else String (byte (240 + n / 262144)%N)
         (String (tail 12%N) (String (tail 6%N) (String (tail 0%N) rest))).

Definition is_high (n : N) : bool := (55296 <=? n)%N && (n <=? 56319)%N.
Definition is_low (n : N) : bool := (56320 <=? n)%N && (n <=? 57343)%N.
Definition join_surrogates (hi lo : N) : N := (65536 + (hi - 55296) * 1024 + (lo - 56320))%N.

Definition simple_escape (c : ascii) : option ascii :=
  if bool_decide (c = QUOTE) then Some QUOTE
  else if bool_decide (c = BACKSLASH) then Some BACKSLASH
  else if bool_decide (c = "/"%char) then Some "/"%char
  else if bool_decide (c = "b"%char) then Some (ascii_of_nat 8)
  else if bool_decide (c = "f"%char) then Some (ascii_of_nat 12)
  else if bool_decide (c = "n"%char) then Some (ascii_of_nat 10)
  else if bool_decide (c = "r"%char) then Some (ascii_of_nat 13)
  else if bool_decide (c = "t"%char) then Some (ascii_of_nat 9)
  else None.

(** The text of a string after its opening quote, and what follows the closing one.
    Strict: no control characters. *)
Fixpoint scan_string (s : string) : option (string * string) :=
  match s with
  | EmptyString => None
  | String c s =>
      if bool_decide (c = QUOTE) then Some (EmptyString, s)
      else if bool_decide (c = BACKSLASH) then
        match s with
        | String e s =>
            if bool_decide (e = "u"%char) then
              match s with
              | String x1 (String x2 (String x3 (String x4 s))) =>
                  n ← hex4 x1 x2 x3 x4;
                  let alone := '(t, r) ← scan_string s; Some (utf8 n t, r) in
                  match s with
                  | String b (String u (String y1 (String y2 (String y3 (String y4 s'))))) =>
                      if is_high n && bool_decide (b = BACKSLASH) && bool_decide (u = "u"%char) then
                        match hex4 y1 y2 y3 y4 with
                        | Some lo =>
                            if is_low lo then
                              '(t, r) ← scan_string s'; Some (utf8 (join_surrogates n lo) t, r)
                            else alone
                        | None => alone
                        end
                      else alone
                  | _ => alone
                  end
              | _ => None
              end
            else
              x ← simple_escape e; '(t, r) ← scan_string s; Some (String x t, r)
        | EmptyString => None
        end
      else if (nat_of_ascii c <? 32)%nat then None
      else '(t, r) ← scan_string s; Some (String c t, r)
  end.

(** The longest prefix of digits, and the rest. *)
Fixpoint span_digits (s : string) : string * string :=
  match s with
  | String c s' =>
      if is_digit c then let '(d, r) := span_digits s' in (String c d, r) else (EmptyString, s)
  | EmptyString => (EmptyString, EmptyString)
  end.
Fixpoint digits_value_go (acc : Z) (s : string) : Z :=
  match s with
  | String c s => digits_value_go (10 * acc + (Z.of_nat (nat_of_ascii c) - 48)) s
  | EmptyString => acc
  end.
Definition digits_value : string → Z := digits_value_go 0.

(** [-?] *)
Definition scan_minus (s : string) : string * string :=
  match s with
  | String c r => if bool_decide (c = "-"%char) then (String c EmptyString, r) else (EmptyString, s)
  | EmptyString => (EmptyString, s)
  end.
(** [0|[1-9][0-9]*] *)
Definition scan_int (s : string) : option (string * string) :=
  let '(d, r) := span_digits s in
  match d with
  | EmptyString => None
  | String c d' =>
      if bool_decide (c = "0"%char) then Some (String c EmptyString, d' +:+ r) else Some (d, r)
  end.
(** [(\.[0-9]+)?] *)
Definition scan_frac (s : string) : string * string :=
  match s with
  | String c s' =>
      if bool_decide (c = "."%char) then
        let '(d, r) := span_digits s' in
        if bool_decide (d = "") then ("", s) else (String c d, r)
      else ("", s)
  | EmptyString => ("", s)
  end.
(** [([eE][-+]?[0-9]+)?] *)
Definition scan_exp (s : string) : string * string :=
  match s with
  | String c s' =>
      if bool_decide (c = "e"%char) || bool_decide (c = "E"%char) then
        let '(sign, s'') :=
          match s' with
          | String d r => if bool_decide (d = "+"%char) || bool_decide (d = "-"%char)
                          then (String d EmptyString, r) else (EmptyString, s')
          | EmptyString => (EmptyString, s')
          end in
        let '(d, r) := span_digits s'' in
        if bool_decide (d = "") then ("", s) else (String c (sign +:+ d), r)
      else ("", s)
  | EmptyString => ("", s)
  end.

(** [repr(float(text))] *)
Section float_repr.
Context (float_repr : string → string).

Definition scan_number (s : string) : option (json * string) :=
  let '(sign, s) := scan_minus s in
  '(digits, s) ← scan_int s;
  let '(frac, s) := scan_frac s in
  let '(exp, s) := scan_exp s in
  if bool_decide (frac = "") && bool_decide (exp = "") then
    if (String.length digits <=? MAX_INT_DIGITS)%nat
    then Some (JInt (if bool_decide (sign = "") then digits_value digits else - digits_value digits), s)
    else None
  else Some (JFloat (float_repr (sign +:+ (digits +:+ (frac +:+ exp)))), s).

Definition scan_literal (t : string) (v : json) (s : string) : option (json * string) :=
  match m_lit t s with [r] => Some (v, r) | _ => None end.

(** The dict of the pairs in order: the last value of a key at its first place. *)
Definition dict_of (pairs : list (string * json)) : list (string * json) := keyed fst pairs.

(** One value, the members after an opening brace, the items after an opening
    bracket.  [NaN] and [Infinity] are rejected by [_reject_json_constant]. *)
Fixpoint parse_value (fuel : nat) (s : string) : option (json * string) :=
  match fuel, s with
  | S fuel, String c s' =>
      if bool_decide (c = QUOTE) then '(t, r) ← scan_string s'; Some (JStr t, r)
      else if bool_decide (c = "{"%char) then
        match skip_space s' with
        | String d r => if bool_decide (d = "}"%char) then Some (JObj [], r)
                        else '(m, r) ← parse_members fuel (String d r); Some (JObj (dict_of m), r)
        | EmptyString => None
        end
      else if bool_decide (c = "["%char) then
        match skip_space s' with
        | String d r => if bool_decide (d = "]"%char) then Some (JList [], r)
                        else '(l, r) ← parse_items fuel (String d r); Some (JList l, r)
        | EmptyString => None
        end
      else if bool_decide (c = "n"%char) then scan_literal "null" JNull s
      else if bool_decide (c = "t"%char) then scan_literal "true" (JBool true) s
      else if bool_decide (c = "f"%char) then scan_literal "false" (JBool false) s
      else scan_number s
  | _, _ => None
  end
with parse_members (fuel : nat) (s : string) : option (list (string * json) * string) :=
  match fuel, s with
  | S fuel, String q s =>
      if bool_decide (q = QUOTE) then
        '(k, r) ← scan_string s;
        match skip_space r with
        | String c r =>
            if bool_decide (c = ":"%char) then
              '(v, r) ← parse_value fuel (skip_space r);
              match skip_space r with
              | String d r =>
                  if bool_decide (d = "}"%char) then Some ([(k, v)], r)
                  else if bool_decide (d = ","%char) then
                    '(m, r) ← parse_members fuel (skip_space r); Some ((k, v) :: m, r)
                  else None
              | EmptyString => None
              end
            else None
        | EmptyString => None
        end
      else None
  | _, _ => None
  end
with parse_items (fuel : nat) (s : string) : option (list json * string) :=
  match fuel with
  | S fuel =>
      '(v, r) ← parse_value fuel s;
      match skip_space r with
      | String d r =>
          if bool_decide (d = "]"%char) then Some ([v], r)
          else if bool_decide (d = ","%char) then
            '(l, r) ← parse_items fuel (skip_space r); Some (v :: l, r)
          else None
      | EmptyString => None
      end
  | O => None
  end.

(** Every call but the one from an item to its value consumes a character. *)
Definition parse_fuel (s : string) : nat := 2 * String.length s + 2.

(** [json.loads], failing with a [ValueError] of some kind: the byte order mark is
    refused, and nothing but space may follow the value. *)
Definition loads (s : string) : option json :=
  let s := skip_space s in
  '(v, r) ← parse_value (parse_fuel s) s;
  if bool_decide (skip_space r = "") then Some v else None.

(** ** [JsonObject] *)

Record JsonObject := mk_JsonObject { canonical_text : string }.
#[global] Instance JsonObject_eq_dec : EqDecision JsonObject.
Proof. solve_decision. Defined.

Definition is_object (v : json) : bool := match v with JObj _ => true | _ => false end.

(** [__post_init__] *)
Definition make_JsonObject (text : string) : outcome JsonObject :=
  encoded_size text MAX_SERIALIZED_BYTES ≫= λ _,
  match loads text with
  | None => raise EValueError "canonical JSON must be valid and finite"
  | Some decoded =>
      '(normalized, _) ← normalize_json 0 decoded 0;
      guard_that (is_object normalized) EValueError "persisted payload must be a JSON object" ≫= λ _,
      expected ← dumps_checked normalized;
      guard_that (bool_decide (expected = text)) EValueError
        "JsonObject must use its canonical representation" ≫= λ _,
      Ok (mk_JsonObject text)
  end.

(** [from_value], which is [validate_json_object] *)
Definition from_value (v : json) : outcome JsonObject :=
  '(normalized, _) ← normalize_json 0 v 0;
  guard_that (is_object normalized) EValueError "persisted payload must be a JSON object" ≫= λ _,
  canonical ← dumps_checked normalized;
  encoded_size canonical MAX_SERIALIZED_BYTES ≫= λ _,
  make_JsonObject canonical.

Definition to_dict (o : JsonObject) : outcome (list (string * json)) :=
  match loads (canonical_text o) with
  | None => raise EValueError "canonical JSON must be valid and finite"
  | Some (JObj m) => Ok m
  | Some _ => raise ERuntimeError "canonical JsonObject did not decode to an object"
  end.
Definition to_json (o : JsonObject) : string := canonical_text o.
End float_repr.
