(* ===== verification/JsonFacts.v ===== *)
(** * Facts about canonical JSON

    The canonical text of a value reads back as the value with its keys in order;
    the checks accept exactly the values within the bounds; equal texts are equal
    values up to the order of keys. *)

From S2P Require Import Prelude Errors Dicts Text LedgerFacts Json.
Local Open Scope Z_scope.

(** ** Induction on values *)

Definition json_ind (P : json → Prop) (Hnull : P JNull) (Hbool : ∀ b, P (JBool b))
    (Hint : ∀ n, P (JInt n)) (Hfloat : ∀ s, P (JFloat s)) (Hstr : ∀ s, P (JStr s))
    (Hlist : ∀ l, Forall P l → P (JList l)) (Hobj : ∀ m, Forall (λ kv, P kv.2) m → P (JObj m)) :
    ∀ v, P v :=
  fix go v :=
    match v with
    | JNull => Hnull
    | JBool b => Hbool b
    | JInt n => Hint n
    | JFloat s => Hfloat s
    | JStr s => Hstr s
    | JList l => Hlist l ((fix items l : Forall P l :=
        match l with [] => Forall_nil_2 _ | x :: l => Forall_cons_2 _ _ _ (go x) (items l) end) l)
    | JObj m => Hobj m ((fix members m : Forall (λ kv, P kv.2) m :=
        match m with [] => Forall_nil_2 _ | x :: m => Forall_cons_2 _ _ _ (go x.2) (members m) end) m)
    end.

(** ** The canonical form *)

Fixpoint canon (v : json) : json :=
  match v with
  | JList l => JList (canon <$> l)
  | JObj m => JObj (sort_by key_leb ((λ kv, (kv.1, canon kv.2)) <$> m))
  | _ => v
  end.

Lemma key_leb_total {A} (a b : string * A) : key_leb a b = false → key_leb b a = true.
Proof. apply str_leb_total. Qed.
Lemma key_leb_trans {A} (a b c : string * A) :
  key_leb a b = true → key_leb b c = true → key_leb a c = true.
Proof. apply str_leb_trans. Qed.

(** Sorting by key commutes with a map of the values. *)
Lemma sort_by_values {A B} (f : A → B) (l : list (string * A)) :
  sort_by key_leb ((λ kv, (kv.1, f kv.2)) <$> l) = (λ kv, (kv.1, f kv.2)) <$> sort_by key_leb l.
Proof.
  assert (Hins : ∀ x k, insert_by key_leb (x.1, f x.2) ((λ kv, (kv.1, f kv.2)) <$> k) =
    (λ kv, (kv.1, f kv.2)) <$> insert_by key_leb x k).
  { intros x k. induction k as [|y k IH]; [done|]. rewrite fmap_cons. simpl.
    change (key_leb (x.1, f x.2) (y.1, f y.2)) with (key_leb x y).
    destruct (key_leb x y); [done|]. by rewrite IH. }
  induction l as [|x l IH]; [done|]. rewrite fmap_cons. simpl. by rewrite IH, Hins.
Qed.

Lemma sort_by_twice {A} (l : list (string * A)) :
  sort_by key_leb (sort_by key_leb l) = sort_by key_leb l.
Proof. apply sort_by_sorted_id, sort_by_sorted; [apply key_leb_total|apply key_leb_trans]. Qed.

Lemma canon_obj m : canon (JObj m) = JObj ((λ kv, (kv.1, canon kv.2)) <$> sort_by key_leb m).
Proof. simpl. by rewrite sort_by_values. Qed.
Lemma dumps_obj m : dumps (JObj m) =
  "{" +:+ (join_comma ((λ kv, member_text (kv.1, dumps kv.2)) <$> sort_by key_leb m) +:+ "}").
Proof. cbn [dumps]. rewrite sort_by_values, <-list_fmap_compose. done. Qed.

Lemma dumps_canon v : dumps (canon v) = dumps v.
Proof.
  induction v as [| | | | |l IH|m IH] using json_ind; try done.
  - cbn [canon dumps]. do 3 f_equal. rewrite <-list_fmap_compose. apply list_fmap_ext.
    intros i x Hx%list_elem_of_lookup_2. rewrite Forall_forall in IH. by apply IH.
  - rewrite canon_obj, !dumps_obj. do 3 f_equal. rewrite sort_by_values, sort_by_twice.
    rewrite <-list_fmap_compose. apply list_fmap_ext. intros i x Hx%list_elem_of_lookup_2.
    simpl. rewrite elem_of_sort_by in Hx. rewrite Forall_forall in IH. by rewrite IH.
Qed.

(** ** Reading strings back *)

Lemma scan_string_escape c X :
  scan_string (escape_char c X) = ('(t, r) ← scan_string X; Some (String c t, r)).
Proof.
  destruct c as [[] [] [] [] [] [] [] []]; try reflexivity;
    destruct X as [|? [|? [|? [|? [|? [|? ?]]]]]]; reflexivity.
Qed.

Lemma scan_string_text s rest : scan_string (escape_text s (String QUOTE rest)) = Some (s, rest).
Proof. induction s as [|c s IH]; [done|]. cbn [escape_text]. rewrite scan_string_escape, IH. done. Qed.

Lemma escape_char_app c X rest : escape_char c X +:+ rest = escape_char c (X +:+ rest).
Proof. unfold escape_char. repeat case_match; done. Qed.
Lemma escape_text_app s X rest : escape_text s X +:+ rest = escape_text s (X +:+ rest).
Proof. induction s as [|c s IH]; [done|]. cbn [escape_text]. by rewrite escape_char_app, IH. Qed.
Lemma quote_text_app s rest : quote_text s +:+ rest = String QUOTE (escape_text s (String QUOTE rest)).
Proof. unfold quote_text. cbn. by rewrite escape_text_app. Qed.

(** ** Reading numbers back *)

(** What may follow a number without being read as a part of it. *)
Definition number_end (s : string) : bool :=
  match s with
  | EmptyString => true
  | String c _ => is_char "," c || is_char "]" c || is_char "}" c
  end.

Lemma number_end_cases s : number_end s = true →
  s = "" ∨ ∃ c r, s = String c r ∧ is_digit c = false ∧ c ≠ "."%char ∧ c ≠ "e"%char ∧ c ≠ "E"%char ∧
    c ≠ "+"%char ∧ c ≠ "-"%char.
Proof.
  destruct s as [|c r]; [by left|]. intros H. right. exists c, r. simpl in H. unfold is_char in H.
  rewrite !orb_true_iff, !bool_decide_eq_true in H.
  destruct H as [[->| ->]| ->]; split_and!; done.
Qed.

Lemma span_digits_app s rest : number_end rest = true →
  span_digits (s +:+ rest) = let '(d, r) := span_digits s in (d, r +:+ rest).
Proof.
  intros Hr. induction s as [|c s IH]; simpl.
  - destruct (number_end_cases _ Hr) as [->|(c & r & -> & Hc & _)]; [done|]. simpl. by rewrite Hc.
  - destruct (is_digit c); [|done]. rewrite IH. by destruct (span_digits s).
Qed.

Lemma scan_int_app s rest d r : number_end rest = true →
  scan_int s = Some (d, r) → scan_int (s +:+ rest) = Some (d, r +:+ rest).
Proof.
  intros Hr. unfold scan_int. rewrite span_digits_app by done.
  destruct (span_digits s) as [[|c d'] r']; [done|]. case_bool_decide; intros [= <- <-]; [|done].
  by rewrite str_app_assoc.
Qed.

Lemma scan_frac_app s rest : number_end rest = true →
  scan_frac (s +:+ rest) = let '(f, r) := scan_frac s in (f, r +:+ rest).
Proof.
  intros Hr. destruct s as [|c s]; simpl.
  - destruct (number_end_cases _ Hr) as [->|(c & r & -> & _ & Hc & _)]; [done|]. simpl.
    by rewrite bool_decide_false.
  - case_bool_decide; [|done]. rewrite span_digits_app by done.
    destruct (span_digits s) as [d r]. by case_bool_decide.
Qed.

Lemma scan_exp_app s rest : number_end rest = true →
  scan_exp (s +:+ rest) = let '(f, r) := scan_exp s in (f, r +:+ rest).
Proof.
  intros Hr. destruct s as [|c s]; simpl.
  - destruct (number_end_cases _ Hr) as [->|(c & r & -> & _ & _ & H1 & H2 & _)]; [done|]. simpl.
    by rewrite !bool_decide_false by done.
  - destruct (_ || _); [|done]. destruct s as [|d s]; simpl.
    + destruct (number_end_cases _ Hr) as [->|(x & r & -> & Hx & _ & _ & _ & H1 & H2)]; [done|].
      cbn -[is_digit]. rewrite !bool_decide_false by done. simpl. by rewrite Hx.
    + destruct (_ || _).
      * rewrite span_digits_app by done. destruct (span_digits s) as [x r]. by case_bool_decide.
      * change (String d (s +:+ rest)) with (String d s +:+ rest). rewrite span_digits_app by done.
        destruct (span_digits (String d s)) as [x r]. by case_bool_decide.
Qed.

Section numbers.
Context (float_repr : string → string).

Lemma scan_number_app s rest v r : number_end rest = true →
  scan_number float_repr s = Some (v, r) → scan_number float_repr (s +:+ rest) = Some (v, r +:+ rest).
Proof.
  intros Hr. unfold scan_number.
  assert (Hm : ∀ t u, scan_minus s = (t, u) → is_Some (scan_int u) → scan_minus (s +:+ rest) = (t, u +:+ rest)).
  { destruct s as [|c s]; simpl; [intros t u [= <- <-] [? [=]]|].
    intros t u. case_bool_decide; by intros [= <- <-]. }
  destruct (scan_minus s) as [sign u].
  destruct (scan_int u) as [[d x]|] eqn:Hi; [|done]. rewrite (Hm sign u) by (done || by eexists).
  rewrite (scan_int_app u rest d x) by done. simpl.
  rewrite scan_frac_app by done. destruct (scan_frac x) as [f y].
  rewrite scan_exp_app by done. destruct (scan_exp y) as [e z].
  repeat case_match; intros [= <- <-]; done.
Qed.
End numbers.

(** The decimal text of an integer. *)
Lemma digits_value_pretty (x : N) s acc : (0 < x)%N →
  ∃ k, 0 ≤ k ∧ digits_value_go acc (pretty_N_go x s) = digits_value_go (acc * 10 ^ k + Z.of_N x) s.
Proof.
  revert s. induction x as [x IH] using (well_founded_induction N.lt_wf_0). intros s Hx.
  rewrite pretty_N_go_step by done.
  assert (Hc : ∀ n, (n < 10)%N → Z.of_nat (nat_of_ascii (pretty_N_char n)) - 48 = Z.of_N n).
  { intros n Hn. destruct n as [|p]; [done|]. do 10 (destruct p as [p|p|]; try done; try lia). }
  assert (Hm : (x `mod` 10 < 10)%N) by (by apply N.mod_lt).
  pose proof (N.div_mod x 10 ltac:(done)) as Hdm.
  destruct (decide (x `div` 10 = 0)%N) as [H0|H0].
  - rewrite H0, pretty_N_go_0. exists 1. split; [lia|]. simpl. rewrite Hc by done. f_equal. lia.
  - destruct (IH (x `div` 10)%N) with (s := String (pretty_N_char (x `mod` 10)) s) as (k & Hk & ->);
      [apply N.div_lt; lia|lia|].
    exists (k + 1). split; [lia|]. simpl. rewrite Hc by done. f_equal.
    rewrite Z.pow_add_r by lia. lia.
Qed.

Lemma span_digits_all d : str_forallb is_digit d = true → span_digits d = (d, "").
Proof.
  induction d as [|c d IH]; [done|]. simpl. intros [-> Hd]%andb_true_iff. by rewrite IH.
Qed.

Lemma pretty_positive (x : N) : (0 < x)%N →
  scan_int (pretty x) = Some (pretty x, "") ∧ digits_value (pretty x) = Z.of_N x ∧ pretty x ≠ "" ∧
  ∀ c r, pretty x = String c r → is_digit c = true.
Proof.
  intros Hx. assert (Hp : pretty x = pretty_N_go x "").
  { unfold pretty, pretty_N. case_decide; [lia|done]. }
  rewrite Hp. destruct (pretty_go_spec x "" Hx) as (t & Ht & Hd & (c & t' & Hc & Hne) & _).
  rewrite str_app_nil_r in Ht. rewrite Ht. split_and!.
  - unfold scan_int. rewrite span_digits_all by done. rewrite Hc. by rewrite bool_decide_false.
  - unfold digits_value. rewrite <-Ht. destruct (digits_value_pretty x "" 0 Hx) as (k & _ & ->). simpl. lia.
  - by rewrite Hc.
  - intros c' r' Hcr. rewrite Hcr in Hd. simpl in Hd. by apply andb_true_iff in Hd as [? _].
Qed.

(** ** Reading consumes text, so its fuel is enough *)

Lemma skip_space_length s : (String.length (skip_space s) ≤ String.length s)%nat.
Proof. induction s as [|c s IH]; simpl; [done|]. destruct (is_json_space c); simpl; lia. Qed.

Lemma scan_string_length_le n : ∀ s t r, (String.length s ≤ n)%nat →
  scan_string s = Some (t, r) → (String.length r < String.length s)%nat.
Proof.
  induction n as [|n IH]; intros [|c s] t r Hn H; simpl in Hn; try lia; try done.
  simpl in H. case_bool_decide; [by simplify_eq/=; lia|]. case_bool_decide.
  - destruct s as [|e s]; [done|]. simpl in Hn. case_bool_decide.
    + destruct s as [|x1 [|x2 [|x3 [|x4 s]]]]; try done. simpl in Hn.
      assert (Hh : ∃ h, hex4 x1 x2 x3 x4 = Some h) by (by apply bind_Some in H as (h & ? & _); exists h).
      destruct Hh as [h Hh]. rewrite Hh in H. cbn -[scan_string hex4] in H.
      assert (Ha : ('(t0, r0) ← scan_string s; Some (utf8 h t0, r0)) = Some (t, r) →
        (String.length r < S (S (S (S (S (S (String.length s)))))))%nat).
      { destruct (scan_string s) as [[t0 r0]|] eqn:Hs; [|done]. intros [= _ <-].
        apply IH in Hs; lia. }
      destruct s as [|b [|u [|y1 [|y2 [|y3 [|y4 s]]]]]]; try by apply Ha.
      destruct (_ && _); [|by apply Ha]. destruct (hex4 y1 y2 y3 y4) as [lo|]; [|by apply Ha].
      destruct (is_low lo); [|by apply Ha]. simpl in *.
      destruct (scan_string s) as [[t0 r0]|] eqn:Hs; [|done]. injection H as _ <-. apply IH in Hs; lia.
    + destruct (simple_escape e); [|done]. simpl in H.
      destruct (scan_string s) as [[t0 r0]|] eqn:Hs; [|done]. injection H as _ <-.
      apply IH in Hs; simpl; lia.
  - destruct (_ <? _)%nat; [done|]. destruct (scan_string s) as [[t0 r0]|] eqn:Hs; [|done].
    injection H as _ <-. apply IH in Hs; simpl; lia.
Qed.
Lemma scan_string_length s t r : scan_string s = Some (t, r) → (String.length r < String.length s)%nat.
Proof. by apply scan_string_length_le with (n := String.length s). Qed.

Lemma span_digits_length s : let '(d, r) := span_digits s in
  (String.length s = String.length d + String.length r)%nat.
Proof.
  induction s as [|c s IH]; [done|]. simpl. destruct (is_digit c); [|done].
  destruct (span_digits s). simpl. lia.
Qed.

Lemma scan_number_length fr s v r : scan_number fr s = Some (v, r) →
  (String.length r < String.length s)%nat.
Proof.
  unfold scan_number. destruct (scan_minus s) as [sign u] eqn:Hm.
  assert (Hu : (String.length u ≤ String.length s)%nat).
  { destruct s as [|c s]; simpl in Hm; [by injection Hm as _ <-|].
    case_bool_decide; injection Hm as _ <-; simpl; lia. }
  destruct (scan_int u) as [[d x]|] eqn:Hi; [|done]. simpl.
  assert (Hx : (String.length x < String.length u)%nat).
  { unfold scan_int in Hi. pose proof (span_digits_length u) as Hl. destruct (span_digits u) as [[|c d'] y]; [done|].
    case_bool_decide; injection Hi as _ <-; simpl in Hl; rewrite ?str_length_app; lia. }
  assert (Hf : let '(f, y) := scan_frac x in (String.length y ≤ String.length x)%nat).
  { destruct x as [|c x]; [simpl; lia|]. simpl. case_bool_decide; [|simpl; lia].
    pose proof (span_digits_length x). destruct (span_digits x). case_bool_decide; simpl; lia. }
  destruct (scan_frac x) as [f y].
  assert (He : let '(e, z) := scan_exp y in (String.length z ≤ String.length y)%nat).
  { destruct y as [|c y]; [simpl; lia|]. simpl. destruct (_ || _); [|simpl; lia].
    assert (Hs : let '(sign', y') := match y with
      | String d r => if bool_decide (d = "+"%char) || bool_decide (d = "-"%char)
                      then (String d EmptyString, r) else (EmptyString, y)
      | EmptyString => (EmptyString, y)
      end in (String.length y' ≤ String.length y)%nat).
    { destruct y as [|d0 y]; [simpl; lia|]. destruct (_ || _); simpl; lia. }
    destruct (match y with String d r => _ | EmptyString => _ end) as [sign' y'].
    pose proof (span_digits_length y'). destruct (span_digits y'). case_bool_decide; simpl; lia. }
  destruct (scan_exp y) as [e z]. repeat case_match; intros [= _ <-]; lia.
Qed.

Lemma m_lit_length t s r : r ∈ m_lit t s → (String.length s = String.length t + String.length r)%nat.
Proof.
  revert s. induction t as [|c t IH]; intros s; simpl; [by intros ->%list_elem_of_singleton|].
  destruct s as [|d s]; [by intros ?%elem_of_nil|]. case_bool_decide; [|by intros ?%elem_of_nil].
  intros Hr. simpl. by rewrite (IH s Hr).
Qed.
Lemma scan_literal_length t v s v' r : t ≠ "" → scan_literal t v s = Some (v', r) →
  (String.length r < String.length s)%nat.
Proof.
  intros Ht. unfold scan_literal. destruct (m_lit t s) as [|x [|? ?]] eqn:Hm; try done.
  intros [= _ <-]. pose proof (m_lit_length t s x) as Hl. rewrite Hl by (rewrite Hm; by left).
  destruct t; [done|simpl; lia].
Qed.

Section fuel.
Context (float_repr : string → string).
Notation value := (parse_value float_repr).
Notation members := (parse_members float_repr).
Notation items := (parse_items float_repr).

Lemma parse_consumes fuel :
  (∀ s v r, value fuel s = Some (v, r) → (String.length r < String.length s)%nat) ∧
  (∀ s m r, members fuel s = Some (m, r) → (String.length r < String.length s)%nat) ∧
  (∀ s l r, items fuel s = Some (l, r) → (String.length r < String.length s)%nat).
Proof.
  induction fuel as [|fuel (IHv & IHm & IHi)]; [done|]. split_and!.
  - intros [|c s] v r H; [done|]. cbn [parse_value] in H.
    pose proof (skip_space_length s) as Hsk.
    case_bool_decide.
    { destruct (scan_string s) as [[t x]|] eqn:Hs; [|done]. simpl in H. simplify_eq/=.
      apply scan_string_length in Hs. simpl. lia. }
    case_bool_decide.
    { destruct (skip_space s) as [|d x]; [done|]. simpl in Hsk. case_bool_decide; [by simplify_eq/=; lia|].
      destruct (members fuel (String d x)) as [[m y]|] eqn:Hm; [|done]. simpl in H. simplify_eq/=.
      apply IHm in Hm. simpl in Hm. lia. }
    case_bool_decide.
    { destruct (skip_space s) as [|d x]; [done|]. simpl in Hsk. case_bool_decide; [by simplify_eq/=; lia|].
      destruct (items fuel (String d x)) as [[m y]|] eqn:Hm; [|done]. simpl in H. simplify_eq/=.
      apply IHi in Hm. simpl in Hm. lia. }
    repeat (case_bool_decide; [by eapply scan_literal_length in H|]).
    by eapply scan_number_length.
  - intros [|q s] m r H; [done|]. cbn [parse_members] in H. case_bool_decide; [|done].
    destruct (scan_string s) as [[k x]|] eqn:Hs; [|done]. apply scan_string_length in Hs. simpl in H.
    pose proof (skip_space_length x). destruct (skip_space x) as [|c y]; [done|]. case_bool_decide; [|done].
    pose proof (skip_space_length y). destruct (value fuel (skip_space y)) as [[v z]|] eqn:Hv; [|done].
    apply IHv in Hv. simpl in *. pose proof (skip_space_length z). destruct (skip_space z) as [|d w]; [done|].
    simpl in *. case_bool_decide; [simplify_eq; lia|]. case_bool_decide; [|done].
    pose proof (skip_space_length w). destruct (members fuel (skip_space w)) as [[m' u]|] eqn:Hm; [|done].
    apply IHm in Hm. simpl in H. simplify_eq. lia.
  - intros s l r H. cbn [parse_items] in H. destruct (value fuel s) as [[v z]|] eqn:Hv; [|done].
    apply IHv in Hv. simpl in *. pose proof (skip_space_length z). destruct (skip_space z) as [|d w]; [done|].
    simpl in *. case_bool_decide; [simplify_eq; lia|]. case_bool_decide; [|done].
    pose proof (skip_space_length w). destruct (items fuel (skip_space w)) as [[m' u]|] eqn:Hm; [|done].
    apply IHi in Hm. simpl in H. simplify_eq. lia.
Qed.

Lemma parse_enough n :
  (∀ s f f', (String.length s ≤ n)%nat → (2 * n + 1 ≤ f)%nat → (2 * n + 1 ≤ f')%nat →
     value f s = value f' s) ∧
  (∀ s f f', (String.length s ≤ n)%nat → (2 * n + 1 ≤ f)%nat → (2 * n + 1 ≤ f')%nat →
     members f s = members f' s) ∧
  (∀ s f f', (String.length s ≤ n)%nat → (2 * n + 2 ≤ f)%nat → (2 * n + 2 ≤ f')%nat →
     items f s = items f' s).
Proof.
  induction n as [|n (IHv & IHm & IHi)].
  { split_and!; intros [|c s] [|f] [|f'] Hl Hf Hf'; simpl in *; try lia; try done.
    destruct f, f'; try lia. done. }
  assert (Hv : ∀ s f f', (String.length s ≤ S n)%nat → (2 * S n + 1 ≤ f)%nat → (2 * S n + 1 ≤ f')%nat →
    value f s = value f' s).
  { intros [|c s] [|f] [|f'] Hl Hf Hf'; try lia; [done|]. cbn [parse_value]. simpl in Hl.
    pose proof (skip_space_length s) as Hsk.
    case_bool_decide; [done|]. case_bool_decide.
    { destruct (skip_space s) as [|d x]; [done|]. rewrite (IHm (String d x) f f') by (simpl in *; lia). done. }
    case_bool_decide; [|done].
    destruct (skip_space s) as [|d x]; [done|]. rewrite (IHi (String d x) f f') by (simpl in *; lia). done. }
  split_and!; [done| |].
  - intros [|q s] [|f] [|f'] Hl Hf Hf'; try lia; [done|]. cbn [parse_members]. simpl in Hl.
    case_bool_decide; [|done]. destruct (scan_string s) as [[k x]|] eqn:Hs; [|done].
    apply scan_string_length in Hs. simpl. pose proof (skip_space_length x).
    destruct (skip_space x) as [|c y]; [done|]. case_bool_decide; [|done]. simpl in *.
    pose proof (skip_space_length y). rewrite (IHv (skip_space y) f f') by lia.
    destruct (value f' (skip_space y)) as [[v z]|] eqn:E; [|done]. simpl.
    apply (proj1 (parse_consumes f')) in E. pose proof (skip_space_length z).
    destruct (skip_space z) as [|d w]; [done|]. case_bool_decide; [done|]. case_bool_decide; [|done].
    simpl in *. pose proof (skip_space_length w). rewrite (IHm (skip_space w) f f') by lia. done.
  - intros s [|f] [|f'] Hl Hf Hf'; try lia. cbn [parse_items].
    rewrite (Hv s f f') by lia. destruct (value f' s) as [[v z]|] eqn:E; [|done]. simpl.
    apply (proj1 (parse_consumes f')) in E. pose proof (skip_space_length z).
    destruct (skip_space z) as [|d w]; [done|]. case_bool_decide; [done|]. case_bool_decide; [|done].
    simpl in *. pose proof (skip_space_length w). rewrite (IHi (skip_space w) f f') by lia. done.
Qed.

(** More fuel than [parse_fuel] reads the same. *)
Lemma parse_fuel_enough f s : (parse_fuel s ≤ f)%nat → value f s = value (parse_fuel s) s.
Proof.
  unfold parse_fuel. intros Hf. apply (proj1 (parse_enough (String.length s))); lia.
Qed.
End fuel.

(** ** The round trip *)

(** A property of every element, as a recursive definition can use it. *)
Section all_of.
Context {A : Type} (P : A → Prop).
Fixpoint all_of (l : list A) : Prop := match l with [] => True | x :: l => P x ∧ all_of l end.
Lemma all_of_Forall l : all_of l ↔ Forall P l.
Proof. induction l as [|x l IH]; simpl; [by rewrite Forall_nil|]. by rewrite Forall_cons, IH. Qed.
End all_of.

Lemma keyed_id {K A} `{EqDecision K} (f : A → K) l : NoDup (f <$> l) → keyed f l = l.
Proof.
  induction l as [|x l IH] using rev_ind; [done|]. rewrite fmap_app, keyed_snoc.
  intros (Hl & Hx & _)%NoDup_app. rewrite IH by done.
  assert (Hn : f x ∉ f <$> l) by (intros Hi; eapply Hx; [exact Hi|]; by left).
  clear IH Hl Hx. induction l as [|y l IH]; [done|]. rewrite fmap_cons in Hn. simpl.
  apply not_elem_of_cons in Hn as [H1 H2]. rewrite decide_False by done. by rewrite IH.
Qed.

Section round_trip.
Context (float_repr : string → string).
Notation value := (parse_value float_repr).
Notation members := (parse_members float_repr).
Notation items := (parse_items float_repr).

(** A value of the program: keys of an object are distinct, and a finite float is
    represented by the text that reads back as it. *)
Definition float_ok (s : string) : Prop :=
  float_finite s = true → scan_number float_repr s = Some (JFloat s, "").
Fixpoint json_ok (v : json) : Prop :=
  match v with
  | JFloat s => float_ok s
  | JList l => all_of json_ok l
  | JObj m => NoDup m.*1 ∧ all_of (λ kv, json_ok kv.2) m
  | _ => True
  end.
Fixpoint floats_finite (v : json) : bool :=
  match v with
  | JFloat s => float_finite s
  | JList l => forallb floats_finite l
  | JObj m => forallb (λ kv, floats_finite kv.2) m
  | _ => true
  end.
(** What can be printed and read back. *)
Definition printable (v : json) : Prop :=
  json_ok v ∧ floats_finite v = true ∧ ints_convert v = true.

Lemma printable_list l : printable (JList l) → Forall printable l.
Proof.
  intros (H1 & H2 & H3). cbn [json_ok floats_finite ints_convert] in *.
  rewrite all_of_Forall, Forall_forall in H1. rewrite forallb_forall in H2, H3.
  apply Forall_forall. intros x Hx. split_and!; [by apply H1|apply H2|apply H3]; by apply list_elem_of_In.
Qed.
Lemma printable_obj m : printable (JObj m) → NoDup m.*1 ∧ Forall (λ kv, printable kv.2) m.
Proof.
  intros ([Hn H1] & H2 & H3). cbn [json_ok floats_finite ints_convert] in *. split; [done|].
  rewrite all_of_Forall, Forall_forall in H1. rewrite forallb_forall in H2, H3.
  apply Forall_forall. intros x Hx. split_and!; [by apply H1|apply H2|apply H3]; by apply list_elem_of_In.
Qed.

Lemma scan_int_text n rest : number_end rest = true → (int_digits n <= MAX_INT_DIGITS)%nat →
  scan_number float_repr (int_text n +:+ rest) = Some (JInt n, rest).
Proof.
  intros Hr Hl. rewrite (scan_number_app float_repr (int_text n) rest (JInt n) ""); [done|done|].
  unfold int_digits, int_text in *. apply Nat.leb_le in Hl.
  assert (Hd : ∀ p, digits_value (pretty (N.pos p)) = Z.pos p ∧
    scan_int (pretty (N.pos p)) = Some (pretty (N.pos p), "") ∧
    scan_minus (pretty (N.pos p)) = ("", pretty (N.pos p))).
  { intros p. destruct (pretty_positive (N.pos p)) as (H1 & H2 & H3 & H4); [done|]. split_and!; [done|done|].
    destruct (pretty (N.pos p)) as [|c r]; [done|]. simpl. rewrite bool_decide_false; [done|].
    intros ->. specialize (H4 _ _ eq_refl). done. }
  destruct n as [|p|p]; [done| |].
  - change (pretty (Z.pos p)) with (pretty (N.pos p)). destruct (Hd p) as (Hv & Hi & Hm).
    unfold scan_number. rewrite Hm, Hi. simpl. change (Z.abs (Z.pos p)) with (Z.pos p) in Hl.
    change (pretty (Z.pos p)) with (pretty (N.pos p)) in Hl. rewrite Hl. by rewrite Hv.
  - change (pretty (Z.neg p)) with ("-" +:+ pretty (N.pos p)). destruct (Hd p) as (Hv & Hi & Hm).
    unfold scan_number. simpl. rewrite Hi. simpl. change (Z.abs (Z.neg p)) with (Z.pos p) in Hl.
    change (pretty (Z.pos p)) with (pretty (N.pos p)) in Hl. rewrite Hl. by rewrite Hv.
Qed.

(** A text that reads as a number starts like one. *)
Lemma scan_number_head s x : scan_number float_repr s = Some x →
  ∃ c r, s = String c r ∧ c ≠ QUOTE ∧ c ≠ "{"%char ∧ c ≠ "["%char ∧ c ≠ "n"%char ∧ c ≠ "t"%char ∧
    c ≠ "f"%char ∧ is_json_space c = false ∧ c ≠ "]"%char.
Proof.
  destruct s as [|c s]; [done|]. unfold scan_number. intros H. exists c, s. split; [done|].
  assert (Hc : is_digit c = true ∨ c = "-"%char).
  { destruct (decide (c = "-"%char)) as [|Hn]; [by right|]. left. cbn in H. rewrite bool_decide_false in H by done.
    destruct (scan_int (String c s)) as [[d r]|] eqn:Hi; [|done]. unfold scan_int in Hi. simpl in Hi.
    by destruct (is_digit c). }
  destruct Hc as [Hc| ->]; [|done]. split_and!; try by intros ->.
  unfold is_digit in Hc. rewrite bool_decide_eq_true in Hc. unfold is_json_space.
  repeat (destruct (_ =? _)%nat eqn:E; [apply Nat.eqb_eq in E; lia|clear E]). done.
Qed.

Lemma parse_number s rest v f : number_end rest = true →
  scan_number float_repr (s +:+ rest) = Some (v, rest) → value (S f) (s +:+ rest) = Some (v, rest).
Proof.
  intros Hr H. destruct (scan_number_head _ _ H) as (c & r & Hs & ? & ? & ? & ? & ? & ? & _ & _).
  rewrite Hs in *. cbn [parse_value]. by rewrite !bool_decide_false by done.
Qed.

(** What the text of a value starts with. *)
Lemma dumps_head v : printable v → ∃ c r, dumps v = String c r ∧ is_json_space c = false ∧ c ≠ "]"%char.
Proof.
  destruct v as [|[]|n|s|s|l|m]; intros (H1 & H2 & H3); try (eexists _, _; split; [reflexivity|done]).
  - simpl in H3. apply Nat.leb_le in H3.
    pose proof (scan_int_text n "" eq_refl H3) as Hn. rewrite str_app_nil_r in Hn.
    destruct (scan_number_head _ _ Hn) as (c & r & Hs & _ & _ & _ & _ & _ & _ & ? & ?). by exists c, r.
  - simpl in H1, H2. destruct (scan_number_head _ _ (H1 H2)) as (c & r & Hs & _ & _ & _ & _ & _ & _ & ? & ?).
    by exists c, r.
Qed.

Lemma skip_space_head c s : is_json_space c = false → skip_space (String c s) = String c s.
Proof. intros H. simpl. by rewrite H. Qed.

#[local] Arguments skip_space : simpl never.

Lemma skip_space_dumps v rest : printable v → skip_space (dumps v +:+ rest) = dumps v +:+ rest.
Proof. intros (c & r & -> & Hc & _)%dumps_head. by apply skip_space_head. Qed.

Lemma Forall_mp {A} (P Q : A → Prop) l : Forall (λ x, P x → Q x) l → Forall P l → Forall Q l.
Proof. induction 1; intros HP; inversion HP; subst; constructor; auto. Qed.

(** A value reads back from its text, whatever ends it. *)
Definition reads (v : json) : Prop :=
  ∃ f0, ∀ f rest, (f0 ≤ f)%nat → number_end rest = true →
    value f (dumps v +:+ rest) = Some (canon v, rest).

Lemma join_comma_cons s t l : join_comma (s :: t :: l) = s +:+ ("," +:+ join_comma (t :: l)).
Proof. done. Qed.

Lemma items_read l : l ≠ [] → Forall printable l → Forall reads l →
  ∃ f0, ∀ f rest, (f0 ≤ f)%nat →
    items f (join_comma (dumps <$> l) +:+ String "]" rest) = Some (canon <$> l, rest).
Proof.
  induction l as [|x l IH]; [done|]. intros _ [Hpx Hpl]%Forall_cons [[f1 Hx] Hl]%Forall_cons.
  destruct l as [|y l].
  - exists (S f1). intros [|f] rest Hf; [lia|]. cbn. rewrite Hx by (lia || done). done.
  - destruct IH as [f2 IH]; [done..|]. exists (S (f1 `max` f2)). intros [|f] rest Hf; [lia|].
    specialize (IH f rest ltac:(lia)). rewrite !fmap_cons, join_comma_cons, <-!str_app_assoc in *.
    assert (Hskip : ∀ X, skip_space (join_comma (dumps y :: (dumps <$> l)) +:+ X) =
      join_comma (dumps y :: (dumps <$> l)) +:+ X).
    { inversion Hpl as [|? ? Hpy _]; subst. intros X. destruct l; cbn [join_comma fmap list_fmap];
        rewrite <-?str_app_assoc; by apply skip_space_dumps. }
    generalize dependent (join_comma (dumps y :: (dumps <$> l))). intros J IH Hskip. cbn [parse_items].
    rewrite Hx by (lia || done). cbn -[fmap list_fmap].
    rewrite (skip_space_head ",") by done. cbn -[fmap list_fmap]. rewrite Hskip, IH. done.
Qed.

(** One member: its key, then what follows its value. *)
Lemma member_read k v f1 f X : printable v → (f1 ≤ f)%nat → number_end X = true →
  (∀ f rest, (f1 ≤ f)%nat → number_end rest = true → value f (dumps v +:+ rest) = Some (canon v, rest)) →
  members (S f) (member_text (k, dumps v) +:+ X) =
  match skip_space X with
  | String d r =>
      if bool_decide (d = "}"%char) then Some ([(k, canon v)], r)
      else if bool_decide (d = ","%char) then
        '(m, r) ← members f (skip_space r); Some ((k, canon v) :: m, r)
      else None
  | EmptyString => None
  end.
Proof.
  intros Hpv Hf HX Hv. unfold member_text. rewrite <-!str_app_assoc. cbn [fst snd].
  rewrite quote_text_app. cbn [parse_members]. rewrite bool_decide_true by done.
  rewrite scan_string_text. cbn -[dumps]. rewrite (skip_space_head ":") by done. cbn -[dumps].
  rewrite skip_space_dumps by done. rewrite Hv by (lia || done). done.
Qed.

Lemma members_read m : m ≠ [] → Forall (λ kv, reads kv.2) m → Forall (λ kv, printable kv.2) m →
  ∃ f0, ∀ f rest, (f0 ≤ f)%nat →
    members f (join_comma ((λ kv, member_text (kv.1, dumps kv.2)) <$> m) +:+ String "}" rest) =
    Some ((λ kv, (kv.1, canon kv.2)) <$> m, rest).
Proof.
  induction m as [|[k v] m IH]; [done|]. intros _ [[f1 Hv] Hm]%Forall_cons [Hpv Hpm]%Forall_cons.
  simpl in Hv, Hpv. destruct m as [|[k2 v2] m].
  - exists (S f1). intros [|f] rest Hf; [lia|]. cbn [fmap list_fmap join_comma fst snd].
    by rewrite (member_read k v f1) by (lia || done).
  - destruct IH as [f2 IH]; [done..|]. exists (S (f1 `max` f2)). intros [|f] rest Hf; [lia|].
    specialize (IH f rest ltac:(lia)). rewrite !fmap_cons, join_comma_cons, <-!str_app_assoc in *.
    cbn [fst snd] in *. rewrite (member_read k v f1) by (lia || done).
    set (l := (λ kv, member_text (kv.1, dumps kv.2)) <$> m) in *.
    assert (Hskip : ∀ X, skip_space (join_comma (member_text (k2, dumps v2) :: l) +:+ X) =
      join_comma (member_text (k2, dumps v2) :: l) +:+ X) by (intros X; by destruct l).
    generalize dependent (join_comma (member_text (k2, dumps v2) :: l)). intros J IH Hskip.
    cbn -[fmap list_fmap]. rewrite (skip_space_head ",") by done. cbn -[fmap list_fmap].
    rewrite Hskip, IH. done.
Qed.

Lemma value_reads v : printable v → reads v.
Proof.
  induction v as [|b|n|s|s|l IH|m IH] using json_ind; intros Hp.
  - exists 1%nat. by intros [|f] rest Hf _; [lia|].
  - exists 1%nat. destruct b; by intros [|f] rest Hf _; [lia|].
  - exists 1%nat. intros [|f] rest Hf Hr; [lia|]. apply parse_number; [done|].
    apply scan_int_text; [done|]. apply Nat.leb_le. by destruct Hp as (_ & _ & ?).
  - exists 1%nat. intros [|f] rest Hf Hr; [lia|]. apply parse_number; [done|].
    destruct Hp as (H1 & H2 & _). apply (scan_number_app _ s rest (JFloat s) ""); [done|by apply H1].
  - exists 1%nat. intros [|f] rest Hf _; [lia|]. cbn [dumps]. rewrite quote_text_app. cbn [parse_value].
    rewrite bool_decide_true by done. by rewrite scan_string_text.
  - destruct l as [|x l].
    { exists 1%nat. by intros [|f] rest Hf _; [lia|]. }
    pose proof (printable_list _ Hp) as Hpl.
    destruct (items_read (x :: l)) as [f0 Hi]; [done|done|by apply (Forall_mp printable)|].
    exists (S f0). intros [|f] rest Hf _; [lia|]. cbn [dumps]. rewrite <-!str_app_assoc.
    destruct (dumps_head x) as (c & r & Hc & Hs & Hb); [by inversion Hpl|].
    assert (Hh : ∃ r', join_comma (dumps <$> x :: l) +:+ ("]" +:+ rest) = String c r').
    { rewrite fmap_cons, Hc. destruct (dumps <$> l); cbn; by eexists. }
    destruct Hh as [r' Hh]. specialize (Hi f rest ltac:(lia)).
    change ("]" +:+ rest) with (String "]" rest) in *. rewrite Hh in *.
    change ("[" +:+ String c r') with (String "[" (String c r')). cbn [parse_value].
    rewrite bool_decide_false, bool_decide_false, bool_decide_true by done.
    rewrite skip_space_head by done. rewrite bool_decide_false by done. by rewrite Hi.
  - destruct (printable_obj _ Hp) as [Hn Hpm]. unfold reads. rewrite canon_obj.
    destruct (decide (m = [])) as [->|Hne].
    { exists 1%nat. by intros [|f] rest Hf _; [lia|]. }
    set (m' := sort_by key_leb m). assert (Hpe : m' ≡ₚ m) by apply sort_by_perm.
    assert (Hne' : m' ≠ []) by (intros E; rewrite E in Hpe; by apply Permutation_nil_l in Hpe).
    assert (Hpm' : Forall (λ kv, printable kv.2) m') by by rewrite Hpe.
    destruct (members_read m') as [f0 Hi]; [done|rewrite Hpe; by apply (Forall_mp (λ kv, printable kv.2))|done|].
    exists (S f0). intros [|f] rest Hf _; [lia|]. rewrite dumps_obj. fold m'. rewrite <-!str_app_assoc.
    specialize (Hi f rest ltac:(lia)). change ("}" +:+ rest) with (String "}" rest) in *.
    assert (Hh : ∃ r', join_comma ((λ kv, member_text (kv.1, dumps kv.2)) <$> m') +:+ String "}" rest =
      String QUOTE r').
    { destruct m' as [|kv [|kv2 m2]]; [done|by eexists|by eexists]. }
    destruct Hh as [r' Hh]. rewrite Hh in *.
    change ("{" +:+ String QUOTE r') with (String "{" (String QUOTE r')). cbn [parse_value].
    rewrite bool_decide_false, bool_decide_true by done.
    rewrite skip_space_head by done. rewrite bool_decide_false by done. rewrite Hi. simpl.
    unfold dict_of. rewrite keyed_id; [done|]. rewrite <-list_fmap_compose. simpl.
    change (NoDup (fst <$> m')). by rewrite Hpe.
Qed.

Lemma loads_dumps v : printable v → loads float_repr (dumps v) = Some (canon v).
Proof.
  intros Hp. destruct (value_reads v Hp) as [f0 Hv]. unfold loads.
  pose proof (skip_space_dumps v "" Hp) as Hs. rewrite str_app_nil_r in Hs. rewrite Hs.
  rewrite <-(parse_fuel_enough float_repr (f0 `max` parse_fuel (dumps v))) by lia.
  specialize (Hv (f0 `max` parse_fuel (dumps v))%nat "" ltac:(lia) eq_refl).
  rewrite str_app_nil_r in Hv. rewrite Hv. done.
Qed.
End round_trip.

(** ** The bounds, declaratively *)

Fixpoint json_nodes (v : json) : Z :=
  match v with
  | JList l => 1 + foldr (λ x n, json_nodes x + n) 0 l
  | JObj m => 1 + foldr (λ kv n, json_nodes kv.2 + n) 0 m
  | _ => 1
  end.

Definition text_fits (maximum : nat) (s : string) : bool :=
  negb (has_nul s) && negb (has_surrogate s) && (String.length s <=? maximum)%nat.
Fixpoint within (depth : nat) (v : json) : bool :=
  (depth <=? MAX_JSON_DEPTH)%nat &&
  match v with
  | JStr s => text_fits MAX_STRING_BYTES s
  | JFloat s => float_finite s
  | JList l => (length l <=? MAX_LIST_ITEMS)%nat && forallb (within (S depth)) l
  | JObj m => (length m <=? MAX_OBJECT_MEMBERS)%nat &&
      forallb (λ kv, text_fits MAX_KEY_BYTES kv.1 && within (S depth) kv.2) m
  | _ => true
  end.

(** An outcome decided by a condition and a cost. *)
Definition budgeted {B} (o : outcome (B * Z)) (y : B) (ok : bool) (total : Z) : Prop :=
  match o with
  | Ok (y', n) => y' = y ∧ n = total ∧ ok = true ∧ total ≤ MAX_TOTAL_NODES
  | Raise e => exn_cls e = EValueError ∧ ¬ (ok = true ∧ total ≤ MAX_TOTAL_NODES)
  end.

Lemma mapM_budget_spec {A B} (f : A → Z → outcome (B * Z)) (g : A → B) (cost : A → Z) (ok : A → bool) l :
  (∀ x, x ∈ l → 0 ≤ cost x ∧ ∀ n, budgeted (f x n) (g x) (ok x) (n + cost x)) →
  ∀ n, n ≤ MAX_TOTAL_NODES →
  budgeted (mapM_budget f l n) (g <$> l) (forallb ok l) (n + foldr (λ x s, cost x + s) 0 l).
Proof.
  induction l as [|x l IH]; intros H n Hn; [by simpl; rewrite Z.add_0_r|].
  destruct (H x ltac:(by left)) as [Hc Hx]. specialize (Hx n). rewrite fmap_cons. simpl.
  assert (Hsum : 0 ≤ foldr (λ x s, cost x + s) 0 l).
  { assert (Hl : ∀ x, x ∈ l → 0 ≤ cost x) by (intros y Hy; apply H; by right).
    clear -Hl. induction l as [|y l IH]; [done|]. simpl. pose proof (Hl y ltac:(by left)).
    pose proof (IH (λ z Hz, Hl z ltac:(by right))). lia. }
  destruct (f x n) as [[y n1]|e]; simpl in Hx |- *.
  - destruct Hx as (-> & -> & -> & Hle). specialize (IH (λ z Hz, H z ltac:(by right)) (n + cost x) Hle).
    rewrite Z.add_assoc. destruct (mapM_budget f l (n + cost x)) as [[k n2]|e]; [|done]. simpl in *.
    destruct IH as (-> & -> & -> & ?). done.
  - destruct Hx as [He Hx]. split; [done|]. intros [[??]%andb_true_iff ?]. apply Hx. split; [done|lia].
Qed.

Lemma guard_budget {B} (b : bool) m (o : outcome (B * Z)) y ok total :
  (b = true → budgeted o y ok total) →
  budgeted (guard_that b EValueError m ≫= λ _, o) y (b && ok) total.
Proof.
  destruct b; simpl; [intros H; by apply H|]. intros _. split; [done|]. by intros [? _].
Qed.
Lemma guard_budget_total {B} (b : bool) m (o : outcome (B * Z)) y ok total :
  (b = false → MAX_TOTAL_NODES < total) → (b = true → budgeted o y ok total) →
  budgeted (guard_that b EValueError m ≫= λ _, o) y ok total.
Proof.
  destruct b; simpl; [intros _ H; by apply H|]. intros H _. specialize (H eq_refl). split; [done|]. lia.
Qed.

Lemma encoded_size_budget {B} s maximum (o : outcome (B * Z)) y ok total :
  budgeted o y ok total →
  budgeted (encoded_size s maximum ≫= λ _, o) y (negb (has_surrogate s) && (String.length s <=? maximum)%nat && ok) total.
Proof.
  intros Ho. unfold encoded_size. destruct (negb (has_surrogate s)); simpl; [|split; [done|by intros [? _]]].
  destruct (_ <=? _)%nat; simpl; [done|split; [done|by intros [? _]]].
Qed.

Lemma json_nodes_pos v : 1 ≤ json_nodes v.
Proof.
  induction v as [| | | | |l IH|m IH] using json_ind; simpl; try lia.
  - assert (0 ≤ foldr (λ x n, json_nodes x + n) 0 l); [|lia]. induction IH; simpl; lia.
  - assert (0 ≤ foldr (λ kv n, json_nodes kv.2 + n) 0 m); [|lia]. induction IH; simpl; lia.
Qed.

(** The normal form is the value itself, within the bounds. *)
Lemma normalize_spec v : ∀ depth n,
  budgeted (normalize_json depth v n) v (within depth v) (n + json_nodes v).
Proof.
  induction v as [|b|k|s|s|l IH|m IH] using json_ind; intros depth n; cbn [normalize_json within json_nodes];
    apply guard_budget; intros _; (apply guard_budget_total;
    [intros ?%Z.leb_gt; try lia|intros Hn%Z.leb_le]).
  - done.
  - done.
  - done.
  - destruct (float_finite s); simpl; [done|]. split; [done|by intros [? _]].
  - unfold text_fits. rewrite <-!andb_assoc. apply guard_budget. intros _.
    rewrite <-(andb_true_r (_ <=? _)%nat), andb_assoc. by apply encoded_size_budget.
  - pose proof (json_nodes_pos (JList l)). simpl in *. lia.
  - apply guard_budget. intros _. rewrite Z.add_assoc.
    pose proof (mapM_budget_spec (normalize_json (S depth)) id json_nodes (within (S depth)) l) as Hs.
    assert (Hl : ∀ x, x ∈ l → 0 ≤ json_nodes x ∧ ∀ n,
      budgeted (normalize_json (S depth) x n) (id x) (within (S depth) x) (n + json_nodes x)).
    { intros x Hx. rewrite Forall_forall in IH. pose proof (json_nodes_pos x). split; [lia|]. by apply IH. }
    specialize (Hs Hl (n + 1) ltac:(lia)). rewrite list_fmap_id in Hs.
    destruct (mapM_budget _ l (n + 1)) as [[k n']|e]; simpl in *; [|done]. by destruct Hs as (-> & ?).
  - pose proof (json_nodes_pos (JObj m)). simpl in *. lia.
  - apply guard_budget. intros _. rewrite Z.add_assoc.
    set (f := λ (kv : string * json) (nodes : Z), check_key kv.1 ≫= λ _,
      '(x, nodes) ← normalize_json (S depth) kv.2 nodes; Ok ((kv.1, x), nodes)).
    pose proof (mapM_budget_spec f id (λ kv, json_nodes kv.2)
      (λ kv, text_fits MAX_KEY_BYTES kv.1 && within (S depth) kv.2) m) as Hs.
    assert (Hl : ∀ kv, kv ∈ m → 0 ≤ json_nodes kv.2 ∧ ∀ n, budgeted (f kv n) (id kv)
      (text_fits MAX_KEY_BYTES kv.1 && within (S depth) kv.2) (n + json_nodes kv.2)).
    { intros [k x] Hx. rewrite Forall_forall in IH. pose proof (json_nodes_pos x). simpl. split; [lia|].
      intros n'. unfold f, check_key, text_fits. simpl.
      destruct (negb (has_nul k)); simpl; [|split; [done|by intros [? _]]].
      apply encoded_size_budget. pose proof (IH _ Hx (S depth) n') as Hv. simpl in Hv.
      destruct (normalize_json (S depth) x n') as [[y n2]|e]; simpl in *; [|done]. by destruct Hv as (-> & ?). }
    specialize (Hs Hl (n + 1) ltac:(lia)). rewrite list_fmap_id in Hs.
    destruct (mapM_budget f m (n + 1)) as [[k n']|e]; simpl in *; [|done]. by destruct Hs as (-> & ?).
Qed.

(** ** The canonical form keeps the bounds *)

Lemma foldr_sum_perm {A} (f : A → Z) l k :
  l ≡ₚ k → foldr (λ x n, f x + n) 0 l = foldr (λ x n, f x + n) 0 k.
Proof. induction 1; simpl; lia. Qed.
Lemma foldr_sum_ext {A} (f g : A → Z) l :
  Forall (λ x, f x = g x) l → foldr (λ x n, f x + n) 0 l = foldr (λ x n, g x + n) 0 l.
Proof. induction 1; simpl; lia. Qed.
Lemma foldr_sum_fmap {A B} (f : B → Z) (h : A → B) l :
  foldr (λ x n, f x + n) 0 (h <$> l) = foldr (λ x n, f (h x) + n) 0 l.
Proof. induction l as [|x l IH]; [done|]. rewrite fmap_cons. simpl. by rewrite IH. Qed.
Lemma forallb_fmap {A B} (p : B → bool) (h : A → B) l : forallb p (h <$> l) = forallb (λ x, p (h x)) l.
Proof. induction l as [|x l IH]; [done|]. rewrite fmap_cons. simpl. by rewrite IH. Qed.
Lemma forallb_ext_Forall {A} (p q : A → bool) l : Forall (λ x, p x = q x) l → forallb p l = forallb q l.
Proof. induction 1; simpl; congruence. Qed.

Lemma json_nodes_canon v : json_nodes (canon v) = json_nodes v.
Proof.
  induction v as [| | | | |l IH|m IH] using json_ind; try done; simpl; f_equal.
  - rewrite foldr_sum_fmap. by apply foldr_sum_ext.
  - rewrite (foldr_sum_perm (λ kv, json_nodes kv.2) _ _ (sort_by_perm _ _)), foldr_sum_fmap.
    by apply (foldr_sum_ext (λ kv, json_nodes (canon kv.2)) (λ kv, json_nodes kv.2)).
Qed.
Lemma ints_convert_canon v : ints_convert (canon v) = ints_convert v.
Proof.
  induction v as [| | | | |l IH|m IH] using json_ind; try done; simpl.
  - rewrite forallb_fmap. by apply forallb_ext_Forall.
  - rewrite (forallb_perm _ _ _ (sort_by_perm _ _)), forallb_fmap. by apply forallb_ext_Forall.
Qed.
Lemma within_canon v : ∀ depth, within depth (canon v) = within depth v.
Proof.
  induction v as [| | | | |l IH|m IH] using json_ind; intros depth; try done; simpl; f_equal.
  - rewrite length_fmap, forallb_fmap. f_equal. apply forallb_ext_Forall.
    eapply Forall_impl; [exact IH|]. done.
  - rewrite (Permutation_length (sort_by_perm _ _)), length_fmap. f_equal.
    rewrite (forallb_perm _ _ _ (sort_by_perm _ _)), forallb_fmap. apply forallb_ext_Forall.
    eapply Forall_impl; [exact IH|]. simpl. intros kv ->. done.
Qed.
Lemma is_object_canon v : is_object (canon v) = is_object v.
Proof. by destruct v. Qed.

Lemma within_finite v : ∀ depth, within depth v = true → floats_finite v = true.
Proof.
  induction v as [| | | | |l IH|m IH] using json_ind; intros depth; try done; simpl;
    rewrite !andb_true_iff; intros (_ & H); [done| |].
  all: destruct H as [_ H]; rewrite forallb_forall in H |- *; rewrite Forall_forall in IH;
    intros x Hx; specialize (H x Hx); apply list_elem_of_In in Hx.
  - by eapply IH.
  - apply andb_true_iff in H as [_ H]. by eapply IH.
Qed.

(** ** Properties *)

(** The values a payload may hold. *)
Definition accepted (v : json) : Prop :=
  is_object v = true ∧ within 0 v = true ∧ json_nodes v ≤ MAX_TOTAL_NODES ∧ ints_convert v = true ∧
  encoded_size (dumps v) MAX_SERIALIZED_BYTES = Ok ().

Lemma encoded_size_cases s n : encoded_size s n = Ok () ∨
  ∃ e, encoded_size s n = Raise e ∧ exn_cls e = EValueError.
Proof.
  unfold encoded_size. destruct (negb _); simpl; [|right; by eexists].
  destruct (_ <=? _)%nat; simpl; [by left|right; by eexists].
Qed.

(** The text of an accepted value is accepted. *)
Lemma make_JsonObject_dumps fr v : json_ok fr v → accepted v →
  make_JsonObject fr (dumps v) = Ok (mk_JsonObject (dumps v)) ∧
  loads fr (dumps v) = Some (canon v).
Proof.
  intros Hok (Ho & Hw & Hn & Hi & Hs).
  assert (Hp : printable fr v) by (split_and!; [done|by eapply within_finite|done]).
  pose proof (loads_dumps fr v Hp) as Hl. split; [|done].
  unfold make_JsonObject. rewrite Hs. simpl. rewrite Hl.
  pose proof (normalize_spec (canon v) 0 0) as Hc.
  destruct (normalize_json 0 (canon v) 0) as [[x n]|e]; simpl in Hc.
  - destruct Hc as (-> & _). simpl. rewrite is_object_canon, Ho. simpl. unfold dumps_checked.
    rewrite ints_convert_canon, Hi. simpl. rewrite dumps_canon. by rewrite bool_decide_true.
  - destruct Hc as [_ []]. rewrite within_canon, json_nodes_canon. done.
Qed.

(** C33. A payload is accepted exactly within its bounds, and its canonical text is
    a faithful encoding: [from_value] succeeds if and only if the value is an
    object within the limits on depth, nodes, members, items, bytes and text - the
    validation of the text it printed never refuses it - and then [to_dict] reads
    back the value with its keys in order; two values with the same text are the
    same value up to the order of keys.  Otherwise it raises ValueError. *)
Theorem json_object_round_trip float_repr v : json_ok float_repr v →
  match from_value float_repr v with
  | Ok o => accepted v ∧ canonical_text o = dumps v ∧
      (∃ m, canon v = JObj m ∧ to_dict float_repr o = Ok m) ∧
      ∀ w, json_ok float_repr w → from_value float_repr w = Ok o → canon w = canon v
  | Raise e => exn_cls e = EValueError ∧ ¬ accepted v
  end.
Proof.
  intros Hok.
  assert (Hspec : ∀ v, json_ok float_repr v →
    accepted v ∧ from_value float_repr v = Ok (mk_JsonObject (dumps v)) ∨
    ¬ accepted v ∧ ∃ e, from_value float_repr v = Raise e ∧ exn_cls e = EValueError).
  { clear v Hok. intros v Hok. unfold from_value. pose proof (normalize_spec v 0 0) as Hn.
    destruct (normalize_json 0 v 0) as [[x n]|e]; simpl in Hn |- *.
    2: { right. split; [intros (_ & ? & ? & _); by apply Hn|]. exists e. by destruct Hn. }
    destruct Hn as (-> & _ & Hw & Hnodes).
    destruct (is_object v) eqn:Ho; simpl; [|right; split; [intros (? & _); congruence|by eexists]].
    unfold dumps_checked. destruct (ints_convert v) eqn:Hi; simpl;
      [|right; split; [intros (_ & _ & _ & ? & _); congruence|by eexists]].
    destruct (encoded_size_cases (dumps v) MAX_SERIALIZED_BYTES) as [Hs|(e & Hs & He)]; rewrite Hs; simpl.
    - left. split; [done|]. by apply make_JsonObject_dumps.
    - right. split; [intros (_ & _ & _ & _ & ?); congruence|by eexists]. }
  destruct (Hspec v Hok) as [[Ha ->]|[Ha (e & -> & He)]]; [|done].
  destruct (make_JsonObject_dumps float_repr v Hok Ha) as [_ Hl]. split_and!; [done|done| |].
  - pose proof (proj1 Ha) as Ho. destruct v as [| | | | | |m]; try done.
    eexists. split; [reflexivity|]. unfold to_dict. cbn [canonical_text]. rewrite Hl. done.
  - intros w Hw Hf. destruct (Hspec w Hw) as [[Haw Hfw]|[_ (e & Hfw & _)]]; [|congruence].
    rewrite Hfw in Hf. injection Hf as Hd.
    destruct (make_JsonObject_dumps float_repr w Hw Haw) as [_ Hlw]. rewrite Hd in Hlw. congruence.
Qed.

(** ** A payload *)

Definition demo_quote : json :=
  JObj [("symbol", JStr "AAPL"); ("bid_price", JStr "189.90"); ("ask_price", JStr "189.95");
        ("sizes", JList [JInt 3; JInt (-2); JFloat "1.5"; JNull; JBool true]); ("feed", JStr "iex")].
(** A float whose text is its representation. *)
Definition demo_float_repr (s : string) : string := s.

Example demo_quote_text : from_value demo_float_repr demo_quote = Ok (mk_JsonObject (dumps demo_quote)).
Proof. vm_compute. reflexivity. Qed.

Lemma json_object_round_trip_witness :
  ∃ o m, from_value demo_float_repr demo_quote = Ok o ∧ canon demo_quote = JObj m ∧
    to_dict demo_float_repr o = Ok m ∧ length m = 5%nat.
Proof.
  assert (Hok : json_ok demo_float_repr demo_quote).
  { split; [apply (bool_decide_unpack _); vm_compute; exact I|]. repeat split. }
  pose proof (json_object_round_trip demo_float_repr demo_quote Hok) as H.
  rewrite demo_quote_text in H. destruct H as (_ & _ & (m & Hm & Hd) & _).
  eexists _, m. split_and!; [exact demo_quote_text|exact Hm|exact Hd|]. injection Hm as <-. reflexivity.
Defined.
