(* ===== verification/Instants.v ===== *)
(** * Dates and instants as text: [domain/value_objects.py],
    [sources/adapters/records.py]

    Canonical dates and UTC timestamps, schema versions, and the provider
    timestamps that are accepted in four closed formats.  A digit is an ASCII
    digit; the year of a printed instant has four digits. *)

From S2P Require Import Prelude Text Calendar Json.
Local Open Scope Z_scope.

(** ** The proleptic Gregorian calendar *)

(** Year, month and day of a date; the year of the era starts in March. *)
Definition civil (d : Z) : Z * Z * Z :=
  let z := d + 719468 in
  let doe := z `mod` 146097 in
  let yoe := (doe - doe `div` 1460 + doe `div` 36524 - doe `div` 146096) `div` 365 in
  let doy := doe - (365 * yoe + yoe `div` 4 - yoe `div` 100) in
  let mp := (5 * doy + 2) `div` 153 in
  let m := if mp <? 10 then mp + 3 else mp - 9 in
  (yoe + z `div` 146097 * 400 + (if m <=? 2 then 1 else 0), m, doy - (153 * mp + 2) `div` 5 + 1).
Definition days_from_civil (y m d : Z) : Z :=
  let y := if m <=? 2 then y - 1 else y in
  let yoe := y `mod` 400 in
  let doy := (153 * (if m <=? 2 then m + 9 else m - 3) + 2) `div` 5 + d - 1 in
  y `div` 400 * 146097 + (yoe * 365 + yoe `div` 4 - yoe `div` 100 + doy) - 719468.

Definition is_leap (y : Z) : bool :=
  (y `mod` 4 =? 0) && (negb (y `mod` 100 =? 0) || (y `mod` 400 =? 0)).
Definition days_in_month (y m : Z) : Z :=
  if m =? 2 then if is_leap y then 29 else 28
  else if (m =? 4) || (m =? 6) || (m =? 9) || (m =? 11) then 30 else 31.

(** [datetime.date(y, m, d)] and [datetime(y, m, d, h, mi, s, us)] *)
Definition date_ok (y m d : Z) : bool :=
  (1 <=? y) && (y <=? 9999) && (1 <=? m) && (m <=? 12) && (1 <=? d) && (d <=? days_in_month y m).
Definition time_ok (h mi s us : Z) : bool :=
  (0 <=? h) && (h <=? 23) && (0 <=? mi) && (mi <=? 59) && (0 <=? s) && (s <=? 59) &&
  (0 <=? us) && (us <=? 999999).
Definition SECOND : Z := 1000000.
Definition instant (y m d h mi s us : Z) : Z :=
  days_from_civil y m d * DAY + h * HOUR + mi * MINUTE + s * SECOND + us.

(** ** Reading fields of digits *)

Fixpoint read_digits_go (n : nat) (acc : Z) (s : string) : option (Z * string) :=
  match n, s with
  | O, _ => Some (acc, s)
  | S n, String c s =>
      if is_digit c then read_digits_go n (10 * acc + (Z.of_nat (nat_of_ascii c) - 48)) s else None
  | S _, EmptyString => None
  end.
Definition read_digits (n : nat) (s : string) : option (Z * string) := read_digits_go n 0 s.
Definition expect (c : ascii) (s : string) : option string :=
  match s with
  | String d s => if bool_decide (d = c) then Some s else None
  | EmptyString => None
  end.

(** [YYYY-MM-DD] and [HH:MM:SS], and what follows. *)
Definition read_date (s : string) : option (Z * Z * Z * string) :=
  '(y, s) ← read_digits 4 s; s ← expect "-" s; '(m, s) ← read_digits 2 s; s ← expect "-" s;
  '(d, s) ← read_digits 2 s; Some (y, m, d, s).
Definition read_time (s : string) : option (Z * Z * Z * string) :=
  '(h, s) ← read_digits 2 s; s ← expect ":" s; '(mi, s) ← read_digits 2 s; s ← expect ":" s;
  '(x, s) ← read_digits 2 s; Some (h, mi, x, s).

(** ** [TradingDate] *)

Definition trading_date_text (d : Z) : string :=
  let '(y, m, x) := civil d in digits4 y +:+ ("-" +:+ (digits2 m +:+ ("-" +:+ digits2 x))).
Definition trading_date_of (s : string) : outcome Z :=
  match read_date s with
  | Some (y, m, d, "") =>
      guard_that (date_ok y m d) EValueError "TradingDate text must be a valid calendar date" ≫= λ _,
      Ok (days_from_civil y m d)
  | _ => raise EValueError "TradingDate text must use YYYY-MM-DD format"
  end.

(** ** [UtcTimestamp] *)

Definition digits6 (n : Z) : string := digits4 (n `div` 100) +:+ digits2 (n `mod` 100).
Definition timestamp_text (t : Z) : string :=
  let r := utc_time t in
  trading_date_text (utc_date t) +:+ ("T" +:+ (digits2 (r `div` HOUR) +:+ (":" +:+
  (digits2 ((r `mod` HOUR) `div` MINUTE) +:+ (":" +:+ (digits2 ((r `mod` MINUTE) `div` SECOND) +:+ ("." +:+
  (digits6 (r `mod` SECOND) +:+ "Z")))))))).
Definition read_timestamp (s : string) : option (Z * Z * Z * Z * Z * Z * Z) :=
  '(y, m, d, s) ← read_date s; s ← expect "T" s; '(h, mi, x, s) ← read_time s; s ← expect "." s;
  '(us, s) ← read_digits 6 s; s ← expect "Z" s;
  if bool_decide (s = "") then Some (y, m, d, h, mi, x, us) else None.
Definition timestamp_of (s : string) : outcome Z :=
  match read_timestamp s with
  | Some (y, m, d, h, mi, x, us) =>
      guard_that (date_ok y m d && time_ok h mi x us) EValueError
        "UtcTimestamp text must be a valid canonical UTC timestamp" ≫= λ _,
      Ok (instant y m d h mi x us)
  | None => raise EValueError "UtcTimestamp text must use YYYY-MM-DDTHH:MM:SS.ffffffZ"
  end.

(** ** [SchemaVersion] *)

(** [(?:0|[1-9][0-9]{0,3})] *)
Definition m_component : matcher :=
  m_alt (m_lit "0") (m_seq (m_char (λ c, is_digit c && negb (is_char "0" c))) (m_upto is_digit 3)).
Definition schema_version_ok (s : string) : bool :=
  fullmatch (m_seq m_component (m_seq (m_lit ".")
    (m_seq m_component (m_seq (m_lit ".") m_component)))) s.
Definition make_SchemaVersion (s : string) : outcome string :=
  guard_that (schema_version_ok s) EValueError
    "SchemaVersion must use MAJOR.MINOR.PATCH with components from 0 to 9999" ≫= λ _, Ok s.

(** ** Provider timestamps: [parse_provider_timestamp], [provider_utc_date] *)

(** [\.\d{1,9}Z]: the first six digits of the fraction, padded with zeros. *)
Definition read_fraction (s : string) : option Z :=
  let '(d, r) := span_digits s in
  if bool_decide (r = "Z") && (1 <=? String.length d)%nat && (String.length d <=? 9)%nat
  then Some (digits_value (take_text 6 (d +:+ "000000"))) else None.
Definition read_provider (s : string) : option (Z * Z * Z * Z * Z * Z * Z) :=
  match ('(y, m, d, s) ← read_date s; s ← expect "T" s; '(h, mi, x, s) ← read_time s;
         us ← (if bool_decide (s = "Z") then Some 0 else s ← expect "." s; read_fraction s);
         Some (y, m, d, h, mi, x, us)) with
  | Some f => Some f
  | None =>
      '(y, s) ← read_digits 4 s; '(m, s) ← read_digits 2 s; '(d, s) ← read_digits 2 s;
      let '(compact, s) := match s with
                           | String "T" s => (false, s)
                           | _ => (true, s)
                           end in
      '(h, s) ← read_digits 2 s; '(mi, s) ← read_digits 2 s; '(x, s) ← read_digits 2 s;
      if bool_decide (s = if compact : bool then "" else "Z") then Some (y, m, d, h, mi, x, 0) else None
  end.
Definition parse_provider_timestamp (s : string) : outcome Z :=
  match read_provider s with
  | Some (y, m, d, h, mi, x, us) =>
      guard_that (date_ok y m d && time_ok h mi x us) EProviderTimestamp
        "provider timestamp is not a valid instant" ≫= λ _,
      Ok (instant y m d h mi x us)
  | None => raise EProviderTimestamp "provider timestamp uses an unsupported format"
  end.
Definition provider_utc_date (s : string) : outcome Z :=
  match read_date s with
  | Some (y, m, d, "") =>
      guard_that (date_ok y m d) EProviderTimestamp "provider date is not a valid calendar date" ≫= λ _,
      Ok (instant y m d 0 0 0 0)
  | _ => raise EProviderTimestamp "provider date must use YYYY-MM-DD"
  end.
