(* ===== verification/InstantFacts.v ===== *)
(** * Facts about dates and instants as text

    The calendar conversion is a bijection on valid dates; canonical texts of dates
    and instants read back, and no other text does. *)

From S2P Require Import Prelude Text Calendar Json JsonFacts Instants.
Local Open Scope Z_scope.

#[local] Ltac Zify.zify_post_hook ::= Z.to_euclidean_division_equations.

(** ** The calendar: one era of 400 years, the others by periodicity *)

(** Within an era, whose years start in March: the first day of a year, the year of
    a day, the month and day of a day of the year, and back. *)
Definition year_start (yoe : Z) : Z := 365 * yoe + yoe `div` 4 - yoe `div` 100.
Definition era_year (doe : Z) : Z :=
  (doe - doe `div` 1460 + doe `div` 36524 - doe `div` 146096) `div` 365.
Definition month_day (doy : Z) : Z * Z :=
  let mp := (5 * doy + 2) `div` 153 in
  ((if mp <? 10 then mp + 3 else mp - 9), doy - (153 * mp + 2) `div` 5 + 1).
Definition day_of_year (m d : Z) : Z :=
  (153 * (if m <=? 2 then m + 9 else m - 3) + 2) `div` 5 + d - 1.
(** The first day of the next year, whose era may be the next one. *)
Definition year_next (yoe : Z) : Z := year_start (yoe + 1) + (yoe + 1) `div` 400.
(** The civil year of a month of the year that starts in March. *)
Definition year_of (yoe m : Z) : Z := if m <=? 2 then yoe + 1 else yoe.

Lemma civil_era d :
  let doe := (d + 719468) `mod` 146097 in
  let yoe := era_year doe in
  let '(m, x) := month_day (doe - year_start yoe) in
  civil d = (year_of (yoe + (d + 719468) `div` 146097 * 400) m, m, x).
Proof.
  unfold civil, era_year, month_day, year_start, year_of. cbv zeta. f_equal. f_equal.
  destruct (_ <=? 2); lia.
Qed.
Lemma days_era y m d : days_from_civil (year_of y m) m d =
  y `div` 400 * 146097 + (year_start (y `mod` 400) + day_of_year m d) - 719468.
Proof.
  unfold days_from_civil, year_start, day_of_year, year_of. cbv zeta.
  destruct (m <=? 2); [|lia]. replace (y + 1 - 1) with y by lia. lia.
Qed.

(** [p] holds of the [n] integers from [a]. *)
Fixpoint all_from (p : Z → bool) (n : nat) (a : Z) : bool :=
  match n with O => true | S n => p a && all_from p n (a + 1) end.
Lemma all_from_spec p n a x : all_from p n a = true → a ≤ x < a + Z.of_nat n → p x = true.
Proof.
  revert a. induction n as [|n IH]; intros a; [lia|]. simpl. intros [Ha H]%andb_true_iff Hx.
  destruct (decide (x = a)) as [->|]; [done|]. apply (IH (a + 1)); [done|lia].
Qed.

(** The days of each year of the era, the months of a year and the days of a month. *)
Definition year_ok (yoe : Z) : bool :=
  (era_year (year_start yoe) =? yoe) && (era_year (year_next yoe - 1) =? yoe) &&
  (year_next yoe - year_start yoe =? if is_leap (yoe + 1) then 366 else 365).
Definition doy_ok (doy : Z) : bool :=
  let '(m, x) := month_day doy in
  (day_of_year m x =? doy) && (1 <=? m) && (m <=? 12) && (1 <=? x) &&
  (x <=? if (m =? 2) && (doy =? 365) then 29 else days_in_month 1 m).
Definition month_day_ok (m x : Z) : bool :=
  let doy := day_of_year m x in
  bool_decide (month_day doy = (m, x)) && (0 <=? doy) &&
  (doy <=? if (m =? 2) && (x =? 29) then 365 else 364).

Lemma years_ok yoe : 0 ≤ yoe < 400 → year_ok yoe = true.
Proof. apply (all_from_spec year_ok 400 0). vm_compute. reflexivity. Qed.
Lemma doys_ok doy : 0 ≤ doy < 366 → doy_ok doy = true.
Proof. apply (all_from_spec doy_ok 366 0). vm_compute. reflexivity. Qed.
Lemma month_days_ok m x : 1 ≤ m ≤ 12 → 1 ≤ x ≤ days_in_month 4 m → month_day_ok m x = true.
Proof.
  intros Hm Hx.
  assert (H : all_from (λ m, all_from (month_day_ok m) (Z.to_nat (days_in_month 4 m)) 1) 12 1 = true)
    by (vm_compute; reflexivity).
  pose proof (all_from_spec _ _ _ m H ltac:(lia)) as H'. cbv beta in H'.
  apply (all_from_spec _ _ _ x H'). lia.
Qed.

Lemma era_year_mono a b : 0 ≤ a → a ≤ b → b < 146097 → era_year a ≤ era_year b.
Proof.
  intros Ha Hab Hb. destruct (decide (a = b)) as [->|Hne]; [done|].
  assert (H1 : b `div` 1460 - a `div` 1460 ≤ b - a) by lia.
  assert (H2 : a `div` 36524 - a `div` 146096 ≤ b `div` 36524 - b `div` 146096).
  { assert (a `div` 146096 = 0) as -> by (apply Z.div_small; lia).
    destruct (decide (b = 146096)) as [->|]; [change (146096 `div` 36524 - 146096 `div` 146096) with 3; lia|].
    assert (b `div` 146096 = 0) as -> by (apply Z.div_small; lia).
    pose proof (Z.div_le_mono a b 36524 ltac:(lia) Hab). lia. }
  unfold era_year. apply Z.div_le_mono; lia.
Qed.

Lemma year_days yoe doy : 0 ≤ yoe < 400 → 0 ≤ doy < (if is_leap (yoe + 1) then 366 else 365) →
  era_year (year_start yoe + doy) = yoe ∧ 0 ≤ year_start yoe + doy < 146097.
Proof.
  intros Hy Hd. pose proof (years_ok yoe Hy) as H. unfold year_ok in H. rewrite !andb_true_iff, !Z.eqb_eq in H.
  destruct H as ((H1 & H2) & H3).
  assert (0 ≤ year_start yoe ∧ year_next yoe ≤ 146097) by (unfold year_next, year_start; lia).
  pose proof (era_year_mono (year_start yoe) (year_start yoe + doy)).
  pose proof (era_year_mono (year_start yoe + doy) (year_next yoe - 1)). lia.
Qed.
(** Every day of the era is in one of its years. *)
Lemma year_of_day doe : 0 ≤ doe < 146097 →
  0 ≤ era_year doe < 400 ∧ 0 ≤ doe - year_start (era_year doe) <
    (if is_leap (era_year doe + 1) then 366 else 365).
Proof.
  intros Hd. assert (H : ∀ n : nat, (n ≤ 400)%nat → doe < year_next (Z.of_nat n - 1) →
    ∃ y, 0 ≤ y < 400 ∧ year_start y ≤ doe < year_next y).
  { induction n as [|n IH]; intros Hn Hlt; [unfold year_next, year_start in Hlt; simpl in Hlt; lia|].
    replace (Z.of_nat (S n) - 1) with (Z.of_nat n) in Hlt by lia.
    destruct (decide (doe < year_start (Z.of_nat n))) as [Hl|Hl].
    - apply IH; [lia|]. unfold year_next. replace (Z.of_nat n - 1 + 1) with (Z.of_nat n) by lia. lia.
    - exists (Z.of_nat n). lia. }
  destruct (H 400%nat) as (y & Hy & Hs); [lia|unfold year_next, year_start; simpl; lia|].
  pose proof (years_ok y Hy) as Hok. unfold year_ok in Hok. rewrite !andb_true_iff, !Z.eqb_eq in Hok.
  destruct (year_days y (doe - year_start y) Hy) as [He _]; [lia|].
  replace (year_start y + (doe - year_start y)) with doe in He by lia. rewrite He. lia.
Qed.

Lemma is_leap_era y k : is_leap (y + k * 400) = is_leap y.
Proof.
  unfold is_leap.
  replace ((y + k * 400) `mod` 4) with (y `mod` 4)
    by (replace (y + k * 400) with (y + (k * 100) * 4) by lia; by rewrite Z_mod_plus_full).
  replace ((y + k * 400) `mod` 100) with (y `mod` 100)
    by (replace (y + k * 400) with (y + (k * 4) * 100) by lia; by rewrite Z_mod_plus_full).
  by rewrite Z_mod_plus_full.
Qed.
Lemma days_in_month_era y m k : days_in_month (year_of (y + k * 400) m) m = days_in_month (year_of y m) m.
Proof.
  unfold days_in_month, year_of. destruct (m <=? 2); [|by rewrite is_leap_era].
  replace (y + k * 400 + 1) with (y + 1 + k * 400) by lia. by rewrite is_leap_era.
Qed.

(** A date is the day of its year, month and day, which are valid. *)
Lemma days_civil d : let '(y, m, x) := civil d in
  days_from_civil y m x = d ∧ 1 ≤ m ≤ 12 ∧ 1 ≤ x ≤ days_in_month y m.
Proof.
  pose proof (civil_era d) as H. cbv zeta in H. set (z := d + 719468) in *.
  pose proof (Z.mod_pos_bound z 146097 ltac:(lia)) as Hb.
  destruct (year_of_day (z `mod` 146097) Hb) as [Hy Hdoy].
  set (yoe := era_year (z `mod` 146097)) in *. set (doy := z `mod` 146097 - year_start yoe) in *.
  pose proof (doys_ok doy) as Hok. unfold doy_ok in Hok. destruct (month_day doy) as [m x]. rewrite H.
  assert (Hlt : doy < 366) by (destruct (is_leap _); lia).
  specialize (Hok ltac:(lia)). rewrite !andb_true_iff, !Z.leb_le, Z.eqb_eq in Hok.
  destruct Hok as ((((H1 & H2) & H3) & H4) & H5). rewrite days_in_month_era. split_and!; try done.
  - rewrite days_era, Z.div_add, Z.div_small, Z_mod_plus_full, Z.mod_small by lia. rewrite H1.
    pose proof (Z.div_mod z 146097 ltac:(lia)). unfold doy. lia.
  - unfold days_in_month, year_of in *. destruct (m =? 2) eqn:E; simpl in H5; [|done].
    apply Z.eqb_eq in E. subst m. simpl. destruct (doy =? 365) eqn:E'; [apply Z.eqb_eq in E'|].
    + destruct (is_leap (yoe + 1)); lia.
    + simpl in H5. destruct (is_leap (yoe + 1)); lia.
Qed.

Lemma civil_days y m x : 1 ≤ m ≤ 12 → 1 ≤ x ≤ days_in_month y m →
  civil (days_from_civil y m x) = (y, m, x).
Proof.
  intros Hm Hx. set (y0 := if m <=? 2 then y - 1 else y).
  assert (Hy : y = year_of y0 m) by (unfold year_of, y0; destruct (m <=? 2); lia).
  rewrite Hy in *. clearbody y0. clear y Hy.
  set (yoe := y0 `mod` 400). set (era := y0 `div` 400).
  assert (Hy0 : y0 = yoe + era * 400) by (unfold yoe, era; rewrite (Z.div_mod y0 400) at 1; lia).
  pose proof (Z.mod_pos_bound y0 400 ltac:(lia)) as Hyoe. fold yoe in Hyoe.
  rewrite Hy0, days_in_month_era in Hx.
  assert (Hx4 : 1 ≤ x ≤ days_in_month 4 m).
  { unfold days_in_month, year_of in *. destruct (m =? 2); [|lia]. change (is_leap 4) with true. cbv iota.
    destruct (is_leap _) in Hx; lia. }
  pose proof (month_days_ok m x Hm Hx4) as Hok. unfold month_day_ok in Hok.
  rewrite !andb_true_iff, bool_decide_eq_true, !Z.leb_le in Hok. destruct Hok as ((H1 & H2) & H3).
  destruct (year_days yoe (day_of_year m x) Hyoe) as [He Hd].
  { split; [lia|]. destruct (m =? 2) eqn:E; simpl in H3; [|destruct (is_leap (yoe + 1)); lia].
    apply Z.eqb_eq in E. subst m. unfold days_in_month, year_of in Hx. simpl in Hx.
    destruct (x =? 29) eqn:E; [apply Z.eqb_eq in E|]; destruct (is_leap (yoe + 1)); lia. }
  rewrite days_era. fold yoe era. pose proof (civil_era
    (era * 146097 + (year_start yoe + day_of_year m x) - 719468)) as H. cbv zeta in H.
  replace (era * 146097 + (year_start yoe + day_of_year m x) - 719468 + 719468)
    with (year_start yoe + day_of_year m x + era * 146097) in H by lia.
  rewrite Z_mod_plus_full, Z.mod_small, Z.div_add, Z.div_small, He in H by lia.
  replace (year_start yoe + day_of_year m x - year_start yoe) with (day_of_year m x) in H by lia.
  rewrite H1 in H. by rewrite H, Z.add_0_l, <-Hy0.
Qed.

(** The year and month of [Calendar] are those of the date. *)
Lemma year_month_civil d : year_month d = (civil d).1.
Proof. done. Qed.

(** ** Fields *)

Definition digit_value (c : ascii) : Z := Z.of_nat (nat_of_ascii c) - 48.
Lemma digit_value_digit n : 0 ≤ n < 10 → digit_value (digit n) = n.
Proof. intros Hn. unfold digit_value, digit. rewrite nat_ascii_embedding by lia. lia. Qed.
Lemma digit_of_value c : is_digit c = true → 0 ≤ digit_value c < 10 ∧ digit (digit_value c) = c.
Proof.
  unfold is_digit, digit_value, digit. intros Hc%bool_decide_eq_true. split; [lia|].
  rewrite <-(ascii_nat_embedding c) at 2. f_equal. lia.
Qed.

(** Reading [n] digits after [acc], and printing them: [read_digits n] accepts the
    texts [digits_text n v]. *)
Fixpoint digits_text (n : nat) (v : Z) : string :=
  match n with
  | O => ""
  | S n => String (digit ((v `div` 10 ^ Z.of_nat n) `mod` 10)) (digits_text n v)
  end.

Lemma digits_text_mod n v k : Z.of_nat n ≤ k → digits_text n (v `mod` 10 ^ k) = digits_text n v.
Proof.
  intros Hk. assert (Hgo : ∀ m, (m ≤ n)%nat → digits_text m (v `mod` 10 ^ k) = digits_text m v); [|by apply Hgo].
  induction m as [|m IH]; intros Hm; [done|]. cbn [digits_text]. rewrite IH by lia. do 2 f_equal.
  assert (Hp : 10 ^ k = 10 ^ Z.of_nat m * (10 * 10 ^ (k - Z.of_nat m - 1))).
  { rewrite <-(Z.pow_1_r 10) at 3. rewrite <-!Z.pow_add_r by lia. f_equal. lia. }
  assert (H0 : 0 < 10 ^ Z.of_nat m) by (apply Z.pow_pos_nonneg; lia).
  assert (H1 : 0 < 10 ^ (k - Z.of_nat m - 1)) by (apply Z.pow_pos_nonneg; lia).
  rewrite Hp. revert H0 H1. generalize (10 ^ Z.of_nat m) as P, (10 ^ (k - Z.of_nat m - 1)) as Q. intros P Q HP HQ.
  rewrite (Z.mod_eq v) by nia. set (t := v `div` (P * (10 * Q))).
  replace (v - P * (10 * Q) * t) with (v + (- (10 * Q * t)) * P) by lia. rewrite Z.div_add by lia.
  replace (v `div` P + - (10 * Q * t)) with (v `div` P + (- (Q * t)) * 10) by lia.
  by rewrite Z_mod_plus_full.
Qed.

Lemma read_digits_text n : ∀ v acc rest, 0 ≤ v < 10 ^ Z.of_nat n →
  read_digits_go n acc (digits_text n v +:+ rest) = Some (acc * 10 ^ Z.of_nat n + v, rest).
Proof.
  induction n as [|n IH]; intros v acc rest Hv; [simpl in *; do 2 f_equal; lia|].
  assert (Hp : 0 < 10 ^ Z.of_nat n) by (apply Z.pow_pos_nonneg; lia).
  rewrite Nat2Z.inj_succ, Z.pow_succ_r in Hv |- * by lia. cbn [digits_text].
  assert (Hd : 0 ≤ v `div` 10 ^ Z.of_nat n < 10)
    by (split; [apply Z.div_pos|apply Z.div_lt_upper_bound]; lia).
  rewrite (Z.mod_small _ 10) by done.
  assert (Hsame : digits_text n v = digits_text n (v `mod` 10 ^ Z.of_nat n)) by by rewrite digits_text_mod.
  rewrite Hsame. cbn -[digits_text]. rewrite is_digit_digit by done.
  fold (digit_value (digit (v `div` 10 ^ Z.of_nat n))). rewrite digit_value_digit by done.
  rewrite IH by by apply Z.mod_pos_bound. do 2 f_equal.
  pose proof (Z.div_mod v (10 ^ Z.of_nat n) ltac:(lia)). lia.
Qed.

Lemma read_digits_inv n : ∀ acc s v rest, 0 ≤ acc → read_digits_go n acc s = Some (v, rest) →
  ∃ w, 0 ≤ w < 10 ^ Z.of_nat n ∧ v = acc * 10 ^ Z.of_nat n + w ∧ s = digits_text n w +:+ rest.
Proof.
  induction n as [|n IH]; intros acc s v rest Hacc H; [injection H as -> ->; exists 0; simpl; split_and!; lia || done|].
  destruct s as [|c s]; [done|]. simpl in H. destruct (is_digit c) eqn:Hc; [|done].
  destruct (digit_of_value c Hc) as [Hb Hd]. fold (digit_value c) in H.
  apply IH in H as (w & Hw & -> & ->); [|lia].
  assert (Hp : 0 < 10 ^ Z.of_nat n) by (apply Z.pow_pos_nonneg; lia).
  exists (digit_value c * 10 ^ Z.of_nat n + w). rewrite Nat2Z.inj_succ, Z.pow_succ_r by lia.
  split_and!; [nia|nia|lia|]. cbn [digits_text].
  rewrite Z.div_add_l, (Z.div_small w), Z.add_0_r, (Z.mod_small _ 10), Hd by lia.
  rewrite <-(digits_text_mod n (_ + w) (Z.of_nat n)) by lia. rewrite Z.add_comm, Z_mod_plus_full, Z.mod_small by lia.
  done.
Qed.

Lemma digits2_text v : 0 ≤ v < 100 → digits2 v = digits_text 2 v.
Proof.
  intros Hv. unfold digits2. cbn [digits_text]. change (10 ^ Z.of_nat 1) with 10. change (10 ^ Z.of_nat 0) with 1.
  rewrite Z.div_1_r. rewrite (Z.mod_small (v `div` 10)) by lia. done.
Qed.
Lemma digits4_text v : 0 ≤ v < 10000 → digits4 v = digits_text 4 v.
Proof.
  intros Hv. unfold digits4. cbn [digits_text]. change (10 ^ Z.of_nat 3) with 1000. change (10 ^ Z.of_nat 2) with 100.
  change (10 ^ Z.of_nat 1) with 10. change (10 ^ Z.of_nat 0) with 1.
  rewrite Z.div_1_r. rewrite (Z.mod_small (v `div` 1000)) by lia. done.
Qed.
Lemma digits6_text v : 0 ≤ v < 1000000 → digits6 v = digits_text 6 v.
Proof.
  intros Hv. unfold digits6. rewrite digits4_text, digits2_text by lia. cbn [digits_text].
  change (10 ^ Z.of_nat 5) with 100000. change (10 ^ Z.of_nat 4) with 10000.
  change (10 ^ Z.of_nat 3) with 1000. change (10 ^ Z.of_nat 2) with 100.
  change (10 ^ Z.of_nat 1) with 10. change (10 ^ Z.of_nat 0) with 1. rewrite !Z.div_1_r.
  rewrite !Z.div_div by lia.
  assert (((v `mod` 100) `div` 10) `mod` 10 = (v `div` 10) `mod` 10) as -> by lia.
  assert ((v `mod` 100) `mod` 10 = v `mod` 10) as -> by lia. done.
Qed.

Lemma read2 v rest : 0 ≤ v < 100 → read_digits 2 (digits2 v +:+ rest) = Some (v, rest).
Proof. intros Hv. rewrite digits2_text by done. unfold read_digits. by rewrite read_digits_text. Qed.
Lemma read4 v rest : 0 ≤ v < 10000 → read_digits 4 (digits4 v +:+ rest) = Some (v, rest).
Proof. intros Hv. rewrite digits4_text by done. unfold read_digits. by rewrite read_digits_text. Qed.
Lemma read6 v rest : 0 ≤ v < 1000000 → read_digits 6 (digits6 v +:+ rest) = Some (v, rest).
Proof. intros Hv. rewrite digits6_text by done. unfold read_digits. by rewrite read_digits_text. Qed.
Lemma read2_inv s v rest : read_digits 2 s = Some (v, rest) → 0 ≤ v < 100 ∧ s = digits2 v +:+ rest.
Proof.
  intros (w & Hw & -> & ->)%read_digits_inv; [|done]. simpl in Hw. rewrite Z.mul_0_l, Z.add_0_l.
  by rewrite digits2_text.
Qed.
Lemma read4_inv s v rest : read_digits 4 s = Some (v, rest) → 0 ≤ v < 10000 ∧ s = digits4 v +:+ rest.
Proof.
  intros (w & Hw & -> & ->)%read_digits_inv; [|done]. simpl in Hw. rewrite Z.mul_0_l, Z.add_0_l.
  by rewrite digits4_text.
Qed.
Lemma read6_inv s v rest : read_digits 6 s = Some (v, rest) → 0 ≤ v < 1000000 ∧ s = digits6 v +:+ rest.
Proof.
  intros (w & Hw & -> & ->)%read_digits_inv; [|done]. simpl in Hw. rewrite Z.mul_0_l, Z.add_0_l.
  by rewrite digits6_text.
Qed.
Lemma expect_inv c s r : expect c s = Some r → s = String c r.
Proof. destruct s as [|d s]; [done|]. simpl. case_bool_decide; [|done]. intros [= <-]. by subst. Qed.
Lemma expect_char c r : expect c (String c r) = Some r.
Proof. simpl. by rewrite bool_decide_true. Qed.

(** ** Dates and instants *)

Lemma date_okb y m d : date_ok y m d = true ↔ 1 ≤ y ≤ 9999 ∧ 1 ≤ m ≤ 12 ∧ 1 ≤ d ≤ days_in_month y m.
Proof. unfold date_ok. rewrite !andb_true_iff, !Z.leb_le. tauto. Qed.
Lemma time_okb h mi s us : time_ok h mi s us = true ↔
  0 ≤ h ≤ 23 ∧ 0 ≤ mi ≤ 59 ∧ 0 ≤ s ≤ 59 ∧ 0 ≤ us ≤ 999999.
Proof. unfold time_ok. rewrite !andb_true_iff, !Z.leb_le. tauto. Qed.
Lemma days_in_month_le y m : days_in_month y m ≤ 31.
Proof. unfold days_in_month. repeat case_match; lia. Qed.

Lemma read_date_text y m d rest : date_ok y m d = true →
  read_date (digits4 y +:+ ("-" +:+ (digits2 m +:+ ("-" +:+ (digits2 d +:+ rest))))) = Some (y, m, d, rest).
Proof.
  intros (Hy & Hm & Hd)%date_okb. pose proof (days_in_month_le y m). unfold read_date.
  rewrite read4 by lia. cbn [mbind option_bind]. change ("-" +:+ ?x) with (String "-" x).
  rewrite expect_char. cbn [mbind option_bind]. rewrite read2 by lia. cbn [mbind option_bind].
  change ("-" +:+ ?x) with (String "-" x). rewrite expect_char. cbn [mbind option_bind].
  by rewrite read2 by lia.
Qed.
Lemma read_date_inv s y m d rest : read_date s = Some (y, m, d, rest) →
  0 ≤ y < 10000 ∧ s = digits4 y +:+ ("-" +:+ (digits2 m +:+ ("-" +:+ (digits2 d +:+ rest)))).
Proof.
  unfold read_date. intros H. apply bind_Some in H as ([y' s1] & [Hy ->]%read4_inv & H).
  apply bind_Some in H as (s2 & ->%expect_inv & H). apply bind_Some in H as ([m' s3] & [_ ->]%read2_inv & H).
  apply bind_Some in H as (s4 & ->%expect_inv & H). apply bind_Some in H as ([d' s5] & [_ ->]%read2_inv & H).
  by simplify_eq/=.
Qed.
Lemma read_time_text h mi x rest : 0 ≤ h < 100 → 0 ≤ mi < 100 → 0 ≤ x < 100 →
  read_time (digits2 h +:+ (":" +:+ (digits2 mi +:+ (":" +:+ (digits2 x +:+ rest))))) = Some (h, mi, x, rest).
Proof.
  intros Hh Hm Hx. unfold read_time. rewrite read2 by lia. cbn [mbind option_bind].
  change (":" +:+ ?x) with (String ":" x). rewrite expect_char. cbn [mbind option_bind].
  rewrite read2 by lia. cbn [mbind option_bind]. change (":" +:+ ?x) with (String ":" x).
  rewrite expect_char. cbn [mbind option_bind]. by rewrite read2 by lia.
Qed.
Lemma read_time_inv s h mi x rest : read_time s = Some (h, mi, x, rest) →
  s = digits2 h +:+ (":" +:+ (digits2 mi +:+ (":" +:+ (digits2 x +:+ rest)))).
Proof.
  unfold read_time. intros H. apply bind_Some in H as ([y' s1] & [_ ->]%read2_inv & H).
  apply bind_Some in H as (s2 & ->%expect_inv & H). apply bind_Some in H as ([m' s3] & [_ ->]%read2_inv & H).
  apply bind_Some in H as (s4 & ->%expect_inv & H). apply bind_Some in H as ([d' s5] & [_ ->]%read2_inv & H).
  by simplify_eq/=.
Qed.

Lemma date_text_app y m d rest :
  (digits4 y +:+ ("-" +:+ (digits2 m +:+ ("-" +:+ digits2 d)))) +:+ rest =
  digits4 y +:+ ("-" +:+ (digits2 m +:+ ("-" +:+ (digits2 d +:+ rest)))).
Proof. by rewrite <-!str_app_assoc. Qed.

(** The fields of the time of an instant. *)
Lemma time_fields t : let r := utc_time t in
  time_ok (r `div` HOUR) ((r `mod` HOUR) `div` MINUTE) ((r `mod` MINUTE) `div` SECOND) (r `mod` SECOND) = true ∧
  utc_date t * DAY + r `div` HOUR * HOUR + (r `mod` HOUR) `div` MINUTE * MINUTE +
    (r `mod` MINUTE) `div` SECOND * SECOND + r `mod` SECOND = t.
Proof.
  cbv zeta. rewrite time_okb. unfold utc_date, utc_time, HOUR, MINUTE, SECOND, DAY. lia.
Qed.
Lemma instant_fields y m d h mi x us : time_ok h mi x us = true →
  let t := instant y m d h mi x us in
  utc_date t = days_from_civil y m d ∧ utc_time t `div` HOUR = h ∧ (utc_time t `mod` HOUR) `div` MINUTE = mi ∧
  (utc_time t `mod` MINUTE) `div` SECOND = x ∧ utc_time t `mod` SECOND = us.
Proof.
  intros Ht%time_okb. cbv zeta. unfold instant. generalize (days_from_civil y m d) as D. intros D.
  unfold utc_date, utc_time, HOUR, MINUTE, SECOND, DAY. lia.
Qed.

(** An instant whose year is printed with four digits. *)
Definition four_digit_year (d : Z) : Prop := 1000 ≤ (civil d).1.1 ≤ 9999.

Lemma trading_date_civil d : four_digit_year d → ∃ y m x, civil d = (y, m, x) ∧
  date_ok y m x = true ∧ days_from_civil y m x = d.
Proof.
  unfold four_digit_year. pose proof (days_civil d) as H. destruct (civil d) as [[y m] x]. simpl. intros Hy.
  exists y, m, x. destruct H as (? & ? & ?). split_and!; [done| |done]. apply date_okb. lia.
Qed.

Lemma digits_value_read n : ∀ acc s v, read_digits_go n acc s = Some (v, "") → digits_value_go acc s = v.
Proof.
  induction n as [|n IH]; intros acc [|c s] v H; simpl in *; try done; try by simplify_eq.
  destruct (is_digit c); [|done]. by apply IH.
Qed.
Lemma span_digits_text n v rest : number_end rest = true ∨ rest = "Z" → ∀ m, (m ≤ n)%nat →
  span_digits (digits_text m v +:+ rest) = (digits_text m v, rest).
Proof.
  intros Hr. induction m as [|m IH]; intros Hm.
  - destruct Hr as [Hr| ->]; [|done].
    destruct (number_end_cases _ Hr) as [->|(c & r & -> & Hc & _)]; [done|]. simpl. by rewrite Hc.
  - cbn -[digits_text]. cbn [digits_text]. cbn [String.append span_digits].
    rewrite is_digit_digit by (apply Z.mod_pos_bound; lia). by rewrite IH by lia.
Qed.
Lemma digits_text_length n v : String.length (digits_text n v) = n.
Proof. induction n as [|n IH]; [done|]. simpl. by rewrite IH. Qed.

Lemma read_fraction_text us : 0 ≤ us < 1000000 → read_fraction (digits6 us +:+ "Z") = Some us.
Proof.
  intros Hu. rewrite digits6_text by done. unfold read_fraction.
  rewrite (span_digits_text 6) by (lia || by right). rewrite digits_text_length, bool_decide_true by done.
  cbn [Nat.leb andb]. f_equal.
  assert (Ht : take_text 6 (digits_text 6 us +:+ "000000") = digits_text 6 us) by done. rewrite Ht.
  apply (digits_value_read 6). pose proof (read_digits_text 6 us 0 "" ltac:(done)) as H.
  by rewrite str_app_nil_r in H.
Qed.

(** Canonical timestamps and dates are faithful texts: an instant with a
    four-digit year reads back from its text, also as a provider timestamp, and a
    text that is accepted is the text of the instant it denotes, so no second text
    denotes it; likewise for trading dates.  Every other text raises ValueError. *)
Theorem timestamp_round_trip :
  (∀ t, four_digit_year (utc_date t) →
     timestamp_of (timestamp_text t) = Ok t ∧ parse_provider_timestamp (timestamp_text t) = Ok t) ∧
  (∀ s, match timestamp_of s with
        | Ok t => four_digit_year (utc_date t) → timestamp_text t = s
        | Raise e => exn_cls e = EValueError
        end) ∧
  (∀ d, four_digit_year d → trading_date_of (trading_date_text d) = Ok d) ∧
  (∀ s, match trading_date_of s with
        | Ok d => four_digit_year d → trading_date_text d = s
        | Raise e => exn_cls e = EValueError
        end).
Proof.
  split_and!.
  - intros t (y & m & x & Hc & Hok & Hd)%trading_date_civil. destruct (time_fields t) as [Ht Hsum].
    unfold timestamp_text, trading_date_text. rewrite Hc. rewrite date_text_app.
    pose proof Ht as (? & ? & ? & ?)%time_okb.
    split.
    + unfold timestamp_of, read_timestamp. rewrite read_date_text by done. cbn [mbind option_bind].
      change ("T" +:+ ?x) with (String "T" x). rewrite expect_char. cbn [mbind option_bind].
      rewrite read_time_text by lia. cbn [mbind option_bind]. change ("." +:+ ?x) with (String "." x).
      rewrite expect_char. cbn [mbind option_bind]. rewrite read6 by lia. cbn [mbind option_bind expect].
      rewrite bool_decide_true by done. cbn [mbind option_bind]. rewrite bool_decide_true by done. rewrite Hok, Ht. simpl. unfold instant. by rewrite Hd, Hsum.
    + unfold parse_provider_timestamp, read_provider. rewrite read_date_text by done. cbn [mbind option_bind].
      change ("T" +:+ ?x) with (String "T" x). rewrite expect_char. cbn [mbind option_bind].
      rewrite read_time_text by lia. cbn [mbind option_bind]. change ("." +:+ ?x) with (String "." x).
      rewrite bool_decide_false by done. rewrite expect_char. cbn [mbind option_bind].
      rewrite read_fraction_text by lia. cbn [mbind option_bind].
      rewrite Hok, Ht. simpl. unfold instant. by rewrite Hd, Hsum.
  - intros s. unfold timestamp_of. destruct (read_timestamp s) as [[[[[[[y m] d] h] mi] x] us]|] eqn:Hr; [|done].
    unfold read_timestamp in Hr. apply bind_Some in Hr as ([[[y' m'] d'] s1] & [Hy ->]%read_date_inv & Hr).
    apply bind_Some in Hr as (s2 & ->%expect_inv & Hr).
    apply bind_Some in Hr as ([[[h' mi'] x'] s3] & ->%read_time_inv & Hr).
    apply bind_Some in Hr as (s4 & ->%expect_inv & Hr).
    apply bind_Some in Hr as ([us' s5] & [Hus ->]%read6_inv & Hr).
    apply bind_Some in Hr as (s6 & ->%expect_inv & Hr). case_bool_decide; simplify_eq.
    destruct (date_ok y m d) eqn:Hd; [|done]. destruct (time_ok h mi x us) eqn:Ht; [|done]. simpl. intros _.
    apply date_okb in Hd as (Hy' & Hm & Hx). destruct (instant_fields y m d h mi x us Ht) as (E1 & E2 & E3 & E4 & E5).
    unfold timestamp_text, trading_date_text. rewrite E1, E2, E3, E4, E5, civil_days by done.
    by rewrite date_text_app.
  - intros d (y & m & x & Hc & Hok & Hd)%trading_date_civil. unfold trading_date_text, trading_date_of. rewrite Hc.
    pose proof (read_date_text y m x "" Hok) as Hr. rewrite str_app_nil_r in Hr. rewrite Hr, Hok. simpl. by rewrite Hd.
  - intros s. unfold trading_date_of. destruct (read_date s) as [[[[y m] d] [|c r]]|] eqn:Hr; [|done..].
    apply read_date_inv in Hr as [Hy ->]. destruct (date_ok y m d) eqn:Hd; [|done]. simpl. intros _.
    apply date_okb in Hd as (Hy' & Hm & Hx). unfold trading_date_text. by rewrite civil_days.
Qed.

Example demo_timestamp : timestamp_of "2026-07-17T13:30:00.000000Z" = Ok 1784295000000000 ∧
  timestamp_text 1784295000000000 = "2026-07-17T13:30:00.000000Z" ∧
  parse_provider_timestamp "20260717T133000Z" = Ok 1784295000000000 ∧
  trading_date_text 20651 = "2026-07-17".
Proof. by vm_compute. Qed.

Lemma timestamp_round_trip_witness : four_digit_year (utc_date 1784295000000000) ∧
  timestamp_of (timestamp_text 1784295000000000) = Ok 1784295000000000.
Proof.
  assert (H : four_digit_year (utc_date 1784295000000000)) by (vm_compute; split; discriminate).
  split; [exact H|]. exact (proj1 (proj1 timestamp_round_trip 1784295000000000 H)).
Defined.
