(* ===== verification/Jobs.v ===== *)
(** * Jobs, leases and their audit

    [domain/jobs.py], [domain/events.py], [application/job_service.py], the job and
    audit repositories of [infrastructure/postgres.py] and the lease functions of
    the migrations ([migrations/0002_foundation_security_hardening_up.sql]) that the
    repository calls.  A statement has its own timestamp of the database clock, which
    nothing here assumes to be monotone; a transaction takes effect as a whole, and a
    failure may come before or after its commit.  Rows are locked by the functions
    until the transaction ends, so transactions on a job are steps one after the
    other.  Telemetry spans and the redaction of the closed audit payload are left
    out. *)

From S2P Require Import Prelude Errors Text Orders Contracts Store Repos Calendar Instants.
Local Open Scope Z_scope.

(** ** Value objects: [domain/jobs.py] *)

Module JobStatus.
Inductive t := PLANNED | RUNNING | COMPLETE | FAILED | EXPIRED.
End JobStatus.
#[global] Instance JobStatus_eq_dec : EqDecision JobStatus.t.
Proof. solve_decision. Defined.

(** [^[a-z0-9][a-z0-9_-]{0,63}$] *)
Definition job_component_ok (s : string) : bool :=
  fullmatch (m_seq (m_char (λ c, is_lower c || is_digit c))
    (m_upto (λ c, is_lower c || is_digit c || is_char "_" c || is_char "-" c) 63)) s.
(** [^[A-Za-z0-9][A-Za-z0-9._:@/-]{0,199}$] *)
Definition owner_char (c : ascii) : bool := is_lower c || is_upper c || is_digit c.
Definition lease_owner_ok (s : string) : bool :=
  fullmatch (m_seq (m_char owner_char)
    (m_upto (λ c, owner_char c || is_char "." c || is_char "_" c || is_char ":" c || is_char "@" c ||
                  is_char "/" c || is_char "-" c) 199)) s.

Record JobSpec := mk_JobSpec {
  js_trading_date : Z;
  js_job_type : string;
  js_window : string;
}.
#[global] Instance JobSpec_eq_dec : EqDecision JobSpec.
Proof. solve_decision. Defined.
Definition check_JobSpec (s : JobSpec) : outcome unit :=
  guard_that (job_component_ok (js_job_type s)) EValueError
    "job_type must use lowercase letters, digits, '_' or '-'" ≫= λ _,
  guard_that (job_component_ok (js_window s)) EValueError
    "window must use lowercase letters, digits, '_' or '-'".
Definition job_key (s : JobSpec) : string :=
  trading_date_text (js_trading_date s) +:+ ("/" +:+ (js_job_type s +:+ ("/" +:+ js_window s))).

Definition lease_duration_ok (d : Z) : bool := (0 <? d) && (d <=? DAY).
Definition make_LeaseDuration (d : Z) : outcome Z :=
  guard_that (lease_duration_ok d) EValueError
    "lease duration must be greater than zero and at most one day" ≫= λ _, Ok d.

Record LeaseGrant := mk_Grant {
  lg_job_key : string;
  lg_lease_owner : string;
  lg_leased_until : Z;
  lg_fencing_token : Z;
  lg_attempt_count : Z;
  lg_database_time : Z;
}.
#[global] Instance LeaseGrant_eq_dec : EqDecision LeaseGrant.
Proof. solve_decision. Defined.
Definition check_LeaseGrant (g : LeaseGrant) : outcome unit :=
  guard_that (negb (bool_decide (lg_job_key g = ""))) EValueError "job_key must be non-empty text" ≫= λ _,
  guard_that (lease_owner_ok (lg_lease_owner g)) EValueError
    "lease_owner must use the canonical bounded owner format" ≫= λ _,
  guard_that (1 <=? lg_fencing_token g) EValueError "fencing_token must be a positive integer" ≫= λ _,
  guard_that (1 <=? lg_attempt_count g) EValueError "attempt_count must be a positive integer" ≫= λ _,
  guard_that (lg_database_time g <? lg_leased_until g) EValueError
    "leased_until must be after database_time".

Record JobInstance := mk_Job {
  ji_spec : JobSpec;
  ji_status : JobStatus.t;
  ji_lease_owner : option string;
  ji_leased_until : option Z;
  ji_fencing_token : Z;
  ji_attempt_count : Z;
  ji_created_at : Z;
  ji_updated_at : Z;
}.
#[global] Instance JobInstance_eq_dec : EqDecision JobInstance.
Proof. solve_decision. Defined.

(** ** The audit event: [domain/events.py] *)

Inductive JobTransitionReason := SCHEDULED | RECOVERY | FAILURE | EXPIRY.
Record AuditEvent := mk_Audit {
  ae_audit_id : N;
  ae_event_type : string;
  ae_run_id : option N;
  ae_correlation_id : N;
  ae_causation_id : option N;
  ae_occurred_at : Z;
  ae_target_status : JobStatus.t;
  ae_reason_code : JobTransitionReason;
  ae_producer_version : string;
}.
Definition JOB_STATUS_CHANGED : string := "job.status_changed".
Definition uuid_ok (n : N) : bool := negb (n =? 0)%N.
Definition check_AuditEvent (e : AuditEvent) : outcome unit :=
  guard_that (uuid_ok (ae_audit_id e)) EValueError "audit_id must be a non-nil UUID" ≫= λ _,
  guard_that (uuid_ok (ae_correlation_id e)) EValueError "correlation_id must be a non-nil UUID" ≫= λ _,
  guard_that (match ae_causation_id e with Some c => uuid_ok c | None => true end) EValueError
    "causation_id must be a non-nil UUID" ≫= λ _,
  guard_that (bounded_text 200 (ae_event_type e)) EValueError
    "event_type must be non-empty text up to 200 characters" ≫= λ _,
  guard_that (bounded_text 200 (ae_producer_version e)) EValueError
    "producer_version must be non-empty text up to 200 characters" ≫= λ _,
  guard_that (bool_decide (ae_event_type e = JOB_STATUS_CHANGED)) EValueError
    "event_type must match the typed audit payload".

Record RecordedAuditEvent := mk_RecordedAudit {
  ra_event : AuditEvent;
  ra_recorded_at : Z;
}.

(** ** The tables *)

(** A row of [job_leases]; the list of rows is in the order of [lease_id]. *)
Record LeaseRow := mk_Lease {
  le_job_key : string;
  le_owner : string;
  le_fencing_token : Z;
  le_acquired_at : Z;
  le_last_renewed_at : Z;
  le_leased_until : Z;
  le_released_at : option Z;
  le_release_reason : option string;
}.
Record JobDb := mk_JobDb {
  jd_instances : gmap string JobInstance;
  jd_leases : list LeaseRow;
  jd_audits : list RecordedAuditEvent;
}.
Definition empty_jobs : JobDb := mk_JobDb ∅ [] [].
Definition set_instance (j : JobInstance) (d : JobDb) : JobDb :=
  mk_JobDb (<[job_key (ji_spec j) := j]> (jd_instances d)) (jd_leases d) (jd_audits d).
Definition set_leases (l : list LeaseRow) (d : JobDb) : JobDb := mk_JobDb (jd_instances d) l (jd_audits d).
Definition add_audit (e : RecordedAuditEvent) (d : JobDb) : JobDb :=
  mk_JobDb (jd_instances d) (jd_leases d) (jd_audits d ++ [e]).

Definition INTEGER_MAX : Z := 2147483647.
(** The constraints of a row of [job_instances]; the key is that of the spec. *)
Definition job_row_ok (j : JobInstance) : bool :=
  job_component_ok (js_job_type (ji_spec j)) && job_component_ok (js_window (ji_spec j)) &&
  (0 <=? ji_fencing_token j) && (ji_fencing_token j <=? BIGINT_MAX) &&
  (0 <=? ji_attempt_count j) && (ji_attempt_count j <=? INTEGER_MAX) &&
  match ji_lease_owner j, ji_leased_until j with
  | Some o, Some _ => lease_owner_ok o
  | None, None => true
  | _, _ => false
  end.

(** ** The trigger [guard_job_instance_status_write] *)

(** The transaction's settings the trigger reads: who asserts to own the lease, and
    whether a lease function is at work. *)
Record Settings := mk_Settings {
  se_lease_owner : option string;
  se_fencing_token : option Z;
  se_lease_mutation : bool;
}.
Definition asserts_lease (now : Z) (s : Settings) (j : JobInstance) : bool :=
  match se_lease_owner s, se_fencing_token s, ji_lease_owner j, ji_leased_until j with
  | Some o, Some t, Some owner, Some until =>
      (now <? until) && bool_decide (owner = o) && (ji_fencing_token j =? t)
  | _, _, _, _ => false
  end.
Definition with_updated_at (now : Z) (j : JobInstance) : JobInstance :=
  mk_Job (ji_spec j) (ji_status j) (ji_lease_owner j) (ji_leased_until j) (ji_fencing_token j)
    (ji_attempt_count j) (ji_created_at j) now.
Definition same_lease (a b : JobInstance) : bool :=
  bool_decide (ji_lease_owner a = ji_lease_owner b) && bool_decide (ji_leased_until a = ji_leased_until b) &&
  (ji_fencing_token a =? ji_fencing_token b) && (ji_attempt_count a =? ji_attempt_count b).
Definition guard_job_instance_status_write (now : Z) (s : Settings) (old new : JobInstance)
    : outcome JobInstance :=
  guard_that (bool_decide (ji_spec new = ji_spec old)) EDatabase
    "job identity fields are immutable" ≫= λ _,
  guard_that (bool_decide (ji_status new = ji_status old) || asserts_lease now s old) EDatabase
    "job status write requires the current unexpired owner and fencing token" ≫= λ _,
  guard_that (same_lease new old || se_lease_mutation s) EDatabase
    "job lease fields may only be changed by lease functions" ≫= λ _,
  Ok (with_updated_at now new).

(** [UPDATE job_instances SET ... WHERE job_key = ... RETURNING *] for a row found. *)
Definition update_job (now : Z) (s : Settings) (old new : JobInstance) (d : JobDb)
    : outcome (JobInstance * JobDb) :=
  j ← guard_job_instance_status_write now s old new;
  guard_that (job_row_ok j) EDatabase "job_instances constraint" ≫= λ _,
  Ok (j, set_instance j d).
Definition with_lease (owner : option string) (until : option Z) (token attempts : Z) (j : JobInstance)
    : JobInstance :=
  mk_Job (ji_spec j) (ji_status j) owner until token attempts (ji_created_at j) (ji_updated_at j).
Definition with_job_status (st : JobStatus.t) (j : JobInstance) : JobInstance :=
  mk_Job (ji_spec j) st (ji_lease_owner j) (ji_leased_until j) (ji_fencing_token j) (ji_attempt_count j)
    (ji_created_at j) (ji_updated_at j).
Definition lease_mutation : Settings := mk_Settings None None true.

(** ** The lease functions *)

(** The open row of the history of an owner's token. *)
Definition open_lease (key owner : string) (token : Z) (l : LeaseRow) : bool :=
  bool_decide (le_job_key l = key) && bool_decide (le_owner l = owner) &&
  (le_fencing_token l =? token) && bool_decide (le_released_at l = None).
Definition close_lease (now : Z) (reason : string) (l : LeaseRow) : LeaseRow :=
  mk_Lease (le_job_key l) (le_owner l) (le_fencing_token l) (le_acquired_at l) (le_last_renewed_at l)
    (le_leased_until l) (Some now) (Some reason).
Definition extend_lease (now until : Z) (l : LeaseRow) : LeaseRow :=
  mk_Lease (le_job_key l) (le_owner l) (le_fencing_token l) (le_acquired_at l) now until
    (le_released_at l) (le_release_reason l).
(** The constraints of a row of [job_leases]. *)
Definition lease_row_ok (l : LeaseRow) : bool :=
  lease_owner_ok (le_owner l) && (0 <? le_fencing_token l) && (le_fencing_token l <=? BIGINT_MAX) &&
  (le_acquired_at l <? le_leased_until l) &&
  match le_released_at l, le_release_reason l with None, Some _ => false | _, _ => true end.
(** [UPDATE job_leases SET ... WHERE ...] under the constraints, with the number of rows. *)
Definition update_leases (p : LeaseRow → bool) (f : LeaseRow → LeaseRow) (d : JobDb)
    : outcome (nat * JobDb) :=
  guard_that (forallb (λ l, implb (p l) (lease_row_ok (f l))) (jd_leases d)) EDatabase
    "job_leases constraint" ≫= λ _,
  Ok (length (filter (λ l, p l = true) (jd_leases d)),
      set_leases ((λ l, if p l then f l else l) <$> jd_leases d) d).
(** [INSERT INTO job_leases] under the constraints. *)
Definition insert_lease (now : Z) (key owner : string) (token until : Z) (d : JobDb) : outcome JobDb :=
  let row := mk_Lease key owner token now now until None None in
  guard_that (lease_row_ok row) EDatabase "job_leases constraint" ≫= λ _,
  guard_that (forallb (λ l, negb (bool_decide (le_job_key l = key) &&
    ((le_fencing_token l =? token) || bool_decide (le_released_at l = None)))) (jd_leases d)) EDatabase
    "job_leases unique index" ≫= λ _,
  Ok (set_leases (jd_leases d ++ [row]) d).

(** [leased_until IS NOT NULL AND leased_until > statement_timestamp()] *)
Definition unexpired (now : Z) (j : JobInstance) : bool :=
  match ji_leased_until j with Some u => now <? u | None => false end.
Definition grant_of (key : string) (j : JobInstance) (owner : string) (until now : Z) : LeaseGrant :=
  mk_Grant key owner until (ji_fencing_token j) (ji_attempt_count j) now.

(** The takeover of an expired lease closes its row of the history. *)
Definition close_expired (now : Z) (j : JobInstance) (d : JobDb) : outcome JobDb :=
  match ji_lease_owner j with
  | None => Ok d
  | Some owner =>
      '(closed, d) ← update_leases (open_lease (job_key (ji_spec j)) owner (ji_fencing_token j))
        (close_lease now "EXPIRED_TAKEOVER") d;
      guard_that (closed =? 1)%nat EDatabase
        "expired job lease history is missing or inconsistent" ≫= λ _, Ok d
  end.
Definition acquire_job_lease (now : Z) (key owner : string) (lease_for : Z) (d : JobDb)
    : outcome (option LeaseGrant * JobDb) :=
  guard_that (lease_duration_ok lease_for) EDatabase
    "lease duration must be greater than zero and at most one day" ≫= λ _,
  guard_that (lease_owner_ok owner) EDatabase
    "lease owner must use the canonical bounded owner format" ≫= λ _,
  guard_that (negb (sql_blank key)) EDatabase "job key must be non-empty text" ≫= λ _,
  match jd_instances d !! key with
  | None => Ok (None, d)
  | Some candidate =>
      if unexpired now candidate then Ok (None, d)
      else
        '(claimed, d) ← update_job now lease_mutation candidate
          (with_lease (Some owner) (Some (now + lease_for)) (ji_fencing_token candidate + 1)
             (ji_attempt_count candidate + 1) candidate) d;
        d ← close_expired now candidate d;
        d ← insert_lease now key owner (ji_fencing_token claimed) (now + lease_for) d;
        Ok (Some (grant_of key claimed owner (now + lease_for) now), d)
  end.

(** The row a function of the holder may change: [job_key], [lease_owner] and
    [fencing_token] agree and the lease has not expired. *)
Definition held_job (now : Z) (key owner : string) (token : Z) (d : JobDb) : option JobInstance :=
  j ← jd_instances d !! key;
  if bool_decide (ji_lease_owner j = Some owner) && (ji_fencing_token j =? token) && unexpired now j
  then Some j else None.
Definition check_holder (owner : string) (token : Z) : outcome unit :=
  guard_that (lease_owner_ok owner) EDatabase
    "lease owner must use the canonical bounded owner format" ≫= λ _,
  guard_that (1 <=? token) EDatabase "fencing token must be positive".

Definition renew_job_lease (now : Z) (key owner : string) (token lease_for : Z) (d : JobDb)
    : outcome (option LeaseGrant * JobDb) :=
  guard_that (lease_duration_ok lease_for) EDatabase
    "lease duration must be greater than zero and at most one day" ≫= λ _,
  check_holder owner token ≫= λ _,
  match held_job now key owner token d with
  | None => Ok (None, d)
  | Some j =>
      '(renewed, d) ← update_job now lease_mutation j
        (with_lease (Some owner) (Some (now + lease_for)) (ji_fencing_token j) (ji_attempt_count j) j) d;
      '(rows, d) ← update_leases (open_lease key owner token) (extend_lease now (now + lease_for)) d;
      guard_that (negb (rows =? 0)%nat) EDatabase "current job lease history is missing" ≫= λ _,
      Ok (Some (grant_of key renewed owner (now + lease_for) now), d)
  end.
Definition release_job_lease (now : Z) (key owner : string) (token : Z) (reason : string) (d : JobDb)
    : outcome (bool * JobDb) :=
  check_holder owner token ≫= λ _,
  match held_job now key owner token d with
  | None => Ok (false, d)
  | Some j =>
      '(_, d) ← update_job now lease_mutation j
        (with_lease None None (ji_fencing_token j) (ji_attempt_count j) j) d;
      '(rows, d) ← update_leases (open_lease key owner token) (close_lease now reason) d;
      guard_that (negb (rows =? 0)%nat) EDatabase "current job lease history is missing" ≫= λ _,
      Ok (true, d)
  end.
Definition transition_job_status (now : Z) (key owner : string) (token : Z) (st : JobStatus.t) (d : JobDb)
    : outcome (option JobInstance * JobDb) :=
  check_holder owner token ≫= λ _,
  match held_job now key owner token d with
  | None => Ok (None, d)
  | Some j =>
      '(j, d) ← update_job now (mk_Settings (Some owner) (Some token) false) j (with_job_status st j) d;
      Ok (Some j, d)
  end.

(** ** The repositories: [PostgresJobRepository], [PostgresAuditEventRepository] *)

(** [_job_instance] *)
Definition decode_job (j : JobInstance) : outcome JobInstance :=
  check_JobSpec (ji_spec j) ≫= λ _, Ok j.
(** [_lease_grant] *)
Definition decode_grant (g : option LeaseGrant) : outcome (option LeaseGrant) :=
  match g with Some g => check_LeaseGrant g ≫= λ _, Ok (Some g) | None => Ok None end.

Definition jobs_add (now : Z) (spec : JobSpec) (d : JobDb) : outcome (JobInstance * JobDb) :=
  match jd_instances d !! job_key spec with
  | None =>
      let j := mk_Job spec JobStatus.PLANNED None None 0 0 now now in
      guard_that (job_row_ok j) EDatabase "job_instances constraint" ≫= λ _,
      j ← decode_job j; Ok (j, set_instance j d)
  | Some j =>
      j ← decode_job j;
      guard_that (bool_decide (ji_spec j = spec)) EPersistenceInvariant
        "job key is bound to a different immutable job specification" ≫= λ _,
      Ok (j, d)
  end.
Definition jobs_get (key : string) (d : JobDb) : outcome (option JobInstance) :=
  match jd_instances d !! key with
  | None => Ok None
  | Some j => j ← decode_job j; Ok (Some j)
  end.
Definition jobs_acquire (now : Z) (key owner : string) (duration : Z) (d : JobDb)
    : outcome (option LeaseGrant * JobDb) :=
  '(g, d) ← acquire_job_lease now key owner duration d; g ← decode_grant g; Ok (g, d).
Definition jobs_renew (now : Z) (g : LeaseGrant) (duration : Z) (d : JobDb)
    : outcome (option LeaseGrant * JobDb) :=
  '(g, d) ← renew_job_lease now (lg_job_key g) (lg_lease_owner g) (lg_fencing_token g) duration d;
  g ← decode_grant g; Ok (g, d).
Definition jobs_release (now : Z) (g : LeaseGrant) (d : JobDb) : outcome (bool * JobDb) :=
  release_job_lease now (lg_job_key g) (lg_lease_owner g) (lg_fencing_token g) "released_by_owner" d.
Definition jobs_set_status (now : Z) (g : LeaseGrant) (st : JobStatus.t) (d : JobDb)
    : outcome (option JobInstance * JobDb) :=
  '(j, d) ← transition_job_status now (lg_job_key g) (lg_lease_owner g) (lg_fencing_token g) st d;
  match j with
  | Some j => j ← decode_job j; Ok (Some j, d)
  | None => Ok (None, d)
  end.

Definition audit_events_add (now : Z) (e : AuditEvent) (d : JobDb) : outcome (RecordedAuditEvent * JobDb) :=
  guard_that (forallb (λ r, negb (ae_audit_id (ra_event r) =? ae_audit_id e)%N) (jd_audits d)) EDatabase
    "audit_events primary key" ≫= λ _,
  guard_that (bool_decide (ae_event_type e = JOB_STATUS_CHANGED) &&
              negb (sql_blank (ae_producer_version e))) EDatabase "audit_events constraint" ≫= λ _,
  let r := mk_RecordedAudit e now in Ok (r, add_audit r d).

(** ** The service: [application/job_service.py] *)

(** The identity of a telemetry context; its span identifiers are not modelled. *)
Record TelemetryContext := mk_Telemetry { tc_run_id : N; tc_correlation_id : N }.
Definition validate_audit_identity (e : AuditEvent) (c : TelemetryContext) : outcome unit :=
  guard_that (uuid_ok (tc_run_id c) && uuid_ok (tc_correlation_id c) &&
              bool_decide (ae_run_id e = Some (tc_run_id c)) &&
              (ae_correlation_id e =? tc_correlation_id c)%N) EAuditContext
    "telemetry context does not match the required audit identity".

(** Where a transaction fails, if it does: a statement or the commit fails and all is
    rolled back, or the commit succeeds and the statement after it fails. *)
Inductive Fault := NO_FAULT | BEFORE_COMMIT | AFTER_COMMIT.
(** [with unit_of_work as transaction: ...; transaction.commit()] *)
Definition in_transaction {A} (fault : Fault) (body : JobDb → outcome (A * JobDb)) (d : JobDb)
    : outcome A * JobDb :=
  match body d with
  | Raise e => (Raise e, d)
  | Ok (a, d') =>
      match fault with
      | NO_FAULT => (Ok a, d')
      | BEFORE_COMMIT => (raise EDatabase "transaction failed", d)
      | AFTER_COMMIT => (raise EDatabase "connection failed after the commit", d')
      end
  end.

(** The two statements of the transaction have timestamps of their own. *)
Definition transition_body (now audited : Z) (g : LeaseGrant) (st : JobStatus.t) (e : AuditEvent) (d : JobDb)
    : outcome (JobInstance * RecordedAuditEvent * JobDb) :=
  '(job, d) ← jobs_set_status now g st d;
  match job with
  | None => raise EStaleLease
      "job transition rejected because the lease owner or fencing token is stale"
  | Some j => '(r, d) ← audit_events_add audited e d; Ok (j, r, d)
  end.
Definition transition_job_with_audit (fault : Fault) (now audited : Z) (g : LeaseGrant) (st : JobStatus.t)
    (e : AuditEvent) (c : TelemetryContext) (d : JobDb)
    : outcome (JobInstance * RecordedAuditEvent) * JobDb :=
  match validate_audit_identity e c with
  | Raise x => (Raise x, d)
  | Ok _ =>
      if bool_decide (ae_target_status e = st)
      then in_transaction fault (transition_body now audited g st e) d
      else (raise EValueError "audit payload does not match the requested job status transition", d)
  end.

(** ** Any workers, in any order *)

(** What a worker may do in one transaction, with any grant it claims to hold. *)
Inductive JobOp :=
  | OpAdd (fault : Fault) (now : Z) (spec : JobSpec)
  | OpAcquire (fault : Fault) (now : Z) (key owner : string) (duration : Z)
  | OpRenew (fault : Fault) (now : Z) (g : LeaseGrant) (duration : Z)
  | OpRelease (fault : Fault) (now : Z) (g : LeaseGrant)
  | OpTransition (fault : Fault) (now audited : Z) (g : LeaseGrant) (st : JobStatus.t) (e : AuditEvent)
      (c : TelemetryContext).
Definition op_db (op : JobOp) (d : JobDb) : JobDb :=
  match op with
  | OpAdd fault now spec => (in_transaction fault (jobs_add now spec) d).2
  | OpAcquire fault now key owner dur => (in_transaction fault (jobs_acquire now key owner dur) d).2
  | OpRenew fault now g dur => (in_transaction fault (jobs_renew now g dur) d).2
  | OpRelease fault now g => (in_transaction fault (jobs_release now g) d).2
  | OpTransition fault now audited g st e c => (transition_job_with_audit fault now audited g st e c d).2
  end.
Definition run_jobs (ops : list JobOp) (d : JobDb) : JobDb := foldl (λ d op, op_db op d) d ops.
