(* ===== verification/JobFacts.v ===== *)
(** * Facts about jobs and leases

    The history of leases is consistent with the jobs in every state that workers can
    reach, whatever their clocks, their failures and the grants they claim to hold;
    a worker whose lease was taken over can no longer write; and every status written
    has its audit record. *)

From S2P Require Import Prelude Errors Text Orders LedgerFacts Contracts Store Repos Calendar Instants Jobs.
Local Open Scope Z_scope.

(** ** The leases of a job *)

Definition leases_of (key : string) (ls : list LeaseRow) : list LeaseRow :=
  filter (λ l, le_job_key l = key) ls.
Definition tokens_of (key : string) (d : JobDb) : list Z := le_fencing_token <$> leases_of key (jd_leases d).

Definition updated (p : LeaseRow → bool) (f : LeaseRow → LeaseRow) (l : LeaseRow) : LeaseRow :=
  if p l then f l else l.

Section update_rows.
Context (p : LeaseRow → bool) (f : LeaseRow → LeaseRow).
Context (Hkey : ∀ l, le_job_key (f l) = le_job_key l) (Htoken : ∀ l, le_fencing_token (f l) = le_fencing_token l).

Lemma updated_key l : le_job_key (updated p f l) = le_job_key l.
Proof using Hkey. unfold updated. by destruct (p l). Qed.
Lemma leases_updated key ls : leases_of key (updated p f <$> ls) = updated p f <$> leases_of key ls.
Proof using Hkey.
  unfold leases_of. induction ls as [|l ls IH]; [done|]. rewrite fmap_cons, !filter_cons, updated_key.
  destruct (decide _); rewrite ?fmap_cons; by rewrite IH.
Qed.
Lemma tokens_updated key ls :
  le_fencing_token <$> leases_of key (updated p f <$> ls) = le_fencing_token <$> leases_of key ls.
Proof using Hkey Htoken.
  rewrite leases_updated, <-list_fmap_compose. apply list_fmap_ext. intros i l _. simpl. unfold updated.
  by destruct (p l).
Qed.
End update_rows.

Lemma leases_of_snoc key ls l : leases_of key (ls ++ [l]) =
  leases_of key ls ++ (if decide (le_job_key l = key) then [l] else []).
Proof. unfold leases_of. rewrite filter_app, filter_cons, filter_nil. done. Qed.
Lemma leases_of_key key ls l : l ∈ leases_of key ls → le_job_key l = key.
Proof. unfold leases_of. by intros [? _]%list_elem_of_filter. Qed.
Lemma open_lease_spec key owner token l : open_lease key owner token l = true ↔
  le_job_key l = key ∧ le_owner l = owner ∧ le_fencing_token l = token ∧ le_released_at l = None.
Proof.
  unfold open_lease. rewrite !andb_true_iff, !bool_decide_eq_true, Z.eqb_eq. tauto.
Qed.
Lemma updated_none p f (ls : list LeaseRow) : (∀ l, l ∈ ls → p l = false) → updated p f <$> ls = ls.
Proof.
  intros H. rewrite <-(list_fmap_id ls) at 2. apply list_fmap_ext. intros i l Hl%list_elem_of_lookup_2.
  unfold updated. by rewrite (H l Hl).
Qed.

(** ** The invariant *)

Definition closed (l : LeaseRow) : Prop := is_Some (le_released_at l).

Definition taken_over (l : LeaseRow) : Prop := le_release_reason l = Some "EXPIRED_TAKEOVER".
Definition takeovers_ok (ls : list LeaseRow) : Prop := ∀ i l, ls !! i = Some l → taken_over l →
  ∃ l', ls !! S i = Some l' ∧ le_released_at l = Some (le_acquired_at l') ∧ le_leased_until l ≤ le_acquired_at l'.

(** A job and the rows of its leases, oldest first: the tokens count the leases from 1,
    only the last row may be open, and it is open exactly while the job has an owner;
    a lease that was taken over had expired when its successor was acquired. *)
Record job_history (j : JobInstance) (ls : list LeaseRow) : Prop := mk_job_history {
  jh_tokens : le_fencing_token <$> ls = seqZ 1 (ji_fencing_token j);
  jh_attempts : ji_attempt_count j = ji_fencing_token j;
  jh_rows : Forall (λ l, lease_row_ok l = true) ls;
  jh_held : match ji_lease_owner j with
    | Some owner => ∃ past l, ls = past ++ [l] ∧ le_owner l = owner ∧ le_released_at l = None ∧
        ji_leased_until j = Some (le_leased_until l) ∧ Forall closed past
    | None => Forall closed ls
    end;
  jh_takeover : takeovers_ok ls;
}.
Record lease_history (d : JobDb) : Prop := mk_history {
  lh_jobs : ∀ key j, jd_instances d !! key = Some j →
    key = job_key (ji_spec j) ∧ job_row_ok j = true ∧ job_history j (leases_of key (jd_leases d));
  lh_known : ∀ key, jd_instances d !! key = None → leases_of key (jd_leases d) = [];
}.

Lemma history_empty : lease_history empty_jobs.
Proof. split; [|done]. simpl. intros key j Hj. by rewrite lookup_empty in Hj. Qed.

(** A step that changes one job and the rows of its leases. *)
Lemma history_set d key j ls audits : lease_history d → key = job_key (ji_spec j) → job_row_ok j = true →
  job_history j (leases_of key ls) →
  (∀ key', key' ≠ key → leases_of key' ls = leases_of key' (jd_leases d)) →
  lease_history (mk_JobDb (<[key := j]> (jd_instances d)) ls audits).
Proof.
  intros [H1 H2] Hkey Hrow Hj Hls. split; simpl; intros key'; (destruct (decide (key' = key)) as [->|Hne]).
  - intros j' Hj'. simplify_map_eq. done.
  - intros j' Hj'. rewrite lookup_insert_ne in Hj' by done. rewrite Hls by done. by apply H1.
  - by rewrite lookup_insert_eq.
  - rewrite lookup_insert_ne, Hls by done. apply H2.
Qed.
Lemma leases_of_other key key' owner token f ls : (∀ l, le_job_key (f l) = le_job_key l) → key' ≠ key →
  leases_of key' (updated (open_lease key owner token) f <$> ls) = leases_of key' ls.
Proof.
  intros Hf Hne. rewrite leases_updated by done. apply updated_none. intros l Hl%leases_of_key.
  apply not_true_iff_false. rewrite open_lease_spec. naive_solver.
Qed.

Lemma seqZ_snoc n : 0 ≤ n → seqZ 1 (n + 1) = seqZ 1 n ++ [n + 1].
Proof.
  intros Hn. rewrite seqZ_app by lia. f_equal. rewrite (seqZ_cons _ 1), seqZ_nil by lia. f_equal. lia.
Qed.
Lemma tokens_past n past l : le_fencing_token <$> (past ++ [l]) = seqZ 1 n →
  le_fencing_token l = n ∧ 1 ≤ n ∧ le_fencing_token <$> past = seqZ 1 (n - 1) ∧
  ∀ l', l' ∈ past → le_fencing_token l' < n.
Proof.
  rewrite fmap_app. simpl. intros H. assert (Hn : 1 ≤ n).
  { destruct (decide (1 ≤ n)); [done|]. rewrite seqZ_nil in H by lia. by apply app_nil in H as [_ ?]. }
  replace n with ((n - 1) + 1) in H by lia. rewrite seqZ_snoc in H by lia.
  apply app_inj_tail in H as [H ->]. split_and!; [lia..|done|]. intros l' Hl'.
  apply (list_elem_of_fmap_2 le_fencing_token) in Hl'. rewrite H in Hl'. apply elem_of_seqZ in Hl'. lia.
Qed.

(** The functions touch the last row only. *)
Section last_row.
Context (key owner : string) (past : list LeaseRow) (l : LeaseRow).
Context (Hk : le_job_key l = key) (Hc : Forall closed past) (Ho : le_owner l = owner) (Hr : le_released_at l = None).

Lemma open_last : open_lease key owner (le_fencing_token l) l = true.
Proof using Hk Ho Hr. by apply open_lease_spec. Qed.
Lemma closed_past l' : l' ∈ past → open_lease key owner (le_fencing_token l) l' = false.
Proof using Hc.
  intros Hl'. apply not_true_iff_false. rewrite open_lease_spec. intros (_ & _ & _ & Hn).
  rewrite Forall_forall in Hc. destruct (Hc l' Hl') as [? ?]. congruence.
Qed.
Lemma updated_last f : updated (open_lease key owner (le_fencing_token l)) f <$> (past ++ [l]) = past ++ [f l].
Proof using Hk Hc Ho Hr.
  rewrite fmap_app, updated_none by apply closed_past. simpl. unfold updated. by rewrite open_last.
Qed.
Lemma filter_last : filter (λ l', open_lease key owner (le_fencing_token l) l' = true) (past ++ [l]) = [l].
Proof using Hk Hc Ho Hr.
  rewrite filter_app. replace (filter _ past) with (@nil LeaseRow).
  { simpl. rewrite filter_cons, filter_nil, decide_True; [done|]. apply open_last. }
  symmetry. destruct (filter _ past) as [|x k] eqn:E; [done|]. exfalso.
  assert (Hx : x ∈ x :: k) by set_solver. rewrite <-E in Hx. apply list_elem_of_filter in Hx as [Hx Hin].
  rewrite closed_past in Hx by done. done.
Qed.
End last_row.

(** The row an update finds in the table. *)
Lemma filter_open key owner token ls :
  filter (λ l, open_lease key owner token l = true) ls =
  filter (λ l, open_lease key owner token l = true) (leases_of key ls).
Proof.
  unfold leases_of. rewrite list_filter_filter. apply list_filter_iff. intros l.
  rewrite open_lease_spec. tauto.
Qed.
Lemma update_leases_decides key owner f past l d : leases_of key (jd_leases d) = past ++ [l] →
  Forall closed past → le_owner l = owner → le_released_at l = None →
  update_leases (open_lease key owner (le_fencing_token l)) f d =
  (if lease_row_ok (f l)
   then Ok (1%nat, set_leases (updated (open_lease key owner (le_fencing_token l)) f <$> jd_leases d) d)
   else raise EDatabase "job_leases constraint").
Proof.
  intros Hls Hc Ho Hr. assert (Hin : l ∈ leases_of key (jd_leases d)) by (rewrite Hls; set_solver).
  pose proof (leases_of_key _ _ _ Hin) as Hk. unfold update_leases.
  rewrite filter_open, Hls, filter_last by done.
  replace (forallb _ (jd_leases d)) with (lease_row_ok (f l)); [by destruct (lease_row_ok (f l))|].
  apply eq_true_iff_eq. rewrite forallb_forall. split.
  - intros Hok l' Hl'%list_elem_of_In. destruct (open_lease _ _ _ l') eqn:E; [|done]. simpl.
    assert (Hl'' : l' ∈ filter (λ l', open_lease key owner (le_fencing_token l) l' = true) (jd_leases d))
      by by apply list_elem_of_filter.
    rewrite filter_open, Hls, filter_last in Hl'' by done. set_solver.
  - intros H. specialize (H l). rewrite open_last in H by done. apply H, list_elem_of_In.
    unfold leases_of in Hin. by apply list_elem_of_filter in Hin as [_ ?].
Qed.

(** ** The history of one job under each function *)

Lemma history_new spec now : job_history (mk_Job spec JobStatus.PLANNED None None 0 0 now now) [].
Proof. split; simpl; try done; by constructor. Qed.
Lemma history_status j ls now st : job_history j ls → job_history (with_updated_at now (with_job_status st j)) ls.
Proof. intros [H1 H2 H3 H4 H5]. by split. Qed.

(** Takeovers of rows before the last depend on when the last was acquired. *)
Lemma takeovers_past past l l' rest i x : takeovers_ok (past ++ [l]) → le_acquired_at l' = le_acquired_at l →
  past !! i = Some x → taken_over x →
  ∃ y, (past ++ l' :: rest) !! S i = Some y ∧ le_released_at x = Some (le_acquired_at y) ∧
    le_leased_until x ≤ le_acquired_at y.
Proof.
  intros H Ha Hx Hx'. pose proof (lookup_lt_Some _ _ _ Hx) as Hi.
  destruct (H i x) as (y & Hy & Hxy); [by rewrite lookup_app_l by done|done|].
  destruct (decide (S i < length past)%nat) as [Hlt|Hge].
  - exists y. rewrite lookup_app_l in * by done. done.
  - replace (S i) with (length past) in * by lia. rewrite list_lookup_middle in * by done.
    simplify_eq. exists l'. by rewrite Ha.
Qed.
Lemma takeovers_last past l l' : takeovers_ok (past ++ [l]) → le_acquired_at l' = le_acquired_at l →
  ¬ taken_over l' → takeovers_ok (past ++ [l']).
Proof.
  intros H Ha Hl i x Hx Hx'. apply lookup_app_Some in Hx as [Hx|[_ Hx]]; [by eapply takeovers_past|].
  by apply list_lookup_singleton_Some in Hx as [_ <-].
Qed.
Lemma takeovers_snoc ls l : takeovers_ok ls → ¬ taken_over l → takeovers_ok (ls ++ [l]).
Proof.
  intros H Hl i x Hx Hx'. apply lookup_app_Some in Hx as [Hx|[_ Hx]].
  - destruct (H i x Hx Hx') as (y & Hy & Hxy). exists y. split; [|done].
    rewrite lookup_app_l; [done|by eapply lookup_lt_Some].
  - by apply list_lookup_singleton_Some in Hx as [_ <-].
Qed.
Lemma takeovers_taken past l l' n : takeovers_ok (past ++ [l]) → le_acquired_at l' = le_acquired_at l →
  le_released_at l' = Some (le_acquired_at n) → le_leased_until l' ≤ le_acquired_at n → ¬ taken_over n →
  takeovers_ok (past ++ [l'; n]).
Proof.
  intros H Ha Hr Hu Hn i x Hx Hx'. apply lookup_app_Some in Hx as [Hx|[Hi Hx]]; [by eapply takeovers_past|].
  exists n. rewrite lookup_app_r by lia. rewrite Nat.sub_succ_l by done.
  destruct (i - length past)%nat as [|[|k]]; simpl in *; by simplify_eq.
Qed.
Lemma open_row_not_taken l : lease_row_ok l = true → le_released_at l = None → ¬ taken_over l.
Proof.
  unfold lease_row_ok, taken_over. intros H Hr Ht. by rewrite Hr, Ht, andb_false_r in H.
Qed.

(** The last row may be changed in its end and its release, not in its token. *)
Lemma history_last j j' past l l' : job_history j (past ++ [l]) → Forall closed past →
  le_fencing_token l' = le_fencing_token l → le_acquired_at l' = le_acquired_at l → lease_row_ok l' = true →
  ¬ taken_over l' → ji_fencing_token j' = ji_fencing_token j → ji_attempt_count j' = ji_attempt_count j →
  match ji_lease_owner j' with
  | Some owner => le_owner l' = owner ∧ le_released_at l' = None ∧ ji_leased_until j' = Some (le_leased_until l')
  | None => closed l'
  end → job_history j' (past ++ [l']).
Proof.
  intros [H1 H2 H3 _ H5] Hc Ht Ha Hok Hreason Hj1 Hj2 Howner. split; [| |..].
  - rewrite Hj1, <-H1, !fmap_app. simpl. by rewrite Ht.
  - congruence.
  - apply Forall_app in H3 as [H3 _]. apply Forall_app. auto.
  - destruct (ji_lease_owner j') as [o|]; [exists past, l'; naive_solver|]. apply Forall_app. auto.
  - by eapply takeovers_last.
Qed.

(** A lease is granted after closed ones. *)
Lemma history_snoc j' ls l n : le_fencing_token <$> ls = seqZ 1 n → 0 ≤ n →
  Forall (λ l, lease_row_ok l = true) ls → Forall closed ls → takeovers_ok (ls ++ [l]) →
  le_fencing_token l = n + 1 → ji_fencing_token j' = n + 1 → ji_attempt_count j' = n + 1 →
  lease_row_ok l = true → le_released_at l = None → ji_lease_owner j' = Some (le_owner l) →
  ji_leased_until j' = Some (le_leased_until l) → job_history j' (ls ++ [l]).
Proof.
  intros H1 H0 H3 Hc H5 Ht Hj1 Hj2 Hok Hr Ho Hu. split; [..|done].
  - rewrite fmap_app, H1, Hj1. simpl. by rewrite seqZ_snoc, Ht by done.
  - congruence.
  - apply Forall_app. auto.
  - rewrite Ho. by exists ls, l.
Qed.

(** ** What each function does to the tables *)

Lemma update_job_Ok now s old new d j d' : update_job now s old new d = Ok (j, d') →
  ji_spec new = ji_spec old ∧ (ji_status new = ji_status old ∨ asserts_lease now s old = true) ∧
  j = with_updated_at now new ∧ job_row_ok j = true ∧ d' = set_instance j d.
Proof.
  unfold update_job, guard_job_instance_status_write. intros H. ok_steps.
  match goal with H : _ || asserts_lease _ _ _ = true |- _ => apply orb_true_iff in H; rewrite bool_decide_eq_true in H end.
  ok_facts. by subst.
Qed.
Lemma job_key_nonblank spec : sql_blank (job_key spec) = false.
Proof.
  unfold sql_blank, job_key. induction (trading_date_text (js_trading_date spec)) as [|a s IH]; [done|].
  change (is_char " " a && sql_blank (s +:+ ("/" +:+ (js_job_type spec +:+ ("/" +:+ js_window spec)))) = false).
  unfold sql_blank. by rewrite IH, andb_false_r.
Qed.

(** The state after a grant to [owner]. *)
Definition granted_job (now : Z) (owner : string) (lease_for : Z) (c : JobInstance) : JobInstance :=
  with_updated_at now (with_lease (Some owner) (Some (now + lease_for)) (ji_fencing_token c + 1)
    (ji_attempt_count c + 1) c).
Definition closed_leases (now : Z) (c : JobInstance) (ls : list LeaseRow) : list LeaseRow :=
  match ji_lease_owner c with
  | Some o => updated (open_lease (job_key (ji_spec c)) o (ji_fencing_token c)) (close_lease now "EXPIRED_TAKEOVER") <$> ls
  | None => ls
  end.
Definition new_lease (now : Z) (key owner : string) (lease_for : Z) (c : JobInstance) : LeaseRow :=
  mk_Lease key owner (ji_fencing_token c + 1) now now (now + lease_for) None None.
Definition granted (now : Z) (key owner : string) (lease_for : Z) (c : JobInstance) (d : JobDb) : JobDb :=
  mk_JobDb (<[key := granted_job now owner lease_for c]> (jd_instances d))
    (closed_leases now c (jd_leases d) ++ [new_lease now key owner lease_for c]) (jd_audits d).

Lemma granted_row_ok now owner lease_for c ls : job_row_ok c = true → job_history c ls →
  lease_owner_ok owner = true →
  job_row_ok (granted_job now owner lease_for c) = (ji_fencing_token c <? INTEGER_MAX).
Proof.
  intros H Hc Ho. pose proof (jh_attempts _ _ Hc) as Ha. apply eq_true_iff_eq.
  unfold job_row_ok, INTEGER_MAX, BIGINT_MAX in *. rewrite !andb_true_iff in *. simpl.
  rewrite Ho, Ha, !Z.leb_le, !Z.ltb_lt in *. intuition lia.
Qed.

(** Facts of a job of a consistent state. *)
Lemma job_row_token j : job_row_ok j = true → 0 ≤ ji_fencing_token j ≤ BIGINT_MAX.
Proof. unfold job_row_ok. rewrite !andb_true_iff, !Z.leb_le. tauto. Qed.
Lemma closed_row_ok now reason l : lease_row_ok l = true → lease_row_ok (close_lease now reason l) = true.
Proof. unfold lease_row_ok. simpl. rewrite !andb_true_iff. tauto. Qed.
Lemma history_rows j ls l : job_history j ls → l ∈ ls → lease_row_ok l = true.
Proof. intros H. pose proof (jh_rows _ _ H) as Hr. rewrite Forall_forall in Hr. apply Hr. Qed.

(** The lease of a job with an owner. *)
Lemma history_held j ls owner : job_history j ls → ji_lease_owner j = Some owner →
  ∃ past l, ls = past ++ [l] ∧ le_owner l = owner ∧ le_released_at l = None ∧
    ji_leased_until j = Some (le_leased_until l) ∧ Forall closed past ∧
    le_fencing_token l = ji_fencing_token j ∧ le_fencing_token <$> past = seqZ 1 (ji_fencing_token j - 1) ∧
    1 ≤ ji_fencing_token j ∧ lease_row_ok l = true.
Proof.
  intros H Ho. pose proof (jh_held _ _ H) as Hh. rewrite Ho in Hh. destruct Hh as (past & l & -> & Hh).
  exists past, l. destruct (tokens_past _ _ _ (jh_tokens _ _ H)) as (? & ? & ? & _).
  split_and!; try tauto. apply (history_rows j (past ++ [l])); [done|set_solver].
Qed.

(** A lease is granted when none is open: the rows before are closed, and the row of an
    expired lease is closed at the time of the grant. *)
Lemma closed_leases_history now c ls n : job_history c (leases_of (job_key (ji_spec c)) ls) →
  unexpired now c = false → le_acquired_at n = now → ¬ taken_over n →
  le_fencing_token <$> leases_of (job_key (ji_spec c)) (closed_leases now c ls) = seqZ 1 (ji_fencing_token c) ∧
  Forall (λ l, lease_row_ok l = true) (leases_of (job_key (ji_spec c)) (closed_leases now c ls)) ∧
  Forall closed (leases_of (job_key (ji_spec c)) (closed_leases now c ls)) ∧
  takeovers_ok (leases_of (job_key (ji_spec c)) (closed_leases now c ls) ++ [n]).
Proof.
  intros H Hu Hn Hn'. unfold closed_leases. destruct (ji_lease_owner c) as [o|] eqn:Ho.
  - destruct (history_held _ _ _ H Ho) as (past & l & Hls & Hlo & Hr & Huntil & Hc & Ht & _ & _ & Hok).
    assert (Hk : le_job_key l = job_key (ji_spec c)) by (apply (leases_of_key _ ls); rewrite Hls; set_solver).
    rewrite leases_updated by done. rewrite Hls, <-Ht, updated_last by done. split_and!.
    + rewrite Ht, <-(jh_tokens _ _ H), Hls, !fmap_app. done.
    + pose proof (jh_rows _ _ H) as Hrows. rewrite Hls in Hrows. apply Forall_app in Hrows as [? _].
      apply Forall_app. split; [done|]. constructor; [by apply closed_row_ok|done].
    + apply Forall_app. split; [done|]. constructor; [by eexists|done].
    + rewrite <-app_assoc. apply takeovers_taken with l; simpl; try done; [|by rewrite Hn|].
      * rewrite <-Hls. apply (jh_takeover _ _ H).
      * unfold unexpired in Hu. rewrite Huntil in Hu. apply Z.ltb_ge in Hu. by rewrite Hn.
  - split_and!; [apply (jh_tokens _ _ H)|apply (jh_rows _ _ H)| |].
    + pose proof (jh_held _ _ H) as Hh. by rewrite Ho in Hh.
    + by apply takeovers_snoc, Hn'; apply (jh_takeover _ _ H).
Qed.
Lemma close_expired_decides now c d : job_history c (leases_of (job_key (ji_spec c)) (jd_leases d)) →
  close_expired now c d = Ok (set_leases (closed_leases now c (jd_leases d)) d).
Proof.
  intros H. unfold close_expired, closed_leases. destruct (ji_lease_owner c) as [o|] eqn:Ho; [|by destruct d].
  destruct (history_held _ _ _ H Ho) as (past & l & Hls & Hlo & Hr & _ & Hc & <- & _ & _ & Hok).
  erewrite update_leases_decides by done. by rewrite closed_row_ok.
Qed.
Lemma insert_lease_decides now key owner token lease_for d : 0 < lease_for → 0 < token ≤ BIGINT_MAX →
  lease_owner_ok owner = true → le_fencing_token <$> leases_of key (jd_leases d) = seqZ 1 (token - 1) →
  Forall closed (leases_of key (jd_leases d)) →
  insert_lease now key owner token (now + lease_for) d =
  Ok (set_leases (jd_leases d ++ [mk_Lease key owner token now now (now + lease_for) None None]) d).
Proof.
  intros Hd Ht Ho Hs Hc. unfold insert_lease, lease_row_ok. simpl. rewrite Ho.
  rewrite (proj2 (Z.ltb_lt 0 token)), (proj2 (Z.leb_le token _)), (proj2 (Z.ltb_lt now _)) by lia. simpl.
  replace (forallb _ (jd_leases d)) with true; [done|]. symmetry. apply forallb_forall. intros l Hl%list_elem_of_In.
  apply negb_true_iff, not_true_iff_false. rewrite andb_true_iff, orb_true_iff, !bool_decide_eq_true, Z.eqb_eq.
  intros [Hk Hb]. assert (Hin : l ∈ leases_of key (jd_leases d)) by by apply list_elem_of_filter.
  destruct Hb as [Hb|Hb].
  - apply (list_elem_of_fmap_2 le_fencing_token) in Hin. rewrite Hs in Hin. apply elem_of_seqZ in Hin. lia.
  - rewrite Forall_forall in Hc. destruct (Hc l Hin) as [? ?]. congruence.
Qed.
Lemma acquire_job_lease_decides d key c now owner dur : lease_history d → jd_instances d !! key = Some c →
  lease_duration_ok dur = true → lease_owner_ok owner = true →
  acquire_job_lease now key owner dur d =
  if unexpired now c then Ok (None, d)
  else if ji_fencing_token c <? INTEGER_MAX
  then Ok (Some (grant_of key (granted_job now owner dur c) owner (now + dur) now), granted now key owner dur c d)
  else raise EDatabase "job_instances constraint".
Proof.
  intros H Hc Hd Ho. destruct (lh_jobs d H _ _ Hc) as (-> & Hrow & Hh). unfold acquire_job_lease.
  rewrite Hd, Ho, job_key_nonblank, Hc. simpl. destruct (unexpired now c) eqn:Hu; [done|].
  unfold update_job, guard_job_instance_status_write. simpl. rewrite !bool_decide_true, orb_true_r by done. simpl.
  fold (granted_job now owner dur c). erewrite granted_row_ok by done.
  destruct (Z.ltb_spec (ji_fencing_token c) INTEGER_MAX) as [Hlt|]; [|done]. simpl.
  rewrite close_expired_decides by done. simpl.
  destruct (closed_leases_history now c (jd_leases d) (new_lease now "" owner dur c) Hh Hu) as (H1 & _ & H3 & _); try done.
  unfold lease_duration_ok in Hd. ok_facts.
  rewrite insert_lease_decides; simpl; try done; [apply job_row_token in Hrow; unfold INTEGER_MAX, BIGINT_MAX in *; lia|].
  by rewrite H1, Z.add_simpl_r.
Qed.

(** ** Every step keeps the history *)

Lemma held_job_Some now key owner token d j : held_job now key owner token d = Some j ↔
  jd_instances d !! key = Some j ∧ ji_lease_owner j = Some owner ∧ ji_fencing_token j = token ∧
  unexpired now j = true.
Proof.
  unfold held_job. rewrite bind_Some. split.
  - intros (j' & Hj & Hif). destruct (_ && _ && _) eqn:E; [|done]. injection Hif as <-.
    rewrite !andb_true_iff, bool_decide_eq_true, Z.eqb_eq in E. tauto.
  - intros (Hj & Ho & Ht & Hu). exists j. split; [done|]. by rewrite Ho, Ht, Hu, Z.eqb_refl, bool_decide_true.
Qed.

(** The holder of the open lease changes its job and that row. *)
Lemma history_update d key owner f j j' n d' : lease_history d → jd_instances d !! key = Some j →
  ji_lease_owner j = Some owner → ji_spec j' = ji_spec j → job_row_ok j' = true →
  ji_fencing_token j' = ji_fencing_token j → ji_attempt_count j' = ji_attempt_count j →
  (∀ l, le_job_key (f l) = le_job_key l ∧ le_fencing_token (f l) = le_fencing_token l ∧
        le_acquired_at (f l) = le_acquired_at l) →
  (∀ l, le_owner l = owner → le_released_at l = None → ¬ taken_over l → ¬ taken_over (f l) ∧
    match ji_lease_owner j' with
    | Some o => le_owner (f l) = o ∧ le_released_at (f l) = None ∧ ji_leased_until j' = Some (le_leased_until (f l))
    | None => closed (f l)
    end) →
  update_leases (open_lease key owner (ji_fencing_token j)) f (set_instance j' d) = Ok (n, d') →
  lease_history d'.
Proof.
  intros H Hj Ho Hspec Hrow Ht Ha Hf Hlast Hup. destruct (lh_jobs d H _ _ Hj) as (-> & _ & Hh).
  destruct (history_held _ _ _ Hh Ho) as (past & l & Hls & Hlo & Hr & _ & Hc & Hlt & _ & _ & Hok).
  assert (Hk : le_job_key l = job_key (ji_spec j)) by (eapply leases_of_key; rewrite Hls; set_solver).
  rewrite <-Hlt in Hup. erewrite update_leases_decides in Hup by done.
  destruct (lease_row_ok (f l)) eqn:Hfl; [|done]. injection Hup as _ <-. rewrite Hlt.
  unfold set_leases, set_instance. simpl. rewrite Hspec.
  destruct (Hlast l) as [Hn Howner]; [done..|by apply open_row_not_taken|].
  apply history_set; try done; [by rewrite Hspec| |].
  - rewrite <-Hlt. rewrite leases_updated, Hls, updated_last by naive_solver. rewrite Hls in Hh.
    eapply history_last; try done; apply Hf.
  - intros key' Hne. apply leases_of_other; [apply Hf|done].
Qed.
Lemma lease_history_status d key j j' : lease_history d → jd_instances d !! key = Some j →
  ji_spec j' = ji_spec j → job_row_ok j' = true → job_history j' (leases_of key (jd_leases d)) →
  lease_history (set_instance j' d).
Proof.
  intros H Hj Hspec Hrow Hh. destruct (lh_jobs d H _ _ Hj) as (-> & _ & _). unfold set_instance. rewrite Hspec.
  by apply history_set; [|rewrite Hspec|..].
Qed.

Lemma add_history now spec d r : lease_history d → jobs_add now spec d = Ok r → lease_history r.2.
Proof.
  unfold jobs_add. intros H Hr. destruct (jd_instances d !! job_key spec) eqn:Hk; ok_steps; subst; [done|].
  unfold decode_job in *. ok_steps. subst. simpl. unfold set_instance. simpl.
  apply history_set; try done. simpl. rewrite (lh_known d H _ Hk). apply history_new.
Qed.
Lemma acquire_Ok now key owner dur d r : lease_history d → acquire_job_lease now key owner dur d = Ok r →
  r.2 = d ∨ ∃ c, jd_instances d !! key = Some c ∧ unexpired now c = false ∧ lease_duration_ok dur = true ∧
    lease_owner_ok owner = true ∧ ji_fencing_token c < INTEGER_MAX ∧ r.2 = granted now key owner dur c d.
Proof.
  intros H Hr. destruct (jd_instances d !! key) as [c|] eqn:Hc; cycle 1.
  { left. unfold acquire_job_lease in Hr. rewrite Hc in Hr. ok_steps. by subst. }
  assert (Hv : lease_duration_ok dur = true ∧ lease_owner_ok owner = true).
  { unfold acquire_job_lease in Hr. by ok_steps. }
  destruct Hv as [Hd Ho]. rewrite acquire_job_lease_decides with (c := c) in Hr by done.
  destruct (unexpired now c) eqn:Hu; [left; by injection Hr as <-|].
  destruct (Z.ltb_spec (ji_fencing_token c) INTEGER_MAX) as [Hlt|]; [|done]. injection Hr as <-. right.
  by exists c.
Qed.
Lemma acquire_history now key owner dur d r : lease_history d → acquire_job_lease now key owner dur d = Ok r →
  lease_history r.2.
Proof.
  intros H Hr. destruct (acquire_Ok _ _ _ _ _ _ H Hr) as [->|(c & Hc & Hu & Hd & Ho & Hlt & ->)]; [done|].
  destruct (lh_jobs d H _ _ Hc) as (-> & Hrow & Hh). unfold lease_duration_ok in Hd. ok_facts.
  pose proof (job_row_token _ Hrow) as Htok. set (n := new_lease now (job_key (ji_spec c)) owner dur c).
  assert (Hn : lease_row_ok n = true).
  { unfold lease_row_ok, n, BIGINT_MAX, INTEGER_MAX in *. simpl. rewrite Ho, !andb_true_iff, !Z.ltb_lt, Z.leb_le. lia. }
  destruct (closed_leases_history now c (jd_leases d) n Hh Hu) as (H1 & H2 & H3 & H4); [done..|].
  apply history_set; try done.
  - rewrite (granted_row_ok _ _ _ _ _ Hrow Hh Ho). by apply Z.ltb_lt.
  - rewrite leases_of_snoc, decide_True by done.
    apply (history_snoc _ _ _ (ji_fencing_token c)); try done; [lia|]. simpl. by rewrite (jh_attempts _ _ Hh).
  - intros key' Hne. rewrite leases_of_snoc, decide_False, app_nil_r by done. unfold closed_leases.
    destruct (ji_lease_owner c); [by apply leases_of_other|done].
Qed.
(** What the holder's functions write, when they write. *)
Definition holder_writes (now : Z) (key owner : string) (token : Z) (new : JobInstance → JobInstance)
    (f : LeaseRow → LeaseRow) (d d' : JobDb) : Prop :=
  d' = d ∨ ∃ j n, jd_instances d !! key = Some j ∧ ji_lease_owner j = Some owner ∧ ji_fencing_token j = token ∧
    job_row_ok (with_updated_at now (new j)) = true ∧
    update_leases (open_lease key owner token) f (set_instance (with_updated_at now (new j)) d) = Ok (n, d').
Ltac holder_step :=
  intros; let j := fresh in let Hj := fresh in destruct (held_job _ _ _ _ _) as [j|] eqn:Hj; ok_steps; [right|left; by subst];
  apply held_job_Some in Hj as (Hj & ? & ? & _); exists j;
  match goal with x : JobInstance * JobDb |- _ => destruct x end;
  match goal with H : update_job _ _ _ _ _ = _ |- _ => apply update_job_Ok in H as (_ & _ & -> & ? & ->) end;
  ok_steps; match goal with x : nat * JobDb |- _ => destruct x as [n ?]; ok_steps; subst; by exists n end.
Lemma renew_Ok now key owner token dur d r : renew_job_lease now key owner token dur d = Ok r →
  holder_writes now key owner token (λ j, with_lease (Some owner) (Some (now + dur)) (ji_fencing_token j)
    (ji_attempt_count j) j) (extend_lease now (now + dur)) d r.2.
Proof. unfold renew_job_lease, holder_writes. holder_step. Qed.
Lemma release_Ok now key owner token reason d r : release_job_lease now key owner token reason d = Ok r →
  holder_writes now key owner token (λ j, with_lease None None (ji_fencing_token j) (ji_attempt_count j) j)
    (close_lease now reason) d r.2.
Proof. unfold release_job_lease, holder_writes. holder_step. Qed.

Lemma renew_history now key owner token dur d r : lease_history d →
  renew_job_lease now key owner token dur d = Ok r → lease_history r.2.
Proof.
  intros H [->|(j & n & Hj & Ho & <- & Hrow & Hup)]%renew_Ok; [done|].
  by eapply history_update; [exact H|exact Hj|exact Ho| |exact Hrow|..|exact Hup].
Qed.
Lemma release_history now key owner token d r : lease_history d →
  release_job_lease now key owner token "released_by_owner" d = Ok r → lease_history r.2.
Proof.
  intros H [->|(j & n & Hj & Ho & <- & Hrow & Hup)]%release_Ok; [done|].
  eapply history_update; [exact H|exact Hj|exact Ho| |exact Hrow|..|exact Hup]; try done.
  intros l _ _ _. split; [done|by eexists].
Qed.
Lemma set_status_Ok now g st d oj d' : jobs_set_status now g st d = Ok (oj, d') →
  match oj with
  | None => d' = d
  | Some j' => ∃ j, held_job now (lg_job_key g) (lg_lease_owner g) (lg_fencing_token g) d = Some j ∧
      j' = with_updated_at now (with_job_status st j) ∧ job_row_ok j' = true ∧ d' = set_instance j' d
  end.
Proof.
  unfold jobs_set_status, transition_job_status, decode_job. intros H. destruct (held_job _ _ _ _ _) as [j|] eqn:Hj.
  - ok_steps. destruct x1 as [j1 d1]. apply update_job_Ok in H2 as (_ & _ & -> & Hrow & ->).
    injection H0 as <-. ok_steps. subst. ok_steps. subst. by exists j.
  - ok_steps. match goal with H : (None, _) = _ |- _ => destruct H end. by ok_steps; subst.
Qed.

(** ** Transactions *)

Lemma in_transaction_db {A} fault (body : JobDb → outcome (A * JobDb)) d :
  (in_transaction fault body d).2 = d ∨
  ∃ a, body d = Ok (a, (in_transaction fault body d).2) ∧ fault ≠ BEFORE_COMMIT.
Proof.
  unfold in_transaction. destruct (body d) as [[a d']|x]; [|by left].
  destruct fault; [right|by left|right]; by exists a.
Qed.
(** A property of the state every body keeps is kept by its transaction. *)
Lemma in_transaction_keeps {A} (P : JobDb → Prop) fault (body : JobDb → outcome (A * JobDb)) d :
  P d → (∀ r, body d = Ok r → P r.2) → P (in_transaction fault body d).2.
Proof.
  intros H Hb. destruct (in_transaction_db fault body d) as [->|(a & Ha & _)]; [done|]. apply (Hb _ Ha).
Qed.
Lemma transition_body_Ok now audited g st e d j r d' : transition_body now audited g st e d = Ok (j, r, d') →
  ∃ j0, held_job now (lg_job_key g) (lg_lease_owner g) (lg_fencing_token g) d = Some j0 ∧
    j = with_updated_at now (with_job_status st j0) ∧ job_row_ok j = true ∧ r = mk_RecordedAudit e audited ∧
    d' = add_audit r (set_instance j d).
Proof.
  unfold transition_body, audit_events_add. intros H. ok_steps. destruct x as [[j1|] d1]; [|done].
  match goal with H : jobs_set_status _ _ _ _ = _ |- _ => apply set_status_Ok in H as (j0 & Hj & -> & Hrow & ->) end.
  ok_steps. subst. ok_steps. subst. by exists j0.
Qed.
Lemma transition_db fault now audited g st e c d : let d' := (transition_job_with_audit fault now audited g st e c d).2 in
  d' = d ∨
  ∃ j, ae_target_status e = st ∧ fault ≠ BEFORE_COMMIT ∧
    held_job now (lg_job_key g) (lg_lease_owner g) (lg_fencing_token g) d = Some j ∧
    job_row_ok (with_updated_at now (with_job_status st j)) = true ∧
    d' = add_audit (mk_RecordedAudit e audited) (set_instance (with_updated_at now (with_job_status st j)) d).
Proof.
  unfold transition_job_with_audit. simpl. destruct (validate_audit_identity e c); [|by left].
  destruct (bool_decide_reflect (ae_target_status e = st)) as [Hst|]; [|by left].
  destruct (in_transaction_db fault (transition_body now audited g st e) d) as [->|([j r] & Hr & Hf)]; [by left|].
  right. apply transition_body_Ok in Hr as (j0 & Hj & -> & Hrow & -> & Hd). by exists j0.
Qed.

Lemma op_history op d : lease_history d → lease_history (op_db op d).
Proof.
  intros H. destruct op; simpl; try apply in_transaction_keeps; try done.
  - intros r. by apply add_history.
  - intros r Hr. unfold jobs_acquire in Hr. ok_steps. destruct x as [og d1]. ok_steps. subst. simpl.
    by apply (acquire_history now key owner duration d (og, d1)).
  - intros r Hr. unfold jobs_renew in Hr. ok_steps. destruct x as [og d1]. ok_steps. subst. simpl.
    by eapply (renew_history _ _ _ _ _ d (og, d1)).
  - intros r. by apply release_history.
  - destruct (transition_db fault now audited g st e c d) as [->|(j & _ & _ & Hj & Hrow & ->)]; [done|].
    apply held_job_Some in Hj as (Hj & _ & _ & _). destruct (lh_jobs d H _ _ Hj) as (_ & _ & Hh).
    assert (H' : lease_history (set_instance (with_updated_at now (with_job_status st j)) d)).
    { eapply lease_history_status; try done. by apply history_status. }
    destruct H' as [H1 H2]. by split.
Qed.
Lemma run_jobs_history ops d : lease_history d → lease_history (run_jobs ops d).
Proof. unfold run_jobs. revert d. induction ops as [|op ops IH]; simpl; [done|]. intros d H. by apply IH, op_history. Qed.
Lemma reachable_history ops : lease_history (run_jobs ops empty_jobs).
Proof. apply run_jobs_history, history_empty. Qed.

(** ** Tokens grow, and the lease functions write no status *)

Definition grows (d d' : JobDb) : Prop := ∀ key j, jd_instances d !! key = Some j →
  ∃ j', jd_instances d' !! key = Some j' ∧ ji_fencing_token j ≤ ji_fencing_token j'.
Definition quiet (d d' : JobDb) : Prop := jd_audits d' = jd_audits d ∧
  ∀ key j, jd_instances d !! key = Some j →
  ∃ j', jd_instances d' !! key = Some j' ∧ ji_fencing_token j ≤ ji_fencing_token j' ∧ ji_status j' = ji_status j.
#[global] Instance grows_preorder : PreOrder grows.
Proof.
  split.
  - intros d key j Hj. by exists j.
  - intros d1 d2 d3 H12 H23 key j Hj. destruct (H12 _ _ Hj) as (j2 & Hj2 & Hle).
    destruct (H23 _ _ Hj2) as (j3 & Hj3 & Hle'). exists j3. split; [done|lia].
Qed.
#[global] Instance quiet_reflexive : Reflexive quiet.
Proof. intros d. split; [done|]. intros key j Hj. by exists j. Qed.
Lemma quiet_grows d d' : quiet d d' → grows d d'.
Proof. intros [_ H] key j Hj. destruct (H _ _ Hj) as (j' & ? & ? & _). by exists j'. Qed.

Lemma lookup_set {d : JobDb} {key} (R : JobInstance → JobInstance → Prop) `{!Reflexive R} j j' :
  jd_instances d !! key = Some j → R j j' →
  ∀ k x, jd_instances d !! k = Some x → ∃ x', <[key := j']> (jd_instances d) !! k = Some x' ∧ R x x'.
Proof. intros Hj HR k x Hx. destruct (decide (k = key)) as [->|Hne]; simplify_map_eq; by eexists. Qed.
Definition later (j j' : JobInstance) : Prop :=
  ji_fencing_token j ≤ ji_fencing_token j' ∧ ji_status j' = ji_status j.
#[global] Instance later_reflexive : Reflexive later.
Proof. by intros j. Qed.
Definition token_le (j j' : JobInstance) : Prop := ji_fencing_token j ≤ ji_fencing_token j'.
#[global] Instance token_le_reflexive : Reflexive token_le.
Proof. intros j. unfold token_le. lia. Qed.
Lemma quiet_set d key j j' ls : jd_instances d !! key = Some j → later j j' →
  quiet d (mk_JobDb (<[key := j']> (jd_instances d)) ls (jd_audits d)).
Proof. intros Hj Hl. split; [done|]. by apply (lookup_set later j j'). Qed.
Lemma update_leases_Ok p f d n d' : update_leases p f d = Ok (n, d') →
  d' = set_leases (updated p f <$> jd_leases d) d.
Proof. unfold update_leases. intros H. by ok_steps. Qed.

Lemma add_quiet now spec d r : jobs_add now spec d = Ok r → quiet d r.2.
Proof.
  unfold jobs_add, decode_job. destruct (jd_instances d !! job_key spec) eqn:Hk; intros H; ok_steps; subst; [done|].
  ok_steps. subst. split; [done|]. intros key j Hj. exists j. split; [|done]. simpl.
  rewrite lookup_insert_ne; [done|congruence].
Qed.
Lemma acquire_quiet now key owner dur d r : lease_history d → acquire_job_lease now key owner dur d = Ok r →
  quiet d r.2.
Proof.
  intros H Hr. destruct (acquire_Ok _ _ _ _ _ _ H Hr) as [->|(c & Hc & _ & _ & _ & _ & ->)]; [done|].
  apply (quiet_set d key c); [done|]. split; [simpl; lia|done].
Qed.
Lemma holder_quiet now key owner token new f d d' : lease_history d →
  (∀ j, ji_spec (new j) = ji_spec j ∧ later j (new j)) →
  holder_writes now key owner token new f d d' → quiet d d'.
Proof.
  intros H Hnew [->|(j & n & Hj & _ & _ & _ & ->%update_leases_Ok)]; [done|].
  destruct (lh_jobs d H _ _ Hj) as (-> & _), (Hnew j) as [Hspec Ht]. unfold set_leases, set_instance. simpl.
  rewrite Hspec. by apply (quiet_set d _ j).
Qed.
Lemma op_quiet op d : lease_history d →
  match op with OpTransition _ _ _ _ _ _ _ => True | _ => quiet d (op_db op d) end.
Proof.
  intros H. destruct op; simpl; try done; apply (in_transaction_keeps (quiet d)); try done; intros r Hr.
  - by eapply add_quiet.
  - unfold jobs_acquire in Hr. ok_steps. destruct x as [og d1]. ok_steps. subst. simpl.
    by eapply (acquire_quiet _ _ _ _ d (og, d1)).
  - unfold jobs_renew in Hr. ok_steps. destruct x as [og d1]. ok_steps. subst. simpl.
    by eapply holder_quiet, (renew_Ok _ _ _ _ _ d (og, d1)).
  - by eapply holder_quiet, release_Ok.
Qed.
Lemma transition_writes fault now audited g st e c d : lease_history d →
  let d' := (transition_job_with_audit fault now audited g st e c d).2 in
  d' = d ∨
  ∃ j, ae_target_status e = st ∧ fault ≠ BEFORE_COMMIT ∧
    held_job now (lg_job_key g) (lg_lease_owner g) (lg_fencing_token g) d = Some j ∧
    d' = mk_JobDb (<[lg_job_key g := with_updated_at now (with_job_status st j)]> (jd_instances d))
      (jd_leases d) (jd_audits d ++ [mk_RecordedAudit e audited]).
Proof.
  intros H d'. destruct (transition_db fault now audited g st e c d) as [|(j & ? & ? & Hj & _ & Hd)]; [by left|].
  right. exists j. split_and!; try done. unfold d'. rewrite Hd. apply held_job_Some in Hj as (Hj & _).
  destruct (lh_jobs d H _ _ Hj) as (-> & _). done.
Qed.
Lemma op_grows op d : lease_history d → grows d (op_db op d).
Proof.
  intros H. pose proof (op_quiet op d H) as Hq. destruct op; try by apply quiet_grows. simpl.
  destruct (transition_writes fault now audited g st e c d H) as [->|(j & _ & _ & Hj & ->)]; [done|].
  apply held_job_Some in Hj as (Hj & _). intros key x.
  apply (lookup_set token_le j); [done|]. unfold token_le. simpl. lia.
Qed.
Lemma run_jobs_grows ops d : lease_history d → grows d (run_jobs ops d).
Proof.
  unfold run_jobs. revert d. induction ops as [|op ops IH]; simpl; [done|]. intros d H.
  etrans; [by apply op_grows|]. by apply IH, op_history.
Qed.

Lemma grant_ok g : lg_job_key g ≠ "" → lease_owner_ok (lg_lease_owner g) = true → 1 ≤ lg_fencing_token g →
  1 ≤ lg_attempt_count g → lg_database_time g < lg_leased_until g → check_LeaseGrant g = Ok ().
Proof.
  intros Hk Ho Ht Ha Hu. unfold check_LeaseGrant. rewrite bool_decide_false, Ho by done.
  by rewrite !(proj2 (Z.leb_le 1 _)), (proj2 (Z.ltb_lt _ _)).
Qed.

(** ** The properties *)

(** C15. In every state that workers reach from the empty tables, whatever the order of
    their transactions, the database clock each statement reads, the failures before or
    after a commit and the grants they claim to hold: the fencing tokens of a job's
    leases count 1, 2, ... up to the job's token and attempt count, at most the last lease
    is open, it is open exactly while the job has an owner and agrees with the job's
    owner, expiry and token, and a lease that was taken over had expired when its
    successor was acquired, which closed it at that time. *)
Theorem lease_history_consistent ops : lease_history (run_jobs ops empty_jobs).
Proof. apply reachable_history. Qed.

(** Acquiring a lease with valid arguments, in a reachable state, on every branch: an
    unknown job and a job whose lease has not expired give no grant and change nothing; a
    free or expired one is granted under the next token and attempt, with the expired row
    of the history closed and a row appended, so that the history errors never occur; and
    past the attempt count's 32 bits the database refuses. *)
Theorem acquire_decides ops now key owner dur :
  lease_duration_ok dur = true → lease_owner_ok owner = true → sql_blank key = false →
  let d := run_jobs ops empty_jobs in
  jobs_acquire now key owner dur d =
  match jd_instances d !! key with
  | None => Ok (None, d)
  | Some c =>
      if unexpired now c then Ok (None, d)
      else if ji_fencing_token c <? INTEGER_MAX
      then Ok (Some (mk_Grant key owner (now + dur) (ji_fencing_token c + 1) (ji_attempt_count c + 1) now),
               granted now key owner dur c d)
      else raise EDatabase "job_instances constraint"
  end.
Proof.
  intros Hd Ho Hk d. pose proof (reachable_history ops : lease_history d) as H. unfold jobs_acquire.
  destruct (jd_instances d !! key) as [c|] eqn:Hc; cycle 1.
  { unfold acquire_job_lease. by rewrite Hd, Ho, Hk, Hc. }
  rewrite acquire_job_lease_decides with (c := c) by done.
  destruct (unexpired now c); [done|]. destruct (_ <? INTEGER_MAX); [|done].
  destruct (lh_jobs d H _ _ Hc) as (-> & Hrow & Hh). apply job_row_token in Hrow.
  pose proof (jh_attempts _ _ Hh) as Ha. unfold lease_duration_ok in Hd. ok_facts. simpl.
  rewrite grant_ok; [done|..|done| | |]; simpl; try lia. intros E.
  pose proof (job_key_nonblank (ji_spec c)) as Hb. by rewrite E in Hb.
Qed.

(** C14. Fencing: once a job's token has passed that of a grant, the grant's holder can
    never again write, whatever the workers do afterwards and whatever the clock says: a
    status transition is rejected as stale, a renewal gives nothing, a release gives
    [false], and the tables stay as they are. *)
Theorem stale_owner_fenced ops g j ops' :
  let before := run_jobs ops empty_jobs in
  jd_instances before !! lg_job_key g = Some j → lg_fencing_token g < ji_fencing_token j →
  check_LeaseGrant g = Ok () →
  let d := run_jobs ops' before in
  (∀ fault now audited e c, validate_audit_identity e c = Ok () →
     transition_job_with_audit fault now audited g (ae_target_status e) e c d =
     (raise EStaleLease "job transition rejected because the lease owner or fencing token is stale", d)) ∧
  (∀ now dur, lease_duration_ok dur = true → jobs_renew now g dur d = Ok (None, d)) ∧
  (∀ now, jobs_release now g d = Ok (false, d)).
Proof.
  intros before Hj Hlt Hg d. pose proof (reachable_history ops : lease_history before) as H.
  destruct (run_jobs_grows ops' before H _ _ Hj) as (j' & Hj' & Hle).
  assert (Hheld : ∀ now, held_job now (lg_job_key g) (lg_lease_owner g) (lg_fencing_token g) d = None).
  { intros now. apply eq_None_not_Some. intros [x (Hx & _ & Ht & _)%held_job_Some].
    unfold d in Hx. rewrite Hx in Hj'. injection Hj' as ->. lia. }
  assert (Hc : check_holder (lg_lease_owner g) (lg_fencing_token g) = Ok ()).
  { unfold check_LeaseGrant in Hg. unfold check_holder. ok_steps. by rewrite H1, H2. }
  split_and!.
  - intros fault now audited e c Hv. unfold transition_job_with_audit, in_transaction, transition_body,
      jobs_set_status, transition_job_status. by rewrite Hv, bool_decide_true, Hc, Hheld by done.
  - intros now dur Hd. unfold jobs_renew, renew_job_lease. by rewrite Hd, Hc, Hheld.
  - intros now. unfold jobs_release, release_job_lease. by rewrite Hc, Hheld.
Qed.

(** C16. A status write and its audit record are one: a step from a reachable state either
    leaves the audit records and the status of every job as they are, or it is a
    transition by the holder of the job's unexpired lease whose commit went through, which
    sets the status the audit event names, appends exactly that event and touches no other
    job and no lease. *)
Theorem status_writes_audited ops op :
  let d := run_jobs ops empty_jobs in
  let d' := op_db op d in
  (jd_audits d' = jd_audits d ∧
   ∀ key j, jd_instances d !! key = Some j → ji_status <$> (jd_instances d' !! key) = Some (ji_status j)) ∨
  ∃ fault now audited g e c j,
    op = OpTransition fault now audited g (ae_target_status e) e c ∧ fault ≠ BEFORE_COMMIT ∧
    held_job now (lg_job_key g) (lg_lease_owner g) (lg_fencing_token g) d = Some j ∧
    d' = mk_JobDb
      (<[lg_job_key g := with_updated_at now (with_job_status (ae_target_status e) j)]> (jd_instances d))
      (jd_leases d) (jd_audits d ++ [mk_RecordedAudit e audited]).
Proof.
  intros d d'. pose proof (reachable_history ops : lease_history d) as H. pose proof (op_quiet op d H) as Hq.
  destruct op as [| | | |fault now audited g st e c];
    [> left; destruct Hq as [? Hq]; split; [done|]; intros k x Hx;
       destruct (Hq k x Hx) as (y & Hy & _ & <-); unfold d'; by rewrite Hy..|].
  destruct (transition_writes fault now audited g st e c d H) as [Hd|(j & Hst & ? & ? & Hd)].
  - left. unfold d'. simpl. rewrite Hd. split; [done|]. intros key j Hj. by rewrite Hj.
  - right. exists fault, now, audited, g, e, c, j. by rewrite Hst.
Qed.

(** ** Two workers *)

(** A job is added, worker [a] takes it at 1000 for 500, dies, and [b] takes it over at
    2000, when [a]'s lease has expired. *)
Definition demo_spec : JobSpec := mk_JobSpec 20000 "screen" "open".
Definition demo_ops : list JobOp :=
  [OpAdd NO_FAULT 0 demo_spec; OpAcquire NO_FAULT 1000 (job_key demo_spec) "worker-a" 500;
   OpAcquire NO_FAULT 1200 (job_key demo_spec) "worker-b" 500;
   OpAcquire NO_FAULT 2000 (job_key demo_spec) "worker-b" 500].
Definition demo_grant : LeaseGrant := mk_Grant (job_key demo_spec) "worker-a" 1500 1 1 1000.
Definition demo_event : AuditEvent := mk_Audit 7 JOB_STATUS_CHANGED (Some 3%N) 5 None 2100 JobStatus.RUNNING SCHEDULED "1.0".

Lemma acquire_decides_witness :
  jobs_acquire 3000 (job_key demo_spec) "worker-c" 500 (run_jobs demo_ops empty_jobs) =
  Ok (Some (mk_Grant (job_key demo_spec) "worker-c" 3500 3 3 3000),
      match jd_instances (run_jobs demo_ops empty_jobs) !! job_key demo_spec with
      | Some c => granted 3000 (job_key demo_spec) "worker-c" 500 c (run_jobs demo_ops empty_jobs)
      | None => empty_jobs
      end).
Proof.
  rewrite (acquire_decides demo_ops 3000 (job_key demo_spec) "worker-c" 500 eq_refl eq_refl eq_refl).
  vm_compute. reflexivity.
Defined.
Lemma stale_owner_fenced_witness :
  transition_job_with_audit NO_FAULT 1 1 demo_grant JobStatus.RUNNING demo_event (mk_Telemetry 3 5)
    (run_jobs demo_ops empty_jobs) =
  (raise EStaleLease "job transition rejected because the lease owner or fencing token is stale",
   run_jobs demo_ops empty_jobs).
Proof.
  destruct (jd_instances (run_jobs demo_ops empty_jobs) !! job_key demo_spec) as [j|] eqn:E; [|vm_compute in E; discriminate E].
  assert (Ht : 1 < ji_fencing_token j) by (vm_compute in E; injection E as <-; reflexivity).
  exact (proj1 (stale_owner_fenced demo_ops demo_grant j [] E Ht eq_refl) NO_FAULT 1 1 demo_event (mk_Telemetry 3 5) eq_refl).
Defined.
