(* ===== verification/Sources.v ===== *)
(** * Source references and point-in-time identities

    The closed source families ([sources/roles.py]), the references every record
    carries, and the identity records of the security master
    ([securities/contracts.py]).  Digests are text, and the digest of the canonical
    content of a record is a parameter. *)

From S2P Require Import Prelude Text LedgerFacts.
Local Open Scope Z_scope.

(** ** Families *)

Inductive P4SourceFamily :=
  | ALPACA_ASSETS | ALPACA_HISTORICAL_BARS | ALPACA_IEX_QUOTES | ALPACA_CORPORATE_ACTIONS
  | SEC_EDGAR | ISSUER_IR | EXCHANGE_OFFICIAL | FRED_ALFRED | TREASURY | BLS | BEA | EIA
  | TAVILY | GDELT | YFINANCE.
#[global] Instance P4SourceFamily_eq_dec : EqDecision P4SourceFamily.
Proof. solve_decision. Defined.

(** [family.value] *)
Definition family_value (f : P4SourceFamily) : string :=
  match f with
  | ALPACA_ASSETS => "ALPACA_ASSETS"
  | ALPACA_HISTORICAL_BARS => "ALPACA_HISTORICAL_BARS"
  | ALPACA_IEX_QUOTES => "ALPACA_IEX_QUOTES"
  | ALPACA_CORPORATE_ACTIONS => "ALPACA_CORPORATE_ACTIONS"
  | SEC_EDGAR => "SEC_EDGAR"
  | ISSUER_IR => "ISSUER_IR"
  | EXCHANGE_OFFICIAL => "EXCHANGE_OFFICIAL"
  | FRED_ALFRED => "FRED_ALFRED"
  | TREASURY => "TREASURY"
  | BLS => "BLS"
  | BEA => "BEA"
  | EIA => "EIA"
  | TAVILY => "TAVILY"
  | GDELT => "GDELT"
  | YFINANCE => "YFINANCE"
  end.

(** The evidentiary authority and the market coverage of a family. *)
Inductive SourceRole := AUTHORITY | CONFIRMATION | DISCOVERY | RESEARCH_SUPPLEMENT.
#[global] Instance SourceRole_eq_dec : EqDecision SourceRole.
Proof. solve_decision. Defined.
Inductive CoverageLabel := FULL | LIMITED_MARKET_COVERAGE.
#[global] Instance CoverageLabel_eq_dec : EqDecision CoverageLabel.
Proof. solve_decision. Defined.
(** [_PINNED_ROLES], which a manifest of the registry cannot change. *)
Definition pinned_role (f : P4SourceFamily) : SourceRole :=
  match f with
  | ALPACA_CORPORATE_ACTIONS | ISSUER_IR => CONFIRMATION
  | TAVILY | GDELT => DISCOVERY
  | YFINANCE => RESEARCH_SUPPLEMENT
  | ALPACA_ASSETS | ALPACA_HISTORICAL_BARS | ALPACA_IEX_QUOTES | SEC_EDGAR | EXCHANGE_OFFICIAL
  | FRED_ALFRED | TREASURY | BLS | BEA | EIA => AUTHORITY
  end.
(** [_PINNED_COVERAGE] *)
Definition pinned_coverage (f : P4SourceFamily) : CoverageLabel :=
  match f with ALPACA_IEX_QUOTES => LIMITED_MARKET_COVERAGE | _ => FULL end.

(** ** Canonical texts *)

Definition is_hex (c : ascii) : bool :=
  is_digit c || (bool_decide (97 ≤ nat_of_ascii c)%nat && bool_decide (nat_of_ascii c ≤ 102)%nat).
Definition is_alnum (c : ascii) : bool := is_digit c || is_lower c || is_upper c.

(** [^[0-9a-f]{64}$] *)
Definition is_digest (s : string) : bool := fullmatch (m_times is_hex 64) s.
(** [^[0-9a-f][0-9a-f-]{7,63}$] *)
Definition security_id_ok (s : string) : bool :=
  let c x := is_hex x || is_char "-" x in
  fullmatch (m_seq (m_char is_hex) (m_seq (m_times c 7) (m_upto c 56))) s.
(** [^[A-Z][A-Z0-9.-]{0,9}$] *)
Definition security_symbol_ok (s : string) : bool :=
  fullmatch (m_seq (m_char is_upper)
    (m_upto (λ x, is_upper x || is_digit x || is_char "." x || is_char "-" x) 9)) s.
(** [^[A-Za-z0-9][A-Za-z0-9._:-]{0,95}$] *)
Definition record_id_ok (s : string) : bool :=
  fullmatch (m_seq (m_char is_alnum)
    (m_upto (λ x, is_alnum x || is_char "." x || is_char "_" x || is_char ":" x || is_char "-" x)
       95)) s.
(** [^[0-9]{10}$] *)
Definition cik_ok (s : string) : bool := fullmatch (m_times is_digit 10) s.
(** [^[0-9A-Z]{9}$] *)
Definition cusip_ok (s : string) : bool := fullmatch (m_times (λ c, is_digit c || is_upper c) 9) s.
(** [^[A-Z]{2}[A-Z0-9]{9}[0-9]$] *)
Definition isin_ok (s : string) : bool :=
  fullmatch (m_seq (m_times is_upper 2)
    (m_seq (m_times (λ c, is_upper c || is_digit c) 9) (m_char is_digit))) s.

Definition make_SecurityId (s : string) : outcome string :=
  guard_that (security_id_ok s) EValueError
    "security id must be canonical lowercase provider identity text" ≫= λ _, Ok s.
Definition make_SecuritySymbol (s : string) : outcome string :=
  guard_that (security_symbol_ok s) EValueError
    "symbol must be uppercase letters, digits, '.' or '-' (max 10)" ≫= λ _, Ok s.
Definition make_Cik (s : string) : outcome string :=
  guard_that (cik_ok s) EValueError "cik must be exactly ten digits" ≫= λ _, Ok s.

Definition make_Cusip (s : string) : outcome string :=
  guard_that (cusip_ok s) EValueError
    "cusip must be exactly nine uppercase alphanumeric characters" ≫= λ _, Ok s.
Definition make_Isin (s : string) : outcome string :=
  guard_that (isin_ok s) EValueError
    "isin must be two uppercase letters, nine alphanumerics, one digit" ≫= λ _, Ok s.

(** ** Source references *)

Record SourceRef := mk_SourceRef {
  ref_record_id : string;
  ref_family : P4SourceFamily;
  ref_record_hash : string;
}.
#[global] Instance SourceRef_eq_dec : EqDecision SourceRef.
Proof. solve_decision. Defined.

Definition make_SourceRef (id : string) (f : P4SourceFamily) (h : string) : outcome SourceRef :=
  guard_that (record_id_ok id) EValueError "record id must be a canonical record identifier" ≫= λ _,
  guard_that (is_digest h) EValueError "record hash must be a SHA-256 digest" ≫= λ _,
  Ok (mk_SourceRef id f h).

(** The order of the key [(family.value, record_id, record_hash)]. *)
Definition str_ltb (a b : string) : bool := negb (String.leb b a).
Definition ref_leb (a b : SourceRef) : bool :=
  str_ltb (family_value (ref_family a)) (family_value (ref_family b)) ||
  bool_decide (family_value (ref_family a) = family_value (ref_family b)) &&
  (str_ltb (ref_record_id a) (ref_record_id b) ||
   bool_decide (ref_record_id a = ref_record_id b) &&
   String.leb (ref_record_hash a) (ref_record_hash b)).

(** [tuple(sorted(set(refs), key=...))] *)
Definition canonical_refs (refs : list SourceRef) : list SourceRef :=
  sort_by ref_leb (remove_dups refs).

(** ** Validity and identities *)

Record ValidityInterval := mk_Validity { valid_from : Z; valid_to : option Z }.

Definition make_ValidityInterval (a : Z) (b : option Z) : outcome ValidityInterval :=
  guard_that (match b with Some b => a <? b | None => true end) EValueError
    "validity interval must start strictly before it ends" ≫= λ _, Ok (mk_Validity a b).

Definition interval_contains (i : ValidityInterval) (t : Z) : bool :=
  if t <? valid_from i then false
  else match valid_to i with None => true | Some b => t <? b end.

Definition intervals_overlap (i j : ValidityInterval) : bool :=
  if match valid_to i with Some b => b <=? valid_from j | None => false end then false
  else match valid_to j with None => true | Some b => valid_from i <? b end.

Inductive SecurityStatus := ACTIVE | INACTIVE.
#[global] Instance SecurityStatus_eq_dec : EqDecision SecurityStatus.
Proof. solve_decision. Defined.

Inductive AssetClass := US_EQUITY.
#[global] Instance AssetClass_eq_dec : EqDecision AssetClass.
Proof. solve_decision. Defined.
Inductive ListingExchange := AMEX | ARCA | BATS | NASDAQ | NYSE.
#[global] Instance ListingExchange_eq_dec : EqDecision ListingExchange.
Proof. solve_decision. Defined.
#[global] Instance ValidityInterval_eq_dec : EqDecision ValidityInterval.
Proof. solve_decision. Defined.

(** Identifiers are texts their constructors accepted; [id_valid] holds
    [valid_from] and [valid_to]. *)
Record SecurityIdentityRecord := mk_Identity {
  id_security : string;
  id_symbol : string;
  id_exchange : ListingExchange;
  id_asset_class : AssetClass;
  id_valid : ValidityInterval;
  id_available_at : Z;
  id_status : SecurityStatus;
  id_source_refs : list SourceRef;
  id_schema_version : string;
  id_hash : string;
  id_cik : option string;
  id_cusip : option string;
  id_isin : option string;
}.
#[global] Instance SecurityIdentityRecord_eq_dec : EqDecision SecurityIdentityRecord.
Proof. solve_decision. Defined.

Definition MAX_SOURCE_REFS : nat := 16.
Definition ref_ids (refs : list SourceRef) : list string := ref_record_id <$> refs.

(** The checks of [source_refs] that identity and corporate-action records share. *)
Definition check_source_refs (refs : list SourceRef) : outcome unit :=
  guard_that (negb (bool_decide (refs = [])) && (length refs <=? MAX_SOURCE_REFS)%nat) EValueError
    "source_refs must be a non-empty tuple of at most 16 SourceRef values" ≫= λ _,
  guard_that (bool_decide (NoDup (ref_ids refs))) EValueError
    "source_refs must carry unique record identifiers".

(** [_validate_identity_fields] *)
Definition validate_identity_fields (r : SecurityIdentityRecord) : outcome unit :=
  guard_that (match valid_to (id_valid r) with
              | Some b => valid_from (id_valid r) <? b
              | None => true
              end) EValueError "validity interval must start strictly before it ends" ≫= λ _,
  check_source_refs (id_source_refs r).

(** The content digest of a record is a parameter; it does not read [id_hash]. *)
Section identity_digest.
Context (identity_digest : SecurityIdentityRecord → string).

Definition with_identity_hash (h : string) (r : SecurityIdentityRecord) : SecurityIdentityRecord :=
  mk_Identity (id_security r) (id_symbol r) (id_exchange r) (id_asset_class r) (id_valid r)
    (id_available_at r) (id_status r) (id_source_refs r) (id_schema_version r) h
    (id_cik r) (id_cusip r) (id_isin r).
(** [compute_hash] *)
Definition identity_compute_hash (r : SecurityIdentityRecord) : string :=
  identity_digest (with_identity_hash "" r).
Definition identity_intact (r : SecurityIdentityRecord) : bool :=
  bool_decide (id_hash r = identity_compute_hash r).
(** [verify_integrity] *)
Definition verify_identity (r : SecurityIdentityRecord) : outcome unit :=
  guard_that (identity_intact r) EValueError
    "identity hash does not match frozen record content".
(** [__post_init__] *)
Definition check_SecurityIdentityRecord (r : SecurityIdentityRecord) : outcome unit :=
  validate_identity_fields r ≫= λ _,
  guard_that (is_digest (id_hash r)) EValueError "identity hash must be a SHA-256 digest" ≫= λ _,
  verify_identity r.
Definition build_identity_record (r : SecurityIdentityRecord) : outcome SecurityIdentityRecord :=
  validate_identity_fields r ≫= λ _,
  let built := with_identity_hash (identity_compute_hash r) r in
  check_SecurityIdentityRecord built ≫= λ _, Ok built.
End identity_digest.

Definition identity_known_at (r : SecurityIdentityRecord) (cutoff : Z) : bool :=
  id_available_at r <=? cutoff.
Definition identity_valid_at (r : SecurityIdentityRecord) (as_of : Z) : bool :=
  interval_contains (id_valid r) as_of.
Definition answers_as_of (r : SecurityIdentityRecord) (as_of known_at : Z) : bool :=
  identity_known_at r known_at && identity_valid_at r as_of.

(** ** Facts *)

Lemma family_value_inj f g : family_value f = family_value g → f = g.
Proof. by destruct f, g. Qed.

Lemma str_ltb_spec a b : str_ltb a b = true ↔ String.leb a b = true ∧ a ≠ b.
Proof.
  unfold str_ltb. rewrite negb_true_iff. split.
  - intros H. split; [by apply str_leb_total|]. intros ->. destruct (String.leb_total b b); congruence.
  - intros [H Hn]. destruct (String.leb b a) eqn:E; [|done]. by destruct (Hn (str_leb_antisym _ _ H E)).
Qed.

Lemma str_leb_cases a b : String.leb a b = true ↔ str_ltb a b = true ∨ a = b.
Proof.
  rewrite str_ltb_spec. destruct (decide (a = b)) as [->|]; [|naive_solver].
  split; [by right|]. intros _. destruct (String.leb_total b b); done.
Qed.

Lemma str_ltb_trans a b c : str_ltb a b = true → str_ltb b c = true → str_ltb a c = true.
Proof.
  rewrite !str_ltb_spec. intros [H1 N1] [H2 N2]. split; [by eapply str_leb_trans|].
  intros ->. by destruct (N1 (str_leb_antisym _ _ H1 H2)).
Qed.

Lemma str_ltb_trichotomy a b : str_ltb a b = true ∨ a = b ∨ str_ltb b a = true.
Proof.
  destruct (String.leb a b) eqn:E; [apply str_leb_cases in E; tauto|].
  right. right. unfold str_ltb. by rewrite E.
Qed.

Lemma str_ltb_irrefl a : str_ltb a a = false.
Proof. destruct (str_ltb a a) eqn:E; [|done]. apply str_ltb_spec in E as [_ []]. done. Qed.

Lemma ref_leb_spec a b : ref_leb a b = true ↔
  str_ltb (family_value (ref_family a)) (family_value (ref_family b)) = true ∨
  family_value (ref_family a) = family_value (ref_family b) ∧
    (str_ltb (ref_record_id a) (ref_record_id b) = true ∨
     ref_record_id a = ref_record_id b ∧
     String.leb (ref_record_hash a) (ref_record_hash b) = true).
Proof.
  unfold ref_leb.
  rewrite orb_true_iff, andb_true_iff, orb_true_iff, andb_true_iff, !bool_decide_eq_true. done.
Qed.

Lemma ref_leb_total a b : ref_leb a b = false → ref_leb b a = true.
Proof.
  intros H. apply not_true_iff_false in H. rewrite ref_leb_spec in H. apply ref_leb_spec.
  destruct (str_ltb_trichotomy (family_value (ref_family a)) (family_value (ref_family b)))
    as [?|[?|?]]; [tauto| |tauto].
  destruct (str_ltb_trichotomy (ref_record_id a) (ref_record_id b)) as [?|[?|?]]; [tauto| |by auto].
  right. split; [done|]. right. split; [done|]. apply str_leb_total. apply not_true_iff_false. tauto.
Qed.

Lemma ref_leb_trans a b c : ref_leb a b = true → ref_leb b c = true → ref_leb a c = true.
Proof.
  rewrite !ref_leb_spec. intros [H1|(E1 & H1)] [H2|(E2 & H2)].
  - left. by eapply str_ltb_trans.
  - left. by rewrite <-E2.
  - left. by rewrite E1.
  - right. split; [congruence|]. destruct H1 as [H1|(E1' & H1)], H2 as [H2|(E2' & H2)].
    + left. by eapply str_ltb_trans.
    + left. by rewrite <-E2'.
    + left. by rewrite E1'.
    + right. split; [congruence|]. by eapply str_leb_trans.
Qed.

Lemma str_ltb_asym a b : str_ltb a b = true → str_ltb b a = true → False.
Proof. intros H1 H2. pose proof (str_ltb_trans _ _ _ H1 H2) as H. by rewrite str_ltb_irrefl in H. Qed.
Lemma str_ltb_ne a b : a = b → str_ltb a b = true → False.
Proof. intros ->. by rewrite str_ltb_irrefl. Qed.

Lemma ref_leb_antisym a b : ref_leb a b = true → ref_leb b a = true → a = b.
Proof.
  rewrite !ref_leb_spec.
  intros [H1|(E1 & H1)] [H2|(E2 & H2)].
  - destruct (str_ltb_asym _ _ H1 H2).
  - destruct (str_ltb_ne _ _ (eq_sym E2) H1).
  - destruct (str_ltb_ne _ _ (eq_sym E1) H2).
  - destruct H1 as [H1|(E1' & H1)], H2 as [H2|(E2' & H2)].
    + destruct (str_ltb_asym _ _ H1 H2).
    + destruct (str_ltb_ne _ _ (eq_sym E2') H1).
    + destruct (str_ltb_ne _ _ (eq_sym E1') H2).
    + destruct a as [a1 a2 a3], b as [b1 b2 b3]; simpl in *. apply family_value_inj in E1. subst.
      f_equal. by apply str_leb_antisym.
Qed.

(** The canonical references are the set of references, in one order. *)
Lemma canonical_refs_unique l1 l2 :
  (∀ r, r ∈ l1 ↔ r ∈ l2) → canonical_refs l1 = canonical_refs l2.
Proof.
  intros H. unfold canonical_refs. apply sort_by_unique.
  - apply ref_leb_total.
  - apply ref_leb_trans.
  - intros x y _ _. apply ref_leb_antisym.
  - apply NoDup_Permutation; [apply NoDup_remove_dups..|]. intros r. by rewrite !elem_of_remove_dups.
Qed.
