(* ===== verification/Identity.v ===== *)
(** * The identity resolver: [securities/identity.py]

    One as-of/known-at query against immutable identity records: integrity,
    scope, visibility, append-only supersession, overlapping intervals, and the
    typed outcome. *)

From S2P Require Import Prelude Dicts Text Sources.
Local Open Scope Z_scope.

Definition MAX_RESOLUTION_RECORDS : nat := 4096.

Module IdentityResolutionStatus.
Inductive t := RESOLVED | UNKNOWN | AMBIGUOUS | CONFLICT | STALE.
#[global] Instance eq_dec : EqDecision t.
Proof. solve_decision. Defined.
Definition value (s : t) : string :=
  match s with
  | RESOLVED => "RESOLVED" | UNKNOWN => "UNKNOWN" | AMBIGUOUS => "AMBIGUOUS"
  | CONFLICT => "CONFLICT" | STALE => "STALE"
  end.
End IdentityResolutionStatus.
Module Ids := IdentityResolutionStatus.

Record IdentityQuery := mk_IdentityQuery {
  iq_as_of : Z;
  iq_known_at : Z;
  iq_security_id : option string;
  iq_symbol : option string;
}.
Definition check_IdentityQuery (q : IdentityQuery) : outcome unit :=
  guard_that (bool_decide (is_Some (iq_security_id q)) || bool_decide (is_Some (iq_symbol q)))
    EValueError "query requires an identity key: security_id or symbol".
Definition make_IdentityQuery (as_of known_at : Z) (sid symbol : option string) : outcome IdentityQuery :=
  let q := mk_IdentityQuery as_of known_at sid symbol in check_IdentityQuery q ≫= λ _, Ok q.

Record IdentityResolution := mk_Resolution {
  ir_status : Ids.t;
  ir_record : option SecurityIdentityRecord;
}.
Definition check_IdentityResolution (r : IdentityResolution) : outcome unit :=
  guard_that (bool_decide (ir_status r = Ids.RESOLVED) || negb (bool_decide (is_Some (ir_record r))))
    EValueError "only a RESOLVED outcome may carry a record".
Definition outcome_of (s : Ids.t) : IdentityResolution := mk_Resolution s None.

(** [_matches_key]: the security id scopes the search when both keys are given. *)
Definition matches_key (q : IdentityQuery) (r : SecurityIdentityRecord) : bool :=
  match iq_security_id q with
  | Some sid => bool_decide (id_security r = sid)
  | None => bool_decide (Some (id_symbol r) = iq_symbol q)
  end.

(** [_interval_key] *)
Definition interval_key (r : SecurityIdentityRecord) : string * ValidityInterval :=
  (id_security r, id_valid r).

(** [max(record.available_at.value for record in ...)] of a non-empty group. *)
Fixpoint latest_of (l : list Z) : Z :=
  match l with [] => 0 | [x] => x | x :: l => Z.max x (latest_of l) end.

(** The head of one lineage, or [None] when its latest versions are unorderable. *)
Definition lineage_head (group : list SecurityIdentityRecord) : option SecurityIdentityRecord :=
  let unique := keyed id_hash group in
  match unique with
  | [r] => Some r
  | _ =>
      let latest := latest_of (id_available_at <$> unique) in
      match filter (λ r, id_available_at r = latest) unique with
      | [r] => Some r
      | _ => None
      end
  end.

(** [_supersession_heads] *)
Definition supersession_heads (visible : list SecurityIdentityRecord)
    : option (list SecurityIdentityRecord) :=
  mapM lineage_head (group_by interval_key visible).

Definition from_leb (a b : SecurityIdentityRecord) : bool :=
  valid_from (id_valid a) <=? valid_from (id_valid b).
(** [any(intervals_overlap(...) for ... in pairwise(group))] *)
Fixpoint overlap_neighbours (l : list SecurityIdentityRecord) : bool :=
  match l with
  | a :: ((b :: _) as rest) => intervals_overlap (id_valid a) (id_valid b) || overlap_neighbours rest
  | _ => false
  end.

(** [_any_interval_conflict] *)
Definition any_interval_conflict (heads : list SecurityIdentityRecord) : bool :=
  existsb (λ group, overlap_neighbours (sort_by from_leb group)) (group_by id_security heads).

(** The decision on the heads valid at the instant. *)
Definition decide_valid (valid : list SecurityIdentityRecord) : IdentityResolution :=
  match valid with
  | [] => outcome_of Ids.UNKNOWN
  | r :: rest =>
      if negb (bool_decide (NoDup (id_security <$> valid))) then outcome_of Ids.CONFLICT
      else match rest with
           | [] => mk_Resolution Ids.RESOLVED (Some r)
           | _ :: _ => outcome_of Ids.AMBIGUOUS
           end
  end.

(** The answer on the records in scope. *)
Definition resolve_scoped (q : IdentityQuery) (scoped : list SecurityIdentityRecord) : IdentityResolution :=
  match scoped with
  | [] => outcome_of Ids.UNKNOWN
  | _ :: _ =>
      let visible := filter (λ r, identity_known_at r (iq_known_at q) = true) scoped in
      match visible with
      | [] => outcome_of Ids.STALE
      | _ :: _ =>
          match supersession_heads visible with
          | None => outcome_of Ids.CONFLICT
          | Some heads =>
              if any_interval_conflict heads then outcome_of Ids.CONFLICT
              else decide_valid (filter (λ r, identity_valid_at r (iq_as_of q) = true) heads)
          end
      end
  end.

Section resolve.
Context (identity_digest : SecurityIdentityRecord → string).

Definition resolve_identity (records : list SecurityIdentityRecord) (q : IdentityQuery)
    : outcome IdentityResolution :=
  guard_that (length records <=? MAX_RESOLUTION_RECORDS)%nat EValueError
    "records must be a tuple of at most 4096 identity records" ≫= λ _,
  guard_that (forallb (identity_intact identity_digest) records) EValueError
    "records failed integrity re-verification" ≫= λ _,
  Ok (resolve_scoped q (filter (λ r, matches_key q r = true) records)).
End resolve.
