(* ===== verification/IdentityFacts.v ===== *)
(** * Properties of the identity resolver

    What a point-in-time query means ([resolution_spec]) and that the resolver
    answers exactly that: the current version of each interval is the latest the
    caller could know, unorderable or overlapping histories are conflicts, and a
    record learned later changes nothing. *)

From S2P Require Import Prelude Dicts Text Sources Identity.
Local Open Scope Z_scope.

(** ** The specification *)
Section spec.
Context (records : list SecurityIdentityRecord) (q : IdentityQuery).

Definition in_scope (r : SecurityIdentityRecord) : Prop := r ∈ records ∧ matches_key q r = true.
Definition seen (r : SecurityIdentityRecord) : Prop :=
  in_scope r ∧ identity_known_at r (iq_known_at q) = true.
(** The latest version of its interval that the caller could know. *)
Definition current (r : SecurityIdentityRecord) : Prop :=
  seen r ∧ ∀ r', seen r' → interval_key r' = interval_key r →
    r' = r ∨ id_available_at r' < id_available_at r.
(** Every interval has a latest version, and no security two at the same instant. *)
Definition orderly : Prop :=
  (∀ r, seen r → ∃ h, current h ∧ interval_key h = interval_key r) ∧
  (∀ h h' t, current h → current h' → id_security h = id_security h' →
     identity_valid_at h t = true → identity_valid_at h' t = true → h = h').
Definition answering (r : SecurityIdentityRecord) : Prop :=
  current r ∧ identity_valid_at r (iq_as_of q) = true.

Inductive resolution_spec : IdentityResolution → Prop :=
  | spec_no_match : (∀ r, ¬ in_scope r) → resolution_spec (outcome_of Ids.UNKNOWN)
  | spec_stale r : in_scope r → (∀ r, ¬ seen r) → resolution_spec (outcome_of Ids.STALE)
  | spec_conflict r : seen r → ¬ orderly → resolution_spec (outcome_of Ids.CONFLICT)
  | spec_not_valid r : seen r → orderly → (∀ r, ¬ answering r) →
      resolution_spec (outcome_of Ids.UNKNOWN)
  | spec_ambiguous r r' : orderly → answering r → answering r' → id_security r ≠ id_security r' →
      resolution_spec (outcome_of Ids.AMBIGUOUS)
  | spec_resolved r : orderly → answering r → (∀ r', answering r' → r' = r) →
      resolution_spec (mk_Resolution Ids.RESOLVED (Some r)).

Lemma seen_scope r : seen r → in_scope r.
Proof. by intros [? _]. Qed.
Lemma answering_seen r : answering r → seen r.
Proof. by intros [[? _] _]. Qed.

Lemma resolution_spec_functional a b : resolution_spec a → resolution_spec b → a = b.
Proof.
  pose proof seen_scope as Hsc. pose proof answering_seen as Hse.
  intros [Ha|r Ha Hn|r Ha Hn|r Ha Ho Hn|r r' Ho Ha Ha' Hne|r Ho Ha Hu]
    [Hb|s Hb Hm|s Hb Hm|s Hb Hp Hm|s s' Hp Hb Hb' Hme|s Hp Hb Hv]; try reflexivity;
    first
      [ by destruct Hn | by destruct Hm
      | by destruct (Ha s); auto | by destruct (Hb r); auto | by destruct (Hn s); auto | by destruct (Hm r); auto
      | idtac ].
  - by rewrite (Hv r Ha), (Hv r' Ha') in Hne.
  - by rewrite (Hu s Hb), (Hu s' Hb') in Hme.
  - by rewrite (Hu s Hb).
Qed.
End spec.

(** ** Heads *)

Lemma latest_of_max l x : x ∈ l → x <= latest_of l.
Proof.
  induction l as [|y l IH]; [by intros ?%elem_of_nil|]. intros [->|Hx]%elem_of_cons.
  - destruct l; simpl; lia.
  - specialize (IH Hx). destruct l as [|z l]; [by apply elem_of_nil in Hx|]. simpl in *. lia.
Qed.
Lemma latest_of_elem l : l ≠ [] → latest_of l ∈ l.
Proof.
  induction l as [|y l IH]; [done|]. intros _. destruct l as [|z l]; [by left|].
  change (Z.max y (latest_of (z :: l)) ∈ y :: z :: l).
  destruct (Z.max_spec y (latest_of (z :: l))) as [[_ ->]|[_ ->]]; [right; by apply IH|by left].
Qed.

(** The latest version in a group of versions. *)
Definition heads_group (g : list SecurityIdentityRecord) (h : SecurityIdentityRecord) : Prop :=
  h ∈ g ∧ ∀ r, r ∈ g → r = h ∨ id_available_at r < id_available_at h.

Lemma lineage_head_spec g h :
  g ≠ [] → (∀ r r', r ∈ g → r' ∈ g → id_hash r = id_hash r' → r = r') →
  lineage_head g = Some h ↔ heads_group g h.
Proof.
  intros Hne Hinj. unfold lineage_head.
  pose proof (elem_of_keyed id_hash g) as Hk.
  assert (Hn : NoDup (keyed id_hash g)) by (eapply NoDup_fmap_1, keyed_NoDup).
  assert (Hmax : keyed id_hash g ≠ [] →
    (match filter (λ r, id_available_at r = latest_of (id_available_at <$> keyed id_hash g)) (keyed id_hash g) with
     | [r] => Some r | _ => None end = Some h ↔ heads_group g h)).
  { intros Hu. set (m := latest_of _). split.
    - destruct (filter _ _) as [|r [|? ?]] eqn:E; try done. intros [= ->].
      assert (Hh : h ∈ [h]) by by left. rewrite <-E in Hh. apply list_elem_of_filter in Hh as [Hm Hh].
      split; [by apply Hk|]. intros r Hr. destruct (decide (id_available_at r = m)) as [Er|Er].
      + left. assert (Hin : r ∈ [h]) by (rewrite <-E; apply list_elem_of_filter; split; [done|by apply Hk]).
        by apply list_elem_of_singleton in Hin.
      + right. assert (id_available_at r <= m); [|lia]. apply latest_of_max, list_elem_of_fmap_2.
        by apply Hk.
    - intros [Hh Hlt]. assert (Hm : id_available_at h = m).
      { assert (Hin : m ∈ id_available_at <$> keyed id_hash g) by (apply latest_of_elem; by destruct (keyed _ _)).
        apply list_elem_of_fmap in Hin as (r & Hr & Hin). apply Hk in Hin; [|done].
        assert (id_available_at h <= m) by (apply latest_of_max, list_elem_of_fmap_2; by apply Hk).
        destruct (Hlt r Hin) as [->|?]; [done|lia]. }
      rewrite (NoDup_all_eq _ h); [done|by apply NoDup_filter| |].
      + apply list_elem_of_filter. split; [done|]. by apply Hk.
      + intros r [Hr Hin]%list_elem_of_filter. apply Hk in Hin; [|done]. destruct (Hlt r Hin); [done|lia]. }
  destruct (keyed id_hash g) as [|r [|r' l]] eqn:E.
  - destruct g as [|x g]; [done|]. exfalso. apply (elem_of_nil (A:=SecurityIdentityRecord) x).
    apply Hk; [done|by left].
  - split.
    + intros [= ->]. split; [apply Hk; [done|by left]|]. intros r Hr. left.
      apply Hk in Hr; [|done]. by apply list_elem_of_singleton in Hr.
    + intros [Hh _]. apply Hk in Hh; [|done]. by apply list_elem_of_singleton in Hh as ->.
  - by apply Hmax.
Qed.

Section heads.
Context (V : list SecurityIdentityRecord).
Context (Hinj : ∀ r r', r ∈ V → r' ∈ V → id_hash r = id_hash r' → r = r').

(** The latest version of its interval among [V]. *)
Definition latest_in (h : SecurityIdentityRecord) : Prop :=
  h ∈ V ∧ ∀ r, r ∈ V → interval_key r = interval_key h → r = h ∨ id_available_at r < id_available_at h.

Lemma latest_in_group h x :
  x ∈ V → heads_group (filter (λ y, interval_key y = interval_key x) V) h ↔
  latest_in h ∧ interval_key h = interval_key x.
Proof using Type.
  intros Hx. unfold heads_group, latest_in. rewrite list_elem_of_filter. split.
  - intros [[E Hh] Hl]. split; [|done]. split; [done|]. intros r Hr Er.
    apply Hl, list_elem_of_filter. split; [congruence|done].
  - intros [[Hh Hl] E]. split; [done|]. intros r [Er Hr]%list_elem_of_filter. apply Hl; [done|congruence].
Qed.

Lemma group_head_spec h x :
  x ∈ V → lineage_head (filter (λ y, interval_key y = interval_key x) V) = Some h ↔
  latest_in h ∧ interval_key h = interval_key x.
Proof using Hinj.
  intros Hx. rewrite lineage_head_spec; [by apply latest_in_group| |].
  - intros E. apply (elem_of_nil (A:=SecurityIdentityRecord) x). rewrite <-E.
    by apply list_elem_of_filter.
  - intros r r' [_ Hr]%list_elem_of_filter [_ Hr']%list_elem_of_filter. by apply Hinj.
Qed.

Lemma heads_Some hs :
  supersession_heads V = Some hs →
  (∀ h, h ∈ hs ↔ latest_in h) ∧ (∀ r, r ∈ V → ∃ h, latest_in h ∧ interval_key h = interval_key r).
Proof using Hinj.
  unfold supersession_heads. intros Hs%mapM_Some_1.
  assert (Hgroup : ∀ g, g ∈ group_by interval_key V → ∃ h, h ∈ hs ∧ lineage_head g = Some h).
  { intros g [i Hi]%list_elem_of_lookup_1. destruct (Forall2_lookup_l _ _ _ _ _ Hs Hi) as (h & Hh & E).
    exists h. split; [by eapply list_elem_of_lookup_2|done]. }
  assert (Hhead : ∀ h, h ∈ hs → ∃ g, g ∈ group_by interval_key V ∧ lineage_head g = Some h).
  { intros h [i Hi]%list_elem_of_lookup_1. destruct (Forall2_lookup_r _ _ _ _ _ Hs Hi) as (g & Hg & E).
    exists g. split; [by eapply list_elem_of_lookup_2|done]. }
  assert (Hof : ∀ r, r ∈ V → ∃ h, h ∈ hs ∧ latest_in h ∧ interval_key h = interval_key r).
  { intros r Hr. destruct (Hgroup (filter (λ y, interval_key y = interval_key r) V)) as (h & Hh & E).
    { apply group_by_spec. by exists r. }
    exists h. split; [done|]. by apply group_head_spec in E. }
  split; [|intros r Hr; destruct (Hof r Hr) as (h & _ & ? & ?); by exists h]. intros h. split.
  - intros (g & (x & Hx & ->)%group_by_spec & E)%Hhead. by apply group_head_spec in E as [? _].
  - intros Hl. destruct (Hof h (proj1 Hl)) as (h' & Hh' & [Hin Hl'] & E).
    destruct (Hl' h (proj1 Hl) (eq_sym E)) as [->|Hlt]; [done|].
    destruct (proj2 Hl h' Hin E) as [->|?]; [done|lia].
Qed.
Lemma heads_None :
  supersession_heads V = None → ∃ r, r ∈ V ∧ ∀ h, latest_in h → interval_key h ≠ interval_key r.
Proof using Hinj.
  unfold supersession_heads. intros Hs%mapM_None_1%Exists_exists.
  destruct Hs as (g & (x & Hx & ->)%group_by_spec & E). exists x. split; [done|]. intros h Hl Ek.
  assert (Hh : lineage_head (filter (λ y, interval_key y = interval_key x) V) = Some h)
    by by apply group_head_spec.
  congruence.
Qed.
End heads.

Lemma lineage_head_elem g h : lineage_head g = Some h → h ∈ g.
Proof.
  unfold lineage_head. assert (Hsub : ∀ z, z ∈ keyed id_hash g → z ∈ g) by apply keyed_subset.
  destruct (keyed id_hash g) as [|r [|r' l]]; [done|intros [= ->]; apply Hsub; by left|].
  destruct (filter _ _) as [|z [|? ?]] eqn:Ef; try done. intros [= ->]. apply Hsub.
  assert (Hz : h ∈ [h]) by by left. rewrite <-Ef in Hz. by apply list_elem_of_filter in Hz as [_ ?].
Qed.
Lemma heads_elem V hs h : supersession_heads V = Some hs → h ∈ hs → h ∈ V.
Proof.
  unfold supersession_heads. intros Hs%mapM_Some_1 [i Hi]%list_elem_of_lookup_1.
  destruct (Forall2_lookup_r _ _ _ _ _ Hs Hi) as (g & Hg & E). apply list_elem_of_lookup_2 in Hg.
  apply lineage_head_elem in E. apply group_by_sublist in Hg as [_ Hsub]. by eapply sublist_elem.
Qed.
Lemma heads_NoDup V hs : supersession_heads V = Some hs → NoDup hs.
Proof.
  unfold supersession_heads. revert hs.
  induction V as [|x V IH] using (group_ind interval_key); intros hs Hs; [injection Hs as <-; constructor|].
  rewrite group_by_cons in Hs. simpl in Hs.
  destruct (lineage_head _) as [h|] eqn:Eh; simplify_eq/=.
  destruct (mapM lineage_head _) as [hs'|] eqn:Es; simplify_eq/=.
  injection Hs as <-. constructor; [|by apply IH].
  intros Hin. apply mapM_Some_1 in Es.
  destruct (list_elem_of_lookup_1 _ _ Hin) as [i Hi].
  destruct (Forall2_lookup_r _ _ _ _ _ Es Hi) as (g & Hg & E). apply list_elem_of_lookup_2 in Hg.
  apply lineage_head_elem in Eh, E. apply group_by_sublist in Hg as [_ Hsub].
  eapply sublist_elem in E; [|done]. apply list_elem_of_filter in E as [Hk _].
  apply elem_of_cons in Eh as [->|Eh]; [done|]. by apply list_elem_of_filter in Eh as [? _].
Qed.

(** ** Overlapping intervals *)

Definition interval_wf (i : ValidityInterval) : Prop :=
  match valid_to i with Some b => valid_from i < b | None => True end.

Lemma overlap_spec i j :
  interval_wf i → interval_wf j →
  intervals_overlap i j = true ↔ ∃ t, interval_contains i t = true ∧ interval_contains j t = true.
Proof.
  destruct i as [a [b|]], j as [c [d|]]; unfold interval_wf, intervals_overlap, interval_contains; simpl;
    intros Hi Hj; (split; [intros H; exists (Z.max a c)|intros (t & H1 & H2)]);
    repeat match goal with |- context [if ?x then _ else _] => destruct x eqn:? end;
    repeat match goal with H : context [if ?x then _ else _] |- _ => destruct x eqn:? end;
    try done; lia.
Qed.

(** Sorted by their starts, intervals whose neighbours are disjoint are disjoint. *)
Lemma disjoint_later i j k :
  interval_wf i → interval_wf j → interval_wf k →
  valid_from i <= valid_from j → valid_from j <= valid_from k →
  intervals_overlap i j = false → intervals_overlap i k = false.
Proof.
  destruct i as [a [b|]], j as [c [d|]], k as [e [f|]]; unfold interval_wf, intervals_overlap; simpl;
    intros Hi Hj Hk Hij Hjk;
    repeat match goal with |- context [if ?x then _ else _] => destruct x eqn:? end; lia.
Qed.
Lemma neighbours_disjoint l :
  StronglySorted (λ a b, from_leb a b = true) l → Forall (λ r, interval_wf (id_valid r)) l →
  overlap_neighbours l = false →
  StronglySorted (λ a b, intervals_overlap (id_valid a) (id_valid b) = false) l.
Proof.
  induction 1 as [|a l Hl IH Ha]; intros Hw Hn; [constructor|].
  inversion Hw as [|? ? Hwa Hwl]; subst. destruct l as [|b l]; [repeat constructor|].
  simpl in Hn. apply orb_false_iff in Hn as [Hab Hn]. specialize (IH Hwl Hn). constructor; [done|].
  constructor; [done|]. inversion Hl as [|? ? _ Hb]; subst. inversion Ha as [|? ? Hfab _]; subst.
  inversion Hwl as [|? ? Hwb Hwl']; subst. unfold from_leb in *.
  rewrite Forall_forall in Hb, Hwl'. apply Forall_forall. intros c Hc.
  specialize (Hb c Hc). simpl in Hb. simpl in Hfab.
  apply (disjoint_later (id_valid a) (id_valid b)); auto; lia.
Qed.
Lemma neighbours_overlap l :
  NoDup l → overlap_neighbours l = true →
  ∃ a b, a ∈ l ∧ b ∈ l ∧ a ≠ b ∧ intervals_overlap (id_valid a) (id_valid b) = true.
Proof.
  induction l as [|a l IH]; [done|]. destruct l as [|b l]; [done|]. intros Hn Ho. simpl in Ho.
  inversion Hn as [|? ? Ha Hn']; subst. apply orb_true_iff in Ho as [Ho|Ho].
  - exists a, b. repeat split; [by left|right; by left| |done]. intros ->. apply Ha. by left.
  - destruct (IH Hn' Ho) as (c & d & Hc & Hd & ? & ?). exists c, d. repeat split; [by right|by right|done|done].
Qed.

Lemma from_leb_total a b : from_leb a b = false → from_leb b a = true.
Proof. unfold from_leb. lia. Qed.
Lemma from_leb_trans a b c : from_leb a b = true → from_leb b c = true → from_leb a c = true.
Proof. unfold from_leb. lia. Qed.

Lemma overlap_sym i j :
  interval_wf i → interval_wf j → intervals_overlap i j = intervals_overlap j i.
Proof.
  intros Hi Hj. apply eq_true_iff_eq. rewrite !overlap_spec by done.
  split; intros (t & ? & ?); by exists t.
Qed.

Lemma interval_conflict_spec hs :
  NoDup hs → Forall (λ r, interval_wf (id_valid r)) hs →
  any_interval_conflict hs = false ↔
  ∀ h h' t, h ∈ hs → h' ∈ hs → id_security h = id_security h' →
    identity_valid_at h t = true → identity_valid_at h' t = true → h = h'.
Proof.
  intros Hn Hw. rewrite Forall_forall in Hw. unfold any_interval_conflict, identity_valid_at. split.
  - intros Hf h h' t Hh Hh' Hs Ht Ht'. destruct (decide (h = h')) as [|Hne]; [done|exfalso].
    destruct (group_by_elem id_security hs h h' Hh Hh' Hs) as (g & Hg & Hhg & Hhg').
    apply group_by_sublist in Hg as Hsub. destruct Hsub as [_ Hsub].
    assert (Hgw : ∀ r, r ∈ g → interval_wf (id_valid r)).
    { intros r Hr. apply Hw. by eapply sublist_elem. }
    assert (Hgn : overlap_neighbours (sort_by from_leb g) = false).
    { apply not_true_iff_false. intros Ho. apply not_true_iff_false in Hf. apply Hf, existsb_exists.
      exists g. split; [by apply list_elem_of_In|done]. }
    apply neighbours_disjoint in Hgn;
      [|by apply sort_by_sorted; [apply from_leb_total|apply from_leb_trans]|].
    2: { apply Forall_forall. intros r Hr. rewrite elem_of_sort_by in Hr. by apply Hgw. }
    assert (Hov : intervals_overlap (id_valid h) (id_valid h') = true)
      by (apply overlap_spec; [by apply Hgw..|]; by exists t).
    destruct (StronglySorted_pair _ _ h h' Hgn) as [E|E]; rewrite ?elem_of_sort_by; try done; [congruence|].
    rewrite overlap_sym in E by by apply Hgw. congruence.
  - intros Hd. apply not_true_iff_false. intros (g & Hg & Ho)%existsb_exists.
    apply list_elem_of_In, group_by_spec in Hg as (x & Hx & ->).
    apply neighbours_overlap in Ho as (a & b & Ha & Hb & Hne & Ho);
      [|rewrite sort_by_perm; by apply NoDup_filter].
    rewrite elem_of_sort_by in Ha, Hb. apply list_elem_of_filter in Ha as [Ea Ha], Hb as [Eb Hb].
    apply overlap_spec in Ho as (t & ? & ?); [|by apply Hw..]. apply Hne, (Hd a b t); congruence.
Qed.

(** ** The resolver *)

Lemma identity_fields_wf r : validate_identity_fields r = Ok () → interval_wf (id_valid r).
Proof.
  unfold validate_identity_fields, interval_wf. intros ([] & H%guard_Ok & _)%obind_Ok.
  destruct (valid_to _); [lia|done].
Qed.

Section resolver.
Context (records : list SecurityIdentityRecord) (q : IdentityQuery).
Context (Hwf : ∀ r, r ∈ records → interval_wf (id_valid r)).
Context (Hinj : ∀ r r', r ∈ records → r' ∈ records → id_hash r = id_hash r' → r = r').

Definition scoped_records : list SecurityIdentityRecord :=
  filter (λ r, matches_key q r = true) records.
Definition visible_records : list SecurityIdentityRecord :=
  filter (λ r, identity_known_at r (iq_known_at q) = true) scoped_records.

Lemma elem_of_scoped r : r ∈ scoped_records ↔ in_scope records q r.
Proof using Type. unfold scoped_records, in_scope. rewrite list_elem_of_filter. tauto. Qed.
Lemma elem_of_visible r : r ∈ visible_records ↔ seen records q r.
Proof using Type. unfold visible_records, seen. rewrite list_elem_of_filter, elem_of_scoped. tauto. Qed.
Lemma latest_current h : latest_in visible_records h ↔ current records q h.
Proof using Type.
  unfold latest_in, current. rewrite elem_of_visible.
  split; intros [? H]; (split; [done|]); intros r Hr; apply H; by apply elem_of_visible.
Qed.
Lemma visible_inj r r' : r ∈ visible_records → r' ∈ visible_records → id_hash r = id_hash r' → r = r'.
Proof using Hinj. intros [[Hr _] _]%elem_of_visible [[Hr' _] _]%elem_of_visible. by apply Hinj. Qed.

(** The decision on the heads of an orderly history. *)
Lemma decide_valid_spec hs r :
  NoDup hs → (∀ h, h ∈ hs ↔ current records q h) → seen records q r → orderly records q →
  resolution_spec records q (decide_valid (filter (λ r, identity_valid_at r (iq_as_of q) = true) hs)).
Proof using Type.
  intros Hn Hh Hr Ho. set (v := filter _ hs).
  assert (Hv : ∀ h, h ∈ v ↔ answering records q h).
  { intros h. unfold v, answering. rewrite list_elem_of_filter, Hh. tauto. }
  assert (Hsec : ∀ h h', answering records q h → answering records q h' → id_security h = id_security h' → h = h').
  { intros h h' [Hc Ht] [Hc' Ht'] E. by eapply (proj2 Ho). }
  assert (Hvn : NoDup (id_security <$> v)).
  { apply (NoDup_fmap_2_strong _ _); [|by apply NoDup_filter].
    intros x y Hx%Hv Hy%Hv. by apply Hsec. }
  destruct v as [|h [|h' v']] eqn:E; cbn [decide_valid].
  - eapply spec_not_valid; [done..|]. intros h Hans%Hv. by apply elem_of_nil in Hans.
  - rewrite bool_decide_true by done. simpl. apply spec_resolved; [done|by apply Hv; left|].
    intros r' Hr'%Hv. by apply list_elem_of_singleton in Hr'.
  - rewrite bool_decide_true by done. simpl. eapply (spec_ambiguous _ _ h h'); [done| | |].
    + by apply Hv; left.
    + apply Hv. right. by left.
    + intros Heq. rewrite !fmap_cons in Hvn. apply NoDup_cons in Hvn as [Hnin _]. apply Hnin.
      rewrite Heq. by left.
Qed.

Lemma resolve_scoped_spec : resolution_spec records q (resolve_scoped q scoped_records).
Proof using Hwf Hinj.
  unfold resolve_scoped. fold visible_records.
  destruct scoped_records as [|r l] eqn:Es.
  { apply spec_no_match. intros r Hr%elem_of_scoped. rewrite Es in Hr. by apply elem_of_nil in Hr. }
  assert (Hr : in_scope records q r) by (apply elem_of_scoped; rewrite Es; by left).
  destruct visible_records as [|r' l'] eqn:Ev.
  { eapply spec_stale; [exact Hr|]. intros x Hx%elem_of_visible. rewrite Ev in Hx. by apply elem_of_nil in Hx. }
  assert (Hr' : seen records q r') by (apply elem_of_visible; rewrite Ev; by left).
  rewrite <-Ev. destruct (supersession_heads visible_records) as [hs|] eqn:Eh.
  2: { eapply spec_conflict; [exact Hr'|]. intros [Ho _].
    destruct (heads_None _ visible_inj Eh) as (x & Hx & Hnone). apply elem_of_visible in Hx.
    destruct (Ho x Hx) as (h & Hh & Ek). by apply (Hnone h); [apply latest_current|]. }
  destruct (heads_Some _ visible_inj _ Eh) as [Hin Hall].
  assert (Hcur : ∀ h, h ∈ hs ↔ current records q h) by (intros h; by rewrite Hin, latest_current).
  assert (Hn := heads_NoDup _ _ Eh).
  assert (Hw : Forall (λ r, interval_wf (id_valid r)) hs).
  { apply Forall_forall. intros h [[[? _] _] _]%Hcur. by apply Hwf. }
  destruct (any_interval_conflict hs) eqn:Ec.
  - eapply spec_conflict; [exact Hr'|]. intros [_ Ho]. apply not_false_iff_true in Ec. apply Ec.
    apply interval_conflict_spec; [done..|]. intros h h' t Hh%Hcur Hh'%Hcur. by apply Ho.
  - eapply decide_valid_spec; [done..|]. split.
    + intros x Hx%elem_of_visible. destruct (Hall x Hx) as (h & Hh & E). exists h. by rewrite <-latest_current.
    + intros h h' t Hh%Hcur Hh'%Hcur. by apply (proj1 (interval_conflict_spec hs Hn Hw) Ec).
Qed.
End resolver.

(** A resolved record is one of the records, in scope and valid at the instant. *)
Lemma resolved_elem identity_digest records q r :
  resolve_identity identity_digest records q = Ok (mk_Resolution Ids.RESOLVED (Some r)) →
  r ∈ records ∧ matches_key q r = true ∧ identity_known_at r (iq_known_at q) = true ∧
  identity_valid_at r (iq_as_of q) = true.
Proof.
  unfold resolve_identity. intros ([] & _ & H)%obind_Ok. apply obind_Ok in H as ([] & _ & [= H]).
  unfold resolve_scoped in H. destruct (filter (λ r, matches_key q r = true) records) as [|x l] eqn:Es; [done|].
  rewrite <-Es in H.
  destruct (filter (λ r, identity_known_at r _ = true) _) as [|y k] eqn:Ev in H; [done|]. rewrite <-Ev in H.
  destruct (supersession_heads _) as [hs|] eqn:Eh; [|done]. destruct (any_interval_conflict hs); [done|].
  assert (Hr : r ∈ filter (λ r, identity_valid_at r (iq_as_of q) = true) hs).
  { destruct (filter _ hs) as [|z [|? ?]]; cbn [decide_valid] in H; [done| |];
      destruct (bool_decide _) in H; simpl in H; try done. injection H as ->. by left. }
  apply list_elem_of_filter in Hr as [Hv Hr]. eapply heads_elem in Hr; [|exact Eh].
  apply list_elem_of_filter in Hr as [Hk Hr]. apply list_elem_of_filter in Hr as [Hm Hr]. done.
Qed.

(** C12. The resolver answers a point-in-time query exactly as specified: nothing in
    scope is UNKNOWN and nothing yet knowable STALE; a history in which some interval
    has no single latest version, or two current versions of one security overlap, is
    a CONFLICT; otherwise the current versions valid at the instant decide - none is
    UNKNOWN, two securities AMBIGUOUS, and a single one is RESOLVED and returned.
    The answer depends on the set of records only; those learned after the cutoff
    only tell STALE from UNKNOWN. *)
Theorem resolve_identity_refines identity_digest records q res :
  (length records ≤ MAX_RESOLUTION_RECORDS)%nat →
  (∀ r, r ∈ records → check_SecurityIdentityRecord identity_digest r = Ok ()) →
  (∀ r r', r ∈ records → r' ∈ records → id_hash r = id_hash r' → r = r') →
  resolve_identity identity_digest records q = Ok res ↔ resolution_spec records q res.
Proof.
  intros Hlen Hck Hinj. unfold resolve_identity.
  assert (Hint : forallb (identity_intact identity_digest) records = true).
  { apply forallb_forall. intros r Hr%list_elem_of_In. specialize (Hck r Hr).
    apply obind_Ok in Hck as ([] & _ & Hck). apply obind_Ok in Hck as ([] & _ & Hck%guard_Ok). by rewrite Hck. }
  rewrite Hint. replace (length records <=? MAX_RESOLUTION_RECORDS)%nat with true
    by (symmetry; by apply Nat.leb_le). simpl.
  assert (Hspec : resolution_spec records q (resolve_scoped q (scoped_records records q))).
  { apply resolve_scoped_spec; [|done]. intros r Hr. apply identity_fields_wf.
    specialize (Hck r Hr). by apply obind_Ok in Hck as ([] & ? & _). }
  split; [by intros [= <-]|]. intros H. f_equal. by eapply resolution_spec_functional.
Qed.

(** ** A corrected listing *)

(** A digest for concrete records: a number as 64 hexadecimal digits. *)
Definition demo_hex64 (n : Z) : string := zeros (64 - String.length (int_text n)) +:+ int_text n.
Definition demo_identity_digest (r : SecurityIdentityRecord) : string := demo_hex64 (id_available_at r).
Definition demo_listing (symbol : string) (from : Z) (to : option Z) (available : Z) : SecurityIdentityRecord :=
  with_identity_hash (demo_hex64 available)
    (mk_Identity "abcdef01-demo" symbol NASDAQ US_EQUITY (mk_Validity from to) available ACTIVE
       [mk_SourceRef "assets-1" ALPACA_ASSETS (demo_hex64 7)] "1.0.0" "" None None None).
(** A listing, its correction, one learned later, and the successor symbol. *)
Definition demo_listings : list SecurityIdentityRecord :=
  [demo_listing "OLD" 0 (Some 50) 1; demo_listing "FIX" 0 (Some 50) 10;
   demo_listing "LATE" 0 (Some 50) 100; demo_listing "NEW" 50 None 20].
Definition demo_query : IdentityQuery := mk_IdentityQuery 30 60 (Some "abcdef01-demo") None.

Lemma demo_listings_checked r :
  r ∈ demo_listings → check_SecurityIdentityRecord demo_identity_digest r = Ok ().
Proof. intros Hr. repeat (apply elem_of_cons in Hr as [->|Hr]; [by vm_compute|]). by apply elem_of_nil in Hr. Qed.
Lemma demo_listings_distinct r r' :
  r ∈ demo_listings → r' ∈ demo_listings → id_hash r = id_hash r' → r = r'.
Proof.
  assert (Hn : NoDup (id_hash <$> demo_listings)) by (apply (bool_decide_unpack _); by vm_compute).
  by apply NoDup_fmap_inj_on.
Qed.

Lemma resolve_identity_refines_witness :
  resolution_spec demo_listings demo_query
    (mk_Resolution Ids.RESOLVED (Some (demo_listing "FIX" 0 (Some 50) 10))).
Proof.
  apply (proj1 (resolve_identity_refines demo_identity_digest demo_listings demo_query
    (mk_Resolution Ids.RESOLVED (Some (demo_listing "FIX" 0 (Some 50) 10)))
    ltac:(apply Nat.leb_le; by vm_compute) demo_listings_checked demo_listings_distinct)).
  by vm_compute.
Defined.
