(* ===== verification/Actions.v ===== *)
(** * Split events: [securities/corporate_actions.py]

    Exact split ratios, the closed lifecycle of a split event, its rows, and the
    validation of one transition and of a whole lineage. *)

From S2P Require Import Prelude Dicts Text Orders Decimals Calendar Sources.
Local Open Scope Z_scope.

Definition MAX_LINEAGE_RECORDS : nat := 4096.

Inductive CorporateActionType := FORWARD_SPLIT | REVERSE_SPLIT.
#[global] Instance CorporateActionType_eq_dec : EqDecision CorporateActionType.
Proof. solve_decision. Defined.
(** [parse_action_type] *)
Definition parse_action_type (text : string) : outcome CorporateActionType :=
  if bool_decide (text = "forward_split") then Ok FORWARD_SPLIT
  else if bool_decide (text = "reverse_split") then Ok REVERSE_SPLIT
  else raise EValueError "unsupported corporate action type".

Module CorporateActionState.
Inductive t := DETECTED | ENTRY_BLOCKED | CONFIRMED | REVIEW_REQUIRED | EFFECTIVE_PENDING_RECONCILIATION.
#[global] Instance eq_dec : EqDecision t.
Proof. solve_decision. Defined.
Definition value (s : t) : string :=
  match s with
  | DETECTED => "detected" | ENTRY_BLOCKED => "entry_blocked" | CONFIRMED => "confirmed"
  | REVIEW_REQUIRED => "review_required"
  | EFFECTIVE_PENDING_RECONCILIATION => "effective_pending_reconciliation"
  end.
End CorporateActionState.
Module Cas := CorporateActionState.

(** [_ALLOWED_TRANSITIONS] *)
Definition allowed_transitions : list (Cas.t * Cas.t) :=
  [(Cas.DETECTED, Cas.ENTRY_BLOCKED); (Cas.ENTRY_BLOCKED, Cas.CONFIRMED);
   (Cas.DETECTED, Cas.REVIEW_REQUIRED); (Cas.ENTRY_BLOCKED, Cas.REVIEW_REQUIRED);
   (Cas.CONFIRMED, Cas.REVIEW_REQUIRED); (Cas.CONFIRMED, Cas.EFFECTIVE_PENDING_RECONCILIATION)].
Definition is_legal_transition (from_state to_state : Cas.t) : bool :=
  bool_decide ((from_state, to_state) ∈ allowed_transitions).
(** [_TERMINAL_STATES] *)
Definition terminal_states : list Cas.t := [Cas.REVIEW_REQUIRED; Cas.EFFECTIVE_PENDING_RECONCILIATION].
Definition is_terminal (s : Cas.t) : bool := bool_decide (s ∈ terminal_states).

(** ** Ratios *)

Record SplitRatio := mk_Ratio { sr_numerator : Z; sr_denominator : Z }.
#[global] Instance SplitRatio_eq_dec : EqDecision SplitRatio.
Proof. solve_decision. Defined.

Definition make_SplitRatio (n d : Z) : outcome SplitRatio :=
  guard_that (negb ((n <=? 0) || (d <=? 0))) EValueError "split ratio must be strictly positive" ≫= λ _,
  guard_that (Z.gcd n d =? 1) EValueError
    "split ratio must be normalized; use SplitRatio.from_fraction" ≫= λ _,
  Ok (mk_Ratio n d).
Definition from_fraction (n d : Z) : outcome SplitRatio :=
  guard_that (negb ((n <=? 0) || (d <=? 0))) EValueError "split ratio must be strictly positive" ≫= λ _,
  let scale := Z.gcd n d in
  make_SplitRatio (n `div` scale) (d `div` scale).
(** [Decimal.as_integer_ratio]: in lowest terms with a positive denominator. *)
Definition as_integer_ratio (v : Decimal) : Z * Z :=
  let n := dec_coeff v * 10 ^ Z.max 0 (dec_exp v) in
  let d := 10 ^ Z.max 0 (- dec_exp v) in
  (n `div` Z.gcd n d, d `div` Z.gcd n d).
Definition from_decimal (v : Decimal) : outcome SplitRatio :=
  guard_that (negb (dec_leb v dzero)) EValueError "split ratio must be strictly positive" ≫= λ _,
  let '(n, d) := as_integer_ratio v in from_fraction n d.

(** ** Rows of a lineage *)

Record CorporateActionRecord := mk_Action {
  ca_event_id : string;
  ca_security_id : string;
  ca_security_identity_hash : string;
  ca_action_type : CorporateActionType;
  ca_ratio : SplitRatio;
  ca_declared_at : Z;
  ca_ex_date : Z;
  ca_effective_date : Z;
  ca_available_at : Z;
  ca_state : Cas.t;
  ca_source_refs : list SourceRef;
  ca_schema_version : string;
  ca_record_hash : string;
}.
#[global] Instance CorporateActionRecord_eq_dec : EqDecision CorporateActionRecord.
Proof. solve_decision. Defined.

(** [_EVENT_ID], the shape of record identifiers. *)
Definition event_id_ok : string → bool := record_id_ok.

(** [_validate_action_fields] *)
Definition validate_action_fields (r : CorporateActionRecord) : outcome unit :=
  guard_that (event_id_ok (ca_event_id r)) EValueError
    "event id must be a canonical event identifier" ≫= λ _,
  guard_that (is_digest (ca_security_identity_hash r)) EValueError
    "security identity hash must be a SHA-256 digest" ≫= λ _,
  guard_that (negb (ca_ex_date r <? utc_date (ca_declared_at r))) EValueError
    "ex date cannot precede the declaration date" ≫= λ _,
  guard_that (negb (ca_effective_date r <? ca_ex_date r)) EValueError
    "effective date cannot precede the ex date" ≫= λ _,
  guard_that (negb (ca_available_at r <? ca_declared_at r)) EValueError
    "available_at cannot precede the declaration time" ≫= λ _,
  check_source_refs (ca_source_refs r).

Definition action_known_at (r : CorporateActionRecord) (cutoff : Z) : bool :=
  ca_available_at r <=? cutoff.

(** [_IMMUTABLE_EVENT_FACTS] *)
Definition event_facts (r : CorporateActionRecord) :
    string * string * CorporateActionType * SplitRatio * Z * Z * Z :=
  (ca_security_id r, ca_security_identity_hash r, ca_action_type r, ca_ratio r,
   ca_declared_at r, ca_ex_date r, ca_effective_date r).

Definition with_action_hash (h : string) (r : CorporateActionRecord) : CorporateActionRecord :=
  mk_Action (ca_event_id r) (ca_security_id r) (ca_security_identity_hash r) (ca_action_type r)
    (ca_ratio r) (ca_declared_at r) (ca_ex_date r) (ca_effective_date r) (ca_available_at r)
    (ca_state r) (ca_source_refs r) (ca_schema_version r) h.

(** The content digest of a row is a parameter; it does not read the hash field. *)
Section action_digest.
Context (action_digest : CorporateActionRecord → string).

Definition action_compute_hash (r : CorporateActionRecord) : string :=
  action_digest (with_action_hash "" r).
Definition action_intact (r : CorporateActionRecord) : bool :=
  bool_decide (ca_record_hash r = action_compute_hash r).
Definition verify_action (r : CorporateActionRecord) : outcome unit :=
  guard_that (action_intact r) EValueError
    "record hash does not match frozen corporate-action content".
(** [__post_init__] *)
Definition check_CorporateActionRecord (r : CorporateActionRecord) : outcome unit :=
  validate_action_fields r ≫= λ _,
  guard_that (is_digest (ca_record_hash r)) EValueError "record hash must be a SHA-256 digest" ≫= λ _,
  verify_action r.
Definition build_corporate_action_record (r : CorporateActionRecord) : outcome CorporateActionRecord :=
  validate_action_fields r ≫= λ _,
  let built := with_action_hash (action_compute_hash r) r in
  check_CorporateActionRecord built ≫= λ _, Ok built.

(** ** Transitions and lineages *)

Definition validate_transition (previous candidate : CorporateActionRecord) : outcome unit :=
  verify_action previous ≫= λ _,
  verify_action candidate ≫= λ _,
  guard_that (bool_decide (ca_event_id previous = ca_event_id candidate)) EIllegalTransition
    "transition must stay within one corporate-action event" ≫= λ _,
  guard_that (bool_decide (event_facts previous = event_facts candidate)) EIllegalTransition
    "transition cannot change immutable event fact" ≫= λ _,
  guard_that (is_legal_transition (ca_state previous) (ca_state candidate)) EIllegalTransition
    "illegal corporate-action transition" ≫= λ _,
  guard_that (negb (ca_available_at candidate <? ca_available_at previous)) EIllegalTransition
    "transition decision time cannot precede the previous head".

(** [for earlier, later in pairwise(records): validate_transition(earlier, later)] *)
Fixpoint validate_pairs (l : list CorporateActionRecord) : outcome unit :=
  match l with
  | a :: ((b :: _) as rest) => validate_transition a b ≫= λ _, validate_pairs rest
  | _ => Ok ()
  end.

Definition validate_lineage (records : list CorporateActionRecord) : outcome CorporateActionRecord :=
  match records with
  | [] => raise EValueError
      "lineage must be a non-empty tuple of at most 4096 CorporateActionRecord values"
  | root :: _ =>
      guard_that (length records <=? MAX_LINEAGE_RECORDS)%nat EValueError
        "lineage must be a non-empty tuple of at most 4096 CorporateActionRecord values" ≫= λ _,
      guard_that (forallb action_intact records) EValueError
        "record hash does not match frozen corporate-action content" ≫= λ _,
      guard_that (bool_decide (ca_state root = Cas.DETECTED)) EIllegalTransition
        "corporate-action lineage must begin at DETECTED" ≫= λ _,
      validate_pairs records ≫= λ _,
      Ok (List.last records root)
  end.
End action_digest.
