(* ===== verification/ActionFacts.v ===== *)
(** * Properties of split ratios and event lineages

    A ratio built from a fraction is the fraction in lowest terms; the rows of a
    valid lineage agree on the event, never go back in time, climb the lifecycle and
    are at most four. *)

From S2P Require Import Prelude Dicts Text Orders Decimals Calendar Sources Actions.
From Stdlib Require Import Znumtheory.
Local Open Scope Z_scope.

(** ** Ratios *)

(** A fraction in lowest terms is accepted as it is. *)
Lemma make_SplitRatio_Ok n d r :
  make_SplitRatio n d = Ok r ↔ r = mk_Ratio n d ∧ 0 < n ∧ 0 < d ∧ Z.gcd n d = 1.
Proof.
  unfold make_SplitRatio. split.
  - intros ([] & H1%guard_Ok & H)%obind_Ok. apply obind_Ok in H as ([] & H2%guard_Ok & [= <-]).
    apply negb_true_iff, orb_false_iff in H1 as [? ?]. split_and!; [done|lia..].
  - intros (-> & Hn & Hd & Hg). rewrite (proj2 (Z.eqb_eq _ _) Hg).
    replace (n <=? 0) with false by lia. by replace (d <=? 0) with false by lia.
Qed.

Lemma from_fraction_Ok n d :
  0 < n → 0 < d → ∃ r, from_fraction n d = Ok r ∧ sr_numerator r * d = n * sr_denominator r ∧
    0 < sr_numerator r ∧ 0 < sr_denominator r ∧ Z.gcd (sr_numerator r) (sr_denominator r) = 1.
Proof.
  intros Hn Hd. assert (Hg : 0 < Z.gcd n d) by (pose proof (Z.gcd_nonneg n d); pose proof (Z.gcd_eq_0_l n d); lia).
  pose proof (Z.gcd_divide_l n d) as [a Ha]. pose proof (Z.gcd_divide_r n d) as [b Hb].
  assert (Ea : n `div` Z.gcd n d = a) by (rewrite Ha at 1; by apply Z.div_mul; lia).
  assert (Eb : d `div` Z.gcd n d = b) by (rewrite Hb at 1; by apply Z.div_mul; lia).
  exists (mk_Ratio a b). unfold from_fraction. rewrite Ea, Eb.
  replace (n <=? 0) with false by lia. replace (d <=? 0) with false by lia. simpl.
  assert (0 < a ∧ 0 < b) as [Hpa Hpb] by (split; nia).
  assert (Hone : Z.gcd a b = 1).
  { rewrite <-Ea, <-Eb. apply Z.gcd_div_gcd; [lia|done]. }
  split; [by apply make_SplitRatio_Ok|]. split; [|done]. rewrite Ha, Hb at 1. ring_simplify. nia.
Qed.

(** Equal rationals have the same ratio. *)
Lemma from_fraction_unique n d n' d' :
  0 < n → 0 < d → 0 < n' → 0 < d' → n * d' = n' * d → from_fraction n d = from_fraction n' d'.
Proof.
  intros Hn Hd Hn' Hd' E.
  destruct (from_fraction_Ok n d Hn Hd) as ([a b] & -> & H1 & Ha & Hb & Hg).
  destruct (from_fraction_Ok n' d' Hn' Hd') as ([a' b'] & -> & H1' & Ha' & Hb' & Hg'). simpl in *.
  assert (Hx : a * b' = a' * b) by nia.
  assert (Hdiv : ∀ x y z w, 0 < x → 0 < z → Z.gcd x y = 1 → Z.gcd z w = 1 → x * w = z * y → x = z).
  { clear. intros x y z w Hx Hz Hxy Hzw E. apply Z.divide_antisym_nonneg; [lia..| |].
    - apply (Z.gauss x y z); [|done]. exists w. lia.
    - apply (Z.gauss z w x); [|done]. exists y. lia. }
  assert (Ea : a = a') by (by eapply (Hdiv a b a' b')). subst a'.
  assert (b = b') as -> by nia. done.
Qed.

(** ** Lineages *)

(** How far a state is in the lifecycle. *)
Definition state_rank (s : Cas.t) : Z :=
  match s with
  | Cas.DETECTED => 0 | Cas.ENTRY_BLOCKED => 1 | Cas.CONFIRMED => 2
  | Cas.REVIEW_REQUIRED | Cas.EFFECTIVE_PENDING_RECONCILIATION => 3
  end.
Lemma legal_rank a b : is_legal_transition a b = true → state_rank a < state_rank b.
Proof. by destruct a, b. Qed.
Lemma terminal_rank s : is_terminal s = true ↔ state_rank s = 3.
Proof. by destruct s. Qed.

(** What a row says about a later one. *)
Definition precedes (a b : CorporateActionRecord) : Prop :=
  ca_event_id a = ca_event_id b ∧ event_facts a = event_facts b ∧
  state_rank (ca_state a) < state_rank (ca_state b) ∧ ca_available_at a <= ca_available_at b.
#[global] Instance precedes_trans : Transitive precedes.
Proof. intros a b c (E1 & F1 & ? & ?) (E2 & F2 & ? & ?). split_and!; [congruence|congruence|lia|lia]. Qed.

Lemma increasing_length l lo hi :
  StronglySorted Z.lt l → Forall (λ x, lo <= x <= hi) l → Z.of_nat (length l) <= Z.max 0 (hi - lo + 1).
Proof.
  intros Hs. revert lo. induction Hs as [|x l _ IH Hx]; intros lo Hb; simpl; [lia|].
  inversion Hb as [|? ? Hxb Hlb]; subst.
  assert (Z.of_nat (length l) <= Z.max 0 (hi - (x + 1) + 1)); [|lia]. apply IH.
  rewrite Forall_forall in *. intros y Hy. specialize (Hx y Hy). specialize (Hlb y Hy). lia.
Qed.

Lemma filter_none {A} (P : A → Prop) `{∀ x, Decision (P x)} l : (∀ x, x ∈ l → ¬ P x) → filter P l = [].
Proof.
  induction l as [|x l IH]; intros Hl; [done|]. rewrite filter_cons_False by (apply Hl; by left).
  apply IH. intros y Hy. apply Hl. by right.
Qed.

Section lineage.
Context (action_digest : CorporateActionRecord → string).
Notation intact := (action_intact action_digest).
Notation transition := (validate_transition action_digest).

Lemma transition_Ok a b :
  transition a b = Ok () ↔
  intact a = true ∧ intact b = true ∧ ca_event_id a = ca_event_id b ∧ event_facts a = event_facts b ∧
  is_legal_transition (ca_state a) (ca_state b) = true ∧ ca_available_at a <= ca_available_at b.
Proof.
  unfold validate_transition, verify_action. split.
  - intros ([] & H1%guard_Ok & H)%obind_Ok. apply obind_Ok in H as ([] & H2%guard_Ok & H).
    apply obind_Ok in H as ([] & H3%guard_Ok & H). apply obind_Ok in H as ([] & H4%guard_Ok & H).
    apply obind_Ok in H as ([] & H5%guard_Ok & H%guard_Ok).
    apply bool_decide_eq_true in H3, H4. split_and!; [done..|lia].
  - intros (-> & -> & E3 & E4 & -> & E6). rewrite !bool_decide_true by done. simpl.
    by replace (ca_available_at b <? ca_available_at a) with false by lia.
Qed.
Lemma transition_precedes a b : transition a b = Ok () → precedes a b.
Proof. intros (_ & _ & ? & ? & ?%legal_rank & ?)%transition_Ok. done. Qed.

Lemma pairs_cons a b l :
  validate_pairs action_digest (a :: b :: l) = Ok () ↔
  transition a b = Ok () ∧ validate_pairs action_digest (b :: l) = Ok ().
Proof.
  change (validate_pairs action_digest (a :: b :: l))
    with (transition a b ≫= λ _, validate_pairs action_digest (b :: l)).
  split; [by intros ([] & ? & ?)%obind_Ok|]. by intros [-> ?].
Qed.
Lemma pairs_snoc l a b :
  validate_pairs action_digest (l ++ [a; b]) = Ok () ↔
  validate_pairs action_digest (l ++ [a]) = Ok () ∧ transition a b = Ok ().
Proof.
  induction l as [|x l IH]; [rewrite (pairs_cons a b []); simpl; tauto|].
  destruct l as [|y l]; simpl app in *.
  - rewrite !pairs_cons. simpl. tauto.
  - rewrite !pairs_cons, IH. tauto.
Qed.
Lemma pairs_sorted l : validate_pairs action_digest l = Ok () → StronglySorted precedes l.
Proof.
  intros H. apply Sorted_StronglySorted; [apply _|].
  induction l as [|a l IH]; [constructor|]. destruct l as [|b l]; [repeat constructor|].
  apply pairs_cons in H as [Ht H]. constructor; [by apply IH|]. constructor. by apply transition_precedes.
Qed.

(** The rows of a valid lineage. *)
Record lineage_of (l : list CorporateActionRecord) (root head : CorporateActionRecord) : Prop := {
  ln_root : List.hd_error l = Some root;
  ln_head : last l = Some head;
  ln_detected : ca_state root = Cas.DETECTED;
  ln_intact : ∀ r, r ∈ l → intact r = true;
  ln_pairs : validate_pairs action_digest l = Ok ();
}.

Lemma lineage_sorted l root head : lineage_of l root head → StronglySorted precedes l.
Proof. intros []. by apply pairs_sorted. Qed.
Lemma lineage_first l root head r : lineage_of l root head → r ∈ l → r = root ∨ precedes root r.
Proof.
  intros Hl Hr. pose proof (lineage_sorted _ _ _ Hl) as Hs. destruct Hl as [Hroot _ _ _ _].
  destruct l as [|x l]; [done|]. injection Hroot as ->. apply elem_of_cons in Hr as [->|Hr]; [by left|right].
  inversion Hs as [|? ? _ Hx]; subst. by apply (proj1 (Forall_forall _ _) Hx).
Qed.
Lemma lineage_last l root head r : lineage_of l root head → r ∈ l → r = head ∨ precedes r head.
Proof.
  intros Hl Hr. pose proof (lineage_sorted _ _ _ Hl) as Hs. destruct Hl as [_ Hh _ _ _].
  apply last_Some in Hh as [k ->]. apply elem_of_app in Hr as [Hr|Hr]; [right|left; by apply list_elem_of_singleton in Hr].
  eapply StronglySorted_app_1_elem_of; [exact Hs|done|by left].
Qed.

Lemma lineage_length l root head : lineage_of l root head → (length l ≤ 4)%nat.
Proof.
  intros Hl. pose proof (increasing_length ((λ r, state_rank (ca_state r)) <$> l) 0 3) as H.
  rewrite length_fmap in H. assert (Z.of_nat (length l) <= Z.max 0 (3 - 0 + 1)); [|lia]. apply H.
  - apply lineage_sorted in Hl. clear H. induction Hl as [|a l _ IH Ha]; [constructor|].
    rewrite fmap_cons. constructor; [done|]. apply Forall_fmap. eapply Forall_impl; [exact Ha|].
    by intros b (_ & _ & ? & _).
  - apply Forall_forall. intros x (r & -> & _)%list_elem_of_fmap. by destruct (ca_state r).
Qed.

Lemma last_List {A} (l : list A) d x : last l = Some x → List.last l d = x.
Proof. intros [k ->]%last_Some. by rewrite List.last_last. Qed.
Lemma last_List_cons {A} (x : A) l d : last (x :: l) = Some (List.last (x :: l) d).
Proof.
  destruct (last (x :: l)) as [y|] eqn:E; [by rewrite (last_List _ d _ E)|]. by apply last_None in E.
Qed.

Lemma validate_lineage_Ok l h :
  validate_lineage action_digest l = Ok h ↔ ∃ root, lineage_of l root h.
Proof.
  split.
  - destruct l as [|root l]; [done|]. cbn [validate_lineage].
    intros ([] & _ & H)%obind_Ok. apply obind_Ok in H as ([] & H2%guard_Ok & H).
    apply obind_Ok in H as ([] & H3%guard_Ok & H). apply obind_Ok in H as ([] & H4 & [= <-]).
    exists root. split; [done|apply last_List_cons|by apply bool_decide_eq_true in H3| |done].
    intros r Hr. rewrite forallb_forall in H2. by apply H2, list_elem_of_In.
  - intros [root Hl]. pose proof (lineage_length _ _ _ Hl) as Hlen. destruct Hl as [Hr Hh Hd Hi Hp].
    destruct l as [|root' l]; [done|]. injection Hr as ->. cbn [validate_lineage].
    replace (length (root :: l) <=? MAX_LINEAGE_RECORDS)%nat with true
      by (symmetry; apply Nat.leb_le; unfold MAX_LINEAGE_RECORDS; lia).
    replace (forallb intact (root :: l)) with true
      by (symmetry; apply forallb_forall; intros r ?%list_elem_of_In; by apply Hi).
    rewrite bool_decide_true by done. cbn [guard_that mbind outcome_bind]. rewrite Hp.
    cbn [mbind outcome_bind]. f_equal. by apply last_List.
Qed.

Lemma lineage_start r : intact r = true → ca_state r = Cas.DETECTED → lineage_of [r] r r.
Proof. intros Hi Hd. split; try done. by intros ? ->%list_elem_of_singleton. Qed.
Lemma lineage_snoc l root head r :
  lineage_of l root head → transition head r = Ok () → lineage_of (l ++ [r]) root r.
Proof.
  intros [Hr Hh Hd Hi Hp] Ht. apply last_Some in Hh as [k ->].
  split; [by destruct k|by apply last_snoc|done| |].
  - intros x [?|Hx]%elem_of_app; [by apply Hi|]. apply list_elem_of_singleton in Hx as ->.
    by apply transition_Ok in Ht as (_ & ? & _).
  - rewrite <-app_assoc. by apply pairs_snoc.
Qed.
Lemma lineage_root_in l root head : lineage_of l root head → root ∈ l.
Proof. intros [Hr _ _ _ _]. destruct l as [|x l]; [done|]. injection Hr as ->. by left. Qed.
Lemma lineage_head_in l root head : lineage_of l root head → head ∈ l.
Proof. intros [_ Hh _ _ _]. apply last_Some in Hh as [k ->]. apply elem_of_app. right. by left. Qed.

Lemma lineage_take l root head n :
  lineage_of l root head → (0 < n)%nat → ∃ h, lineage_of (take n l) root h.
Proof.
  intros [Hr Hh Hd Hi Hp] Hn. destruct l as [|x l]; [done|]. injection Hr as ->.
  destruct n as [|n]; [lia|]. exists (List.last (take (S n) (root :: l)) root).
  split; [done|apply last_List_cons|done| |].
  - intros r Hin. apply Hi. rewrite <-(take_drop (S n) (root :: l)). apply elem_of_app. by left.
  - clear Hi Hd Hh. revert root n Hp Hn. induction l as [|b l IH]; intros a n Hp _; [by destruct n|].
    apply pairs_cons in Hp as [Ht Hp]. destruct n as [|n]; [done|]. rewrite !firstn_cons.
    apply pairs_cons. split; [done|]. rewrite <-firstn_cons. apply IH; [done|lia].
Qed.

(** The rows known at a cutoff are the first ones. *)
Lemma visible_prefix l cutoff :
  StronglySorted precedes l →
  ∃ n, filter (λ r, action_known_at r cutoff = true) l = take n l ∧
    ∀ r, r ∈ drop n l → action_known_at r cutoff = false.
Proof using Type.
  induction 1 as [|a l _ IH Ha].
  { exists 0%nat. split; [done|]. by intros r ?%elem_of_nil. }
  destruct (action_known_at a cutoff) eqn:E.
  - destruct IH as (n & Hn & Hd). exists (S n). rewrite filter_cons_True by done. simpl. by rewrite Hn.
  - assert (Hall : ∀ r, r ∈ l → action_known_at r cutoff = false).
    { intros r Hr. destruct (proj1 (Forall_forall _ _) Ha r Hr) as (_ & _ & _ & ?).
      unfold action_known_at in *. lia. }
    exists 0%nat. rewrite filter_cons_False by congruence. split.
    + apply filter_none. intros r Hr. by rewrite (Hall r Hr).
    + intros r [->|Hr]%elem_of_cons; auto.
Qed.
Lemma lineage_visible l root head cutoff :
  lineage_of l root head → action_known_at root cutoff = true →
  ∃ h, lineage_of (filter (λ r, action_known_at r cutoff = true) l) root h.
Proof.
  intros Hl Hk. destruct (visible_prefix l cutoff (lineage_sorted _ _ _ Hl)) as (n & -> & Hd).
  destruct n as [|n]; [|by apply (lineage_take l root head); [|lia]].
  exfalso. specialize (Hd root). rewrite drop_0 in Hd. rewrite Hd in Hk; [done|].
  by eapply lineage_root_in.
Qed.

(** A row past the block comes after the block. *)
Lemma pairs_blocked l root head r :
  lineage_of l root head → r ∈ l →
  ca_state r = Cas.CONFIRMED ∨ ca_state r = Cas.EFFECTIVE_PENDING_RECONCILIATION →
  ∃ b, b ∈ l ∧ ca_state b = Cas.ENTRY_BLOCKED ∧ precedes b r.
Proof.
  intros Hl Hr Hs. destruct (list_elem_of_split _ _ Hr) as (k & k' & ->).
  (* the row before a row that is not the root *)
  assert (Hprev : ∀ k r k', lineage_of (k ++ r :: k') root head → ca_state r ≠ Cas.DETECTED →
    ∃ p kp, k = kp ++ [p] ∧ transition p r = Ok ()).
  { clear. intros k r k' [Hr _ Hd _ Hp] Hn. destruct k as [|p kp _] using rev_ind.
    - injection Hr as ->. done.
    - exists p, kp. split; [done|]. clear Hr Hd. induction kp as [|x kp IH].
      + by apply pairs_cons in Hp as [? _].
      + apply IH. cbn [app] in Hp |- *. destruct kp as [|y kp]; cbn [app] in Hp |- *; by apply pairs_cons in Hp as [_ ?]. }
  assert (Hconf : ∀ k r k', lineage_of (k ++ r :: k') root head → ca_state r = Cas.CONFIRMED →
    ∃ p kp, k = kp ++ [p] ∧ ca_state p = Cas.ENTRY_BLOCKED ∧ precedes p r).
  { intros k0 r0 k0' H0 E0. destruct (Hprev k0 r0 k0' H0) as (p & kp & -> & Ht); [by rewrite E0|].
    exists p, kp. split; [done|]. split; [|by apply transition_precedes].
    apply transition_Ok in Ht as (_ & _ & _ & _ & Hleg & _). rewrite E0 in Hleg. by destruct (ca_state p). }
  destruct Hs as [E|E].
  - destruct (Hconf _ _ _ Hl E) as (p & kp & -> & Ep & Hp). exists p.
    split; [|done]. apply elem_of_app. left. apply elem_of_app. right. by left.
  - destruct (Hprev _ _ _ Hl) as (c & kc & -> & Ht); [by rewrite E|].
    assert (Ec : ca_state c = Cas.CONFIRMED).
    { apply transition_Ok in Ht as (_ & _ & _ & _ & Hleg & _). rewrite E in Hleg. by destruct (ca_state c). }
    rewrite <-app_assoc in Hl. destruct (Hconf _ _ _ Hl Ec) as (p & kp & -> & Ep & Hp). exists p.
    split; [apply elem_of_app; left; apply elem_of_app; left; apply elem_of_app; right; by left|].
    split; [done|]. trans c; [done|]. by apply transition_precedes.
Qed.
End lineage.
