(* ===== verification/Quarantine.v ===== *)
(** * Split confirmation and entry quarantine: [securities/quarantine.py]

    The confirmation of one detected split against every read source, and the one
    evaluator that the candidate, risk and submit seams share. *)

From S2P Require Import Prelude Dicts Text Calendar Sources Identity Actions.
Local Open Scope Z_scope.

Definition MAX_OBSERVATIONS : nat := 64.
Definition MAX_EVENT_LINEAGES : nat := 16.
Definition MAX_DECISION_SOURCE_REFS : nat := 256.
Definition MAX_MASTER_VERSION_LENGTH : nat := 128.

Definition official_families : list P4SourceFamily := [SEC_EDGAR; ISSUER_IR; EXCHANGE_OFFICIAL].
Definition pre_confirmation (s : Cas.t) : bool := bool_decide (s ∈ [Cas.DETECTED; Cas.ENTRY_BLOCKED]).

Inductive QuarantineReason :=
  | UNKNOWN_SECURITY | AMBIGUOUS_IDENTITY | SYMBOL_AS_OF_MISMATCH | IDENTITY_INTERVAL_CONFLICT
  | SOURCE_NOT_YET_AVAILABLE | STALE_SECURITY_MASTER | SPLIT_DETECTED | FORMAL_CONFIRMATION_MISSING
  | SPLIT_RATIO_CONFLICT | SPLIT_DATE_CONFLICT | SPLIT_IDENTITY_CONFLICT
  | SOURCE_WITHDRAWN_OR_CORRECTED | UNSUPPORTED_CORPORATE_ACTION | EFFECTIVE_OR_LATE_EVENT_REVIEW
  | SPLIT_TYPE_CONFLICT.
#[global] Instance QuarantineReason_eq_dec : EqDecision QuarantineReason.
Proof. solve_decision. Defined.
(** The members in the order of their declaration. *)
Definition all_reasons : list QuarantineReason :=
  [UNKNOWN_SECURITY; AMBIGUOUS_IDENTITY; SYMBOL_AS_OF_MISMATCH; IDENTITY_INTERVAL_CONFLICT;
   SOURCE_NOT_YET_AVAILABLE; STALE_SECURITY_MASTER; SPLIT_DETECTED; FORMAL_CONFIRMATION_MISSING;
   SPLIT_RATIO_CONFLICT; SPLIT_DATE_CONFLICT; SPLIT_IDENTITY_CONFLICT;
   SOURCE_WITHDRAWN_OR_CORRECTED; UNSUPPORTED_CORPORATE_ACTION; EFFECTIVE_OR_LATE_EVENT_REVIEW;
   SPLIT_TYPE_CONFLICT].
(** [_sorted_reasons] of a set, here a list in any order. *)
Definition sorted_reasons (s : list QuarantineReason) : list QuarantineReason :=
  filter (λ r, r ∈ s) all_reasons.

Module ConfirmationOutcome.
Inductive t := ENTRY_BLOCKED | CONFIRMED | REVIEW_REQUIRED.
#[global] Instance eq_dec : EqDecision t.
Proof. solve_decision. Defined.
End ConfirmationOutcome.
Module Conf := ConfirmationOutcome.

Inductive QuarantineOutcome := ELIGIBLE | ENTRY_BLOCKED | REVIEW_REQUIRED.
#[global] Instance QuarantineOutcome_eq_dec : EqDecision QuarantineOutcome.
Proof. solve_decision. Defined.
(** [outcome.value] *)
Definition outcome_value (o : QuarantineOutcome) : string :=
  match o with
  | ELIGIBLE => "ELIGIBLE" | ENTRY_BLOCKED => "ENTRY_BLOCKED" | REVIEW_REQUIRED => "REVIEW_REQUIRED"
  end.

Inductive QuarantinePurpose := CANDIDATE_CREATION | RISK_APPROVAL | SUBMIT_RECHECK.
#[global] Instance QuarantinePurpose_eq_dec : EqDecision QuarantinePurpose.
Proof. solve_decision. Defined.

Definition PRODUCER_VERSION : string := "p4b.securities.v1".
Definition master_version_for (r : SecurityIdentityRecord) : string :=
  PRODUCER_VERSION +:+ String ":" (id_hash r).
Definition master_version_bounded (s : string) : bool :=
  negb (bool_decide (s = "")) && (String.length s <=? MAX_MASTER_VERSION_LENGTH)%nat.

Record QuarantineQuery := mk_QuarantineQuery {
  qq_purpose : QuarantinePurpose;
  qq_security_id : string;
  qq_symbol_as_of : string;
  qq_decision_at : Z;
  qq_master_version : string;
}.
Definition check_QuarantineQuery (q : QuarantineQuery) : outcome unit :=
  guard_that (master_version_bounded (qq_master_version q)) EValueError
    "master_version must be non-empty bounded text".

(** ** Observations *)

Record SourceObservation := mk_Observation {
  so_source_ref : SourceRef;
  so_available_at : Z;
  so_withdrawn : bool;
  so_auditable : bool;
  so_claimed_type : option CorporateActionType;
  so_claimed_ratio : option SplitRatio;
  so_claimed_ex_date : option Z;
  so_claimed_effective_date : option Z;
}.

Definition observed_keys (os : list SourceObservation) : list (string * string) :=
  (λ o, (ref_record_id (so_source_ref o), ref_record_hash (so_source_ref o))) <$> os.

(** [_validate_observations]: bounded, unique, and covering the refs of the root. *)
Definition validate_observations (os : list SourceObservation) (root_refs : list SourceRef)
    : outcome unit :=
  guard_that (negb (bool_decide (os = [])) && (length os <=? MAX_OBSERVATIONS)%nat) EValueError
    "observations must be a non-empty tuple of at most 64 values" ≫= λ _,
  guard_that (bool_decide (NoDup (ref_ids (so_source_ref <$> os)))) EValueError
    "observations must carry unique record identifiers" ≫= λ _,
  guard_that (forallb (λ r, bool_decide ((ref_record_id r, ref_record_hash r) ∈ observed_keys os)) root_refs)
    EValueError "observations must cover every event source ref".

(** ** Confirmation *)

(** Several claims, or one that is not the fact. *)
Definition claims_conflict {A} `{EqDecision A} (fact : A) (claims : list (option A)) : bool :=
  let claimed := remove_dups (omap id claims) in
  (1 <? length claimed)%nat || existsb (λ c, negb (bool_decide (c = fact))) claimed.

(** What [when cond: findings.add(reason)] adds. *)
Definition finding (b : bool) (r : QuarantineReason) : list QuarantineReason := if b then [r] else [].

(** [_fact_conflicts] *)
Definition fact_conflicts (event : CorporateActionRecord) (os : list SourceObservation)
    : list QuarantineReason :=
  finding (claims_conflict (ca_action_type event) (so_claimed_type <$> os)) SPLIT_TYPE_CONFLICT ++
  finding (claims_conflict (ca_ratio event) (so_claimed_ratio <$> os)) SPLIT_RATIO_CONFLICT ++
  finding (claims_conflict (ca_ex_date event) (so_claimed_ex_date <$> os)) SPLIT_DATE_CONFLICT ++
  finding (claims_conflict (ca_effective_date event) (so_claimed_effective_date <$> os)) SPLIT_DATE_CONFLICT.

(** [_qualifying_official] *)
Definition qualifying_official (decision_at : Z) (o : SourceObservation) : bool :=
  bool_decide (ref_family (so_source_ref o) ∈ official_families) && negb (so_withdrawn o) &&
  so_auditable o && (so_available_at o <=? decision_at) &&
  bool_decide (is_Some (so_claimed_type o)) && bool_decide (is_Some (so_claimed_ratio o)) &&
  bool_decide (is_Some (so_claimed_ex_date o)) && bool_decide (is_Some (so_claimed_effective_date o)).

Record ConfirmationEvaluation := mk_Evaluation {
  cv_outcome : Conf.t;
  cv_reasons : list QuarantineReason;
}.

Definition confirmation_findings (event : CorporateActionRecord) (identity : SecurityIdentityRecord)
    (os : list SourceObservation) (decision_at : Z) : list QuarantineReason :=
  finding (negb (bool_decide (id_security identity = ca_security_id event)) ||
           negb (bool_decide (id_hash identity = ca_security_identity_hash event))) SPLIT_IDENTITY_CONFLICT ++
  finding (ca_ex_date event <=? utc_date decision_at) EFFECTIVE_OR_LATE_EVENT_REVIEW ++
  finding (existsb (λ o, decision_at <? so_available_at o) os) SOURCE_NOT_YET_AVAILABLE ++
  finding (existsb so_withdrawn os) SOURCE_WITHDRAWN_OR_CORRECTED ++
  fact_conflicts event os.

Section digests.
Context (identity_digest : SecurityIdentityRecord → string).
Context (action_digest : CorporateActionRecord → string).

Definition evaluate_confirmation (event : CorporateActionRecord) (identity : SecurityIdentityRecord)
    (os : list SourceObservation) (decision_at : Z) : outcome ConfirmationEvaluation :=
  guard_that (pre_confirmation (ca_state event)) EValueError
    "confirmation evaluation requires a pre-confirmation event state" ≫= λ _,
  verify_action action_digest event ≫= λ _,
  verify_identity identity_digest identity ≫= λ _,
  validate_observations os (ca_source_refs event) ≫= λ _,
  let findings := confirmation_findings event identity os decision_at in
  if negb (bool_decide (findings = [])) then
    Ok (mk_Evaluation Conf.REVIEW_REQUIRED (sorted_reasons (SPLIT_DETECTED :: findings)))
  else if negb (existsb (qualifying_official decision_at) os) || negb (forallb so_auditable os) then
    Ok (mk_Evaluation Conf.ENTRY_BLOCKED [SPLIT_DETECTED; FORMAL_CONFIRMATION_MISSING])
  else Ok (mk_Evaluation Conf.CONFIRMED []).

(** ** Evidence *)

Record EventEvidence := mk_Evidence {
  ee_lineage : list CorporateActionRecord;
  ee_observations : list SourceObservation;
}.
Definition root_refs (l : list CorporateActionRecord) : list SourceRef :=
  match l with [] => [] | root :: _ => ca_source_refs root end.
Definition make_EventEvidence (lineage : list CorporateActionRecord) (os : list SourceObservation)
    : outcome EventEvidence :=
  validate_lineage action_digest lineage ≫= λ _,
  validate_observations os (root_refs lineage) ≫= λ _,
  Ok (mk_Evidence lineage os).

(** ** Source lineage *)

(** The order of the key [(record_id, family.value, record_hash)]. *)
Definition ref_id_leb (a b : SourceRef) : bool :=
  str_ltb (ref_record_id a) (ref_record_id b) ||
  bool_decide (ref_record_id a = ref_record_id b) &&
  (str_ltb (family_value (ref_family a)) (family_value (ref_family b)) ||
   bool_decide (ref_family a = ref_family b) && String.leb (ref_record_hash a) (ref_record_hash b)).

(** The dict by record identifier; [conflict] is raised when an identifier comes back
    with another hash or family. *)
Fixpoint merge_into (conflict : exn) (seen l : list SourceRef) : outcome (list SourceRef) :=
  match l with
  | [] => Ok seen
  | r :: l =>
      match find (λ s, bool_decide (ref_record_id s = ref_record_id r)) seen with
      | Some s => if bool_decide (s = r) then merge_into conflict seen l else Raise conflict
      | None => merge_into conflict (seen ++ [r]) l
      end
  end.
Definition merge_by_id (conflict : exn) (l : list SourceRef) : outcome (list SourceRef) :=
  seen ← merge_into conflict [] l; Ok (sort_by ref_id_leb seen).

(** [_collect_source_refs] *)
Definition collect_source_refs (resolved : option SecurityIdentityRecord) (event_refs : list SourceRef)
    : outcome (list SourceRef) :=
  let ordered := match resolved with Some r => id_source_refs r | None => [] end ++ event_refs in
  deduped ← merge_by_id (mk_exn EValueError
    "source lineage has conflicting hashes for one record identifier") ordered;
  guard_that (length deduped <=? MAX_DECISION_SOURCE_REFS)%nat EValueError
    "decision source lineage exceeds 256 record refs" ≫= λ _,
  Ok deduped.

(** ** Decisions *)

Record QuarantineDecision := mk_Decision {
  qd_security_id : string;
  qd_symbol_as_of : string;
  qd_master_version : string;
  qd_decision_at : Z;
  qd_outcome : QuarantineOutcome;
  qd_reasons : list QuarantineReason;
  qd_event_ids : list string;
  qd_source_refs : list SourceRef;
  qd_hash : string;
}.
#[global] Instance QuarantineDecision_eq_dec : EqDecision QuarantineDecision.
Proof. solve_decision. Defined.
Definition with_decision_hash (h : string) (d : QuarantineDecision) : QuarantineDecision :=
  mk_Decision (qd_security_id d) (qd_symbol_as_of d) (qd_master_version d) (qd_decision_at d)
    (qd_outcome d) (qd_reasons d) (qd_event_ids d) (qd_source_refs d) h.

Context (decision_digest : QuarantineDecision → string).

Definition decision_compute_hash (d : QuarantineDecision) : string :=
  decision_digest (with_decision_hash "" d).
Definition decision_intact (d : QuarantineDecision) : bool :=
  bool_decide (qd_hash d = decision_compute_hash d).
Definition verify_decision (d : QuarantineDecision) : outcome unit :=
  guard_that (decision_intact d) EValueError "decision hash does not match frozen decision content".

(** [QuarantineDecision.__post_init__] *)
Definition check_QuarantineDecision (d : QuarantineDecision) : outcome unit :=
  guard_that (master_version_bounded (qd_master_version d)) EValueError
    "master_version must be non-empty bounded text" ≫= λ _,
  guard_that (bool_decide (NoDup (qd_reasons d))) EValueError "reasons must be unique" ≫= λ _,
  guard_that (bool_decide (qd_reasons d = sorted_reasons (qd_reasons d))) EValueError
    "reasons must use the canonical order" ≫= λ _,
  guard_that (forallb event_id_ok (qd_event_ids d)) EValueError
    "event_ids require canonical event identifiers" ≫= λ _,
  guard_that (bool_decide (NoDup (qd_event_ids d))) EValueError "event_ids must be unique" ≫= λ _,
  guard_that (bool_decide (qd_event_ids d = sort_by String.leb (qd_event_ids d))) EValueError
    "event_ids must use the canonical order" ≫= λ _,
  guard_that (length (qd_source_refs d) <=? MAX_DECISION_SOURCE_REFS)%nat EValueError
    "source_refs must be a tuple of at most 256 SourceRef values" ≫= λ _,
  guard_that (bool_decide (NoDup (ref_ids (qd_source_refs d)))) EValueError
    "source_refs must carry unique record identifiers" ≫= λ _,
  guard_that (bool_decide (qd_source_refs d = sort_by ref_id_leb (qd_source_refs d))) EValueError
    "source_refs must use the canonical order" ≫= λ _,
  guard_that (is_digest (qd_hash d)) EValueError "decision hash must be a SHA-256 digest" ≫= λ _,
  verify_decision d.
(** [_build_decision] *)
Definition build_decision (d : QuarantineDecision) : outcome QuarantineDecision :=
  let built := with_decision_hash (decision_compute_hash d) d in
  check_QuarantineDecision built ≫= λ _, Ok built.

(** ** The evaluator *)

Definition outcome_rank (o : QuarantineOutcome) : Z :=
  match o with ELIGIBLE => 0 | ENTRY_BLOCKED => 1 | REVIEW_REQUIRED => 2 end.
(** [_STATUS_TO_REASON] of the statuses other than RESOLVED. *)
Definition status_reason (s : Ids.t) : option QuarantineReason :=
  match s with
  | Ids.UNKNOWN => Some UNKNOWN_SECURITY
  | Ids.AMBIGUOUS => Some AMBIGUOUS_IDENTITY
  | Ids.CONFLICT => Some IDENTITY_INTERVAL_CONFLICT
  | Ids.STALE => Some SOURCE_NOT_YET_AVAILABLE
  | Ids.RESOLVED => None
  end.

(** [_symbol_claims_are_ambiguous] *)
Definition symbol_claims_are_ambiguous (records : list SecurityIdentityRecord) (q : QuarantineQuery) : bool :=
  let claimants := id_security <$> filter (λ r, id_symbol r = qq_symbol_as_of q ∧
    answers_as_of r (qq_decision_at q) (qq_decision_at q) = true) records in
  (1 <? length (remove_dups claimants))%nat.

(** [_event_quarantine] *)
Definition event_quarantine (head root : CorporateActionRecord) (resolved : option SecurityIdentityRecord)
    (evidence : EventEvidence) (decision_at : Z) : outcome (QuarantineOutcome * list QuarantineReason) :=
  match resolved with
  | None => Ok (REVIEW_REQUIRED, [SPLIT_DETECTED])
  | Some identity =>
      evaluation ← evaluate_confirmation root identity (ee_observations evidence) decision_at;
      Ok (match cv_outcome evaluation with
          | Conf.REVIEW_REQUIRED => (REVIEW_REQUIRED, cv_reasons evaluation)
          | Conf.ENTRY_BLOCKED =>
              if pre_confirmation (ca_state head) then (ENTRY_BLOCKED, cv_reasons evaluation)
              else (REVIEW_REQUIRED, cv_reasons evaluation)
          | Conf.CONFIRMED =>
              match ca_state head with
              | Cas.CONFIRMED => (ENTRY_BLOCKED, [SPLIT_DETECTED])
              | Cas.EFFECTIVE_PENDING_RECONCILIATION =>
                  (REVIEW_REQUIRED, [SPLIT_DETECTED; EFFECTIVE_OR_LATE_EVENT_REVIEW])
              | _ => (REVIEW_REQUIRED, [SPLIT_DETECTED])
              end
          end)
  end.

(** What the loop over the lineages has collected. *)
Record EventScan := mk_Scan {
  es_outcome : QuarantineOutcome;
  es_reasons : list QuarantineReason;
  es_ids : list string;
  es_refs : list SourceRef;
}.
Definition no_events : EventScan := mk_Scan ELIGIBLE [] [] [].

Section scan.
Context (q : QuarantineQuery) (resolved : option SecurityIdentityRecord).

Definition scan_event (acc : EventScan) (evidence : EventEvidence) : outcome EventScan :=
  match filter (λ row, action_known_at row (qq_decision_at q) = true) (ee_lineage evidence) with
  | [] => Ok acc
  | (root :: _) as visible =>
      let head := List.last visible root in
      if negb (bool_decide (ca_security_id head = qq_security_id q)) then Ok acc
      else
        '(o, reasons) ← event_quarantine head root resolved evidence (qq_decision_at q);
        Ok (mk_Scan (if outcome_rank (es_outcome acc) <? outcome_rank o then o else es_outcome acc)
              (es_reasons acc ++ reasons)
              (es_ids acc ++ [ca_event_id head])
              (es_refs acc ++ ca_source_refs head ++ (so_source_ref <$> ee_observations evidence)))
  end.
Fixpoint scan_events (acc : EventScan) (l : list EventEvidence) : outcome EventScan :=
  match l with
  | [] => Ok acc
  | evidence :: l => acc ← scan_event acc evidence; scan_events acc l
  end.
End scan.

(** What the identity of the query finds. *)
Definition identity_findings (records : list SecurityIdentityRecord) (q : QuarantineQuery)
    (resolution : IdentityResolution) : list QuarantineReason :=
  match ir_record resolution with
  | Some r =>
      finding (negb (bool_decide (id_symbol r = qq_symbol_as_of q))) SYMBOL_AS_OF_MISMATCH ++
      finding (negb (bool_decide (qq_master_version q = master_version_for r))) STALE_SECURITY_MASTER
  | None => match status_reason (ir_status resolution) with Some reason => [reason] | None => [] end
  end ++
  finding (symbol_claims_are_ambiguous records q) AMBIGUOUS_IDENTITY.

Definition lineage_event_id (evidence : EventEvidence) : string :=
  match ee_lineage evidence with [] => "" | root :: _ => ca_event_id root end.

Definition evaluate_quarantine (q : QuarantineQuery) (records : list SecurityIdentityRecord)
    (lineages : list EventEvidence) : outcome QuarantineDecision :=
  guard_that (length lineages <=? MAX_EVENT_LINEAGES)%nat EValueError
    "event_lineages must be a tuple of at most 16 EventEvidence values" ≫= λ _,
  guard_that (bool_decide (NoDup (lineage_event_id <$> lineages))) EValueError
    "event_lineages must carry unique event identifiers" ≫= λ _,
  iq ← make_IdentityQuery (qq_decision_at q) (qq_decision_at q) (Some (qq_security_id q))
         (Some (qq_symbol_as_of q));
  resolution ← resolve_identity identity_digest records iq;
  guard_that (negb (bool_decide (ir_status resolution = Ids.RESOLVED)) ||
              bool_decide (is_Some (ir_record resolution))) EValueError
    "resolver returned RESOLVED without an identity record" ≫= λ _,
  let resolved := ir_record resolution in
  let findings := identity_findings records q resolution in
  scan ← scan_events q resolved no_events lineages;
  refs ← collect_source_refs resolved (es_refs scan);
  build_decision
    (mk_Decision (qq_security_id q) (qq_symbol_as_of q)
       (match resolved with Some r => master_version_for r | None => qq_master_version q end)
       (qq_decision_at q)
       (if bool_decide (findings = []) then es_outcome scan else REVIEW_REQUIRED)
       (sorted_reasons (findings ++ es_reasons scan))
       (sort_by String.leb (remove_dups (es_ids scan)))
       refs "").
End digests.
