(* ===== verification/QuarantineFacts.v ===== *)
(** * Properties of confirmation and quarantine

    When an event is confirmed, that no visible event of a security is ever safe to
    enter, and exactly when the shared evaluator answers ELIGIBLE. *)

From S2P Require Import Prelude Dicts Text Orders Calendar Sources Identity IdentityFacts Actions ActionFacts Quarantine.
Local Open Scope Z_scope.

(** ** Reasons *)

Lemma all_reasons_complete r : r ∈ all_reasons.
Proof. destruct r; repeat (first [by left|right]). Qed.
Lemma elem_of_sorted_reasons s r : r ∈ sorted_reasons s ↔ r ∈ s.
Proof.
  unfold sorted_reasons. rewrite list_elem_of_filter. pose proof (all_reasons_complete r). tauto.
Qed.
Lemma sorted_reasons_nil s : sorted_reasons s = [] ↔ s = [].
Proof.
  split; [|by intros ->]. intros H. destruct s as [|r s]; [done|]. exfalso.
  apply (elem_of_nil (A:=QuarantineReason) r). rewrite <-H. apply elem_of_sorted_reasons. by left.
Qed.
Lemma finding_nil b r : finding b r = [] ↔ b = false.
Proof. by destruct b. Qed.

(** ** Confirmation *)

(** No source claims anything but the fact. *)
Definition agrees {A} (fact : A) (claim : option A) : Prop := claim = None ∨ claim = Some fact.
Lemma claims_agree {A} `{EqDecision A} (fact : A) claims :
  claims_conflict fact claims = false ↔ ∀ c, c ∈ claims → agrees fact c.
Proof.
  unfold claims_conflict, agrees. set (l := remove_dups (omap id claims)).
  assert (Hl : ∀ x, x ∈ l ↔ Some x ∈ claims).
  { intros x. unfold l. rewrite elem_of_remove_dups, list_elem_of_omap. simpl. split; [|by exists (Some x)].
    by intros ([y|] & Hy & [= <-]). }
  rewrite orb_false_iff. split.
  - intros [_ Hf] [x|] Hc; [right|by left]. f_equal. apply Hl in Hc.
    destruct (decide (x = fact)) as [|Hne]; [done|]. apply not_true_iff_false in Hf. destruct Hf.
    apply existsb_exists. exists x. split; [by apply list_elem_of_In|]. by rewrite bool_decide_false.
  - intros Ha. assert (Hx : ∀ x, x ∈ l → x = fact).
    { intros x Hx%Hl. destruct (Ha _ Hx) as [|[= ->]]; done. }
    split.
    + apply Nat.ltb_ge. destruct l as [|x [|y l']] eqn:E; simpl; [lia..|].
      assert (Hn : NoDup (x :: y :: l')) by (rewrite <-E; apply NoDup_remove_dups).
      apply NoDup_cons in Hn as [Hn _]. destruct Hn. rewrite (Hx x), (Hx y); [by left|right; by left|by left].
    + apply not_true_iff_false. intros (x & Hin & E)%existsb_exists. apply list_elem_of_In in Hin.
      rewrite bool_decide_true in E by by apply Hx. done.
Qed.

Section confirmation.
Context (event : CorporateActionRecord) (identity : SecurityIdentityRecord).
Context (os : list SourceObservation) (t : Z).

(** Nothing known at the decision contradicts the event. *)
Record uncontradicted : Prop := {
  uc_pinned : id_security identity = ca_security_id event ∧ id_hash identity = ca_security_identity_hash event;
  uc_early : utc_date t < ca_ex_date event;
  uc_source o : o ∈ os → so_available_at o <= t ∧ so_withdrawn o = false;
  uc_claims o : o ∈ os → agrees (ca_action_type event) (so_claimed_type o) ∧
    agrees (ca_ratio event) (so_claimed_ratio o) ∧ agrees (ca_ex_date event) (so_claimed_ex_date o) ∧
    agrees (ca_effective_date event) (so_claimed_effective_date o);
}.

Lemma existsb_false {A} (p : A → bool) l : existsb p l = false ↔ ∀ x, x ∈ l → p x = false.
Proof using Type.
  rewrite <-not_true_iff_false, existsb_exists. split.
  - intros H x Hx. apply not_true_iff_false. intros Hp. apply H. exists x. by rewrite <-list_elem_of_In.
  - intros H (x & Hx%list_elem_of_In & Hp). rewrite H in Hp; done.
Qed.
Lemma claims_agree_map {A} `{EqDecision A} (fact : A) (f : SourceObservation → option A) :
  claims_conflict fact (f <$> os) = false ↔ ∀ o, o ∈ os → agrees fact (f o).
Proof using Type.
  rewrite claims_agree. split.
  - intros H o Ho. by apply H, list_elem_of_fmap_2.
  - intros H c (o & -> & Ho)%list_elem_of_fmap. by apply H.
Qed.

Lemma no_findings : confirmation_findings event identity os t = [] ↔ uncontradicted.
Proof using Type.
  unfold confirmation_findings, fact_conflicts.
  rewrite !app_nil, !finding_nil, !existsb_false, !claims_agree_map, orb_false_iff, !negb_false_iff,
    !bool_decide_eq_true, Z.leb_gt.
  split.
  - intros (? & ? & Ha & Hw & Ht & Hr & He & Hf). split; [done..| |].
    + intros o Ho. specialize (Ha o Ho). specialize (Hw o Ho). split; [lia|done].
    + intros o Ho. auto.
  - intros [[? ?] ? Hs Hc]. split_and!; try done; intros o Ho; destruct (Hs o Ho); try done; [lia|..];
      destruct (Hc o Ho) as (? & ? & ? & ?); done.
Qed.
End confirmation.

Section digests.
Context (identity_digest : SecurityIdentityRecord → string).
Context (action_digest : CorporateActionRecord → string).
Context (decision_digest : QuarantineDecision → string).
Notation confirm := (evaluate_confirmation identity_digest action_digest).

(** The three outcomes of a confirmation, and when each is reached. *)
Lemma confirm_spec event identity os t v :
  confirm event identity os t = Ok v →
  match cv_outcome v with
  | Conf.REVIEW_REQUIRED => ¬ uncontradicted event identity os t
  | Conf.ENTRY_BLOCKED => uncontradicted event identity os t ∧
      (¬ ∃ o, o ∈ os ∧ qualifying_official t o = true) ∨ uncontradicted event identity os t ∧
      ∃ o, o ∈ os ∧ so_auditable o = false
  | Conf.CONFIRMED => uncontradicted event identity os t ∧
      (∃ o, o ∈ os ∧ qualifying_official t o = true) ∧ ∀ o, o ∈ os → so_auditable o = true
  end ∧ (cv_reasons v = [] ↔ cv_outcome v = Conf.CONFIRMED).
Proof using Type.
  unfold evaluate_confirmation. intros ([] & _ & H)%obind_Ok. apply obind_Ok in H as ([] & _ & H).
  apply obind_Ok in H as ([] & _ & H). apply obind_Ok in H as ([] & _ & H).
  destruct (bool_decide (confirmation_findings event identity os t = [])) eqn:E; simpl in H.
  2: { injection H as <-. simpl. apply bool_decide_eq_false in E. rewrite no_findings in E.
       split; [done|]. rewrite sorted_reasons_nil. done. }
  apply bool_decide_eq_true, no_findings in E.
  destruct (existsb (qualifying_official t) os) eqn:Eo; simpl in H.
  2: { injection H as <-. simpl. split; [left; split; [done|]|done]. intros (o & Ho & Hq).
       rewrite (proj1 (existsb_false _ _) Eo o Ho) in Hq. done. }
  apply existsb_exists in Eo as (o & Ho%list_elem_of_In & Hq).
  destruct (forallb so_auditable os) eqn:Ea; simpl in H; injection H as <-; simpl.
  - split; [|done]. split; [done|]. split; [by exists o|]. intros x Hx.
    rewrite forallb_forall in Ea. by apply Ea, list_elem_of_In.
  - split; [right; split; [done|]|done]. apply not_true_iff_false in Ea.
    destruct (decide (Exists (λ o, so_auditable o = false) os)) as [(x & ? & ?)%Exists_exists|Hn]; [by exists x|].
    destruct Ea. apply forallb_forall. intros x Hx%list_elem_of_In. apply not_false_iff_true. intros Hf.
    apply Hn, Exists_exists. by exists x.
Qed.

(** ** Events *)

Definition entry_stopped (o : QuarantineOutcome) : Prop := o ≠ ELIGIBLE.

(** An event that is looked at stops entries, with a reason. *)
Lemma event_stops head root resolved ev t o reasons :
  event_quarantine identity_digest action_digest head root resolved ev t = Ok (o, reasons) →
  entry_stopped o ∧ reasons ≠ [].
Proof using Type.
  destruct resolved as [i|]; simpl; [|by intros [= <- <-]].
  intros (v & Hv & H)%obind_Ok. pose proof (proj2 (confirm_spec _ _ _ _ _ Hv)) as Hr.
  destruct (cv_outcome v); simpl in H.
  - assert (cv_reasons v ≠ []) by (by intros ?%Hr). destruct (pre_confirmation _); by injection H as <- <-.
  - destruct (ca_state head); by injection H as <- <-.
  - assert (cv_reasons v ≠ []) by (by intros ?%Hr). by injection H as <- <-.
Qed.

Section scan.
Context (q : QuarantineQuery) (resolved : option SecurityIdentityRecord).
Notation scan1 := (scan_event identity_digest action_digest q resolved).
Notation scans := (scan_events identity_digest action_digest q resolved).
Notation seen_row := (λ row, action_known_at row (qq_decision_at q) = true).

(** The event has a visible row, and its visible head is of the security. *)
Definition concerns (ev : EventEvidence) : Prop :=
  ∃ head, last (filter seen_row (ee_lineage ev)) = Some head ∧ ca_security_id head = qq_security_id q.
#[local] Instance concerns_dec ev : Decision (concerns ev).
Proof using Type.
  destruct (last (filter seen_row (ee_lineage ev))) as [head|] eqn:E.
  - destruct (decide (ca_security_id head = qq_security_id q)); [left; by exists head|right].
    intros (h & Hh & ?). congruence.
  - right. intros (h & Hh & _). congruence.
Defined.

Definition scan_stopped (s : EventScan) : Prop := es_outcome s ≠ ELIGIBLE.
(** A scan has stopped entries exactly when it has reasons. *)
Definition scan_ok (s : EventScan) : Prop := scan_stopped s ↔ es_reasons s ≠ [].

Lemma scan_event_spec acc ev acc' :
  scan1 acc ev = Ok acc' → scan_ok acc →
  scan_ok acc' ∧ (scan_stopped acc' ↔ scan_stopped acc ∨ concerns ev).
Proof using Type.
  unfold scan_event, concerns. destruct (filter seen_row (ee_lineage ev)) as [|root l] eqn:E.
  { intros [= <-] Hok. split; [done|]. split; [by left|]. intros [?|(h & ? & _)]; done. }
  rewrite (last_List_cons root l root).
  set (head := List.last (root :: l) root).
  destruct (bool_decide (ca_security_id head = qq_security_id q)) eqn:Es; cbn [negb].
  2: { apply bool_decide_eq_false in Es. intros [= <-] Hok. split; [done|]. split; [by left|].
       intros [?|(h & [= <-] & ?)]; done. }
  apply bool_decide_eq_true in Es. intros ([o reasons] & Ho & [= <-])%obind_Ok Hok.
  apply event_stops in Ho as [Hstop Hne]. unfold scan_ok, scan_stopped in *. simpl.
  assert (Hout : (if outcome_rank (es_outcome acc) <? outcome_rank o then o else es_outcome acc) ≠ ELIGIBLE).
  { destruct (es_outcome acc), o; done. }
  split; (split; intros _).
  - intros [_ ?]%app_nil. done.
  - done.
  - right. by exists head.
  - done.
Qed.
Lemma scan_events_spec acc l acc' :
  scans acc l = Ok acc' → scan_ok acc →
  scan_ok acc' ∧ (scan_stopped acc' ↔ scan_stopped acc ∨ ∃ ev, ev ∈ l ∧ concerns ev).
Proof using Type.
  revert acc. induction l as [|ev l IH]; intros acc H Hok.
  { injection H as <-. split; [done|]. split; [by left|]. intros [?|(ev & ?%elem_of_nil & _)]; done. }
  apply obind_Ok in H as (acc1 & H1 & H). destruct (scan_event_spec _ _ _ H1 Hok) as [Hok1 Hs1].
  destruct (IH _ H Hok1) as [Hok' Hs']. split; [done|]. rewrite Hs', Hs1. split.
  - intros [[?|?]|(e & ? & ?)]; [by left|right; exists ev; split; [by left|done]|right; exists e; split; [by right|done]].
  - intros [?|(e & [->|?]%elem_of_cons & ?)]; [by left; left|by left; right|right; by exists e].
Qed.
Lemma scan_none : scan_ok no_events.
Proof using Type. split; done. Qed.
End scan.
End digests.

(** ** The evaluator *)

Lemma remove_dups_one {A} `{EqDecision A} (l : list A) :
  (1 <? length (remove_dups l))%nat = false ↔ ∀ x y, x ∈ l → y ∈ l → x = y.
Proof.
  rewrite Nat.ltb_ge. split.
  - intros H x y Hx%elem_of_remove_dups Hy%elem_of_remove_dups.
    destruct (remove_dups l) as [|z [|? ?]]; simpl in H; [by apply elem_of_nil in Hx| |lia].
    apply list_elem_of_singleton in Hx, Hy. congruence.
  - intros H. destruct (remove_dups l) as [|x [|y k]] eqn:E; simpl; [lia..|]. exfalso.
    pose proof (NoDup_remove_dups l) as Hn. rewrite E in Hn. apply NoDup_cons in Hn as [Hn _]. apply Hn.
    rewrite (H x y); [by left| |]; apply elem_of_remove_dups; rewrite E; [by left|right; by left].
Qed.

Section evaluator.
Context (identity_digest : SecurityIdentityRecord → string).
Context (action_digest : CorporateActionRecord → string).
Context (decision_digest : QuarantineDecision → string).
Context (q : QuarantineQuery) (records : list SecurityIdentityRecord) (lineages : list EventEvidence).
Notation t := (qq_decision_at q).

Definition identity_query : IdentityQuery :=
  mk_IdentityQuery t t (Some (qq_security_id q)) (Some (qq_symbol_as_of q)).
(** A record that gives the symbol to its security at the decision. *)
Definition claims_symbol (r : SecurityIdentityRecord) : Prop :=
  r ∈ records ∧ id_symbol r = qq_symbol_as_of q ∧ answers_as_of r t t = true.

(** What the query has to satisfy for an entry. *)
Record safe_to_enter : Prop := {
  se_resolved : ∃ r, resolve_identity identity_digest records identity_query =
      Ok (mk_Resolution Ids.RESOLVED (Some r)) ∧
    id_symbol r = qq_symbol_as_of q ∧ qq_master_version q = master_version_for r;
  se_symbol a b : claims_symbol a → claims_symbol b → id_security a = id_security b;
  se_events ev row : ev ∈ lineages → row ∈ ee_lineage ev → ca_security_id row = qq_security_id q →
    action_known_at row t = false;
}.

Lemma concerns_row ev :
  make_EventEvidence action_digest (ee_lineage ev) (ee_observations ev) = Ok ev →
  concerns q ev ↔ ∃ row, row ∈ ee_lineage ev ∧ ca_security_id row = qq_security_id q ∧ action_known_at row t = true.
Proof using Type.
  unfold make_EventEvidence. intros (h & Hl & _)%obind_Ok. apply validate_lineage_Ok in Hl as (root & Hl).
  assert (Hsame : ∀ r, r ∈ ee_lineage ev → ca_security_id r = ca_security_id root).
  { intros r Hr. destruct (lineage_first _ _ _ _ _ Hl Hr) as [->|(_ & Hf & _)]; [done|].
    unfold event_facts in Hf. by injection Hf. }
  split.
  - intros (head & Hh & Hs). exists head. apply last_Some in Hh as [k Hk].
    assert (Hin : head ∈ k ++ [head]) by (apply elem_of_app; right; by left).
    rewrite <-Hk in Hin. by apply list_elem_of_filter in Hin as [? ?].
  - intros (row & Hr & Hs & Hk). unfold concerns.
    destruct (last (filter _ _)) as [head|] eqn:E.
    + exists head. split; [done|]. apply last_Some in E as [k Ek].
      assert (Hin : head ∈ k ++ [head]) by (apply elem_of_app; right; by left).
      rewrite <-Ek in Hin. apply list_elem_of_filter in Hin as [_ Hin].
      by rewrite (Hsame head Hin), <-(Hsame row Hr).
    + apply last_None in E. exfalso. apply (elem_of_nil (A:=CorporateActionRecord) row). rewrite <-E.
      by apply list_elem_of_filter.
Qed.

Lemma ambiguous_spec :
  symbol_claims_are_ambiguous records q = false ↔
  ∀ a b, claims_symbol a → claims_symbol b → id_security a = id_security b.
Proof using Type.
  unfold symbol_claims_are_ambiguous, claims_symbol. rewrite remove_dups_one. split.
  - intros H a b (Ha & ? & ?) (Hb & ? & ?). apply H; apply list_elem_of_fmap_2, list_elem_of_filter; done.
  - intros H x y (a & -> & [[? ?] ?]%list_elem_of_filter)%list_elem_of_fmap
      (b & -> & [[? ?] ?]%list_elem_of_filter)%list_elem_of_fmap. by apply H.
Qed.

Lemma identity_findings_spec res :
  resolve_identity identity_digest records identity_query = Ok res →
  (ir_status res = Ids.RESOLVED ↔ is_Some (ir_record res)) →
  identity_findings records q res = [] ↔
  (∃ r, res = mk_Resolution Ids.RESOLVED (Some r) ∧ id_symbol r = qq_symbol_as_of q ∧
     qq_master_version q = master_version_for r) ∧
  ∀ a b, claims_symbol a → claims_symbol b → id_security a = id_security b.
Proof using Type.
  intros Hres Hrec. unfold identity_findings. rewrite app_nil, finding_nil, ambiguous_spec.
  destruct res as [s [r|]]; simpl in *.
  - rewrite app_nil, !finding_nil, !negb_false_iff, !bool_decide_eq_true. split.
    + intros [[? ?] ?]. split; [|done]. exists r. split; [|done]. f_equal. by apply Hrec.
    + by intros [(r' & [= _ <-] & ? & ?) ?].
  - split; [|by intros [(r & [= ] & _) _]]. intros [Hs _]. destruct s; simpl in Hs; try done.
    by destruct (proj1 Hrec eq_refl).
Qed.

Lemma resolve_record res iq :
  resolve_identity identity_digest records iq = Ok res → (ir_status res = Ids.RESOLVED ↔ is_Some (ir_record res)).
Proof using Type.
  unfold resolve_identity. intros ([] & _ & H)%obind_Ok. apply obind_Ok in H as ([] & _ & [= <-]).
  unfold resolve_scoped. repeat split_match; simpl; try (split; [done|by intros []]).
  unfold decide_valid. repeat split_match; simpl; (split; [done|by intros []]) || done.
Qed.

Lemma evaluate_spec d :
  (∀ ev, ev ∈ lineages → make_EventEvidence action_digest (ee_lineage ev) (ee_observations ev) = Ok ev) →
  evaluate_quarantine identity_digest action_digest decision_digest q records lineages = Ok d →
  (qd_outcome d = ELIGIBLE ↔ safe_to_enter) ∧ (qd_outcome d = ELIGIBLE ↔ qd_reasons d = []) ∧
  qd_security_id d = qq_security_id q ∧ qd_decision_at d = t.
Proof using Type.
  intros Hev H. unfold evaluate_quarantine in H.
  apply obind_Ok in H as ([] & _ & H). apply obind_Ok in H as ([] & _ & H).
  apply obind_Ok in H as (iq & Hiq & H). injection Hiq as <-.
  apply obind_Ok in H as (res & Hres & H). apply obind_Ok in H as ([] & _ & H).
  apply obind_Ok in H as (s & Hs & H). apply obind_Ok in H as (refs & _ & H).
  unfold build_decision in H. apply obind_Ok in H as ([] & _ & [= <-]).
  unfold with_decision_hash. cbn [qd_outcome qd_reasons qd_security_id qd_decision_at].
  destruct (scan_events_spec _ _ _ _ _ _ _ Hs scan_none) as [Hok Hstop].
  pose proof (identity_findings_spec res Hres (resolve_record _ _ Hres)) as Hf.
  set (fs := identity_findings records q res) in *.
  assert (Hsafe : safe_to_enter ↔ fs = [] ∧ ¬ scan_stopped s).
  { rewrite Hf, Hstop. split.
    - intros [(r & Hr & ? & ?) Hc He]. fold identity_query in Hres. rewrite Hres in Hr. injection Hr as ->.
      split; [split; [by exists r|done]|]. intros [[]|(ev & Hin & Hcon)]; [done|].
      apply concerns_row in Hcon as (row & Hrow & Hsec & Hk); [|by apply Hev].
      rewrite (He ev row Hin Hrow Hsec) in Hk. done.
    - intros [[(r & -> & ? & ?) Hc] Hn]. split; [by exists r|done|].
      intros ev row Hin Hrow Hsec. apply not_true_iff_false. intros Hk. apply Hn. right. exists ev.
      split; [done|]. apply concerns_row; [by apply Hev|]. by exists row. }
  assert (Hout : (if bool_decide (fs = []) then es_outcome s else REVIEW_REQUIRED) = ELIGIBLE ↔
                 fs = [] ∧ ¬ scan_stopped s).
  { unfold scan_stopped. case_bool_decide as E.
    - destruct (decide (es_outcome s = ELIGIBLE)); tauto.
    - split; [done|]. by intros [? _]. }
  split; [by rewrite Hsafe|]. split; [|done].
  rewrite Hout, sorted_reasons_nil, app_nil. unfold scan_ok in Hok. rewrite Hok.
  destruct (decide (es_reasons s = [])); tauto.
Qed.
End evaluator.

(** C11. The entry quarantine fails closed.  Whenever the evaluator answers, it answers
    ELIGIBLE exactly when the security resolves to one identity at the decision, with
    the symbol and the master version of the query, no other security claims that
    symbol, and no row of a split of the security is visible - whatever evidence,
    confirmation or review the split has; the reasons are empty in that case and only
    then, and the purpose of the caller changes nothing. *)
Theorem quarantine_fails_closed identity_digest action_digest decision_digest q records lineages d :
  (∀ ev, ev ∈ lineages → make_EventEvidence action_digest (ee_lineage ev) (ee_observations ev) = Ok ev) →
  evaluate_quarantine identity_digest action_digest decision_digest q records lineages = Ok d →
  (qd_outcome d = ELIGIBLE ↔ safe_to_enter identity_digest q records lineages) ∧
  (qd_outcome d = ELIGIBLE ↔ qd_reasons d = []) ∧
  qd_security_id d = qq_security_id q ∧ qd_decision_at d = qq_decision_at q ∧
  (∀ p, evaluate_quarantine identity_digest action_digest decision_digest
          (mk_QuarantineQuery p (qq_security_id q) (qq_symbol_as_of q) (qq_decision_at q) (qq_master_version q))
          records lineages = Ok d).
Proof.
  intros Hev H. destruct (evaluate_spec _ _ _ _ _ _ _ Hev H) as (He & Hr & Hs & Ht).
  split; [exact He|]. split; [exact Hr|]. split; [exact Hs|]. split; [exact Ht|].
  intros p. exact H.
Qed.

(** ** A listing with a split still to come *)

Definition demo_action_digest (r : CorporateActionRecord) : string :=
  demo_hex64 (ca_available_at r * 10 + state_rank (ca_state r)).
Definition demo_decision_digest (d : QuarantineDecision) : string := demo_hex64 (qd_decision_at d).

Definition demo_notice : SourceRef := mk_SourceRef "notice-1" SEC_EDGAR (demo_hex64 8).
Definition demo_split (state : Cas.t) (available : Z) : CorporateActionRecord :=
  let r := mk_Action "split-1" "abcdef01-demo" (demo_hex64 20) FORWARD_SPLIT (mk_Ratio 2 1) 0 5 5
    available state [demo_notice] "1.0.0" "" in
  with_action_hash (action_compute_hash demo_action_digest r) r.
Definition demo_observation (auditable : bool) : SourceObservation :=
  mk_Observation demo_notice 0 false auditable (Some FORWARD_SPLIT) (Some (mk_Ratio 2 1)) (Some 5) (Some 5).
Definition demo_evidence : EventEvidence :=
  mk_Evidence [demo_split Cas.DETECTED 1000; demo_split Cas.ENTRY_BLOCKED 1000] [demo_observation false].
Definition demo_entry (at_ : Z) : QuarantineQuery :=
  mk_QuarantineQuery CANDIDATE_CREATION "abcdef01-demo" "NEW" at_
    (master_version_for (demo_listing "NEW" 50 None 20)).
Definition demo_decision : QuarantineDecision :=
  mk_Decision "abcdef01-demo" "NEW" (master_version_for (demo_listing "NEW" 50 None 20)) 60 ELIGIBLE [] []
    [mk_SourceRef "assets-1" ALPACA_ASSETS (demo_hex64 7)] (demo_hex64 60).

Lemma demo_evidence_valid ev :
  ev ∈ [demo_evidence] → make_EventEvidence demo_action_digest (ee_lineage ev) (ee_observations ev) = Ok ev.
Proof. intros ->%list_elem_of_singleton. by vm_compute. Qed.

Lemma quarantine_fails_closed_witness :
  safe_to_enter demo_identity_digest (demo_entry 60) demo_listings [demo_evidence].
Proof.
  destruct (quarantine_fails_closed demo_identity_digest demo_action_digest demo_decision_digest
    (demo_entry 60) demo_listings [demo_evidence] demo_decision demo_evidence_valid ltac:(by vm_compute))
    as (H & _).
  by apply H.
Defined.
(** Once the split is visible the same query is stopped. *)
Example demo_entry_later :
  match evaluate_quarantine demo_identity_digest demo_action_digest demo_decision_digest
          (demo_entry 1000) demo_listings [demo_evidence] with
  | Ok d => qd_outcome d = ENTRY_BLOCKED ∧ qd_reasons d = [SPLIT_DETECTED; FORMAL_CONFIRMATION_MISSING] ∧
      qd_event_ids d = ["split-1"]
  | Raise _ => False
  end.
Proof. by vm_compute. Qed.
