(* ===== verification/SourceLog.v ===== *)
(** * The source record log and its reader: [sources/adapters/in_memory_p4_records.py],
    [securities/service.py] ([SourceRecordReader])

    An append-only log of normalized source records that keeps every version, and
    the hash-bound reads the security master makes of it.  Adapters build the
    records; of their construction only the rule on supersession is modelled. *)

From S2P Require Import Prelude Dicts Text Sources.
Local Open Scope Z_scope.

Inductive AppendOutcome := APPENDED | IDEMPOTENT_DUPLICATE.
#[global] Instance AppendOutcome_eq_dec : EqDecision AppendOutcome.
Proof. solve_decision. Defined.

(** The payload is its canonical JSON text. *)
Record NormalizedSourceRecord := mk_SourceRecord {
  nr_record_id : string;
  nr_family : P4SourceFamily;
  nr_endpoint_id : string;
  nr_schema_version : string;
  nr_content_hash : string;
  nr_record_hash : string;
  nr_retrieved_at : Z;
  nr_payload : string;
  nr_material_claim : bool;
  nr_observation_at : option Z;
  nr_published_at : option Z;
  nr_available_at : option Z;
  nr_effective_at : option Z;
  nr_vintage : option (string * string);
  nr_supersedes_content_hash : option string;
  nr_coverage_warning : option string;
}.
#[global] Instance NormalizedSourceRecord_eq_dec : EqDecision NormalizedSourceRecord.
Proof. solve_decision. Defined.

(** [record.available_at or record.retrieved_at] *)
Definition source_available_at (r : NormalizedSourceRecord) : Z :=
  default (nr_retrieved_at r) (nr_available_at r).

(** The rule on supersession of [__post_init__]. *)
Definition check_supersedes (r : NormalizedSourceRecord) : outcome unit :=
  match nr_supersedes_content_hash r with
  | None => Ok ()
  | Some h => guard_that (is_digest h && negb (bool_decide (h = nr_content_hash r))) EValueError
                "superseded content hash is invalid"
  end.

Definition with_record_hash (h : string) (r : NormalizedSourceRecord) : NormalizedSourceRecord :=
  mk_SourceRecord (nr_record_id r) (nr_family r) (nr_endpoint_id r) (nr_schema_version r)
    (nr_content_hash r) h (nr_retrieved_at r) (nr_payload r) (nr_material_claim r) (nr_observation_at r)
    (nr_published_at r) (nr_available_at r) (nr_effective_at r) (nr_vintage r)
    (nr_supersedes_content_hash r) (nr_coverage_warning r).

(** ** The log *)

(** [_records], [_versions] in insertion order, [_order]. *)
Record SourceLog := mk_Log {
  sl_records : gmap string NormalizedSourceRecord;
  sl_versions : list NormalizedSourceRecord;
  sl_order : list string;
}.
Definition empty_log : SourceLog := mk_Log ∅ [] [].

Definition log_get (l : SourceLog) (id : string) : option NormalizedSourceRecord := sl_records l !! id.
Definition log_get_version (l : SourceLog) (id h : string) : option NormalizedSourceRecord :=
  find (λ r, bool_decide (nr_record_id r = id) && bool_decide (nr_record_hash r = h)) (sl_versions l).
Definition log_versions (l : SourceLog) (id : string) : list NormalizedSourceRecord :=
  filter (λ r, nr_record_id r = id) (sl_versions l).
Definition log_records (l : SourceLog) : list NormalizedSourceRecord :=
  omap (log_get l) (sl_order l).
Definition log_count (l : SourceLog) : nat := size (sl_records l).

Section source_digest.
Context (source_digest : NormalizedSourceRecord → string).

Definition source_compute_hash (r : NormalizedSourceRecord) : string :=
  source_digest (with_record_hash "" r).
Definition source_intact (r : NormalizedSourceRecord) : bool :=
  bool_decide (nr_record_hash r = source_compute_hash r).

(** [append]: the outcome and the log, which a raise leaves as it was. *)
Definition log_append (r : NormalizedSourceRecord) (l : SourceLog) : outcome (AppendOutcome * SourceLog) :=
  guard_that (source_intact r) EValueError "record_hash does not match frozen record content" ≫= λ _,
  match log_get_version l (nr_record_id r) (nr_record_hash r) with
  | Some exact =>
      guard_that (bool_decide (exact = r)) ERecordLineage
        "source record hash collision carries different content" ≫= λ _,
      Ok (IDEMPOTENT_DUPLICATE, l)
  | None =>
      match log_get l (nr_record_id r) with
      | None =>
          Ok (APPENDED, mk_Log (<[nr_record_id r := r]> (sl_records l)) (sl_versions l ++ [r])
                          (sl_order l ++ [nr_record_id r]))
      | Some existing =>
          guard_that (negb (source_available_at r <? source_available_at existing)) ERecordLineage
            "source supersession availability cannot move backwards" ≫= λ _,
          guard_that (negb ((source_available_at r =? source_available_at existing) &&
                            negb (bool_decide (nr_content_hash r = nr_content_hash existing)))) ERecordLineage
            "source supersession at equal availability is unorderable" ≫= λ _,
          guard_that (bool_decide (nr_supersedes_content_hash r = Some (nr_content_hash existing)))
            ERecordLineage
            "same provider identity with different content requires explicit supersession" ≫= λ _,
          Ok (APPENDED, mk_Log (<[nr_record_id r := r]> (sl_records l)) (sl_versions l ++ [r]) (sl_order l))
      end
  end.

(** ** The reader *)
Section reader.
Context (l : SourceLog).

Definition read_source (ref : SourceRef) : outcome NormalizedSourceRecord :=
  match log_get_version l (ref_record_id ref) (ref_record_hash ref) with
  | None => raise ESourceLineage "source record at the requested hash is unknown"
  | Some r =>
      guard_that (source_intact r) ESourceLineage
        "source record failed integrity re-verification" ≫= λ _,
      guard_that (bool_decide (nr_record_id r = ref_record_id ref) &&
                  bool_decide (nr_family r = ref_family ref)) ESourceLineage
        "source reference does not match the stored record identity" ≫= λ _,
      guard_that (bool_decide (nr_record_hash r = ref_record_hash ref)) ESourceLineage
        "source reference hash does not match the stored record" ≫= λ _,
      Ok r
  end.
(** [SourceRecordReader.available_at] *)
Definition ref_available_at (ref : SourceRef) : outcome Z :=
  r ← read_source ref; Ok (source_available_at r).

(** The version is the one the reference names. *)
Definition names_version (r : NormalizedSourceRecord) (hash : string) (family : P4SourceFamily) : bool :=
  bool_decide (nr_record_hash r = hash) && bool_decide (nr_family r = family).

Definition is_current (ref : SourceRef) : outcome bool :=
  match log_get l (ref_record_id ref) with
  | None => raise ESourceLineage "source record disappeared from the append-only log"
  | Some current =>
      guard_that (source_intact current) ESourceLineage
        "current source record failed integrity re-verification" ≫= λ _,
      Ok (names_version current (ref_record_hash ref) (ref_family ref))
  end.

(** The latest version visible at a cutoff is the referenced one; versions that
    cannot be ordered are not current. *)
Definition is_current_at (ref : SourceRef) (known_at : Z) : outcome bool :=
  target ← read_source ref;
  let visible := filter (λ v, source_available_at v <= known_at) (log_versions l (ref_record_id ref)) in
  Ok (match visible with
      | [] => false
      | v :: vs =>
          let latest := foldl (λ m x, Z.max m (source_available_at x)) (source_available_at v) vs in
          match filter (λ x, source_available_at x = latest) visible with
          | [current] => names_version current (nr_record_hash target) (nr_family target)
          | _ => false
          end
      end).

Fixpoint validate_refs_go (seen : list string) (refs : list SourceRef) (available_by : option Z)
    : outcome (list NormalizedSourceRecord) :=
  match refs with
  | [] => Ok []
  | ref :: refs =>
      guard_that (bool_decide (ref_record_id ref ∉ seen)) ESourceLineage
        "source refs must carry unique record identifiers" ≫= λ _,
      record ← read_source ref;
      (match available_by with
       | None => Ok ()
       | Some cutoff =>
           available ← ref_available_at ref;
           guard_that (negb (cutoff <? available)) ESourceLineage
             "source record is not available by the authority cutoff"
       end) ≫= λ _,
      rest ← validate_refs_go (ref_record_id ref :: seen) refs available_by;
      Ok (record :: rest)
  end.
Definition validate_refs (refs : list SourceRef) (available_by : option Z)
    : outcome (list NormalizedSourceRecord) := validate_refs_go [] refs available_by.
End reader.
End source_digest.
