(* ===== verification/Master.v ===== *)
(** * The security-master repository: its port and its in-memory instance

    [application/ports/securities.py] as a class over an abstract state with its laws,
    then [securities/in_memory.py], whose laws [InMemoryFacts] proves.  What the service
    asks of a repository, and what it may rely on: rows are only ever appended, and a
    lineage that is read is the one that was appended. *)

From S2P Require Import Prelude Dicts Text Sources Identity Actions ActionFacts Quarantine SourceLog.

Local Open Scope Z_scope.

(** ** Operations *)

Class SecurityMasterRepository (S : Type) := {
  append_identity : SecurityIdentityRecord → M S AppendOutcome;
  identity_records : option string → option string → M S (list SecurityIdentityRecord);
  append_event : CorporateActionRecord → option string → M S AppendOutcome;
  event_lineage : string → M S (list CorporateActionRecord);
  security_event_ids : string → M S (list string);
  record_decision : QuarantineDecision → M S AppendOutcome;
  latest_decision : string → M S (option QuarantineDecision);
  (** The state after a [transaction] left by an exception, from the state at its
      start and the state it reached. *)
  repo_rollback : S → S → S;
}.

(** ** Laws *)

(** The rows of an event, appended to. *)
Definition lineages_grow (m m' : gmap string (list CorporateActionRecord)) : Prop :=
  ∀ e l, m !! e = Some l → ∃ k, m' !! e = Some (l ++ k).
#[global] Instance lineages_grow_preorder : PreOrder lineages_grow.
Proof.
  split.
  - intros m e l He. exists []. by rewrite app_nil_r.
  - intros m1 m2 m3 H1 H2 e l He. destruct (H1 e l He) as [k Hk]. destruct (H2 _ _ Hk) as [k' Hk'].
    exists (k ++ k'). by rewrite app_assoc.
Qed.

(** What appending a row to a map of lineages gives. *)
Definition lineage_rows (m : gmap string (list CorporateActionRecord)) (e : string) :
    list CorporateActionRecord := default [] (m !! e).
Definition appended (m m' : gmap string (list CorporateActionRecord)) (r : CorporateActionRecord)
    (o : AppendOutcome) : Prop :=
  match o with
  | IDEMPOTENT_DUPLICATE => m' = m ∧ r ∈ lineage_rows m (ca_event_id r)
  | APPENDED => m' = <[ca_event_id r := lineage_rows m (ca_event_id r) ++ [r]]> m
  end.

(** The invariant of a repository and the lineages it holds. *)
Class SecurityMasterModel (S : Type) := {
  repo_inv : S → Prop;
  lineages : S → gmap string (list CorporateActionRecord);
}.
Definition repo_grows {S} `{SecurityMasterModel S} (s s' : S) : Prop :=
  repo_inv s → repo_inv s' ∧ lineages_grow (lineages s) (lineages s').
#[global] Instance repo_grows_preorder {S} `{SecurityMasterModel S} : PreOrder repo_grows.
Proof.
  split; [by intros s Hs|]. intros s1 s2 s3 H1 H2 Hs. destruct (H1 Hs) as [Hs2 Hg].
  destruct (H2 Hs2) as [Hs3 Hg']. split; [done|]. by trans (lineages s2).
Qed.

Class SecurityMasterLaws (action_digest : CorporateActionRecord → string) (S : Type)
    `{SecurityMasterRepository S, SecurityMasterModel S} := {
  law_append_identity r : pres repo_grows (append_identity r);
  law_identity_records a b : pres repo_grows (identity_records a b);
  law_append_event r p : pres repo_grows (append_event r p);
  law_event_lineage e : pres repo_grows (event_lineage e);
  law_security_event_ids sid : pres repo_grows (security_event_ids sid);
  law_record_decision d : pres repo_grows (record_decision d);
  law_latest_decision sid : pres repo_grows (latest_decision sid);
  law_rollback s s' : repo_grows s s' → repo_grows s (repo_rollback s s');
  law_lineage_valid s e l : repo_inv s → lineages s !! e = Some l →
    ∃ root head, lineage_of action_digest l root head ∧ ca_event_id root = e;
  law_lineage_read s e : repo_inv s → event_id_ok e = true →
    event_lineage e s = (Ok (lineage_rows (lineages s) e), s);
  law_event_ids_read s sid : repo_inv s → ∃ ids, security_event_ids sid s = (Ok ids, s) ∧
    ∀ e, e ∈ ids ↔ ∃ l row, lineages s !! e = Some l ∧ row ∈ l ∧ ca_security_id row = sid;
  law_event_appended s r p o s' : repo_inv s → append_event r p s = (Ok o, s') →
    appended (lineages s) (lineages s') r o;
}.
#[export] Hint Resolve law_append_identity law_identity_records law_append_event law_event_lineage
  law_security_event_ids law_record_decision law_latest_decision : pres.

(** * The in-memory repository: [securities/in_memory.py]

    The strict append-only implementation of the repository port.  An operation
    that raises leaves the state as it was. *)

Local Open Scope Z_scope.

#[global] Instance ValidityInterval_countable : Countable ValidityInterval :=
  inj_countable' (λ i, (valid_from i, valid_to i)) (λ p, mk_Validity p.1 p.2) ltac:(by intros []).

(** [_identity_by_hash], [_identity_order], [_identity_heads], [_event_by_hash],
    [_event_previous], [_event_order], [_event_heads], [_decision_by_hash],
    [_decision_order]. *)
Record InMemorySecurityMaster := mk_Master {
  im_identity_by_hash : gmap string SecurityIdentityRecord;
  im_identity_order : list string;
  im_identity_heads : gmap (string * ValidityInterval) string;
  im_event_by_hash : gmap string CorporateActionRecord;
  im_event_previous : gmap string (option string);
  im_event_order : list string;
  im_event_heads : gmap string string;
  im_decision_by_hash : gmap string QuarantineDecision;
  im_decision_order : list string;
}.
Definition empty_master : InMemorySecurityMaster := mk_Master ∅ [] ∅ ∅ ∅ [] ∅ ∅ [].

(** A [dict[key]] that raises KeyError. *)
Definition dict_get {K A} `{Countable K} (d : gmap K A) (k : K) : outcome A :=
  match d !! k with Some a => Ok a | None => raise EKeyError "" end.

(** An operation on the state that a raise leaves unchanged. *)
Definition atomically {S A} (f : S → outcome (A * S)) : M S A := λ s,
  match f s with Ok (a, s') => (Ok a, s') | Raise e => (Raise e, s) end.
Definition reading {S A} (f : S → outcome A) : M S A := λ s, (f s, s).

Definition master_error {A} (msg : string) : outcome A := raise EInMemorySecurityMaster msg.
Definition guard_master (b : bool) (msg : string) : outcome unit :=
  guard_that b EInMemorySecurityMaster msg.

Section digests.
Context (identity_digest : SecurityIdentityRecord → string).
Context (action_digest : CorporateActionRecord → string).
Context (decision_digest : QuarantineDecision → string).
Implicit Types s : InMemorySecurityMaster.

(** ** Identities *)

(** Whether a head of the security other than that of the interval overlaps it. *)
Definition overlaps_head s (r : SecurityIdentityRecord) : outcome bool :=
  heads ← mapM (dict_get (im_identity_by_hash s)) (map_to_list (im_identity_heads s)).*2;
  Ok (existsb (λ head, bool_decide (id_security head = id_security r) &&
                       negb (bool_decide (interval_key head = interval_key r)) &&
                       intervals_overlap (id_valid head) (id_valid r)) heads).

Definition put_identity s (r : SecurityIdentityRecord) (heads : gmap (string * ValidityInterval) string) :=
  mk_Master (<[id_hash r := r]> (im_identity_by_hash s)) (im_identity_order s ++ [id_hash r]) heads
    (im_event_by_hash s) (im_event_previous s) (im_event_order s) (im_event_heads s)
    (im_decision_by_hash s) (im_decision_order s).

Definition im_append_identity (r : SecurityIdentityRecord) s : outcome (AppendOutcome * InMemorySecurityMaster) :=
  verify_identity identity_digest r ≫= λ _,
  match im_identity_by_hash s !! id_hash r with
  | Some existing =>
      guard_master (bool_decide (existing = r)) "identity hash collision carries different content" ≫= λ _,
      Ok (IDEMPOTENT_DUPLICATE, s)
  | None =>
      let key := interval_key r in
      overlap ← overlaps_head s r;
      guard_master (negb overlap)
        "identity interval overlaps an existing head for the same security" ≫= λ _,
      match im_identity_heads s !! key with
      | None => Ok (APPENDED, put_identity s r (<[key := id_hash r]> (im_identity_heads s)))
      | Some current_hash =>
          current ← dict_get (im_identity_by_hash s) current_hash;
          guard_master (negb ((id_available_at r =? id_available_at current) &&
                              negb (bool_decide (id_hash current = id_hash r))))
            "unorderable identity correction at the same available time" ≫= λ _,
          Ok (APPENDED, put_identity s r
                (if id_available_at current <? id_available_at r
                 then <[key := id_hash r]> (im_identity_heads s) else im_identity_heads s))
      end
  end.

Definition im_identity_records (sid symbol : option string) s : outcome (list SecurityIdentityRecord) :=
  guard_that (bool_decide (is_Some sid) || bool_decide (is_Some symbol)) EValueError
    "identity query requires security_id or symbol" ≫= λ _,
  records ← mapM (dict_get (im_identity_by_hash s)) (im_identity_order s);
  let selected := filter (λ r,
    (sid = None ∨ sid = Some (id_security r)) ∧ (symbol = None ∨ symbol = Some (id_symbol r))) records in
  guard_master (forallb (identity_intact identity_digest) selected)
    "stored identity record failed integrity re-verification" ≫= λ _,
  Ok selected.

(** ** Events *)

Definition put_event s (r : CorporateActionRecord) (previous : option string) :=
  mk_Master (im_identity_by_hash s) (im_identity_order s) (im_identity_heads s)
    (<[ca_record_hash r := r]> (im_event_by_hash s)) (<[ca_record_hash r := previous]> (im_event_previous s))
    (im_event_order s ++ [ca_record_hash r]) (<[ca_event_id r := ca_record_hash r]> (im_event_heads s))
    (im_decision_by_hash s) (im_decision_order s).

(** Whether the row may follow the named predecessor. *)
Definition check_predecessor (r : CorporateActionRecord) (previous : option string) s : outcome unit :=
  if decide (ca_state r = Cas.DETECTED) then
    guard_master (negb (bool_decide (is_Some previous)))
      "detected root cannot reference a previous head" ≫= λ _,
    guard_master (negb (bool_decide (is_Some (im_event_heads s !! ca_event_id r))))
      "corporate-action event lineage already started"
  else
    match previous with
    | None => master_error "transition requires the previous head record hash"
    | Some previous =>
        match im_event_heads s !! ca_event_id r with
        | None => master_error "corporate-action event lineage not found"
        | Some current =>
            guard_that (bool_decide (current = previous)) EInMemoryConcurrentTransition
              "corporate-action head moved" ≫= λ _,
            match im_event_by_hash s !! previous with
            | None => master_error "previous event head is not in the event log"
            | Some row => validate_transition action_digest row r
            end
        end
    end.

Definition im_append_event (r : CorporateActionRecord) (previous : option string) s
    : outcome (AppendOutcome * InMemorySecurityMaster) :=
  verify_action action_digest r ≫= λ _,
  guard_that (match previous with Some h => is_digest h | None => true end) EValueError
    "previous_record_hash must be a SHA-256 digest or None" ≫= λ _,
  guard_master (match im_identity_by_hash s !! ca_security_identity_hash r with
                | Some i => bool_decide (id_security i = ca_security_id r)
                | None => false
                end) "corporate-action event must reference an existing matching identity version" ≫= λ _,
  match im_event_by_hash s !! ca_record_hash r with
  | Some existing =>
      guard_master (bool_decide (existing = r))
        "corporate-action hash collision carries different content" ≫= λ _,
      known ← dict_get (im_event_previous s) (ca_record_hash r);
      guard_master (bool_decide (known = previous))
        "corporate-action record hash was reused with a different predecessor" ≫= λ _,
      Ok (IDEMPOTENT_DUPLICATE, s)
  | None =>
      check_predecessor r previous s ≫= λ _,
      Ok (APPENDED, put_event s r previous)
  end.

(** The loop over the successors: [seen] guards against a cycle, and the rows of the
    event bound the number of its rounds. *)
Fixpoint walk_chain (fuel : nat) s (by_previous : gmap (option string) string) (seen : list string)
    (current : option string) : outcome (list CorporateActionRecord) :=
  match current, fuel with
  | None, _ => Ok []
  | Some _, O => master_error "event lineage carries a hash cycle"
  | Some h, S fuel =>
      guard_master (bool_decide (h ∉ seen)) "event lineage carries a hash cycle" ≫= λ _,
      match im_event_by_hash s !! h with
      | None => master_error "event lineage points to a missing row"
      | Some r =>
          guard_master (action_intact action_digest r)
            "stored corporate-action record failed integrity re-verification" ≫= λ _,
          rest ← walk_chain fuel s by_previous (h :: seen) (by_previous !! Some h);
          Ok (r :: rest)
      end
  end.

Definition im_event_lineage (event_id : string) s : outcome (list CorporateActionRecord) :=
  guard_that (event_id_ok event_id) EValueError "event_id must be a canonical event identifier" ≫= λ _,
  rows ← mapM (λ h, r ← dict_get (im_event_by_hash s) h; Ok (h, ca_event_id r)) (im_event_order s);
  let hashes := (filter (λ p, p.2 = event_id) rows).*1 in
  if bool_decide (hashes = []) then Ok []
  else
    links ← mapM (λ h, p ← dict_get (im_event_previous s) h; Ok (p, h)) hashes;
    let by_previous := foldl (λ m p, <[p.1 := p.2]> m) ∅ links : gmap (option string) string in
    match (filter (λ p, p.1 = None) links).*2 with
    | [root] =>
        chain ← walk_chain (S (length hashes)) s by_previous [] (Some root);
        guard_master (length chain =? length hashes)%nat
          "event lineage carries a fork or unreachable row" ≫= λ _,
        validate_lineage action_digest chain ≫= λ _,
        Ok chain
    | _ => master_error "event lineage must carry exactly one root"
    end.

Definition im_security_event_ids (sid : string) s : outcome (list string) :=
  Ok (sort_by String.leb (remove_dups (ca_event_id <$>
    filter (λ r, ca_security_id r = sid) (map_to_list (im_event_by_hash s)).*2))).

(** ** Decisions *)

Definition im_record_decision (d : QuarantineDecision) s : outcome (AppendOutcome * InMemorySecurityMaster) :=
  verify_decision decision_digest d ≫= λ _,
  match im_decision_by_hash s !! qd_hash d with
  | Some existing =>
      guard_master (bool_decide (existing = d))
        "quarantine decision hash collision carries different content" ≫= λ _,
      Ok (IDEMPOTENT_DUPLICATE, s)
  | None =>
      Ok (APPENDED, mk_Master (im_identity_by_hash s) (im_identity_order s) (im_identity_heads s)
        (im_event_by_hash s) (im_event_previous s) (im_event_order s) (im_event_heads s)
        (<[qd_hash d := d]> (im_decision_by_hash s)) (im_decision_order s ++ [qd_hash d]))
  end.

(** [max(..., key=(decision_at, decision_hash))]: the first of the greatest. *)
Definition decision_ltb (a b : QuarantineDecision) : bool :=
  (qd_decision_at a <? qd_decision_at b) ||
  ((qd_decision_at a =? qd_decision_at b) && str_ltb (qd_hash a) (qd_hash b)).
Definition max_decision (l : list QuarantineDecision) : option QuarantineDecision :=
  match l with
  | [] => None
  | d :: l => Some (foldl (λ m x, if decision_ltb m x then x else m) d l)
  end.
Definition im_latest_decision (sid : string) s : outcome (option QuarantineDecision) :=
  decisions ← mapM (dict_get (im_decision_by_hash s)) (im_decision_order s);
  let mine := filter (λ d, qd_security_id d = sid) decisions in
  guard_that (forallb (decision_intact decision_digest) mine) EValueError
    "decision hash does not match frozen decision content" ≫= λ _,
  Ok (max_decision mine).

(** [transaction] restores the state of its start. *)
#[global] Instance in_memory_repository : SecurityMasterRepository InMemorySecurityMaster := {
  append_identity r := atomically (im_append_identity r);
  identity_records sid symbol := reading (im_identity_records sid symbol);
  append_event r p := atomically (im_append_event r p);
  event_lineage e := reading (im_event_lineage e);
  security_event_ids sid := reading (im_security_event_ids sid);
  record_decision d := atomically (im_record_decision d);
  latest_decision sid := reading (im_latest_decision sid);
  repo_rollback start _ := start;
}.
End digests.
