(* ===== verification/InMemoryFacts.v ===== *)
(** * The in-memory repository keeps its promises

    Its hashes, links and heads describe one lineage per event, in the order of the
    appends; reading a lineage walks exactly that, and every operation preserves it. *)

From S2P Require Import Prelude Dicts Text Orders Sources Identity Actions ActionFacts Quarantine SourceLog Master.
Local Open Scope Z_scope.

(** ** The rows of a repository *)

Definition all_rows (s : InMemorySecurityMaster) : list CorporateActionRecord :=
  omap (λ h, im_event_by_hash s !! h) (im_event_order s).
Definition rows_of (s : InMemorySecurityMaster) (e : string) : list CorporateActionRecord :=
  filter (λ r, ca_event_id r = e) (all_rows s).
Definition im_lineages (s : InMemorySecurityMaster) : gmap string (list CorporateActionRecord) :=
  list_to_map ((λ e, (e, rows_of s e)) <$> remove_dups (ca_event_id <$> all_rows s)).

(** The links of a chain, from the predecessor of its first row. *)
Fixpoint links_of (previous : option string) (l : list CorporateActionRecord) : list (option string * string) :=
  match l with
  | [] => []
  | r :: l => (previous, ca_record_hash r) :: links_of (Some (ca_record_hash r)) l
  end.

Record im_inv (action_digest : CorporateActionRecord → string) (s : InMemorySecurityMaster) : Prop := {
  iv_unique : NoDup (im_event_order s);
  iv_order h : h ∈ im_event_order s ↔ is_Some (im_event_by_hash s !! h);
  iv_hash h r : im_event_by_hash s !! h = Some r → ca_record_hash r = h;
  iv_links e p h : (p, h) ∈ links_of None (rows_of s e) → im_event_previous s !! h = Some p;
  iv_head e : match last (rows_of s e) with
              | Some head => im_event_heads s !! e = Some (ca_record_hash head) ∧
                  ∃ root, lineage_of action_digest (rows_of s e) root head
              | None => im_event_heads s !! e = None
              end;
}.

Lemma elem_of_all_rows s r : r ∈ all_rows s ↔ ∃ h, h ∈ im_event_order s ∧ im_event_by_hash s !! h = Some r.
Proof. unfold all_rows. apply list_elem_of_omap. Qed.
Lemma elem_of_rows_of s e r : r ∈ rows_of s e ↔ ca_event_id r = e ∧ r ∈ all_rows s.
Proof. unfold rows_of. by rewrite list_elem_of_filter. Qed.

Lemma lineages_lookup s e l : im_lineages s !! e = Some l ↔ l = rows_of s e ∧ l ≠ [].
Proof.
  unfold im_lineages. set (ids := remove_dups _).
  assert (Hn : NoDup (((λ e, (e, rows_of s e)) <$> ids).*1)).
  { rewrite <-list_fmap_compose. simpl. rewrite list_fmap_id. apply NoDup_remove_dups. }
  assert (Hin : ∀ e, e ∈ ids ↔ rows_of s e ≠ []).
  { intros e'. unfold ids. rewrite elem_of_remove_dups. split.
    - intros (r & -> & Hr)%list_elem_of_fmap E.
      assert (r ∈ rows_of s (ca_event_id r)) as Hin by by apply elem_of_rows_of.
      rewrite E in Hin. by apply elem_of_nil in Hin.
    - intros Hne. destruct (rows_of s e') as [|r k] eqn:E; [done|].
      assert (Hr : r ∈ rows_of s e') by (rewrite E; by left). apply elem_of_rows_of in Hr as [<- Hr].
      by apply list_elem_of_fmap_2. }
  rewrite <-(elem_of_list_to_map _ e l Hn). rewrite list_elem_of_fmap. split.
  - intros (e' & [= -> ->] & He%Hin). done.
  - intros [-> Hne]. exists e. split; [done|]. by apply Hin.
Qed.
Lemma lineage_rows_of s e : lineage_rows (im_lineages s) e = rows_of s e.
Proof.
  unfold lineage_rows. destruct (im_lineages s !! e) as [l|] eqn:E.
  - by apply lineages_lookup in E as [-> _].
  - simpl. destruct (rows_of s e) as [|r k] eqn:El; [done|]. exfalso.
    assert (im_lineages s !! e = Some (rows_of s e)) as E' by (apply lineages_lookup; split; [done|by rewrite El]).
    congruence.
Qed.

Lemma rows_grow s s' k : all_rows s' = all_rows s ++ k → lineages_grow (im_lineages s) (im_lineages s').
Proof.
  intros E e l [-> Hne]%lineages_lookup.
  assert (Er : rows_of s' e = rows_of s e ++ filter (λ r, ca_event_id r = e) k)
    by (unfold rows_of; by rewrite E, filter_app).
  exists (filter (λ r, ca_event_id r = e) k). apply lineages_lookup. split; [done|].
  intros [? _]%app_nil. done.
Qed.

Section facts.
Context (identity_digest : SecurityIdentityRecord → string).
Context (action_digest : CorporateActionRecord → string).
Context (decision_digest : QuarantineDecision → string).
Notation inv := (im_inv action_digest).

Lemma inv_empty : inv empty_master.
Proof using Type.
  split; [constructor| | | |].
  - intros h. simpl. rewrite lookup_empty. split; [by intros ?%elem_of_nil|by intros []].
  - intros h r. simpl. by rewrite lookup_empty.
  - by intros e p h ?%elem_of_nil.
  - by intros e.
Qed.

(** The invariant reads only the event tables. *)
Definition same_events (s s' : InMemorySecurityMaster) : Prop :=
  im_event_by_hash s = im_event_by_hash s' ∧ im_event_previous s = im_event_previous s' ∧
  im_event_order s = im_event_order s' ∧ im_event_heads s = im_event_heads s'.
Lemma same_events_rows s s' : same_events s s' → all_rows s = all_rows s'.
Proof using Type. intros (E1 & _ & E3 & _). unfold all_rows. by rewrite E1, E3. Qed.
Lemma same_events_inv s s' : same_events s s' → inv s → inv s'.
Proof using Type.
  intros Hs [H1 H2 H3 H4 H5]. pose proof (same_events_rows _ _ Hs) as Hr.
  assert (Hro : ∀ e, rows_of s e = rows_of s' e) by (intros e; unfold rows_of; by rewrite Hr).
  destruct Hs as (E1 & E2 & E3 & E4). split.
  - by rewrite <-E3.
  - intros h. by rewrite <-E3, <-E1.
  - intros h r. rewrite <-E1. apply H3.
  - intros e p h. rewrite <-Hro, <-E2. apply H4.
  - intros e. rewrite <-Hro, <-E4. apply H5.
Qed.

(** ** Hashes *)

Lemma omap_hashes s (l : list string) :
  inv s → (∀ h, h ∈ l → h ∈ im_event_order s) →
  ca_record_hash <$> omap (λ h, im_event_by_hash s !! h) l = l.
Proof using Type.
  intros Hi. induction l as [|h l IH]; intros Hl; [done|].
  destruct (proj1 (iv_order _ _ Hi h) (Hl h ltac:(by left))) as [r Er]. simpl. rewrite Er. rewrite fmap_cons.
  rewrite (iv_hash _ _ Hi _ _ Er). f_equal. apply IH. intros h' Hh'. apply Hl. by right.
Qed.
Lemma all_rows_hashes s : inv s → ca_record_hash <$> all_rows s = im_event_order s.
Proof using Type. intros Hi. by apply omap_hashes. Qed.
Lemma rows_hashes_NoDup s e : inv s → NoDup (ca_record_hash <$> rows_of s e).
Proof using Type.
  intros Hi. pose proof (iv_unique _ _ Hi) as Hn. rewrite <-(all_rows_hashes _ Hi) in Hn.
  eapply sublist_NoDup; [exact Hn|]. apply sublist_map, sublist_filter.
Qed.
Lemma row_by_hash s r : inv s → r ∈ all_rows s → im_event_by_hash s !! ca_record_hash r = Some r.
Proof using Type.
  intros Hi (h & _ & E)%elem_of_all_rows. by rewrite (iv_hash _ _ Hi _ _ E).
Qed.

(** The rows named by the order, with their events. *)
Lemma read_rows s :
  inv s → mapM (λ h, r ← dict_get (im_event_by_hash s) h; Ok (h, ca_event_id r)) (im_event_order s) =
    Ok ((λ r, (ca_record_hash r, ca_event_id r)) <$> all_rows s).
Proof using Type.
  intros Hi. apply mapM_Ok. rewrite <-(all_rows_hashes _ Hi). apply Forall2_fmap, Forall_Forall2_diag, Forall_forall.
  intros r Hr. unfold dict_get. by rewrite (row_by_hash _ _ Hi Hr).
Qed.
Lemma event_hashes (l : list CorporateActionRecord) e :
  (filter (λ p, p.2 = e) ((λ r, (ca_record_hash r, ca_event_id r)) <$> l)).*1 =
  ca_record_hash <$> filter (λ r, ca_event_id r = e) l.
Proof using Type.
  induction l as [|r l IH]; [done|]. rewrite fmap_cons, !filter_cons. simpl.
  case_decide; simpl; [f_equal|]; exact IH.
Qed.

(** ** Links *)

Lemma links_fst_elem p l q h : (q, h) ∈ links_of p l → q = p ∨ ∃ r, r ∈ l ∧ q = Some (ca_record_hash r).
Proof using Type.
  revert p. induction l as [|r l IH]; intros p; simpl; [by intros ?%elem_of_nil|].
  intros [[= -> ->]|Hin]%elem_of_cons; [by left|right].
  destruct (IH _ Hin) as [->|(r' & ? & ->)]; [exists r; split; [by left|done]|exists r'; split; [by right|done]].
Qed.
Lemma links_snd p l : (links_of p l).*2 = ca_record_hash <$> l.
Proof using Type. revert p. induction l as [|r l IH]; intros p; [done|]. simpl. f_equal. apply IH. Qed.
Lemma links_keys_NoDup p l :
  NoDup (ca_record_hash <$> l) → (∀ r, r ∈ l → p ≠ Some (ca_record_hash r)) → NoDup (links_of p l).*1.
Proof using Type.
  revert p. induction l as [|r l IH]; intros p Hn Hp; [constructor|]. simpl. rewrite fmap_cons in Hn.
  apply NoDup_cons in Hn as [Hr Hn].
  assert (Hrec : ∀ r', r' ∈ l → Some (ca_record_hash r) ≠ Some (ca_record_hash r')).
  { intros r' Hr' [= E]. apply Hr. rewrite E. by apply list_elem_of_fmap_2. }
  constructor; [|by apply IH].
  intros ([q h] & -> & Hin)%list_elem_of_fmap. simpl in Hp.
  apply links_fst_elem in Hin as [Eq|(r' & Hr' & Eq)].
  - by apply (Hp r); [left|].
  - by apply (Hp r'); [right|].
Qed.

(** The dict built from links with distinct keys. *)
Lemma foldl_insert_lookup (links : list (option string * string)) (m : gmap (option string) string) k :
  NoDup links.*1 → (∀ x, x ∈ links.*1 → m !! x = None) →
  ∀ v, foldl (λ m p, <[p.1 := p.2]> m) m links !! k = Some v ↔ m !! k = Some v ∨ (k, v) ∈ links.
Proof using Type.
  revert m. induction links as [|[a b] links IH]; intros m Hn Hm v.
  { simpl. split; [by left|]. intros [?|?%elem_of_nil]; done. }
  rewrite fmap_cons in Hn. apply NoDup_cons in Hn as [Ha Hn]. simpl. rewrite IH; [|done|].
  - rewrite elem_of_cons. destruct (decide (a = k)) as [->|Hne].
    + rewrite lookup_insert_eq. rewrite (Hm k) by by left. split.
      * intros [[= <-]|?]; [right; by left|right; by right].
      * intros [?|[[= ->]|?]]; [done|by left|by right].
    + rewrite lookup_insert_ne by done. split; [tauto|]. intros [?|[[= ? ?]|?]]; [by left|congruence|by right].
  - intros x Hx. rewrite lookup_insert_ne; [apply Hm; by right|]. by intros ->.
Qed.

(** ** Reading a lineage *)

Lemma last_default_cons {A} (x y : A) l : List.last (x :: l) y = List.last l x.
Proof using Type. revert x y. induction l as [|z l IH]; intros x y; [done|].
  change (List.last (z :: l) y = List.last (z :: l) x). by rewrite !IH.
Qed.
Lemma last_default_elem {A} (x : A) l : List.last l x ∈ x :: l.
Proof using Type.
  revert x. induction l as [|y l IH]; intros x; [by left|]. rewrite last_default_cons. right. apply IH.
Qed.

Lemma walk_spec s bp l : ∀ fuel seen r,
  (∀ x, x ∈ r :: l → im_event_by_hash s !! ca_record_hash x = Some x ∧ action_intact action_digest x = true) →
  NoDup (ca_record_hash <$> r :: l) → (∀ x, x ∈ r :: l → ca_record_hash x ∉ seen) →
  (∀ p h, (p, h) ∈ links_of (Some (ca_record_hash r)) l → bp !! p = Some h) →
  bp !! Some (ca_record_hash (List.last l r)) = None → (length l < fuel)%nat →
  walk_chain action_digest fuel s bp seen (Some (ca_record_hash r)) = Ok (r :: l).
Proof using Type.
  induction l as [|r' l IH]; intros fuel seen r Hrow Hn Hseen Hlink Hend Hf;
    (destruct fuel as [|fuel]; [lia|]); destruct (Hrow r ltac:(by left)) as [Er Hi]; cbn [walk_chain];
    rewrite bool_decide_true by (apply Hseen; by left); cbn [guard_master guard_that mbind outcome_bind];
    rewrite Er, Hi; cbn [guard_master guard_that mbind outcome_bind].
  - simpl in Hend. rewrite Hend. by destruct fuel.
  - rewrite (Hlink _ _ ltac:(by left)). rewrite IH; [done| | | | | |].
    + intros x Hx. apply Hrow. by right.
    + by apply NoDup_cons in Hn as [_ ?].
    + intros x Hx. apply not_elem_of_cons. split; [|apply Hseen; by right].
      intros E. apply NoDup_cons in Hn as [Hr _]. apply Hr. rewrite <-E. exact (list_elem_of_fmap_2 ca_record_hash (r' :: l) _ Hx).
    + intros p h Hin. apply Hlink. by right.
    + by rewrite last_default_cons in Hend.
    + simpl in Hf. lia.
Qed.

Lemma links_roots l r :
  (filter (λ p, p.1 = None) (links_of None (r :: l))).*2 = [ca_record_hash r].
Proof using Type.
  cbn [links_of]. rewrite filter_cons_True by done.
  assert (H : ∀ h, filter (λ p, p.1 = None) (links_of (Some h) l) = []).
  { induction l as [|x l IH]; intros h; [done|]. cbn [links_of]. rewrite filter_cons_False by done. apply IH. }
  by rewrite H.
Qed.
Lemma links_last p l : ∀ r h, (Some (ca_record_hash (List.last l r)), h) ∈ links_of p (r :: l) →
  p = Some (ca_record_hash (List.last l r)) ∨ ¬ NoDup (ca_record_hash <$> r :: l).
Proof using Type.
  revert p. induction l as [|x l IH]; intros p r h; simpl.
  - intros [[= E _]|?%elem_of_nil]%elem_of_cons; [by left|done].
  - intros [[= E _]|Hin]%elem_of_cons; [by left|]. right.
    change (match l with [] => x | _ :: _ => List.last l r end) with (List.last (x :: l) r) in Hin.
    rewrite last_default_cons in Hin. destruct (IH _ x h Hin) as [E|Hn].
    + intros Hn. injection E as E. apply NoDup_cons in Hn as [Hr _]. apply Hr. rewrite E.
      apply (list_elem_of_fmap_2 ca_record_hash (x :: l)), last_default_elem.
    + intros [_ Hn']%NoDup_cons. done.
Qed.

Lemma lineage_read s e :
  inv s → event_id_ok e = true → im_event_lineage action_digest e s = Ok (rows_of s e).
Proof using Type.
  intros Hi He. unfold im_event_lineage. rewrite He. cbn [guard_that mbind outcome_bind].
  rewrite (read_rows _ Hi). cbn [mbind outcome_bind]. rewrite event_hashes. fold (rows_of s e).
  pose proof (iv_head _ _ Hi e) as Hh. pose proof (rows_hashes_NoDup s e Hi) as Hn.
  pose proof (iv_links _ _ Hi e) as Hl.
  assert (Hin : ∀ r, r ∈ rows_of s e → im_event_by_hash s !! ca_record_hash r = Some r).
  { intros r Hr. apply row_by_hash; [done|]. by apply elem_of_rows_of in Hr as [_ ?]. }
  destruct (rows_of s e) as [|r l] eqn:E; [done|].
  rewrite bool_decide_false by done.
  assert (Hlinks : mapM (λ h, p ← dict_get (im_event_previous s) h; Ok (p, h)) (ca_record_hash <$> r :: l) =
    Ok (links_of None (r :: l))).
  { apply mapM_Ok. rewrite <-(links_snd None (r :: l)).
    apply Forall2_fmap_l, Forall_Forall2_diag, Forall_forall. intros [p h] Hp.
    unfold dict_get. simpl. by rewrite (Hl p h Hp). }
  rewrite Hlinks. cbn [mbind outcome_bind]. rewrite links_roots.
  rewrite (last_List_cons r l r) in Hh. destruct Hh as [_ [root Hlin]].
  set (bp := foldl _ _ _).
  assert (Hbp : ∀ k v, bp !! k = Some v ↔ (k, v) ∈ links_of None (r :: l)).
  { intros k v. unfold bp. rewrite foldl_insert_lookup.
    - rewrite lookup_empty. split; [intros [?|?]; done|by right].
    - by apply links_keys_NoDup.
    - intros x _. apply lookup_empty. }
  rewrite (walk_spec s bp l); [|..].
  - cbn [mbind outcome_bind]. rewrite length_fmap, Nat.eqb_refl. cbn [guard_master guard_that mbind outcome_bind].
    by rewrite (proj2 (validate_lineage_Ok action_digest (r :: l) _) (ex_intro _ root Hlin)).
  - intros x Hx. split; [by apply Hin|]. by apply (ln_intact _ _ _ _ Hlin).
  - done.
  - intros x _. apply not_elem_of_nil.
  - intros p h Hp. apply Hbp. by right.
  - destruct (bp !! _) as [v|] eqn:Eb; [|done]. apply Hbp in Eb.
    destruct (links_last None l r v Eb); done.
  - rewrite length_fmap. simpl. lia.
Qed.

(** ** Appending a row *)

Lemma put_rows s r p : inv s → im_event_by_hash s !! ca_record_hash r = None →
  all_rows (put_event s r p) = all_rows s ++ [r].
Proof using Type.
  intros Hi Hnew. unfold all_rows. simpl. rewrite omap_app. f_equal; [|simpl; by rewrite lookup_insert_eq].
  assert (Hin : ∀ h, h ∈ im_event_order s → h ≠ ca_record_hash r).
  { intros h Hh ->. apply (iv_order _ _ Hi) in Hh as [x Hx]. congruence. }
  apply list_omap_ext, Forall_Forall2_diag, Forall_forall. intros h Hh.
  rewrite lookup_insert_ne; [done|]. intros E. by apply (Hin h).
Qed.
Lemma links_snoc p l r :
  links_of p (l ++ [r]) = links_of p l ++ [(match last l with Some x => Some (ca_record_hash x) | None => p end, ca_record_hash r)].
Proof using Type.
  revert p. induction l as [|x l IH]; intros p; [done|]. simpl. rewrite IH. do 3 f_equal.
  destruct l as [|y l]; [done|]. rewrite last_cons_cons. by destruct (last (y :: l)) eqn:E; [|apply last_None in E].
Qed.

(** What lets a row be appended: it starts an event or follows its head. *)
Definition follows s (r : CorporateActionRecord) (p : option string) : Prop :=
  match last (rows_of s (ca_event_id r)) with
  | None => ca_state r = Cas.DETECTED ∧ p = None
  | Some head => p = Some (ca_record_hash head) ∧ validate_transition action_digest head r = Ok ()
  end.

Lemma check_predecessor_follows s r p : inv s → check_predecessor action_digest r p s = Ok () → follows s r p.
Proof using Type.
  intros Hi H. unfold check_predecessor in H. unfold follows. pose proof (iv_head _ _ Hi (ca_event_id r)) as Hh.
  case_decide as Hd.
  - apply obind_Ok in H as ([] & Hp%guard_Ok & Hn%guard_Ok).
    apply negb_true_iff, bool_decide_eq_false in Hp, Hn.
    destruct (last _) as [head|]; [destruct Hh as [Hh _]; rewrite Hh in Hn; by destruct Hn|].
    split; [done|]. destruct p; [by destruct Hp|done].
  - destruct p as [p|]; [|done]. destruct (im_event_heads s !! ca_event_id r) as [cur|] eqn:Ec; [|done].
    apply obind_Ok in H as ([] & Hc%guard_Ok%bool_decide_eq_true & H). subst cur.
    destruct (last _) as [head|] eqn:El; [|congruence]. destruct Hh as [Hh _]. injection Hh as ->.
    split; [done|]. apply last_Some in El as [k Ek].
    assert (Hin : head ∈ rows_of s (ca_event_id r)) by (rewrite Ek; apply elem_of_app; right; by left).
    apply elem_of_rows_of in Hin as [_ Hin]. by rewrite (row_by_hash _ _ Hi Hin) in H.
Qed.

Lemma put_event_inv s r p :
  inv s → action_intact action_digest r = true → im_event_by_hash s !! ca_record_hash r = None →
  follows s r p → inv (put_event s r p).
Proof using Type.
  intros Hi Hint Hnew Hf. pose proof (put_rows s r p Hi Hnew) as Hrows.
  assert (Hro : ∀ e, rows_of (put_event s r p) e = rows_of s e ++ (if decide (ca_event_id r = e) then [r] else [])).
  { intros e. unfold rows_of. by rewrite Hrows, filter_app. }
  assert (Hfresh : ca_record_hash r ∉ im_event_order s).
  { intros Hin. apply (iv_order _ _ Hi) in Hin as [x Hx]. congruence. }
  split.
  - simpl. apply NoDup_app. split; [by apply (iv_unique _ _ Hi)|]. split; [|apply NoDup_singleton].
    intros h Hh Hr. apply list_elem_of_singleton in Hr as ->. done.
  - intros h. simpl. rewrite elem_of_app, list_elem_of_singleton, (iv_order _ _ Hi).
    destruct (decide (ca_record_hash r = h)) as [<-|Hne].
    + rewrite lookup_insert_eq. split; [by eexists|by right].
    + rewrite lookup_insert_ne by done. split; [intros [?|?]; [done|congruence]|by left].
  - intros h x. simpl. destruct (decide (ca_record_hash r = h)) as [<-|Hne].
    + rewrite lookup_insert_eq. by intros [= <-].
    + rewrite lookup_insert_ne by done. apply (iv_hash _ _ Hi).
  - intros e q h. rewrite Hro. simpl.
    assert (Hold : (q, h) ∈ links_of None (rows_of s e) → <[ca_record_hash r:=p]> (im_event_previous s) !! h = Some q).
    { intros Hin. rewrite lookup_insert_ne; [by apply (iv_links _ _ Hi e)|]. intros E. apply Hfresh. rewrite E.
      assert (Hh : h ∈ (links_of None (rows_of s e)).*2) by (apply list_elem_of_fmap; by exists (q, h)).
      rewrite links_snd in Hh. apply list_elem_of_fmap in Hh as (x & -> & Hx).
      apply elem_of_rows_of in Hx as [_ Hx]. rewrite <-(all_rows_hashes _ Hi). by apply list_elem_of_fmap_2. }
    case_decide as Ed; [|by rewrite app_nil_r]. rewrite links_snoc.
    intros [Hin|Hin]%elem_of_app; [by apply Hold|]. apply list_elem_of_singleton in Hin as [= -> ->].
    rewrite lookup_insert_eq. f_equal. subst e. unfold follows in Hf.
    destruct (last _); [by destruct Hf|by destruct Hf as [_ ->]].
  - intros e. rewrite Hro. simpl. pose proof (iv_head _ _ Hi e) as Hh. case_decide as Ed.
    + subst e. rewrite last_snoc, lookup_insert_eq. split; [done|]. unfold follows in Hf.
      destruct (last _) as [head|] eqn:El.
      * destruct Hh as [_ [root Hl]], Hf as [_ Ht]. exists root. by eapply lineage_snoc.
      * apply last_None in El. rewrite El. destruct Hf as [Hd _]. exists r. by apply lineage_start.
    + rewrite app_nil_r, lookup_insert_ne by done. done.
Qed.

Lemma append_event_spec s r p o s' :
  inv s → im_append_event action_digest r p s = Ok (o, s') →
  inv s' ∧ match o with
           | IDEMPOTENT_DUPLICATE => s' = s ∧ r ∈ all_rows s
           | APPENDED => all_rows s' = all_rows s ++ [r]
           end.
Proof using Type.
  intros Hi H. unfold im_append_event in H. apply obind_Ok in H as ([] & Hv%guard_Ok & H).
  apply obind_Ok in H as ([] & _ & H). apply obind_Ok in H as ([] & _ & H).
  destruct (im_event_by_hash s !! ca_record_hash r) as [x|] eqn:Ex.
  - apply obind_Ok in H as ([] & E%guard_Ok%bool_decide_eq_true & H).
    apply obind_Ok in H as (k & _ & H). apply obind_Ok in H as ([] & _ & [= <- <-]). subst x.
    split; [done|]. split; [done|]. apply elem_of_all_rows. exists (ca_record_hash r).
    split; [|done]. apply (iv_order _ _ Hi). by exists r.
  - apply obind_Ok in H as ([] & Hc & [= <- <-]). apply check_predecessor_follows in Hc; [|done].
    split; [by apply put_event_inv|by apply put_rows].
Qed.

(** ** The promises *)

#[global] Instance in_memory_model : SecurityMasterModel InMemorySecurityMaster := {
  repo_inv := inv;
  lineages := im_lineages;
}.

Lemma unchanged_grows s s' : same_events s s' → repo_grows s s'.
Proof using Type.
  intros Hs Hi. split; [by eapply same_events_inv|]. apply (rows_grow s s' []). rewrite app_nil_r.
  symmetry. by apply same_events_rows.
Qed.
Lemma same_events_refl s : same_events s s.
Proof using Type. done. Qed.
Lemma reading_grows {A} (f : InMemorySecurityMaster → outcome A) : pres repo_grows (reading f).
Proof using Type. intros s. apply unchanged_grows, same_events_refl. Qed.
Lemma atomically_grows {A} (f : InMemorySecurityMaster → outcome (A * InMemorySecurityMaster)) :
  (∀ s a s', f s = Ok (a, s') → repo_grows s s') → pres repo_grows (atomically f).
Proof using Type.
  intros Hf s. unfold atomically. destruct (f s) as [[a s']|e] eqn:E; [by eapply Hf|].
  apply unchanged_grows, same_events_refl.
Qed.

Lemma append_identity_same r s o s' :
  im_append_identity identity_digest r s = Ok (o, s') → same_events s s'.
Proof using Type.
  unfold im_append_identity. intros ([] & _ & H)%obind_Ok. destruct (_ !! id_hash r) as [x|].
  - by apply obind_Ok in H as ([] & _ & [= <- <-]).
  - apply obind_Ok in H as (ov & _ & H). apply obind_Ok in H as ([] & _ & H).
    destruct (im_identity_heads s !! _); [|by injection H as <- <-].
    apply obind_Ok in H as (c & _ & H). by apply obind_Ok in H as ([] & _ & [= <- <-]).
Qed.
Lemma record_decision_same d s o s' :
  im_record_decision decision_digest d s = Ok (o, s') → same_events s s'.
Proof using Type.
  unfold im_record_decision. intros ([] & _ & H)%obind_Ok. destruct (_ !! qd_hash d) as [x|].
  - by apply obind_Ok in H as ([] & _ & [= <- <-]).
  - by injection H as <- <-.
Qed.

Lemma event_ids_spec s sid : inv s →
  ∃ ids, im_security_event_ids sid s = Ok ids ∧
    ∀ e, e ∈ ids ↔ ∃ l row, im_lineages s !! e = Some l ∧ row ∈ l ∧ ca_security_id row = sid.
Proof using Type.
  intros Hi. eexists. split; [done|]. intros e.
  rewrite elem_of_sort_by, elem_of_remove_dups, list_elem_of_fmap. split.
  - intros (r & -> & [Hs Hr]%list_elem_of_filter). apply list_elem_of_fmap in Hr as ([h x] & -> & Hx).
    apply elem_of_map_to_list in Hx. simpl in *.
    assert (Hin : x ∈ rows_of s (ca_event_id x)).
    { apply elem_of_rows_of. split; [done|]. apply elem_of_all_rows. exists h. split; [|done].
      apply (iv_order _ _ Hi). by exists x. }
    exists (rows_of s (ca_event_id x)), x. split; [|done]. apply lineages_lookup. split; [done|].
    intros E. rewrite E in Hin. by apply elem_of_nil in Hin.
  - intros (l & row & [-> _]%lineages_lookup & [<- Hr]%elem_of_rows_of & Hs). exists row. split; [done|].
    apply list_elem_of_filter. split; [done|]. apply list_elem_of_fmap. exists (ca_record_hash row, row).
    split; [done|]. apply elem_of_map_to_list. by apply row_by_hash.
Qed.

Lemma event_appended s r p o s' :
  inv s → im_append_event action_digest r p s = Ok (o, s') → appended (im_lineages s) (im_lineages s') r o.
Proof using Type.
  intros Hi H. apply append_event_spec in H as [_ H]; [|done]. unfold appended.
  rewrite lineage_rows_of. destruct o.
  - assert (Hro : ∀ e, rows_of s' e = rows_of s e ++ (if decide (ca_event_id r = e) then [r] else [])).
    { intros e. unfold rows_of. by rewrite H, filter_app. }
    apply map_eq. intros e. apply option_eq. intros l. rewrite lineages_lookup, Hro.
    destruct (decide (ca_event_id r = e)) as [->|Hne].
    + rewrite lookup_insert_eq. split; [by intros [-> _]|]. intros [= <-]. split; [done|].
      intros [_ ?]%app_nil. done.
    + by rewrite lookup_insert_ne, lineages_lookup, app_nil_r.
  - destruct H as [-> Hr]. split; [done|]. by apply elem_of_rows_of.
Qed.

#[global] Instance in_memory_laws :
  @SecurityMasterLaws action_digest InMemorySecurityMaster
    (in_memory_repository identity_digest action_digest decision_digest) in_memory_model.
Proof using Type.
  split.
  - intros r. apply atomically_grows. intros s o s' H. eapply unchanged_grows, append_identity_same, H.
  - intros a b. apply reading_grows.
  - intros r p. apply atomically_grows. intros s o s' H Hi. pose proof (append_event_spec _ _ _ _ _ Hi H) as [Hi' Hs].
    split; [done|]. destruct o; [by eapply rows_grow|]. by destruct Hs as [-> _].
  - intros e. apply reading_grows.
  - intros sid. apply reading_grows.
  - intros d. apply atomically_grows. intros s o s' H. eapply unchanged_grows, record_decision_same, H.
  - intros sid. apply reading_grows.
  - intros s s' _. apply unchanged_grows, same_events_refl.
  - intros s e l Hi [-> Hne]%lineages_lookup. pose proof (iv_head _ _ Hi e) as Hh.
    destruct (last _) as [head|] eqn:El; [|by apply last_None in El].
    destruct Hh as [_ [root Hl]]. exists root, head. split; [done|].
    apply lineage_root_in in Hl. by apply elem_of_rows_of in Hl as [? _].
  - intros s e Hi He. simpl. unfold reading. rewrite (lineage_read _ _ Hi He). by rewrite lineage_rows_of.
  - intros s sid Hi. destruct (event_ids_spec s sid Hi) as (ids & E & H). exists ids. split; [|done].
    simpl. unfold reading. by rewrite E.
  - intros s r p o s' Hi H. simpl in H. unfold atomically in H.
    destruct (im_append_event _ _ _ _) as [[o' s'']|e] eqn:E; [|done]. injection H as -> ->.
    by eapply event_appended.
Qed.
End facts.
