(* ===== verification/SecurityService.v ===== *)
(** * The security-master service: [securities/service.py]

    Identity registration, split discovery with its immediate block, confirmation,
    and the quarantine evaluator behind the three caller seams, over any repository.
    Row locks of the source log are left out: one session runs at a time. *)

From S2P Require Import Prelude Dicts Text Calendar Sources Identity Actions Quarantine SourceLog Master.
Local Open Scope Z_scope.

Record SecurityMasterTelemetry := mk_Telemetry {
  tm_operation : string;
  tm_security_id : string;
  tm_state : option string;
  tm_record_hash : option string;
}.

(** The source log, the repository, what telemetry was handed, and its failures. *)
Record SecWorld (S : Type) := mk_SecWorld {
  sw_log : SourceLog;
  sw_repo : S;
  sw_emitted : list SecurityMasterTelemetry;
  sw_telemetry_failures : Z;
}.
Arguments mk_SecWorld {S}.
Arguments sw_log {S}.
Arguments sw_repo {S}.
Arguments sw_emitted {S}.
Arguments sw_telemetry_failures {S}.

Definition with_repo {S} (s : S) (w : SecWorld S) : SecWorld S :=
  mk_SecWorld (sw_log w) s (sw_emitted w) (sw_telemetry_failures w).
Definition with_log {S} (l : SourceLog) (w : SecWorld S) : SecWorld S :=
  mk_SecWorld l (sw_repo w) (sw_emitted w) (sw_telemetry_failures w).

(** An operation of the repository, and a read of the source log. *)
Definition repo {S A} (m : M S A) : M (SecWorld S) A := λ w,
  let '(o, s) := m (sw_repo w) in (o, with_repo s w).
Definition source {S A} (f : SourceLog → outcome A) : M (SecWorld S) A := λ w, (f (sw_log w), w).
(** [with self._repository_transaction():] *)
Definition transaction {S A} `{SecurityMasterRepository S} (m : M (SecWorld S) A) : M (SecWorld S) A := λ w,
  match m w with
  | (Raise e, w') => (Raise e, with_repo (repo_rollback (sw_repo w) (sw_repo w')) w')
  | r => r
  end.

Definition later (first second : Z) : Z := if second <=? first then first else second.
(** [_date_start]: midnight UTC of a date. *)
Definition date_start (d : Z) : Z := d * DAY.

(** [_merge_refs] *)
Definition merge_refs (groups : list (list SourceRef)) : outcome (list SourceRef) :=
  merge_by_id (mk_exn ESourceLineage "one source identifier has conflicting hashes or families")
    (concat groups).
(** [_require_head] *)
Definition require_head (lineage : list CorporateActionRecord) : outcome CorporateActionRecord :=
  match last lineage with
  | Some head => Ok head
  | None => raise ESecurityMasterService "corporate-action event lineage does not exist"
  end.

Definition hash_leb (a b : SecurityIdentityRecord) : bool := String.leb (id_hash a) (id_hash b).
(** [_dedupe_identities] *)
Fixpoint dedupe_into (seen l : list SecurityIdentityRecord) : outcome (list SecurityIdentityRecord) :=
  match l with
  | [] => Ok seen
  | r :: l =>
      match find (λ s, bool_decide (id_hash s = id_hash r)) seen with
      | Some existing =>
          if bool_decide (existing = r) then dedupe_into seen l
          else raise EIdentityClosure "identity hash collision carries different content"
      | None => dedupe_into (seen ++ [r]) l
      end
  end.
Definition dedupe_identities (l : list SecurityIdentityRecord) : outcome (list SecurityIdentityRecord) :=
  seen ← dedupe_into [] l; Ok (sort_by hash_leb seen).

(** The facts of an event with another state, time and references. *)
Definition with_state (event : CorporateActionRecord) (state : Cas.t) (available_at : Z)
    (refs : list SourceRef) : CorporateActionRecord :=
  mk_Action (ca_event_id event) (ca_security_id event) (ca_security_identity_hash event)
    (ca_action_type event) (ca_ratio event) (ca_declared_at event) (ca_ex_date event)
    (ca_effective_date event) available_at state refs (ca_schema_version event) "".

Section service.
Context (identity_digest : SecurityIdentityRecord → string).
Context (action_digest : CorporateActionRecord → string).
Context (decision_digest : QuarantineDecision → string).
Context (source_digest : NormalizedSourceRecord → string).
(** The telemetry callable: whether it raises, given what it was handed before. *)
Context (telemetry : option (list SecurityMasterTelemetry → bool)).
Context {S : Type} `{SecurityMasterRepository S}.
Notation Sec := (M (SecWorld S)).

(** [_event_with_state] *)
Definition event_with_state (event : CorporateActionRecord) (state : Cas.t) (available_at : Z)
    (refs : list SourceRef) : outcome CorporateActionRecord :=
  build_corporate_action_record action_digest (with_state event state available_at refs).

(** [_emit] *)
Definition emit (t : SecurityMasterTelemetry) : Sec unit := λ w,
  match telemetry with
  | None => (Ok (), w)
  | Some raises =>
      (Ok (), mk_SecWorld (sw_log w) (sw_repo w) (sw_emitted w ++ [t])
                (if raises (sw_emitted w) then sw_telemetry_failures w + 1 else sw_telemetry_failures w))
  end.
Definition check_refs (refs : list SourceRef) (available_by : option Z) : Sec unit :=
  source (λ l, validate_refs source_digest l refs available_by) ≫= λ _, mret ().
Definition guard_service (b : bool) (msg : string) : Sec unit :=
  lift (guard_that b ESecurityMasterService msg).

(** ** Identities *)

Definition register_identity (r : SecurityIdentityRecord) : Sec AppendOutcome :=
  lift (verify_identity identity_digest r) ≫= λ _,
  check_refs (id_source_refs r) (Some (id_available_at r)) ≫= λ _,
  o ← transaction (
    o ← repo (append_identity r);
    readback ← repo (identity_records (Some (id_security r)) None);
    guard_service (existsb (λ c, bool_decide (c = r)) readback)
      "identity append readback did not match the request" ≫= λ _,
    mret o);
  emit (mk_Telemetry "identity_append" (id_security r) None (Some (id_hash r))) ≫= λ _,
  mret o.

(** [_identity_resolution_for_event] *)
Definition identity_resolution_for_event (event : CorporateActionRecord) (known_at : Z)
    : Sec IdentityResolution :=
  records ← repo (identity_records (Some (ca_security_id event)) None);
  lift (q ← make_IdentityQuery (date_start (ca_ex_date event)) known_at (Some (ca_security_id event)) None;
        resolve_identity identity_digest records q).

Definition require_pinned_identity (event : CorporateActionRecord) (known_at : Z) : Sec unit :=
  resolution ← identity_resolution_for_event event known_at;
  match ir_status resolution, ir_record resolution with
  | Ids.RESOLVED, Some r =>
      lift (guard_that (bool_decide (id_hash r = ca_security_identity_hash event)) EIdentityClosure
              "event identity version does not match the resolved identity")
  | _, _ => throw EIdentityClosure "event identity resolution failed closed"
  end.

(** ** Discovery *)

Definition discover_split (event : CorporateActionRecord) : Sec CorporateActionRecord :=
  lift (guard_that (bool_decide (ca_state event = Cas.DETECTED)) EValueError
          "split discovery requires a DETECTED event") ≫= λ _,
  lift (verify_action action_digest event) ≫= λ _,
  check_refs (ca_source_refs event) (Some (ca_available_at event)) ≫= λ _,
  require_pinned_identity event (ca_available_at event) ≫= λ _,
  head ← transaction (
    repo (append_event event None) ≫= λ _,
    blocked ← lift (event_with_state event Cas.ENTRY_BLOCKED (ca_available_at event) (ca_source_refs event));
    repo (append_event blocked (Some (ca_record_hash event))) ≫= λ _,
    lineage ← repo (event_lineage (ca_event_id event));
    lift (require_head lineage));
  emit (mk_Telemetry "split_discovery_blocked" (ca_security_id head) (Some (Cas.value (ca_state head)))
          (Some (ca_record_hash head))) ≫= λ _,
  mret head.

(** ** Confirmation *)

(** [_revalidate_observation] *)
Definition revalidate_observation (o : SourceObservation) : Sec SourceObservation :=
  available ← source (λ l, ref_available_at source_digest l (so_source_ref o));
  lift (guard_that (available =? so_available_at o) ESourceLineage
          "source observation availability is not source-record bound") ≫= λ _,
  withdrawn ← (if so_withdrawn o then mret true
               else current ← source (λ l, is_current source_digest l (so_source_ref o)); mret (negb current));
  mret (mk_Observation (so_source_ref o) (so_available_at o) withdrawn (so_auditable o) (so_claimed_type o)
          (so_claimed_ratio o) (so_claimed_ex_date o) (so_claimed_effective_date o)).

(** The transition to a state, with the references of the observations added. *)
Definition append_transition (head : CorporateActionRecord) (state : Cas.t)
    (os : list SourceObservation) (decision_at : Z) : Sec CorporateActionRecord :=
  refs ← lift (merge_refs [ca_source_refs head; so_source_ref <$> os]);
  candidate ← lift (event_with_state head state (later (ca_available_at head) decision_at) refs);
  repo (append_event candidate (Some (ca_record_hash head))) ≫= λ _,
  mret candidate.

Definition append_review_if_possible (head : CorporateActionRecord) (os : list SourceObservation)
    (decision_at : Z) : Sec CorporateActionRecord :=
  if bool_decide (ca_state head ∈ [Cas.REVIEW_REQUIRED; Cas.EFFECTIVE_PENDING_RECONCILIATION])
  then mret head
  else append_transition head Cas.REVIEW_REQUIRED os decision_at.

Definition apply_confirmation_evaluation (head : CorporateActionRecord) (evaluation : ConfirmationEvaluation)
    (os : list SourceObservation) (decision_at : Z) : Sec CorporateActionRecord :=
  match cv_outcome evaluation with
  | Conf.ENTRY_BLOCKED => mret head
  | Conf.REVIEW_REQUIRED => append_review_if_possible head os decision_at
  | Conf.CONFIRMED =>
      if bool_decide (ca_state head = Cas.CONFIRMED) then mret head
      else if negb (bool_decide (ca_state head = Cas.ENTRY_BLOCKED))
      then throw EIdentityClosure "confirmation cannot bypass the durable entry block"
      else append_transition head Cas.CONFIRMED os decision_at
  end.

(** A lineage still at DETECTED is blocked first. *)
Definition ensure_blocked (event_id : string) (head : CorporateActionRecord) (decision_at : Z) : Sec CorporateActionRecord :=
  if bool_decide (ca_state head = Cas.DETECTED) then
    blocked ← lift (event_with_state head Cas.ENTRY_BLOCKED (later (ca_available_at head) decision_at)
                      (ca_source_refs head));
    repo (append_event blocked (Some (ca_record_hash head))) ≫= λ _,
    lineage ← repo (event_lineage event_id);
    lift (require_head lineage)
  else mret head.

Definition confirm_split (event_id : string) (os : list SourceObservation) (decision_at : Z)
    : Sec CorporateActionRecord :=
  lift (guard_that (event_id_ok event_id) EValueError "event_id must be a canonical event identifier") ≫= λ _,
  check_refs (so_source_ref <$> os) None ≫= λ _,
  result ← transaction (
    validated ← mapM revalidate_observation os;
    lineage ← repo (event_lineage event_id);
    first ← lift (require_head lineage);
    let root := match lineage with root :: _ => root | [] => first end in
    head ← ensure_blocked event_id first decision_at;
    resolution ← identity_resolution_for_event root decision_at;
    (match ir_status resolution, ir_record resolution with
     | Ids.RESOLVED, None =>
         throw EIdentityClosure "identity resolver returned no record for RESOLVED"
     | Ids.RESOLVED, Some identity =>
         if negb (bool_decide (id_hash identity = ca_security_identity_hash root))
         then append_review_if_possible head validated decision_at
         else
           evaluation ← lift (evaluate_confirmation identity_digest action_digest root identity validated decision_at);
           apply_confirmation_evaluation head evaluation validated decision_at
     | _, _ => append_review_if_possible head validated decision_at
     end) ≫= λ _,
    final ← repo (event_lineage event_id);
    lift (require_head final));
  emit (mk_Telemetry "split_confirmation_evaluated" (ca_security_id result)
          (Some (Cas.value (ca_state result))) (Some (ca_record_hash result))) ≫= λ _,
  mret result.

(** ** Quarantine *)

(** [_observation_from_stored_ref] *)
Definition observation_from_stored_ref (ref : SourceRef) (head : CorporateActionRecord) (known_at : Z)
    : Sec SourceObservation :=
  available ← source (λ l, ref_available_at source_digest l ref);
  current ← source (λ l, is_current_at source_digest l ref known_at);
  let auditable := bool_decide (ca_state head = Cas.CONFIRMED) && current in
  let replay := auditable && bool_decide (ref_family ref ∈ official_families) in
  mret (mk_Observation ref available (negb current) auditable
          (if replay then Some (ca_action_type head) else None)
          (if replay then Some (ca_ratio head) else None)
          (if replay then Some (ca_ex_date head) else None)
          (if replay then Some (ca_effective_date head) else None)).

(** The evidence of one event as of the decision, if any row is visible. *)
Definition stored_evidence (event_id : string) (decision_at : Z) : Sec (option EventEvidence) :=
  lineage ← repo (event_lineage event_id);
  let visible := filter (λ row, action_known_at row decision_at = true) lineage in
  match last visible with
  | None => mret None
  | Some head =>
      refs ← lift (merge_refs (ca_source_refs <$> visible));
      os ← mapM (λ ref, observation_from_stored_ref ref head decision_at) refs;
      evidence ← lift (make_EventEvidence action_digest visible os);
      mret (Some evidence)
  end.

Definition quarantine (q : QuarantineQuery) : Sec QuarantineDecision :=
  by_id ← repo (identity_records (Some (qq_security_id q)) None);
  by_symbol ← repo (identity_records None (Some (qq_symbol_as_of q)));
  records ← lift (dedupe_identities (by_id ++ by_symbol));
  mapM (λ r, check_refs (id_source_refs r) None) records ≫= λ _,
  ids ← repo (security_event_ids (qq_security_id q));
  evidence ← mapM (λ e, stored_evidence e (qq_decision_at q)) ids;
  decision ← lift (evaluate_quarantine identity_digest action_digest decision_digest q records (omap id evidence));
  decision ← transaction (
    repo (record_decision decision) ≫= λ _,
    readback ← repo (latest_decision (qd_security_id decision));
    match readback with
    | None => throw ESecurityMasterService "quarantine decision readback did not match the request"
    | Some r =>
        guard_service (bool_decide (with_decision_hash "" r = with_decision_hash "" decision))
          "quarantine decision readback did not match the request" ≫= λ _,
        mret r
    end);
  emit (mk_Telemetry "quarantine_decision" (qd_security_id decision)
          (Some (outcome_value (qd_outcome decision))) (Some (qd_hash decision))) ≫= λ _,
  mret decision.

(** The three seams: a query of another purpose is refused. *)
Definition quarantine_for (purpose : QuarantinePurpose) (q : QuarantineQuery) : Sec QuarantineDecision :=
  lift (guard_that (bool_decide (qq_purpose q = purpose)) EValueError "query purpose must match the seam") ≫= λ _,
  quarantine q.
Definition candidate_creation_check : QuarantineQuery → Sec QuarantineDecision := quarantine_for CANDIDATE_CREATION.
Definition risk_approval_check : QuarantineQuery → Sec QuarantineDecision := quarantine_for RISK_APPROVAL.
Definition submit_recheck : QuarantineQuery → Sec QuarantineDecision := quarantine_for SUBMIT_RECHECK.

(** ** Sessions *)

(** What can happen to the service: its operations, and a record appended to the
    source log by an adapter. *)
Inductive master_op :=
  | OpSource (r : NormalizedSourceRecord)
  | OpRegister (r : SecurityIdentityRecord)
  | OpDiscover (event : CorporateActionRecord)
  | OpConfirm (event_id : string) (os : list SourceObservation) (decision_at : Z)
  | OpQuarantine (purpose : QuarantinePurpose) (q : QuarantineQuery).

Definition append_source (r : NormalizedSourceRecord) : Sec AppendOutcome := λ w,
  match log_append source_digest r (sw_log w) with
  | Ok (o, l) => (Ok o, with_log l w)
  | Raise e => (Raise e, w)
  end.
Definition run_op (op : master_op) (w : SecWorld S) : SecWorld S :=
  match op with
  | OpSource r => (append_source r w).2
  | OpRegister r => (register_identity r w).2
  | OpDiscover event => (discover_split event w).2
  | OpConfirm e os t => (confirm_split e os t w).2
  | OpQuarantine p q => (quarantine_for p q w).2
  end.
Definition run_ops (ops : list master_op) (w : SecWorld S) : SecWorld S := foldl (λ w op, run_op op w) w ops.
End service.
