(* ===== verification/SecurityServiceFacts.v ===== *)
(** * Properties of the security-master service

    Over any repository that keeps its promises: no operation of the service
    removes a row, a discovered split is blocked in the same transaction, and from
    then on the security is never ELIGIBLE at or after the discovery. *)

From S2P Require Import Prelude Dicts Text Orders Calendar Sources Identity IdentityFacts Actions ActionFacts Quarantine QuarantineFacts SourceLog Master SecurityService.
Local Open Scope Z_scope.

Section service.
Context (identity_digest : SecurityIdentityRecord → string).
Context (action_digest : CorporateActionRecord → string).
Context (decision_digest : QuarantineDecision → string).
Context (source_digest : NormalizedSourceRecord → string).
Context (telemetry : option (list SecurityMasterTelemetry → bool)).
Context {S : Type} `{REPO : SecurityMasterRepository S} `{MODEL : SecurityMasterModel S}.
Context {LAWS : SecurityMasterLaws action_digest S}.
Notation Sec := (M (SecWorld S)).
Implicit Types w : SecWorld S.

(** ** Rows are only appended *)

Definition sec_grows w w' : Prop := repo_grows (sw_repo w) (sw_repo w').
#[local] Instance sec_grows_preorder : PreOrder sec_grows.
Proof using Type.
  split; [by intros w|]. intros w1 w2 w3 H1 H2. unfold sec_grows. by trans (sw_repo w2).
Qed.

Notation gr m := (pres sec_grows (m : Sec _)).

Lemma repo_grow {A} (m : M S A) : pres repo_grows m → gr (repo m).
Proof using Type.
  intros Hm w. unfold sec_grows, repo. specialize (Hm (sw_repo w)). by destruct (m (sw_repo w)).
Qed.
Lemma source_grow {A} (f : SourceLog → outcome A) : gr (source f).
Proof using Type. by intros w. Qed.
Lemma emit_grow t : gr (emit telemetry t).
Proof using Type. intros w. unfold emit. by destruct telemetry. Qed.
Lemma transaction_grow {A} (m : Sec A) : gr m → gr (transaction m).
Proof using LAWS.
  intros Hm w. specialize (Hm w). unfold transaction. destruct (m w) as [[a|e] w']; [done|].
  by apply law_rollback.
Qed.
#[local] Hint Resolve source_grow emit_grow : pres.
#[local] Hint Extern 2 (pres sec_grows (repo _)) => apply repo_grow : pres.
#[local] Hint Extern 2 (pres sec_grows (transaction _)) => apply transaction_grow; pres_auto : pres.

Lemma check_refs_grow refs t : gr (check_refs source_digest refs t).
Proof using LAWS. unfold check_refs. pres_auto. Qed.
Lemma guard_service_grow b msg : gr (guard_service b msg).
Proof using LAWS. unfold guard_service. pres_auto. Qed.
#[local] Hint Resolve check_refs_grow guard_service_grow : pres.
Lemma register_identity_grow r : gr (register_identity identity_digest source_digest telemetry r).
Proof using LAWS. unfold register_identity. pres_auto. Qed.
Lemma resolution_grow e t : gr (identity_resolution_for_event identity_digest e t).
Proof using LAWS. unfold identity_resolution_for_event. pres_auto. Qed.
#[local] Hint Resolve resolution_grow : pres.
Lemma pinned_grow e t : gr (require_pinned_identity identity_digest e t).
Proof using LAWS. unfold require_pinned_identity. pres_auto. Qed.
#[local] Hint Resolve pinned_grow : pres.
Lemma discover_split_grow e : gr (discover_split identity_digest action_digest source_digest telemetry e).
Proof using LAWS. unfold discover_split. pres_auto. Qed.
Lemma revalidate_grow o : gr (revalidate_observation source_digest o).
Proof using LAWS. unfold revalidate_observation. pres_auto. Qed.
Lemma append_transition_grow h s os t : gr (append_transition action_digest h s os t).
Proof using LAWS. unfold append_transition. pres_auto. Qed.
#[local] Hint Resolve revalidate_grow append_transition_grow : pres.
Lemma append_review_grow h os t : gr (append_review_if_possible action_digest h os t).
Proof using LAWS. unfold append_review_if_possible. pres_auto. Qed.
#[local] Hint Resolve append_review_grow : pres.
Lemma apply_evaluation_grow h e os t : gr (apply_confirmation_evaluation action_digest h e os t).
Proof using LAWS. unfold apply_confirmation_evaluation. pres_auto. Qed.
Lemma ensure_blocked_grow e h t : gr (ensure_blocked action_digest e h t).
Proof using LAWS. unfold ensure_blocked. pres_auto. Qed.
#[local] Hint Resolve apply_evaluation_grow ensure_blocked_grow : pres.
Lemma confirm_split_grow e os t :
  gr (confirm_split identity_digest action_digest source_digest telemetry e os t).
Proof using LAWS. unfold confirm_split. pres_auto. Qed.
Lemma observation_grow r h t : gr (observation_from_stored_ref source_digest r h t).
Proof using LAWS. unfold observation_from_stored_ref. pres_auto. Qed.
#[local] Hint Resolve observation_grow : pres.
Lemma stored_evidence_grow e t : gr (stored_evidence action_digest source_digest e t).
Proof using LAWS. unfold stored_evidence. pres_auto. Qed.
#[local] Hint Resolve stored_evidence_grow : pres.
Lemma quarantine_grow q :
  gr (quarantine identity_digest action_digest decision_digest source_digest telemetry q).
Proof using LAWS. unfold quarantine. pres_auto. Qed.

#[local] Hint Resolve quarantine_grow : pres.
Lemma quarantine_for_grow p q :
  gr (quarantine_for identity_digest action_digest decision_digest source_digest telemetry p q).
Proof using LAWS. unfold quarantine_for. pres_auto. Qed.

Lemma run_op_grows op w :
  sec_grows w (run_op identity_digest action_digest decision_digest source_digest telemetry op w).
Proof using LAWS.
  destruct op as [r|r|e|e os t|p q]; simpl.
  - unfold append_source. by destruct (log_append _ _ _) as [[o l]|e].
  - apply register_identity_grow.
  - apply discover_split_grow.
  - apply confirm_split_grow.
  - by apply quarantine_for_grow.
Qed.
Lemma run_ops_grows ops w :
  sec_grows w (run_ops identity_digest action_digest decision_digest source_digest telemetry ops w).
Proof using LAWS.
  revert w. induction ops as [|op ops IH]; intros w; simpl; [done|].
  etrans; [apply run_op_grows|apply IH].
Qed.

(** ** A stored row *)

(** The row is in the lineage of its event. *)
Definition stored (r : CorporateActionRecord) w : Prop :=
  repo_inv (sw_repo w) ∧ r ∈ lineage_rows (lineages (sw_repo w)) (ca_event_id r).

Lemma stored_grows r w w' : sec_grows w w' → stored r w → stored r w'.
Proof using LAWS.
  intros Hg [Hi Hr]. destruct (Hg Hi) as [Hi' Hl]. split; [done|]. revert Hr. unfold lineage_rows.
  destruct (_ !! _) as [l|] eqn:E; simpl; [|by intros ?%elem_of_nil]. intros Hr.
  destruct (Hl _ _ E) as [k ->]. simpl. apply elem_of_app. by left.
Qed.
Lemma stored_lineage r w :
  stored r w → ∃ l root head, lineages (sw_repo w) !! ca_event_id r = Some l ∧
    lineage_of action_digest l root head ∧ r ∈ l ∧ ca_event_id root = ca_event_id r.
Proof using LAWS.
  intros [Hi Hr]. unfold lineage_rows in Hr. destruct (_ !! _) as [l|] eqn:E; simpl in Hr; [|by apply elem_of_nil in Hr].
  destruct (law_lineage_valid _ _ _ Hi E) as (root & head & Hl & Hid). exists l, root, head. done.
Qed.

Lemma run_repo {A} (m : M S A) w a w' :
  repo m w = (Ok a, w') → m (sw_repo w) = (Ok a, sw_repo w') ∧ w' = with_repo (sw_repo w') w.
Proof using Type. unfold repo. destruct (m (sw_repo w)) as [o s]. intros H. by simplify_eq/=. Qed.
Lemma run_transaction {A} (m : Sec A) w a w' : transaction m w = (Ok a, w') → m w = (Ok a, w').
Proof using Type. unfold transaction. by destruct (m w) as [[?|?] ?]. Qed.

Lemma appended_stored r p w o w' :
  repo_inv (sw_repo w) → repo (append_event r p) w = (Ok o, w') → stored r w'.
Proof using LAWS.
  intros Hi H. apply run_repo in H as [H _].
  assert (Hi' : repo_inv (sw_repo w')).
  { pose proof (pres_run _ _ _ _ _ (law_append_event r p) H) as Hg. by destruct (Hg Hi). }
  split; [done|]. pose proof (law_event_appended _ _ _ _ _ Hi H) as Ha. unfold appended in Ha.
  destruct o.
  - rewrite Ha. unfold lineage_rows at 1. rewrite lookup_insert_eq. simpl. apply elem_of_app. right. by left.
  - by destruct Ha as [-> ?].
Qed.

(** ** Discovery *)

Lemma event_with_state_spec e s t refs r :
  event_with_state action_digest e s t refs = Ok r →
  ca_event_id r = ca_event_id e ∧ event_facts r = event_facts e ∧ ca_state r = s ∧ ca_available_at r = t ∧
  action_intact action_digest r = true.
Proof using Type.
  unfold event_with_state, build_corporate_action_record. intros ([] & _ & H)%obind_Ok.
  apply obind_Ok in H as ([] & Hc & [= <-]). split; [done|]. split; [done|]. split; [done|]. split; [done|].
  unfold check_CorporateActionRecord in Hc. apply obind_Ok in Hc as ([] & _ & Hc).
  by apply obind_Ok in Hc as ([] & _ & Hc%guard_Ok).
Qed.

(** A discovery that succeeds has stored the event and its block, and the lineage it
    read back starts with the event. *)
Lemma discover_spec event w head w' :
  repo_inv (sw_repo w) →
  discover_split identity_digest action_digest source_digest telemetry event w = (Ok head, w') →
  stored event w' ∧ ∃ blocked, stored blocked w' ∧ ca_event_id blocked = ca_event_id event ∧
    ca_state blocked = Cas.ENTRY_BLOCKED ∧ ca_available_at blocked = ca_available_at event.
Proof using LAWS.
  intros Hi H. unfold discover_split in H.
  apply run_bind in H as ([] & w1 & H1 & H). apply run_lift in H1 as [_ ->].
  apply run_bind in H as ([] & w1 & H1 & H). apply run_lift in H1 as [_ ->].
  apply run_bind in H as ([] & w1 & H1 & H). pose proof (pres_run _ _ _ _ _ (check_refs_grow _ _) H1) as G1.
  apply run_bind in H as ([] & w2 & H2 & H). pose proof (pres_run _ _ _ _ _ (pinned_grow _ _) H2) as G2.
  apply run_bind in H as (h & w3 & H3 & H). apply run_transaction in H3.
  apply run_bind in H as ([] & w4 & H4 & H). apply run_mret in H as [-> ->].
  pose proof (pres_run _ _ _ _ _ (emit_grow _) H4) as G4.
  assert (Hi2 : repo_inv (sw_repo w2)) by (apply G2, G1, Hi).
  apply run_bind in H3 as (o & wa & Ha & H3). pose proof (appended_stored _ _ _ _ _ Hi2 Ha) as Hse.
  apply run_bind in H3 as (blocked & wb & Hb & H3). apply run_lift in Hb as [Hb ->].
  apply run_bind in H3 as (o' & wc & Hc & H3). pose proof (appended_stored _ _ _ _ _ (proj1 Hse) Hc) as Hsb.
  pose proof (pres_run _ _ _ _ _ (repo_grow _ (law_append_event _ _)) Hc) as Gc.
  apply run_bind in H3 as (l & wd & Hd & H3). apply run_lift in H3 as [_ ->].
  pose proof (pres_run _ _ _ _ _ (repo_grow _ (law_event_lineage _)) Hd) as Gd.
  apply event_with_state_spec in Hb as (Hid & _ & Hst & Hav & _).
  assert (G : sec_grows wc w4) by (by trans wd).
  split; [eapply stored_grows; [|exact Hse]; by trans wc|].
  exists blocked. split; [by eapply stored_grows|done].
Qed.

(** ** Quarantine *)

Notation evidence_of e t := (stored_evidence action_digest source_digest e t).

(** The evidence read for an event whose row is visible is valid and holds it. *)
Lemma stored_evidence_spec r w t o w' :
  stored r w → event_id_ok (ca_event_id r) = true → action_known_at r t = true →
  evidence_of (ca_event_id r) t w = (Ok o, w') → ∃ ev, o = Some ev ∧ r ∈ ee_lineage ev.
Proof using LAWS.
  intros Hs Hid Hk H. destruct (stored_lineage _ _ Hs) as (l & root & head & Hl & _ & Hr & _).
  unfold stored_evidence in H. apply run_bind in H as (lineage & w1 & H1 & H). apply run_repo in H1 as [H1 _].
  rewrite (law_lineage_read _ _ (proj1 Hs) Hid) in H1. injection H1 as <- _.
  unfold lineage_rows in H. rewrite Hl in H. simpl in H.
  assert (Hin : r ∈ filter (λ row, action_known_at row t = true) l) by by apply list_elem_of_filter.
  destruct (last _) as [h|] eqn:E; [|apply last_None in E; rewrite E in Hin; by apply elem_of_nil in Hin].
  apply run_bind in H as (refs & w2 & _ & H). apply run_bind in H as (os & w3 & _ & H).
  apply run_bind in H as (ev & w4 & H4 & H). apply run_lift in H4 as [H4 _]. apply run_mret in H as [-> _].
  exists ev. split; [done|]. unfold make_EventEvidence in H4.
  apply obind_Ok in H4 as (? & _ & H4). by apply obind_Ok in H4 as ([] & _ & [= <-]).
Qed.
Lemma stored_evidence_valid e t w ev w' :
  evidence_of e t w = (Ok (Some ev), w') →
  make_EventEvidence action_digest (ee_lineage ev) (ee_observations ev) = Ok ev.
Proof using Type.
  intros H. unfold stored_evidence in H. apply run_bind in H as (lineage & w1 & _ & H).
  destruct (last _) as [h|]; [|by apply run_mret in H as [? _]].
  apply run_bind in H as (refs & w2 & _ & H). apply run_bind in H as (os & w3 & _ & H).
  apply run_bind in H as (ev' & w4 & H4 & H). apply run_lift in H4 as [H4 _]. apply run_mret in H as [[= ->] _].
  assert (Hev := H4). unfold make_EventEvidence in H4.
  apply obind_Ok in H4 as (? & _ & H4). apply obind_Ok in H4 as ([] & _ & [= E]). by rewrite <-E in Hev |- *.
Qed.

(** A decision is the evaluator's, on valid evidence, up to its hash. *)
Lemma quarantine_evaluates q w d w' :
  quarantine identity_digest action_digest decision_digest source_digest telemetry q w = (Ok d, w') →
  ∃ records evidence d' w1 w2,
    mapM (λ e, evidence_of e (qq_decision_at q)) (evidence.*1) w1 = (Ok (evidence.*2), w2) ∧
    sec_grows w w1 ∧
    (repo_inv (sw_repo w) → ∀ e, e ∈ evidence.*1 ↔ ∃ l row, lineages (sw_repo w1) !! e = Some l ∧ row ∈ l ∧
       ca_security_id row = qq_security_id q) ∧
    evaluate_quarantine identity_digest action_digest decision_digest q records (omap id (evidence.*2)) = Ok d' ∧
    qd_outcome d = qd_outcome d'.
Proof using LAWS.
  intros H. unfold quarantine in H.
  apply run_bind in H as (r1 & w1 & H1 & H). pose proof (pres_run _ _ _ _ _ (repo_grow _ (law_identity_records _ _)) H1) as G1.
  apply run_bind in H as (r2 & w2 & H2 & H). pose proof (pres_run _ _ _ _ _ (repo_grow _ (law_identity_records _ _)) H2) as G2.
  apply run_bind in H as (records & w3 & H3 & H). apply run_lift in H3 as [_ ->].
  apply run_bind in H as (us & w4 & H4 & H).
  assert (G4 : sec_grows w2 w4).
  { refine (pres_run _ _ _ _ _ _ H4). apply pres_mapM; [apply _|]. intros r. apply check_refs_grow. }
  apply run_bind in H as (ids & w5 & H5 & H). apply run_repo in H5 as [H5 E5].
  apply run_bind in H as (evs & w6 & H6 & H). apply run_bind in H as (d' & w7 & H7 & H). apply run_lift in H7 as [H7 ->].
  apply run_bind in H as (d'' & w8 & H8 & H). apply run_transaction in H8.
  apply run_bind in H as ([] & w9 & _ & H). apply run_mret in H as [-> _].
  assert (G : sec_grows w w4) by (trans w1; [done|]; by trans w2).
  exists records, (zip ids evs), d', w5, w6.
  assert (Hlen : length ids = length evs) by by eapply run_mapM_length.
  rewrite fst_zip, snd_zip by lia. split; [done|].
  pose proof (pres_run _ _ _ _ _ (law_security_event_ids _) H5) as G5.
  split; [by trans w4|]. split.
  - intros Hi. destruct (law_event_ids_read (sw_repo w4) (qq_security_id q)) as (ids' & Hids & Hall).
    { by apply G. }
    rewrite Hids in H5. injection H5 as Ei Er. rewrite <-Er, <-Ei. exact Hall.
  - split; [done|]. apply run_bind in H8 as (o & wa & _ & H8). apply run_bind in H8 as (rb & wb & _ & H8).
    destruct rb as [rb|]; [|done]. apply run_bind in H8 as ([] & wc & Hc & H8).
    apply run_lift in Hc as [Hc%guard_Ok%bool_decide_eq_true _]. apply run_mret in H8 as [-> _].
    unfold with_decision_hash in Hc. by injection Hc.
Qed.

Lemma quarantine_stops q w d w' r :
  stored r w → event_id_ok (ca_event_id r) = true → ca_security_id r = qq_security_id q →
  action_known_at r (qq_decision_at q) = true →
  quarantine identity_digest action_digest decision_digest source_digest telemetry q w = (Ok d, w') →
  qd_outcome d ≠ ELIGIBLE.
Proof using LAWS.
  intros Hs Hok Hsec Hk H. apply quarantine_evaluates in H as (records & evidence & d' & w1 & w2 & Hm & G & Hids & He & ->).
  pose proof (stored_grows _ _ _ G Hs) as Hs1. destruct (stored_lineage _ _ Hs1) as (l & root & head & Hl & _ & Hr & _).
  assert (Hin : ca_event_id r ∈ evidence.*1) by (apply (Hids (proj1 Hs)); by exists l, r).
  destruct (run_mapM sec_grows _ _ _ _ _ _ (λ e, stored_evidence_grow e _) Hm Hin) as (o & wa & wb & Ho & Hrun & Ga).
  destruct (stored_evidence_spec _ _ _ _ _ (stored_grows _ _ _ Ga Hs1) Hok Hk Hrun) as (ev & -> & Hev).
  assert (Hvalid : ∀ ev, ev ∈ omap id (evidence.*2) →
    make_EventEvidence action_digest (ee_lineage ev) (ee_observations ev) = Ok ev).
  { intros ev' (o' & Ho' & Eo)%list_elem_of_omap. simpl in Eo. subst o'.
    destruct (run_mapM_elem _ _ _ _ _ _ Hm Ho') as (e & wc & wd & _ & Hrun'). by eapply stored_evidence_valid. }
  destruct (evaluate_spec _ _ _ _ _ _ _ Hvalid He) as [Helig _]. rewrite Helig.
  intros Hsafe. pose proof (se_events _ _ _ _ Hsafe ev r) as Hno. rewrite Hk in Hno. discriminate Hno; [|done|done].
  apply list_elem_of_omap. by exists (Some ev).
Qed.
End service.

(** C10. A discovered split blocks entries for good.  Over any repository that keeps
    its promises, once the service has accepted the discovery of a split, whatever is
    registered, discovered, confirmed, decided or appended to the source log
    afterwards, and whatever telemetry does, every decision the service returns for
    the security at or after the discovery is not ELIGIBLE. *)
Theorem split_blocks_entry identity_digest action_digest decision_digest source_digest telemetry
    {S : Type} `{REPO : SecurityMasterRepository S} `{MODEL : SecurityMasterModel S}
    `{!SecurityMasterLaws action_digest S} event (w w1 w3 : SecWorld S) head ops purpose q d :
  repo_inv (sw_repo w) →
  check_CorporateActionRecord action_digest event = Ok () →
  discover_split identity_digest action_digest source_digest telemetry event w = (Ok head, w1) →
  quarantine_for identity_digest action_digest decision_digest source_digest telemetry purpose q
    (run_ops identity_digest action_digest decision_digest source_digest telemetry ops w1) = (Ok d, w3) →
  qq_security_id q = ca_security_id event → ca_available_at event <= qq_decision_at q →
  qd_outcome d ≠ ELIGIBLE.
Proof.
  intros Hi Hck Hd Hq Hsec Hav. destruct (discover_spec _ _ _ _ _ _ _ _ Hi Hd) as [Hs _].
  unfold quarantine_for in Hq. apply run_bind in Hq as ([] & w2 & H1 & Hq). apply run_lift in H1 as [_ ->].
  refine (quarantine_stops _ _ _ _ _ q _ d w3 event _ _ (eq_sym Hsec) _ Hq).
  - exact (stored_grows _ event _ _ (run_ops_grows _ _ _ _ _ ops w1) Hs).
  - unfold check_CorporateActionRecord, validate_action_fields in Hck.
    apply obind_Ok in Hck as ([] & Hck & _). by apply obind_Ok in Hck as ([] & Hck%guard_Ok & _).
  - unfold action_known_at. lia.
Qed.
