(* ===== verification/DiscoveryFacts.v ===== *)
(** * A discovery is accepted, and a session over the in-memory repository

    When nothing is wrong with a discovered split the service does record it and its
    block: safety is not obtained by refusing everything. *)

From S2P Require Import Prelude Dicts Text Orders Calendar Sources Identity IdentityFacts Actions ActionFacts Quarantine QuarantineFacts SourceLog Master InMemoryFacts SecurityService SecurityServiceFacts.
Local Open Scope Z_scope.

Lemma run_bind_intro {W A B} (m : M W A) (f : A → M W B) w a w1 r :
  m w = (Ok a, w1) → f a w1 = r → (m ≫= f) w = r.
Proof. intros Hm Hf. unfold mbind, M_bind. by rewrite Hm. Qed.

Lemma run_transaction_intro {S A} `{SecurityMasterRepository S} (m : M (SecWorld S) A) w a w' :
  m w = (Ok a, w') → transaction m w = (Ok a, w').
Proof. intros E. unfold transaction. by rewrite E. Qed.

Section progress.
Context (identity_digest : SecurityIdentityRecord → string).
Context (action_digest : CorporateActionRecord → string).
Context (decision_digest : QuarantineDecision → string).
Context (source_digest : NormalizedSourceRecord → string).
Context (telemetry : option (list SecurityMasterTelemetry → bool)).
Notation REPO := (in_memory_repository identity_digest action_digest decision_digest).
Implicit Types (s : InMemorySecurityMaster) (w : SecWorld InMemorySecurityMaster).

(** The block of a discovered event, before its hash. *)
Definition block_of (event : CorporateActionRecord) : CorporateActionRecord :=
  with_state event Cas.ENTRY_BLOCKED (ca_available_at event) (ca_source_refs event).
Definition blocked_row (event : CorporateActionRecord) : CorporateActionRecord :=
  with_action_hash (action_digest (block_of event)) (block_of event).

(** Everything a discovery needs. *)
Record discoverable (event : CorporateActionRecord) w (records : list SecurityIdentityRecord)
    (identity : SecurityIdentityRecord) : Prop := {
  dc_checked : check_CorporateActionRecord action_digest event = Ok ();
  dc_detected : ca_state event = Cas.DETECTED;
  dc_sources : is_Ok (validate_refs source_digest (sw_log w) (ca_source_refs event) (Some (ca_available_at event))) = true;
  dc_records : im_identity_records identity_digest (Some (ca_security_id event)) None (sw_repo w) = Ok records;
  dc_resolved : resolve_identity identity_digest records
      (mk_IdentityQuery (date_start (ca_ex_date event)) (ca_available_at event) (Some (ca_security_id event)) None)
    = Ok (mk_Resolution Ids.RESOLVED (Some identity));
  dc_pinned : id_hash identity = ca_security_identity_hash event;
  dc_stored : im_identity_by_hash (sw_repo w) !! id_hash identity = Some identity;
  dc_fresh : im_event_heads (sw_repo w) !! ca_event_id event = None;
  dc_hashes : im_event_by_hash (sw_repo w) !! ca_record_hash event = None ∧
    im_event_by_hash (sw_repo w) !! action_digest (block_of event) = None ∧
    action_digest (block_of event) ≠ ca_record_hash event;
  dc_digest : is_digest (action_digest (block_of event)) = true;
}.

Lemma blocked_checked event :
  check_CorporateActionRecord action_digest event = Ok () → is_digest (action_digest (block_of event)) = true →
  event_with_state action_digest event Cas.ENTRY_BLOCKED (ca_available_at event) (ca_source_refs event) =
    Ok (blocked_row event) ∧ action_intact action_digest (blocked_row event) = true ∧
  validate_transition action_digest event (blocked_row event) =
    guard_that (bool_decide (ca_state event = Cas.DETECTED)) EIllegalTransition "illegal corporate-action transition".
Proof using Type.
  intros Hck Hdig. assert (Hck' := Hck). unfold check_CorporateActionRecord in Hck.
  apply obind_Ok in Hck as ([] & Hf & Hck). apply obind_Ok in Hck as ([] & _ & Hi%guard_Ok).
  assert (Hb : action_intact action_digest (blocked_row event) = true).
  { unfold action_intact, action_compute_hash. by rewrite bool_decide_true. }
  split; [|split; [done|]].
  - unfold event_with_state, build_corporate_action_record. fold (block_of event).
    assert (Hfb : validate_action_fields (block_of event) = Ok ()) by exact Hf. rewrite Hfb.
    cbn [mbind outcome_bind]. fold (blocked_row event).
    change (with_action_hash (action_compute_hash action_digest (block_of event)) (block_of event)) with (blocked_row event).
    unfold check_CorporateActionRecord. change (validate_action_fields (blocked_row event)) with (validate_action_fields event).
    rewrite Hf. cbn [mbind outcome_bind]. change (ca_record_hash (blocked_row event)) with (action_digest (block_of event)).
    rewrite Hdig. cbn [guard_that mbind outcome_bind]. unfold verify_action. by rewrite Hb.
  - unfold validate_transition, verify_action. rewrite Hi, Hb. cbn [guard_that mbind outcome_bind].
    rewrite !bool_decide_true by done. cbn [guard_that mbind outcome_bind].
    change (ca_state (blocked_row event)) with Cas.ENTRY_BLOCKED.
    change (ca_available_at (blocked_row event)) with (ca_available_at event).
    rewrite Z.ltb_irrefl. by destruct (ca_state event).
Qed.

Section appends.
Context (event : CorporateActionRecord) w (records : list SecurityIdentityRecord) (identity : SecurityIdentityRecord).
Context (Hd : discoverable event w records identity) (Hi : im_inv action_digest (sw_repo w)).
#[local] Notation s := (sw_repo w).
#[local] Notation s1 := (put_event s event None).
#[local] Notation s2 := (put_event s1 (blocked_row event) (Some (ca_record_hash event))).

Lemma event_intact : action_intact action_digest event = true ∧ is_digest (ca_record_hash event) = true ∧
  event_id_ok (ca_event_id event) = true.
Proof using Hd.
  pose proof (dc_checked _ _ _ _ Hd) as Hck. unfold check_CorporateActionRecord, validate_action_fields in Hck.
  apply obind_Ok in Hck as ([] & Hf & Hck). apply obind_Ok in Hck as ([] & Hh%guard_Ok & Hv%guard_Ok).
  by apply obind_Ok in Hf as ([] & Hid%guard_Ok & _).
Qed.
Lemma identity_of_event : id_security identity = ca_security_id event.
Proof using Hd.
  destruct (resolved_elem _ _ _ _ (dc_resolved _ _ _ _ Hd)) as (_ & Hm & _).
  by apply bool_decide_eq_true in Hm.
Qed.

Lemma append_root : im_append_event action_digest event None s = Ok (APPENDED, s1).
Proof using Hd.
  destruct event_intact as (Hint & _ & _), (dc_hashes _ _ _ _ Hd) as (Hn & _ & _).
  unfold im_append_event, verify_action. rewrite Hint. cbn [guard_that mbind outcome_bind].
  rewrite <-(dc_pinned _ _ _ _ Hd). rewrite (dc_stored _ _ _ _ Hd), bool_decide_true by apply identity_of_event.
  cbn [guard_master guard_that mbind outcome_bind]. rewrite Hn.
  unfold check_predecessor. rewrite decide_True by apply (dc_detected _ _ _ _ Hd).
  rewrite (dc_fresh _ _ _ _ Hd). by rewrite !bool_decide_false by by intros [].
Qed.
Lemma append_block : im_append_event action_digest (blocked_row event) (Some (ca_record_hash event)) s1 = Ok (APPENDED, s2).
Proof using Hd.
  destruct event_intact as (_ & Hdig & _), (dc_hashes _ _ _ _ Hd) as (_ & Hn & Hne).
  destruct (blocked_checked event (dc_checked _ _ _ _ Hd) (dc_digest _ _ _ _ Hd)) as (_ & Hint & Ht).
  rewrite (dc_detected _ _ _ _ Hd) in Ht.
  unfold im_append_event, verify_action. rewrite Hint, Hdig. cbn [guard_that mbind outcome_bind].
  change (ca_security_identity_hash (blocked_row event)) with (ca_security_identity_hash event).
  change (ca_security_id (blocked_row event)) with (ca_security_id event).
  change (im_identity_by_hash s1) with (im_identity_by_hash (sw_repo w)).
  rewrite <-(dc_pinned _ _ _ _ Hd), (dc_stored _ _ _ _ Hd), bool_decide_true by apply identity_of_event.
  cbn [guard_master guard_that mbind outcome_bind].
  change (ca_record_hash (blocked_row event)) with (action_digest (block_of event)).
  change (im_event_by_hash s1) with (<[ca_record_hash event := event]> (im_event_by_hash (sw_repo w))).
  rewrite lookup_insert_ne by done. rewrite Hn. unfold check_predecessor.
  change (ca_state (blocked_row event)) with Cas.ENTRY_BLOCKED. cbn [decide].
  rewrite decide_False by done. change (ca_event_id (blocked_row event)) with (ca_event_id event).
  change (im_event_heads s1) with (<[ca_event_id event := ca_record_hash event]> (im_event_heads (sw_repo w))).
  rewrite lookup_insert_eq, bool_decide_true by done. cbn [guard_that mbind outcome_bind].
  change (im_event_by_hash s1) with (<[ca_record_hash event := event]> (im_event_by_hash (sw_repo w))).
  rewrite lookup_insert_eq, Ht. done.
Qed.

Lemma blocked_rows : im_inv action_digest s2 ∧ rows_of s2 (ca_event_id event) = [event; blocked_row event].
Proof using Hd Hi.
  destruct (append_event_spec _ _ _ _ _ _ Hi append_root) as [Hi1 Hr1].
  destruct (append_event_spec _ _ _ _ _ _ Hi1 append_block) as [Hi2 Hr2]. split; [done|].
  unfold rows_of. rewrite Hr2, Hr1, !filter_app.
  assert (Hnone : filter (λ r, ca_event_id r = ca_event_id event) (all_rows s) = []).
  { pose proof (iv_head _ _ Hi (ca_event_id event)) as Hh.  rewrite (dc_fresh _ _ _ _ Hd) in Hh.
    fold (rows_of s (ca_event_id event)). destruct (last _) as [h|] eqn:E; [by destruct Hh|]. by apply last_None in E. }
  rewrite Hnone. rewrite !filter_cons_True by done. done.
Qed.
End appends.

(** C13. A discovery with nothing wrong is accepted: when the event is valid and its
    sources are available, its pinned version is what the security resolves to, and
    the event and its rows are new, [discover_split] succeeds, returns the block, and
    leaves exactly the event and its block as the lineage of the event. *)
Theorem discovery_blocks event w records identity :
  im_inv action_digest (sw_repo w) → discoverable event w records identity →
  ∃ w', @discover_split identity_digest action_digest source_digest telemetry _ REPO event w =
      (Ok (blocked_row event), w') ∧
    ca_state (blocked_row event) = Cas.ENTRY_BLOCKED ∧
    im_lineages (sw_repo w') !! ca_event_id event = Some [event; blocked_row event].
Proof using Type.
  intros Hi Hd. destruct (event_intact _ _ _ _ Hd) as (Hint & _ & Hid).
  destruct (blocked_rows _ _ _ _ Hd Hi) as [Hi2 Hrows]. set (s2 := put_event _ _ _) in *.
  destruct (blocked_checked event (dc_checked _ _ _ _ Hd) (dc_digest _ _ _ _ Hd)) as (Hbuilt & _ & _).
  set (t := mk_Telemetry "split_discovery_blocked" (ca_security_id (blocked_row event))
              (Some (Cas.value (ca_state (blocked_row event)))) (Some (ca_record_hash (blocked_row event)))).
  exists (emit telemetry t (with_repo s2 w)).2.
  split; [|split; [done|]].
  2: { assert (E : sw_repo (emit telemetry t (with_repo s2 w)).2 = s2) by (unfold emit; by destruct telemetry).
       rewrite E. by apply lineages_lookup. }
  unfold discover_split.
  eapply run_bind_intro; [unfold lift; by rewrite bool_decide_true by apply (dc_detected _ _ _ _ Hd)|].
  eapply run_bind_intro; [unfold lift, verify_action; by rewrite Hint|].
  destruct (validate_refs source_digest (sw_log w) (ca_source_refs event) (Some (ca_available_at event))) as [rs|] eqn:Ers;
    [|by pose proof (dc_sources _ _ _ _ Hd) as Hso; rewrite Ers in Hso].
  eapply run_bind_intro.
  { unfold check_refs, source. eapply run_bind_intro; [by rewrite Ers|done]. }
  eapply run_bind_intro.
  { unfold require_pinned_identity, identity_resolution_for_event. eapply run_bind_intro.
    - eapply run_bind_intro; [unfold repo; simpl; unfold reading; by rewrite (dc_records _ _ _ _ Hd)|].
      unfold lift, make_IdentityQuery, check_IdentityQuery. simpl. by rewrite (dc_resolved _ _ _ _ Hd).
    - simpl. unfold lift. by rewrite bool_decide_true by apply (dc_pinned _ _ _ _ Hd). }
  eapply run_bind_intro.
  { apply run_transaction_intro. eapply run_bind_intro.
    - unfold repo. simpl. unfold atomically. by rewrite (append_root _ _ _ _ Hd).
    - eapply run_bind_intro; [unfold lift; by rewrite Hbuilt|].
      eapply run_bind_intro; [unfold repo; simpl; unfold atomically; by rewrite (append_block _ _ _ _ Hd)|].
      eapply run_bind_intro; [exact (f_equal (λ o, (o, with_repo s2 w)) (lineage_read action_digest s2 _ Hi2 Hid))|].
      unfold lift. by rewrite Hrows. }
  eapply run_bind_intro; [|done]. fold t. destruct w as [l r e n]. unfold emit. by destruct telemetry.
Qed.
End progress.

(** ** A session *)

Definition demo_source_digest (r : NormalizedSourceRecord) : string :=
  demo_hex64 (if bool_decide (nr_record_id r = "assets-1") then 7 else 8).
Definition demo_source (id : string) (family : P4SourceFamily) : NormalizedSourceRecord :=
  let r := mk_SourceRecord id family "announcements" "1.0.0" (demo_hex64 1) "" 0 "{}" false None None
    (Some 0) None None None None in
  with_record_hash (source_compute_hash demo_source_digest r) r.

(** The digests and the repository of the session. *)
#[local] Notation REPO := (in_memory_repository demo_identity_digest demo_action_digest demo_decision_digest).
#[local] Notation MODEL := (in_memory_model demo_action_digest).
#[local] Notation LAWS := (in_memory_laws demo_identity_digest demo_action_digest demo_decision_digest).
Definition demo_run (ops : list master_op) (w : SecWorld InMemorySecurityMaster) : SecWorld InMemorySecurityMaster :=
  @run_ops demo_identity_digest demo_action_digest demo_decision_digest demo_source_digest (Some (λ _, true))
    _ REPO ops w.

(** Two sources and the listing. *)
Definition demo_setup : list master_op :=
  [OpSource (demo_source "assets-1" ALPACA_ASSETS); OpSource (demo_source "notice-1" SEC_EDGAR);
   OpRegister (demo_listing "NEW" 50 None 20)].
Definition demo_world : SecWorld InMemorySecurityMaster :=
  Eval vm_compute in demo_run demo_setup (mk_SecWorld empty_log empty_master [] 0).
(** The notice confirms the split officially, and the split is confirmed. *)
Definition demo_later : list master_op :=
  [OpConfirm "split-1" [demo_observation true] 2000; OpSource (demo_source "notice-1" SEC_EDGAR)].
Definition demo_discovered : SecWorld InMemorySecurityMaster :=
  Eval vm_compute in demo_run [OpDiscover (demo_split Cas.DETECTED 1000)] demo_world.

Example demo_confirmed :
  ca_state <$> lineage_rows (im_lineages (sw_repo (demo_run demo_later demo_discovered))) "split-1" =
  [Cas.DETECTED; Cas.ENTRY_BLOCKED; Cas.CONFIRMED].
Proof. by vm_compute. Qed.

Lemma demo_world_inv : im_inv demo_action_digest (sw_repo demo_world).
Proof.
  pose proof (@run_ops_grows demo_identity_digest demo_action_digest demo_decision_digest demo_source_digest
    (Some (λ _, true)) _ REPO MODEL LAWS demo_setup (mk_SecWorld empty_log empty_master [] 0)) as Hg.
  destruct (Hg (inv_empty demo_action_digest)) as [Hi _].
  assert (E : demo_world = demo_run demo_setup (mk_SecWorld empty_log empty_master [] 0)) by (vm_compute; reflexivity).
  rewrite E. exact Hi.
Qed.

Lemma demo_discoverable :
  discoverable demo_identity_digest demo_action_digest demo_source_digest (demo_split Cas.DETECTED 1000) demo_world
    [demo_listing "NEW" 50 None 20] (demo_listing "NEW" 50 None 20).
Proof. split; try by vm_compute. Qed.

Lemma discovery_blocks_witness :
  ∃ w', @discover_split demo_identity_digest demo_action_digest demo_source_digest (Some (λ _, true))
      _ REPO (demo_split Cas.DETECTED 1000) demo_world =
      (Ok (blocked_row demo_action_digest (demo_split Cas.DETECTED 1000)), w').
Proof.
  destruct (discovery_blocks demo_identity_digest demo_action_digest demo_decision_digest demo_source_digest
    (Some (λ _, true)) (demo_split Cas.DETECTED 1000) demo_world [demo_listing "NEW" 50 None 20]
    (demo_listing "NEW" 50 None 20) demo_world_inv demo_discoverable) as (w' & H & _).
  exists w'. exact H.
Defined.

(** What the confirmed split does to an entry. *)
Definition demo_verdict : outcome QuarantineDecision * SecWorld InMemorySecurityMaster :=
  Eval vm_compute in
    @quarantine_for demo_identity_digest demo_action_digest demo_decision_digest demo_source_digest
      (Some (λ _, true)) _ REPO CANDIDATE_CREATION (demo_entry 3000) (demo_run demo_later demo_discovered).
Definition demo_stopped : QuarantineDecision :=
  mk_Decision "abcdef01-demo" "NEW" (master_version_for (demo_listing "NEW" 50 None 20)) 3000 ENTRY_BLOCKED
    [SPLIT_DETECTED] ["split-1"]
    [mk_SourceRef "assets-1" ALPACA_ASSETS (demo_hex64 7); demo_notice] (demo_hex64 3000).

Lemma split_blocks_entry_witness : qd_outcome demo_stopped ≠ ELIGIBLE.
Proof.
  apply (@split_blocks_entry demo_identity_digest demo_action_digest demo_decision_digest demo_source_digest
    (Some (λ _, true)) _ REPO MODEL LAWS (demo_split Cas.DETECTED 1000) demo_world demo_discovered demo_verdict.2
    (demo_split Cas.ENTRY_BLOCKED 1000) demo_later CANDIDATE_CREATION (demo_entry 3000) demo_stopped demo_world_inv).
  - vm_compute. reflexivity.
  - vm_compute. reflexivity.
  - vm_compute. reflexivity.
  - by vm_compute.
  - by vm_compute.
Defined.

(** A decision read back is the latest of the security: after a decision at 3000 the
    same query as of an earlier instant is refused. *)
Example demo_replay_refused :
  match (@quarantine_for demo_identity_digest demo_action_digest demo_decision_digest demo_source_digest
      (Some (λ _, true)) _ REPO CANDIDATE_CREATION (demo_entry 60) demo_verdict.2).1 with
  | Raise e => exn_cls e = ESecurityMasterService ∧
      exn_msg e = "quarantine decision readback did not match the request"
  | Ok _ => False
  end.
Proof. by vm_compute. Qed.
