(* ===== verification/Universe.v ===== *)
(** * Universe snapshots: [universe/contracts.py], [screening/reasons.py]

    The monthly universe of securities that were considered, each with its
    eligibility and the closed reason of its exclusion.  Digests are data; the
    byte bound of the serialized snapshot is not modelled. *)

From S2P Require Import Prelude Text Calendar Sources Actions Quarantine.
Local Open Scope Z_scope.

Inductive ClosedReason :=
  | UNSUPPORTED_ASSET_CLASS | OTC_OR_EXCLUDED_INSTRUMENT | NOT_ACTIVE_OR_TRADABLE
  | PRICE_BELOW_MINIMUM | ADV_BELOW_MINIMUM | INSUFFICIENT_TRADING_HISTORY | IDENTITY_NOT_CLOSED
  | CORPORATE_ACTION_QUARANTINE | QUOTE_MISSING_OR_STALE | SPREAD_TOO_WIDE | MARKET_DATA_CONFLICT
  | REASON_FACTOR_INPUT_MISSING | REASON_FACTOR_MANIFEST_NOT_APPROVED
  | REASON_SECTOR_TAXONOMY_NOT_AUTHORIZED | CLUSTER_POLICY_NOT_APPROVED
  | EVIDENCE_INSUFFICIENT_OR_CONFLICTING | WINDOW_OR_DEADLINE_INVALID.
#[global] Instance ClosedReason_eq_dec : EqDecision ClosedReason.
Proof. solve_decision. Defined.

(** The position of a reason in its enumeration. *)
Definition reason_index (r : ClosedReason) : Z :=
  match r with
  | UNSUPPORTED_ASSET_CLASS => 0 | OTC_OR_EXCLUDED_INSTRUMENT => 1 | NOT_ACTIVE_OR_TRADABLE => 2
  | PRICE_BELOW_MINIMUM => 3 | ADV_BELOW_MINIMUM => 4 | INSUFFICIENT_TRADING_HISTORY => 5
  | IDENTITY_NOT_CLOSED => 6 | CORPORATE_ACTION_QUARANTINE => 7 | QUOTE_MISSING_OR_STALE => 8
  | SPREAD_TOO_WIDE => 9 | MARKET_DATA_CONFLICT => 10 | REASON_FACTOR_INPUT_MISSING => 11
  | REASON_FACTOR_MANIFEST_NOT_APPROVED => 12 | REASON_SECTOR_TAXONOMY_NOT_AUTHORIZED => 13
  | CLUSTER_POLICY_NOT_APPROVED => 14 | EVIDENCE_INSUFFICIENT_OR_CONFLICTING => 15
  | WINDOW_OR_DEADLINE_INVALID => 16
  end.

(** Whole-share feasibility is always NOT_EVALUATED here and is left out. *)
Record UniverseEntry := mk_Entry {
  ue_security_id : string;
  ue_symbol : string;
  ue_eligible : bool;
  ue_reason : option ClosedReason;
  ue_identity_hash : option string;
  ue_master_version : option string;
  ue_market_snapshot_hash : option string;
  ue_quarantine_decision_hash : option string;
  ue_quarantine_event_ids : list string;
}.

(** [^p4b\.securities\.v1:[0-9a-f]{64}$] *)
Definition master_version_ok (s : string) : bool :=
  fullmatch (m_seq (m_lit "p4b.securities.v1:") (m_times is_hex 64)) s.
Definition digest_or_none (o : option string) : bool :=
  match o with Some h => is_digest h | None => true end.
(** [l == tuple(sorted(set(l)))] for texts. *)
Definition sorted_texts (l : list string) : bool :=
  bool_decide (l = sort_by String.leb l) && bool_decide (NoDup l).
Definition check_UniverseEntry (e : UniverseEntry) : outcome unit :=
  guard_that (negb (ue_eligible e && bool_decide (is_Some (ue_reason e)))) EValueError
    "eligible entries must have a null reason" ≫= λ _,
  guard_that (ue_eligible e || bool_decide (is_Some (ue_reason e))) EValueError
    "ineligible entries must have a non-null reason" ≫= λ _,
  guard_that (negb (ue_eligible e) ||
              bool_decide (is_Some (ue_identity_hash e) ∧ is_Some (ue_master_version e) ∧
                           is_Some (ue_market_snapshot_hash e))) EValueError
    "eligible entries require closed identity and market references" ≫= λ _,
  guard_that (digest_or_none (ue_identity_hash e)) EValueError
    "identity_hash must be a SHA-256 digest or None" ≫= λ _,
  guard_that (match ue_master_version e with Some v => master_version_ok v | None => true end)
    EValueError "master_version must be the bounded P4-B version or None" ≫= λ _,
  guard_that (digest_or_none (ue_market_snapshot_hash e)) EValueError
    "market_snapshot_hash must be a SHA-256 digest or None" ≫= λ _,
  guard_that (digest_or_none (ue_quarantine_decision_hash e)) EValueError
    "quarantine_decision_hash must be a SHA-256 digest or None" ≫= λ _,
  guard_that (forallb (λ i, negb (bool_decide (i = ""))) (ue_quarantine_event_ids e)) EValueError
    "quarantine_event_ids must be a tuple of non-empty strings" ≫= λ _,
  guard_that (sorted_texts (ue_quarantine_event_ids e)) EValueError
    "quarantine_event_ids must be sorted and unique" ≫= λ _,
  guard_that (negb (bool_decide (ue_quarantine_decision_hash e = None) &&
                    negb (bool_decide (ue_quarantine_event_ids e = [])))) EValueError
    "quarantine event ids require a decision hash" ≫= λ _,
  guard_that (negb (ue_eligible e && bool_decide (ue_quarantine_decision_hash e = None))) EValueError
    "eligible entries require a quarantine decision reference" ≫= λ _,
  guard_that (length (ue_quarantine_event_ids e) <=? MAX_EVENT_LINEAGES)%nat EValueError
    "quarantine_event_ids exceed the P4-B event bound" ≫= λ _,
  guard_that (forallb record_id_ok (ue_quarantine_event_ids e)) EValueError
    "quarantine_event_ids require canonical event identifiers".

Record UniverseSnapshot := mk_Universe {
  un_as_of : Z;
  un_known_at : Z;
  un_security_master_version : string;
  un_market_snapshot_refs : list string;
  un_entries : list UniverseEntry;
  un_policy_hash : string;
  un_hash : string;
}.

Definition MAX_UNIVERSE_SNAPSHOT_ITEMS : Z := 10000.

Definition check_UniverseSnapshot (u : UniverseSnapshot) : outcome unit :=
  let known_date := utc_date (un_known_at u) in
  guard_that (bool_decide (year_month known_date = year_month (un_as_of u)) &&
              (un_as_of u <=? known_date)) EValueError
    "universe known_at must be on or after the first open session" ≫= λ _,
  guard_that (master_version_ok (un_security_master_version u)) EValueError
    "security_master_version must be the bounded P4-B version" ≫= λ _,
  guard_that (Z.of_nat (length (un_market_snapshot_refs u)) <=? MAX_UNIVERSE_SNAPSHOT_ITEMS)
    EValueError "market_snapshot_refs exceed the universe snapshot item bound" ≫= λ _,
  guard_that (forallb is_digest (un_market_snapshot_refs u)) EValueError
    "market_snapshot_refs must contain SHA-256 digests" ≫= λ _,
  guard_that (sorted_texts (un_market_snapshot_refs u)) EValueError
    "market_snapshot_refs must be sorted and unique" ≫= λ _,
  guard_that (Z.of_nat (length (un_entries u)) <=? MAX_UNIVERSE_SNAPSHOT_ITEMS) EValueError
    "entries must be a bounded tuple of UniverseEntry values" ≫= λ _,
  let ids := ue_security_id <$> un_entries u in
  guard_that (bool_decide (ids = sort_by String.leb ids)) EValueError
    "entries must be sorted by canonical security id" ≫= λ _,
  guard_that (bool_decide (NoDup ids)) EValueError "entries must not repeat a security" ≫= λ _,
  guard_that (is_digest (un_policy_hash u)) EValueError "policy_hash must be a SHA-256 digest" ≫= λ _,
  guard_that (is_digest (un_hash u)) EValueError "universe_hash must be a SHA-256 digest".

Definition eligible_entries (u : UniverseSnapshot) : list UniverseEntry :=
  filter (λ e, ue_eligible e = true) (un_entries u).
Definition ineligible_entries (u : UniverseSnapshot) : list UniverseEntry :=
  filter (λ e, ue_eligible e = false) (un_entries u).

(** [{entry.security_id: entry for entry in eligible_entries}] *)
Definition eligible_by_id (u : UniverseSnapshot) : gmap string UniverseEntry :=
  list_to_map (reverse ((λ e, (ue_security_id e, e)) <$> eligible_entries u)).

(** [_validate_universe_available_for_cutoff] *)
Definition validate_universe_cutoff (u : UniverseSnapshot) (cutoff : Z) : outcome unit :=
  guard_that (bool_decide (year_month (un_as_of u) = year_month (utc_date cutoff)) &&
              (un_as_of u <=? utc_date cutoff)) EValueError
    "universe month does not match screening cutoff" ≫= λ _,
  guard_that (un_known_at u <=? cutoff) EValueError
    "universe was not available by screening cutoff".
