(* ===== verification/Market.v ===== *)
(** * Market data: [market_data/snapshots.py]

    Decimals from the text of source payloads, then bars, quotes, split adjustments, the
    average dollar volume and the assembler of snapshots. *)

From S2P Require Import Prelude Dicts Text Orders Decimals Calendar Json Instants Sources Identity Actions Quarantine.
From S2P Require Import SourceLog Universe.

(** * Decimals from text

    [Decimal(text)] of the standard library: surrounding space and underscores are
    dropped, a sign, digits with a point, an exponent, or a name of a value that is
    not finite; the result is exact.  Then the bounded decimal text of the source
    payloads ([market_data/snapshots.py]). *)

Local Open Scope Z_scope.

Fixpoint drop_space (s : string) : string :=
  match s with String c s' => if is_space c then drop_space s' else s | EmptyString => s end.
Definition strip (s : string) : string := str_rev_app (drop_space (str_rev_app (drop_space s) "")) "".
Fixpoint drop_underscores (s : string) : string :=
  match s with
  | String c s => if bool_decide (c = "_"%char) then drop_underscores s else String c (drop_underscores s)
  | EmptyString => EmptyString
  end.
Definition lower_char (c : ascii) : ascii :=
  if is_upper c then ascii_of_nat (nat_of_ascii c + 32) else c.
Fixpoint lower (s : string) : string :=
  match s with String c s => String (lower_char c) (lower s) | EmptyString => EmptyString end.

(** [[-+]?] *)
Definition read_sign (s : string) : Z * string :=
  match s with
  | String c r => if bool_decide (c = "-"%char) then (-1, r)
                  else if bool_decide (c = "+"%char) then (1, r) else (1, s)
  | EmptyString => (1, s)
  end.
(** [(E[-+]?\d+)?] to the end of the text. *)
Definition read_exponent (s : string) : option Z :=
  match s with
  | EmptyString => Some 0
  | String c r =>
      if bool_decide (lower_char c = "e"%char) then
        let '(sign, r) := read_sign r in
        let '(d, r) := span_digits r in
        if bool_decide (d ≠ "") && bool_decide (r = "") then Some (sign * digits_value d) else None
      else None
  end.
(** [\d*(\.\d-star)?] with a digit, then the exponent. *)
Definition read_finite (s : string) : option Decimal :=
  let '(i, r) := span_digits s in
  let '(f, r) := match r with
                 | String c r' => if bool_decide (c = "."%char) then span_digits r' else ("", r)
                 | EmptyString => ("", r)
                 end in
  if bool_decide (i = "") && bool_decide (f = "") then None
  else e ← read_exponent r;
       Some (mk_dec (digits_value (i +:+ f)) (e - Z.of_nat (String.length f))).
Definition special_value (s : string) : bool :=
  let s := lower s in
  bool_decide (s = "inf") || bool_decide (s = "infinity") ||
  fullmatch (m_seq (m_alt (m_lit "nan") (m_lit "snan")) (λ r, [(span_digits r).2])) s.

(** [decimal.InvalidOperation] on any other text. *)
Definition decimal_of_text (s : string) : outcome py_decimal :=
  let '(sign, s) := read_sign (drop_underscores (strip s)) in
  match read_finite s with
  | Some d => Ok (Finite (mk_dec (sign * dec_coeff d) (dec_exp d)))
  | None => if special_value s then Ok NonFinite
            else raise EInvalidOperation "[<class 'decimal.ConversionSyntax'>]"
  end.

(** [_SOURCE_DECIMAL_TEXT]: [^\d{1,12}(\.\d{1,8})?$] *)
Definition source_decimal_text (s : string) : bool :=
  fullmatch (m_seq (m_char is_digit) (m_seq (m_upto is_digit 11)
    (m_alt (m_lit "") (m_seq (m_lit ".") (m_seq (m_char is_digit) (m_upto is_digit 7)))))) s.

Example decimal_texts : decimal_of_text " -1_0.50e+3 " = Ok (Finite (mk_dec (-1050) 1)) ∧
  decimal_of_text "NaN12" = Ok NonFinite ∧ decimal_of_text ".5" = Ok (Finite (mk_dec 5 (-1))) ∧
  is_Ok (decimal_of_text "1..2") = false ∧ source_decimal_text "189.90" = true ∧
  source_decimal_text "189." = false.
Proof. vm_compute. done. Qed.

(** * Market snapshots: [market_data/snapshots.py]

    Daily bars, quotes and split adjustments as projections of source records and
    split lineages, the validation of a snapshot, the 20-session average dollar
    volume, and the assembler.  What a private authority binds to an object is a
    field of it; the byte bound of the serialized snapshot is not modelled, its
    digest is a parameter, and so is the order in which a set of references is
    iterated. *)

Local Open Scope Z_scope.

Definition QUOTE_MAX_AGE_SECONDS : Z := 5.
Definition MAX_SPREAD_BPS : Z := 30.
Definition ADV_REQUIRED_SESSIONS : nat := 20.
Definition MIN_PRICE : Decimal := mk_dec 500 (-2).
Definition MIN_ADV20_USD : Decimal := mk_dec 20000000 0.
Definition MIN_TRADING_HISTORY_SESSIONS : Z := 252.
Definition MAX_MARKET_SNAPSHOT_ITEMS : nat := 1024.
Definition MAX_MARKET_SNAPSHOT_SPLITS : nat := 64.

(** ** The exchange calendar *)

(** [dates != sorted(dates)] and repeated dates are refused. *)
Definition ordered_dates (dates : list Z) : bool := bool_decide (dates = sort_by Z.leb dates).

Definition validate_nyse_sessions (sessions : list MarketSession) : outcome unit :=
  let dates := ms_trading_date <$> sessions in
  guard_that (length sessions <=? MAX_MARKET_SNAPSHOT_ITEMS)%nat EValueError
    "sessions exceed the market snapshot item bound" ≫= λ _,
  guard_that (bool_decide (NoDup dates)) EValueError
    "sessions must not contain duplicate trading dates" ≫= λ _,
  guard_that (ordered_dates dates) EValueError "sessions must be ordered by trading date" ≫= λ _,
  guard_that (negb (existsb weekend_open sessions)) EValueError
    "NYSE weekends must be explicit CLOSED sessions" ≫= λ _,
  mapM validate_nyse_session_window sessions ≫= λ _, Ok ().

(** Every weekday from [start] to the day before [stop] is recorded. *)
Definition require_complete_weekday_window (sessions : list MarketSession) (start stop : Z)
    : outcome unit :=
  guard_that (forallb (λ d, negb (weekday d <? 5) || bool_decide (d ∈ ms_trading_date <$> sessions))
                (seqZ start (stop - start))) EValueError
    "NYSE calendar window must include every weekday explicitly".

(** [session_by_date.get(d)] for sessions with distinct dates. *)
Definition session_on (sessions : list MarketSession) (d : Z) : option MarketSession :=
  find (λ s, bool_decide (ms_trading_date s = d)) sessions.
(** An open day, and an instant inside its regular session. *)
Definition open_session (s : MarketSession) : bool :=
  negb (is_closed s) && bool_decide (is_Some (ms_regular_session s)).
Definition open_on (sessions : list MarketSession) (d : Z) : bool :=
  match session_on sessions d with Some s => open_session s | None => false end.
Definition open_at (sessions : list MarketSession) (t : Z) : bool :=
  match session_on sessions (utc_date t) with
  | Some s => negb (is_closed s) && is_regular_session s t
  | None => false
  end.

(** ** Enumerations *)

Inductive Feed := IEX | SIP_DELAYED.
#[global] Instance Feed_eq_dec : EqDecision Feed.
Proof. solve_decision. Defined.
Inductive Entitlement := ENTITLED_IEX | ENTITLED_SIP.
#[global] Instance Entitlement_eq_dec : EqDecision Entitlement.
Proof. solve_decision. Defined.
Inductive Coverage := COMPLETE | LIMITED.
#[global] Instance Coverage_eq_dec : EqDecision Coverage.
Proof. solve_decision. Defined.
Inductive Freshness := FRESH | STALE | MISSING | CONFLICT.
#[global] Instance Freshness_eq_dec : EqDecision Freshness.
Proof. solve_decision. Defined.

(** ** Source references in sets *)

Definition record_id_leb (a b : SourceRef) : bool :=
  String.leb (ref_record_id a) (ref_record_id b).
(** The keys [(record_id, family.value)] and [(record_id, family.value, record_hash)]. *)
Definition ref_pair_leb (a b : SourceRef) : bool :=
  str_ltb (ref_record_id a) (ref_record_id b) ||
  (bool_decide (ref_record_id a = ref_record_id b) &&
   String.leb (family_value (ref_family a)) (family_value (ref_family b))).
Definition ref_triple_leb (a b : SourceRef) : bool :=
  str_ltb (ref_record_id a) (ref_record_id b) ||
  (bool_decide (ref_record_id a = ref_record_id b) &&
   (str_ltb (family_value (ref_family a)) (family_value (ref_family b)) ||
    (bool_decide (family_value (ref_family a) = family_value (ref_family b)) &&
     String.leb (ref_record_hash a) (ref_record_hash b)))).

(** ** Daily bars *)

(** [db_identity_hash] is the identity the authority of the bar binds. *)
Record DailyBar := mk_Bar {
  db_trading_date : Z;
  db_close : Decimal;
  db_volume : Z;
  db_source_ref : SourceRef;
  db_feed : Feed;
  db_available_at : Z;
  db_security_id : string;
  db_identity_hash : string;
}.
#[global] Instance DailyBar_eq_dec : EqDecision DailyBar.
Proof. solve_decision. Defined.

Definition dec_positive (d : Decimal) : bool := dec_ltb dzero d.
Definition check_DailyBar (b : DailyBar) : outcome unit :=
  guard_that (dec_positive (db_close b)) EValueError "close must be a positive finite Decimal" ≫= λ _,
  guard_that (0 <=? db_volume b) EValueError "volume must be a non-negative integer" ≫= λ _,
  guard_that (bool_decide (db_feed b = SIP_DELAYED) &&
              bool_decide (ref_family (db_source_ref b) = ALPACA_HISTORICAL_BARS)) EValueError
    "daily bars require the delayed SIP historical-bars source".

(** [payload.get(key)] *)
Definition json_get (k : string) (m : list (string * json)) : option json :=
  snd <$> find (λ kv, bool_decide (kv.1 = k)) m.
(** [set(payload) == {...}] *)
Definition json_keys_are (keys : list string) (m : list (string * json)) : bool :=
  forallb (λ kv, bool_decide (kv.1 ∈ keys)) m && forallb (λ k, bool_decide (k ∈ m.*1)) keys.
Definition json_keys_within (required allowed : list string) (m : list (string * json)) : bool :=
  forallb (λ k, bool_decide (k ∈ m.*1)) required && forallb (λ kv, bool_decide (kv.1 ∈ allowed)) m.
Definition is_text (t : string) (v : option json) : bool :=
  match v with Some (JStr s) => bool_decide (s = t) | _ => false end.

(** [str(value)] of a payload value; every caller validates the text, and none
    accepts that of a list or an object, of which only the start is given. *)
Definition text_of (v : option json) : string :=
  match v with
  | Some (JStr s) => s
  | Some (JInt n) => int_text n
  | Some (JFloat s) => s
  | Some (JBool true) => "True"
  | Some (JBool false) => "False"
  | Some JNull | None => "None"
  | Some (JList _) => "["
  | Some (JObj _) => "{"
  end.

Section projections.
Context (float_repr : string → string).
Context (identity_digest : SecurityIdentityRecord → string).
Context (source_digest : NormalizedSourceRecord → string).

Definition verify_source (r : NormalizedSourceRecord) : outcome unit :=
  guard_that (source_intact source_digest r) EValueError
    "record_hash does not match frozen record content".
(** [record.payload.to_dict()] *)
Definition payload_dict (r : NormalizedSourceRecord) : outcome (list (string * json)) :=
  to_dict float_repr (mk_JsonObject (nr_payload r)).
Definition source_ref_of (r : NormalizedSourceRecord) : SourceRef :=
  mk_SourceRef (nr_record_id r) (nr_family r) (nr_record_hash r).

(** One bar of the payload, with its timestamp. *)
Definition project_bar (ref : SourceRef) (available_at : Z) (symbol security_id : string)
    (identities : list SecurityIdentityRecord) (known_at : Z) (raw : json) : outcome (Z * DailyBar) :=
  match raw with
  | JObj m =>
      guard_that (json_keys_are ["t"; "o"; "h"; "l"; "c"; "v"] m) EValueError
        "historical bar has an unexpected shape" ≫= λ _,
      timestamp ← parse_provider_timestamp (text_of (json_get "t" m));
      guard_that (timestamp <=? known_at) EValueError "historical bar is after known_at" ≫= λ _,
      query ← make_IdentityQuery timestamp known_at (Some security_id) (Some symbol);
      resolution ← resolve_identity identity_digest identities query;
      match ir_status resolution, ir_record resolution with
      | Ids.RESOLVED, Some r =>
          guard_that (bool_decide (id_symbol r = symbol)) EValueError
            "historical bar does not resolve to one stable identity" ≫= λ _,
          match json_get "c" m, json_get "v" m with
          | Some (JStr close), Some (JInt volume) =>
              c ← decimal_of_text close;
              match c with
              | NonFinite => raise EValueError "close must be a positive finite Decimal"
              | Finite close =>
                  let b := mk_Bar (utc_date timestamp) close volume ref SIP_DELAYED available_at
                             security_id (id_hash r) in
                  check_DailyBar b ≫= λ _, Ok (timestamp, b)
              end
          | _, _ => raise EValueError "historical close/volume types are invalid"
          end
      | _, _ => raise EValueError "historical bar does not resolve to one stable identity"
      end
  | _ => raise EValueError "historical bar has an unexpected shape"
  end.

Definition daily_bars_from_record (record : NormalizedSourceRecord) (security_id : string)
    (identities : list SecurityIdentityRecord) (known_at : Z) : outcome (list DailyBar) :=
  verify_source record ≫= λ _,
  guard_that (bool_decide (nr_family record = ALPACA_HISTORICAL_BARS) &&
              bool_decide (nr_endpoint_id record = "stock_bars")) EValueError
    "daily bars require the historical-bars source endpoint" ≫= λ _,
  mapM (verify_identity identity_digest) identities ≫= λ _,
  match nr_available_at record with
  | None => raise EValueError "historical-bars source is not available by known_at"
  | Some available_at =>
      guard_that (available_at <=? known_at) EValueError
        "historical-bars source is not available by known_at" ≫= λ _,
      payload ← payload_dict record;
      guard_that (json_keys_are ["symbol"; "feed"; "timeframe"; "bars"; "next_page_token"] payload)
        EValueError "historical-bars payload has an unexpected shape" ≫= λ _,
      guard_that (is_text "sip" (json_get "feed" payload) && is_text "1Day" (json_get "timeframe" payload))
        EValueError "daily bars require the exact delayed-SIP 1Day request" ≫= λ _,
      symbol ← make_SecuritySymbol (text_of (json_get "symbol" payload));
      match json_get "bars" payload with
      | Some (JList raw_bars) =>
          guard_that (length raw_bars <=? MAX_MARKET_SNAPSHOT_ITEMS)%nat EValueError
            "historical-bars payload is missing or exceeds the item bound" ≫= λ _,
          projected ← mapM (project_bar (source_ref_of record) available_at symbol security_id
                              identities known_at) raw_bars;
          guard_that (ordered_dates projected.*1 && bool_decide (NoDup projected.*1)) EValueError
            "historical bars must be ordered and unique" ≫= λ _,
          Ok (projected.*2)
      | _ => raise EValueError "historical-bars payload is missing or exceeds the item bound"
      end
  end.

(** ** Quotes *)

Record QuoteInput := mk_Quote {
  qi_source_ref : SourceRef;
  qi_symbol : string;
  qi_feed : Feed;
  qi_entitlement : Entitlement;
  qi_bid : Decimal;
  qi_ask : Decimal;
  qi_observed_at : Z;
  qi_received_at : Z;
}.
Definition check_QuoteInput (q : QuoteInput) : outcome unit :=
  guard_that (dec_positive (qi_bid q)) EValueError "bid must be a positive finite Decimal" ≫= λ _,
  guard_that (dec_positive (qi_ask q)) EValueError "ask must be a positive finite Decimal" ≫= λ _,
  guard_that (dec_leb (qi_bid q) (qi_ask q)) EValueError "bid must not exceed ask".

(** [_source_record_ref] *)
Definition source_record_ref (r : NormalizedSourceRecord) (family : P4SourceFamily)
    (endpoint_id : string) : outcome SourceRef :=
  verify_source r ≫= λ _,
  guard_that (bool_decide (nr_family r = family) && bool_decide (nr_endpoint_id r = endpoint_id))
    EValueError "source record family or endpoint is not approved" ≫= λ _,
  guard_that (bool_decide (pinned_role (nr_family r) = AUTHORITY)) EValueError
    "source record must be an authority record" ≫= λ _,
  Ok (source_ref_of r).

(** [_source_decimal] *)
Definition source_decimal (v : option json) : outcome Decimal :=
  match v with
  | Some (JStr text) =>
      guard_that (source_decimal_text text) EValueError
        "source payload must be bounded decimal text" ≫= λ _,
      d ← decimal_of_text text;
      match d with
      | Finite d => guard_that (dec_positive d) EValueError
                      "source payload must be positive and finite" ≫= λ _, Ok d
      | NonFinite => raise EValueError "source payload must be positive and finite"
      end
  | _ => raise EValueError "source payload must be bounded decimal text"
  end.

(** [except ValueError as error: raise ValueError(...)] *)
Definition or_value_error {A} (o : outcome A) (msg : string) : outcome A :=
  match o with
  | Raise e => if exn_isa (exn_cls e) EValueError then raise EValueError msg else Raise e
  | Ok a => Ok a
  end.

Definition quote_input_from_record (r : NormalizedSourceRecord) : outcome QuoteInput :=
  ref ← source_record_ref r ALPACA_IEX_QUOTES "latest_quote";
  guard_that (bool_decide (pinned_coverage (nr_family r) = LIMITED_MARKET_COVERAGE) &&
              bool_decide (nr_coverage_warning r =
                Some "IEX feed only; not full NBBO/SIP market coverage")) EValueError
    "IEX source record lacks the approved limited-coverage warning" ≫= λ _,
  payload ← payload_dict r;
  guard_that (json_keys_within ["symbol"; "bid_price"; "ask_price"; "timestamp"; "feed"]
                ["symbol"; "bid_price"; "ask_price"; "timestamp"; "feed"; "bid_size"; "ask_size"] payload)
    EValueError "IEX source payload has an unexpected shape" ≫= λ _,
  match json_get "symbol" payload with
  | Some (JStr symbol) =>
      symbol ← make_SecuritySymbol symbol;
      guard_that (is_text "iex" (json_get "feed" payload)) EValueError
        "IEX source payload feed must be iex" ≫= λ _,
      bid ← source_decimal (json_get "bid_price" payload);
      ask ← source_decimal (json_get "ask_price" payload);
      guard_that (dec_leb bid ask) EValueError "IEX source payload bid must not exceed ask" ≫= λ _,
      match json_get "timestamp" payload with
      | Some (JStr timestamp) =>
          observed_at ← or_value_error (parse_provider_timestamp timestamp)
            "IEX source payload timestamp is invalid";
          guard_that (bool_decide (nr_observation_at r = Some observed_at)) EValueError
            "IEX source observation_at is not bound to its payload timestamp" ≫= λ _,
          let received_at := source_available_at r in
          guard_that (observed_at <=? received_at) EValueError
            "IEX source availability precedes its observation" ≫= λ _,
          let q := mk_Quote ref symbol IEX ENTITLED_IEX bid ask observed_at received_at in
          check_QuoteInput q ≫= λ _, Ok q
      | _ => raise EValueError "IEX source payload timestamp must be text"
      end
  | _ => raise EValueError "IEX source payload symbol must be text"
  end.
End projections.

(** ** Split adjustments *)

(** [sa_event_id] to [sa_source_refs] are those of the head of the lineage, which
    the authority binds together with its state, CONFIRMED. *)
Record SplitAdjustment := mk_Split {
  sa_security_id : string;
  sa_ex_date : Z;
  sa_numerator : Z;
  sa_denominator : Z;
  sa_source_ref : SourceRef;
  sa_available_at : Z;
  sa_event_id : string;
  sa_event_record_hash : string;
  sa_identity_hash : string;
  sa_action_type : CorporateActionType;
  sa_effective_date : Z;
  sa_source_refs : list SourceRef;
}.
#[global] Instance SplitAdjustment_eq_dec : EqDecision SplitAdjustment.
Proof. solve_decision. Defined.

(** [_verify_source_binding] *)
Definition split_bound (s : SplitAdjustment) : bool :=
  is_digest (sa_identity_hash s) && bool_decide (sa_source_ref s ∈ sa_source_refs s).
Definition verify_split (s : SplitAdjustment) : outcome unit :=
  guard_that (split_bound s) EValueError
    "SplitAdjustment is not bound to its validated corporate-action event".
Definition check_SplitAdjustment (s : SplitAdjustment) : outcome unit :=
  guard_that (0 <? sa_numerator s) EValueError "numerator must be a positive integer" ≫= λ _,
  guard_that (0 <? sa_denominator s) EValueError "denominator must be a positive integer" ≫= λ _,
  guard_that (bool_decide (ref_family (sa_source_ref s) = ALPACA_CORPORATE_ACTIONS)) EValueError
    "split adjustments require the corporate-actions authority" ≫= λ _,
  verify_split s.

(** The first reference that is least by [(record_id, record_hash)]. *)
Definition ref_id_hash_ltb (a b : SourceRef) : bool :=
  str_ltb (ref_record_id a) (ref_record_id b) ||
  (bool_decide (ref_record_id a = ref_record_id b) && str_ltb (ref_record_hash a) (ref_record_hash b)).
Definition min_ref (r : SourceRef) (refs : list SourceRef) : SourceRef :=
  foldl (λ m x, if ref_id_hash_ltb x m then x else m) r refs.

Section split.
Context (action_digest : CorporateActionRecord → string).
Definition split_adjustment_from_lineage (lineage : list CorporateActionRecord) : outcome SplitAdjustment :=
  h ← validate_lineage action_digest lineage;
  guard_that (bool_decide (ca_state h = Cas.CONFIRMED)) EValueError
    "split adjustments require a CONFIRMED corporate-action head" ≫= λ _,
  match filter (λ r, ref_family r = ALPACA_CORPORATE_ACTIONS) (ca_source_refs h) with
  | [] => raise EValueError
      "confirmed split lineage requires an Alpaca corporate-action source ref"
  | r :: refs =>
      let s := mk_Split (ca_security_id h) (ca_ex_date h) (sr_numerator (ca_ratio h))
        (sr_denominator (ca_ratio h)) (min_ref r refs) (ca_available_at h) (ca_event_id h)
        (ca_record_hash h) (ca_security_identity_hash h) (ca_action_type h) (ca_effective_date h)
        (ca_source_refs h) in
      check_SplitAdjustment s ≫= λ _, Ok s
  end.
End split.

(** ** Spread and midpoint *)

(** The spread in basis points rounded down, and whether it exceeds the maximum, in
    exact rational arithmetic: both prices in units of the smaller exponent. *)
Definition spread_exact (bid ask : Decimal) : Z * bool :=
  let e := Z.min (dec_exp bid) (dec_exp ask) in
  let b := dec_at e bid in
  let a := dec_at e ask in
  (((a - b) * 20000) `div` (b + a), MAX_SPREAD_BPS * (b + a) <? (a - b) * 20000).

(** [_mid_exact]: a sum and a half under a precision sized from the operands. *)
Definition decimal_digits (d : Decimal) : Z := ndigits (Z.abs (dec_coeff d)).
Definition mid_exact (bid ask : Decimal) : Decimal :=
  let prec := Z.max PREC (Z.max (decimal_digits bid) (decimal_digits ask) + 2) in
  let e := Z.min (dec_exp bid) (dec_exp ask) in
  let sum := round_ratio prec (dec_at e bid + dec_at e ask) 1 e in
  round_ratio prec (dec_coeff sum) 2 (dec_exp sum).

Definition reason_leb (a b : ClosedReason) : bool := reason_index a <=? reason_index b.
Definition canonical_reasons (reasons : list ClosedReason) : list ClosedReason :=
  sort_by reason_leb reasons.

(** ** Snapshots *)

Record MarketSnapshot := mk_Snapshot {
  sn_security_id : string;
  sn_symbol : string;
  sn_as_of : Z;
  sn_known_at : Z;
  sn_observed_at : Z;
  sn_received_at : Z;
  sn_feed : Feed;
  sn_entitlement : Entitlement;
  sn_bid : Decimal;
  sn_ask : Decimal;
  sn_mid : Decimal;
  sn_spread_bps : Z;
  sn_quote_source_ref : SourceRef;
  sn_coverage : Coverage;
  sn_freshness : Freshness;
  sn_producer_version : string;
  sn_schema_version : string;
  sn_sessions : list MarketSession;
  sn_last : option Decimal;
  sn_adv20_usd : option Decimal;
  sn_bar_feed : option Feed;
  sn_bar_refs : list SourceRef;
  sn_bar_dates : list Z;
  sn_split_adjustment_refs : list SourceRef;
  sn_split_adjustments : list SplitAdjustment;
  sn_coverage_warning : option string;
  sn_reasons : list ClosedReason;
  sn_hash : string;
}.

Definition positive_or_none (o : option Decimal) : bool :=
  match o with Some d => dec_positive d | None => true end.
Definition dec_is (o : option Decimal) (d : Decimal) : bool :=
  match o with Some x => dec_eqb x d | None => false end.

(** The checks of one split adjustment. *)
Definition check_split (a : SplitAdjustment) : outcome unit :=
  verify_split a ≫= λ _,
  guard_that (record_id_ok (sa_event_id a)) EValueError
    "split adjustment event_id is not canonical" ≫= λ _,
  guard_that (is_digest (sa_event_record_hash a)) EValueError
    "split adjustment event_record_hash must be a SHA-256 digest" ≫= λ _,
  guard_that (is_digest (sa_identity_hash a)) EValueError
    "split adjustment identity hash must be a SHA-256 digest" ≫= λ _,
  guard_that (sa_ex_date a <=? sa_effective_date a) EValueError
    "split adjustment effective_date cannot precede ex_date" ≫= λ _,
  guard_that (negb (bool_decide (sa_source_refs a = [])) &&
              (length (sa_source_refs a) <=? MAX_SOURCE_REFS)%nat) EValueError
    "split adjustment source_refs are invalid or exceed their bound" ≫= λ _,
  guard_that (bool_decide (NoDup (ref_ids (sa_source_refs a)))) EValueError
    "split adjustment source_refs must be unique" ≫= λ _,
  guard_that (bool_decide (sa_source_ref a ∈ sa_source_refs a)) EValueError
    "split adjustment source_ref must be in source_refs".

(** The order of the key [(ex_date, record_id, record_hash)]. *)
Definition split_leb (a b : SplitAdjustment) : bool :=
  (sa_ex_date a <? sa_ex_date b) ||
  ((sa_ex_date a =? sa_ex_date b) &&
   (ref_id_hash_ltb (sa_source_ref a) (sa_source_ref b) ||
    (bool_decide (ref_record_id (sa_source_ref a) = ref_record_id (sa_source_ref b)) &&
     bool_decide (ref_record_hash (sa_source_ref a) = ref_record_hash (sa_source_ref b))))).
Definition split_key (a : SplitAdjustment) : Z * string * string :=
  (sa_ex_date a, ref_record_id (sa_source_ref a), ref_record_hash (sa_source_ref a)).

Definition IEX_WARNING : string := "IEX limited market coverage".

Section validation.
(** The iteration order of a set of references. *)
Context (set_order : list SourceRef → list SourceRef).

Definition derived_split_refs (splits : list SplitAdjustment) : list SourceRef :=
  sort_by ref_triple_leb (set_order (sa_source_ref <$> splits)).

(** The prices, the bars and the references of [_validate_market_snapshot_fields]. *)
Definition check_prices (s : MarketSnapshot) : outcome unit :=
  guard_that (bool_decide (sn_feed s = IEX) && bool_decide (sn_entitlement s = ENTITLED_IEX)) EValueError
    "market snapshots require the IEX feed and entitlement" ≫= λ _,
  guard_that (dec_positive (sn_bid s)) EValueError "bid must be a positive finite Decimal" ≫= λ _,
  guard_that (dec_positive (sn_ask s)) EValueError "ask must be a positive finite Decimal" ≫= λ _,
  guard_that (dec_leb (sn_bid s) (sn_ask s)) EValueError "bid must not exceed ask" ≫= λ _,
  guard_that (dec_positive (sn_mid s)) EValueError "mid must be a positive finite Decimal" ≫= λ _,
  let expected_mid := mid_exact (sn_bid s) (sn_ask s) in
  guard_that (dec_eqb (sn_mid s) expected_mid) EValueError "mid must be derived from bid and ask" ≫= λ _,
  guard_that (0 <=? sn_spread_bps s) EValueError "spread_bps must be a non-negative integer" ≫= λ _,
  guard_that (sn_spread_bps s =? (spread_exact (sn_bid s) (sn_ask s)).1) EValueError
    "spread_bps must be derived from bid and ask" ≫= λ _,
  guard_that (positive_or_none (sn_last s)) EValueError
    "last must be a positive finite Decimal or None" ≫= λ _,
  guard_that (positive_or_none (sn_adv20_usd s)) EValueError
    "adv20_usd must be a positive finite Decimal or None" ≫= λ _,
  guard_that (dec_is (sn_last s) expected_mid) EValueError "last must be the source-derived quote mid".
Definition check_bars (s : MarketSnapshot) : outcome unit :=
  guard_that (negb (bool_decide (sn_bar_feed s = Some IEX))) EValueError
    "market snapshot bars require the delayed SIP feed" ≫= λ _,
  guard_that (length (sn_bar_refs s) <=? MAX_MARKET_SNAPSHOT_ITEMS)%nat EValueError
    "bar_refs exceed the market snapshot item bound" ≫= λ _,
  guard_that (sorted_texts (ref_ids (sn_bar_refs s))) EValueError
    "bar_refs must be sorted and unique" ≫= λ _,
  guard_that (forallb (λ r, bool_decide (ref_family r = ALPACA_HISTORICAL_BARS)) (sn_bar_refs s)) EValueError
    "bar_refs require the historical-bars source family" ≫= λ _,
  guard_that (length (sn_bar_dates s) <=? MAX_MARKET_SNAPSHOT_ITEMS)%nat EValueError
    "bar_dates exceed the market snapshot item bound" ≫= λ _,
  guard_that (ordered_dates (sn_bar_dates s) && bool_decide (NoDup (sn_bar_dates s))) EValueError
    "bar_dates must be sorted and unique" ≫= λ _,
  guard_that (eqb (bool_decide (sn_bar_dates s = [])) (bool_decide (sn_bar_refs s = []))) EValueError
    "bar_dates and bar_refs must be present together".
Definition check_splits (s : MarketSnapshot) : outcome unit :=
  let refs := sn_split_adjustment_refs s in
  let splits := sn_split_adjustments s in
  guard_that (length refs <=? MAX_MARKET_SNAPSHOT_SPLITS)%nat EValueError
    "split_adjustment_refs exceed the market snapshot item bound" ≫= λ _,
  guard_that (bool_decide (refs = sort_by ref_pair_leb (set_order refs))) EValueError
    "split_adjustment_refs must be sorted and unique" ≫= λ _,
  guard_that (forallb (λ r, bool_decide (ref_family r = ALPACA_CORPORATE_ACTIONS)) refs) EValueError
    "split_adjustment_refs require the corporate-actions source family" ≫= λ _,
  mapM check_split splits ≫= λ _,
  guard_that (length splits <=? MAX_MARKET_SNAPSHOT_SPLITS)%nat EValueError
    "split_adjustments exceed the market snapshot item bound" ≫= λ _,
  guard_that (bool_decide (split_key <$> splits = split_key <$> sort_by split_leb splits)) EValueError
    "split_adjustments must be ordered by ex-date and source" ≫= λ _,
  guard_that (bool_decide (NoDup (sa_ex_date <$> splits))) EValueError
    "split_adjustments must not repeat an ex-date" ≫= λ _,
  guard_that (forallb (λ a, bool_decide (sa_security_id a = sn_security_id s)) splits) EValueError
    "split adjustments must bind to the snapshot security" ≫= λ _,
  guard_that (bool_decide (refs = derived_split_refs splits)) EValueError
    "split_adjustment_refs must be derived from split_adjustments".

(** The labels, the reasons, the calendar and the times. *)
Definition check_labels (s : MarketSnapshot) : outcome unit :=
  guard_that (negb (bool_decide (sn_freshness s = CONFLICT))) EValueError
    "conflicting market data has no snapshot authority" ≫= λ _,
  guard_that (bool_decide (sn_coverage s = LIMITED)) EValueError
    "IEX quotes must carry LIMITED_MARKET_COVERAGE" ≫= λ _,
  guard_that (bool_decide (sn_coverage_warning s = Some IEX_WARNING)) EValueError
    "IEX quotes require the exact limited-coverage warning" ≫= λ _,
  guard_that (bool_decide (NoDup (sn_reasons s))) EValueError "reasons must be unique" ≫= λ _,
  guard_that (bool_decide (sn_reasons s = canonical_reasons (sn_reasons s))) EValueError
    "reasons must use the canonical order" ≫= λ _,
  guard_that (eqb (spread_exact (sn_bid s) (sn_ask s)).2 (bool_decide (SPREAD_TOO_WIDE ∈ sn_reasons s)))
    EValueError "spread reason does not match the exact spread" ≫= λ _,
  guard_that (negb (bool_decide (sn_producer_version s = ""))) EValueError
    "producer_version requires non-empty bounded text".
Definition check_calendar (s : MarketSnapshot) : outcome unit :=
  validate_nyse_sessions (sn_sessions s) ≫= λ _,
  guard_that (open_at (sn_sessions s) (sn_as_of s)) EValueError
    "as_of must bind to an explicit open NYSE session" ≫= λ _,
  guard_that (open_at (sn_sessions s) (sn_observed_at s)) EValueError
    "observed_at must bind to an explicit open NYSE session" ≫= λ _,
  guard_that (forallb (open_on (sn_sessions s)) (sn_bar_dates s)) EValueError
    "bar_dates must bind to explicit open NYSE sessions" ≫= λ _,
  match sn_bar_dates s with
  | [] => Ok ()
  | d :: _ => require_complete_weekday_window (sn_sessions s) d (utc_date (sn_as_of s))
  end.
Definition expected_freshness (s : MarketSnapshot) : Freshness :=
  if sn_as_of s - sn_observed_at s <=? QUOTE_MAX_AGE_SECONDS * SECOND then FRESH else STALE.
Definition check_times (s : MarketSnapshot) : outcome unit :=
  guard_that (sn_known_at s <=? sn_as_of s) EValueError "known_at cannot be after as_of" ≫= λ _,
  guard_that (sn_observed_at s <=? sn_known_at s) EValueError
    "observed_at cannot be after known_at" ≫= λ _,
  guard_that (sn_received_at s <=? sn_known_at s) EValueError
    "received_at cannot be after known_at" ≫= λ _,
  guard_that (sn_received_at s <=? sn_as_of s) EValueError "received_at cannot be after as_of" ≫= λ _,
  guard_that (sn_observed_at s <=? sn_as_of s) EValueError "observed_at cannot be after as_of" ≫= λ _,
  guard_that (sn_observed_at s <=? sn_received_at s) EValueError
    "received_at cannot be before observed_at" ≫= λ _,
  guard_that (forallb (λ a, sa_available_at a <=? sn_known_at s) (sn_split_adjustments s)) EValueError
    "split adjustments must be visible at known_at" ≫= λ _,
  guard_that (negb (bool_decide (sn_freshness s = MISSING))) EValueError
    "a market snapshot with quote fields cannot be MISSING" ≫= λ _,
  guard_that (bool_decide (sn_freshness s = expected_freshness s)) EValueError
    "freshness does not match the observed quote age" ≫= λ _,
  guard_that (eqb (bool_decide (sn_freshness s = STALE))
                  (bool_decide (QUOTE_MISSING_OR_STALE ∈ sn_reasons s))) EValueError
    "stale reason does not match quote freshness" ≫= λ _,
  guard_that (bool_decide (ref_family (sn_quote_source_ref s) = ALPACA_IEX_QUOTES)) EValueError
    "quote source_ref family does not match the IEX feed".

(** [_validate_market_snapshot_fields] *)
Definition validate_market_snapshot_fields (s : MarketSnapshot) : outcome unit :=
  check_prices s ≫= λ _, check_bars s ≫= λ _, check_splits s ≫= λ _,
  check_labels s ≫= λ _, check_calendar s ≫= λ _, check_times s.
End validation.

(** ** The average dollar volume: [compute_adv20] *)

(** [bar_by_date]: the loop over the bars, which refuses what may not be seen. *)
Fixpoint index_bars (cutoff known_at : option Z) (seen : list Z) (bars : list DailyBar) : outcome unit :=
  match bars with
  | [] => Ok ()
  | b :: bars =>
      guard_that (bool_decide (db_trading_date b ∉ seen)) EValueError
        "bars must not contain duplicate trading dates" ≫= λ _,
      guard_that (match cutoff with Some c => db_trading_date b <? utc_date c | None => true end)
        EValueError "ADV bars dated at or after cutoff are not admissible" ≫= λ _,
      guard_that (match known_at with Some k => db_available_at b <=? k | None => true end)
        EValueError "ADV bars known after known_at are not admissible" ≫= λ _,
      index_bars cutoff known_at (db_trading_date b :: seen) bars
  end.
Definition bar_on (bars : list DailyBar) (d : Z) : option DailyBar :=
  find (λ b, bool_decide (db_trading_date b = d)) bars.

(** The split applies to the bar: it is visible, effective, and after the bar. *)
Definition split_applies (cutoff known_at : option Z) (b : DailyBar) (a : SplitAdjustment) : bool :=
  let visible_at k := sa_available_at a <=? k in
  let '(visible, effective) :=
    match cutoff with
    | None => (visible_at (default (db_available_at b) known_at), true)
    | Some c => (match known_at with Some k => visible_at k | None => false end,
                 sa_ex_date a <=? utc_date c)
    end in
  visible && effective && (db_trading_date b <? sa_ex_date a).
Definition adjust_bar (cutoff known_at : option Z) (b : DailyBar) (acc : Decimal * Decimal)
    (a : SplitAdjustment) : Decimal * Decimal :=
  let '(close, volume) := acc in
  let n := dec_of_Z (sa_numerator a) in
  let d := dec_of_Z (sa_denominator a) in
  if split_applies cutoff known_at b a
  then (d_div (d_mul close d) n, d_div (d_mul volume n) d) else acc.
Definition dollar_volume (cutoff known_at : option Z) (splits : list SplitAdjustment) (b : DailyBar) : Decimal :=
  let '(close, volume) :=
    foldl (adjust_bar cutoff known_at b) (db_close b, dec_of_Z (db_volume b)) splits in
  d_mul close volume.

(** The target security: given, or that of the bars. *)
Definition target_security (bars : list DailyBar) (security_id : option string) : outcome (option string) :=
  match security_id, bars with
  | None, b :: _ =>
      guard_that (forallb (λ x, bool_decide (db_security_id x = db_security_id b)) bars) EValueError
        "ADV bars must bind to one security" ≫= λ _, Ok (Some (db_security_id b))
  | _, _ => Ok security_id
  end.
Definition binds_target {A} (f : A → string) (target : option string) (l : list A) : bool :=
  match target with Some s => forallb (λ x, bool_decide (f x = s)) l | None => true end.

(** The checks on the inputs, in order. *)
Definition check_adv_inputs (bars : list DailyBar) (sessions : list MarketSession)
    (splits : list SplitAdjustment) (cutoff known_at : option Z) (security_id : option string) : outcome unit :=
  guard_that (length bars <=? MAX_MARKET_SNAPSHOT_ITEMS)%nat EValueError
    "bars exceed the market snapshot item bound" ≫= λ _,
  validate_nyse_sessions sessions ≫= λ _,
  mapM verify_split splits ≫= λ _,
  guard_that (length splits <=? MAX_MARKET_SNAPSHOT_SPLITS)%nat EValueError
    "split_adjustments exceed the market snapshot item bound" ≫= λ _,
  guard_that (bool_decide (splits = []) || bool_decide (is_Some security_id)) EValueError
    "split-aware ADV requires the target security id" ≫= λ _,
  guard_that (binds_target sa_security_id security_id splits) EValueError
    "split adjustments must bind to the target security" ≫= λ _,
  target ← target_security bars security_id;
  guard_that (binds_target db_security_id target bars) EValueError
    "ADV bars must bind to the target security" ≫= λ _,
  guard_that (forallb (λ a, bool_decide (sa_identity_hash a ∈ db_identity_hash <$> bars)) splits) EValueError
    "split adjustment does not bind to the historical-bar identity" ≫= λ _,
  guard_that (bool_decide (NoDup (sa_ex_date <$> splits))) EValueError
    "split_adjustments must not repeat an ex-date" ≫= λ _,
  guard_that (match cutoff, known_at with Some c, Some k => k <=? c | _, _ => true end) EValueError
    "known_at cannot be after cutoff" ≫= λ _,
  guard_that (forallb (λ b, bool_decide (db_feed b = SIP_DELAYED)) bars) EValueError
    "ADV bars require the delayed SIP feed" ≫= λ _,
  guard_that (ordered_dates (db_trading_date <$> bars)) EValueError
    "bars must be ordered by trading date" ≫= λ _,
  guard_that (forallb (open_on sessions) (db_trading_date <$> bars)) EValueError
    "every ADV bar must bind to an explicit open market session".

(** The open sessions before a date, the latest first. *)
Definition qualifying_dates (sessions : list MarketSession) (stop : option Z) : list Z :=
  reverse (sort_by Z.leb (ms_trading_date <$>
    filter (λ s, open_kind s && match stop with Some d => ms_trading_date s <? d | None => true end = true)
      sessions)).

(** The bars of the required sessions; [None] when they are not all there. *)
Definition eligible_bars (bars : list DailyBar) (sessions : list MarketSession) (cutoff : option Z)
    : outcome (option (list DailyBar)) :=
  let cutoff_date :=
    match cutoff with
    | Some c => Some (utc_date c)
    | None => last (sort_by Z.leb (ms_trading_date <$> sessions))
    end in
  let dates := qualifying_dates sessions cutoff_date in
  match cutoff with
  | Some c =>
      let required := take ADV_REQUIRED_SESSIONS dates in
      if (length required <? ADV_REQUIRED_SESSIONS)%nat then Ok None
      else match mapM (bar_on bars) required with
           | None => Ok None
           | Some eligible =>
               require_complete_weekday_window sessions (default 0 (last required)) (utc_date c) ≫= λ _,
               Ok (Some eligible)
           end
  | None =>
      let eligible := take ADV_REQUIRED_SESSIONS (omap (bar_on bars) dates) in
      if (length eligible <? ADV_REQUIRED_SESSIONS)%nat then Ok None
      else (match cutoff_date with
            | Some d => require_complete_weekday_window sessions
                          (default 0 (db_trading_date <$> last eligible)) d
            | None => Ok ()
            end) ≫= λ _, Ok (Some eligible)
  end.

(** The average over the eligible bars, of which there are twenty. *)
Definition average_volume (cutoff known_at : option Z) (splits : list SplitAdjustment)
    (eligible : list DailyBar) : Decimal :=
  d_div (foldl (λ total b, d_add total (dollar_volume cutoff known_at splits b)) dzero eligible)
    (dec_of_Z 20).
Definition adv20_at (bars : list DailyBar) (sessions : list MarketSession)
    (splits : list SplitAdjustment) (cutoff known_at : option Z) (security_id : option string)
    : outcome (option Decimal) :=
  check_adv_inputs bars sessions splits cutoff known_at security_id ≫= λ _,
  index_bars cutoff known_at [] bars ≫= λ _,
  eligible_bars bars sessions cutoff ≫= λ eligible : option (list DailyBar),
  Ok (average_volume cutoff known_at splits <$> eligible).
(** Without [known_at], the cutoff. *)
Definition compute_adv20 (bars : list DailyBar) (sessions : list MarketSession)
    (splits : list SplitAdjustment) (cutoff known_at : option Z) (security_id : option string)
    : outcome (option Decimal) :=
  adv20_at bars sessions splits cutoff (match known_at with None => cutoff | k => k end) security_id.

(** ** Freshness *)

Definition derive_freshness (q : QuoteInput) (as_of : Z) (sessions : list MarketSession)
    (max_age_seconds : Z) : outcome (Freshness * list ClosedReason) :=
  let conflict := Ok (CONFLICT, [MARKET_DATA_CONFLICT]) in
  if as_of <? qi_observed_at q then conflict
  else if (qi_received_at q <? qi_observed_at q) || (as_of <? qi_received_at q) then conflict
  else match session_on sessions (utc_date as_of) with
       | Some s =>
           if negb (is_closed s) && is_regular_session s as_of && is_regular_session s (qi_observed_at q)
           then
             guard_that (0 <=? max_age_seconds) EValueError
               "max_age_seconds must be a non-negative integer" ≫= λ _,
             if max_age_seconds * SECOND <? as_of - qi_observed_at q
             then Ok (STALE, [QUOTE_MISSING_OR_STALE]) else Ok (FRESH, [])
           else conflict
       | None => conflict
       end.

Definition validate_quote_age (as_of observed_at received_at : Z) : Freshness :=
  if as_of <? observed_at then CONFLICT
  else if (received_at <? observed_at) || (as_of <? received_at) then CONFLICT
  else if QUOTE_MAX_AGE_SECONDS * SECOND <? as_of - observed_at then STALE else FRESH.

(** ** The assembler *)

Definition with_snapshot_hash (h : string) (s : MarketSnapshot) : MarketSnapshot :=
  mk_Snapshot (sn_security_id s) (sn_symbol s) (sn_as_of s) (sn_known_at s) (sn_observed_at s)
    (sn_received_at s) (sn_feed s) (sn_entitlement s) (sn_bid s) (sn_ask s) (sn_mid s) (sn_spread_bps s)
    (sn_quote_source_ref s) (sn_coverage s) (sn_freshness s) (sn_producer_version s)
    (sn_schema_version s) (sn_sessions s) (sn_last s) (sn_adv20_usd s) (sn_bar_feed s) (sn_bar_refs s)
    (sn_bar_dates s) (sn_split_adjustment_refs s) (sn_split_adjustments s) (sn_coverage_warning s)
    (sn_reasons s) h.

Section assemble.
Context (set_order : list SourceRef → list SourceRef) (snapshot_digest : MarketSnapshot → string).

(** [compute_hash] and [verify_integrity] *)
Definition snapshot_compute_hash (s : MarketSnapshot) : string :=
  snapshot_digest (with_snapshot_hash "" s).
Definition verify_snapshot (s : MarketSnapshot) : outcome unit :=
  mapM verify_split (sn_split_adjustments s) ≫= λ _,
  guard_that (bool_decide (sn_hash s = snapshot_compute_hash s)) EValueError
    "snapshot hash does not match frozen content".
(** [__post_init__] *)
Definition check_MarketSnapshot (s : MarketSnapshot) : outcome unit :=
  validate_market_snapshot_fields set_order s ≫= λ _,
  guard_that (is_digest (sn_hash s)) EValueError "snapshot hash must be a SHA-256 digest" ≫= λ _,
  verify_snapshot s.

(** [_finalize_market_snapshot] for values without mid, spread and hash. *)
Definition finalize_market_snapshot (s : MarketSnapshot) : outcome MarketSnapshot :=
  guard_that (dec_positive (sn_bid s) && dec_positive (sn_ask s)) EValueError
    "bid and ask must be positive finite Decimals" ≫= λ _,
  guard_that (dec_leb (sn_bid s) (sn_ask s)) EValueError "bid must not exceed ask" ≫= λ _,
  validate_market_snapshot_fields set_order s ≫= λ _,
  let built := with_snapshot_hash (snapshot_compute_hash s) s in
  check_MarketSnapshot built ≫= λ _, Ok built.

(** [_reconstruct_market_snapshot]: a stored snapshot, verified again. *)
Definition reconstruct_market_snapshot (s : MarketSnapshot) : outcome MarketSnapshot :=
  guard_that (is_digest (sn_hash s)) EValueError "snapshot_hash must be a SHA-256 digest" ≫= λ _,
  guard_that (dec_positive (sn_bid s) && dec_positive (sn_ask s)) EValueError
    "bid and ask must be positive finite Decimals" ≫= λ _,
  guard_that (dec_leb (sn_bid s) (sn_ask s)) EValueError "bid must not exceed ask" ≫= λ _,
  guard_that (dec_eqb (sn_mid s) (mid_exact (sn_bid s) (sn_ask s))) EValueError
    "mid must be derived from bid and ask" ≫= λ _,
  guard_that (sn_spread_bps s =? (spread_exact (sn_bid s) (sn_ask s)).1) EValueError
    "spread_bps must be derived from bid and ask" ≫= λ _,
  built ← finalize_market_snapshot s;
  guard_that (bool_decide (sn_hash built = sn_hash s)) EValueError
    "snapshot hash does not match frozen content" ≫= λ _,
  Ok built.

(** The findings of a snapshot, in canonical order. *)
Definition snapshot_reasons (freshness_reasons : list ClosedReason) (too_wide : bool)
    (adv : option Decimal) (mixed_feeds : bool) : list ClosedReason :=
  canonical_reasons (freshness_reasons ++ (if too_wide then [SPREAD_TOO_WIDE] else []) ++
                     (if bool_decide (adv = None) then [ADV_BELOW_MINIMUM] else []) ++
                     (if mixed_feeds then [MARKET_DATA_CONFLICT] else [])).

Definition assemble_market_snapshot (security_id symbol : string) (as_of known_at : Z) (q : QuoteInput)
    (bars : list DailyBar) (sessions : list MarketSession) (splits : list SplitAdjustment)
    (last : option Decimal) (schema_version : string) : outcome MarketSnapshot :=
  guard_that (known_at <=? as_of) EValueError "known_at cannot be after as_of" ≫= λ _,
  guard_that (bool_decide (qi_symbol q = symbol)) EValueError
    "quote source symbol does not match the snapshot security" ≫= λ _,
  guard_that (length bars <=? MAX_MARKET_SNAPSHOT_ITEMS)%nat EValueError
    "bars exceed the market snapshot item bound" ≫= λ _,
  guard_that (forallb (λ b, bool_decide (db_security_id b = security_id)) bars) EValueError
    "market bars must bind to the snapshot security" ≫= λ _,
  validate_nyse_sessions sessions ≫= λ _,
  mapM verify_split splits ≫= λ _,
  guard_that (length splits <=? MAX_MARKET_SNAPSHOT_SPLITS)%nat EValueError
    "split_adjustments exceed the market snapshot item bound" ≫= λ _,
  guard_that (forallb (λ a, bool_decide (sa_security_id a = security_id)) splits) EValueError
    "split adjustments must bind to the snapshot security" ≫= λ _,
  guard_that (positive_or_none last) EValueError "last must be a positive finite Decimal or None" ≫= λ _,
  guard_that (bool_decide (qi_feed q = IEX)) EValueError
    "latest quotes accept only the Alpaca IEX feed" ≫= λ _,
  guard_that (bool_decide (qi_entitlement q = ENTITLED_IEX)) EValueError
    "IEX quotes require the IEX entitlement" ≫= λ _,
  guard_that ((qi_observed_at q <=? known_at) && (qi_received_at q <=? known_at)) EValueError
    "quote is not visible at known_at" ≫= λ _,
  let mid := mid_exact (qi_bid q) (qi_ask q) in
  guard_that (match last with Some l => dec_eqb l mid | None => true end) EValueError
    "last must be the source-derived quote mid" ≫= λ _,
  let '(spread_bps, too_wide) := spread_exact (qi_bid q) (qi_ask q) in
  '(freshness, freshness_reasons) ← derive_freshness q as_of sessions QUOTE_MAX_AGE_SECONDS;
  guard_that (negb (bool_decide (freshness = CONFLICT))) EValueError
    "quote timestamp is not valid for the open NYSE session" ≫= λ _,
  adv ← compute_adv20 bars sessions splits (Some as_of) (Some known_at) (Some security_id);
  finalize_market_snapshot
    (mk_Snapshot security_id symbol as_of known_at (qi_observed_at q) (qi_received_at q) (qi_feed q)
       (qi_entitlement q) (qi_bid q) (qi_ask q) mid spread_bps (qi_source_ref q) LIMITED freshness
       "p4c.market.v1" schema_version sessions (Some mid) adv (db_feed <$> head bars)
       (sort_by record_id_leb (set_order (db_source_ref <$> bars)))
       (sort_by Z.leb (remove_dups (db_trading_date <$> bars)))
       (derived_split_refs set_order splits) splits (Some IEX_WARNING)
       (snapshot_reasons freshness_reasons too_wide adv
          (negb (forallb (λ b, bool_decide (Some (db_feed b) = db_feed <$> head bars)) bars))) "").
End assemble.
