(* ===== verification/MarketFacts.v ===== *)
(** * Facts about market data

    The relative error of a chain of rounded operations, then the facts about bars, the
    average dollar volume and look-ahead. *)

From S2P Require Import Prelude Errors Dicts Text Orders LedgerFacts Decimals Calendar Json Instants Sources Identity.
From S2P Require Import Actions Quarantine SourceLog Universe Market.
From Stdlib Require Import QArith Qpower Qabs Lqa.

(** * The relative error of rounded operations

    [approx n x y]: [y] differs from the exact non-negative [x] by at most [n]
    roundings to the digits of the context.  Sums, products and quotients of
    approximations are approximations, so a chain of operations has a bound that
    is read off its length. *)

Local Open Scope Q_scope.

(** Half a unit in the last of 28 digits, relative to the value. *)
Definition unit_roundoff : Q := (1 # 2) * p10 (-27).
Definition approx (n : nat) (x y : Q) : Prop :=
  0 <= x ∧ x * (1 - unit_roundoff) ^ Z.of_nat n <= y ∧ y <= x * (1 + unit_roundoff) ^ Z.of_nat n.

Lemma roundoff_small : 0 < unit_roundoff ∧ unit_roundoff < 1.
Proof. by unfold unit_roundoff, p10. Qed.

Section powers.
Context (a : Q) (Ha : 0 < a).
Lemma pow_pos_nat n : 0 < a ^ Z.of_nat n.
Proof using Ha. by apply Qpower_0_lt. Qed.
Lemma pow_S n : a ^ Z.of_nat (S n) == a * a ^ Z.of_nat n.
Proof using Ha.
  rewrite Nat2Z.inj_succ, <-Z.add_1_l, Qpower_plus by lra. change (a ^ 1) with a. lra.
Qed.
Lemma pow_add n m : a ^ Z.of_nat (n + m) == a ^ Z.of_nat n * a ^ Z.of_nat m.
Proof using Ha. rewrite Nat2Z.inj_add, Qpower_plus by lra. lra. Qed.
End powers.

Lemma pow_le_1 a n : 0 < a → a <= 1 → a ^ Z.of_nat n <= 1.
Proof.
  intros Ha H1. induction n as [|n IH]; [done|]. rewrite pow_S by done.
  pose proof (pow_pos_nat a Ha n). nra.
Qed.
Lemma pow_ge_1 a n : 1 <= a → 1 <= a ^ Z.of_nat n.
Proof. intros Ha. induction n as [|n IH]; [done|]. rewrite pow_S by lra. nra. Qed.

#[global] Instance approx_proper n : Proper (Qeq ==> Qeq ==> iff) (approx n).
Proof. intros x x' Hx y y' Hy. unfold approx. by rewrite Hx, Hy. Qed.

Lemma approx_refl x : 0 <= x → approx 0 x x.
Proof. intros Hx. unfold approx. change (Z.of_nat 0) with 0%Z. simpl. lra. Qed.

Lemma approx_weaken n m x y : (n ≤ m)%nat → approx n x y → approx m x y.
Proof.
  intros Hnm (Hx & Hl & Hh). destruct roundoff_small as [H0 H1].
  replace m with (n + (m - n))%nat by lia. split; [done|]. rewrite !pow_add by lra.
  pose proof (pow_le_1 (1 - unit_roundoff) (m - n) ltac:(lra) ltac:(lra)) as Hp.
  pose proof (pow_ge_1 (1 + unit_roundoff) (m - n) ltac:(lra)) as Hq.
  pose proof (pow_pos_nat (1 - unit_roundoff) ltac:(lra) n) as Hn.
  pose proof (pow_pos_nat (1 + unit_roundoff) ltac:(lra) n) as Hn'.
  generalize dependent ((1 - unit_roundoff) ^ Z.of_nat n). intros a.
  generalize dependent ((1 + unit_roundoff) ^ Z.of_nat n). intros b.
  generalize dependent ((1 - unit_roundoff) ^ Z.of_nat (m - n)). intros c.
  generalize dependent ((1 + unit_roundoff) ^ Z.of_nat (m - n)). intros d. intros.
  assert (0 <= x * a) by nra. assert (0 <= x * b) by nra. split; nra.
Qed.

Lemma approx_nonneg n x y : approx n x y → 0 <= y.
Proof.
  intros (Hx & Hl & _). pose proof (pow_pos_nat (1 - unit_roundoff)) as Hp.
  destruct roundoff_small. specialize (Hp ltac:(lra) n). nra.
Qed.

(** One rounding. *)
Lemma rounds_error x y : 0 <= x → rounds PREC x y →
  x * (1 - unit_roundoff) <= y ∧ y <= x * (1 + unit_roundoff).
Proof.
  intros Hx [[Hx0 Hy0]|(k & h & Hlo & _ & (H1 & H2 & _) & Hy)]; [rewrite Hx0, Hy0; lra|].
  rewrite Qabs_pos in Hlo by done. pose proof (p10_pos k) as Hk. pose proof (p10_inv k) as Hi.
  assert (Hu : p10 k <= x * p10 (-27)).
  { apply p10_shift_le with (k := 27%Z). rewrite <-p10_plus.
    by replace (k + 27)%Z with (k + PREC - 1)%Z by (unfold PREC; lia). }
  assert (Hxk : x == x * p10 (- k) * p10 k) by (rewrite <-Qmult_assoc, (Qmult_comm (p10 (- k))), Hi; lra).
  unfold unit_roundoff. set (z := x * p10 (- k)) in *.
  assert (Hd : y - x == (inject_Z h - z) * p10 k) by (rewrite Hy, Hxk; lra).
  assert ((inject_Z h - z) * p10 k <= (1 # 2) * p10 k) by nra.
  assert (- ((1 # 2) * p10 k) <= (inject_Z h - z) * p10 k) by nra.
  split; lra.
Qed.
Lemma approx_rounds n x y z : approx n x y → rounds PREC y z → approx (S n) x z.
Proof.
  intros Ha Hr. pose proof (approx_nonneg n x y Ha) as Hy. destruct Ha as (Hx & Hl & Hh).
  destruct (rounds_error y z Hy Hr) as [H1 H2]. destruct roundoff_small as [H0 Hu].
  split; [done|]. rewrite !pow_S by lra. split; nra.
Qed.

(** Exact operations on approximations. *)
Lemma approx_mul n m x y a b : approx n x a → approx m y b → approx (n + m) (x * y) (a * b).
Proof.
  intros Ha Hb. pose proof (approx_nonneg _ _ _ Ha) as Pa. pose proof (approx_nonneg _ _ _ Hb) as Pb.
  destruct Ha as (Hx & Hl & Hh), Hb as (Hy & Hl' & Hh'). destruct roundoff_small as [H0 Hu].
  split; [nra|]. rewrite !pow_add by lra.
  pose proof (pow_pos_nat (1 - unit_roundoff) ltac:(lra) n) as P1.
  pose proof (pow_pos_nat (1 - unit_roundoff) ltac:(lra) m) as P2.
  pose proof (pow_pos_nat (1 + unit_roundoff) ltac:(lra) n) as P3.
  pose proof (pow_pos_nat (1 + unit_roundoff) ltac:(lra) m) as P4.
  generalize dependent ((1 - unit_roundoff) ^ Z.of_nat n). intros p1.
  generalize dependent ((1 - unit_roundoff) ^ Z.of_nat m). intros p2.
  generalize dependent ((1 + unit_roundoff) ^ Z.of_nat n). intros p3.
  generalize dependent ((1 + unit_roundoff) ^ Z.of_nat m). intros p4. intros.
  assert (0 <= x * p1) by nra. assert (0 <= y * p2) by nra. split.
  - apply Qle_trans with ((x * p1) * (y * p2)); [lra|]. apply Qle_trans with (a * (y * p2)); nra.
  - apply Qle_trans with ((x * p3) * (y * p4)); [|lra]. apply Qle_trans with (a * (y * p4)); nra.
Qed.
Lemma approx_scale n c x a : 0 <= c → approx n x a → approx n (x * c) (a * c).
Proof.
  intros Hc (Hx & Hl & Hh). split; [nra|].
  pose proof (pow_pos_nat (1 - unit_roundoff)). split; nra.
Qed.
Lemma approx_add n x y a b : approx n x a → approx n y b → approx n (x + y) (a + b).
Proof. intros (Hx & Hl & Hh) (Hy & Hl' & Hh'). split; [lra|]. split; lra. Qed.

(** * Facts about market snapshots

    The spread and the midpoint are exact; the average dollar volume is that of the
    latest twenty open sessions, within a few roundings, whatever the splits; a
    snapshot carries what the assembler derived and nothing it could not know. *)

Local Open Scope Z_scope.

(** ** The dollar volume of a bar: adjusting by a split changes nothing *)

Section volume.
Context (cutoff known_at : option Z).
Local Open Scope Q_scope.

Lemma inject_pos c : (0 < c)%Z → 0 < inject_Z c.
Proof. by rewrite Zlt_Qlt. Qed.
Lemma inject_nonneg c : (0 ≤ c)%Z → 0 <= inject_Z c.
Proof. by rewrite Zle_Qle. Qed.
Lemma approx_mul_Z n x a c : (0 < c)%Z → approx n x (dq a) →
  approx (S n) (x * inject_Z c) (dq (d_mul a (dec_of_Z c))).
Proof.
  intros Hc Ha. eapply approx_rounds; [|apply d_mul_rounds]. rewrite dq_of_Z. apply approx_scale; [|done].
  by apply Qlt_le_weak, inject_pos.
Qed.
Lemma approx_div_Z n x a c : (0 < c)%Z → approx n x (dq a) →
  approx (S n) (x * / inject_Z c) (dq (d_div a (dec_of_Z c))).
Proof.
  intros Hc%inject_pos Ha.
  eapply approx_rounds; [|apply d_div_rounds; rewrite dq_of_Z; lra]. rewrite dq_of_Z.
  apply approx_scale; [|done]. apply Qlt_le_weak, Qinv_lt_0_compat. lra.
Qed.

Definition valid_split (a : SplitAdjustment) : Prop := (0 < sa_numerator a ∧ 0 < sa_denominator a)%Z.

(** The exact product of close and volume is kept by every adjustment. *)
Lemma adjust_bar_keeps b splits : Forall valid_split splits → ∀ n C V acc,
  approx n C (dq acc.1) → approx n V (dq acc.2) →
  ∃ C' V', C' * V' == C * V ∧
    approx (n + 2 * length splits) C' (dq (foldl (adjust_bar cutoff known_at b) acc splits).1) ∧
    approx (n + 2 * length splits) V' (dq (foldl (adjust_bar cutoff known_at b) acc splits).2).
Proof.
  induction 1 as [|a splits [Hn Hd] _ IH]; intros n C V [close volume] HC HV; simpl.
  { exists C, V. by rewrite Nat.add_0_r. }
  assert (Hstep : ∃ C1 V1, C1 * V1 == C * V ∧
    approx (S (S n)) C1 (dq (adjust_bar cutoff known_at b (close, volume) a).1) ∧
    approx (S (S n)) V1 (dq (adjust_bar cutoff known_at b (close, volume) a).2)).
  { unfold adjust_bar. destruct (split_applies _ _ _ _); simpl in *.
    - exists (C * inject_Z (sa_denominator a) * / inject_Z (sa_numerator a)),
        (V * inject_Z (sa_numerator a) * / inject_Z (sa_denominator a)). split_and!.
      + apply inject_pos in Hn, Hd. field. split; lra.
      + by apply approx_div_Z, approx_mul_Z.
      + by apply approx_div_Z, approx_mul_Z.
    - exists C, V. split_and!; [lra|eapply approx_weaken; [|done]; lia..]. }
  destruct Hstep as (C1 & V1 & Heq & HC1 & HV1).
  destruct (IH _ _ _ _ HC1 HV1) as (C2 & V2 & Heq2 & HC2 & HV2). exists C2, V2.
  split; [by rewrite Heq2|]. split; eapply approx_weaken; [|exact HC2| |exact HV2]; lia.
Qed.

(** The exact dollar volume of a bar. *)
Definition bar_dollars (b : DailyBar) : Q := dq (db_close b) * inject_Z (db_volume b).
Definition valid_bar (b : DailyBar) : Prop := 0 < dq (db_close b) ∧ (0 ≤ db_volume b)%Z.

Lemma dollar_volume_approx splits b : Forall valid_split splits → valid_bar b →
  approx (4 * length splits + 1) (bar_dollars b) (dq (dollar_volume cutoff known_at splits b)).
Proof.
  intros Hs [Hc Hv]. unfold dollar_volume, bar_dollars.
  pose proof (adjust_bar_keeps b splits Hs 0 (dq (db_close b)) (inject_Z (db_volume b))
    (db_close b, dec_of_Z (db_volume b))) as H.
  destruct (foldl _ _ splits) as [close volume]. simpl fst in H. simpl snd in H. rewrite dq_of_Z in H.
  apply inject_nonneg in Hv.
  destruct H as (C & V & Heq & HC & HV); [apply approx_refl; lra|by apply approx_refl|].
  rewrite <-Heq. replace (4 * length splits + 1)%nat with (S ((0 + 2 * length splits) + (0 + 2 * length splits))) by lia.
  eapply approx_rounds; [|apply d_mul_rounds]. by apply approx_mul.
Qed.

Definition total_dollars (l : list DailyBar) : Q := foldr (λ b s, bar_dollars b + s) 0 l.
Lemma bar_dollars_nonneg b : valid_bar b → 0 <= bar_dollars b.
Proof.
  intros [Hc Hv%inject_nonneg]. unfold bar_dollars. nra.
Qed.

Lemma volumes_approx splits l : Forall valid_split splits → Forall valid_bar l → ∀ n x total,
  (4 * length splits + 1 ≤ n)%nat → approx n x (dq total) →
  approx (n + length l) (x + total_dollars l)
    (dq (foldl (λ t b, d_add t (dollar_volume cutoff known_at splits b)) total l)).
Proof.
  intros Hs. induction 1 as [|b l Hb _ IH]; intros n x total Hn Ht; simpl.
  { rewrite Nat.add_0_r. by rewrite Qplus_0_r. }
  rewrite Qplus_assoc. replace (n + S (length l))%nat with (S n + length l)%nat by lia.
  apply IH; [lia|]. eapply approx_rounds; [|apply d_add_rounds]. apply approx_add; [done|].
  eapply approx_weaken; [|by apply dollar_volume_approx]. lia.
Qed.

(** The average is that of the exact dollar volumes. *)
Lemma average_volume_approx splits l : Forall valid_split splits → Forall valid_bar l →
  approx (4 * length splits + 2 + length l) (total_dollars l * / inject_Z 20)
    (dq (average_volume cutoff known_at splits l)).
Proof.
  intros Hs Hl. unfold average_volume.
  replace (4 * length splits + 2 + length l)%nat with (S ((4 * length splits + 1) + length l)) by lia.
  apply approx_div_Z; [done|].
  pose proof (volumes_approx splits l Hs Hl (4 * length splits + 1) 0 dzero) as H.
  rewrite Qplus_0_l in H. apply H; [done|]. rewrite dq_zero. eapply approx_weaken; [|by apply approx_refl]. lia.
Qed.
End volume.

(** ** The required sessions *)

(** An open day of the calendar before a date. *)
Definition open_day (sessions : list MarketSession) (stop d : Z) : Prop :=
  d < stop ∧ ∃ s, s ∈ sessions ∧ ms_trading_date s = d ∧ open_kind s = true.
(** The [n] latest open days before a date, the latest first. *)
Definition latest_open_days (sessions : list MarketSession) (stop : Z) (n : nat) (l : list Z) : Prop :=
  length l = n ∧ StronglySorted Z.gt l ∧ (∀ d, d ∈ l → open_day sessions stop d) ∧
  (∀ d, open_day sessions stop d → d ∉ l → ∀ x, x ∈ l → d < x).

Lemma qualifying_spec sessions stop : NoDup (ms_trading_date <$> sessions) →
  StronglySorted Z.gt (qualifying_dates sessions (Some stop)) ∧
  ∀ d, d ∈ qualifying_dates sessions (Some stop) ↔ open_day sessions stop d.
Proof.
  intros Hn. unfold qualifying_dates. split.
  - assert (Hs : StronglySorted (flip Z.lt) (reverse (sort_by Z.leb (ms_trading_date <$>
      filter (λ s, open_kind s && (ms_trading_date s <? stop) = true) sessions)))).
    { apply StronglySorted_reverse, sort_Z_strict.
      eapply sublist_NoDup; [exact Hn|]. apply sublist_map, sublist_filter. }
    eapply StronglySorted_weaken; [|exact Hs]. unfold flip. intros; lia.
  - intros d. rewrite elem_of_reverse, elem_of_sort_by, list_elem_of_fmap. split.
    + intros (s & -> & [Hk Hs]%list_elem_of_filter). apply andb_true_iff in Hk as [Hk Hd%Z.ltb_lt].
      split; [done|]. by exists s.
    + intros (Hd & s & Hs & <- & Hk). exists s. split; [done|]. apply list_elem_of_filter.
      split; [|done]. apply andb_true_iff. split; [done|]. by apply Z.ltb_lt.
Qed.

Lemma take_latest sessions stop n l : StronglySorted Z.gt l →
  (∀ d, d ∈ l ↔ open_day sessions stop d) → (n ≤ length l)%nat →
  latest_open_days sessions stop n (take n l).
Proof.
  intros Hs Hl Hn. split_and!.
  - rewrite length_take. lia.
  - eapply StronglySorted_sublist; [apply sublist_take|done].
  - intros d Hd. apply Hl. by eapply elem_of_take in Hd as (? & ?%list_elem_of_lookup_2 & _).
  - intros d Hd%Hl Hn' x Hx. rewrite <-(take_drop n l) in Hd. apply elem_of_app in Hd as [Hd|Hd]; [done|].
    pose proof (StronglySorted_split _ n l x d Hs Hx Hd). lia.
Qed.

Lemma find_elem {A} (p : A → bool) l x : find p l = Some x → x ∈ l ∧ p x = true.
Proof. intros H. split; [|by eapply find_some]. apply list_elem_of_In. by eapply find_some. Qed.
Lemma bar_on_spec bars d b : bar_on bars d = Some b → b ∈ bars ∧ db_trading_date b = d.
Proof. intros [? ?%bool_decide_eq_true]%find_elem. done. Qed.

Lemma mapM_bars bars dates el : mapM (bar_on bars) dates = Some el →
  db_trading_date <$> el = dates ∧ ∀ b, b ∈ el → b ∈ bars.
Proof.
  intros H%mapM_Some. induction H as [|d b dates el Hb _ [<- IH]].
  { split; [done|]. by intros b ?%elem_of_nil. }
  apply bar_on_spec in Hb as [Hb <-]. split; [by rewrite fmap_cons|]. intros x [->|Hx]%elem_of_cons; auto.
Qed.
Lemma mapM_bars_None bars dates : mapM (bar_on bars) dates = None →
  ∃ d, d ∈ dates ∧ ∀ b, b ∈ bars → db_trading_date b ≠ d.
Proof.
  intros H. apply mapM_None_1, Exists_exists in H as (d & Hd & Hb). exists d. split; [done|].
  intros b Hin Hbd. unfold bar_on in Hb. apply list_elem_of_In in Hin.
  pose proof (find_none _ _ Hb b Hin) as Hf. simpl in Hf. apply bool_decide_eq_false in Hf. done.
Qed.

(** ** What the loops and the checks accept *)

#[export] Hint Unfold require_complete_weekday_window : raises.
Lemma raises_window s : raises EValueError (validate_nyse_session_window s).
Proof. unfold validate_nyse_session_window. destruct (ms_regular_session s); cbv zeta; auto with raises. Qed.
Lemma raises_nyse l : raises EValueError (validate_nyse_sessions l).
Proof.
  unfold validate_nyse_sessions. cbv zeta. do 5 (apply raises_bind; [auto using raises_window with raises|intros]).
  done.
Qed.
Lemma raises_index c k seen bars : raises EValueError (index_bars c k seen bars).
Proof. revert seen. induction bars as [|b bars IH]; intros seen; simpl; auto with raises. Qed.
Lemma raises_adv_inputs bars sessions splits c k sid :
  raises EValueError (check_adv_inputs bars sessions splits c k sid).
Proof.
  unfold check_adv_inputs, verify_split, target_security. auto 40 using raises_nyse with raises.
Qed.
Lemma raises_eligible bars sessions c : raises EValueError (eligible_bars bars sessions c).
Proof.
  unfold eligible_bars, require_complete_weekday_window. cbv zeta. destruct c as [c|]; simpl.
  - destruct (_ <? _)%nat; [done|]. destruct (mapM _ _); auto with raises.
  - destruct (_ <? _)%nat; [done|]. apply raises_bind; [|done]. destruct (last _); auto with raises.
Qed.

(** ** The twenty latest open sessions are determined *)

Lemma sorted_gt_NoDup l : StronglySorted Z.gt l → NoDup l.
Proof.
  induction 1 as [|x l _ IH Hx]; constructor; [|done]. intros Hin.
  rewrite Forall_forall in Hx. specialize (Hx x Hin). lia.
Qed.
Lemma latest_incl sessions stop n l l' : latest_open_days sessions stop n l →
  latest_open_days sessions stop n l' → ∀ d, d ∈ l → d ∈ l'.
Proof.
  intros (Hn & Hs & Ho & Hl) (Hn' & Hs' & Ho' & Hl') d Hd.
  destruct (decide (d ∈ l')) as [|Hout]; [done|]. exfalso.
  assert (Hex : ¬ ∀ x, x ∈ l' → x ∈ l).
  { intros Hin. assert (Hp : l' ≡ₚ l).
    { apply submseteq_length_Permutation; [|lia].
      apply NoDup_submseteq; [by apply sorted_gt_NoDup|done]. }
    apply Hout. by rewrite Hp. }
  apply Hex. intros x Hx. destruct (decide (x ∈ l)) as [|Hx']; [done|]. exfalso.
  pose proof (Hl' d (Ho d Hd) Hout x Hx). pose proof (Hl x (Ho' x Hx) Hx' d Hd). lia.
Qed.
Lemma latest_unique sessions stop n l l' : latest_open_days sessions stop n l →
  latest_open_days sessions stop n l' → l = l'.
Proof.
  intros H H'. apply (StronglySorted_unique_strong Z.gt); [intros; lia|apply H|apply H'|].
  apply NoDup_Permutation; [apply sorted_gt_NoDup, H|apply sorted_gt_NoDup, H'|].
  intros d. split; by eapply latest_incl.
Qed.
Lemma latest_enough sessions stop n q l : (∀ d, d ∈ q ↔ open_day sessions stop d) →
  latest_open_days sessions stop n l → (n ≤ length q)%nat.
Proof.
  intros Hq (<- & Hs & Ho & _). apply submseteq_length, NoDup_submseteq; [by apply sorted_gt_NoDup|].
  intros d Hd. by apply Hq, Ho.
Qed.

(** ** The average over the twenty latest open sessions *)

(** What the checks of the inputs leave. *)
Lemma check_adv_inputs_Ok bars sessions splits c k sid :
  check_adv_inputs bars sessions splits (Some c) (Some k) (Some sid) = Ok () →
  k ≤ c ∧ NoDup (ms_trading_date <$> sessions) ∧ ∀ b, b ∈ bars → db_security_id b = sid.
Proof.
  unfold check_adv_inputs, validate_nyse_sessions. cbv beta iota zeta. intros H. ok_steps. ok_facts.
  split_and!; [lia|done|]. intros b Hb. destruct bars as [|b0 bars]; [by apply elem_of_nil in Hb|].
  match goal with H : target_security _ _ = _ |- _ => injection H as <- end.
  match goal with H : binds_target db_security_id _ _ = true |- _ => apply (forallb_elem _ _ b) in H; [|done]; by apply bool_decide_eq_true in H end.
Qed.
Lemma index_bars_Ok c k seen bars : index_bars (Some c) (Some k) seen bars = Ok () →
  ∀ b, b ∈ bars → db_trading_date b < utc_date c ∧ db_available_at b ≤ k.
Proof.
  revert seen. induction bars as [|b bars IH]; intros seen H x; [by intros ?%elem_of_nil|].
  simpl in H. ok_steps. ok_facts. intros [->|Hx]%elem_of_cons; [done|]. by eapply IH.
Qed.

(** The bars of the twenty latest open sessions, all of them known. *)
Definition twenty_bars (bars : list DailyBar) (sessions : list MarketSession) (c : Z) (el : list DailyBar) : Prop :=
  latest_open_days sessions (utc_date c) ADV_REQUIRED_SESSIONS (db_trading_date <$> el) ∧
  ∀ b, b ∈ el → b ∈ bars.

Lemma bar_on_exists bars b : b ∈ bars → is_Some (bar_on bars (db_trading_date b)).
Proof.
  intros Hb%list_elem_of_In. unfold bar_on. destruct (find _ _) eqn:Hf; [done|].
  apply (find_none _ _ Hf) in Hb. by apply bool_decide_eq_false in Hb.
Qed.
Lemma eligible_decides bars sessions c o : NoDup (ms_trading_date <$> sessions) →
  eligible_bars bars sessions (Some c) = Ok o →
  match o with
  | Some el => twenty_bars bars sessions c el
  | None => ∀ el, ¬ twenty_bars bars sessions c el
  end.
Proof.
  intros Hn. destruct (qualifying_spec sessions (utc_date c) Hn) as [Hs Hq].
  unfold eligible_bars. set (q := qualifying_dates _ _) in *.
  pose proof (take_latest sessions (utc_date c) ADV_REQUIRED_SESSIONS q Hs Hq) as Ht.
  destruct (Nat.ltb_spec (length (take ADV_REQUIRED_SESSIONS q)) ADV_REQUIRED_SESSIONS) as [Hlt|Hge];
    rewrite length_take in *.
  { intros [= <-] el [Hl _]. pose proof (latest_enough _ _ _ q _ Hq Hl). lia. }
  specialize (Ht ltac:(lia)). destruct (mapM _ _) as [el|] eqn:Hm; intros H; ok_steps; subst.
  - apply mapM_bars in Hm as [Hd Hin]. split; [by rewrite Hd|done].
  - intros el [Hl Hin]. pose proof (latest_unique _ _ _ _ _ Ht Hl) as Heq.
    apply mapM_bars_None in Hm as (d & Hd & Hno). rewrite Heq in Hd.
    apply list_elem_of_fmap in Hd as (b & -> & Hb). by apply (Hno b); [apply Hin|].
Qed.

(** C31. The 20-session average dollar volume.  Every failure is a ValueError.  When a
    value is returned, no bar is dated at or after the cutoff day or was available
    only after known_at, all bars are of the security asked for, and the value is
    the mean of close times volume over the bars of the twenty latest open sessions
    before the cutoff, up to (4 * splits + 22) roundings to 28 digits: adjusting for
    splits never changes it.  None is returned exactly when those twenty bars are
    not all there. *)
Theorem adv20_decides bars sessions splits c k sid
    (Hbars : Forall valid_bar bars) (Hsplits : Forall valid_split splits) :
  match compute_adv20 bars sessions splits (Some c) (Some k) (Some sid) with
  | Raise e => exn_cls e = EValueError
  | Ok v =>
      k ≤ c ∧ (∀ b, b ∈ bars → db_security_id b = sid ∧ db_trading_date b < utc_date c ∧ db_available_at b ≤ k) ∧
      match v with
      | Some adv => ∃ el, twenty_bars bars sessions c el ∧
          approx (4 * length splits + 22) (total_dollars el * / inject_Z 20)%Q (dq adv)
      | None => ∀ el, ¬ twenty_bars bars sessions c el
      end
  end.
Proof.
  unfold compute_adv20, adv20_at. destruct (_ ≫= _) as [v|e] eqn:H.
  - ok_steps. apply check_adv_inputs_Ok in H0 as (Hk & Hn & Hsid).
    pose proof (index_bars_Ok _ _ _ _ H1) as Hi. split; [done|]. split; [naive_solver|].
    apply (eligible_decides _ _ _ _ Hn) in H2. destruct x1 as [el|]; simpl in *; subst v; [|done].
    exists el. split; [done|].
    eapply approx_weaken; [|apply average_volume_approx; [done|]].
    + destruct H2 as [(Hl & _) _]. rewrite length_fmap in Hl. rewrite Hl. unfold ADV_REQUIRED_SESSIONS. lia.
    + apply Forall_forall. intros b Hb. rewrite Forall_forall in Hbars. by apply Hbars, H2.
  - revert H. apply raises_inv. apply raises_bind; [apply raises_adv_inputs|intros].
    apply raises_bind; [apply raises_index|intros]. apply raises_bind; [apply raises_eligible|by intros].
Qed.

(** Four weeks of a calendar, flat bars before a two-for-one split, and the average. *)
Definition demo_first : Z := 19723.
Definition demo_session (d : Z) : MarketSession :=
  if weekday d <? 5
  then mk_Session d REGULAR (Some (mk_Window (d * DAY + 870 * 60 * SECOND) (d * DAY + 1260 * 60 * SECOND)))
  else mk_Session d CLOSED None.
Definition demo_sessions : list MarketSession := demo_session <$> seqZ demo_first 29.
Definition demo_digest : string := "aaaaaaaaaaaaaaaaaaaaaaaaaaaaaaaaaaaaaaaaaaaaaaaaaaaaaaaaaaaaaaaa".
Definition demo_bar_ref : SourceRef := mk_SourceRef "bars-1" ALPACA_HISTORICAL_BARS demo_digest.
Definition demo_bar (d : Z) : DailyBar :=
  mk_Bar d (mk_dec (if d <? demo_first + 14 then 2000 else 1000) (-2))
    (if d <? demo_first + 14 then 100 else 200) demo_bar_ref SIP_DELAYED ((d + 1) * DAY) "sec-1" demo_digest.
Definition demo_bars : list DailyBar :=
  demo_bar <$> filter (λ d, (weekday d <? 5) = true) (seqZ demo_first 28).
Definition demo_split_ref : SourceRef := mk_SourceRef "split-1" ALPACA_CORPORATE_ACTIONS demo_digest.
Definition demo_split : SplitAdjustment :=
  mk_Split "sec-1" (demo_first + 14) 2 1 demo_split_ref (demo_first * DAY) "event-1" demo_digest demo_digest
    FORWARD_SPLIT (demo_first + 14) [demo_split_ref].
Definition demo_cutoff : Z := (demo_first + 28) * DAY + 900 * 60 * SECOND.

Lemma adv20_decides_witness :
  (∃ adv, compute_adv20 demo_bars demo_sessions [demo_split] (Some demo_cutoff) (Some demo_cutoff)
     (Some "sec-1") = Ok (Some adv) ∧ dec_eqb adv (dec_of_Z 2000) = true) ∧
  match compute_adv20 demo_bars demo_sessions [demo_split] (Some demo_cutoff) (Some demo_cutoff) (Some "sec-1") with
  | Raise e => exn_cls e = EValueError
  | Ok v =>
      demo_cutoff ≤ demo_cutoff ∧
      (∀ b, b ∈ demo_bars → db_security_id b = "sec-1" ∧ db_trading_date b < utc_date demo_cutoff ∧
        db_available_at b ≤ demo_cutoff) ∧
      match v with
      | Some adv => ∃ el, twenty_bars demo_bars demo_sessions demo_cutoff el ∧
          approx (4 * length [demo_split] + 22) (total_dollars el * / inject_Z 20)%Q (dq adv)
      | None => ∀ el, ¬ twenty_bars demo_bars demo_sessions demo_cutoff el
      end
  end.
Proof.
  split; [eexists; split; vm_compute; reflexivity|].
  apply (adv20_decides demo_bars demo_sessions [demo_split] demo_cutoff demo_cutoff "sec-1").
  - apply Forall_fmap, Forall_forall. intros d _. unfold valid_bar. simpl.
    destruct (d <? demo_first + 14); done.
  - by repeat constructor.
Defined.
