(* ===== verification/SnapshotFacts.v ===== *)
(** * Facts about the market snapshots that are assembled

    The spread of a snapshot is that of its prices in exact arithmetic, its labels
    say what its quote and its bars are, nothing in it was known only later, and
    the stored snapshot is read back as it is. *)

From S2P Require Import Prelude Errors Dicts Text Orders Decimals MarketFacts LedgerFacts Calendar Json Instants.
From S2P Require Import Market Sources Identity Actions SourceLog Quarantine Universe.
From Stdlib Require Import QArith Qround Qabs Lqa.
Local Open Scope Z_scope.

(** ** The spread *)

Section spread.
Context (bid ask : Decimal).
Local Definition low : Z := Z.min (dec_exp bid) (dec_exp ask).
Lemma prices_at : (dq bid == inject_Z (dec_at low bid) * p10 low)%Q ∧
  (dq ask == inject_Z (dec_at low ask) * p10 low)%Q.
Proof. split; apply dq_at; unfold low; lia. Qed.

(** Wide exactly when the spread exceeds thirty basis points of the midpoint. *)
Lemma spread_wide : (spread_exact bid ask).2 = true ↔
  (inject_Z MAX_SPREAD_BPS * (dq bid + dq ask) < inject_Z 20000 * (dq ask - dq bid))%Q.
Proof.
  unfold spread_exact. fold low. cbv zeta. simpl snd. destruct prices_at as [-> ->].
  pose proof (p10_pos low) as Hp. rewrite Z.ltb_lt, Zlt_Qlt.
  rewrite !inject_Z_mult, inject_Z_plus. unfold Z.sub. rewrite inject_Z_plus, inject_Z_opp.
  set (b := inject_Z (dec_at low bid)). set (a := inject_Z (dec_at low ask)).
  rewrite <-(Qmult_lt_r _ _ (p10 low)) by done.
  split; intros H; eapply Qle_lt_trans; [|eapply Qlt_le_trans; [exact H|]| |eapply Qlt_le_trans; [exact H|]]; lra.
Qed.
(** The basis points are those of the exact quotient, rounded down. *)
Lemma spread_floor : (0 < dq bid)%Q → (dq bid <= dq ask)%Q →
  (spread_exact bid ask).1 = Qfloor (inject_Z 20000 * (dq ask - dq bid) / (dq bid + dq ask)).
Proof.
  unfold spread_exact. fold low. cbv zeta. simpl fst. destruct prices_at as [Hb Ha].
  pose proof (p10_pos low) as Hp. intros H0 Hle. rewrite Hb in H0. rewrite Hb, Ha in Hle.
  rewrite Zdiv_Qdiv. apply Qfloor_comp. rewrite Hb, Ha.
  rewrite !inject_Z_mult, inject_Z_plus. unfold Z.sub. rewrite inject_Z_plus, inject_Z_opp.
  set (b := inject_Z (dec_at low bid)) in *. set (a := inject_Z (dec_at low ask)) in *.
  field. split; nra.
Qed.

(** Halving is exact when the sum of the prices, in units of their smaller exponent, is
    small enough for the precision. *)
Lemma mid_exact_at (prec : Z) :
  prec = Z.max PREC (Z.max (decimal_digits bid) (decimal_digits ask) + 2) →
  0 ≤ dec_at low bid + dec_at low ask → 5 * (dec_at low bid + dec_at low ask) ≤ 10 ^ prec →
  (dq (mid_exact bid ask) * 2 == dq bid + dq ask)%Q.
Proof.
  intros Hprec H0 Hn. assert (Hp : 0 < prec) by (unfold PREC in Hprec; lia).
  unfold mid_exact. cbv zeta. rewrite <-Hprec. fold low. set (n := dec_at low bid + dec_at low ask) in *.
  assert (Hsum : (dq bid + dq ask == inject_Z n * p10 low)%Q).
  { destruct prices_at as [-> ->]. unfold n. rewrite inject_Z_plus. ring. }
  set (sum := round_ratio prec n 1 low).
  assert (Hs : (dq sum == inject_Z n * p10 low)%Q).
  { apply (rounds_exact prec _ _ n low Hp); [lia|done|]. apply round_ratio_rounds; [done|lia|].
    change (inject_Z 1) with 1%Q. ring. }
  set (half := (inject_Z (5 * n) * p10 (low - 1))%Q).
  assert (Hhalf : (half * inject_Z 2 == dq sum)%Q).
  { rewrite Hs. unfold half. replace low with (low - 1 + 1) at 2 by lia. rewrite p10_plus, inject_Z_mult.
    change (p10 1) with (inject_Z 10). change (inject_Z 10) with (inject_Z 5 * inject_Z 2)%Q. ring. }
  rewrite Hsum, <-Hs, <-Hhalf.
  assert (Hm : (dq (round_ratio prec (dec_coeff sum) 2 (dec_exp sum)) == half)%Q); [|by rewrite Hm].
  apply (rounds_exact prec _ _ (5 * n) (low - 1) Hp); [lia|done|].
  apply round_ratio_rounds; [done|lia|]. by rewrite Hhalf.
Qed.
(** So it is for prices of one exponent, and for a sum of at most 27 digits. *)
Lemma mid_is_half : 0 < dec_coeff bid → 0 < dec_coeff ask →
  dec_exp bid = dec_exp ask ∨ dec_at low bid + dec_at low ask ≤ 10 ^ 27 →
  (dq (mid_exact bid ask) * 2 == dq bid + dq ask)%Q.
Proof.
  intros Hb Ha H. eapply mid_exact_at; [reflexivity| |].
  - unfold dec_at. pose proof (Z.pow_nonneg 10 (dec_exp bid - low)). pose proof (Z.pow_nonneg 10 (dec_exp ask - low)). nia.
  - set (d := Z.max (decimal_digits bid) (decimal_digits ask)). destruct H as [H|H].
    + assert (Hl : low = dec_exp bid ∧ low = dec_exp ask) by (unfold low; lia). destruct Hl as [Hl1 Hl2].
      unfold dec_at. rewrite <-Hl1, <-Hl2, Z.sub_diag, !Z.mul_1_r.
      pose proof (ndigits_spec (dec_coeff bid) Hb) as [H1 [_ H2]].
      pose proof (ndigits_spec (dec_coeff ask) Ha) as [H3 [_ H4]].
      assert (Hd : 10 ^ (d + 2) ≤ 10 ^ Z.max PREC (d + 2)) by (apply Z.pow_le_mono_r; lia).
      assert (Eb : decimal_digits bid = ndigits (dec_coeff bid)) by (unfold decimal_digits; by rewrite Z.abs_eq by lia).
      assert (Ea : decimal_digits ask = ndigits (dec_coeff ask)) by (unfold decimal_digits; by rewrite Z.abs_eq by lia).
      assert (Hdb : 10 ^ ndigits (dec_coeff bid) ≤ 10 ^ d) by (apply Z.pow_le_mono_r; lia).
      assert (Hda : 10 ^ ndigits (dec_coeff ask) ≤ 10 ^ d) by (apply Z.pow_le_mono_r; lia).
      rewrite Z.pow_add_r in Hd by lia. lia.
    + assert (Hd : 10 ^ PREC ≤ 10 ^ Z.max PREC (d + 2)) by (apply Z.pow_le_mono_r; lia).
      etrans; [|exact Hd]. etrans; [apply Z.mul_le_mono_nonneg_l; [lia|exact H]|].
      apply Z.leb_le. vm_compute. reflexivity.
Qed.
End spread.

(** ** The final snapshot, and reading it back *)

Section final.
Context (set_order : list SourceRef → list SourceRef) (snapshot_digest : MarketSnapshot → string).

Lemma with_hash_twice h h' s : with_snapshot_hash h (with_snapshot_hash h' s) = with_snapshot_hash h s.
Proof. done. Qed.
Lemma fields_of_hashed h s : validate_market_snapshot_fields set_order (with_snapshot_hash h s) =
  validate_market_snapshot_fields set_order s.
Proof. done. Qed.
Lemma hash_of_hashed h s :
  snapshot_compute_hash snapshot_digest (with_snapshot_hash h s) = snapshot_compute_hash snapshot_digest s.
Proof. done. Qed.

Lemma finalize_Ok s t : finalize_market_snapshot set_order snapshot_digest s = Ok t →
  t = with_snapshot_hash (snapshot_compute_hash snapshot_digest s) s ∧
  validate_market_snapshot_fields set_order s = Ok () ∧ check_MarketSnapshot set_order snapshot_digest t = Ok ().
Proof.
  unfold finalize_market_snapshot. cbv zeta. intros H. ok_steps. subst t. done.
Qed.
Lemma fields_prices s : validate_market_snapshot_fields set_order s = Ok () → check_prices s = Ok ().
Proof. unfold validate_market_snapshot_fields. intros H. by ok_steps. Qed.

Lemma finalize_again s t : finalize_market_snapshot set_order snapshot_digest s = Ok t →
  finalize_market_snapshot set_order snapshot_digest t = Ok t.
Proof.
  intros H. pose proof (finalize_Ok s t H) as (-> & Hf & Hc). revert H. unfold finalize_market_snapshot.
  rewrite fields_of_hashed, hash_of_hashed, with_hash_twice, Hf, Hc. done.
Qed.
Lemma finalize_reconstructs s t : finalize_market_snapshot set_order snapshot_digest s = Ok t →
  reconstruct_market_snapshot set_order snapshot_digest t = Ok t.
Proof.
  intros H. pose proof (finalize_again s t H) as H'.
  destruct (finalize_Ok t t H') as (_ & Hf & Hc). pose proof (fields_prices t Hf) as Hp.
  unfold check_MarketSnapshot in Hc. unfold check_prices in Hp. cbv zeta in Hp.
  unfold reconstruct_market_snapshot. rewrite H'. ok_steps.
  repeat match goal with H : _ = true |- _ => rewrite H; clear H end. simpl.
  by rewrite bool_decide_eq_true_2.
Qed.
End final.

(** ** The findings of a snapshot *)

Lemma in_snapshot_reasons r fr wide adv mixed :
  r ∈ snapshot_reasons fr wide adv mixed ↔
    r ∈ fr ∨ (wide = true ∧ r = SPREAD_TOO_WIDE) ∨ (adv = None ∧ r = ADV_BELOW_MINIMUM) ∨
    (mixed = true ∧ r = MARKET_DATA_CONFLICT).
Proof.
  unfold snapshot_reasons, canonical_reasons. rewrite elem_of_sort_by, !elem_of_app.
  destruct wide, mixed; case_bool_decide; set_solver.
Qed.
Lemma elem_of_stale r (b : bool) :
  r ∈ (if b then [] else [QUOTE_MISSING_OR_STALE]) ↔ b = false ∧ r = QUOTE_MISSING_OR_STALE.
Proof. destruct b; set_solver. Qed.
Lemma derive_freshness_Ok q as_of sessions f fr :
  derive_freshness q as_of sessions QUOTE_MAX_AGE_SECONDS = Ok (f, fr) → f ≠ CONFLICT →
  qi_observed_at q ≤ qi_received_at q ∧ qi_received_at q ≤ as_of ∧
  (f = FRESH ↔ as_of - qi_observed_at q ≤ 5 * SECOND) ∧ (f = FRESH ∨ f = STALE) ∧
  fr = (if bool_decide (f = FRESH) then [] else [QUOTE_MISSING_OR_STALE]).
Proof.
  unfold derive_freshness. cbv zeta.
  destruct (Z.ltb_spec as_of (qi_observed_at q)); [by intros [= <- <-]|].
  destruct (Z.ltb_spec (qi_received_at q) (qi_observed_at q)); [by intros [= <- <-]|].
  destruct (Z.ltb_spec as_of (qi_received_at q)); [by intros [= <- <-]|]. simpl.
  destruct (session_on _ _) as [s|]; [|by intros [= <- <-]]. destruct (_ && _); [|by intros [= <- <-]].
  unfold QUOTE_MAX_AGE_SECONDS.
  destruct (Z.ltb_spec (5 * SECOND) (as_of - qi_observed_at q)); intros [= <- <-] _; split_and!; try lia; try done;
    first [by left | by right | split; [try done; lia|try done; lia]].
Qed.

Lemma dec_positive_spec d : dec_positive d = true ↔ (0 < dq d)%Q.
Proof.
  unfold dec_positive, dec_ltb. rewrite negb_true_iff, <-not_true_iff_false, dec_leb_spec, dq_zero. split; lra.
Qed.
(** What the validation of the fields says of the prices, the calendar and the times. *)
Lemma fields_facts set_order s : validate_market_snapshot_fields set_order s = Ok () →
  (0 < dq (sn_bid s))%Q ∧ (dq (sn_bid s) <= dq (sn_ask s))%Q ∧
  sn_spread_bps s = (spread_exact (sn_bid s) (sn_ask s)).1 ∧
  open_at (sn_sessions s) (sn_as_of s) = true ∧
  ∀ a, a ∈ sn_split_adjustments s → sa_available_at a ≤ sn_known_at s.
Proof.
  unfold validate_market_snapshot_fields, check_prices, check_calendar, check_times. cbv zeta. intros H.
  ok_steps. ok_facts. split_and!; [|by apply dec_leb_spec|done|done|].
  - by apply dec_positive_spec.
  - intros a Ha. eapply Z.leb_le, (forallb_elem (λ a, sa_available_at a <=? sn_known_at s)); eauto.
Qed.

(** ** The assembler *)

Section assembled.
Context (set_order : list SourceRef → list SourceRef) (snapshot_digest : MarketSnapshot → string).
Notation assemble := (assemble_market_snapshot set_order snapshot_digest).

(** What the snapshot shows of its quote as it is, and its labels. *)
Record copied_labels (symbol version : string) (q : QuoteInput) (s : MarketSnapshot) : Prop := {
  cl_symbol : qi_symbol q = symbol;
  cl_feed : sn_feed s = IEX ∧ qi_feed q = IEX;
  cl_entitlement : sn_entitlement s = ENTITLED_IEX ∧ qi_entitlement q = ENTITLED_IEX;
  cl_times : sn_observed_at s = qi_observed_at q ∧ sn_received_at s = qi_received_at q;
  cl_source : sn_quote_source_ref s = qi_source_ref q;
  cl_coverage : sn_coverage s = LIMITED ∧ sn_coverage_warning s = Some "IEX limited market coverage";
  cl_versions : sn_producer_version s = "p4c.market.v1" ∧ sn_schema_version s = version;
}.

(** The steps of a successful assembly. *)
Lemma assemble_Ok security_id symbol as_of known_at q bars sessions splits last version s :
  assemble security_id symbol as_of known_at q bars sessions splits last version = Ok s →
  ∃ f fr adv raw, known_at ≤ as_of ∧ qi_received_at q ≤ known_at ∧
    derive_freshness q as_of sessions QUOTE_MAX_AGE_SECONDS = Ok (f, fr) ∧ f ≠ CONFLICT ∧
    compute_adv20 bars sessions splits (Some as_of) (Some known_at) (Some security_id) = Ok adv ∧
    finalize_market_snapshot set_order snapshot_digest raw = Ok s ∧
    (sn_security_id raw, sn_symbol raw, sn_as_of raw, sn_known_at raw) = (security_id, symbol, as_of, known_at) ∧
    (sn_bid raw, sn_ask raw, sn_freshness raw, sn_adv20_usd raw) = (qi_bid q, qi_ask q, f, adv) ∧
    (sn_sessions raw, sn_split_adjustments raw, sn_quote_source_ref raw) = (sessions, splits, qi_source_ref q) ∧
    sn_reasons raw = snapshot_reasons fr (spread_exact (qi_bid q) (qi_ask q)).2 adv
      (negb (forallb (λ b, bool_decide (Some (db_feed b) = db_feed <$> head bars)) bars)) ∧
    copied_labels symbol version q raw ∧
    (sn_mid raw, sn_last raw) = (mid_exact (qi_bid q) (qi_ask q), Some (mid_exact (qi_bid q) (qi_ask q))) ∧
    (∀ l, last = Some l → dq l == dq (mid_exact (qi_bid q) (qi_ask q)))%Q ∧
    sn_bar_feed raw = db_feed <$> head bars ∧
    sn_bar_refs raw = sort_by record_id_leb (set_order (db_source_ref <$> bars)) ∧
    sn_bar_dates raw = sort_by Z.leb (remove_dups (db_trading_date <$> bars)) ∧
    sn_split_adjustment_refs raw = sort_by ref_triple_leb (set_order (sa_source_ref <$> splits)).
Proof.
  unfold assemble_market_snapshot. cbv zeta. intros H.
  destruct (spread_exact (qi_bid q) (qi_ask q)) as [bps wide] eqn:Hs. cbv beta iota in H. ok_steps.
  match goal with x : Freshness * _ |- _ => destruct x as [f fr] end. ok_steps. ok_facts.
  eexists f, fr, _, _. split_and!; eauto; [by split|]. intros l ->. by apply dec_eqb_spec.
Qed.

(** The midpoint of prices of one exponent, or whose sum has at most 27 digits in units
    of the smaller exponent, has an exact half under the precision of the code. *)
Definition halves_exactly (bid ask : Decimal) : Prop :=
  let e := Z.min (dec_exp bid) (dec_exp ask) in
  dec_exp bid = dec_exp ask ∨ dec_at e bid + dec_at e ask ≤ 10 ^ 27.

(** What the snapshot says of its bars and splits. *)
Record shows_bars (bars : list DailyBar) (splits : list SplitAdjustment) (s : MarketSnapshot) : Prop := {
  sb_dates : sn_bar_dates s = db_trading_date <$> bars ∧ StronglySorted Z.lt (sn_bar_dates s);
  sb_feed : sn_bar_feed s = (if decide (bars = []) then None else Some SIP_DELAYED) ∧
    ∀ b, b ∈ bars → db_feed b = SIP_DELAYED;
  sb_splits : sn_split_adjustments s = splits;
  sb_refs : (∀ l, set_order l ≡ₚ remove_dups l) →
    sn_bar_refs s ≡ₚ remove_dups (db_source_ref <$> bars) ∧
    sn_split_adjustment_refs s ≡ₚ remove_dups (sa_source_ref <$> splits);
  sb_order : StronglySorted (λ r r', String.leb (ref_record_id r) (ref_record_id r') = true) (sn_bar_refs s);
}.

Lemma index_bars_distinct c k seen bars : index_bars c k seen bars = Ok () →
  NoDup (db_trading_date <$> bars) ∧ ∀ d, d ∈ seen → d ∉ db_trading_date <$> bars.
Proof.
  revert seen. induction bars as [|b bars IH]; intros seen H; [split; [constructor|by intros ?? ?%elem_of_nil]|].
  simpl in H. ok_steps. ok_facts. apply IH in H as [Hn Hs]. rewrite fmap_cons. split.
  - constructor; [apply Hs; by left|done].
  - intros d Hd [->|Hin]%elem_of_cons; [done|]. by apply (Hs d); [right|].
Qed.
Lemma adv_bars bars sessions splits c k sid v :
  compute_adv20 bars sessions splits (Some c) (Some k) (Some sid) = Ok v →
  (∀ b, b ∈ bars → db_feed b = SIP_DELAYED) ∧ StronglySorted Z.lt (db_trading_date <$> bars).
Proof.
  unfold compute_adv20, adv20_at. intros (u & Hc & H)%obind_Ok. apply obind_Ok in H as ([] & Hi & _).
  apply index_bars_distinct in Hi as [Hn _]. unfold check_adv_inputs in Hc. cbv beta iota zeta in Hc.
  ok_steps. ok_facts. split.
  - intros b Hb. match goal with H : forallb _ bars = true |- _ =>
      apply (forallb_elem _ _ b) in H; [by apply bool_decide_eq_true in H|done] end.
  - apply sorted_lt; [|done].
    match goal with H : ordered_dates _ = true |- _ => by apply bool_decide_eq_true in H end.
Qed.
(** The bars of the assembler have one feed. *)
Lemma mixed_feeds bars : (∀ b, b ∈ bars → db_feed b = SIP_DELAYED) →
  negb (forallb (λ b, bool_decide (Some (db_feed b) = db_feed <$> head bars)) bars) = false.
Proof.
  intros Hf. apply negb_false_iff, forallb_forall. intros b Hb%list_elem_of_In. apply bool_decide_eq_true.
  destruct bars as [|b0 bars]; [by apply elem_of_nil in Hb|]. simpl. by rewrite !Hf by (done || by left).
Qed.
Lemma raw_shows_bars bars splits h raw :
  (∀ b, b ∈ bars → db_feed b = SIP_DELAYED) → StronglySorted Z.lt (db_trading_date <$> bars) →
  sn_split_adjustments raw = splits → sn_bar_feed raw = db_feed <$> head bars →
  sn_bar_refs raw = sort_by record_id_leb (set_order (db_source_ref <$> bars)) →
  sn_bar_dates raw = sort_by Z.leb (remove_dups (db_trading_date <$> bars)) →
  sn_split_adjustment_refs raw = sort_by ref_triple_leb (set_order (sa_source_ref <$> splits)) →
  shows_bars bars splits (with_snapshot_hash h raw).
Proof.
  intros Hfeed Hdates Hs F1 F2 F3 F4. split; simpl; [| |done| |].
  - by rewrite F3, remove_dups_distinct, sorted_lt_sort by (done || by apply sorted_lt_NoDup).
  - rewrite F1. split; [|done]. destruct bars as [|b bars]; [done|].
    simpl. by rewrite Hfeed by by left.
  - intros Hset. rewrite F2, F4, !sort_by_perm. by split.
  - rewrite F2. apply (sort_by_sorted record_id_leb); unfold record_id_leb; intros.
    + by apply str_leb_total.
    + by eapply str_leb_trans.
Qed.
Lemma price_coeff d : (0 < dq d)%Q → 0 < dec_coeff d.
Proof.
  unfold dq. intros H. pose proof (p10_pos (dec_exp d)) as Hp. apply Z.nle_gt. intros Hle.
  rewrite Zle_Qle in Hle.
  change (inject_Z 0) with 0%Q in Hle. nra.
Qed.

(** C32. The assembler of market snapshots.  A snapshot it returns is of the security, the
    symbol and the times asked for and shows the quote it was given: its IEX feed, prices,
    times and source, the midpoint of its prices, exact whenever they have one exponent or a
    sum of at most 27 digits, which is also the last price.  It says of the quote exactly what
    is true: FRESH when it is at most five seconds old and stale otherwise, too wide when the
    spread exceeds thirty basis points of the midpoint in exact arithmetic, with the basis
    points of the exact quotient rounded down.  It says of the bars exactly what is true: their
    dates, strictly increasing, their delayed feed, their sources and those of the splits; the
    average volume is that of [compute_adv20], and its absence is a finding.  There is no other
    finding.  Nothing in it was known only later: quote and splits were available by known_at,
    known_at is not after as_of, and as_of lies in an open session.  Reading the stored
    snapshot back gives the same snapshot. *)
Theorem assembled_snapshot_faithful security_id symbol as_of known_at q bars sessions splits last version s
    (H : assemble security_id symbol as_of known_at q bars sessions splits last version = Ok s) :
  (sn_security_id s, sn_as_of s, sn_bid s, sn_ask s) = (security_id, as_of, qi_bid q, qi_ask q) ∧
  (sn_symbol s, sn_known_at s, sn_sessions s) = (symbol, known_at, sessions) ∧
  copied_labels symbol version q s ∧
  (halves_exactly (qi_bid q) (qi_ask q) → dq (sn_mid s) * 2 == dq (qi_bid q) + dq (qi_ask q))%Q ∧
  (sn_last s = Some (sn_mid s) ∧ ∀ l, last = Some l → dq l == dq (sn_mid s))%Q ∧
  shows_bars bars splits s ∧
  (qi_observed_at q ≤ qi_received_at q ∧ qi_received_at q ≤ known_at ∧ known_at ≤ as_of ∧
   (∀ a, a ∈ splits → sa_available_at a ≤ known_at) ∧ open_at sessions as_of = true) ∧
  ((sn_freshness s = FRESH ↔ as_of - qi_observed_at q ≤ 5 * SECOND) ∧
   (sn_freshness s = FRESH ∨ sn_freshness s = STALE)) ∧
  (QUOTE_MISSING_OR_STALE ∈ sn_reasons s ↔ 5 * SECOND < as_of - qi_observed_at q) ∧
  (SPREAD_TOO_WIDE ∈ sn_reasons s ↔
    (inject_Z MAX_SPREAD_BPS * (dq (qi_bid q) + dq (qi_ask q)) < inject_Z 20000 * (dq (qi_ask q) - dq (qi_bid q)))%Q) ∧
  sn_spread_bps s =
    Qfloor (inject_Z 20000 * (dq (qi_ask q) - dq (qi_bid q)) / (dq (qi_bid q) + dq (qi_ask q))) ∧
  compute_adv20 bars sessions splits (Some as_of) (Some known_at) (Some security_id) = Ok (sn_adv20_usd s) ∧
  (ADV_BELOW_MINIMUM ∈ sn_reasons s ↔ sn_adv20_usd s = None) ∧
  (∀ r, r ∈ sn_reasons s → r ∈ [QUOTE_MISSING_OR_STALE; SPREAD_TOO_WIDE; ADV_BELOW_MINIMUM]) ∧
  reconstruct_market_snapshot set_order snapshot_digest s = Ok s.
Proof.
  apply assemble_Ok in H as (f & fr & adv & raw & Hk & Hr & Hf & Hc & Ha & Hfin & E1 & E2 & E3 & Hrs & Hl & E4 &
    Hlast & F1 & F2 & F3 & F4).
  pose proof (finalize_reconstructs _ _ _ _ Hfin) as Hback.
  destruct (finalize_Ok _ _ _ _ Hfin) as (-> & Hv & _). apply fields_facts in Hv as (H0 & Hle & Hbps & Ho & Hs).
  pose proof (adv_bars _ _ _ _ _ _ _ Ha) as [Hfeed Hdates].
  rewrite Hback. change (sn_reasons (with_snapshot_hash ?h raw)) with (sn_reasons raw).
  injection E1 as <- <- <- <-. injection E2 as E E' <- <-. injection E3 as <- <- _. injection E4 as Em El.
  rewrite <-E, <-E' in *.
  destruct (derive_freshness_Ok _ _ _ _ _ Hf Hc) as (Hor & Hra & Hfresh & Hstale & ->).
  rewrite (mixed_feeds bars Hfeed) in Hrs.
  rewrite Hrs. setoid_rewrite in_snapshot_reasons. rewrite <-spread_wide, <-spread_floor by done.
  split_and!; try done.
  - by destruct Hl; split.
  - simpl. rewrite Em. intros Hex. apply mid_is_half; [by apply price_coeff|apply price_coeff; lra|done].
  - simpl. by rewrite El, Em.
  - simpl. by rewrite Em.
  - by apply raw_shows_bars.
  - rewrite elem_of_stale, bool_decide_eq_false, Hfresh.
    split; [intros [[H _]|?]; [lia|naive_solver]|]. intros H. left. split; [lia|done].
  - rewrite elem_of_stale. naive_solver.
  - rewrite elem_of_stale. naive_solver.
  - intros r. rewrite elem_of_stale, !elem_of_cons. naive_solver.
Qed.
End assembled.

(** A quote two seconds old, ten basis points wide, over the four weeks of bars. *)
Definition demo_quote : QuoteInput :=
  mk_Quote (mk_SourceRef "quote-1" ALPACA_IEX_QUOTES demo_digest) "ABC" IEX ENTITLED_IEX
    (mk_dec 1000 (-2)) (mk_dec 1001 (-2)) (demo_cutoff - 2 * SECOND) (demo_cutoff - SECOND).
Definition demo_snapshot : outcome MarketSnapshot :=
  assemble_market_snapshot remove_dups (λ _, demo_digest) "sec-1" "ABC" demo_cutoff demo_cutoff demo_quote
    demo_bars demo_sessions [demo_split] None "p4c.market.v1".

Lemma assembled_snapshot_faithful_witness :
  ∃ s, demo_snapshot = Ok s ∧ sn_bar_dates s = db_trading_date <$> demo_bars ∧
    sn_bar_refs s ≡ₚ remove_dups (db_source_ref <$> demo_bars) ∧
    (dq (sn_mid s) * 2 == dq (qi_bid demo_quote) + dq (qi_ask demo_quote))%Q ∧
    (sn_freshness s = FRESH ↔ demo_cutoff - qi_observed_at demo_quote ≤ 5 * SECOND) ∧
    reconstruct_market_snapshot remove_dups (λ _, demo_digest) s = Ok s.
Proof.
  assert (Hok : is_Ok demo_snapshot = true) by (vm_compute; reflexivity).
  destruct demo_snapshot as [s|e] eqn:Hs; [|discriminate Hok]. clear Hok.
  pose proof Hs as H. unfold demo_snapshot in H.
  pose proof (assembled_snapshot_faithful remove_dups (λ _, demo_digest) "sec-1" "ABC" demo_cutoff demo_cutoff
    demo_quote demo_bars demo_sessions [demo_split] None "p4c.market.v1" s H)
    as (_ & _ & _ & Hmid & _ & [[Hdates _] _ _ Hrefs _] & _ & Hfresh & _ & _ & _ & _ & _ & _ & Hback).
  exists s. split; [reflexivity|]. split; [exact Hdates|].
  split; [exact (proj1 (Hrefs (λ l, Permutation_refl _)))|].
  split; [exact (Hmid (or_introl eq_refl))|]. split; [exact (proj1 Hfresh)|exact Hback].
Defined.

(** The precision of the midpoint is sized from the digits of the prices, not from
    their exponents: prices of distant exponents are rounded. *)
Lemma mid_exact_rounds :
  ¬ (dq (mid_exact (mk_dec 1 (-30)) (mk_dec 1 0)) == (dq (mk_dec 1 (-30)) + dq (mk_dec 1 0)) * (1 # 2))%Q.
Proof. vm_compute. discriminate. Qed.
