(* ===== verification/UniverseBuilder.v ===== *)
(** * The universe builder: [universe/builder.py]

    The monthly universe: asset observations joined from two source records,
    identity, quarantine and market views, the hard filters in their fixed order,
    and the snapshot of the first open session of a month.  What a private
    authority binds to a view is a field of it; the digest of a universe snapshot
    is a parameter. *)

From S2P Require Import Prelude Dicts Text Orders Decimals Calendar Json Instants Sources Identity Actions.
From S2P Require Import SourceLog Quarantine Universe Market.
Local Open Scope Z_scope.

(** Authorities older than this prove nothing about the current state. *)
Definition MAX_AUTHORITY_STALENESS : Z := 7 * DAY.

Inductive AssetKind :=
  | ORDINARY_COMMON_STOCK | ETF | PREFERRED | WARRANT | UNIT | CLOSED_END_FUND | ETN
  | LEVERAGED_INVERSE_ETF | OTC | OTHER.
#[global] Instance AssetKind_eq_dec : EqDecision AssetKind.
Proof. solve_decision. Defined.
(** [AssetKind(text)] *)
Definition asset_kind_of (s : string) : option AssetKind :=
  if bool_decide (s = "ordinary_common_stock") then Some ORDINARY_COMMON_STOCK
  else if bool_decide (s = "etf") then Some ETF
  else if bool_decide (s = "preferred") then Some PREFERRED
  else if bool_decide (s = "warrant") then Some WARRANT
  else if bool_decide (s = "unit") then Some UNIT
  else if bool_decide (s = "closed_end_fund") then Some CLOSED_END_FUND
  else if bool_decide (s = "etn") then Some ETN
  else if bool_decide (s = "leveraged_inverse_etf") then Some LEVERAGED_INVERSE_ETF
  else if bool_decide (s = "otc") then Some OTC
  else if bool_decide (s = "other") then Some OTHER
  else None.
Definition exchange_value (e : ListingExchange) : string :=
  match e with
  | AMEX => "AMEX" | ARCA => "ARCA" | BATS => "BATS" | NASDAQ => "NASDAQ" | NYSE => "NYSE"
  end.
(** [ListingExchange(text)] *)
Definition exchange_of (s : string) : option ListingExchange :=
  find (λ e, bool_decide (exchange_value e = s)) [AMEX; ARCA; BATS; NASDAQ; NYSE].

(** ** Asset observations *)

(** [ao_identity_hash] is the identity the authority of the observation binds. *)
Record AssetObservation := mk_Asset {
  ao_security_id : string;
  ao_symbol : string;
  ao_kind : AssetKind;
  ao_active : bool;
  ao_tradable : bool;
  ao_exchange : ListingExchange;
  ao_observed_at : Z;
  ao_halted : option bool;
  ao_identity_hash : string;
}.
#[global] Instance AssetObservation_eq_dec : EqDecision AssetObservation.
Proof. solve_decision. Defined.

Section asset.
Context (float_repr : string → string).
Context (identity_digest : SecurityIdentityRecord → string).
Context (source_digest : NormalizedSourceRecord → string).

(** Both records are current authorities of their kinds: the instants they observe. *)
Definition check_asset_sources (asset exchange : NormalizedSourceRecord) (known_at : Z)
    : outcome (Z * Z) :=
  guard_that (bool_decide (nr_family asset = ALPACA_ASSETS) &&
              bool_decide (nr_endpoint_id asset ∈ ["assets_list"; "asset_detail"])) EValueError
    "asset status requires the Alpaca assets endpoint" ≫= λ _,
  guard_that (bool_decide (nr_family exchange = EXCHANGE_OFFICIAL) &&
              bool_decide (nr_endpoint_id exchange = "exchange_notice")) EValueError
    "instrument and halt status require an official exchange record" ≫= λ _,
  match nr_available_at asset, nr_available_at exchange, nr_observation_at asset, nr_observation_at exchange with
  | Some a, Some x, Some oa, Some ox =>
      guard_that ((a <=? known_at) && (x <=? known_at)) EValueError
        "asset authority is not available by known_at" ≫= λ _,
      Ok (oa, ox)
  | _, _, _, _ => raise EValueError "asset authorities require observation and availability timestamps"
  end.

Definition asset_observation_from_records (asset exchange : NormalizedSourceRecord)
    (identity : SecurityIdentityRecord) (known_at : Z) : outcome AssetObservation :=
  verify_source source_digest asset ≫= λ _,
  verify_source source_digest exchange ≫= λ _,
  verify_identity identity_digest identity ≫= λ _,
  '(asset_at, exchange_at) ← check_asset_sources asset exchange known_at;
  ap ← payload_dict float_repr asset;
  guard_that (json_keys_are ["id"; "symbol"; "exchange"; "asset_class"; "status"; "tradable"] ap) EValueError
    "Alpaca asset payload has an unexpected shape" ≫= λ _,
  xp ← payload_dict float_repr exchange;
  guard_that (json_keys_are ["exchange"; "title"; "url"; "symbol"; "instrument_kind"; "halted"; "observed_at"] xp)
    EValueError "official exchange status payload has an unexpected shape" ≫= λ _,
  security_id ← make_SecurityId (text_of (json_get "id" ap));
  symbol ← make_SecuritySymbol (text_of (json_get "symbol" ap));
  match exchange_of (text_of (json_get "exchange" ap)), asset_kind_of (text_of (json_get "instrument_kind" xp)) with
  | Some listing, Some kind =>
      guard_that (is_text "us_equity" (json_get "asset_class" ap)) EValueError
        "asset authority is not a US equity" ≫= λ _,
      guard_that (match json_get "status" ap with Some (JList _) | Some (JObj _) => false | _ => true end)
        ETypeError "unhashable type" ≫= λ _,
      let active := is_text "active" (json_get "status" ap) in
      match json_get "tradable" ap, active || is_text "inactive" (json_get "status" ap) with
      | Some (JBool tradable), true =>
          match json_get "halted" xp with
          | Some (JBool halted) =>
              guard_that (is_text symbol (json_get "symbol" xp) &&
                          is_text (exchange_value listing) (json_get "exchange" xp)) EValueError
                "asset and exchange authorities disagree" ≫= λ _,
              guard_that (bool_decide (id_security identity = security_id) &&
                          bool_decide (id_symbol identity = symbol) &&
                          bool_decide (id_exchange identity = listing)) EValueError
                "asset authorities do not bind to the supplied identity" ≫= λ _,
              guard_that (bool_decide (source_ref_of asset ∈ id_source_refs identity)) EValueError
                "P4-B identity does not descend from the exact Alpaca asset record" ≫= λ _,
              guard_that (answers_as_of identity asset_at known_at && answers_as_of identity exchange_at known_at)
                EValueError "asset authority is outside the identity validity window" ≫= λ _,
              Ok (mk_Asset security_id symbol kind active tradable listing (Z.min asset_at exchange_at)
                    (Some halted) (id_hash identity))
          | _ => raise EValueError "official exchange halt status is invalid"
          end
      | _, _ => raise EValueError "Alpaca asset status values are invalid"
      end
  | _, _ => raise EValueError "asset authority contains an unsupported closed enum"
  end.
End asset.

(** ** Views *)

(** The record with the query the authority of the view binds. *)
Record IdentityView := mk_View {
  iv_record : SecurityIdentityRecord;
  iv_as_of : Z;
  iv_known_at : Z;
}.
Definition iv_resolved (v : IdentityView) : bool := bool_decide (id_status (iv_record v) = ACTIVE).
Definition iv_master_version (v : IdentityView) : string := master_version_for (iv_record v).

Section identity_view.
Context (identity_digest : SecurityIdentityRecord → string).
Definition identity_view_from_records (records : list SecurityIdentityRecord) (security_id : string)
    (as_of known_at : Z) : outcome IdentityView :=
  query ← make_IdentityQuery as_of known_at (Some security_id) None;
  resolution ← resolve_identity identity_digest records query;
  match ir_status resolution, ir_record resolution with
  | Ids.RESOLVED, Some r => verify_identity identity_digest r ≫= λ _, Ok (mk_View r as_of known_at)
  | _, _ => raise EValueError "identity view requires one unambiguous P4-B resolution"
  end.
End identity_view.

(** [MarketView]: the properties of a snapshot. *)
Definition trading_history_sessions (s : MarketSnapshot) : Z := Z.of_nat (length (sn_bar_dates s)).
Definition freshness_ok (s : MarketSnapshot) : bool := bool_decide (sn_freshness s = FRESH).
Definition spread_ok (s : MarketSnapshot) : bool := negb (bool_decide (SPREAD_TOO_WIDE ∈ sn_reasons s)).

(** ** The hard filters *)

Definition kind_reason (k : AssetKind) : option ClosedReason :=
  match k with
  | ORDINARY_COMMON_STOCK => None
  | OTC => Some OTC_OR_EXCLUDED_INSTRUMENT
  | _ => Some UNSUPPORTED_ASSET_CLASS
  end.

(** The identity is closed; the quarantine is an eligible, current decision about it. *)
Definition identity_closed (a : AssetObservation) (i : option IdentityView) : bool :=
  match i with
  | Some v => iv_resolved v && bool_decide (id_symbol (iv_record v) = ao_symbol a) &&
              bool_decide (id_exchange (iv_record v) = ao_exchange a) &&
              bool_decide (ao_identity_hash a = id_hash (iv_record v))
  | None => false
  end.
Definition quarantine_clear (a : AssetObservation) (i : option IdentityView)
    (q : option QuarantineDecision) (known_at : Z) : bool :=
  match i, q with
  | Some v, Some d =>
      bool_decide (qd_security_id d = ao_security_id a) &&
      bool_decide (qd_symbol_as_of d = ao_symbol a) &&
      bool_decide (qd_master_version d = iv_master_version v) &&
      bool_decide (qd_outcome d = ELIGIBLE) &&
      (known_at - MAX_AUTHORITY_STALENESS <=? qd_decision_at d)
  | _, _ => false
  end.
Definition at_least (o : option Decimal) (minimum : Decimal) : bool :=
  match o with Some d => dec_leb minimum d | None => false end.

(** The first filter that excludes the asset, in the order of [_evaluate_entry]. *)
Definition exclusion (a : AssetObservation) (i : option IdentityView) (q : option QuarantineDecision)
    (m : option MarketSnapshot) (known_at : Z) : option ClosedReason :=
  match kind_reason (ao_kind a) with
  | Some r => Some r
  | None =>
      if negb (ao_active a) || negb (ao_tradable a) then Some NOT_ACTIVE_OR_TRADABLE
      else if negb (bool_decide (ao_halted a = Some false)) then Some NOT_ACTIVE_OR_TRADABLE
      else if ao_observed_at a <? known_at - MAX_AUTHORITY_STALENESS then Some NOT_ACTIVE_OR_TRADABLE
      else if negb (identity_closed a i) then Some IDENTITY_NOT_CLOSED
      else if negb (quarantine_clear a i q known_at) then Some CORPORATE_ACTION_QUARANTINE
      else match m with
           | None => Some QUOTE_MISSING_OR_STALE
           | Some s =>
               if negb (bool_decide (sn_symbol s = ao_symbol a)) then Some MARKET_DATA_CONFLICT
               else if bool_decide (MARKET_DATA_CONFLICT ∈ sn_reasons s) then Some MARKET_DATA_CONFLICT
               else if negb (at_least (sn_last s) MIN_PRICE) then Some PRICE_BELOW_MINIMUM
               else if negb (at_least (sn_adv20_usd s) MIN_ADV20_USD) then Some ADV_BELOW_MINIMUM
               else if trading_history_sessions s <? MIN_TRADING_HISTORY_SESSIONS
                    then Some INSUFFICIENT_TRADING_HISTORY
               else if negb (freshness_ok s) then Some QUOTE_MISSING_OR_STALE
               else if negb (spread_ok s) then Some SPREAD_TOO_WIDE
               else None
           end
  end.

(** [_entry]: only views bound to the asset leave their hashes. *)
Definition bound_identity (a : AssetObservation) (i : option IdentityView) : option IdentityView :=
  v ← i;
  if bool_decide (id_security (iv_record v) = ao_security_id a) &&
     bool_decide (id_symbol (iv_record v) = ao_symbol a) then Some v else None.
Definition bound_market (a : AssetObservation) (m : option MarketSnapshot) : option MarketSnapshot :=
  s ← m;
  if bool_decide (sn_security_id s = ao_security_id a) && bool_decide (sn_symbol s = ao_symbol a)
  then Some s else None.
Definition bound_quarantine (a : AssetObservation) (bi : option IdentityView)
    (q : option QuarantineDecision) : option QuarantineDecision :=
  v ← bi; d ← q;
  if bool_decide (qd_security_id d = ao_security_id a) && bool_decide (qd_symbol_as_of d = ao_symbol a) &&
     bool_decide (qd_master_version d = iv_master_version v) then Some d else None.
Definition make_entry (a : AssetObservation) (reason : option ClosedReason) (i : option IdentityView)
    (q : option QuarantineDecision) (m : option MarketSnapshot) : outcome UniverseEntry :=
  let bi := bound_identity a i in
  let bq := bound_quarantine a bi q in
  let e := mk_Entry (ao_security_id a) (ao_symbol a) (bool_decide (reason = None)) reason
    ((λ v, id_hash (iv_record v)) <$> bi) (iv_master_version <$> bi) (sn_hash <$> bound_market a m)
    (qd_hash <$> bq) (default [] (qd_event_ids <$> bq)) in
  check_UniverseEntry e ≫= λ _, Ok e.

Definition evaluate_entry (a : AssetObservation) (i : option IdentityView) (q : option QuarantineDecision)
    (m : option MarketSnapshot) (known_at : Z) : outcome UniverseEntry :=
  make_entry a (exclusion a i q m known_at) i q m.

(** ** The first open session of the month *)

Definition first_of_month (d : Z) : Z := d - ((civil d).2 - 1).
Definition check_first_session (sessions : list MarketSession) (as_of : Z) : outcome unit :=
  guard_that (bool_decide (NoDup (ms_trading_date <$> sessions))) EValueError
    "sessions must not repeat a trading date" ≫= λ _,
  mapM (λ d,
    match session_on sessions d with
    | None => raise EValueError "NYSE calendar cannot prove the first open session"
    | Some s => guard_that (negb ((d <? as_of) && negb (is_closed s))) EValueError
                  "universe as_of is not the first open NYSE session"
    end) (seqZ (first_of_month as_of) (as_of - first_of_month as_of + 1)) ≫= λ _,
  guard_that (match session_on sessions as_of with Some s => open_kind s | None => false end) EValueError
    "universe as_of must be an open NYSE session".

(** ** The build *)

(** [_assert_unique] and the membership in the assets. *)
Definition check_unique (label : string) (ids : list string) : outcome unit :=
  guard_that (bool_decide (NoDup ids)) EValueError (label +:+ " must not repeat a security").
Definition check_members (label : string) (asset_ids ids : list string) : outcome unit :=
  guard_that (forallb (λ i, bool_decide (i ∈ asset_ids)) ids) EValueError
    (label +:+ " contains a security outside the asset candidate set").
Definition view_id (v : IdentityView) : string := id_security (iv_record v).

Section build.
Context (identity_digest : SecurityIdentityRecord → string).
Context (decision_digest : QuarantineDecision → string).
Context (snapshot_digest : MarketSnapshot → string) (universe_digest : UniverseSnapshot → string).

Definition check_identity_view (as_of known_at : Z) (v : IdentityView) : outcome unit :=
  let instant := as_of * DAY in
  verify_identity identity_digest (iv_record v) ≫= λ _,
  guard_that ((iv_as_of v =? instant) && (iv_known_at v =? known_at)) EValueError
    "identity view does not match the universe point-in-time query" ≫= λ _,
  guard_that (negb (bool_decide (id_status (iv_record v) = ACTIVE)) ||
              answers_as_of (iv_record v) instant known_at) EValueError
    "active identity is not point-in-time visible".
Definition check_quarantine_view (identities : list IdentityView) (known_at : Z) (d : QuarantineDecision)
    : outcome unit :=
  verify_decision decision_digest d ≫= λ _,
  guard_that (qd_decision_at d <=? known_at) EValueError
    "quarantine decisions after known_at are not admissible" ≫= λ _,
  guard_that (match find (λ v, bool_decide (view_id v = qd_security_id d)) identities with
              | Some v => bool_decide (qd_master_version d = iv_master_version v)
              | None => true
              end) EValueError "quarantine decision master version does not match the identity".
Definition check_market_view (as_of known_at : Z) (s : MarketSnapshot) : outcome unit :=
  verify_snapshot snapshot_digest s ≫= λ _,
  guard_that (utc_date (sn_as_of s) =? as_of) EValueError
    "market snapshots must match the universe first open session" ≫= λ _,
  guard_that (sn_known_at s <=? known_at) EValueError
    "market snapshots after known_at are not admissible".

(** The checks before any entry is evaluated. *)
Definition check_universe_inputs (as_of known_at : Z) (master_version : string)
    (assets : list AssetObservation) (identities : list IdentityView)
    (quarantines : list QuarantineDecision) (markets : list MarketSnapshot)
    (sessions : list MarketSession) (policy_hash : string) : outcome unit :=
  check_first_session sessions as_of ≫= λ _,
  guard_that (bool_decide (year_month (utc_date known_at) = year_month as_of) &&
              (as_of <=? utc_date known_at)) EValueError
    "universe known_at must be on or after the first open session" ≫= λ _,
  guard_that (negb (bool_decide (master_version = ""))) EValueError
    "security_master_version requires non-empty text" ≫= λ _,
  guard_that (is_digest policy_hash) EValueError "policy_hash must be a SHA-256 digest" ≫= λ _,
  guard_that (forallb (λ a, ao_observed_at a <=? known_at) assets) EValueError
    "asset observations after known_at are not admissible" ≫= λ _,
  check_unique "assets" (ao_security_id <$> assets) ≫= λ _,
  check_unique "identities" (view_id <$> identities) ≫= λ _,
  check_unique "quarantines" (qd_security_id <$> quarantines) ≫= λ _,
  check_unique "markets" (sn_security_id <$> markets) ≫= λ _,
  let ids := ao_security_id <$> assets in
  check_members "identities" ids (view_id <$> identities) ≫= λ _,
  check_members "quarantines" ids (qd_security_id <$> quarantines) ≫= λ _,
  check_members "markets" ids (sn_security_id <$> markets) ≫= λ _,
  mapM (check_identity_view as_of known_at) identities ≫= λ _,
  mapM (check_quarantine_view identities known_at) quarantines ≫= λ _,
  mapM (check_market_view as_of known_at) markets ≫= λ _, Ok ().

(** The views of one asset. *)
Definition evaluate_asset (identities : list IdentityView) (quarantines : list QuarantineDecision)
    (markets : list MarketSnapshot) (known_at : Z) (a : AssetObservation) : outcome UniverseEntry :=
  let id := ao_security_id a in
  evaluate_entry a (find (λ v, bool_decide (view_id v = id)) identities)
    (find (λ d, bool_decide (qd_security_id d = id)) quarantines)
    (find (λ s, bool_decide (sn_security_id s = id)) markets) known_at.

Definition universe_entry_leb (a b : UniverseEntry) : bool :=
  String.leb (ue_security_id a) (ue_security_id b).
Definition with_universe_hash (h : string) (u : UniverseSnapshot) : UniverseSnapshot :=
  mk_Universe (un_as_of u) (un_known_at u) (un_security_master_version u) (un_market_snapshot_refs u)
    (un_entries u) (un_policy_hash u) h.

Definition build_universe (as_of known_at : Z) (master_version : string) (assets : list AssetObservation)
    (identities : list IdentityView) (quarantines : list QuarantineDecision)
    (markets : list MarketSnapshot) (sessions : list MarketSession) (policy_hash : string)
    : outcome UniverseSnapshot :=
  check_universe_inputs as_of known_at master_version assets identities quarantines markets sessions
    policy_hash ≫= λ _,
  entries ← mapM (evaluate_asset identities quarantines markets known_at) assets;
  let u := mk_Universe as_of known_at master_version
    (sort_by String.leb (remove_dups (sn_hash <$> markets))) (sort_by universe_entry_leb entries) policy_hash "" in
  let u := with_universe_hash (universe_digest u) u in
  check_UniverseSnapshot u ≫= λ _, Ok u.
End build.
