(* ===== verification/BuilderFacts.v ===== *)
(** * Facts about the universe builder

    An entry is eligible exactly when every hard filter admits its asset; a universe
    has one entry per candidate, uses nothing known later, starts on the first open
    session of its month, and does not depend on the order of its inputs. *)

From S2P Require Import Prelude Errors Dicts Text Orders Decimals LedgerFacts Calendar Json Instants Sources.
From S2P Require Import InstantFacts Identity Actions SourceLog Quarantine Universe Market MarketFacts.
From S2P Require Import SnapshotFacts UniverseBuilder.
From Stdlib Require Import QArith.
Local Open Scope Z_scope.

(** ** The gates *)

(** Every gate a security must pass to be in the universe. *)
Record admitted (a : AssetObservation) (i : option IdentityView) (q : option QuarantineDecision)
    (m : option MarketSnapshot) (known_at : Z) : Prop := mk_admitted {
  adm_kind : ao_kind a = ORDINARY_COMMON_STOCK;
  adm_trading : ao_active a = true ∧ ao_tradable a = true ∧ ao_halted a = Some false;
  adm_observed : known_at - 7 * DAY ≤ ao_observed_at a;
  adm_identity : ∃ v, i = Some v ∧ id_status (iv_record v) = ACTIVE ∧
    id_symbol (iv_record v) = ao_symbol a ∧ id_exchange (iv_record v) = ao_exchange a ∧
    id_hash (iv_record v) = ao_identity_hash a;
  adm_quarantine : ∃ v d, i = Some v ∧ q = Some d ∧ qd_security_id d = ao_security_id a ∧
    qd_symbol_as_of d = ao_symbol a ∧ qd_master_version d = iv_master_version v ∧
    qd_outcome d = ELIGIBLE ∧ known_at - 7 * DAY ≤ qd_decision_at d;
  adm_market : ∃ s, m = Some s ∧ sn_symbol s = ao_symbol a ∧ MARKET_DATA_CONFLICT ∉ sn_reasons s ∧
    (∃ last, sn_last s = Some last ∧ (5 <= dq last)%Q) ∧
    (∃ adv, sn_adv20_usd s = Some adv ∧ (20000000 <= dq adv)%Q) ∧
    (252 ≤ length (sn_bar_dates s))%nat ∧ sn_freshness s = FRESH ∧ SPREAD_TOO_WIDE ∉ sn_reasons s;
}.

Lemma at_least_spec o x : at_least o x = true ↔ ∃ d, o = Some d ∧ (dq x <= dq d)%Q.
Proof.
  destruct o as [d|]; simpl; [rewrite dec_leb_spec|]; naive_solver.
Qed.
Lemma identity_closed_spec a i : identity_closed a i = true ↔
  ∃ v, i = Some v ∧ id_status (iv_record v) = ACTIVE ∧ id_symbol (iv_record v) = ao_symbol a ∧
    id_exchange (iv_record v) = ao_exchange a ∧ id_hash (iv_record v) = ao_identity_hash a.
Proof.
  destruct i as [v|]; simpl; [|naive_solver]. unfold iv_resolved.
  rewrite !andb_true_iff, !bool_decide_eq_true. naive_solver.
Qed.
Lemma quarantine_clear_spec a i q known_at : quarantine_clear a i q known_at = true ↔
  ∃ v d, i = Some v ∧ q = Some d ∧ qd_security_id d = ao_security_id a ∧
    qd_symbol_as_of d = ao_symbol a ∧ qd_master_version d = iv_master_version v ∧
    qd_outcome d = ELIGIBLE ∧ known_at - 7 * DAY ≤ qd_decision_at d.
Proof.
  destruct i as [v|], q as [d|]; simpl; [|split; [done|by intros (? & ? & [=] & [=] & _)]..].
  unfold MAX_AUTHORITY_STALENESS. rewrite !andb_true_iff, !bool_decide_eq_true, Z.leb_le.
  split; [intros H; exists v, d; tauto|intros (? & ? & [= <-] & [= <-] & H); tauto].
Qed.

(** One filter in front of the others. *)
Lemma gate_None {A} (b : bool) (r : A) o : (if b then Some r else o) = None ↔ b = false ∧ o = None.
Proof. destruct b; naive_solver. Qed.

Lemma kind_reason_None k : kind_reason k = None ↔ k = ORDINARY_COMMON_STOCK.
Proof. by destruct k. Qed.
Lemma market_gates a m : 
  match m with
  | None => Some QUOTE_MISSING_OR_STALE
  | Some s =>
      if negb (bool_decide (sn_symbol s = ao_symbol a)) then Some MARKET_DATA_CONFLICT
      else if bool_decide (MARKET_DATA_CONFLICT ∈ sn_reasons s) then Some MARKET_DATA_CONFLICT
      else if negb (at_least (sn_last s) MIN_PRICE) then Some PRICE_BELOW_MINIMUM
      else if negb (at_least (sn_adv20_usd s) MIN_ADV20_USD) then Some ADV_BELOW_MINIMUM
      else if trading_history_sessions s <? MIN_TRADING_HISTORY_SESSIONS
           then Some INSUFFICIENT_TRADING_HISTORY
      else if negb (freshness_ok s) then Some QUOTE_MISSING_OR_STALE
      else if negb (spread_ok s) then Some SPREAD_TOO_WIDE
      else None
  end = None ↔
  ∃ s, m = Some s ∧ sn_symbol s = ao_symbol a ∧ MARKET_DATA_CONFLICT ∉ sn_reasons s ∧
    (∃ last, sn_last s = Some last ∧ (5 <= dq last)%Q) ∧
    (∃ adv, sn_adv20_usd s = Some adv ∧ (20000000 <= dq adv)%Q) ∧
    (252 ≤ length (sn_bar_dates s))%nat ∧ sn_freshness s = FRESH ∧ SPREAD_TOO_WIDE ∉ sn_reasons s.
Proof.
  destruct m as [s|]; [|naive_solver].
  rewrite !gate_None, !negb_false_iff, !at_least_spec.
  unfold freshness_ok, spread_ok, trading_history_sessions, MIN_TRADING_HISTORY_SESSIONS.
  rewrite negb_true_iff, !bool_decide_eq_true, !bool_decide_eq_false, Z.ltb_ge.
  assert (dq MIN_PRICE == 5)%Q as E1 by done. assert (dq MIN_ADV20_USD == 20000000)%Q as E2 by done.
  setoid_rewrite E1. setoid_rewrite E2. 
  split; [intros H; exists s|intros (s' & [= <-] & H)]; intuition (try lia; try done).
Qed.

Lemma exclusion_None a i q m known_at :
  exclusion a i q m known_at = None ↔ admitted a i q m known_at.
Proof.
  unfold exclusion. pose proof (kind_reason_None (ao_kind a)) as Hk. destruct (kind_reason (ao_kind a)) as [r|].
  { split; [done|]. intros H. apply adm_kind in H. by apply Hk in H. }
  rewrite !gate_None, market_gates, !negb_false_iff, orb_false_iff, !negb_false_iff, bool_decide_eq_true,
    identity_closed_spec, quarantine_clear_spec, Z.ltb_ge. unfold MAX_AUTHORITY_STALENESS.
  split; [intros ([? ?] & ? & ? & ? & ? & ?); constructor; [by apply Hk|done..]|].
  intros [? (? & ? & ?) ? ? ? ?]. done.
Qed.

(** What an entry says of its asset. *)
Lemma make_entry_Ok a reason i q m e : make_entry a reason i q m = Ok e →
  ue_security_id e = ao_security_id a ∧ ue_symbol e = ao_symbol a ∧ ue_reason e = reason ∧
  (ue_eligible e = true ↔ reason = None) ∧
  (ue_eligible e = true → ∃ v d s, i = Some v ∧ q = Some d ∧ m = Some s ∧
    ue_identity_hash e = Some (id_hash (iv_record v)) ∧ ue_quarantine_decision_hash e = Some (qd_hash d) ∧
    ue_market_snapshot_hash e = Some (sn_hash s) ∧ id_security (iv_record v) = ao_security_id a ∧
    qd_security_id d = ao_security_id a ∧ sn_security_id s = ao_security_id a).
Proof.
  unfold make_entry, check_UniverseEntry. cbv zeta. intros H. ok_steps. subst e. simpl.
  split_and!; [done..|by rewrite bool_decide_eq_true|]. intros He. simpl in *. rewrite He in *. simpl in *. ok_facts.
  match goal with H : is_Some _ ∧ is_Some _ ∧ is_Some _ |- _ => destruct H as (Hi & _ & Hm) end.
  destruct i as [v|]; simpl in *; [|by destruct Hi]. destruct m as [s|]; simpl in *; [|by destruct Hm].
  destruct (bool_decide (id_security _ = _) && bool_decide (id_symbol _ = _)) eqn:E1; [|by destruct Hi].
  destruct (bool_decide (sn_security_id _ = _) && bool_decide (sn_symbol _ = _)) eqn:E2; [|by destruct Hm].
  destruct q as [d|]; simpl in *; [|done].
  destruct (bool_decide (qd_security_id _ = _) && _ && _) eqn:E3; simpl in *; [|done]. ok_facts.
  by exists v, d, s.
Qed.

(** What a reason says of the inputs, in the words of the code. *)
Definition reason_holds (a : AssetObservation) (i : option IdentityView) (q : option QuarantineDecision)
    (m : option MarketSnapshot) (known_at : Z) (r : ClosedReason) : Prop :=
  match r with
  | UNSUPPORTED_ASSET_CLASS => ao_kind a ∉ [ORDINARY_COMMON_STOCK; OTC]
  | OTC_OR_EXCLUDED_INSTRUMENT => ao_kind a = OTC
  | NOT_ACTIVE_OR_TRADABLE => ao_active a = false ∨ ao_tradable a = false ∨ ao_halted a ≠ Some false ∨
      ao_observed_at a < known_at - 7 * DAY
  | IDENTITY_NOT_CLOSED => identity_closed a i = false
  | CORPORATE_ACTION_QUARANTINE => quarantine_clear a i q known_at = false
  | QUOTE_MISSING_OR_STALE => m = None ∨ ∃ s, m = Some s ∧ sn_freshness s ≠ FRESH
  | MARKET_DATA_CONFLICT => ∃ s, m = Some s ∧
      (sn_symbol s ≠ ao_symbol a ∨ MARKET_DATA_CONFLICT ∈ sn_reasons s)
  | PRICE_BELOW_MINIMUM => ∃ s, m = Some s ∧ ∀ last, sn_last s = Some last → (dq last < 5)%Q
  | ADV_BELOW_MINIMUM => ∃ s, m = Some s ∧ ∀ adv, sn_adv20_usd s = Some adv → (dq adv < 20000000)%Q
  | INSUFFICIENT_TRADING_HISTORY => ∃ s, m = Some s ∧ (length (sn_bar_dates s) < 252)%nat
  | SPREAD_TOO_WIDE => ∃ s, m = Some s ∧ SPREAD_TOO_WIDE ∈ sn_reasons s
  | _ => False
  end.

Lemma at_least_false o x : at_least o x = false → ∀ d, o = Some d → (dq d < dq x)%Q.
Proof.
  intros H d ->. simpl in H. apply not_true_iff_false in H. rewrite dec_leb_spec in H. by apply Qnot_le_lt.
Qed.
Lemma exclusion_true a i q m known_at r :
  exclusion a i q m known_at = Some r → reason_holds a i q m known_at r.
Proof.
  unfold exclusion. destruct (kind_reason (ao_kind a)) as [r'|] eqn:Hk.
  { intros [= ->]. unfold reason_holds. destruct (ao_kind a); simplify_eq/=; set_solver. }
  unfold MAX_AUTHORITY_STALENESS.
  assert (E1 : (dq MIN_PRICE == 5)%Q) by done. assert (E2 : (dq MIN_ADV20_USD == 20000000)%Q) by done.
  repeat match goal with
  | |- (if ?b then Some _ else _) = Some _ → _ =>
      let E := fresh "E" in destruct b eqn:E; [intros [= <-]; unfold reason_holds|]
  | |- match ?m with None => Some _ | Some _ => _ end = Some _ → _ =>
      destruct m as [s|]; [|intros [= <-]; by left]
  | |- None = Some _ → _ => done
  end; ok_facts; try done; try (exists s; split; [done|]).
  all: unfold trading_history_sessions, MIN_TRADING_HISTORY_SESSIONS, freshness_ok, spread_ok in *.
  all: rewrite ?orb_true_iff, ?negb_true_iff in *; ok_facts.
  - tauto.
  - tauto.
  - tauto.
  - by left.
  - by right.
  - intros last Hl. setoid_rewrite <-E1. by eapply at_least_false.
  - intros adv Ha. setoid_rewrite <-E2. by eapply at_least_false.
  - lia.
  - right. by exists s.
  - rewrite negb_false_iff in *. ok_facts. done.
Qed.

(** C30. The hard filters.  An entry of the universe is eligible exactly when every gate
    admits its asset: an ordinary common stock that is active, tradable, not halted
    and recently observed, whose identity is closed and whose quarantine decision is
    a current ELIGIBLE one, with a fresh quote of its own symbol, a last price of at
    least 5 dollars, a 20-session average volume of at least 20 million dollars, 252
    sessions of history, and neither a wide spread nor conflicting data.  An eligible
    entry carries the hashes of the views of its own security; any other gives a
    reason, and the reason is true of the inputs. *)
Theorem entry_gates_decide a i q m known_at e (H : evaluate_entry a i q m known_at = Ok e) :
  (ue_eligible e = true ↔ admitted a i q m known_at) ∧
  (ue_eligible e = true → ∃ v d s, i = Some v ∧ q = Some d ∧ m = Some s ∧
    ue_identity_hash e = Some (id_hash (iv_record v)) ∧ ue_quarantine_decision_hash e = Some (qd_hash d) ∧
    ue_market_snapshot_hash e = Some (sn_hash s) ∧ id_security (iv_record v) = ao_security_id a ∧
    qd_security_id d = ao_security_id a ∧ sn_security_id s = ao_security_id a) ∧
  (ue_eligible e = false → ∃ r, ue_reason e = Some r ∧ reason_holds a i q m known_at r).
Proof.
  unfold evaluate_entry in H. apply make_entry_Ok in H as (_ & _ & Hr & He & Hbound).
  split; [by rewrite He, exclusion_None|]. split; [done|]. intros Hf.
  destruct (exclusion a i q m known_at) as [r|] eqn:Hx.
  - exists r. split; [done|]. by apply exclusion_true.
  - destruct He as [_ He]. by rewrite He in Hf.
Qed.

(** ** The first open session of the month *)

Lemma month_from_first d as_of : year_month d = year_month as_of → d ≤ as_of →
  first_of_month as_of ≤ d.
Proof.
  rewrite !year_month_civil. unfold first_of_month. intros Hm Hle.
  pose proof (days_civil d) as Hd. pose proof (days_civil as_of) as Ha.
  destruct (civil d) as [[y m] x], (civil as_of) as [[y' m'] x']. simpl in *. simplify_eq.
  unfold days_from_civil in *. lia.
Qed.
Lemma check_first_session_Ok sessions as_of : check_first_session sessions as_of = Ok () →
  (∃ s, session_on sessions as_of = Some s ∧ open_kind s = true) ∧
  ∀ d, year_month d = year_month as_of → d < as_of →
    ∃ s, session_on sessions d = Some s ∧ is_closed s = true.
Proof.
  unfold check_first_session. intros H. ok_steps. split.
  - destruct (session_on sessions as_of) as [s|]; [by exists s|done].
  - intros d Hm Hd. pose proof (month_from_first d as_of Hm ltac:(lia)) as Hf.
    match goal with H : mapM _ _ = _ |- _ => apply mapM_Ok in H; rename H into Hall end.
    assert (Hin : d ∈ seqZ (first_of_month as_of) (as_of - first_of_month as_of + 1)).
    { apply elem_of_seqZ. lia. }
    apply list_elem_of_lookup_1 in Hin as [i Hi].
    destruct (Forall2_lookup_l _ _ _ _ _ Hall Hi) as (u & _ & Hu). destruct (session_on sessions d) as [s|]; [|done].
    apply guard_unit_Ok in Hu. exists s. split; [done|]. destruct (Z.ltb_spec d as_of); [|lia].
    by destruct (is_closed s).
Qed.

(** ** The views of a security *)

Section by_key.
Context {A} (key : A → string).
Definition of_key (id : string) (l : list A) : option A := find (λ x, bool_decide (key x = id)) l.

Lemma of_key_Some l id x : of_key id l = Some x → x ∈ l ∧ key x = id.
Proof. unfold of_key. intros H%find_elem. by rewrite bool_decide_eq_true in H. Qed.
Lemma of_key_In l id x : NoDup (key <$> l) → x ∈ l → key x = id → of_key id l = Some x.
Proof.
  unfold of_key. induction l as [|y l IH]; intros Hn Hx Hk; [by apply elem_of_nil in Hx|].
  rewrite fmap_cons, NoDup_cons in Hn. destruct Hn as [Hy Hn]. simpl. case_bool_decide as Hyk.
  - apply elem_of_cons in Hx as [->|Hx]; [done|]. exfalso. apply Hy. apply list_elem_of_fmap. exists x. by rewrite Hk.
  - apply IH; [done| |done]. by apply elem_of_cons in Hx as [->|Hx].
Qed.
Lemma of_key_spec l id x : NoDup (key <$> l) → of_key id l = Some x ↔ x ∈ l ∧ key x = id.
Proof. intros Hn. split; [apply of_key_Some|]. intros []. by apply of_key_In. Qed.
Lemma of_key_perm l l' id : NoDup (key <$> l) → l ≡ₚ l' → of_key id l = of_key id l'.
Proof.
  intros Hn Hp. assert (Hn' : NoDup (key <$> l')) by by rewrite <-Hp.
  destruct (of_key id l) as [x|] eqn:H.
  - symmetry. apply of_key_spec; [done|]. apply of_key_spec in H; [|done]. by rewrite <-Hp.
  - destruct (of_key id l') as [x|] eqn:H'; [|done]. apply of_key_spec in H'; [|done].
    rewrite <-Hp in H'. apply of_key_spec in H'; [|done]. by rewrite H in H'.
Qed.
End by_key.

(** Computations over a permuted list. *)
Lemma mapM_unit_perm {A} (f g : A → outcome unit) l l' k : (∀ x, f x = g x) → l ≡ₚ l' →
  mapM f l = Ok k → ∃ k', mapM g l' = Ok k'.
Proof.
  intros Hfg Hp H. destruct (mapM_Ok_perm f l l' k Hp H) as (k' & Hk' & _). exists k'.
  apply mapM_Ok. apply mapM_Ok in Hk'. eapply Forall2_impl; [exact Hk'|]. intros x y Hx. by rewrite <-Hfg.
Qed.
Lemma mapM_ext_all {A B} (f g : A → outcome B) l : (∀ x, f x = g x) → mapM f l = mapM g l.
Proof. intros Hfg. induction l as [|x l IH]; [done|]. simpl. by rewrite Hfg, IH. Qed.

Section universe.
Context (identity_digest : SecurityIdentityRecord → string).
Context (decision_digest : QuarantineDecision → string).
Context (snapshot_digest : MarketSnapshot → string) (universe_digest : UniverseSnapshot → string).
Notation checks := (check_universe_inputs identity_digest decision_digest snapshot_digest).
Notation build := (build_universe identity_digest decision_digest snapshot_digest universe_digest).

(** What the checks before the evaluation leave. *)
Record point_in_time (as_of known_at : Z) (assets : list AssetObservation) (identities : list IdentityView)
    (quarantines : list QuarantineDecision) (markets : list MarketSnapshot) : Prop := mk_pit {
  pit_assets : ∀ a, a ∈ assets → ao_observed_at a ≤ known_at;
  pit_identities : ∀ v, v ∈ identities → iv_as_of v = as_of * DAY ∧ iv_known_at v = known_at ∧
    (id_status (iv_record v) = ACTIVE → answers_as_of (iv_record v) (as_of * DAY) known_at = true);
  pit_quarantines : ∀ d, d ∈ quarantines → qd_decision_at d ≤ known_at;
  pit_markets : ∀ s, s ∈ markets → utc_date (sn_as_of s) = as_of ∧ sn_known_at s ≤ known_at;
}.
Definition one_each (assets : list AssetObservation) (identities : list IdentityView)
    (quarantines : list QuarantineDecision) (markets : list MarketSnapshot) : Prop :=
  NoDup (ao_security_id <$> assets) ∧ NoDup (view_id <$> identities) ∧
  NoDup (qd_security_id <$> quarantines) ∧ NoDup (sn_security_id <$> markets).

Lemma checks_Ok as_of known_at mv assets identities quarantines markets sessions ph :
  checks as_of known_at mv assets identities quarantines markets sessions ph = Ok () →
  check_first_session sessions as_of = Ok () ∧ one_each assets identities quarantines markets ∧
  point_in_time as_of known_at assets identities quarantines markets.
Proof.
  unfold check_universe_inputs, check_unique. cbv zeta. intros H. ok_steps. ok_facts.
  split; [done|]. split; [by split_and!|]. constructor.
  - intros a Ha. apply Z.leb_le.
    match goal with H : forallb (λ a, _) assets = true |- _ => by apply (forallb_elem _ _ a) in H end.
  - intros v Hv. match goal with H : mapM (check_identity_view _ _ _) _ = _ |- _ =>
      pose proof (mapM_unit_Ok _ _ _ v H Hv) as Hc end.
    unfold check_identity_view in Hc. cbv zeta in Hc. ok_steps. ok_facts. split_and!; [done..|]. intros Hs.
    match goal with H : _ || _ = true |- _ => by rewrite bool_decide_eq_true_2 in H end.
  - intros d Hd. match goal with H : mapM (check_quarantine_view _ _ _) _ = _ |- _ =>
      pose proof (mapM_unit_Ok _ _ _ d H Hd) as Hc end.
    unfold check_quarantine_view in Hc. ok_steps. by ok_facts.
  - intros s Hs. match goal with H : mapM (check_market_view _ _ _) _ = _ |- _ =>
      pose proof (mapM_unit_Ok _ _ _ s H Hs) as Hc end.
    unfold check_market_view in Hc. ok_steps. by ok_facts.
Qed.

(** The gates ask for the views of the security of the asset. *)
Lemma admitted_views known_at identities quarantines markets a :
  NoDup (view_id <$> identities) → NoDup (qd_security_id <$> quarantines) → NoDup (sn_security_id <$> markets) →
  admitted a (of_key view_id (ao_security_id a) identities) (of_key qd_security_id (ao_security_id a) quarantines)
    (of_key sn_security_id (ao_security_id a) markets) known_at ↔
  ∃ v d s, v ∈ identities ∧ d ∈ quarantines ∧ s ∈ markets ∧
    view_id v = ao_security_id a ∧ sn_security_id s = ao_security_id a ∧
    admitted a (Some v) (Some d) (Some s) known_at.
Proof.
  intros Hi Hq Hk. split.
  - intros Had. pose proof (adm_quarantine _ _ _ _ _ Had) as (v & d & Hv & Hd & _).
    pose proof (adm_market _ _ _ _ _ Had) as (s & Hs & _). exists v, d, s. rewrite Hv, Hd, Hs in Had.
    apply of_key_spec in Hv as [? ?], Hd as [? ?], Hs as [? ?]; done.
  - intros (v & d & s & Hv & Hd & Hs & Ev & Es & Had).
    pose proof (adm_quarantine _ _ _ _ _ Had) as (v' & d' & [= <-] & [= <-] & Ed & _).
    by rewrite (of_key_In _ _ _ v), (of_key_In _ _ _ d), (of_key_In _ _ _ s).
Qed.

(** The steps of a build. *)
Lemma build_Ok as_of known_at mv assets identities quarantines markets sessions ph u :
  build as_of known_at mv assets identities quarantines markets sessions ph = Ok u →
  checks as_of known_at mv assets identities quarantines markets sessions ph = Ok () ∧
  ∃ entries, mapM (evaluate_asset identities quarantines markets known_at) assets = Ok entries ∧
    un_entries u = sort_by universe_entry_leb entries ∧ un_known_at u = known_at ∧ un_as_of u = as_of.
Proof.
  unfold build_universe. cbv zeta. intros H. ok_steps. subst u. split; [done|]. eexists. done.
Qed.
Lemma ids_of_entries identities quarantines markets known_at assets entries :
  mapM (evaluate_asset identities quarantines markets known_at) assets = Ok entries →
  ue_security_id <$> entries = ao_security_id <$> assets.
Proof.
  intros H%mapM_Ok. induction H as [|a e assets entries He _ IH]; [done|]. rewrite !fmap_cons, IH. f_equal.
  unfold evaluate_asset, evaluate_entry in He. cbv zeta in He. by apply make_entry_Ok in He as (? & _).
Qed.

(** C29. The monthly universe.  It is built only on the first open session of its month:
    that day is open and every earlier day of the month is recorded as closed.  It
    has exactly one entry per candidate, in the order of their ids.  Nothing known
    after known_at is used: no observation, decision or market snapshot is later,
    and every identity answers the query of this very universe.  And an entry is
    eligible exactly when the asset of its security passes every gate with the
    views of that same security. *)
Theorem build_universe_sound as_of known_at mv assets identities quarantines markets sessions ph u
    (H : build as_of known_at mv assets identities quarantines markets sessions ph = Ok u) :
  ((∃ s, session_on sessions as_of = Some s ∧ open_kind s = true) ∧
   ∀ d, year_month d = year_month as_of → d < as_of →
     ∃ s, session_on sessions d = Some s ∧ is_closed s = true) ∧
  ue_security_id <$> un_entries u = sort_by String.leb (ao_security_id <$> assets) ∧
  NoDup (ue_security_id <$> un_entries u) ∧
  point_in_time as_of known_at assets identities quarantines markets ∧
  ∀ e, e ∈ un_entries u → ∃ a, a ∈ assets ∧ ue_security_id e = ao_security_id a ∧
    (ue_eligible e = true ↔ ∃ v d s, v ∈ identities ∧ d ∈ quarantines ∧ s ∈ markets ∧
      view_id v = ao_security_id a ∧ sn_security_id s = ao_security_id a ∧
      admitted a (Some v) (Some d) (Some s) known_at).
Proof.
  apply build_Ok in H as (Hc & entries & Hm & Hu & _ & _).
  apply checks_Ok in Hc as (Hf & (Ha & Hi & Hq & Hk) & Hp).
  pose proof (ids_of_entries _ _ _ _ _ _ Hm) as Hids.
  assert (Hsort : ue_security_id <$> un_entries u = sort_by String.leb (ao_security_id <$> assets)).
  { rewrite Hu, <-Hids. apply (sort_by_fmap ue_security_id String.leb). }
  split; [by apply check_first_session_Ok|]. split; [done|]. split; [by rewrite Hsort, sort_by_perm|].
  split; [done|]. intros e He. rewrite Hu, elem_of_sort_by in He.
  destruct (mapM_Ok_elem _ _ _ _ Hm He) as (a & Hina & Hev). exists a. split; [done|].
  unfold evaluate_asset, evaluate_entry in Hev. cbv zeta in Hev.
  apply make_entry_Ok in Hev as (Hid & _ & _ & Hel & _). split; [done|].
  rewrite Hel, exclusion_None. by apply admitted_views.
Qed.

(** ** The order of the inputs *)

Lemma checks_perm as_of known_at mv a a' i i' q q' m m' sessions ph :
  a ≡ₚ a' → i ≡ₚ i' → q ≡ₚ q' → m ≡ₚ m' →
  checks as_of known_at mv a i q m sessions ph = Ok () →
  checks as_of known_at mv a' i' q' m' sessions ph = Ok ().
Proof.
  intros Ha Hi Hq Hm H. pose proof (checks_Ok _ _ _ _ _ _ _ _ _ H) as (_ & (Na & Ni & Nq & Nm) & _).
  revert H. unfold check_universe_inputs, check_unique, check_members. cbv zeta. intros H. ok_steps.
  assert (Hmem : ∀ l l', l ≡ₚ l' → forallb (λ x, bool_decide (x ∈ ao_security_id <$> a)) l = true →
    forallb (λ x, bool_decide (x ∈ ao_security_id <$> a')) l' = true).
  { intros l l' Hp. rewrite (forallb_perm _ _ _ Hp), !forallb_forall. intros Hall x Hx. apply Hall in Hx.
    rewrite bool_decide_eq_true in *. by rewrite <-Ha. }
  repeat match goal with H : mapM (check_identity_view _ _ _) _ = _ |- _ =>
    apply (mapM_unit_perm _ _ _ _ _ (λ _, eq_refl) Hi) in H as [? ->] end.
  repeat match goal with H : mapM (check_market_view _ _ _) _ = _ |- _ =>
    apply (mapM_unit_perm _ _ _ _ _ (λ _, eq_refl) Hm) in H as [? ->] end.
  match goal with H : mapM (check_quarantine_view _ _ _) _ = _ |- _ =>
    eapply (mapM_unit_perm _ (check_quarantine_view decision_digest i' known_at) _ q') in H as [? ->];
      [|intros d; unfold check_quarantine_view; fold (of_key view_id (qd_security_id d) i);
        by rewrite (of_key_perm view_id _ _ _ Ni Hi)|done] end.
  repeat match goal with H : check_first_session _ _ = _ |- _ => rewrite H; clear H end. simpl.
  repeat (apply guard_bind_Ok; split); try done.
  all: try (by rewrite <-(forallb_perm _ _ _ Ha)).
  all: try (rewrite bool_decide_eq_true; by rewrite <-?Ha, <-?Hi, <-?Hq, <-?Hm).
  all: eapply Hmem; [apply fmap_Permutation; eassumption|done].
Qed.

Lemma universe_entries_perm l k : NoDup (ue_security_id <$> l) → l ≡ₚ k →
  sort_by universe_entry_leb l = sort_by universe_entry_leb k.
Proof.
  intros Hn Hp. apply sort_by_unique; [intros ??; apply str_leb_total|intros ???; apply str_leb_trans| |done].
  intros x y Hx Hy Hxy Hyx. apply (NoDup_fmap_inj_on ue_security_id l); try done. by apply str_leb_antisym.
Qed.
Lemma sorted_hashes_perm (l k : list string) : l ≡ₚ k →
  sort_by String.leb (remove_dups l) = sort_by String.leb (remove_dups k).
Proof.
  intros Hp. apply sort_by_unique; [apply str_leb_total|apply str_leb_trans|intros x y _ _; apply str_leb_antisym|].
  apply NoDup_Permutation; [apply NoDup_remove_dups..|]. intros x. by rewrite !elem_of_remove_dups, Hp.
Qed.

(** The universe does not depend on the order in which its candidates, identities,
    quarantine decisions and market snapshots are listed: reordering them gives the
    very same snapshot, with the same entries, references and hash. *)
Theorem build_universe_order_free as_of known_at mv a a' i i' q q' m m' sessions ph u
    (Ha : a ≡ₚ a') (Hi : i ≡ₚ i') (Hq : q ≡ₚ q') (Hm : m ≡ₚ m')
    (H : build_universe identity_digest decision_digest snapshot_digest universe_digest
       as_of known_at mv a i q m sessions ph = Ok u) :
  build_universe identity_digest decision_digest snapshot_digest universe_digest
    as_of known_at mv a' i' q' m' sessions ph = Ok u.
Proof.
  pose proof (build_Ok _ _ _ _ _ _ _ _ _ _ H) as (Hc & entries & Hen & _).
  pose proof (checks_Ok _ _ _ _ _ _ _ _ _ Hc) as (_ & (Na & Ni & Nq & Nm) & _).
  pose proof (ids_of_entries _ _ _ _ _ _ Hen) as Hids.
  apply (mapM_Ok_perm _ _ _ _ Ha) in Hen as Hen'. destruct Hen' as (entries' & Hen' & Hp).
  assert (Hev : ∀ x, evaluate_asset i q m known_at x = evaluate_asset i' q' m' known_at x).
  { intros x. unfold evaluate_asset. cbv zeta. f_equal; by apply of_key_perm. }
  rewrite (mapM_ext_all _ _ _ Hev) in Hen'.
  revert H. unfold build_universe. rewrite Hc, (checks_perm _ _ _ _ _ _ _ _ _ _ _ _ _ Ha Hi Hq Hm Hc), Hen, Hen'.
  simpl. rewrite (universe_entries_perm entries entries'), (sorted_hashes_perm (sn_hash <$> m) (sn_hash <$> m'));
    [done|by apply fmap_Permutation|by rewrite Hids|done].
Qed.
End universe.

(** ** A universe of two securities *)

Definition demo_first_session : Z := demo_first + 1.
Definition demo_known_at : Z := demo_first_session * DAY + 16 * HOUR.
Definition demo_month : list MarketSession :=
  [mk_Session demo_first CLOSED None; demo_session demo_first_session].
Definition demo_asset (id symbol : string) (k : AssetKind) : AssetObservation :=
  mk_Asset id symbol k true true NASDAQ (demo_known_at - DAY) (Some false) demo_digest.
Definition demo_view : IdentityView :=
  mk_View (mk_Identity "sec-1" "ABC" NASDAQ US_EQUITY (mk_Validity 0 None) 0 ACTIVE [] "1" demo_digest None None None)
    (demo_first_session * DAY) demo_known_at.
Definition demo_clear : QuarantineDecision :=
  mk_Decision "sec-1" "ABC" ("p4b.securities.v1:" +:+ demo_digest) (demo_known_at - DAY) ELIGIBLE [] [] [] demo_digest.
Definition demo_market : MarketSnapshot :=
  mk_Snapshot "sec-1" "ABC" (demo_known_at - HOUR) (demo_known_at - HOUR) (demo_known_at - HOUR)
    (demo_known_at - HOUR) IEX ENTITLED_IEX (mk_dec 1000 (-2)) (mk_dec 1001 (-2)) (mk_dec 10005 (-3)) 9
    (mk_SourceRef "quote-1" ALPACA_IEX_QUOTES demo_digest) LIMITED FRESH "p4c.market.v1" "1" []
    (Some (mk_dec 10005 (-3))) (Some (mk_dec 25000000 0)) (Some SIP_DELAYED) [demo_bar_ref]
    (seqZ (demo_first - 300) 252) [] [] (Some IEX_WARNING) [] demo_digest.
Definition demo_assets : list AssetObservation :=
  [demo_asset "sec-2" "FND" ETF; demo_asset "sec-1" "ABC" ORDINARY_COMMON_STOCK].
Definition demo_universe : outcome UniverseSnapshot :=
  build_universe (λ _, demo_digest) (λ _, demo_digest) (λ _, demo_digest) (λ _, demo_digest)
    demo_first_session demo_known_at ("p4b.securities.v1:" +:+ demo_digest) demo_assets [demo_view] [demo_clear]
    [demo_market] demo_month demo_digest.

Lemma entry_gates_decide_witness :
  ∃ e, evaluate_entry (demo_asset "sec-1" "ABC" ORDINARY_COMMON_STOCK) (Some demo_view) (Some demo_clear)
      (Some demo_market) demo_known_at = Ok e ∧ ue_eligible e = true ∧
    admitted (demo_asset "sec-1" "ABC" ORDINARY_COMMON_STOCK) (Some demo_view) (Some demo_clear)
      (Some demo_market) demo_known_at.
Proof.
  eexists. split; [vm_compute; reflexivity|]. split; [reflexivity|].
  eapply (entry_gates_decide (demo_asset "sec-1" "ABC" ORDINARY_COMMON_STOCK) (Some demo_view) (Some demo_clear)
    (Some demo_market) demo_known_at); [vm_compute; reflexivity|reflexivity].
Defined.

Lemma build_universe_sound_witness :
  ∃ u, demo_universe = Ok u ∧ ue_security_id <$> un_entries u = ["sec-1"; "sec-2"] ∧
    point_in_time demo_first_session demo_known_at demo_assets [demo_view] [demo_clear] [demo_market].
Proof.
  assert (Hok : is_Ok demo_universe = true) by (vm_compute; reflexivity).
  destruct demo_universe as [u|e] eqn:Hu; [|discriminate Hok]. clear Hok.
  pose proof Hu as H. unfold demo_universe in H.
  pose proof (build_universe_sound (λ _, demo_digest) (λ _, demo_digest) (λ _, demo_digest) (λ _, demo_digest)
    demo_first_session demo_known_at ("p4b.securities.v1:" +:+ demo_digest) demo_assets [demo_view] [demo_clear]
    [demo_market] demo_month demo_digest u H) as (_ & Hids & _ & Hp & _).
  exists u. split; [reflexivity|]. split; [|exact Hp]. rewrite Hids. vm_compute. reflexivity.
Defined.

Lemma build_universe_order_free_witness :
  ∃ u, demo_universe = Ok u ∧
    build_universe (λ _, demo_digest) (λ _, demo_digest) (λ _, demo_digest) (λ _, demo_digest)
      demo_first_session demo_known_at ("p4b.securities.v1:" +:+ demo_digest) (reverse demo_assets) [demo_view]
      [demo_clear] [demo_market] demo_month demo_digest = Ok u.
Proof.
  assert (Hok : is_Ok demo_universe = true) by (vm_compute; reflexivity).
  destruct demo_universe as [u|e] eqn:Hu; [|discriminate Hok]. clear Hok.
  exists u. split; [reflexivity|]. unfold demo_universe in Hu.
  apply (build_universe_order_free (λ _, demo_digest) (λ _, demo_digest) (λ _, demo_digest) (λ _, demo_digest)
    demo_first_session demo_known_at ("p4b.securities.v1:" +:+ demo_digest) demo_assets (reverse demo_assets)
    [demo_view] [demo_view] [demo_clear] [demo_clear] [demo_market] [demo_market] demo_month demo_digest u);
    [symmetry; apply reverse_Permutation|done|done|done|exact Hu].
Defined.
