(* ===== verification/Factors.v ===== *)
(** * The factor layer of the screening funnel: [screening/funnel.py]

    Session closes and their split adjustment, the trailing-twelve-month
    fundamentals assembled from quarterly SEC facts, the nine raw subfactors,
    and the cross-sectional scores.  Decimals are those of [Decimals]; the
    private authority of a record (a capability bound to its frozen fields) is
    left out, since a record built by its finalizer carries it. *)

From S2P Require Import Prelude Dicts Text Orders Decimals Calendar Sources.
Local Open Scope Z_scope.

(** ** Inputs *)

Record SessionClose := mk_SessionClose {
  sc_trading_date : Z;
  sc_close : Decimal;
  sc_source_ref : SourceRef;
  sc_available_at : Z;
  sc_security_id : option string;
}.

Definition make_SessionClose (date : Z) (close : Decimal) (ref : SourceRef) (available : Z)
    (sid : option string) : outcome SessionClose :=
  guard_that (dec_ltb dzero close) EValueError "close must be a positive finite Decimal" ≫= λ _,
  guard_that (bool_decide (ref_family ref = ALPACA_HISTORICAL_BARS)) EValueError
    "session closes require the historical-bars authority" ≫= λ _,
  Ok (mk_SessionClose date close ref available sid).

Inductive FundamentalConcept :=
  | NET_INCOME_LOSS | NET_CASH_OPERATING | ASSETS | CAPEX_PPE | SHARES_OUTSTANDING.
#[global] Instance FundamentalConcept_eq_dec : EqDecision FundamentalConcept.
Proof. solve_decision. Defined.

Inductive Quarter := Q1 | Q2 | Q3 | Q4.
#[global] Instance Quarter_eq_dec : EqDecision Quarter.
Proof. solve_decision. Defined.
Definition quarter_number (q : Quarter) : Z :=
  match q with Q1 => 1 | Q2 => 2 | Q3 => 3 | Q4 => 4 end.
Definition all_quarters : list Quarter := [Q1; Q2; Q3; Q4].

(** A fiscal period is one quarter or year-to-date. *)
Inductive FiscalPeriod := Single (q : Quarter) | YTD.
#[global] Instance FiscalPeriod_eq_dec : EqDecision FiscalPeriod.
Proof. solve_decision. Defined.
Definition is_ytd (p : FiscalPeriod) : bool := match p with YTD => true | _ => false end.

Record QuarterlyFact := mk_Fact {
  qf_concept : FundamentalConcept;
  qf_value : Decimal;
  qf_period_end : Z;
  qf_fiscal_year : Z;
  qf_fiscal_period : FiscalPeriod;
  qf_currency : string;
  qf_entity : string;
  qf_consolidation : string;
  qf_source_ref : SourceRef;
  qf_available_at : Z;
  qf_security_id : option string;
  qf_fiscal_quarter : option Quarter;
}.

Definition check_QuarterlyFact (f : QuarterlyFact) : outcome unit :=
  guard_that ((1900 <=? qf_fiscal_year f) && (qf_fiscal_year f <=? 2999)) EValueError
    "fiscal_year must be a bounded integer" ≫= λ _,
  match qf_fiscal_period f with
  | YTD => guard_that (bool_decide (is_Some (qf_fiscal_quarter f))) EValueError
             "YTD facts require an explicit fiscal_quarter Q1..Q4"
  | Single q => guard_that (bool_decide (qf_fiscal_quarter f = None ∨ qf_fiscal_quarter f = Some q))
                  EValueError "single-quarter fiscal_quarter must match fiscal_period"
  end ≫= λ _,
  guard_that (negb (bool_decide (qf_currency f = ""))) EValueError
    "currency requires non-empty bounded text" ≫= λ _,
  guard_that (negb (bool_decide (qf_entity f = ""))) EValueError
    "entity requires non-empty bounded text" ≫= λ _,
  guard_that (negb (bool_decide (qf_consolidation f = ""))) EValueError
    "consolidation requires non-empty bounded text" ≫= λ _,
  guard_that (bool_decide (ref_family (qf_source_ref f) = SEC_EDGAR)) EValueError
    "fundamental facts require the SEC EDGAR authority".

Record SharesObservation := mk_Shares {
  sh_value : Decimal;
  sh_entity : string;
  sh_currency : string;
  sh_consolidation : string;
  sh_source_ref : SourceRef;
  sh_available_at : Z;
  sh_security_id : option string;
}.

Definition check_SharesObservation (s : SharesObservation) : outcome unit :=
  guard_that (dec_ltb dzero (sh_value s)) EValueError
    "shares value must be a positive finite Decimal" ≫= λ _,
  guard_that (negb (bool_decide (sh_entity s = "") || bool_decide (sh_currency s = "") ||
                    bool_decide (sh_consolidation s = ""))) EValueError
    "shares text requires non-empty bounded text" ≫= λ _,
  guard_that (bool_decide (ref_family (sh_source_ref s) = SEC_EDGAR)) EValueError
    "shares require the SEC EDGAR authority".

Record SplitAdjustment := mk_Split {
  sp_security_id : string;
  sp_ex_date : Z;
  sp_numerator : Z;
  sp_denominator : Z;
  sp_source_ref : SourceRef;
  sp_available_at : Z;
  sp_confirmed : bool;
}.

Definition check_SplitAdjustment (s : SplitAdjustment) : outcome unit :=
  guard_that (0 <? sp_numerator s) EValueError "numerator must be a positive integer" ≫= λ _,
  guard_that (0 <? sp_denominator s) EValueError "denominator must be a positive integer" ≫= λ _,
  guard_that (bool_decide (ref_family (sp_source_ref s) = ALPACA_CORPORATE_ACTIONS)) EValueError
    "split adjustments require the corporate-actions authority" ≫= λ _,
  guard_that (sp_confirmed s) EValueError "split adjustments require an explicitly confirmed action".

(** ** Split-adjusted closes *)

Definition adjusted_close_value (close : Decimal) (date : Z) (splits : list SplitAdjustment)
    : Decimal :=
  foldl (λ v s, if date <? sp_ex_date s
                then d_div (d_mul v (dec_of_Z (sp_denominator s))) (dec_of_Z (sp_numerator s))
                else v) close splits.

(** [l == sorted(l) and len(set(l)) == len(l)] *)
Definition strictly_ordered (l : list Z) : bool :=
  bool_decide (l = sort_by Z.leb l) && bool_decide (NoDup l).

Definition known_or_cutoff (cutoff : Z) (known_at : option Z) : outcome Z :=
  let k := default cutoff known_at in
  guard_that (k <=? cutoff) EValueError "known_at cannot be after cutoff" ≫= λ _, Ok k.

Definition close_session_ok (cal : gmap Z MarketSession) (c : SessionClose) : bool :=
  match cal !! sc_trading_date c with
  | Some s => negb (is_closed s) && bool_decide (is_Some (ms_regular_session s))
  | None => false
  end.

Definition visible_split (cutoff known : Z) (s : SplitAdjustment) : bool :=
  (sp_available_at s <=? known) && (sp_ex_date s <=? utc_date cutoff).

Definition adjusted_closes (closes : list SessionClose) (splits : list SplitAdjustment)
    (cutoff : Z) (sessions : list MarketSession) (sid : option string) (known_at : option Z)
    : outcome (option (list SessionClose)) :=
  known ← known_or_cutoff cutoff known_at;
  cal ← session_calendar sessions;
  let dates := sc_trading_date <$> closes in
  let split_dates := sp_ex_date <$> splits in
  if match sid with
     | Some i => existsb (λ c, negb (bool_decide (sc_security_id c = Some i))) closes
     | None => false
     end then Ok None
  else if negb (strictly_ordered dates) then Ok None
  else if existsb (λ c, negb (close_session_ok cal c)) closes then Ok None
  else if existsb (λ c, (utc_date cutoff <=? sc_trading_date c) || (known <? sc_available_at c)) closes
       then Ok None
  else if negb (bool_decide (NoDup split_dates)) then Ok None
  else if negb (bool_decide (splits = [])) &&
          match sid with
          | None => true
          | Some i => existsb (λ s, negb (bool_decide (sp_security_id s = i)) || negb (sp_confirmed s))
                        splits
          end then Ok None
  else
    let visible := filter (λ s, visible_split cutoff known s = true) splits in
    adjusted ← mapM (λ c, make_SessionClose (sc_trading_date c)
        (adjusted_close_value (sc_close c) (sc_trading_date c) visible)
        (sc_source_ref c) (sc_available_at c) (sc_security_id c)) closes;
    Ok (Some adjusted).

(** ** Four quarters of one concept *)

Definition visible_fact (cutoff known : Z) (f : QuarterlyFact) : bool :=
  (qf_available_at f <=? known) && (qf_period_end f <=? utc_date cutoff).

(** [_fact_by_concept] *)
Definition fact_by_concept (facts : list QuarterlyFact) (c : FundamentalConcept) (cutoff known : Z)
    : list QuarterlyFact :=
  filter (λ f, qf_concept f = c ∧ visible_fact cutoff known f = true) facts.

(** [_quarter_value]; a missing prior and a zero prior subtract the same. *)
Definition quarter_value (f : QuarterlyFact) (prior_ytd : option Decimal) : Decimal :=
  match qf_fiscal_period f with
  | YTD => d_sub (qf_value f) (default dzero prior_ytd)
  | Single _ => qf_value f
  end.

(** A dict keyed by [label], or [None] at a missing or repeated key. *)
Section index_by.
Context {K A : Type} `{EqDecision K} (label : A → option K).
Definition assoc_get (k : K) (d : list (K * A)) : option A :=
  snd <$> find (λ p, bool_decide (p.1 = k)) d.
Fixpoint index_by (d : list (K * A)) (l : list A) : option (list (K * A)) :=
  match l with
  | [] => Some d
  | x :: l =>
      match label x with
      | None => None
      | Some k => match assoc_get k d with Some _ => None | None => index_by (d ++ [(k, x)]) l end
      end
  end.
End index_by.

Definition single_quarter (f : QuarterlyFact) : option Quarter :=
  match qf_fiscal_period f with Single q => Some q | YTD => None end.

(** The four quarters of an index, in order, when it has them all. *)
Definition four_quarters (d : list (Quarter * QuarterlyFact)) : option (list QuarterlyFact) :=
  mapM (λ q, assoc_get q d) all_quarters.

Definition candidate_of (ordered : list QuarterlyFact) : list (list QuarterlyFact) :=
  if strictly_ordered (qf_period_end <$> ordered) then [ordered] else [].

(** Direct and year-to-date facts of one group must tell the same quarters. *)
Fixpoint ytd_consistent (direct ytd : list QuarterlyFact) (prior : option Decimal) : bool :=
  match direct, ytd with
  | d :: direct, y :: ytd =>
      bool_decide (qf_period_end d = qf_period_end y) &&
      dec_eqb (qf_value d) (quarter_value y prior) &&
      ytd_consistent direct ytd (Some (qf_value y))
  | _, _ => true
  end.
Definition mixed_group_ok (group : list QuarterlyFact) : bool :=
  match index_by single_quarter [] (filter (λ f, is_ytd (qf_fiscal_period f) = false) group),
        index_by qf_fiscal_quarter [] (filter (λ f, is_ytd (qf_fiscal_period f) = true) group) with
  | Some direct, Some ytd =>
      match four_quarters direct, four_quarters ytd with
      | Some direct, Some ytd => ytd_consistent direct ytd None
      | _, _ => false
      end
  | _, _ => false
  end.

(** What one fiscal-year group adds to the candidates; [None] gives up. *)
Definition year_candidates (group : list QuarterlyFact) : option (list (list QuarterlyFact)) :=
  let ytd := existsb (λ f, is_ytd (qf_fiscal_period f)) group in
  let direct := existsb (λ f, negb (is_ytd (qf_fiscal_period f))) group in
  if ytd && direct then if mixed_group_ok group then Some [] else None
  else if ytd then
    Some (match index_by qf_fiscal_quarter [] group with
          | Some d => match four_quarters d with Some o => candidate_of o | None => [] end
          | None => []
          end)
  else
    Some (match index_by single_quarter [] group with
          | Some d => match four_quarters d with Some o => candidate_of o | None => [] end
          | None => []
          end).

(** Four consecutive fiscal quarters of direct facts, across fiscal years. *)
Definition fiscal_key (f : QuarterlyFact) : option (Z * Z) :=
  q ← single_quarter f; Some (qf_fiscal_year f, quarter_number q).
Definition key_leb (a b : (Z * Z) * QuarterlyFact) : bool :=
  (a.1.1 <? b.1.1) || ((a.1.1 =? b.1.1) && (a.1.2 <=? b.1.2)).
Definition ordinal (k : Z * Z) : Z := k.1 * 4 + k.2.
Definition window_ok (w : list ((Z * Z) * QuarterlyFact)) : bool :=
  match (λ p, ordinal p.1) <$> w with
  | (o :: _) as os => bool_decide (os = seqZ o 4)
  | [] => false
  end.
Fixpoint windows (l : list ((Z * Z) * QuarterlyFact)) : list (list ((Z * Z) * QuarterlyFact)) :=
  match l with
  | [] => []
  | _ :: l' => if (4 <=? length l)%nat then take 4 l :: windows l' else []
  end.
Definition context_candidates (group : list QuarterlyFact) : list (list QuarterlyFact) :=
  match index_by fiscal_key [] group with
  | None => []
  | Some d =>
      concat ((λ w, if window_ok w then candidate_of w.*2 else []) <$> windows (sort_by key_leb d))
  end.

(** The equality of two facts: decimals by value. *)
Definition fact_eqb (a b : QuarterlyFact) : bool :=
  bool_decide (qf_concept a = qf_concept b) && dec_eqb (qf_value a) (qf_value b) &&
  bool_decide (qf_period_end a = qf_period_end b) &&
  bool_decide (qf_fiscal_year a = qf_fiscal_year b) &&
  bool_decide (qf_fiscal_period a = qf_fiscal_period b) &&
  bool_decide (qf_currency a = qf_currency b) && bool_decide (qf_entity a = qf_entity b) &&
  bool_decide (qf_consolidation a = qf_consolidation b) &&
  bool_decide (qf_source_ref a = qf_source_ref b) &&
  bool_decide (qf_available_at a = qf_available_at b) &&
  bool_decide (qf_security_id a = qf_security_id b) &&
  bool_decide (qf_fiscal_quarter a = qf_fiscal_quarter b).
Fixpoint facts_eqb (a b : list QuarterlyFact) : bool :=
  match a, b with
  | [], [] => true
  | x :: a, y :: b => fact_eqb x y && facts_eqb a b
  | _, _ => false
  end.

Definition year_key (f : QuarterlyFact) : string * string * string * Z :=
  (qf_entity f, qf_currency f, qf_consolidation f, qf_fiscal_year f).
Definition lineage (f : QuarterlyFact) : string * string * string :=
  (qf_entity f, qf_currency f, qf_consolidation f).
Definition last_end (w : list QuarterlyFact) : Z := default 0 (qf_period_end <$> last w).

(** [_unique_quarter_keys] *)
Definition unique_quarter_keys (facts : list QuarterlyFact) (c : FundamentalConcept)
    (cutoff known : Z) : option (list QuarterlyFact) :=
  let visible := fact_by_concept facts c cutoff known in
  years ← mapM year_candidates (group_by year_key visible);
  let direct := filter (λ f, is_ytd (qf_fiscal_period f) = false) visible in
  let candidates := concat years ++ concat (context_candidates <$> group_by lineage direct) in
  match candidates with
  | [] => None
  | w :: ws =>
      let latest_end := foldl (λ m v, Z.max m (last_end v)) (last_end w) ws in
      match filter (λ v, last_end v = latest_end) candidates with
      | [] => None
      | v :: vs => if forallb (facts_eqb v) vs then Some v else None
      end
  end.

(** ** Trailing-twelve-month fundamentals *)

Record TtmFundamentals := mk_Ttm {
  ttm_net_income : Decimal;
  ttm_cfo : Decimal;
  ttm_capex : Decimal;
  assets_at_ttm_start : Decimal;
  assets_at_ttm_end : Decimal;
  ttm_shares_outstanding : Decimal;
  ttm_facts : list QuarterlyFact;
}.

Fixpoint quarter_values (prior : option Decimal) (quarters : list QuarterlyFact) : list Decimal :=
  match quarters with
  | [] => []
  | q :: quarters =>
      if is_ytd (qf_fiscal_period q)
      then quarter_value q prior :: quarter_values (Some (qf_value q)) quarters
      else qf_value q :: quarter_values prior quarters
  end.
Definition sum_ytd (quarters : list QuarterlyFact) : Decimal := d_sum (quarter_values None quarters).

(** [fact.fiscal_quarter or fact.fiscal_period]; a fact has one or the other. *)
Definition quarter_label (f : QuarterlyFact) : option Quarter :=
  match qf_fiscal_quarter f with Some q => Some q | None => single_quarter f end.
Definition quarter_key (f : QuarterlyFact) : Z * option Quarter * Z :=
  (qf_fiscal_year f, quarter_label f, qf_period_end f).

(** The asset facts of the four quarters and of the quarter before them. *)
Definition asset_step (lin : string * string * string) (start_year : Z) (start_period : Quarter)
    (first_end : Z) (keys : list (Z * option Quarter * Z))
    (st : option (list ((Z * option Quarter * Z) * QuarterlyFact) * option QuarterlyFact))
    (f : QuarterlyFact)
    : option (list ((Z * option Quarter * Z) * QuarterlyFact) * option QuarterlyFact) :=
  '(by_period, start) ← st;
  if negb (bool_decide (lineage f = lin)) then Some (by_period, start)
  else match qf_fiscal_period f with
  | YTD => None
  | Single q =>
      if (qf_fiscal_year f =? start_year) && bool_decide (q = start_period) &&
         (qf_period_end f <? first_end)
      then match start with Some _ => None | None => Some (by_period, Some f) end
      else
        let key := (qf_fiscal_year f, Some q, qf_period_end f) in
        if negb (bool_decide (key ∈ keys)) then Some (by_period, start)
        else match assoc_get key by_period with
             | Some _ => None
             | None => Some (by_period ++ [(key, f)], start)
             end
  end.

Definition previous_quarter (q : Quarter) : Quarter :=
  match q with Q1 => Q4 | Q2 => Q1 | Q3 => Q2 | Q4 => Q3 end.

Definition one_security (facts : list QuarterlyFact) : bool :=
  forallb (λ f, bool_decide (is_Some (qf_security_id f))) facts &&
  match facts with
  | [] => true
  | f :: fs => forallb (λ g, bool_decide (qf_security_id g = qf_security_id f)) fs
  end.

(** The body of [assemble_ttm] once the three flow concepts are known. *)
Definition assemble_flows (facts ni cfo capex : list QuarterlyFact) (shares : Decimal)
    (cutoff known : Z) : option TtmFundamentals :=
  first ← head ni;
  first_label ← quarter_label first;
  let keys := quarter_key <$> ni in
  if negb (forallb (λ qs, forallb (λ f, bool_decide (lineage f = lineage first)) qs &&
                          bool_decide (quarter_key <$> qs = keys)) [cfo; capex]) then None
  else if existsb (λ v, dec_ltb v dzero) (quarter_values None capex) ||
          dec_ltb (sum_ytd capex) dzero then None
  else
    let start_year := if 1 <? quarter_number first_label then qf_fiscal_year first
                      else qf_fiscal_year first - 1 in
    '(by_period, start) ← foldl
      (asset_step (lineage first) start_year (previous_quarter first_label) (qf_period_end first) keys)
      (Some ([], None)) (fact_by_concept facts ASSETS cutoff known);
    start ← start;
    ordered ← mapM (λ k, assoc_get k by_period) keys;
    if negb (bool_decide (qf_period_end <$> ordered = qf_period_end <$> ni)) then None
    else
      final ← last ordered;
      if dec_leb (qf_value start) dzero || dec_leb (qf_value final) dzero then None
      else Some (mk_Ttm (sum_ytd ni) (sum_ytd cfo) (sum_ytd capex) (qf_value start) (qf_value final)
                   shares ordered).

Definition assemble_ttm (facts : list QuarterlyFact) (shares : Decimal) (cutoff : Z)
    (known_at : option Z) : outcome (option TtmFundamentals) :=
  guard_that (dec_ltb dzero shares) EValueError
    "shares_outstanding must be a positive finite Decimal" ≫= λ _,
  known ← known_or_cutoff cutoff known_at;
  if negb (one_security facts) then Ok None
  else Ok (
    ni ← unique_quarter_keys facts NET_INCOME_LOSS cutoff known;
    cfo ← unique_quarter_keys facts NET_CASH_OPERATING cutoff known;
    capex ← unique_quarter_keys facts CAPEX_PPE cutoff known;
    assemble_flows facts ni cfo capex shares cutoff known).
