(* ===== verification/Scores.v ===== *)
(** * Raw subfactors and scores: [screening/funnel.py]

    The price subfactors of a series of closes, the nine raw subfactors of one
    security, winsorized midrank percentiles and the category scores over the
    cross-section. *)

From S2P Require Import Prelude Orders Decimals Calendar Sources Factors.
Local Open Scope Z_scope.

(** ** Price subfactors *)

Definition d_ratio_less_one (a b : Decimal) : Decimal := d_sub (d_div a b) d_one.

(** [_simple_returns] *)
Fixpoint returns_from (prev : Decimal) (l : list Decimal) : option (list Decimal) :=
  match l with
  | [] => Some []
  | c :: l =>
      if dec_leb c dzero || dec_leb prev dzero then None
      else rs ← returns_from c l; Some (d_ratio_less_one c prev :: rs)
  end.
Definition simple_returns (closes : list SessionClose) : option (list Decimal) :=
  match sc_close <$> closes with
  | c :: ((_ :: _) as l) => returns_from c l
  | _ => None
  end.

(** [l[-k]] for [1 <= k <= len(l)] *)
Definition nth_back {A} (k : nat) (l : list A) : option A := l !! (length l - k)%nat.

(** [_trend] *)
Definition trend (closes : list SessionClose) (lookback : nat) : option Decimal :=
  if (length closes <? lookback)%nat || (length closes <? 21)%nat then None
  else
    reference ← sc_close <$> nth_back 21 closes;
    base ← sc_close <$> nth_back lookback closes;
    if dec_leb reference dzero || dec_leb base dzero then None
    else Some (d_ratio_less_one reference base).

(** [_vol63] *)
Definition vol63 (closes : list SessionClose) : option Decimal :=
  returns ← simple_returns closes;
  if (length returns <? 63)%nat then None
  else
    let recent := last_n 63 returns in
    let mean := d_div (d_sum recent) (dec_of_Z 63) in
    let variance := d_div (d_sum ((λ r, d_square (d_sub r mean)) <$> recent)) (dec_of_Z 63) in
    if dec_ltb variance dzero then None
    else Some (d_mul (d_sqrt variance) (d_sqrt (dec_of_Z 252))).

(** The loop of [_max_drawdown252]: the running peak and the deepest fall. *)
Fixpoint drawdown_loop (peak deepest : Decimal) (l : list Decimal) : option Decimal :=
  match l with
  | [] => Some deepest
  | c :: l =>
      if dec_leb c dzero then None
      else
        let peak := if dec_ltb peak c then c else peak in
        let d := if dec_ltb dzero peak then d_sub d_one (d_div c peak) else dzero in
        drawdown_loop peak (if dec_ltb deepest d then d else deepest) l
  end.
Definition max_drawdown252 (closes : list SessionClose) : option Decimal :=
  if (length closes <? 252)%nat then None
  else
    m ← drawdown_loop dzero dzero (sc_close <$> last_n 252 closes);
    if dec_leb d_one m then None else Some m.

(** ** The nine raw subfactors *)

Inductive RawSubfactor :=
  | TREND_126_21 | TREND_252_21 | ROA | CFO_TO_ASSETS | ACCRUAL_QUALITY | EARNINGS_YIELD
  | FCF_YIELD | VOL63 | MAX_DRAWDOWN_252.
#[global] Instance RawSubfactor_eq_dec : EqDecision RawSubfactor.
Proof. solve_decision. Defined.
Definition subfactor_names : list RawSubfactor :=
  [TREND_126_21; TREND_252_21; ROA; CFO_TO_ASSETS; ACCRUAL_QUALITY; EARNINGS_YIELD; FCF_YIELD;
   VOL63; MAX_DRAWDOWN_252].

(** A dict from every subfactor to its value. *)
Definition RawFactors := RawSubfactor → Decimal.

(** [_raw_subfactors] *)
Definition raw_subfactors (closes : list SessionClose) (ttm : option TtmFundamentals)
    (previous_close : option Decimal) : option RawFactors :=
  t ← ttm; p ← previous_close;
  t126 ← trend closes 126; t252 ← trend closes 252;
  vol ← vol63 closes; mdd ← max_drawdown252 closes;
  let average_assets := d_div (d_add (assets_at_ttm_start t) (assets_at_ttm_end t)) (dec_of_Z 2) in
  if dec_leb average_assets dzero || dec_leb (ttm_shares_outstanding t) dzero || dec_leb p dzero
  then None
  else
    let market_cap := d_mul (ttm_shares_outstanding t) p in
    if dec_leb market_cap dzero then None
    else Some (λ n, match n with
      | TREND_126_21 => t126
      | TREND_252_21 => t252
      | ROA => d_div (ttm_net_income t) average_assets
      | CFO_TO_ASSETS => d_div (ttm_cfo t) average_assets
      | ACCRUAL_QUALITY => d_div (d_sub (ttm_cfo t) (ttm_net_income t)) average_assets
      | EARNINGS_YIELD => d_div (ttm_net_income t) market_cap
      | FCF_YIELD => d_div (d_sub (ttm_cfo t) (ttm_capex t)) market_cap
      | VOL63 => vol
      | MAX_DRAWDOWN_252 => mdd
      end).

(** ** Percentiles *)

(** [l.index(v)] for an element of [l]. *)
Fixpoint index_of (v : Decimal) (l : list Decimal) : nat :=
  match l with
  | [] => 0
  | x :: l => if dec_eqb x v then 0 else S (index_of v l)
  end.

(** The [ceil(p * n)]-th smallest value, for [p] percent. *)
Definition quantile (p : nat) (ordered : list Decimal) : Decimal :=
  default dzero (ordered !! ((p * length ordered + 99) `div` 100 - 1)%nat).

Definition winsorize (values : list Decimal) : list Decimal :=
  let ordered := sort_by dec_leb values in
  (λ v, d_min (dec_max v (quantile 5 ordered)) (quantile 95 ordered)) <$> values.

(** The midrank of [v] in a sorted list, scaled to [0, 1]. *)
Definition midrank (sorted : list Decimal) (v : Decimal) : Decimal :=
  let first := index_of v sorted in
  let last := (length sorted - 1 - index_of v (reverse sorted))%nat in
  d_div (d_div (d_add (dec_of_Z (Z.of_nat first)) (dec_of_Z (Z.of_nat last))) (dec_of_Z 2))
    (dec_of_Z (Z.of_nat (length sorted - 1))).

(** [_percentile] *)
Definition percentile (values : list Decimal) : outcome (list Decimal) :=
  match values with
  | [] => raise EValueError "percentile requires a non-empty cross-section"
  | [_] => Ok [mk_dec 5 (-1)]
  | _ => let w := winsorize values in Ok (midrank (sort_by dec_leb w) <$> w)
  end.

(** ** Category scores *)

Record CategoryScores := mk_Scores {
  s_trend : Decimal;
  s_quality : Decimal;
  s_value : Decimal;
  s_low_risk : Decimal;
  s_composite : Decimal;
}.

Definition score_of (p : RawSubfactor → Decimal) : CategoryScores :=
  let trend := d_div (d_add (p TREND_126_21) (p TREND_252_21)) (dec_of_Z 2) in
  let quality :=
    d_div (d_add (d_add (p ROA) (p CFO_TO_ASSETS)) (p ACCRUAL_QUALITY)) (dec_of_Z 3) in
  let value := d_div (d_add (p EARNINGS_YIELD) (p FCF_YIELD)) (dec_of_Z 2) in
  let low_risk := d_div (d_add (p VOL63) (p MAX_DRAWDOWN_252)) (dec_of_Z 2) in
  let composite :=
    d_add (d_add (d_add (d_mul (mk_dec 35 (-2)) trend) (d_mul (mk_dec 25 (-2)) quality))
             (d_mul (mk_dec 15 (-2)) value))
      (d_mul (mk_dec 25 (-2)) low_risk) in
  mk_Scores trend quality value low_risk composite.

(** A risk counts the other way round. *)
Definition negated (n : RawSubfactor) : bool :=
  match n with VOL63 | MAX_DRAWDOWN_252 => true | _ => false end.
Definition column (n : RawSubfactor) (raws : list RawFactors) : list Decimal :=
  (λ r, if negated n then d_neg (r n) else r n) <$> raws.

(** [_category_scores], a dict over the securities in identifier order. *)
Definition security_ids {A} (m : gmap string A) : list string :=
  sort_by String.leb (map_to_list m).*1.
Definition category_scores (raw_by_security : gmap string RawFactors)
    : outcome (gmap string CategoryScores) :=
  let ids := security_ids raw_by_security in
  let raws := omap (λ i, raw_by_security !! i) ids in
  match ids with
  | [] => Ok ∅
  | _ =>
      columns ← mapM (λ n, percentile (column n raws)) subfactor_names;
      let p (i : nat) (n : RawSubfactor) : Decimal :=
        default dzero
          (c ← assoc_get n (zip subfactor_names columns); c !! i) in
      Ok (list_to_map (imap (λ i sid, (sid, score_of (p i))) ids))
  end.
