(* ===== verification/ScoreFacts.v ===== *)
(** * Properties of the scores

    The percentile of a value is its counted midrank, whatever the order of the
    cross-section; category and composite scores lie in [0, 1] and follow
    dominance; the maximum drawdown is the deepest fall between two sessions. *)

From S2P Require Import Prelude Orders Decimals LedgerFacts Calendar Sources Factors Scores.
From Stdlib Require Import QArith Qminmax Lqa.
Local Open Scope Q_scope.

(** ** Lists *)

Definition count {A} (p : A → bool) (l : list A) : nat := length (filter (λ x, p x = true) l).

Lemma count_cons {A} (p : A → bool) x l :
  count p (x :: l) = ((if p x then 1 else 0) + count p l)%nat.
Proof. unfold count. rewrite filter_cons. destruct (p x); by case_decide. Qed.
Lemma count_le_length {A} (p : A → bool) l : (count p l ≤ length l)%nat.
Proof. apply length_filter. Qed.
Lemma count_mono {A} (p q : A → bool) l :
  (∀ x, x ∈ l → p x = true → q x = true) → (count p l ≤ count q l)%nat.
Proof.
  induction l as [|x l IH]; intros H; [done|]. rewrite !count_cons.
  assert (count p l ≤ count q l)%nat by (apply IH; intros y Hy; apply H; by right).
  specialize (H x ltac:(by left)). destruct (p x); [rewrite H by done; lia|]. destruct (q x); lia.
Qed.
Lemma count_negb {A} (p : A → bool) l : (count p l + count (λ x, negb (p x)) l = length l)%nat.
Proof. induction l as [|x l IH]; [done|]. rewrite !count_cons. simpl. destruct (p x); simpl; lia. Qed.
Lemma count_perm {A} (p : A → bool) l k : l ≡ₚ k → count p l = count p k.
Proof. intros H. unfold count. by rewrite H. Qed.
Lemma count_ext {A} (p q : A → bool) l : (∀ x, x ∈ l → p x = q x) → count p l = count q l.
Proof.
  intros H. apply Nat.le_antisymm; apply count_mono; intros x Hx; rewrite (H x Hx); done.
Qed.
Lemma count_fmap {A B} (p : B → bool) (f : A → B) l : count p (f <$> l) = count (p ∘ f) l.
Proof. induction l as [|x l IH]; [done|]. by rewrite fmap_cons, !count_cons, IH. Qed.
Lemma count_pos {A} (p : A → bool) l x : x ∈ l → p x = true → (0 < count p l)%nat.
Proof.
  induction 1 as [x l|x y l _ IH]; intros H; rewrite count_cons; [rewrite H; lia|].
  specialize (IH H). lia.
Qed.
Lemma count_lt_length {A} (p : A → bool) l x : x ∈ l → p x = false → (count p l < length l)%nat.
Proof.
  intros Hx Hp. pose proof (count_pos (λ x, negb (p x)) l x Hx ltac:(simpl; by rewrite Hp)).
  pose proof (count_negb p l). lia.
Qed.

(** ** Ranks by counting *)

Definition below (v : Decimal) (l : list Decimal) : nat := count (λ x, dec_ltb x v) l.
Definition above (v : Decimal) (l : list Decimal) : nat := count (λ x, dec_ltb v x) l.
Definition upto (v : Decimal) (l : list Decimal) : nat := count (λ x, dec_leb x v) l.

Lemma upto_above v l : (upto v l + above v l = length l)%nat.
Proof.
  rewrite <-(count_negb (λ x, dec_leb x v) l). f_equal. 
Qed.

Section index.
Context (lt : Decimal → Decimal → bool) (v : Decimal).
Context (Heq : ∀ x, dec_eqb x v = negb (lt x v || lt v x)).
Context (Hcong : ∀ x y, dec_eqb x v = true → lt y x = lt y v).

Lemma index_of_count l :
  v ∈ l → StronglySorted (λ a b, lt b a = false) l → index_of v l = count (λ x, lt x v) l.
Proof using Heq Hcong.
  intros Hv Hl. induction Hl as [|x l Hl IH Hx]; [by apply elem_of_nil in Hv|]. simpl.
  rewrite count_cons. rewrite Forall_forall in Hx. destruct (dec_eqb x v) eqn:E.
  - pose proof (Heq x) as Hxv. rewrite E in Hxv. symmetry in Hxv.
    apply negb_true_iff, orb_false_iff in Hxv as [-> _]. simpl. symmetry.
    apply Nat.le_0_r. destruct (count _ l) eqn:Hc; [lia|exfalso].
    assert (count (λ x, lt x v) l ≤ count (λ _, false) l)%nat as Hle.
    { apply count_mono. intros y Hy. rewrite <-(Hcong x y E), (Hx y Hy). done. }
    assert (count (λ _ : Decimal, false) l = 0)%nat as H0; [|lia].
    clear. induction l as [|y l IH]; [done|]. by rewrite count_cons.
  - apply elem_of_cons in Hv as [->|Hv].
    + exfalso. pose proof (dec_eqb_spec x x) as [_ H]. rewrite H in E by reflexivity. done.
    + rewrite (IH Hv). pose proof (Heq x) as Hxv. rewrite E in Hxv. symmetry in Hxv.
      apply negb_false_iff, orb_true_iff in Hxv as [->|Hvx]; [done|].
      by rewrite (Hx v Hv) in Hvx.
Qed.
End index.

Lemma dec_sort_sorted l : StronglySorted (λ a b, dec_leb a b = true) (sort_by dec_leb l).
Proof. apply sort_by_sorted; [apply dec_leb_total|apply dec_leb_trans]. Qed.

Lemma dec_ltb_negb a b : dec_ltb a b = negb (dec_leb b a).
Proof. done. Qed.
Lemma dec_leb_cong x v y : dec_eqb x v = true → dec_leb x y = dec_leb v y ∧ dec_leb y x = dec_leb y v.
Proof.
  intros E. apply dec_eqb_spec in E. split; apply eq_iff_eq_true; rewrite !dec_leb_spec; split; lra.
Qed.

Lemma index_of_below v w : v ∈ w → index_of v (sort_by dec_leb w) = below v w.
Proof.
  intros Hv. unfold below. rewrite <-(count_perm _ _ w (sort_by_perm dec_leb w)).
  apply (index_of_count dec_ltb).
  - intros x. unfold dec_eqb, dec_ltb. destruct (dec_leb x v), (dec_leb v x); done.
  - intros x y E. unfold dec_ltb. by destruct (dec_leb_cong x v y E) as [-> _].
  - by apply elem_of_sort_by.
  - eapply StronglySorted_weaken; [|apply dec_sort_sorted]. intros a b H. simpl. unfold dec_ltb. by rewrite H.
Qed.
Lemma index_of_above v w : v ∈ w → index_of v (reverse (sort_by dec_leb w)) = above v w.
Proof.
  intros Hv. unfold above. rewrite <-(count_perm _ _ w (sort_by_perm dec_leb w)).
  rewrite <-(count_perm _ _ _ (reverse_Permutation (sort_by dec_leb w))).
  apply (index_of_count (flip dec_ltb)).
  - intros x. unfold dec_eqb, dec_ltb, flip. destruct (dec_leb x v), (dec_leb v x); done.
  - intros x y E. unfold dec_ltb, flip. by destruct (dec_leb_cong x v y E) as [_ ->].
  - by apply elem_of_reverse, elem_of_sort_by.
  - eapply StronglySorted_weaken; [|apply StronglySorted_reverse, dec_sort_sorted].
    intros a b H. unfold flip, dec_ltb in *. by rewrite H.
Qed.

(** ** Winsorized values *)

Lemma sorted_lookup_count s k a :
  StronglySorted (λ a b, dec_leb a b = true) s → s !! k = Some a →
  (below a s ≤ k < upto a s)%nat.
Proof.
  intros Hs. revert k. induction Hs as [|x s Hs IH Hx]; intros k Hk; [done|].
  rewrite Forall_forall in Hx. unfold below, upto in *. rewrite !count_cons. destruct k as [|k].
  - simplify_eq/=. assert (dec_leb a a = true) as Haa by (apply dec_leb_spec; lra).
    rewrite dec_ltb_negb, Haa. simpl. split; [|lia].
    enough (count (λ x, dec_ltb x a) s ≤ count (λ _, false) s)%nat as H.
    { enough (count (λ _ : Decimal, false) s = 0)%nat by lia. clear.
      induction s as [|y s IH]; [done|]. by rewrite count_cons. }
    apply count_mono. intros y Hy. by rewrite dec_ltb_negb, (Hx y Hy).
  - simpl in Hk. specialize (IH k Hk). apply list_elem_of_lookup_2 in Hk.
    specialize (Hx a Hk). rewrite Hx. destruct (dec_ltb x a); lia.
Qed.

Lemma below_mono a b l : dq a <= dq b → (below a l ≤ below b l)%nat.
Proof. intros H. apply count_mono. intros x _. rewrite !dec_ltb_spec. lra. Qed.
Lemma upto_mono a b l : dq a <= dq b → (upto a l ≤ upto b l)%nat.
Proof. intros H. apply count_mono. intros x _. rewrite !dec_leb_spec. lra. Qed.
Lemma upto_below a b l : dq a < dq b → (upto a l ≤ below b l)%nat.
Proof. intros H. apply count_mono. intros x _. rewrite dec_leb_spec, dec_ltb_spec. lra. Qed.

Lemma sorted_perm_values l k i a b :
  l ≡ₚ k → sort_by dec_leb l !! i = Some a → sort_by dec_leb k !! i = Some b → dq a == dq b.
Proof.
  intros Hp Ha Hb. apply sorted_lookup_count in Ha, Hb; [|apply dec_sort_sorted..].
  assert (Hperm : sort_by dec_leb l ≡ₚ sort_by dec_leb k) by by rewrite !sort_by_perm.
  unfold below, upto in *. rewrite !(count_perm _ _ _ Hperm) in Ha.
  destruct (Qlt_le_dec (dq a) (dq b)) as [H|H].
  { pose proof (upto_below a b (sort_by dec_leb k) H). unfold below, upto in *. lia. }
  destruct (Qlt_le_dec (dq b) (dq a)) as [H'|H'].
  { pose proof (upto_below b a (sort_by dec_leb k) H'). unfold below, upto in *. lia. }
  lra.
Qed.

Lemma quantile_perm p l k :
  l ≡ₚ k → dq (quantile p (sort_by dec_leb l)) == dq (quantile p (sort_by dec_leb k)).
Proof.
  intros Hp. unfold quantile.
  assert (Hlen : length (sort_by dec_leb l) = length (sort_by dec_leb k))
    by (apply Permutation_length; by rewrite !sort_by_perm).
  rewrite Hlen. set (i := ((p * _ + 99) `div` 100 - 1)%nat).
  destruct (sort_by dec_leb l !! i) as [a|] eqn:Ha.
  - assert (is_Some (sort_by dec_leb k !! i)) as [b Hb].
    { apply lookup_lt_is_Some. apply lookup_lt_Some in Ha. lia. }
    rewrite Hb. simpl. by eapply sorted_perm_values.
  - apply lookup_ge_None in Ha. rewrite lookup_ge_None_2 by lia. done.
Qed.

Definition clamp (values : list Decimal) (x : Decimal) : Decimal :=
  let ordered := sort_by dec_leb values in
  d_min (dec_max x (quantile 5 ordered)) (quantile 95 ordered).

Lemma dq_d_min a b : dq (d_min a b) == Qmin (dq a) (dq b).
Proof.
  unfold d_min. destruct (dec_ltb b a) eqn:E.
  - apply dec_ltb_spec in E. rewrite Q.min_r; lra.
  - apply dec_ltb_false in E. rewrite Q.min_l; lra.
Qed.
Lemma dq_dec_max a b : dq (dec_max a b) == Qmax (dq a) (dq b).
Proof.
  unfold dec_max. destruct (dec_ltb a b) eqn:E.
  - apply dec_ltb_spec in E. rewrite Q.max_r; lra.
  - apply dec_ltb_false in E. rewrite Q.max_l; lra.
Qed.

Lemma clamp_mono values values' x y :
  values ≡ₚ values' → dq x <= dq y → dq (clamp values x) <= dq (clamp values' y).
Proof.
  intros Hp Hxy. unfold clamp. rewrite !dq_d_min, !dq_dec_max, !(quantile_perm _ _ _ Hp).
  apply Q.min_le_compat_r, Q.max_le_compat_r. done.
Qed.
Lemma clamp_perm values values' x :
  values ≡ₚ values' → dq (clamp values x) == dq (clamp values' x).
Proof. intros Hp. apply Qle_antisym; apply clamp_mono; try done; lra. Qed.

(** ** The score of a value in a cross-section *)

(** The mean of the first and the last position of [v], by counting. *)
Definition counted_midrank (w : list Decimal) (v : Decimal) : Decimal :=
  d_div (d_div (d_add (dec_of_Z (Z.of_nat (below v w))) (dec_of_Z (Z.of_nat (upto v w - 1))))
           (dec_of_Z 2)) (dec_of_Z (Z.of_nat (length w - 1))).

Definition rank_score (values : list Decimal) (x : Decimal) : Decimal :=
  if decide (length values = 1%nat) then mk_dec 5 (-1)
  else counted_midrank (winsorize values) (clamp values x).

Lemma midrank_counted w v : v ∈ w → midrank (sort_by dec_leb w) v = counted_midrank w v.
Proof.
  intros Hv. unfold midrank, counted_midrank.
  rewrite (index_of_below v w Hv), (index_of_above v w Hv), (Permutation_length (sort_by_perm _ w)).
  replace (length w - 1 - above v w)%nat with (upto v w - 1)%nat; [done|].
  pose proof (upto_above v w). lia.
Qed.

Lemma winsorize_clamp values : winsorize values = clamp values <$> values.
Proof. done. Qed.

Lemma percentile_rank_score values :
  values ≠ [] → percentile values = Ok (rank_score values <$> values).
Proof.
  intros Hne. destruct values as [|x [|y l]]; [done|done|]. set (V := x :: y :: l).
  change (percentile V) with (Ok (midrank (sort_by dec_leb (winsorize V)) <$> winsorize V)).
  f_equal. rewrite (winsorize_clamp V) at 2. rewrite <-list_fmap_compose.
  apply list_fmap_ext. intros i v Hv. unfold Program.Basics.compose, rank_score. case_decide as Hl; [done|].
  apply midrank_counted. rewrite winsorize_clamp. apply list_elem_of_fmap_2.
  by eapply list_elem_of_lookup_2.
Qed.

Lemma winsorize_perm values values' v :
  values ≡ₚ values' →
  below v (winsorize values) = below v (winsorize values') ∧
  upto v (winsorize values) = upto v (winsorize values').
Proof.
  intros Hp. unfold below, upto. rewrite !winsorize_clamp.
  rewrite !(count_perm _ _ _ (fmap_Permutation (clamp values) _ _ Hp)).
  rewrite !count_fmap. split; apply count_ext; intros x _; unfold Program.Basics.compose;
    apply eq_iff_eq_true; rewrite ?dec_ltb_spec, ?dec_leb_spec;
    pose proof (clamp_perm values values' x Hp); split; intros; lra.
Qed.

Lemma below_eq a b l : dq a == dq b → below a l = below b l.
Proof. intros H. apply Nat.le_antisymm; apply below_mono; lra. Qed.
Lemma upto_eq a b l : dq a == dq b → upto a l = upto b l.
Proof. intros H. apply Nat.le_antisymm; apply upto_mono; lra. Qed.

Lemma rank_score_perm values values' x :
  values ≡ₚ values' → rank_score values x = rank_score values' x.
Proof.
  intros Hp. unfold rank_score. rewrite (Permutation_length Hp). case_decide; [done|].
  unfold counted_midrank. pose proof (clamp_perm values values' x Hp) as Hc.
  rewrite (below_eq _ _ _ Hc), (upto_eq _ _ _ Hc).
  destruct (winsorize_perm values values' (clamp values' x) Hp) as [-> ->].
  unfold winsorize. by rewrite !length_fmap, (Permutation_length Hp).
Qed.

Lemma dec_of_nat_mono n m : (n ≤ m)%nat → dq (dec_of_Z (Z.of_nat n)) <= dq (dec_of_Z (Z.of_nat m)).
Proof. intros H. rewrite !dq_of_Z, <-Zle_Qle. lia. Qed.

Lemma rank_score_mono values x y :
  (length values ≠ 0)%nat → dq x <= dq y → dq (rank_score values x) <= dq (rank_score values y).
Proof.
  intros Hne Hxy. unfold rank_score. case_decide as Hn; [lra|]. unfold counted_midrank.
  assert (Hc : dq (clamp values x) <= dq (clamp values y)) by by apply clamp_mono.
  apply d_div_mono.
  { rewrite dq_of_Z. change 0 with (inject_Z 0). rewrite <-Zlt_Qlt. unfold winsorize.
    rewrite length_fmap. lia. }
  apply d_div_mono; [by rewrite dq_of_Z|].
  pose proof (below_mono _ _ (winsorize values) Hc). pose proof (upto_mono _ _ (winsorize values) Hc).
  apply d_add_mono; apply dec_of_nat_mono; lia.
Qed.

Definition in_unit (d : Decimal) : Prop := 0 <= dq d ∧ dq d <= 1.

Lemma counted_midrank_unit w v :
  (2 ≤ length w)%nat → (Z.of_nat (length w) ≤ 10 ^ 27)%Z → v ∈ w → in_unit (counted_midrank w v).
Proof.
  intros H2 Hlen Hv. unfold counted_midrank. set (n := (length w - 1)%nat).
  assert (Hn27 : (2 * Z.of_nat n ≤ 10 ^ 28)%Z) by (unfold n; lia).
  assert (Hb : (below v w ≤ n)%nat).
  { pose proof (count_lt_length (λ x, dec_ltb x v) w v Hv) as H. unfold below.
    assert (dec_ltb v v = false) by (apply dec_ltb_false; lra). specialize (H ltac:(done)). lia. }
  assert (Hu : (upto v w - 1 ≤ n)%nat) by (pose proof (count_le_length (λ x, dec_leb x v) w); unfold upto; lia).
  assert (Hn : 0 < dq (dec_of_Z (Z.of_nat n))).
  { rewrite dq_of_Z. change 0 with (inject_Z 0). rewrite <-Zlt_Qlt. lia. }
  set (f := dec_of_Z (Z.of_nat (below v w))). set (l := dec_of_Z (Z.of_nat (upto v w - 1))).
  assert (Hf : 0 <= dq f ∧ dq f <= dq (dec_of_Z (Z.of_nat n))).
  { split; [|by apply dec_of_nat_mono]. rewrite <-dq_zero. by apply (dec_of_nat_mono 0); lia. }
  assert (Hl : 0 <= dq l ∧ dq l <= dq (dec_of_Z (Z.of_nat n))).
  { split; [|by apply dec_of_nat_mono]. rewrite <-dq_zero. by apply (dec_of_nat_mono 0); lia. }
  assert (H2n : 0 < dq (dec_of_Z 2)) by by rewrite dq_of_Z.
  assert (Hsum : 0 <= dq (d_add f l)) by (apply d_add_nonneg; lra).
  assert (Hhalf : 0 <= dq (d_div (d_add f l) (dec_of_Z 2))) by by apply d_div_nonneg.
  split; [by apply d_div_nonneg|].
  assert (Hs : dq (d_add f l) <= inject_Z (2 * Z.of_nat n)).
  { apply (rounds_le _ _ _ (d_add_rounds f l)); [apply fits_Z; unfold PREC; lia|].
    rewrite inject_Z_mult. change (inject_Z 2) with 2. rewrite dq_of_Z in Hf, Hl. lra. }
  assert (Hh : dq (d_div (d_add f l) (dec_of_Z 2)) <= inject_Z (Z.of_nat n)).
  { apply (rounds_le _ _ _ (d_div_rounds (d_add f l) (dec_of_Z 2) ltac:(lra)));
      [apply fits_Z; unfold PREC; lia|].
    apply Qle_shift_div_r; [done|]. rewrite dq_of_Z, inject_Z_mult in *.
    change (inject_Z 2) with 2 in *. lra. }
  apply (rounds_le _ _ _ (d_div_rounds _ (dec_of_Z (Z.of_nat n)) ltac:(lra)) fits_1).
  apply Qle_shift_div_r; [done|]. rewrite dq_of_Z. lra.
Qed.

Lemma rank_score_unit values x :
  (Z.of_nat (length values) ≤ 10 ^ 27)%Z → x ∈ values → in_unit (rank_score values x).
Proof.
  intros Hlen Hx. unfold rank_score. case_decide as H1; [by vm_compute|].
  apply counted_midrank_unit; unfold winsorize; rewrite ?length_fmap; [|done|].
  - destruct values as [|y [|z l]]; [by apply elem_of_nil in Hx|done|simpl; lia].
  - by apply (list_elem_of_fmap_2 (clamp values)).
Qed.

(** The percentile of a cross-section is, for every value, the midrank of its
    winsorized value obtained by counting (the values below it and up to it),
    scaled to [0, 1]; it lies in that interval, never decreases with the value
    (so ties score the same), and does not depend on the order of the
    cross-section.  Only the empty one raises. *)
Theorem percentile_midrank values :
  (Z.of_nat (length values) ≤ 10 ^ 27)%Z →
  match percentile values with
  | Raise e => values = [] ∧ exn_cls e = EValueError
  | Ok scores =>
      scores = rank_score values <$> values ∧
      (∀ x, x ∈ values → in_unit (rank_score values x)) ∧
      (∀ x y, dq x <= dq y → dq (rank_score values x) <= dq (rank_score values y)) ∧
      (∀ values', values' ≡ₚ values → percentile values' = Ok (rank_score values <$> values'))
  end.
Proof.
  intros Hlen. destruct (decide (values = [])) as [->|Hne]; [done|].
  rewrite percentile_rank_score by done. split_and!; [done| | |].
  - intros x Hx. by apply rank_score_unit.
  - intros x y. apply rank_score_mono. by destruct values.
  - intros values' Hp. rewrite percentile_rank_score.
    + f_equal. apply list_fmap_ext. intros i x _. by apply rank_score_perm.
    + intros ->. by apply Permutation_nil_l in Hp.
Qed.

Lemma percentile_midrank_witness :
  (Z.of_nat (length (dec_of_Z <$> [3; 1; 3; 7]%Z)) ≤ 10 ^ 27)%Z ∧
  match percentile (dec_of_Z <$> [3; 1; 3; 7]%Z) with
  | Ok scores => scores = rank_score (dec_of_Z <$> [3; 1; 3; 7]%Z) <$> (dec_of_Z <$> [3; 1; 3; 7]%Z)
  | Raise _ => False
  end.
Proof.
  assert (H : (Z.of_nat (length (dec_of_Z <$> [3; 1; 3; 7]%Z)) ≤ 10 ^ 27)%Z) by (vm_compute; discriminate).
  split; [exact H|]. pose proof (percentile_midrank (dec_of_Z <$> [3; 1; 3; 7]%Z) H) as Hp.
  destruct (percentile (dec_of_Z <$> [3; 1; 3; 7]%Z)) as [scores|e]; [exact (proj1 Hp)|].
  destruct Hp as [Hp _]. discriminate Hp.
Defined.

(** ** Category scores *)

Lemma mean2_unit a b : in_unit a → in_unit b → in_unit (d_div (d_add a b) (dec_of_Z 2)).
Proof.
  intros [Ha Ha'] [Hb Hb']. assert (H2 : dq (dec_of_Z 2) == 2) by apply dq_of_Z.
  pose proof (d_add_nonneg a b Ha Hb) as H0. split; [apply d_div_nonneg; lra|].
  assert (Hs : dq (d_add a b) <= 2)
    by (apply (rounds_le _ _ _ (d_add_rounds a b)); [by apply (fits_Z 2)|lra]).
  apply (rounds_le _ _ _ (d_div_rounds (d_add a b) (dec_of_Z 2) ltac:(lra)) fits_1).
  apply Qle_shift_div_r; lra.
Qed.

Lemma mean3_unit a b c :
  in_unit a → in_unit b → in_unit c → in_unit (d_div (d_add (d_add a b) c) (dec_of_Z 3)).
Proof.
  intros [Ha Ha'] [Hb Hb'] [Hc Hc']. assert (H3 : dq (dec_of_Z 3) == 3) by apply dq_of_Z.
  pose proof (d_add_nonneg a b Ha Hb) as H0. pose proof (d_add_nonneg _ c H0 Hc) as H1.
  split; [apply d_div_nonneg; lra|].
  assert (Hs : dq (d_add a b) <= 2)
    by (apply (rounds_le _ _ _ (d_add_rounds a b)); [by apply (fits_Z 2)|lra]).
  assert (Ht : dq (d_add (d_add a b) c) <= 3)
    by (apply (rounds_le _ _ _ (d_add_rounds (d_add a b) c)); [by apply (fits_Z 3)|lra]).
  apply (rounds_le _ _ _ (d_div_rounds (d_add (d_add a b) c) (dec_of_Z 3) ltac:(lra)) fits_1).
  apply Qle_shift_div_r; lra.
Qed.

(** A weighted category and the sum of the weights so far. *)
Lemma weighted_le k a : 0 <= dq k → fits PREC (dq k) → in_unit a → 0 <= dq (d_mul k a) ∧ dq (d_mul k a) <= dq k.
Proof.
  intros Hk Hf [Ha Ha']. split.
  - apply (rounds_ge _ _ 0 (d_mul_rounds k a) fits_0). by apply Qmult_le_0_compat.
  - apply (rounds_le _ _ _ (d_mul_rounds k a) Hf).
    assert (dq k * dq a <= dq k * 1) as H; [|lra].
    rewrite !(Qmult_comm (dq k)). by apply Qmult_le_compat_r.
Qed.
Lemma add_le a b x y z :
  0 <= dq a ∧ dq a <= x → 0 <= dq b ∧ dq b <= y → fits PREC z → x + y == z →
  0 <= dq (d_add a b) ∧ dq (d_add a b) <= z.
Proof.
  intros [Ha Ha'] [Hb Hb'] Hf Hz. split; [by apply d_add_nonneg|].
  apply (rounds_le _ _ _ (d_add_rounds a b) Hf). lra.
Qed.

Definition scores_unit (s : CategoryScores) : Prop :=
  in_unit (s_trend s) ∧ in_unit (s_quality s) ∧ in_unit (s_value s) ∧ in_unit (s_low_risk s) ∧
  in_unit (s_composite s).
(** Every score of [s] is at most that of [s']. *)
Definition scores_le (s s' : CategoryScores) : Prop :=
  dq (s_trend s) <= dq (s_trend s') ∧ dq (s_quality s) <= dq (s_quality s') ∧
  dq (s_value s) <= dq (s_value s') ∧ dq (s_low_risk s) <= dq (s_low_risk s') ∧
  dq (s_composite s) <= dq (s_composite s').

Lemma score_of_unit p : (∀ n, in_unit (p n)) → scores_unit (score_of p).
Proof.
  intros Hp. unfold scores_unit, score_of; cbv zeta; simpl.
  pose proof (mean2_unit _ _ (Hp TREND_126_21) (Hp TREND_252_21)) as Ht.
  pose proof (mean3_unit _ _ _ (Hp ROA) (Hp CFO_TO_ASSETS) (Hp ACCRUAL_QUALITY)) as Hq.
  pose proof (mean2_unit _ _ (Hp EARNINGS_YIELD) (Hp FCF_YIELD)) as Hv.
  pose proof (mean2_unit _ _ (Hp VOL63) (Hp MAX_DRAWDOWN_252)) as Hr.
  do 4 (split; [done|]). set (k35 := mk_dec 35 (-2)). set (k25 := mk_dec 25 (-2)).
  set (k15 := mk_dec 15 (-2)).
  assert (H35 : dq k35 == 35 # 100) by reflexivity. assert (H25 : dq k25 == 25 # 100) by reflexivity.
  assert (H15 : dq k15 == 15 # 100) by reflexivity.
  assert (Hf : ∀ c, (Z.abs c ≤ 10 ^ 28)%Z → fits PREC (c # 100)).
  { intros c Hc. exists c, (-2)%Z. split; [done|]. unfold p10. simpl. unfold Qeq. simpl. lia. }
  apply (weighted_le k35) in Ht; [|lra|rewrite H35; by apply Hf].
  apply (weighted_le k25) in Hq; [|lra|rewrite H25; by apply Hf].
  apply (weighted_le k25) in Hr; [|lra|rewrite H25; by apply Hf].
  apply (weighted_le k15) in Hv; [|lra|rewrite H15; by apply Hf].
  pose proof (add_le _ _ _ _ (60 # 100) Ht Hq (Hf 60%Z ltac:(done)) ltac:(lra)) as H1.
  pose proof (add_le _ _ _ _ (75 # 100) H1 Hv (Hf 75%Z ltac:(done)) ltac:(lra)) as H2.
  exact (add_le _ _ _ _ 1 H2 Hr fits_1 ltac:(lra)).
Qed.

Lemma score_of_mono p q : (∀ n, dq (p n) <= dq (q n)) → scores_le (score_of p) (score_of q).
Proof.
  intros Hp. unfold scores_le, score_of; cbv zeta; simpl.
  assert (H2 : 0 < dq (dec_of_Z 2)) by by rewrite dq_of_Z.
  assert (H3 : 0 < dq (dec_of_Z 3)) by by rewrite dq_of_Z.
  assert (Ht : ∀ a b, dq (d_div (d_add (p a) (p b)) (dec_of_Z 2)) <=
                      dq (d_div (d_add (q a) (q b)) (dec_of_Z 2)))
    by (intros a b; apply d_div_mono; [done|]; by apply d_add_mono).
  assert (Hq : ∀ a b c, dq (d_div (d_add (d_add (p a) (p b)) (p c)) (dec_of_Z 3)) <=
                        dq (d_div (d_add (d_add (q a) (q b)) (q c)) (dec_of_Z 3)))
    by (intros a b c; apply d_div_mono; [done|]; apply d_add_mono; [by apply d_add_mono|done]).
  split_and!; try done.
  apply d_add_mono; [apply d_add_mono; [apply d_add_mono|]|]; apply d_mul_mono_l; try done.
Qed.

(** ** The whole cross-section *)

(** What enters the percentile of [n]: risks are negated. *)
Definition ranked (n : RawSubfactor) (r : RawFactors) : Decimal :=
  if negated n then d_neg (r n) else r n.
Definition cross_section (m : gmap string RawFactors) : list RawFactors := (map_to_list m).*2.
(** The score of one security, the cross-section taken in any order. *)
Definition security_scores (m : gmap string RawFactors) (r : RawFactors) : CategoryScores :=
  score_of (λ n, rank_score (column n (cross_section m)) (ranked n r)).

Lemma omap_total_lookup {A B} (f : A → option B) (l : list A) (i : nat) :
  (∀ x, x ∈ l → is_Some (f x)) → omap f l !! i = l !! i ≫= f.
Proof.
  revert i. induction l as [|x l IH]; intros i H; [done|]. simpl.
  destruct (H x ltac:(by left)) as [y Hy]. rewrite Hy. destruct i as [|i]; [done|]. simpl.
  apply IH. intros z Hz. apply H. by right.
Qed.
Lemma assoc_get_names {B} (g : RawSubfactor → B) n :
  assoc_get n (zip subfactor_names (g <$> subfactor_names)) = Some (g n).
Proof. by destruct n. Qed.
Lemma elem_of_security_ids {A} (m : gmap string A) i : i ∈ security_ids m ↔ is_Some (m !! i).
Proof.
  unfold security_ids. rewrite elem_of_sort_by, list_elem_of_fmap. split.
  - intros ([j x] & -> & H). apply elem_of_map_to_list in H. by eexists.
  - intros [x H]. exists (i, x). by rewrite elem_of_map_to_list.
Qed.
Lemma NoDup_security_ids {A} (m : gmap string A) : NoDup (security_ids m).
Proof. unfold security_ids. rewrite sort_by_perm. apply NoDup_fst_map_to_list. Qed.

Lemma security_ids_values {A} (m : gmap string A) :
  omap (λ i, m !! i) (security_ids m) ≡ₚ (map_to_list m).*2.
Proof.
  unfold security_ids. rewrite (omap_Permutation _ _ _ (sort_by_perm _ _)).
  assert (H : ∀ p, p ∈ map_to_list m → m !! p.1 = Some p.2)
    by (intros [i x]; apply elem_of_map_to_list).
  revert H. generalize (map_to_list m). induction l as [|p l IH]; intros H; [done|]. simpl.
  rewrite (H p) by by left. simpl. f_equiv. apply IH. intros q Hq. apply H. by right.
Qed.

Lemma imap_dict_keys {A} (f : nat → A) (ids : list string) :
  (imap (λ k sid, (sid, f k)) ids).*1 = ids.
Proof.
  revert f. induction ids as [|i ids IH]; intros f; [done|]. simpl. f_equal. apply (IH (f ∘ S)).
Qed.
Lemma imap_dict_lookup {A} (f : nat → A) (ids : list string) i k :
  NoDup ids → ids !! k = Some i →
  (list_to_map (imap (λ k sid, (sid, f k)) ids) : gmap string A) !! i = Some (f k).
Proof.
  intros Hnd Hk. apply elem_of_list_to_map_1; [by rewrite imap_dict_keys|].
  apply (list_elem_of_lookup_2 _ k). by rewrite list_lookup_imap, Hk.
Qed.
Lemma imap_dict_None {A} (f : nat → A) (ids : list string) i :
  i ∉ ids → (list_to_map (imap (λ k sid, (sid, f k)) ids) : gmap string A) !! i = None.
Proof. intros Hi. apply not_elem_of_list_to_map_1. by rewrite imap_dict_keys. Qed.
Lemma score_of_ext p q : (∀ n, p n = q n) → score_of p = score_of q.
Proof. intros H. unfold score_of. by rewrite !H. Qed.

Lemma category_scores_value m :
  ∃ sc, category_scores m = Ok sc ∧ ∀ i, sc !! i = security_scores m <$> m !! i.
Proof.
  unfold category_scores. destruct (security_ids m) as [|i0 ids] eqn:Hids.
  { exists ∅. split; [done|]. intros i. rewrite lookup_empty.
    destruct (m !! i) as [r|] eqn:Hi; [|done].
    assert (i ∈ security_ids m) as H by (apply elem_of_security_ids; by eexists).
    rewrite Hids in H. by apply elem_of_nil in H. }
  rewrite <-Hids. set (raws := omap _ _).
  assert (Hraws : raws ≡ₚ cross_section m) by apply security_ids_values.
  assert (Hne : raws ≠ []).
  { intros Hr. assert (i0 ∈ security_ids m) as H by (rewrite Hids; by left).
    apply elem_of_security_ids in H as [r Hr0]. rewrite Hr in Hraws.
    apply Permutation_nil_l in Hraws. unfold cross_section in Hraws.
    apply elem_of_map_to_list in Hr0. apply (list_elem_of_fmap_2 snd) in Hr0.
    rewrite <-Hraws in Hr0. by apply elem_of_nil in Hr0. }
  rewrite (mapM_Ok_fmap _ (λ n, rank_score (column n raws) <$> column n raws)).
  2: { intros n _. apply percentile_rank_score. unfold column. by destruct raws. }
  eexists. split; [reflexivity|]. intros i. destruct (m !! i) as [r|] eqn:Hi.
  - assert (i ∈ security_ids m) as [k Hk]%list_elem_of_lookup_1
      by (apply elem_of_security_ids; by eexists).
    rewrite (imap_dict_lookup _ _ _ k (NoDup_security_ids m) Hk).
    change (security_scores m <$> Some r) with (Some (security_scores m r)). f_equal.
    apply score_of_ext. intros n. rewrite assoc_get_names. simpl. unfold column at 2.
    rewrite !list_lookup_fmap. unfold raws at 2. rewrite omap_total_lookup, Hk.
    + simpl. rewrite Hi. simpl. apply rank_score_perm. by apply fmap_Permutation.
    + intros j Hj. by apply elem_of_security_ids.
  - apply imap_dict_None. rewrite elem_of_security_ids, Hi. by intros [].
Qed.

(** One security is at least as good as another on every subfactor: no less of
    the returns and yields, no more of the two risks. *)
Definition dominates (r r' : RawFactors) : Prop :=
  ∀ n, if negated n then dq (r n) <= dq (r' n) else dq (r' n) <= dq (r n).

(** Scoring a cross-section succeeds; every security of it, and no other, gets
    its scores, computed from its counted midranks in the whole cross-section
    whatever the order of the securities; the four categories and the composite
    lie in [0, 1]; and a security that dominates another on the raw subfactors
    scores at least as high in every category and in the composite. *)
Theorem category_scores_sound m :
  (Z.of_nat (size m) ≤ 10 ^ 27)%Z →
  ∃ sc, category_scores m = Ok sc ∧ dom sc = dom m ∧
    (∀ i r, m !! i = Some r → sc !! i = Some (security_scores m r)) ∧
    (∀ i s, sc !! i = Some s → scores_unit s) ∧
    (∀ i i' r r' s s', m !! i = Some r → m !! i' = Some r' → dominates r r' →
       sc !! i = Some s → sc !! i' = Some s' → scores_le s' s).
Proof.
  intros Hsize. destruct (category_scores_value m) as (sc & Hsc & Hval).
  assert (Hlen : ∀ n, length (column n (cross_section m)) = size m).
  { intros n. unfold column, cross_section. rewrite !length_fmap. apply length_map_to_list. }
  assert (Hin : ∀ i r n, m !! i = Some r → ranked n r ∈ column n (cross_section m)).
  { intros i r n Hi. apply (list_elem_of_fmap_2 (ranked n)). apply (list_elem_of_fmap_2 snd _ (i, r)).
    by apply elem_of_map_to_list. }
  exists sc. split; [done|]. split.
  { apply set_eq. intros i. by rewrite !elem_of_dom, Hval, fmap_is_Some. }
  split; [intros i r Hi; by rewrite Hval, Hi|]. split.
  - intros i s Hs. rewrite Hval in Hs. destruct (m !! i) as [r|] eqn:Hi; [|done]. simplify_eq/=.
    apply score_of_unit. intros n. apply rank_score_unit; [by rewrite Hlen|by eapply Hin].
  - intros i i' r r' s s' Hi Hi' Hd Hs Hs'. rewrite Hval, Hi in Hs. rewrite Hval, Hi' in Hs'.
    simplify_eq/=. apply score_of_mono. intros n. apply rank_score_mono.
    + pose proof (Hin i r n Hi) as H. intros H0. apply length_zero_iff_nil in H0. rewrite H0 in H.
      by apply elem_of_nil in H.
    + specialize (Hd n). unfold ranked. destruct (negated n); [by apply d_neg_anti|done].
Qed.

Definition demo_raws : gmap string RawFactors :=
  list_to_map [("sec-00001", λ n, if negated n then dec_of_Z 1 else dec_of_Z 5);
               ("sec-00002", λ n, if negated n then dec_of_Z 2 else dec_of_Z 4)].

Lemma category_scores_sound_witness :
  (Z.of_nat (size demo_raws) ≤ 10 ^ 27)%Z ∧
  ∃ sc, category_scores demo_raws = Ok sc ∧ dom sc = dom demo_raws.
Proof.
  assert (H : (Z.of_nat (size demo_raws) ≤ 10 ^ 27)%Z) by (vm_compute; discriminate).
  split; [exact H|]. destruct (category_scores_sound demo_raws H) as (sc & H1 & H2 & _).
  exact (ex_intro _ sc (conj H1 H2)).
Defined.

(** ** The maximum drawdown *)

(** The fall from [a] to [b], as a share of [a]. *)
Definition fall (a b : Decimal) : Decimal := d_sub d_one (d_div b a).

Lemma fall_mono a a' b : 0 < dq a → 0 <= dq b → dq a <= dq a' → dq (fall a b) <= dq (fall a' b).
Proof. intros Ha Hb Hle. apply d_sub_mono; [lra|]. by apply d_div_anti. Qed.
Lemma fall_self a : 0 < dq a → dq (fall a a) == 0.
Proof.
  intros Ha. assert (H1 : dq (d_div a a) == 1).
  { assert (Hd : dq a / dq a == 1) by (field; lra).
    pose proof (d_div_rounds a a ltac:(lra)) as H. rewrite Hd in H. apply rounds_eq; [done|exact fits_1]. }
  pose proof (d_sub_rounds d_one (d_div a a)) as H. rewrite H1, dq_one in H.
  assert (H0 : 1 - 1 == 0) by lra. rewrite H0 in H. apply rounds_eq; [done|exact fits_0].
Qed.

(** [m] is the deepest fall between a session and a later one (or itself). *)
Definition falls_below (m : Q) (l : list Decimal) : Prop :=
  ∀ i j a b, (i ≤ j)%nat → l !! i = Some a → l !! j = Some b → dq (fall a b) <= m.
Definition fall_attained (m : Q) (l : list Decimal) : Prop :=
  ∃ i j a b, (i ≤ j)%nat ∧ l !! i = Some a ∧ l !! j = Some b ∧ dq (fall a b) == m.

(** The loop invariant, after the sessions [pre]. *)
Record drawdown_inv (pre : list Decimal) (peak deepest : Decimal) : Prop := {
  di_positive : ∀ x, x ∈ pre → 0 < dq x;
  di_peak : ∀ x, x ∈ pre → dq x <= dq peak;
  di_peak_in : pre = [] ∧ dq peak == 0 ∧ dq deepest == 0 ∨
               peak ∈ pre ∧ fall_attained (dq deepest) pre;
  di_deepest : 0 <= dq deepest;
  di_falls : falls_below (dq deepest) pre;
}.

Lemma drawdown_step pre peak deepest c :
  drawdown_inv pre peak deepest → 0 < dq c →
  let peak' := if dec_ltb peak c then c else peak in
  let d := if dec_ltb dzero peak' then d_sub d_one (d_div c peak') else dzero in
  drawdown_inv (pre ++ [c]) peak' (if dec_ltb deepest d then d else deepest).
Proof.
  intros [Hpos Hpk Hin H0 Hf] Hc. intros peak'.
  assert (Hpk' : dq peak <= dq peak' ∧ dq c <= dq peak').
  { unfold peak'. destruct (dec_ltb peak c) eqn:E; [apply dec_ltb_spec in E|apply dec_ltb_false in E];
      split; lra. }
  assert (E0 : dec_ltb dzero peak' = true) by (apply dec_ltb_spec; rewrite dq_zero; lra).
  rewrite E0. fold (fall peak' c). intros d. set (m := if dec_ltb deepest d then d else deepest).
  assert (Hm : dq deepest <= dq m ∧ dq d <= dq m).
  { unfold m. destruct (dec_ltb deepest d) eqn:E; [apply dec_ltb_spec in E|apply dec_ltb_false in E];
      split; lra. }
  assert (Hlast : ∀ x, x ∈ pre ++ [c] → 0 < dq x ∧ dq x <= dq peak').
  { intros x [Hx|Hx%list_elem_of_singleton]%elem_of_app; [|subst; lra].
    specialize (Hpos x Hx). specialize (Hpk x Hx). lra. }
  assert (Hp' : peak' ∈ pre ++ [c]).
  { apply elem_of_app. unfold peak'. destruct (dec_ltb peak c) eqn:E; [right; by left|].
    apply dec_ltb_false in E. destruct Hin as [(_ & Hz & _)|[Hin _]]; [lra|by left]. }
  assert (Hlen : (pre ++ [c]) !! length pre = Some c) by (by rewrite lookup_app_r, Nat.sub_diag).
  split; [by apply Hlast|by apply Hlast| |lra|].
  - right. split; [done|]. unfold m. destruct (dec_ltb deepest d) eqn:E.
    + apply list_elem_of_lookup_1 in Hp' as [i Hi]. exists i, (length pre), peak', c.
      split; [|split; [done|split; [done|reflexivity]]].
      apply lookup_lt_Some in Hi. rewrite length_app in Hi. simpl in Hi. lia.
    + destruct Hin as [(-> & Hz & Hd)|[_ (i & j & a & b & Hij & Hi & Hj & Hab)]].
      * exists 0%nat, 0%nat, c, c. rewrite (fall_self c Hc). split_and!; try done; lra.
      * exists i, j, a, b. split_and!; try done; by apply lookup_app_l_Some.
  - intros i j a b Hij Hi Hj. destruct (decide (j = length pre)) as [->|Hne].
    + rewrite Hlen in Hj. simplify_eq. apply list_elem_of_lookup_2, Hlast in Hi as [Ha Ha'].
      pose proof (fall_mono a peak' b Ha ltac:(lra) Ha'). unfold d in *. lra.
    + assert (j < length pre)%nat.
      { apply lookup_lt_Some in Hj. rewrite length_app in Hj. simpl in Hj. lia. }
      rewrite lookup_app_l in Hi, Hj by lia. pose proof (Hf i j a b Hij Hi Hj). lra.
Qed.

Lemma drawdown_loop_spec l pre peak deepest :
  drawdown_inv pre peak deepest →
  match drawdown_loop peak deepest l with
  | Some m => ∃ peak', drawdown_inv (pre ++ l) peak' m
  | None => ∃ c, c ∈ l ∧ dq c <= 0
  end.
Proof.
  revert pre peak deepest. induction l as [|c l IH]; intros pre peak deepest Hinv; simpl.
  { rewrite app_nil_r. by exists peak. }
  destruct (dec_leb c dzero) eqn:Hc.
  { apply dec_leb_spec in Hc. rewrite dq_zero in Hc. exists c. split; [by left|done]. }
  apply dec_leb_false in Hc. rewrite dq_zero in Hc.
  pose proof (drawdown_step pre peak deepest c Hinv Hc) as Hstep. cbv zeta in Hstep.
  specialize (IH _ _ _ Hstep). destruct (drawdown_loop _ _ l) as [m|].
  - rewrite <-app_assoc in IH. exact IH.
  - destruct IH as (x & Hx & Hx0). exists x. split; [by right|done].
Qed.

Definition recent_closes (closes : list SessionClose) : list Decimal :=
  sc_close <$> last_n 252 closes.

(** The maximum drawdown of the last 252 closes is in [0, 1) and is the deepest
    fall between any close and a later one: no pair falls further and some pair
    falls by exactly as much.  There is no result only when the history is
    shorter, a close is not positive, or a fall rounds to a total loss. *)
Theorem max_drawdown_is_deepest closes :
  match max_drawdown252 closes with
  | Some m => (252 ≤ length closes)%nat ∧ 0 <= dq m ∧ dq m < 1 ∧
      falls_below (dq m) (recent_closes closes) ∧ fall_attained (dq m) (recent_closes closes)
  | None => (length closes < 252)%nat ∨ (∃ c, c ∈ recent_closes closes ∧ dq c <= 0) ∨
      ∃ m, 1 <= m ∧ fall_attained m (recent_closes closes)
  end.
Proof.
  unfold max_drawdown252. destruct (Nat.ltb_spec (length closes) 252) as [Hlt|Hge]; [by left|].
  fold (recent_closes closes).
  assert (Hinit : drawdown_inv [] dzero dzero).
  { split; try (intros x Hx; by apply elem_of_nil in Hx); [|rewrite dq_zero; lra|].
    - left. by rewrite dq_zero.
    - intros i j a b _ Hi. by rewrite lookup_nil in Hi. }
  pose proof (drawdown_loop_spec (recent_closes closes) [] dzero dzero Hinit) as H.
  destruct (drawdown_loop _ _ _) as [m|]; simpl; [|right; by left].
  destruct H as [peak [_ _ Hin H0 Hf]]. simpl in *.
  assert (Hatt : fall_attained (dq m) (recent_closes closes)).
  { destruct Hin as [[Hnil _]|[_ ?]]; [|done]. exfalso.
    apply (f_equal length) in Hnil. unfold recent_closes in Hnil.
    rewrite length_fmap, last_n_length in Hnil; done. }
  destruct (dec_leb d_one m) eqn:E.
  - apply dec_leb_spec in E. rewrite dq_one in E. right. right. by exists (dq m).
  - apply dec_leb_false in E. rewrite dq_one in E. done.
Qed.
