(* ===== verification/FactorFacts.v ===== *)
(** * Properties of the factor inputs

    Trailing-twelve-month fundamentals are totals over four consecutive fiscal quarters
    of one issuer, visible at the knowledge cutoff, the latest such quarters that the facts
    offer without dispute; nothing that becomes available later changes them. *)

From S2P Require Import Prelude Errors Dicts Orders Decimals Calendar Sources Factors.
From Stdlib Require Import QArith Lqa.
Local Open Scope Z_scope.

(** ** Dicts *)

Lemma assoc_get_elem {K A} `{EqDecision K} (k : K) (d : list (K * A)) x :
  assoc_get k d = Some x → (k, x) ∈ d.
Proof.
  unfold assoc_get. induction d as [|[k0 x0] d IH]; simpl; [done|].
  case_bool_decide as Hk; simpl; [intros ?; simplify_eq; by left|]. intros H. right. auto.
Qed.

Lemma assoc_get_None {K A} `{EqDecision K} (k : K) (d : list (K * A)) :
  assoc_get k d = None ↔ k ∉ d.*1.
Proof.
  unfold assoc_get. induction d as [|[k0 x0] d IH]; simpl; [split; [by intros _ ?%elem_of_nil|done]|].
  rewrite not_elem_of_cons. case_bool_decide as Hk; simpl in *; [naive_solver|]. rewrite IH. naive_solver.
Qed.
Lemma assoc_get_zip {K A} `{EqDecision K} (k : K) x ks (l : list A) :
  NoDup ks → (k, x) ∈ zip ks l → assoc_get k (zip ks l) = Some x.
Proof.
  intros Hn. revert l. induction Hn as [|k0 ks Hk0 _ IH]; intros [|y l]; simpl; try (by intros ?%elem_of_nil).
  unfold assoc_get. simpl. intros [[= -> ->]|Hin]%elem_of_cons; [by rewrite bool_decide_true|].
  rewrite bool_decide_false; [by apply IH|]. intros ->. apply Hk0. by apply elem_of_zip_l in Hin.
Qed.

(** A dict is made exactly when the keys are there and distinct; then it pairs them. *)
Lemma index_by_iff {K A} `{EqDecision K} (label : A → option K) d0 l d :
  index_by label d0 l = Some d ↔ ∃ ks, label <$> l = Some <$> ks ∧ NoDup ks ∧ (∀ k, k ∈ ks → k ∉ d0.*1) ∧
    d = d0 ++ zip ks l.
Proof.
  revert d0. induction l as [|x l IH]; intros d0; simpl.
  { split; [intros [= <-]; exists []; split_and!; [done|constructor|by intros ? ?%elem_of_nil|by rewrite app_nil_r]|].
    intros ([|k ks] & Hks & _ & _ & ->); [by rewrite app_nil_r|done]. }
  destruct (label x) as [k|] eqn:Hx; [|split; [done|by intros ([|? ?] & ? & _)]].
  destruct (assoc_get k d0) as [y|] eqn:Hk.
  { split; [done|]. intros ([|k' ks] & Hks & _ & Hd & _); simplify_eq/=. exfalso.
    apply (Hd k'); [by left|]. apply assoc_get_elem in Hk. by apply (list_elem_of_fmap_2 fst) in Hk. }
  apply assoc_get_None in Hk. rewrite IH. split.
  - intros (ks & Hks & Hn & Hd & ->). exists (k :: ks).
    split_and!; [simpl; f_equal; exact Hks| | |by rewrite <-app_assoc].
    + constructor; [|done]. intros Hin. apply (Hd k Hin). rewrite fmap_app. apply elem_of_app. right. by left.
    + intros k' [->|Hin]%elem_of_cons; [done|]. intros Hd'. apply (Hd k' Hin). rewrite fmap_app.
      apply elem_of_app. by left.
  - intros ([|k' ks] & Hks & Hn & Hd & ->); simplify_eq/=. apply NoDup_cons in Hn as [Hk' Hn]. exists ks.
    rewrite <-app_assoc. split_and!; [done..| |done]. intros k Hin. rewrite fmap_app, not_elem_of_app. split.
    + apply Hd. by right.
    + simpl. intros ->%list_elem_of_singleton. done.
Qed.
Lemma index_by_nil {K A} `{EqDecision K} (label : A → option K) l d :
  index_by label [] l = Some d ↔ ∃ ks, label <$> l = Some <$> ks ∧ NoDup ks ∧ d = zip ks l.
Proof.
  rewrite index_by_iff. split; [intros (ks & ? & ? & _ & ->); by exists ks|].
  intros (ks & ? & ? & ->). exists ks. split_and!; [done..| |done]. by intros ? _ ?%elem_of_nil.
Qed.
(** What is paired with a key. *)
Lemma elem_of_zip_label {K A} (label : A → option K) ks (l : list A) k x :
  label <$> l = Some <$> ks → (k, x) ∈ zip ks l ↔ x ∈ l ∧ label x = Some k.
Proof.
  revert ks. induction l as [|y l IH]; intros [|k' ks] H; try discriminate H.
  - split; [by intros ?%elem_of_nil|by intros [?%elem_of_nil _]].
  - rewrite !fmap_cons in H. injection H as Hy Hl. cbn [zip zip_with]. rewrite !elem_of_cons, (IH ks Hl). naive_solver.
Qed.

Lemma index_by_spec {K A} `{EqDecision K} (label : A → option K) d0 l d :
  index_by label d0 l = Some d → ∀ k x, (k, x) ∈ d → (k, x) ∈ d0 ∨ x ∈ l ∧ label x = Some k.
Proof.
  intros (ks & Hks & _ & _ & ->)%index_by_iff k x [?|Hx]%elem_of_app; [by left|].
  right. by apply (elem_of_zip_label label ks).
Qed.

Lemma four_quarters_iff ks l v : NoDup ks → quarter_label <$> l = Some <$> ks →
  four_quarters (zip ks l) = Some v ↔ (∀ f, f ∈ v → f ∈ l) ∧ quarter_label <$> v = Some <$> all_quarters.
Proof.
  intros Hn Hl. unfold four_quarters. rewrite mapM_Some. split.
  - intros Hf. split.
    + intros f [i Hi]%list_elem_of_lookup_1. destruct (Forall2_lookup_r _ _ _ _ _ Hf Hi) as (q & _ & Hq).
      apply assoc_get_elem in Hq. by apply (elem_of_zip_label _ _ _ _ _ Hl) in Hq as [? _].
    + symmetry. apply list_eq_Forall2, Forall2_fmap. eapply Forall2_impl; [exact Hf|]. simpl. intros q f Hq.
      apply assoc_get_elem in Hq. by apply (elem_of_zip_label _ _ _ _ _ Hl) in Hq as [_ ->].
  - intros [Hv Hlab]. symmetry in Hlab. apply list_eq_Forall2, (Forall2_fmap_1 Some quarter_label) in Hlab.
    apply Forall2_same_length_lookup. split; [exact (Forall2_length _ _ _ Hlab)|]. intros i q f Hq Hf.
    apply assoc_get_zip; [done|]. apply (elem_of_zip_label _ _ _ _ _ Hl).
    pose proof (Forall2_lookup_lr _ _ _ _ _ _ Hlab Hq Hf) as Heq. simpl in Heq. split; [|done].
    apply Hv. by eapply list_elem_of_lookup_2.
Qed.

(** ** Runs of four quarters *)

Definition valid_fact (f : QuarterlyFact) : Prop := check_QuarterlyFact f = Ok ().

(** The fiscal quarter of a flow fact, as a number that counts quarters. *)
Definition fact_ordinal (f : QuarterlyFact) : option Z :=
  q ← quarter_label f; Some (qf_fiscal_year f * 4 + quarter_number q).

Lemma valid_single_label f q :
  valid_fact f → single_quarter f = Some q → quarter_label f = Some q.
Proof.
  unfold valid_fact, check_QuarterlyFact, quarter_label, single_quarter, guard_that, raise.
  destruct (qf_fiscal_period f) as [q'|]; [|done]. intros Hv ?. simplify_eq.
  destruct ((_ && _) : bool); [|done]. simpl in Hv.
  destruct (bool_decide (qf_fiscal_quarter f = None ∨ _)) eqn:Hb; [|done].
  apply bool_decide_eq_true in Hb. by destruct Hb as [->| ->].
Qed.

Lemma valid_label f : valid_fact f → is_Some (quarter_label f).
Proof.
  unfold valid_fact, check_QuarterlyFact, quarter_label, single_quarter, guard_that, raise.
  destruct ((_ && _) : bool); [|done]. simpl. destruct (qf_fiscal_period f) as [q|]; [by destruct (qf_fiscal_quarter f)|].
  destruct (bool_decide (is_Some (qf_fiscal_quarter f))) eqn:Hb; [|done]. simpl. intros _.
  apply bool_decide_eq_true in Hb as [q ->]. done.
Qed.
Lemma valid_ordinal f : valid_fact f → is_Some (fact_ordinal f).
Proof. intros [q Hq]%valid_label. unfold fact_ordinal. by rewrite Hq. Qed.

(** Four consecutive fiscal quarters of one lineage, their ends increasing. *)
Record quarter_run (w : list QuarterlyFact) : Prop := {
  run_consecutive : ∃ o, fact_ordinal <$> w = Some <$> seqZ o 4;
  run_lineage : ∃ lin, ∀ f, f ∈ w → lineage f = lin;
  run_ordered : StronglySorted Z.lt (qf_period_end <$> w);
}.

(** The windows that the facts [visible] offer without dispute. Either the facts of one
    fiscal year of a lineage are all of one kind, direct or year-to-date, tell each quarter
    once, and the window is that year; or the direct facts of a lineage tell each quarter
    once, and the window is four consecutive ones. *)
Inductive available_run (visible : list QuarterlyFact) (w : list QuarterlyFact) : Prop :=
  | run_of_year k ytd :
      (∀ f, f ∈ visible → year_key f = k → is_ytd (qf_fiscal_period f) = ytd) →
      NoDup (quarter_label <$> filter (λ f, year_key f = k) visible) →
      (∀ f, f ∈ w → f ∈ visible ∧ year_key f = k) →
      quarter_label <$> w = Some <$> all_quarters → StronglySorted Z.lt (qf_period_end <$> w) →
      available_run visible w
  | run_across lin o :
      NoDup (fact_ordinal <$> filter (λ f, is_ytd (qf_fiscal_period f) = false ∧ lineage f = lin) visible) →
      (∀ f, f ∈ w → f ∈ visible ∧ is_ytd (qf_fiscal_period f) = false ∧ lineage f = lin) →
      fact_ordinal <$> w = Some <$> seqZ o 4 → StronglySorted Z.lt (qf_period_end <$> w) →
      available_run visible w.

Lemma strictly_ordered_iff l : strictly_ordered l = true ↔ StronglySorted Z.lt l.
Proof.
  unfold strictly_ordered. rewrite andb_true_iff, !bool_decide_eq_true. split.
  - intros [? ?]. by apply sorted_lt.
  - intros Hs. split; [by rewrite sorted_lt_sort|by apply sorted_lt_NoDup].
Qed.
Lemma candidate_of_iff w ordered :
  w ∈ candidate_of ordered ↔ w = ordered ∧ StronglySorted Z.lt (qf_period_end <$> w).
Proof.
  unfold candidate_of. rewrite <-strictly_ordered_iff. destruct (strictly_ordered _) eqn:E.
  - rewrite list_elem_of_singleton. naive_solver.
  - split; [by intros ?%elem_of_nil|]. intros [-> ?]. congruence.
Qed.

Lemma labels_exist {A B} (f : A → option B) (l : list A) :
  (∀ x, x ∈ l → is_Some (f x)) → ∃ ks, f <$> l = Some <$> ks.
Proof.
  induction l as [|x l IH]; intros H; [by exists []|].
  destruct (H x ltac:(by left)) as [k Hk]. destruct IH as [ks Hks]; [intros y Hy; apply H; by right|].
  exists (k :: ks). by rewrite !fmap_cons, Hk, Hks.
Qed.
Lemma existsb_elem {A} (p : A → bool) l : existsb p l = true ↔ ∃ x, x ∈ l ∧ p x = true.
Proof. rewrite existsb_exists. by setoid_rewrite list_elem_of_In. Qed.
Lemma direct_label f : valid_fact f → is_ytd (qf_fiscal_period f) = false → single_quarter f = quarter_label f.
Proof.
  intros Hv Hf. unfold single_quarter at 1. destruct (qf_fiscal_period f) as [q|] eqn:Hp; [|done].
  symmetry. apply valid_single_label; [done|]. unfold single_quarter. by rewrite Hp.
Qed.

(** The candidates of a group whose facts are labelled by their quarters. *)
Lemma labelled_candidates label group w :
  (∀ f, f ∈ group → label f = quarter_label f ∧ is_Some (quarter_label f)) →
  w ∈ match index_by label [] group with
      | Some d => match four_quarters d with Some o => candidate_of o | None => [] end
      | None => []
      end ↔
  NoDup (quarter_label <$> group) ∧ (∀ f, f ∈ w → f ∈ group) ∧
  quarter_label <$> w = Some <$> all_quarters ∧ StronglySorted Z.lt (qf_period_end <$> w).
Proof.
  intros Hl. assert (Hlab : label <$> group = quarter_label <$> group).
  { apply Forall_fmap_ext_1, Forall_forall. intros f Hf. by apply Hl. }
  destruct (labels_exist quarter_label group) as [ks Hks]; [intros f Hf; by apply Hl|].
  assert (Hn : NoDup (quarter_label <$> group) ↔ NoDup ks) by (rewrite Hks; apply NoDup_fmap; apply _).
  destruct (index_by label [] group) as [d|] eqn:Hd.
  - apply index_by_nil in Hd as (ks' & Hks' & Hnd & ->). rewrite Hlab, Hks in Hks'.
    apply (inj (fmap Some)) in Hks' as <-.
    pose proof (λ o, four_quarters_iff ks group o Hnd Hks) as H4.
    destruct (four_quarters _) as [o|].
    + rewrite candidate_of_iff. destruct (proj1 (H4 o) eq_refl) as [Ho1 Ho2]. split.
      * intros [-> Hs]. split_and!; [by apply Hn|done..].
      * intros (_ & Hw1 & Hw2 & Hs). pose proof (proj2 (H4 w) (conj Hw1 Hw2)) as [= ->]. done.
    + split; [by intros ?%elem_of_nil|]. intros (_ & Hw1 & Hw2 & Hs). by pose proof (proj2 (H4 w) (conj Hw1 Hw2)).
  - split; [by intros ?%elem_of_nil|]. intros (Hnd%Hn & _).
    assert (Hsome : index_by label [] group = Some (zip ks group)); [|congruence].
    apply index_by_nil. exists ks. by rewrite Hlab.
Qed.

Lemma year_candidates_iff group cs w :
  (∀ f, f ∈ group → valid_fact f) → year_candidates group = Some cs →
  w ∈ cs ↔ ∃ ytd, (∀ f, f ∈ group → is_ytd (qf_fiscal_period f) = ytd) ∧ NoDup (quarter_label <$> group) ∧
    (∀ f, f ∈ w → f ∈ group) ∧ quarter_label <$> w = Some <$> all_quarters ∧
    StronglySorted Z.lt (qf_period_end <$> w).
Proof.
  intros Hv H. unfold year_candidates in H.
  pose proof (existsb_elem (λ f, is_ytd (qf_fiscal_period f)) group) as Hy.
  pose proof (existsb_elem (λ f, negb (is_ytd (qf_fiscal_period f))) group) as Hd.
  set (ytd := existsb _ group) in H, Hy. set (direct := existsb _ group) in H, Hd.
  assert (Hsome : ∀ f, f ∈ group → is_Some (quarter_label f)) by (intros f Hf; by apply valid_label, Hv).
  destruct ytd, direct; simpl in H.
  - destruct (mixed_group_ok group); [|done]. injection H as <-.
    split; [by intros ?%elem_of_nil|]. intros (k & Hk & _).
    destruct (proj1 Hy eq_refl) as (f & Hf & Hfk). destruct (proj1 Hd eq_refl) as (g & Hg & Hgk).
    rewrite (Hk f Hf) in Hfk. rewrite (Hk g Hg) in Hgk. by destruct k.
  - injection H as <-. assert (Hall : ∀ f, f ∈ group → is_ytd (qf_fiscal_period f) = true).
    { intros f Hf. destruct (is_ytd _) eqn:E; [done|]. assert (Hc : false = true); [|done].
      apply Hd. exists f. by rewrite E. }
    rewrite labelled_candidates; [split; [intros Hw; by exists true|by intros (k & _ & Hw)]|]. intros f Hf. split; [|by apply Hsome].
    specialize (Hall f Hf). specialize (Hsome f Hf). unfold quarter_label, single_quarter in *.
    destruct (qf_fiscal_quarter f); [done|]. by destruct (qf_fiscal_period f), Hsome.
  - injection H as <-. assert (Hall : ∀ f, f ∈ group → is_ytd (qf_fiscal_period f) = false).
    { intros f Hf. destruct (is_ytd _) eqn:E; [|done]. assert (Hc : false = true); [|done].
      apply Hy. by exists f. }
    rewrite labelled_candidates; [split; [intros Hw; by exists false|by intros (k & _ & Hw)]|]. intros f Hf. split; [|by apply Hsome].
    apply direct_label; auto.
  - injection H as <-. assert (Hnil : group = []).
    { destruct group as [|f l]; [done|]. exfalso. assert (Hf : f ∈ f :: l) by by left.
      assert (Hc : false = true); [|done].
      destruct (is_ytd (qf_fiscal_period f)) eqn:E; [apply Hy|apply Hd]; exists f; by rewrite E. }
    rewrite labelled_candidates; [split; [intros Hw; exists true; split; [|done]|by intros (k & _ & Hw)]|];
      [by subst group; intros f ?%elem_of_nil|]. subst group. by intros f ?%elem_of_nil.
Qed.

(** ** Windows of direct quarters *)

Lemma window_ok_run w :
  window_ok w = true → ∃ o, (λ p, ordinal p.1) <$> w = seqZ o 4.
Proof.
  unfold window_ok. destruct ((λ p, ordinal p.1) <$> w) as [|o os]; [done|].
  intros H%bool_decide_eq_true. by exists o.
Qed.

Lemma windows_sublist l w : w ∈ windows l → w `sublist_of` l ∧ length w = 4%nat.
Proof.
  induction l as [|x l IH]; cbn [windows]; [by intros ?%elem_of_nil|].
  destruct (Nat.leb_spec 4 (length (x :: l))) as [H4|H4]; [|by intros ?%elem_of_nil].
  intros [->|Hw]%elem_of_cons.
  - split; [apply sublist_take|]. rewrite length_take. lia.
  - destruct (IH Hw) as [Hs Hl]. split; [by apply sublist_cons|done].
Qed.

Section runs.
Context {A : Type} (f : A → Z).
Notation ascending := (StronglySorted (λ a b, f a < f b)).

(** The least value of an ascending list is at its head. *)
Lemma ascending_head l x n : ascending l → (∀ y, y ∈ l → n ≤ f y) → x ∈ l → f x = n →
  ∃ l', l = x :: l' ∧ ascending l' ∧ ∀ y, y ∈ l' → n + 1 ≤ f y.
Proof.
  intros Hs Hn Hx Hf. destruct l as [|y l]; [by apply elem_of_nil in Hx|].
  apply StronglySorted_inv in Hs as [Hs Hy]. rewrite Forall_forall in Hy.
  apply elem_of_cons in Hx as [->|Hx].
  - exists l. split_and!; [done..|]. intros z Hz. specialize (Hy z Hz). lia.
  - specialize (Hy x Hx). specialize (Hn y ltac:(by left)). lia.
Qed.
Lemma ascending_prefix n w : ∀ l m, ascending l → (∀ y, y ∈ l → m ≤ f y) →
  (∀ x, x ∈ w → x ∈ l) → f <$> w = seqZ m n → ∃ l', l = w ++ l'.
Proof.
  revert n. induction w as [|x w IH]; intros n l m Hs Hn Hw Hf; [by exists l|].
  assert (Hpos : 0 < n).
  { destruct (Z.lt_ge_cases 0 n) as [?|?]; [done|]. by rewrite seqZ_nil in Hf. }
  rewrite (seqZ_cons m n) in Hf by done. rewrite fmap_cons in Hf. injection Hf as Hx Hf.
  destruct (ascending_head l x m Hs Hn) as (l' & -> & Hs' & Hn'); [apply Hw; by left|done|].
  destruct (IH (Z.pred n) l' (Z.succ m)) as [l'' ->]; [done|intros y Hy; specialize (Hn' y Hy); lia| |done|by exists l''].
  intros y Hy. assert (Hin : f x < f y).
  { apply (list_elem_of_fmap_2 f) in Hy. rewrite Hf in Hy. apply elem_of_seqZ in Hy. lia. }
  assert (Hy' : y ∈ x :: l') by (apply Hw; by right).
  apply elem_of_cons in Hy' as [->|?]; [lia|done].
Qed.
End runs.

Notation by_ordinal := (StronglySorted (λ a b : (Z * Z) * QuarterlyFact, ordinal a.1 < ordinal b.1)).
Lemma windows_ascending l w o : by_ordinal l → (∀ x, x ∈ w → x ∈ l) →
  (λ p, ordinal p.1) <$> w = seqZ o 4 → w ∈ windows l.
Proof.
  induction l as [|x l IH]; intros Hs Hw Ho.
  { destruct w as [|p w]; [done|]. exfalso. by apply (not_elem_of_nil p), Hw; left. }
  destruct (decide (ordinal x.1 = o)) as [Hx|Hx]; cbn [windows].
  - destruct (ascending_prefix (λ p : (Z * Z) * QuarterlyFact, ordinal p.1) 4 w (x :: l) o Hs) as [l' Hl]; [|done..|].
    { apply StronglySorted_inv in Hs as [_ Hl]. rewrite Forall_forall in Hl.
      intros y [->|Hy]%elem_of_cons; [lia|]. specialize (Hl y Hy). simpl in Hl. lia. }
    assert (H4 : length w = 4%nat) by (rewrite <-(length_fmap (λ p, ordinal p.1)), Ho; apply length_seqZ).
    rewrite Hl. rewrite (proj2 (Nat.leb_le _ _)) by (rewrite length_app; lia). apply elem_of_cons. left.
    by rewrite take_app_length' by done.
  - apply StronglySorted_inv in Hs as [Hs Hl]. rewrite Forall_forall in Hl.
    assert (Hin : w ∈ windows l).
    { apply IH; [done| |done]. rewrite seqZ_cons in Ho by lia. destruct w as [|p w]; [done|].
      rewrite fmap_cons in Ho. injection Ho as Hp Ho.
      assert (Hpl : p ∈ l).
      { assert (Hp' : p ∈ x :: l) by (apply Hw; by left). apply elem_of_cons in Hp' as [->|?]; [lia|done]. }
      intros y [->|Hy]%elem_of_cons; [done|]. assert (Hy' : y ∈ x :: l) by (apply Hw; by right).
      apply elem_of_cons in Hy' as [->|?]; [|done]. apply (list_elem_of_fmap_2 (λ p, ordinal p.1)) in Hy.
      rewrite Ho in Hy. apply elem_of_seqZ in Hy. specialize (Hl p Hpl). lia. }
    apply windows_sublist in Hin as Hlen. destruct Hlen as [Hsub%sublist_length H4].
    rewrite (proj2 (Nat.leb_le _ _)) by (simpl; lia). by right.
Qed.

(** The key of a direct fact counts its quarter. *)
Lemma direct_key f : valid_fact f → is_ytd (qf_fiscal_period f) = false →
  ∃ k, fiscal_key f = Some k ∧ fact_ordinal f = Some (ordinal k) ∧ 1 ≤ k.2 ≤ 4.
Proof.
  intros Hv Hf. unfold fiscal_key, fact_ordinal. rewrite <-(direct_label f Hv Hf).
  unfold single_quarter. destruct (qf_fiscal_period f) as [q|]; [|done].
  exists (qf_fiscal_year f, quarter_number q). by destruct q.
Qed.
Lemma ordinal_inj k k' : 1 ≤ k.2 ≤ 4 → 1 ≤ k'.2 ≤ 4 → ordinal k = ordinal k' → k = k'.
Proof. unfold ordinal. destruct k as [y q], k' as [y' q']. simpl. intros. f_equal; lia. Qed.
Lemma sorted_keys l : StronglySorted (λ a b, key_leb a b = true) l → NoDup l.*1 →
  (∀ p, p ∈ l → 1 ≤ p.1.2 ≤ 4) → by_ordinal l.
Proof.
  induction 1 as [|p l _ IH Hp]; intros Hn Hk; [constructor|]. rewrite fmap_cons in Hn.
  apply NoDup_cons in Hn as [Hpn Hn]. constructor; [apply IH; [done|intros q Hq; apply Hk; by right]|].
  rewrite Forall_forall in Hp |- *. intros q Hq. specialize (Hp q Hq). unfold key_leb in Hp.
  pose proof (Hk p ltac:(by left)). pose proof (Hk q ltac:(by right)).
  assert (Hne : p.1 ≠ q.1) by (intros Heq; apply Hpn; rewrite Heq; by apply (list_elem_of_fmap_2 fst)).
  assert (Hno : ordinal p.1 ≠ ordinal q.1) by (intros Heq; by apply Hne, ordinal_inj).
  unfold ordinal in *. lia.
Qed.

Section context.
Context (group : list QuarterlyFact).
Context (Hdirect : ∀ f, f ∈ group → valid_fact f ∧ is_ytd (qf_fiscal_period f) = false).

Lemma group_key f k : f ∈ group → fiscal_key f = Some k → fact_ordinal f = Some (ordinal k) ∧ 1 ≤ k.2 ≤ 4.
Proof using Hdirect.
  intros [Hv Hd]%Hdirect Hk. destruct (direct_key f Hv Hd) as (k' & Hk' & ? & ?). by simplify_eq.
Qed.
(** The keys of facts of the group, and their ordinals. *)
Lemma group_keys (w : list QuarterlyFact) : (∀ f, f ∈ w → f ∈ group) →
  ∃ ks : list (Z * Z), fiscal_key <$> w = Some <$> ks ∧ fact_ordinal <$> w = Some <$> (ordinal <$> ks) ∧ ∀ k, k ∈ ks → 1 ≤ k.2 ≤ 4.
Proof using Hdirect.
  induction w as [|f w IH]; intros Hw; [exists []; split_and!; [done..|by intros ? ?%elem_of_nil]|].
  destruct IH as (ks & Hk & Ho & Hg); [intros g Hg; apply Hw; by right|].
  destruct (Hdirect f) as [Hv Hd]; [apply Hw; by left|]. destruct (direct_key f Hv Hd) as (k & Hk1 & Hk2 & Hk3).
  exists (k :: ks). rewrite !fmap_cons, Hk1, Hk2, Hk, Ho. split_and!; [done..|].
  intros k' [->|?]%elem_of_cons; auto.
Qed.
Lemma group_distinct ks : fiscal_key <$> group = Some <$> ks → NoDup (fact_ordinal <$> group) ↔ NoDup ks.
Proof using Hdirect.
  intros Hks. destruct (group_keys group) as (ks' & Hk & Ho & Hg); [done|].
  rewrite Hks in Hk. apply (inj (fmap Some)) in Hk as <-. rewrite Ho. split.
  - intros Hn. by eapply NoDup_fmap_1, NoDup_fmap_1.
  - intros Hn. apply NoDup_fmap; [apply _|]. apply (NoDup_fmap_2_strong ordinal); [|done].
    intros k k' Hk Hk'. by apply ordinal_inj; apply Hg.
Qed.

Lemma context_candidates_iff w :
  w ∈ context_candidates group ↔
  NoDup (fact_ordinal <$> group) ∧ (∀ f, f ∈ w → f ∈ group) ∧ (∃ o, fact_ordinal <$> w = Some <$> seqZ o 4) ∧
  StronglySorted Z.lt (qf_period_end <$> w).
Proof using Hdirect.
  unfold context_candidates. destruct (group_keys group) as (ks & Hks & _ & Hgood); [done|].
  rewrite (group_distinct ks Hks). destruct (index_by fiscal_key [] group) as [d|] eqn:Hd.
  2: { split; [by intros ?%elem_of_nil|]. intros [Hn _].
       assert (Hs : index_by fiscal_key [] group = Some (zip ks group)) by (apply index_by_nil; by exists ks). congruence. }
  apply index_by_nil in Hd as (ks' & Hks' & Hn & ->). rewrite Hks in Hks'. apply (inj (fmap Some)) in Hks' as <-.
  set (sorted := sort_by key_leb (zip ks group)).
  assert (Hin : ∀ p, p ∈ sorted ↔ p.2 ∈ group ∧ fiscal_key p.2 = Some p.1).
  { intros [k f]. unfold sorted. rewrite elem_of_sort_by. by apply elem_of_zip_label. }
  rewrite list_elem_of_In, in_concat. split.
  - intros (ws & Hws%list_elem_of_In & Hw%list_elem_of_In). apply list_elem_of_fmap in Hws as (win & -> & Hwin).
    destruct (window_ok win) eqn:Hok; [|by apply elem_of_nil in Hw].
    apply candidate_of_iff in Hw as [-> Hs]. apply window_ok_run in Hok as [o Ho].
    apply windows_sublist in Hwin as [Hwin _].
    assert (Hall : ∀ p, p ∈ win → p.2 ∈ group ∧ fiscal_key p.2 = Some p.1)
      by (intros p Hp; apply Hin; by eapply sublist_elem).
    split_and!; [done| | |done].
    + intros f (p & -> & Hp)%list_elem_of_fmap. by apply Hall.
    + exists o. rewrite <-Ho, <-!list_fmap_compose. apply Forall_fmap_ext_1, Forall_forall.
      intros p Hp. destruct (Hall p Hp) as [Hg Hk]. by apply group_key.
  - intros (_ & Hw & [o Ho] & Hs). destruct (group_keys w Hw) as (kw & Hkw & How & _).
    rewrite Ho in How. apply (inj (fmap Some)) in How. exists [w].
    assert (Hlen : length kw = length w) by (by rewrite <-(length_fmap Some), <-Hkw, length_fmap).
    rewrite <-!list_elem_of_In. split; [|by apply list_elem_of_singleton].
    apply list_elem_of_fmap. exists (zip kw w).
    assert (Hfst : (λ p : (Z * Z) * QuarterlyFact, ordinal p.1) <$> zip kw w = seqZ o 4).
    { trans (ordinal <$> (zip kw w).*1); [by rewrite <-list_fmap_compose|]. by rewrite fst_zip by lia. }
    split.
    + assert (Hok : window_ok (zip kw w) = true).
      { unfold window_ok. rewrite Hfst, (seqZ_cons o 4) by lia. apply bool_decide_eq_true. by rewrite (seqZ_cons o 4) by lia. }
      rewrite Hok, snd_zip by lia. unfold candidate_of. by rewrite (proj2 (strictly_ordered_iff _) Hs).
    + apply (windows_ascending _ _ o); [|intros [k f] Hp|done].
      * apply sorted_keys.
        -- apply sort_by_sorted; intros; unfold key_leb in *; lia.
        -- unfold sorted. rewrite sort_by_perm, fst_zip; [done|].
           apply (f_equal length) in Hks. rewrite !length_fmap in Hks. lia.
        -- intros [k f] [Hf Hk]%Hin. exact (proj2 (group_key f k Hf Hk)).
      * apply Hin. apply (elem_of_zip_label _ _ _ _ _ Hkw) in Hp as [Hf Hk]. split; [by apply Hw|done].
Qed.
End context.

Lemma concat_elem {A} (ls : list (list A)) x : x ∈ concat ls → ∃ l, l ∈ ls ∧ x ∈ l.
Proof.
  intros (l & Hl & Hx)%list_elem_of_In%in_concat. exists l. by rewrite !list_elem_of_In.
Qed.
Lemma mapM_elem {A B} (f : A → option B) l k y :
  mapM f l = Some k → y ∈ k → ∃ x, x ∈ l ∧ f x = Some y.
Proof.
  intros Hk%mapM_Some [i Hy]%list_elem_of_lookup_1.
  destruct (Forall2_lookup_r _ _ _ _ _ Hk Hy) as (x & Hx & Hf). exists x.
  split; [by eapply list_elem_of_lookup_2|done].
Qed.

(** The facts that a computation at [cutoff] may see. *)
Definition seen (cutoff known : Z) (facts : list QuarterlyFact) : list QuarterlyFact :=
  filter (λ f, visible_fact cutoff known f = true) facts.

Lemma fact_by_concept_seen facts c cutoff known :
  fact_by_concept facts c cutoff known = filter (λ f, qf_concept f = c) (seen cutoff known facts).
Proof. unfold fact_by_concept, seen. by rewrite list_filter_filter. Qed.

Lemma elem_of_fact_by_concept facts c cutoff known f :
  f ∈ fact_by_concept facts c cutoff known ↔
  f ∈ facts ∧ qf_concept f = c ∧ visible_fact cutoff known f = true.
Proof. unfold fact_by_concept. rewrite list_elem_of_filter. tauto. Qed.

Lemma mapM_image {A B} (f : A → option B) l k x :
  mapM f l = Some k → x ∈ l → ∃ y, y ∈ k ∧ f x = Some y.
Proof.
  intros Hk%mapM_Some [i Hi]%list_elem_of_lookup_1.
  destruct (Forall2_lookup_l _ _ _ _ _ Hk Hi) as (y & Hy & Hf). exists y.
  split; [by eapply list_elem_of_lookup_2|done].
Qed.
Lemma elem_of_concat {A} (ls : list (list A)) l x : l ∈ ls → x ∈ l → x ∈ concat ls.
Proof. rewrite !list_elem_of_In. intros Hl Hx. apply in_concat. by exists l. Qed.

Lemma fact_eqb_refl f : fact_eqb f f = true.
Proof.
  unfold fact_eqb. rewrite !bool_decide_true by done. by rewrite (proj2 (dec_eqb_spec _ _)).
Qed.
Lemma facts_eqb_refl w : facts_eqb w w = true.
Proof. induction w as [|f w IH]; [done|]. simpl. by rewrite fact_eqb_refl. Qed.
Lemma facts_eqb_Forall2 v w : facts_eqb v w = true → Forall2 (λ f g, fact_eqb f g = true) v w.
Proof.
  revert w. induction v as [|f v IH]; intros [|g w]; simpl; try done.
  intros [? ?]%andb_true_iff. constructor; auto.
Qed.
Lemma foldl_latest ws m : m ≤ foldl (λ m v, Z.max m (last_end v)) m ws ∧
  ∀ v, v ∈ ws → last_end v ≤ foldl (λ m v, Z.max m (last_end v)) m ws.
Proof.
  revert m. induction ws as [|w ws IH]; intros m; simpl; [split; [done|by intros ? ?%elem_of_nil]|].
  destruct (IH (Z.max m (last_end w))) as [H1 H2]. split; [lia|].
  intros v [->|Hv]%elem_of_cons; [lia|by apply H2].
Qed.

(** Four consecutive quarters in the order of a year, or across years. *)
Lemma run_lengths visible w : available_run visible w → ∃ f, f ∈ w.
Proof.
  intros [k ytd _ _ _ Hl _|lin o _ _ Ho _]; (destruct w as [|f w]; [done|]; exists f; by left).
Qed.
Lemma available_run_quarters visible w : (∀ f, f ∈ visible → valid_fact f) → available_run visible w →
  quarter_run w ∧ ∀ f, f ∈ w → f ∈ visible.
Proof.
  intros Hv [k ytd _ _ Hw Hl Hs|lin o _ Hw Ho Hs].
  - split; [|intros f Hf; by apply Hw]. destruct k as [[[e c] l] y]. split; [| |done].
    + exists (y * 4 + 1).
      trans ((λ l : option Quarter, q ← l; Some (y * 4 + quarter_number q)) <$> (quarter_label <$> w)).
      * rewrite <-list_fmap_compose. apply Forall_fmap_ext_1, Forall_forall. intros f Hf. unfold fact_ordinal. simpl.
        destruct (Hw f Hf) as [_ Hk]. unfold year_key in Hk. by simplify_eq.
      * rewrite Hl.
        change (seqZ (y * 4 + 1) 4) with ((λ i : nat, Z.of_nat i + (y * 4 + 1)) <$> [0; 1; 2; 3]%nat).
        simpl. repeat (f_equal; try lia).
    + exists (e, c, l). intros f Hf. destruct (Hw f Hf) as [_ Hk]. unfold year_key in Hk. unfold lineage. by simplify_eq.
  - split; [|intros f Hf; by apply Hw]. split; [by exists o| |done]. exists lin. intros f Hf. by apply Hw.
Qed.

(** The trailing window: available, and none that is available ends later; another that
    ends with it holds the same facts. *)
Record trailing_run (visible w : list QuarterlyFact) : Prop := {
  tr_available : available_run visible w;
  tr_latest : ∀ v f g, available_run visible v → last v = Some f → last w = Some g →
    qf_period_end f ≤ qf_period_end g ∧
    (qf_period_end f = qf_period_end g → Forall2 (λ f g, fact_eqb f g = true) w v);
}.

Section unique.
Context (facts : list QuarterlyFact) (cutoff known : Z).
Context (Hvalid : Forall valid_fact facts).

Lemma visible_valid c f : f ∈ fact_by_concept facts c cutoff known → valid_fact f.
Proof using Hvalid. intros (Hf & _)%elem_of_fact_by_concept. rewrite Forall_forall in Hvalid. auto. Qed.

Lemma candidates_iff c years w : let vis := fact_by_concept facts c cutoff known in
  mapM year_candidates (group_by year_key vis) = Some years →
  w ∈ concat years ++ concat (context_candidates <$>
        group_by lineage (filter (λ f, is_ytd (qf_fiscal_period f) = false) vis)) ↔
  available_run vis w.
Proof using Hvalid.
  intros vis Hy. assert (Hv : ∀ f, f ∈ vis → valid_fact f) by (intros f; apply visible_valid).
  assert (Hyear : ∀ k, ∀ f, f ∈ filter (λ f, year_key f = k) vis → valid_fact f)
    by (intros k f [_ Hf]%list_elem_of_filter; by apply Hv).
  assert (Hlin : ∀ lin, filter (λ f, lineage f = lin) (filter (λ f, is_ytd (qf_fiscal_period f) = false) vis) =
    filter (λ f, is_ytd (qf_fiscal_period f) = false ∧ lineage f = lin) vis).
  { intros lin. rewrite list_filter_filter. apply list_filter_iff. tauto. }
  assert (Hdirect : ∀ lin f, f ∈ filter (λ f, is_ytd (qf_fiscal_period f) = false ∧ lineage f = lin) vis →
    valid_fact f ∧ is_ytd (qf_fiscal_period f) = false)
    by (intros lin f [[? _] Hf]%list_elem_of_filter; split; [by apply Hv|done]).
  rewrite elem_of_app. split.
  - intros [Hin|Hin]; apply concat_elem in Hin as (cs & Hcs & Hin).
    + destruct (mapM_elem _ _ _ _ Hy Hcs) as (g & Hg & Hgc). apply group_by_spec in Hg as (x & _ & ->).
      pose proof (proj1 (year_candidates_iff _ _ w (Hyear _) Hgc) Hin) as (ytd & H1 & H2 & H3 & H4 & H5).
      apply (run_of_year _ _ (year_key x) ytd); [|done| |done|done].
      * intros f Hf Hk. apply H1. by apply list_elem_of_filter.
      * intros f Hf. by apply H3, list_elem_of_filter in Hf as [? ?].
    + apply list_elem_of_fmap in Hcs as (g & -> & Hg). apply group_by_spec in Hg as (x & _ & ->).
      rewrite Hlin in Hin.
      pose proof (proj1 (context_candidates_iff _ (Hdirect _) w) Hin) as (H1 & H2 & [o H3] & H4).
      apply (run_across _ _ (lineage x) o); [done| |done|done].
      intros f Hf. by apply H2, list_elem_of_filter in Hf as [[? ?] ?].
  - intros Hrun. destruct (run_lengths _ _ Hrun) as [x Hx]. destruct Hrun as [k ytd H1 H2 H3 H4 H5|lin o H1 H2 H3 H4].
    + left. destruct (H3 x Hx) as [Hxv <-].
      assert (Hg : filter (λ f, year_key f = year_key x) vis ∈ group_by year_key vis) by (apply group_by_spec; eauto).
      destruct (mapM_image _ _ _ _ Hy Hg) as (cs & Hcs & Hgc). apply (elem_of_concat _ _ _ Hcs).
      apply (year_candidates_iff _ _ _ (Hyear _) Hgc). exists ytd. split_and!; [|done| |done|done].
      * intros f [Hk Hf]%list_elem_of_filter. by apply H1.
      * intros f Hf. apply list_elem_of_filter. by destruct (H3 f Hf).
    + right. destruct (H2 x Hx) as (Hxv & Hxd & <-). eapply elem_of_concat.
      { apply list_elem_of_fmap_2, group_by_spec. exists x. split; [|reflexivity]. by apply list_elem_of_filter. }
      rewrite Hlin. apply (context_candidates_iff _ (Hdirect _)). split_and!; [done| |by exists o|done].
      intros f Hf. apply list_elem_of_filter. destruct (H2 f Hf) as (? & ? & ?). done.
Qed.

Lemma unique_quarter_keys_trailing c w :
  unique_quarter_keys facts c cutoff known = Some w →
  trailing_run (fact_by_concept facts c cutoff known) w.
Proof using Hvalid.
  unfold unique_quarter_keys.
  destruct (mapM year_candidates _) as [years|] eqn:Hy; [|done]. simpl.
  pose proof (λ v, candidates_iff c years v Hy) as Hc. simpl in Hc.
  set (vis := fact_by_concept facts c cutoff known) in *.
  set (cands := concat years ++ _) in *. destruct cands as [|c0 cs] eqn:Hcands; [done|].
  pose proof (foldl_latest cs (last_end c0)) as [Hm0 Hm]. set (m := foldl _ _ cs) in *.
  destruct (filter _ (c0 :: cs)) as [|v vs] eqn:Hf; [done|]. destruct (forallb (facts_eqb v) vs) eqn:Hall; [|done].
  intros [= ->]. assert (Hw : w ∈ w :: vs) by by left. rewrite <-Hf in Hw.
  apply list_elem_of_filter in Hw as [Hlast Hw]. split; [by apply Hc|]. intros v f g Hv%Hc Hvf Hwg.
  assert (Hends : ∀ u x, last u = Some x → last_end u = qf_period_end x)
    by (intros u x Hu; unfold last_end; by rewrite Hu).
  rewrite <-(Hends _ _ Hvf), <-(Hends _ _ Hwg), Hlast. split.
  - apply elem_of_cons in Hv as [->|Hv]; [done|by apply Hm].
  - intros Heq. assert (Hin : v ∈ w :: vs) by (rewrite <-Hf; by apply list_elem_of_filter).
    apply facts_eqb_Forall2. apply elem_of_cons in Hin as [->|Hin]; [apply facts_eqb_refl|].
    by apply (forallb_elem _ _ v) in Hall.
Qed.

Lemma unique_quarter_keys_run c w :
  unique_quarter_keys facts c cutoff known = Some w →
  quarter_run w ∧ ∀ f, f ∈ w → f ∈ fact_by_concept facts c cutoff known.
Proof using Hvalid.
  intros [Hw _]%unique_quarter_keys_trailing. apply available_run_quarters; [apply visible_valid|done].
Qed.
End unique.

(** ** Nothing from the future *)

Lemma fact_by_concept_agree facts facts' c cutoff known :
  seen cutoff known facts = seen cutoff known facts' →
  fact_by_concept facts c cutoff known = fact_by_concept facts' c cutoff known.
Proof. intros H. by rewrite !fact_by_concept_seen, H. Qed.

Lemma unique_quarter_keys_agree facts facts' c cutoff known :
  seen cutoff known facts = seen cutoff known facts' →
  unique_quarter_keys facts c cutoff known = unique_quarter_keys facts' c cutoff known.
Proof. intros H. unfold unique_quarter_keys. by rewrite (fact_by_concept_agree _ _ c _ _ H). Qed.

Lemma assemble_flows_agree facts facts' ni cfo capex shares cutoff known :
  seen cutoff known facts = seen cutoff known facts' →
  assemble_flows facts ni cfo capex shares cutoff known =
  assemble_flows facts' ni cfo capex shares cutoff known.
Proof. intros H. unfold assemble_flows. by rewrite (fact_by_concept_agree _ _ ASSETS _ _ H). Qed.

Lemma assemble_ttm_agree facts facts' shares cutoff known_at :
  one_security facts = one_security facts' →
  seen cutoff (default cutoff known_at) facts = seen cutoff (default cutoff known_at) facts' →
  assemble_ttm facts shares cutoff known_at = assemble_ttm facts' shares cutoff known_at.
Proof.
  intros Hone H. unfold assemble_ttm, known_or_cutoff, guard_that, raise.
  destruct (dec_ltb dzero shares); [|done]. simpl.
  destruct (default cutoff known_at <=? cutoff); [|done]. simpl. rewrite Hone.
  destruct (negb _); [done|]. f_equal. rewrite !(unique_quarter_keys_agree _ _ _ _ _ H).
  destruct (unique_quarter_keys facts' NET_INCOME_LOSS _ _) as [ni|]; [|done]. simpl.
  destruct (unique_quarter_keys facts' NET_CASH_OPERATING _ _) as [cfo|]; [|done]. simpl.
  destruct (unique_quarter_keys facts' CAPEX_PPE _ _) as [capex|]; [|done]. simpl.
  by apply assemble_flows_agree.
Qed.

(** ** What the fundamentals are made of *)

Lemma Qle_of_leb_false d : dec_leb d dzero = false → (0 < dq d)%Q.
Proof. intros H. apply dec_leb_false in H. by rewrite dq_zero in H. Qed.
Lemma Qle_of_ltb_false d : dec_ltb d dzero = false → (0 <= dq d)%Q.
Proof. intros H. apply dec_ltb_false in H. by rewrite dq_zero in H. Qed.

(** The assets collected for the quarters [keys] and for the quarter before. *)
Definition assets_inv (assets : list QuarterlyFact) (lin : string * string * string)
    (year : Z) (period : Quarter) (first_end : Z)
    (st : option (list ((Z * option Quarter * Z) * QuarterlyFact) * option QuarterlyFact)) : Prop :=
  match st with
  | None => True
  | Some (by_period, start) =>
      (∀ k f, (k, f) ∈ by_period → f ∈ assets ∧ lineage f = lin ∧ ∃ q,
         qf_fiscal_period f = Single q ∧ k = (qf_fiscal_year f, Some q, qf_period_end f)) ∧
      (∀ f, start = Some f → f ∈ assets ∧ lineage f = lin ∧ qf_fiscal_year f = year ∧
         qf_fiscal_period f = Single period ∧ qf_period_end f < first_end)
  end.

Lemma asset_step_inv assets lin year period first_end keys st f :
  f ∈ assets → assets_inv assets lin year period first_end st →
  assets_inv assets lin year period first_end (asset_step lin year period first_end keys st f).
Proof.
  intros Hf H. unfold asset_step. destruct st as [[bp start]|]; [|done]. simpl in *.
  destruct H as [Hbp Hst]. case_bool_decide as Hl; [|done]. simpl.
  destruct (qf_fiscal_period f) as [q|] eqn:Hq; [|done].
  destruct ((_ =? _) && _ && _) eqn:Hc.
  - destruct start; [done|]. split; [done|]. intros g ?. simplify_eq.
    apply andb_true_iff in Hc as [[Hy%Z.eqb_eq Hp%bool_decide_eq_true]%andb_true_iff He%Z.ltb_lt].
    subst q. done.
  - destruct (bool_decide (_ ∈ keys)); [|done]. simpl. destruct (assoc_get _ bp); [done|].
    split; [|done]. intros k g [Hg|Hg%list_elem_of_singleton]%elem_of_app; [by apply Hbp|].
    simplify_eq. split; [done|]. split; [done|]. by exists q.
Qed.

Lemma assets_fold_inv assets lin year period first_end keys l st :
  (∀ f, f ∈ l → f ∈ assets) → assets_inv assets lin year period first_end st →
  assets_inv assets lin year period first_end (foldl (asset_step lin year period first_end keys) st l).
Proof.
  revert st. induction l as [|f l IH]; intros st Hl Hst; [done|]. simpl. apply IH.
  - intros g Hg. apply Hl. by right.
  - apply asset_step_inv; [apply Hl; by left|done].
Qed.

Local Open Scope Q_scope.
(** ** Sums of quarters *)

(** What the four quarters amount to: direct facts as they are told; year-to-date facts
    less the year to the quarter before, each difference rounded once. *)
Definition quarter_amounts (w : list QuarterlyFact) (vs : list Q) : Prop :=
  ((∀ f, f ∈ w → is_ytd (qf_fiscal_period f) = false) ∧ vs = (λ f, dq (qf_value f)) <$> w) ∨
  ((∀ f, f ∈ w → is_ytd (qf_fiscal_period f) = true) ∧
   ∃ y1 y2 y3 y4 v1 v2 v3 v4, w = [y1; y2; y3; y4] ∧ vs = [v1; v2; v3; v4] ∧
     rounds PREC (dq (qf_value y1)) v1 ∧ rounds PREC (dq (qf_value y2) - dq (qf_value y1)) v2 ∧
     rounds PREC (dq (qf_value y3) - dq (qf_value y2)) v3 ∧ rounds PREC (dq (qf_value y4) - dq (qf_value y3)) v4).
(** A sum from the left, each addition rounded once. *)
Inductive rounded_sum : list Q → Q → Prop :=
  | rounded_nil s : s == 0 → rounded_sum [] s
  | rounded_snoc vs v s s' : rounded_sum vs s → rounds PREC (s + v) s' → rounded_sum (vs ++ [v]) s'.
(** A value in whole units of 10^e, at most 10^26 of them. *)
Definition in_units (e : Z) (f : QuarterlyFact) : Prop :=
  ∃ c, (Z.abs c ≤ 10 ^ 26)%Z ∧ dq (qf_value f) == inject_Z c * p10 e.
Definition sum_values (w : list QuarterlyFact) : Q := foldr (λ f s, dq (qf_value f) + s) 0 w.

(** A decimal is the total of four quarters: the rounded sum of their amounts. When the
    values are whole numbers of one unit, nothing is rounded: it is the sum of the direct
    values, or the year-to-date value of the last quarter. *)
Record total_of (w : list QuarterlyFact) (total : Decimal) : Prop := {
  to_amounts : ∃ vs, quarter_amounts w vs ∧ rounded_sum vs (dq total);
  to_exact : ∀ e, (∀ f, f ∈ w → in_units e f) →
    ((∀ f, f ∈ w → is_ytd (qf_fiscal_period f) = false) ∧ dq total == sum_values w) ∨
    ((∀ f, f ∈ w → is_ytd (qf_fiscal_period f) = true) ∧ ∀ f, last w = Some f → dq total == dq (qf_value f));
}.

Lemma rounded_sum_of l : rounded_sum (dq <$> l) (dq (d_sum l)).
Proof.
  induction l as [|x l IH] using rev_ind; [constructor; by rewrite <-dq_zero|].
  unfold d_sum. rewrite fmap_app, foldl_app. simpl. econstructor; [exact IH|]. apply d_add_rounds.
Qed.
Lemma rounded_sum_exact vs s : rounded_sum vs s → ∀ e cs, Forall2 (λ v c, v == inject_Z c * p10 e) vs cs →
  (length cs ≤ 4)%nat → Forall (λ c, Z.abs c ≤ 2 * 10 ^ 26)%Z cs →
  s == inject_Z (foldr Z.add 0%Z cs) * p10 e ∧ (Z.abs (foldr Z.add 0%Z cs) ≤ Z.of_nat (length cs) * (2 * 10 ^ 26))%Z.
Proof.
  set (B := (2 * 10 ^ 26)%Z). assert (HB : (0 ≤ B)%Z) by (by vm_compute).
  assert (H4 : (4 * B ≤ 10 ^ PREC)%Z) by (apply Z.leb_le; vm_compute; reflexivity). clearbody B.
  induction 1 as [s Hs|vs v s s' _ IH Hr]; intros e cs Hf Hl Hc.
  { apply Forall2_nil_inv_l in Hf as ->. simpl. split; [rewrite Hs; change (inject_Z 0) with 0; lra|lia]. }
  apply Forall2_app_inv_l in Hf as (cs' & k & Hf & Hk & ->). apply Forall2_cons_inv_l in Hk as (c & k' & Hv & Hk' & ->).
  apply Forall2_nil_inv_l in Hk' as ->. apply Forall_app in Hc as [Hc Hc']. apply Forall_cons in Hc' as [Hc' _].
  rewrite length_app in Hl |- *. simpl in Hl |- *. destruct (IH e cs' Hf) as [Hs Hb]; [lia|done|].
  assert (Hsum : foldr Z.add 0%Z (cs' ++ [c]) = (foldr Z.add 0%Z cs' + c)%Z).
  { clear. induction cs' as [|x l IH]; simpl; [lia|]. rewrite IH. lia. }
  rewrite Hsum. set (n := foldr Z.add 0%Z cs') in *.
  assert (Hb3 : (Z.of_nat (length cs') * B ≤ 3 * B)%Z) by (apply Z.mul_le_mono_nonneg_r; lia).
  split; [|rewrite Nat2Z.inj_add, Z.mul_add_distr_r; lia].
  assert (Hx : s + v == inject_Z (n + c) * p10 e) by (rewrite Hs, Hv, inject_Z_plus; ring).
  rewrite <-Hx. apply (rounds_exact PREC _ _ (n + c) e PREC_pos); [|done|done].
  lia.
Qed.
Lemma units_diff e a b v : in_units e a → in_units e b → rounds PREC (dq (qf_value a) - dq (qf_value b)) v →
  ∃ c, (Z.abs c ≤ 2 * 10 ^ 26)%Z ∧ v == inject_Z c * p10 e ∧ v == dq (qf_value a) - dq (qf_value b).
Proof.
  intros (c & Hc & Ha) (d & Hd & Hb) Hr. exists (c - d)%Z.
  assert (Hx : dq (qf_value a) - dq (qf_value b) == inject_Z (c - d) * p10 e).
  { rewrite Ha, Hb. unfold Z.sub. rewrite inject_Z_plus, inject_Z_opp. ring. }
  assert (Hv : v == dq (qf_value a) - dq (qf_value b)).
  { apply (rounds_exact PREC _ _ (c - d) e PREC_pos); [|done|done].
    assert (H2 : (2 * 10 ^ 26 ≤ 10 ^ PREC)%Z) by (apply Z.leb_le; vm_compute; reflexivity). lia. }
  split; [lia|]. split; [by rewrite Hv|done].
Qed.

(** What [sum_ytd] computes. *)
Lemma direct_values prior w : (∀ f, f ∈ w → is_ytd (qf_fiscal_period f) = false) →
  quarter_values prior w = qf_value <$> w.
Proof.
  revert prior. induction w as [|f w IH]; intros prior Hw; [done|]. cbn [quarter_values].
  rewrite (Hw f ltac:(by left)), fmap_cons. f_equal. apply IH. intros g Hg. apply Hw. by right.
Qed.
Lemma ytd_values y1 y2 y3 y4 : (∀ f, f ∈ [y1; y2; y3; y4] → is_ytd (qf_fiscal_period f) = true) →
  quarter_values None [y1; y2; y3; y4] =
  [d_sub (qf_value y1) dzero; d_sub (qf_value y2) (qf_value y1); d_sub (qf_value y3) (qf_value y2);
   d_sub (qf_value y4) (qf_value y3)].
Proof.
  intros H. assert (Hy : ∀ f, f ∈ [y1; y2; y3; y4] → qf_fiscal_period f = YTD)
    by (intros f Hf; specialize (H f Hf); by destruct (qf_fiscal_period f)).
  simpl. unfold quarter_value. rewrite !Hy by (rewrite !elem_of_cons; tauto). done.
Qed.
Lemma rounds_sub_zero x v : rounds PREC (x - dq dzero) v ↔ rounds PREC x v.
Proof. assert (H : x - dq dzero == x) by (rewrite dq_zero; ring). by rewrite H. Qed.
Lemma amounts_of_run visible w : (∀ f, f ∈ visible → valid_fact f) → available_run visible w →
  quarter_amounts w (dq <$> quarter_values None w).
Proof.
  intros Hv Hrun. assert (Hkind : (∀ f, f ∈ w → is_ytd (qf_fiscal_period f) = false) ∨
    (∀ f, f ∈ w → is_ytd (qf_fiscal_period f) = true) ∧ ∃ y1 y2 y3 y4, w = [y1; y2; y3; y4]).
  { destruct Hrun as [k [] Hk _ Hw Hl _|lin o _ Hw _ _].
    - right. split; [intros f Hf; destruct (Hw f Hf); by apply Hk|].
      destruct w as [|y1 [|y2 [|y3 [|y4 [|? ?]]]]]; try discriminate Hl. by exists y1, y2, y3, y4.
    - left. intros f Hf. destruct (Hw f Hf). by apply Hk.
    - left. intros f Hf. by apply Hw. }
  destruct Hkind as [Hd|(Hy & y1 & y2 & y3 & y4 & ->)].
  - left. split; [done|]. by rewrite direct_values, <-list_fmap_compose.
  - right. split; [done|]. rewrite ytd_values by done. exists y1, y2, y3, y4. do 4 eexists.
    split_and!; [done|done|apply rounds_sub_zero; apply d_sub_rounds|apply d_sub_rounds..].
Qed.
Lemma total_of_run visible w : (∀ f, f ∈ visible → valid_fact f) → available_run visible w →
  total_of w (sum_ytd w).
Proof.
  intros Hv Hrun. pose proof (amounts_of_run visible w Hv Hrun) as Ha.
  pose proof (rounded_sum_of (quarter_values None w)) as Hs. split; [by exists (dq <$> quarter_values None w)|].
  intros e Hu. unfold sum_ytd. revert Ha Hs. generalize (dq <$> quarter_values None w) as vs.
  generalize (dq (d_sum (quarter_values None w))) as total. intros total vs [[Hd ->]|(Hy & Ha)] Hs.
  - left. split; [done|]. destruct (available_run_quarters visible w Hv Hrun) as [[[o Ho] _ _] _].
    assert (Hlen : length w = 4%nat) by (rewrite <-(length_fmap fact_ordinal), Ho; by rewrite length_fmap, length_seqZ).
    assert (Hcs : ∃ cs, Forall2 (λ v c, v == inject_Z c * p10 e) ((λ f, dq (qf_value f)) <$> w) cs ∧
      Forall (λ c, Z.abs c ≤ 2 * 10 ^ 26)%Z cs ∧ sum_values w == inject_Z (foldr Z.add 0%Z cs) * p10 e).
    { clear -Hu. induction w as [|f w IH]; [exists []; split_and!; [constructor..|]|].
      - simpl. change (inject_Z 0) with 0. ring.
      - destruct IH as (cs & H1 & H2 & H3); [intros g Hg; apply Hu; by right|].
        destruct (Hu f ltac:(by left)) as (c & Hc & Hf). exists (c :: cs). rewrite fmap_cons.
        split_and!; [by constructor|constructor; [lia|done]|]. simpl. rewrite Hf, H3, inject_Z_plus. ring. }
    destruct Hcs as (cs & H1 & H2 & ->). apply (rounded_sum_exact _ _ Hs e cs H1); [|done].
    apply Forall2_length in H1. rewrite length_fmap in H1. lia.
  - right. split; [done|]. destruct Ha as (y1 & y2 & y3 & y4 & v1 & v2 & v3 & v4 & -> & -> & H1 & H2 & H3 & H4).
    intros f [= <-]. assert (Hin : in_units e y1 ∧ in_units e y2 ∧ in_units e y3 ∧ in_units e y4)
      by (split_and!; apply Hu; rewrite !elem_of_cons; tauto). destruct Hin as (U1 & U2 & U3 & U4).
    destruct (units_diff e y2 y1 v2 U2 U1 H2) as (c2 & B2 & E2 & D2).
    destruct (units_diff e y3 y2 v3 U3 U2 H3) as (c3 & B3 & E3 & D3).
    destruct (units_diff e y4 y3 v4 U4 U3 H4) as (c4 & B4 & E4 & D4). destruct U1 as (c1 & B1 & U1).
    assert (E1 : v1 == inject_Z c1 * p10 e).
    { rewrite <-U1. apply (rounds_exact PREC _ _ c1 e PREC_pos); [|done|done].
      assert (H26 : (10 ^ 26 ≤ 10 ^ PREC)%Z) by (apply Z.leb_le; vm_compute; reflexivity). lia. }
    destruct (rounded_sum_exact _ _ Hs e [c1; c2; c3; c4]) as [-> _].
    + repeat constructor; done.
    + simpl. lia.
    + repeat constructor; lia.
    + assert (Hsum : v1 + v2 + v3 + v4 == dq (qf_value y4)) by (rewrite E1, <-U1, D2, D3, D4; ring).
      rewrite <-Hsum, E1, E2, E3, E4. simpl. rewrite !inject_Z_plus. change (inject_Z 0) with 0. ring.
Qed.

Local Close Scope Q_scope.

(** The assets collected for the keys are those of the keys, in their order. *)
Lemma ordered_assets (assets : list QuarterlyFact) lin bp keys (ordered : list QuarterlyFact) :
  (∀ f, f ∈ assets → valid_fact f) →
  (∀ k f, (k, f) ∈ bp → f ∈ assets ∧ lineage f = lin ∧ ∃ q,
     qf_fiscal_period f = Single q ∧ k = (qf_fiscal_year f, Some q, qf_period_end f)) →
  mapM (λ k, assoc_get k bp) keys = Some ordered →
  quarter_key <$> ordered = keys ∧ ∀ f, f ∈ ordered → f ∈ assets ∧ lineage f = lin.
Proof.
  intros Hv Hbp Hm. split.
  - apply mapM_Some in Hm. revert keys Hm. induction ordered as [|f l IH]; intros keys Hm.
    { by apply Forall2_nil_inv_r in Hm as ->. }
    apply Forall2_cons_inv_r in Hm as (k & ks & Hk & Hks & ->). rewrite fmap_cons, (IH ks Hks). f_equal.
    apply assoc_get_elem, Hbp in Hk as (Hf & _ & q & Hq & ->). unfold quarter_key.
    rewrite (valid_single_label f q); [done|by apply Hv|]. unfold single_quarter. by rewrite Hq.
  - intros f Hf. destruct (mapM_elem _ _ _ _ Hm Hf) as (k & _ & Hk). by apply assoc_get_elem, Hbp in Hk as (? & ? & _).
Qed.

(** Where trailing-twelve-month fundamentals come from. *)
Record ttm_from (facts : list QuarterlyFact) (cutoff known : Z) (shares : Decimal)
    (t : TtmFundamentals) (ni cfo capex : list QuarterlyFact) (start final : QuarterlyFact)
    (lin : string * string * string) (o : Z) : Prop := {
  tf_flows : ∀ c w, (c, w) ∈ [(NET_INCOME_LOSS, ni); (NET_CASH_OPERATING, cfo); (CAPEX_PPE, capex)] →
    trailing_run (fact_by_concept facts c cutoff known) w ∧ fact_ordinal <$> w = Some <$> seqZ o 4 ∧
    ∀ f, f ∈ w → f ∈ fact_by_concept facts c cutoff known ∧ lineage f = lin;
  tf_ends : qf_period_end <$> cfo = qf_period_end <$> ni ∧ qf_period_end <$> capex = qf_period_end <$> ni;
  tf_sums : total_of ni (ttm_net_income t) ∧ total_of cfo (ttm_cfo t) ∧ total_of capex (ttm_capex t);
  tf_capex : ∃ vs, quarter_amounts capex vs ∧ Forall (λ v, 0 <= v)%Q vs ∧ (0 <= dq (ttm_capex t))%Q;
  tf_start : start ∈ fact_by_concept facts ASSETS cutoff known ∧ lineage start = lin ∧
    fact_ordinal start = Some (o - 1) ∧ assets_at_ttm_start t = qf_value start ∧
    (0 < dq (qf_value start))%Q ∧ ∀ f, head ni = Some f → qf_period_end start < qf_period_end f;
  tf_final : final ∈ fact_by_concept facts ASSETS cutoff known ∧ lineage final = lin ∧
    fact_ordinal final = Some (o + 3) ∧ assets_at_ttm_end t = qf_value final ∧
    (0 < dq (qf_value final))%Q ∧ ∀ f, last ni = Some f → qf_period_end final = qf_period_end f;
  tf_assets : quarter_key <$> ttm_facts t = quarter_key <$> ni ∧
    ∀ f, f ∈ ttm_facts t → f ∈ fact_by_concept facts ASSETS cutoff known ∧ lineage f = lin;
  tf_shares : ttm_shares_outstanding t = shares;
}.

Lemma previous_quarter_ordinal y q :
  (if 1 <? quarter_number q then y else y - 1) * 4 + quarter_number (previous_quarter q) =
  y * 4 + quarter_number q - 1.
Proof. destruct q; simpl; lia. Qed.

Lemma key_ordinal f g : quarter_key f = quarter_key g → fact_ordinal f = fact_ordinal g.
Proof. unfold quarter_key, fact_ordinal. intros H. injection H as H1 H2 _. by rewrite H1, H2. Qed.
Lemma keys_ordinals (l k : list QuarterlyFact) : quarter_key <$> l = quarter_key <$> k → fact_ordinal <$> l = fact_ordinal <$> k.
Proof.
  revert k. induction l as [|f l IH]; intros [|g k] H; simpl in *; try done.
  injection H as H1 H2 H3 H4. f_equal; [apply key_ordinal; unfold quarter_key; congruence|by apply IH].
Qed.
Lemma keys_ends (l k : list QuarterlyFact) :
  quarter_key <$> l = quarter_key <$> k → qf_period_end <$> l = qf_period_end <$> k.
Proof.
  revert k. induction l as [|f l IH]; intros [|g k] H; simpl in *; try done.
  injection H as H1 H2 H3 H4. f_equal; [done|by apply IH].
Qed.

Lemma mapM_last {A B} (f : A → option B) (l : list A) (k : list B) y :
  mapM f l = Some k → last k = Some y → ∃ x, last l = Some x ∧ f x = Some y.
Proof.
  intros Hk%mapM_Some Hy. rewrite last_lookup in Hy.
  destruct (Forall2_lookup_r _ _ _ _ _ Hk Hy) as (x & Hx & Hf). exists x.
  by rewrite last_lookup, (Forall2_length _ _ _ Hk).
Qed.

Lemma run_first_ordinal (w : list QuarterlyFact) f o :
  fact_ordinal <$> w = Some <$> seqZ o 4 → head w = Some f → fact_ordinal f = Some o.
Proof. intros H Hf. destruct w as [|g w]; [done|]. by simplify_eq/=. Qed.
Lemma run_last_ordinal (w : list QuarterlyFact) f o :
  fact_ordinal <$> w = Some <$> seqZ o 4 → last w = Some f → fact_ordinal f = Some (o + 3).
Proof.
  intros H Hf. assert (Hl : last (fact_ordinal <$> w) = Some (fact_ordinal f)) by by rewrite fmap_last, Hf.
  rewrite H in Hl. change (seqZ o 4) with ((λ i : nat, Z.of_nat i + o) <$> [0; 1; 2; 3]%nat) in Hl.
  simpl in Hl. injection Hl as Hl. rewrite <-Hl. f_equal. lia.
Qed.

Lemma existsb_false_Forall {A} (p : A → bool) l : existsb p l = false → Forall (λ x, p x = false) l.
Proof.
  induction l as [|x l IH]; simpl; intros H; constructor; apply orb_false_iff in H as [? ?]; auto.
Qed.

Section flows.
Context (facts : list QuarterlyFact) (cutoff known : Z) (shares : Decimal).
Context (Hvalid : Forall valid_fact facts).
Context (ni cfo capex : list QuarterlyFact) (t : TtmFundamentals).
Context (Hni : unique_quarter_keys facts NET_INCOME_LOSS cutoff known = Some ni).
Context (Hcfo : unique_quarter_keys facts NET_CASH_OPERATING cutoff known = Some cfo).
Context (Hcapex : unique_quarter_keys facts CAPEX_PPE cutoff known = Some capex).

Lemma assemble_flows_from :
  assemble_flows facts ni cfo capex shares cutoff known = Some t →
  ∃ start final lin o, ttm_from facts cutoff known shares t ni cfo capex start final lin o.
Proof using Hvalid Hni Hcfo Hcapex.
  unfold assemble_flows. intros H.
  destruct (head ni) as [first|] eqn:Hhead; [|done]. simpl in H.
  destruct (quarter_label first) as [q|] eqn:Hq; [|done]. cbn [mbind option_bind] in H.
  destruct (negb _) eqn:Hsame in H; [done|]. apply negb_false_iff in Hsame.
  rewrite !andb_true_iff, !bool_decide_eq_true, !forallb_forall in Hsame.
  destruct Hsame as [[Hl1 Hk1] [[Hl2 Hk2] _]].
  destruct (existsb _ _ || _) eqn:Hneg in H; [done|]. apply orb_false_iff in Hneg as [Hneg1 Hneg2].
  set (keys := quarter_key <$> ni) in *.
  destruct (foldl _ _ _) as [[bp start]|] eqn:Hfold in H; [|done]. simpl in H.
  destruct start as [start|]; [|done]. simpl in H.
  destruct (mapM _ keys) as [ordered|] eqn:Hord in H; [|done]. simpl in H.
  destruct (negb _) in H; [done|]. destruct (last ordered) as [final|] eqn:Hfin; [|done]. simpl in H.
  destruct (dec_leb (qf_value start) dzero || _) eqn:Hpos in H; [done|].
  apply orb_false_iff in Hpos as [Hpos1 Hpos2]. injection H as <-.
  destruct (unique_quarter_keys_run _ _ _ Hvalid _ _ Hni) as [[[o Ho] [lin Hlin] _] Hni'].
  pose proof (unique_quarter_keys_trailing _ _ _ Hvalid _ _ Hni) as Tni.
  pose proof (unique_quarter_keys_trailing _ _ _ Hvalid _ _ Hcfo) as Tcfo.
  pose proof (unique_quarter_keys_trailing _ _ _ Hvalid _ _ Hcapex) as Tcapex.
  destruct (unique_quarter_keys_run _ _ _ Hvalid _ _ Hcfo) as [_ Hcfo'].
  destruct (unique_quarter_keys_run _ _ _ Hvalid _ _ Hcapex) as [_ Hcapex'].
  assert (Hfirst : first ∈ ni) by (destruct ni; [done|]; simplify_eq/=; by left).
  pose proof (run_first_ordinal _ _ _ Ho Hhead) as Hof.
  assert (Hinv : assets_inv (fact_by_concept facts ASSETS cutoff known) (lineage first)
    (if 1 <? quarter_number q then qf_fiscal_year first else qf_fiscal_year first - 1)
    (previous_quarter q) (qf_period_end first) (Some (bp, Some start))).
  { rewrite <-Hfold. apply assets_fold_inv; [done|]. split; [|done]. by intros k f ?%elem_of_nil. }
  destruct Hinv as [Hbp Hst]. destruct (Hst start eq_refl) as (Hs1 & Hs2 & Hs3 & Hs4 & Hs5).
  destruct (mapM_last _ _ _ _ Hord Hfin) as (k & Hk & Hget). apply assoc_get_elem, Hbp in Hget.
  destruct Hget as (Hf1 & Hf2 & qf & Hf3 & Hf4).
  unfold keys in Hk. rewrite fmap_last in Hk. destruct (last ni) as [lastq|] eqn:Hlast; [|done].
  assert (Hva : ∀ f, f ∈ fact_by_concept facts ASSETS cutoff known → valid_fact f).
  { intros f (Hf & _)%elem_of_fact_by_concept. rewrite Forall_forall in Hvalid. auto. }
  assert (Hord1 : ∀ f p, f ∈ fact_by_concept facts ASSETS cutoff known → qf_fiscal_period f = Single p →
    fact_ordinal f = Some (qf_fiscal_year f * 4 + quarter_number p)).
  { intros f p Hf Hp. unfold fact_ordinal. rewrite (valid_single_label f p); [done|by apply Hva|].
    unfold single_quarter. by rewrite Hp. }
  exists start, final, (lineage first), o. split; simpl.
  - intros c w Hcw. rewrite !elem_of_cons in Hcw. destruct Hcw as [?|[?|[?|Hn]]]; [| | |by apply elem_of_nil in Hn];
      simplify_eq; (split; [done|split; [|intros f Hf; split; [auto|]]]).
    + done.
    + by rewrite (Hlin f Hf), (Hlin first Hfirst).
    + by rewrite (keys_ordinals _ _ Hk1).
    + apply list_elem_of_In, Hl1 in Hf. by apply bool_decide_eq_true in Hf.
    + by rewrite (keys_ordinals _ _ Hk2).
    + apply list_elem_of_In, Hl2 in Hf. by apply bool_decide_eq_true in Hf.
  - split; by apply keys_ends.
  - split_and!; (eapply total_of_run; [intros f; by apply visible_valid|]); [apply Tni|apply Tcfo|apply Tcapex].
  - exists (dq <$> quarter_values None capex). split; [|split; [|by apply Qle_of_ltb_false]].
    + eapply amounts_of_run; [|apply Tcapex]. intros f. by apply visible_valid.
    + apply Forall_fmap. apply existsb_false_Forall in Hneg1.
      eapply Forall_impl; [exact Hneg1|]. intros v. apply Qle_of_ltb_false.
  - split_and!; try done; [|by apply Qle_of_leb_false|intros f ?; by simplify_eq].
    rewrite (Hord1 _ _ Hs1 Hs4), Hs3, previous_quarter_ordinal.
    unfold fact_ordinal in Hof. rewrite Hq in Hof. injection Hof as <-. done.
  - simpl in Hk. injection Hk as <-. unfold quarter_key in Hf4. injection Hf4 as Hy Hlab Hend.
    split_and!; try done; [|by apply Qle_of_leb_false|intros f ?; by simplify_eq].
    rewrite (Hord1 _ _ Hf1 Hf3). pose proof (run_last_ordinal _ _ _ Ho Hlast) as Hol.
    unfold fact_ordinal in Hol. rewrite Hlab in Hol. by rewrite <-Hy.
  - by apply (ordered_assets _ _ _ _ _ Hva Hbp).
  - done.
Qed.
End flows.

(** C34. When fundamentals are assembled, they come from facts of one security that
    are visible at the cutoff. For net income, operating cash flow and capital
    expenditure each, from the trailing window: four consecutive fiscal quarters of one
    lineage, offered by the facts without dispute, than which no window so offered ends
    later; the three windows are of the same quarters and lineage. Each total is the sum of
    the amounts of those quarters - direct values, or the difference of the year-to-date
    value to the one before it - each step rounded once, and exactly that sum (for
    year-to-date facts the value of the whole year) when the values are whole numbers of
    one unit. No quarter of capital expenditure is negative. The two asset balances are
    positive and belong to the quarter before the four and to the last of them, and the
    asset facts are those of the four quarters. *)
Theorem ttm_sound facts shares cutoff known_at t :
  Forall valid_fact facts → assemble_ttm facts shares cutoff known_at = Ok (Some t) →
  default cutoff known_at ≤ cutoff ∧ one_security facts = true ∧ (0 < dq shares)%Q ∧
  ∃ ni cfo capex start final lin o,
    ttm_from facts cutoff (default cutoff known_at) shares t ni cfo capex start final lin o.
Proof.
  intros Hv H. unfold assemble_ttm, known_or_cutoff, guard_that, raise in H.
  destruct (dec_ltb dzero shares) eqn:Hsh; [|done]. simpl in H.
  destruct (default cutoff known_at <=? cutoff) eqn:Hk; [|done]. simpl in H.
  destruct (negb _) eqn:Hone in H; [done|]. apply negb_false_iff in Hone. injection H as H.
  set (known := default cutoff known_at) in *.
  destruct (unique_quarter_keys facts NET_INCOME_LOSS cutoff known) as [ni|] eqn:Hni; [|done].
  destruct (unique_quarter_keys facts NET_CASH_OPERATING cutoff known) as [cfo|] eqn:Hcfo; [|done].
  destruct (unique_quarter_keys facts CAPEX_PPE cutoff known) as [capex|] eqn:Hcapex; [|done].
  split; [lia|]. split; [done|]. apply dec_ltb_spec in Hsh. rewrite dq_zero in Hsh. split; [done|].
  exists ni, cfo, capex. exact (assemble_flows_from _ _ _ _ Hv _ _ _ _ Hni Hcfo Hcapex H).
Qed.

Lemma one_security_filter (P : QuarterlyFact → Prop) `{∀ f, Decision (P f)} facts :
  one_security facts = true → one_security (filter P facts) = true.
Proof.
  unfold one_security. rewrite !andb_true_iff, !forallb_forall. intros [Hsome Hsame].
  assert (Hin : ∀ f, In f (filter P facts) → In f facts)
    by (intros f [_ Hf]%list_elem_of_In%list_elem_of_filter; by apply list_elem_of_In).
  split; [intros f Hf; by apply Hsome, Hin|].
  assert (Hall : ∀ f g, In f facts → In g facts → qf_security_id f = qf_security_id g).
  { destruct facts as [|f0 fs]; [done|]. rewrite forallb_forall in Hsame.
    assert (H0 : ∀ f, In f (f0 :: fs) → qf_security_id f = qf_security_id f0).
    { intros f [->|Hf]; [done|]. specialize (Hsame f Hf). by apply bool_decide_eq_true in Hsame. }
    intros f g Hf Hg. by rewrite (H0 f Hf), (H0 g Hg). }
  destruct (filter P facts) as [|f0 fs] eqn:Hf; [done|]. apply forallb_forall. intros g Hg.
  apply bool_decide_eq_true. apply Hall; apply Hin; [by right|by left].
Qed.

(** C35. Fundamentals never look ahead: of the facts of a security, those that became
    available after the knowledge cutoff change nothing, whether they are in the
    input or not. *)
Theorem ttm_point_in_time facts shares cutoff known_at :
  one_security facts = true →
  assemble_ttm facts shares cutoff known_at =
  assemble_ttm (filter (λ f, qf_available_at f ≤ default cutoff known_at) facts) shares cutoff known_at.
Proof.
  intros Hone. apply assemble_ttm_agree; [by rewrite one_security_filter|].
  unfold seen. rewrite list_filter_filter. apply list_filter_iff. intros f. unfold visible_fact.
  rewrite andb_true_iff, Z.leb_le. tauto.
Qed.

(** ** A filer with a calendar fiscal year *)
Definition demo_hash : string :=
  "0123456789abcdef0123456789abcdef0123456789abcdef0123456789abcdef".
Definition demo_sec : SourceRef := mk_SourceRef "rec-1" SEC_EDGAR demo_hash.
Definition demo_fact (c : FundamentalConcept) (v : Z) (year : Z) (q : Quarter) (end_day : Z)
    (available : Z) : QuarterlyFact :=
  mk_Fact c (dec_of_Z v) end_day year (Single q) "USD" "0000320193" "entire_filing_entity" demo_sec
    available (Some "sec-00001") (Some q).
Definition demo_year (c : FundamentalConcept) (v : Z) : list QuarterlyFact :=
  (λ '(q, d), demo_fact c v 2024 q d (d * DAY)) <$> zip all_quarters [19812; 19903; 19995; 20087].
Definition demo_facts : list QuarterlyFact :=
  demo_year NET_INCOME_LOSS 100 ++ demo_year NET_CASH_OPERATING 120 ++ demo_year CAPEX_PPE 20
  ++ demo_year ASSETS 5000
  ++ [demo_fact ASSETS 4800 2023 Q4 19721 (19721 * DAY);
      (* a restatement filed after the cutoff *)
      demo_fact NET_INCOME_LOSS 1 2024 Q4 20087 (20200 * DAY)].
Definition demo_cutoff : Z := 20110 * DAY.
Definition demo_ttm : TtmFundamentals :=
  match assemble_ttm demo_facts (dec_of_Z 1000) demo_cutoff None with
  | Ok (Some t) => t
  | _ => mk_Ttm dzero dzero dzero dzero dzero dzero []
  end.

(** Year-to-date facts: the total of the quarters is the year, and quarters are consecutive. *)
Definition demo_ytd (c : FundamentalConcept) (vs : list Z) : list QuarterlyFact :=
  (λ '(q, d, v), mk_Fact c (dec_of_Z v) d 2024 YTD "USD" "0000320193" "entire_filing_entity" demo_sec
     (d * DAY) (Some "sec-00001") (Some q)) <$> zip (zip all_quarters [19812; 19903; 19995; 20087]) vs.
Example demo_ytd_total :
  let facts := demo_ytd NET_INCOME_LOSS [100; 210; 330; 460] ++ demo_ytd NET_CASH_OPERATING [120; 250; 370; 500] ++
    demo_ytd CAPEX_PPE [20; 40; 60; 80] ++ demo_year ASSETS 5000 ++ [demo_fact ASSETS 4800 2023 Q4 19721 (19721 * DAY)] in
  match assemble_ttm facts (dec_of_Z 1000) demo_cutoff None with
  | Ok (Some t) => (ttm_net_income t, ttm_cfo t, ttm_capex t) = (dec_of_Z 460, dec_of_Z 500, dec_of_Z 80)
  | _ => False
  end.
Proof. vm_compute. reflexivity. Qed.

Lemma ttm_sound_witness :
  (Forall valid_fact demo_facts ∧
   assemble_ttm demo_facts (dec_of_Z 1000) demo_cutoff None = Ok (Some demo_ttm)) ∧
  ∃ ni cfo capex start final lin o,
    ttm_from demo_facts demo_cutoff demo_cutoff (dec_of_Z 1000) demo_ttm ni cfo capex start final lin o.
Proof.
  assert (H1 : Forall valid_fact demo_facts) by (repeat constructor).
  assert (H2 : assemble_ttm demo_facts (dec_of_Z 1000) demo_cutoff None = Ok (Some demo_ttm))
    by (vm_compute; reflexivity).
  split; [exact (conj H1 H2)|].
  exact (proj2 (proj2 (proj2 (ttm_sound demo_facts (dec_of_Z 1000) demo_cutoff None demo_ttm H1 H2)))).
Defined.

Lemma ttm_point_in_time_witness :
  one_security demo_facts = true ∧
  assemble_ttm demo_facts (dec_of_Z 1000) demo_cutoff None =
  assemble_ttm (filter (λ f, qf_available_at f ≤ default demo_cutoff None) demo_facts)
    (dec_of_Z 1000) demo_cutoff None.
Proof.
  assert (H : one_security demo_facts = true) by (vm_compute; reflexivity).
  split; [exact H|]. exact (ttm_point_in_time demo_facts (dec_of_Z 1000) demo_cutoff None H).
Defined.

Example demo_ttm_values :
  dec_eqb (ttm_net_income demo_ttm) (dec_of_Z 400) = true ∧
  dec_eqb (ttm_cfo demo_ttm) (dec_of_Z 480) = true ∧
  dec_eqb (ttm_capex demo_ttm) (dec_of_Z 80) = true ∧
  dec_eqb (assets_at_ttm_start demo_ttm) (dec_of_Z 4800) = true.
Proof. by vm_compute. Qed.
