(* ===== verification/Features.v ===== *)
(** * Feature vectors: [screening/contracts.py], [screening/funnel.py]

    The factor inputs of one security, the feature vector that screening freezes,
    and [build_feature_vectors], which evaluates a whole cross-section.  The
    digest of a vector's canonical serialization is a parameter. *)

From S2P Require Import Prelude Text Orders Decimals Calendar Sources Universe Factors Scores.
Local Open Scope Z_scope.

(** ** Vectors *)

Inductive FactorStatus :=
  | COMPLETE | FACTOR_INPUT_MISSING | FACTOR_MANIFEST_NOT_APPROVED | SECTOR_TAXONOMY_NOT_AUTHORIZED.
#[global] Instance FactorStatus_eq_dec : EqDecision FactorStatus.
Proof. solve_decision. Defined.

Record RawFeature := mk_RawFeature {
  rf_name : RawSubfactor;
  rf_value : option Decimal;
  rf_source_refs : list SourceRef;
  rf_security_id : string;
  rf_missing_reason : option string;
}.

(** References in canonical order, no record twice. *)
Definition refs_canonical (refs : list SourceRef) : bool :=
  bool_decide (NoDup (ref_record_id <$> refs)) && bool_decide (refs = sort_by ref_leb refs).

Definition check_RawFeature (r : RawFeature) : outcome unit :=
  guard_that ((0 <? length (rf_source_refs r))%nat && (length (rf_source_refs r) <=? 64)%nat) EValueError
    "raw feature source_refs require 1 to 64 exact SourceRef values" ≫= λ _,
  guard_that (bool_decide (NoDup (ref_record_id <$> rf_source_refs r))) EValueError
    "raw feature source_refs must not repeat a record" ≫= λ _,
  guard_that (bool_decide (rf_source_refs r = sort_by ref_leb (rf_source_refs r))) EValueError
    "raw feature source_refs must use canonical order" ≫= λ _,
  guard_that (match rf_value r, rf_missing_reason r with
              | None, Some m => negb (bool_decide (m = ""))
              | None, None => false
              | Some _, _ => true
              end) EValueError "missing raw features require a non-empty missing reason" ≫= λ _,
  guard_that (negb (bool_decide (is_Some (rf_value r) ∧ is_Some (rf_missing_reason r)))) EValueError
    "present raw features cannot carry a missing reason".

(** The five scores are all present or all absent. *)
Record FeatureVector := mk_Vector {
  fv_security_id : string;
  fv_symbol : string;
  fv_universe_hash : string;
  fv_manifest_hash : string;
  fv_as_of : Z;
  fv_known_at : Z;
  fv_status : FactorStatus;
  fv_raw : list RawFeature;
  fv_scores : option CategoryScores;
  fv_missing_reason : option string;
  fv_price_session_dates : list Z;
}.

Definition MAX_FEATURE_PRICE_SESSION_DATES : nat := 252.

(** [FeatureVector.__post_init__]; [approved] is the hash of the factor manifest. *)
Definition check_FeatureVector (approved : string) (v : FeatureVector) : outcome unit :=
  let complete := bool_decide (fv_status v = COMPLETE) in
  guard_that (is_digest (fv_universe_hash v)) EValueError
    "universe_hash must be a SHA-256 digest" ≫= λ _,
  guard_that (is_digest (fv_manifest_hash v)) EValueError
    "manifest_hash must be a SHA-256 digest" ≫= λ _,
  guard_that (fv_known_at v <=? fv_as_of v) EValueError "known_at cannot be after as_of" ≫= λ _,
  guard_that (negb complete || bool_decide (fv_manifest_hash v = approved)) EValueError
    "COMPLETE vectors require the approved factor manifest" ≫= λ _,
  guard_that (forallb (λ r, bool_decide (rf_security_id r = fv_security_id v)) (fv_raw v)) EValueError
    "raw feature lineage must bind to the feature security" ≫= λ _,
  guard_that (bool_decide (rf_name <$> fv_raw v = subfactor_names)) EValueError
    "raw features must exactly match the approved factor manifest order" ≫= λ _,
  (if complete then
     guard_that (forallb (λ r, bool_decide (is_Some (rf_value r))) (fv_raw v)) EValueError
       "COMPLETE status requires every raw feature value" ≫= λ _,
     guard_that (bool_decide (fv_missing_reason v = None)) EValueError
       "COMPLETE status cannot carry a missing reason" ≫= λ _,
     guard_that (bool_decide (is_Some (fv_scores v))) EValueError
       "COMPLETE status requires every category score"
   else
     guard_that (bool_decide (is_Some (fv_missing_reason v))) EValueError
       "non-COMPLETE status requires a missing reason" ≫= λ _,
     guard_that (match fv_scores v with Some _ => false | None => true end) EValueError
       "non-COMPLETE status cannot carry category scores") ≫= λ _,
  guard_that (strictly_ordered (fv_price_session_dates v)) EValueError
    "price_session_dates must be ordered and unique" ≫= λ _,
  guard_that (negb complete ||
              (length (fv_price_session_dates v) =? MAX_FEATURE_PRICE_SESSION_DATES)%nat) EValueError
    "COMPLETE vectors require the latest 252 price sessions" ≫= λ _,
  guard_that (complete || bool_decide (fv_price_session_dates v = [])) EValueError
    "non-COMPLETE vectors cannot carry price session dates".

(** [_finalize_feature_vector]; the raw features check themselves first. *)
Definition make_FeatureVector (approved : string) (v : FeatureVector) : outcome FeatureVector :=
  mapM check_RawFeature (fv_raw v) ≫= λ _,
  check_FeatureVector approved v ≫= λ _, Ok v.

(** ** Inputs *)

Record FactorInput := mk_Input {
  fi_security_id : string;
  fi_symbol : string;
  fi_closes : list SessionClose;
  fi_facts : list QuarterlyFact;
  fi_shares : SharesObservation;
  fi_sessions : list MarketSession;
  fi_splits : list SplitAdjustment;
}.

Definition check_FactorInput (i : FactorInput) : outcome unit :=
  let sid := fi_security_id i in
  guard_that (forallb (λ c, bool_decide (sc_security_id c = Some sid)) (fi_closes i)) EValueError
    "session closes must bind to the factor security" ≫= λ _,
  guard_that (forallb (λ f, bool_decide (qf_security_id f = Some sid)) (fi_facts i)) EValueError
    "quarterly facts must bind to the factor security" ≫= λ _,
  guard_that (bool_decide (sh_security_id (fi_shares i) = Some sid)) EValueError
    "shares observation must bind to the factor security" ≫= λ _,
  session_calendar (fi_sessions i) ≫= λ _,
  guard_that (forallb (λ s, bool_decide (sp_security_id s = sid)) (fi_splits i)) EValueError
    "split adjustments must bind to the factor security".

(** [FactorInput.source_refs] and [source_refs_at] *)
Definition source_refs (i : FactorInput) : list SourceRef :=
  canonical_refs ((sc_source_ref <$> fi_closes i) ++ (qf_source_ref <$> fi_facts i) ++
    [sh_source_ref (fi_shares i)] ++ (sp_source_ref <$> fi_splits i)).

Definition visible_close (as_of known : Z) (c : SessionClose) : bool :=
  (sc_trading_date c <? utc_date as_of) && (sc_available_at c <=? known).
Definition source_refs_at (i : FactorInput) (as_of known : Z) : outcome (list SourceRef) :=
  guard_that (known <=? as_of) EValueError "known_at cannot be after as_of" ≫= λ _,
  let refs :=
    (sc_source_ref <$> filter (λ c, visible_close as_of known c = true) (fi_closes i)) ++
    (qf_source_ref <$> filter (λ f, visible_fact as_of known f = true) (fi_facts i)) ++
    (if sh_available_at (fi_shares i) <=? known then [sh_source_ref (fi_shares i)] else []) ++
    (sp_source_ref <$> filter (λ s, visible_split as_of known s = true) (fi_splits i)) in
  Ok (match refs with [] => source_refs i | _ => canonical_refs refs end).

(** ** The cross-section *)

(** One calendar, where any two inputs describe the same date. *)
Definition merge_session (ref : gmap Z MarketSession) (s : MarketSession)
    : outcome (gmap Z MarketSession) :=
  match ref !! ms_trading_date s with
  | None => Ok (<[ms_trading_date s := s]> ref)
  | Some seen => guard_that (bool_decide (seen = s)) EValueError
                   "factor inputs must share one explicit market-session calendar" ≫= λ _, Ok ref
  end.
Fixpoint merge_sessions (ref : gmap Z MarketSession) (l : list MarketSession)
    : outcome (gmap Z MarketSession) :=
  match l with [] => Ok ref | s :: l => ref ← merge_session ref s; merge_sessions ref l end.

Fixpoint merge_calendars (ref : gmap Z MarketSession) (l : list FactorInput)
    : outcome (gmap Z MarketSession) :=
  match l with
  | [] => Ok ref
  | i :: l =>
      session_calendar (fi_sessions i) ≫= λ _,
      ref ← merge_sessions ref (fi_sessions i); merge_calendars ref l
  end.

Definition FACTOR_SESSION_WINDOW : nat := 252.

(** What the loop over the inputs records for one security. *)
Inductive evaluated :=
  | Closed (v : FeatureVector)
  | Scored (i : FactorInput) (raw : RawFactors) (dates : list Z) (refs : list SourceRef).

Section build.
Context (approved : string) (u : UniverseSnapshot) (as_of known : Z).

Definition missing_vector (i : FactorInput) (refs : list SourceRef) (reason : string)
    : outcome FeatureVector :=
  make_FeatureVector approved {|
    fv_security_id := fi_security_id i; fv_symbol := fi_symbol i; fv_universe_hash := un_hash u;
    fv_manifest_hash := approved; fv_as_of := as_of; fv_known_at := known;
    fv_status := FACTOR_INPUT_MISSING;
    fv_raw := (λ n, mk_RawFeature n None refs (fi_security_id i) (Some reason)) <$> subfactor_names;
    fv_scores := None; fv_missing_reason := Some reason; fv_price_session_dates := [] |}.

Definition complete_vector (i : FactorInput) (raw : RawFactors) (dates : list Z)
    (refs : list SourceRef) (s : CategoryScores) : outcome FeatureVector :=
  make_FeatureVector approved {|
    fv_security_id := fi_security_id i; fv_symbol := fi_symbol i; fv_universe_hash := un_hash u;
    fv_manifest_hash := approved; fv_as_of := as_of; fv_known_at := known; fv_status := COMPLETE;
    fv_raw := (λ n, mk_RawFeature n (Some (raw n)) refs (fi_security_id i) None) <$> subfactor_names;
    fv_scores := Some s; fv_missing_reason := None; fv_price_session_dates := dates |}.

(** The availability of the latest split the prices are adjusted for. *)
Definition applied_split_available (i : FactorInput) : option Z :=
  match filter (λ s, visible_split as_of known s = true) (fi_splits i) with
  | [] => None
  | s :: l => Some (foldl (λ m s, Z.max m (sp_available_at s)) (sp_available_at s) l)
  end.

(** Shares of another lineage than the assets make the fundamentals missing. *)
Definition shares_lineage (s : SharesObservation) : string * string * string :=
  (sh_entity s, sh_currency s, sh_consolidation s).
Definition bind_shares (i : FactorInput) (ttm : option TtmFundamentals) : option TtmFundamentals :=
  t ← ttm; anchor ← head (ttm_facts t);
  if bool_decide (shares_lineage (fi_shares i) = lineage anchor) then Some t else None.

(** The body of the loop over the inputs, for one security. *)
Definition evaluate_input (i : FactorInput) : outcome evaluated :=
  let close_missing refs reason := v ← missing_vector i refs reason; Ok (Closed v) in
  refs ← source_refs_at i as_of known;
  match eligible_by_id u !! fi_security_id i with
  | None => close_missing refs "security is not an eligible member of the universe"
  | Some e =>
      if negb (bool_decide (ue_symbol e = fi_symbol i))
      then close_missing refs "security is not an eligible member of the universe"
      else
        closes ← adjusted_closes (fi_closes i) (fi_splits i) as_of (fi_sessions i)
                   (Some (fi_security_id i)) (Some known);
        match closes with
        | None => close_missing refs "insufficient or unordered session closes"
        | Some closes =>
            cal ← session_calendar (fi_sessions i);
            covered ← has_latest_session_coverage (sc_trading_date <$> closes) cal (utc_date as_of)
                        FACTOR_SESSION_WINDOW;
            if negb covered || (known <? sh_available_at (fi_shares i))
            then close_missing refs "insufficient or unordered session closes"
            else if match applied_split_available i with
                    | Some t => sh_available_at (fi_shares i) <? t
                    | None => false
                    end
            then close_missing refs "shares observation predates an applied split"
            else
              ttm ← assemble_ttm (fi_facts i) (sh_value (fi_shares i)) as_of (Some known);
              match raw_subfactors closes (bind_shares i ttm) (sc_close <$> last closes) with
              | None => close_missing refs "mandatory factor input missing or conflicting"
              | Some raw =>
                  Ok (Scored i raw (sc_trading_date <$> last_n FACTOR_SESSION_WINDOW closes) refs)
              end
        end
  end.

Definition vector_leb (a b : FeatureVector) : bool :=
  String.leb (fv_security_id a) (fv_security_id b).

Definition scored_raw (e : evaluated) : option (string * RawFactors) :=
  match e with Closed _ => None | Scored i raw _ _ => Some (fi_security_id i, raw) end.

Definition finish (scores : gmap string CategoryScores) (e : evaluated) : outcome FeatureVector :=
  match e with
  | Closed v => Ok v
  | Scored i raw dates refs =>
      match scores !! fi_security_id i with
      | Some s => complete_vector i raw dates refs s
      | None => raise EKeyError "security without a score"
      end
  end.

(** [build_feature_vectors], under the approved manifest *)
Definition build_feature_vectors (inputs : list FactorInput) : outcome (list FeatureVector) :=
  validate_universe_cutoff u as_of ≫= λ _,
  guard_that (un_known_at u <=? known) EValueError
    "universe is not visible at the feature-vector cutoff" ≫= λ _,
  guard_that (known <=? as_of) EValueError "known_at cannot be after as_of" ≫= λ _,
  let ids := fi_security_id <$> inputs in
  guard_that (bool_decide (NoDup ids)) EValueError "factor inputs must not repeat a security" ≫= λ _,
  (if (1 <? length inputs)%nat
   then merge_calendars ∅ inputs else Ok ∅) ≫= λ _,
  guard_that (bool_decide (list_to_set ids =@{gset string} dom (eligible_by_id u))) EValueError
    "factor inputs must cover exactly the eligible universe" ≫= λ _,
  evaluated ← mapM evaluate_input inputs;
  scores ← category_scores (list_to_map (omap scored_raw evaluated));
  vectors ← mapM (finish scores) evaluated;
  Ok (sort_by vector_leb vectors).
End build.
