(* ===== verification/Projection.v ===== *)
(** * SEC factor inputs from source records: [screening/funnel.py]

    [sec_factor_inputs_from_records] projects validated Company Facts records into
    quarterly facts and a shares observation.  A payload is given by its typed
    fields: the decimal its value text denotes and the days its dates denote;
    the payload's key set, the record digests and the private authorities are
    not modelled. *)

From S2P Require Import Prelude Dicts Text Orders Decimals Calendar Sources Factors.
Local Open Scope Z_scope.

Record CompanyFact := mk_CompanyFact {
  cf_cik : string;
  cf_taxonomy : string;
  cf_concept : string;
  cf_unit : string;
  cf_value : Decimal;
  cf_start : option Z;
  cf_end : Z;
  cf_fiscal_year : Z;
  cf_fiscal_period : string;
  cf_frame : option string;
  cf_scope : string;
  cf_sign_convention : option string;
}.

Record SecRecord := mk_SecRecord {
  sr_record_id : string;
  sr_family : P4SourceFamily;
  sr_endpoint_id : string;
  sr_available_at : option Z;
  sr_record_hash : string;
  sr_content_hash : string;
  sr_supersedes : option string;
  sr_payload : CompanyFact;
}.

(** [FundamentalConcept(f"{taxonomy}:{concept}")] *)
Definition concept_of_text (s : string) : option FundamentalConcept :=
  if decide (s = "us-gaap:NetIncomeLoss") then Some NET_INCOME_LOSS
  else if decide (s = "us-gaap:NetCashProvidedByUsedInOperatingActivities")
    then Some NET_CASH_OPERATING
  else if decide (s = "us-gaap:Assets") then Some ASSETS
  else if decide (s = "us-gaap:PaymentsToAcquirePropertyPlantAndEquipment") then Some CAPEX_PPE
  else if decide (s = "dei:EntityCommonStockSharesOutstanding") then Some SHARES_OUTSTANDING
  else None.
Definition payload_concept (p : CompanyFact) : outcome FundamentalConcept :=
  match concept_of_text (cf_taxonomy p +:+ ":" +:+ cf_concept p) with
  | Some c => Ok c
  | None => raise EValueError "SEC Company Fact concept is not approved"
  end.
Definition concept_value (c : FundamentalConcept) : string :=
  match c with
  | NET_INCOME_LOSS => "us-gaap:NetIncomeLoss"
  | NET_CASH_OPERATING => "us-gaap:NetCashProvidedByUsedInOperatingActivities"
  | ASSETS => "us-gaap:Assets"
  | CAPEX_PPE => "us-gaap:PaymentsToAcquirePropertyPlantAndEquipment"
  | SHARES_OUTSTANDING => "dei:EntityCommonStockSharesOutstanding"
  end.

(** The fiscal period of a payload: one of four quarters, or the full year. *)
Definition sec_period (s : string) : option (option Quarter) :=
  if decide (s = "Q1") then Some (Some Q1)
  else if decide (s = "Q2") then Some (Some Q2)
  else if decide (s = "Q3") then Some (Some Q3)
  else if decide (s = "Q4") then Some (Some Q4)
  else if decide (s = "FY") then Some None
  else None.
(** ["Q4" if fiscal_period == "FY" else fiscal_period] *)
Definition or_fourth (p : option Quarter) : Quarter := default Q4 p.

Definition record_ref (r : SecRecord) : SourceRef :=
  mk_SourceRef (sr_record_id r) (sr_family r) (sr_record_hash r).

Section project.
Context (identity : SecurityIdentityRecord) (known_at : Z).

(** Every record must be a visible Company Fact of the identity. *)
Definition check_record (r : SecRecord) : outcome unit :=
  guard_that (bool_decide (sr_family r = SEC_EDGAR) &&
              bool_decide (sr_endpoint_id r = "companyfacts")) EValueError
    "factor fundamentals require SEC Company Facts records" ≫= λ _,
  guard_that (match sr_available_at r with Some t => t <=? known_at | None => false end) EValueError
    "SEC Company Fact is not available by known_at" ≫= λ _,
  guard_that (bool_decide (Some (cf_cik (sr_payload r)) = id_cik identity) &&
              bool_decide (cf_scope (sr_payload r) = "entire_filing_entity")) EValueError
    "SEC Company Fact does not bind to the identity and entity scope" ≫= λ _,
  guard_that ((1900 <=? cf_fiscal_year (sr_payload r)) && (cf_fiscal_year (sr_payload r) <=? 2999))
    EValueError "SEC Company Fact fiscal year is invalid".

(** [_fact_values] *)
Definition fact_of (r : SecRecord) (period : FiscalPeriod) (q : Quarter) : outcome QuarterlyFact :=
  let p := sr_payload r in
  c ← payload_concept p;
  let f := mk_Fact c (cf_value p) (cf_end p) (cf_fiscal_year p) period (cf_unit p) (cf_cik p)
    (cf_scope p) (record_ref r) (default 0 (sr_available_at r)) (Some (id_security identity)) (Some q) in
  check_QuarterlyFact f ≫= λ _, Ok f.

Definition shares_of (r : SecRecord) : outcome SharesObservation :=
  let p := sr_payload r in
  let s := mk_Shares (cf_value p) (cf_cik p) "shares" (cf_scope p) (record_ref r)
    (default 0 (sr_available_at r)) (Some (id_security identity)) in
  check_SharesObservation s ≫= λ _, Ok s.

Definition group_key : Type := FundamentalConcept * string * string * Z * Z.

(** What the loop over the records collects. *)
Record projected := mk_Projected {
  pr_shares : list (Z * SharesObservation * SecRecord);
  pr_facts : list QuarterlyFact;
  pr_unframed : list (group_key * (option Quarter * SecRecord));
}.

Definition project_record (st : projected) (r : SecRecord) : outcome projected :=
  let p := sr_payload r in
  c ← payload_concept p;
  match sec_period (cf_fiscal_period p) with
  | None => raise EValueError "SEC fiscal period is outside the closed factor set"
  | Some period =>
      if decide (c = SHARES_OUTSTANDING) then
        guard_that (bool_decide (cf_start p = None) && bool_decide (cf_unit p = "shares")) EValueError
          "shares outstanding requires an instant shares fact" ≫= λ _,
        s ← shares_of r;
        Ok (mk_Projected (pr_shares st ++ [(cf_end p, s, r)]) (pr_facts st) (pr_unframed st))
      else
        guard_that (bool_decide (cf_unit p = "USD")) EValueError
          "fundamental factor records require the pinned USD unit" ≫= λ _,
        guard_that (negb (bool_decide (c = CAPEX_PPE) &&
                          (dec_ltb (cf_value p) dzero ||
                           negb (bool_decide (cf_sign_convention p =
                             Some "positive_cash_outflow_provider_value"))))) EValueError
          "CapEx requires the pinned positive-outflow convention" ≫= λ _,
        if decide (c = ASSETS) then
          guard_that (bool_decide (cf_start p = None)) EValueError
            "Assets requires an instant SEC fact" ≫= λ _,
          f ← fact_of r (Single (or_fourth period)) (or_fourth period);
          Ok (mk_Projected (pr_shares st) (pr_facts st ++ [f]) (pr_unframed st))
        else
          match cf_start p with
          | None => raise EValueError "flow fundamentals require an explicit fiscal start"
          | Some start =>
              match cf_frame p with
              | Some _ =>
                  match period with
                  | None => raise EValueError "annual flow facts cannot be represented as one quarter"
                  | Some q =>
                      f ← fact_of r (Single q) q;
                      Ok (mk_Projected (pr_shares st) (pr_facts st ++ [f]) (pr_unframed st))
                  end
              | None =>
                  Ok (mk_Projected (pr_shares st) (pr_facts st)
                        (pr_unframed st ++
                           [((c, cf_unit p, cf_cik p, cf_fiscal_year p, start), (period, r))]))
              end
          end
  end.

Fixpoint fold_outcome {A B} (f : B → A → outcome B) (b : B) (l : list A) : outcome B :=
  match l with [] => Ok b | x :: l => b ← f b x; fold_outcome f b l end.

(** One year-to-date cohort: the four quarters, their ends in order. *)
Definition cohort_facts (group : list (group_key * (option Quarter * SecRecord)))
    : outcome (list QuarterlyFact) :=
  match index_by (λ g, Some (or_fourth g.2.1)) [] group with
  | None => raise EValueError "unframed YTD cohort repeats a fiscal quarter"
  | Some by_quarter =>
      match mapM (λ q, assoc_get q by_quarter) all_quarters with
      | None => raise EValueError "unframed flow facts require a complete Q1-Q4 YTD cohort"
      | Some cohort =>
          let ends := (λ g, cf_end (sr_payload g.2.2)) <$> cohort in
          guard_that (bool_decide (ends = sort_by Z.leb ends)) EValueError
            "unframed YTD cohort period ends must strictly increase" ≫= λ _,
          mapM (λ '(q, g), fact_of g.2.2 YTD q) (zip all_quarters cohort)
      end
  end.

Definition shares_leb (a b : Z * SharesObservation * SecRecord) : bool :=
  (a.1.1 <? b.1.1) ||
  ((a.1.1 =? b.1.1) && (sh_available_at a.1.2 <=? sh_available_at b.1.2)).
Definition succeeds (a b : Z * SharesObservation * SecRecord) : bool :=
  (sh_available_at a.1.2 <? sh_available_at b.1.2) &&
  bool_decide (sr_supersedes b.2 = Some (sr_content_hash a.2)).
Fixpoint chain_ok (l : list (Z * SharesObservation * SecRecord)) : bool :=
  match l with
  | a :: ((b :: _) as l) => succeeds a b && chain_ok l
  | _ => true
  end.

(** The text of a fiscal period: "Q1".."Q4" or "YTD". *)
Definition period_text (p : FiscalPeriod) : string :=
  match p with
  | Single Q1 => "Q1" | Single Q2 => "Q2" | Single Q3 => "Q3" | Single Q4 => "Q4" | YTD => "YTD"
  end.
(** The order of the key [(concept, fiscal_year, period_end, fiscal_period,
    record_id)]. *)
Definition fact_leb (a b : QuarterlyFact) : bool :=
  let lex {T} `{EqDecision T} (lt : T → T → bool) (x y : T) (rest : bool) : bool :=
    lt x y || (bool_decide (x = y) && rest) in
  lex str_ltb (concept_value (qf_concept a)) (concept_value (qf_concept b))
    (lex Z.ltb (qf_fiscal_year a) (qf_fiscal_year b)
       (lex Z.ltb (qf_period_end a) (qf_period_end b)
          (lex str_ltb (period_text (qf_fiscal_period a)) (period_text (qf_fiscal_period b))
             (String.leb (ref_record_id (qf_source_ref a)) (ref_record_id (qf_source_ref b)))))).

(** [sec_factor_inputs_from_records] *)
Definition sec_factor_inputs (records : list SecRecord)
    : outcome (list QuarterlyFact * SharesObservation) :=
  guard_that (negb (match records with [] => true | _ => false end)) EValueError
    "SEC factor records require a non-empty exact tuple" ≫= λ _,
  guard_that (bool_decide (is_Some (id_cik identity))) EValueError
    "SEC factor records require an exact CIK-bound identity" ≫= λ _,
  guard_that (identity_known_at identity known_at && bool_decide (id_status identity = ACTIVE))
    EValueError "SEC factor identity is not active and visible at known_at" ≫= λ _,
  mapM check_record records ≫= λ _,
  st ← fold_outcome project_record (mk_Projected [] [] []) records;
  cohorts ← mapM cohort_facts (group_by fst (pr_unframed st));
  let facts := pr_facts st ++ concat cohorts in
  match last (sort_by shares_leb (pr_shares st)) with
  | None => raise EValueError "SEC factor records require shares outstanding"
  | Some latest =>
      let latest_period := filter (λ s, s.1.1 = latest.1.1) (sort_by shares_leb (pr_shares st)) in
      guard_that (chain_ok latest_period) EValueError
        "shares observations have an ambiguous latest authority" ≫= λ _,
      Ok (sort_by fact_leb facts, latest.1.2)
  end.
End project.
