(* ===== verification/Candidates.v ===== *)
(** * The candidate funnel: [screening/funnel.py], [screening/contracts.py],
    [screening/manifests.py]

    Quant top 100, evidence top 30 and the two focus lists, with the contracts of
    the candidate entries and of the frozen candidate set.  Digests are data
    ([digest] stands for the feature hash of a vector); private authorities are
    left out. *)

From S2P Require Import Prelude Text Orders Decimals Calendar Sources Actions Quarantine Universe Factors Scores Features.
Local Open Scope Z_scope.

(** ** Sectors *)

Inductive SicDivision := DIV_A | DIV_B | DIV_C | DIV_D | DIV_E | DIV_F | DIV_G | DIV_H | DIV_I | DIV_J
  | SECTOR_UNKNOWN.
#[global] Instance SicDivision_eq_dec : EqDecision SicDivision.
Proof. solve_decision. Defined.

Definition SIC_RANGES : list ((Z * Z) * SicDivision) :=
  [((1, 9), DIV_A); ((10, 14), DIV_B); ((15, 17), DIV_C); ((20, 39), DIV_D); ((40, 49), DIV_E);
   ((50, 51), DIV_F); ((52, 59), DIV_G); ((60, 67), DIV_H); ((70, 89), DIV_I); ((91, 97), DIV_J)].

(** [^[0-9]{3,4}$] *)
Definition sic_ok (s : string) : bool := fullmatch (m_seq (m_times is_digit 3) (m_upto is_digit 1)) s.
Definition digit_value (c : ascii) : Z := Z.of_nat (nat_of_ascii c) - 48.
Definition range_division (prefix : Z) : SicDivision :=
  match find (λ r, (r.1.1 <=? prefix) && (prefix <=? r.1.2)) SIC_RANGES with
  | Some r => r.2
  | None => SECTOR_UNKNOWN
  end.
(** [sic.zfill(4)] for a text of three or four digits. *)
Definition zfill4 (s : string) : string := if (String.length s =? 3)%nat then String "0" s else s.
Definition classify_sic (sic : option string) : SicDivision :=
  match sic with
  | None => SECTOR_UNKNOWN
  | Some s =>
      if negb (sic_ok s) then SECTOR_UNKNOWN
      else match zfill4 s with
           | String a (String b _) => range_division (digit_value a * 10 + digit_value b)
           | _ => SECTOR_UNKNOWN
           end
  end.

Record SectorAssignment := mk_Sector {
  sa_security_id : string;
  sa_cik : string;
  sa_sic : string;
  sa_division : SicDivision;
  sa_source_ref : SourceRef;
  sa_available_at : Z;
  sa_taxonomy_hash : string;
  sa_assignment_hash : string;
}.

Definition check_SectorAssignment (taxonomy : string) (a : SectorAssignment) : outcome unit :=
  guard_that (cik_ok (sa_cik a)) EValueError "cik must be ten digits" ≫= λ _,
  guard_that (sic_ok (sa_sic a)) EValueError "sic must be a 3- or 4-digit string" ≫= λ _,
  guard_that (bool_decide (ref_family (sa_source_ref a) = SEC_EDGAR)) EValueError
    "sector assignments require the SEC EDGAR authority" ≫= λ _,
  guard_that (bool_decide (sa_division a = classify_sic (Some (sa_sic a)))) EValueError
    "division does not match the approved SIC classification" ≫= λ _,
  guard_that (bool_decide (sa_taxonomy_hash a = taxonomy)) EValueError
    "taxonomy_hash must identify the approved sector manifest" ≫= λ _,
  guard_that (is_digest (sa_assignment_hash a)) EValueError "assignment_hash must be a SHA-256 digest".

(** ** Candidate entries *)

Inductive CandidateStage := QUANT | EVIDENCE | FOCUS_OPEN | FOCUS_CLOSE.
#[global] Instance CandidateStage_eq_dec : EqDecision CandidateStage.
Proof. solve_decision. Defined.

Definition QUANT_CAP : nat := 100.
Definition EVIDENCE_CAP : nat := 30.
Definition FOCUS_OPEN_CAP : nat := 12.
Definition FOCUS_CLOSE_CAP : nat := 5.

Record CandidateEntry := mk_Candidate {
  ce_security_id : string;
  ce_symbol : string;
  ce_scores : CategoryScores;
  ce_stage : CandidateStage;
  ce_feature_hash : string;
  ce_universe_hash : string;
  ce_quarantine_decision_hash : string;
  ce_sector_assignment_hash : option string;
  ce_evidence_source_refs : list SourceRef;
  ce_reasons : list ClosedReason;
}.

Definition evidence_family (f : P4SourceFamily) : bool :=
  match f with
  | ALPACA_ASSETS | ALPACA_CORPORATE_ACTIONS | SEC_EDGAR | ISSUER_IR | EXCHANGE_OFFICIAL => true
  | _ => false
  end.

(** The references an evidence-stage record may carry. *)
Definition check_evidence_refs (refs : list SourceRef) : outcome unit :=
  guard_that (bool_decide (NoDup (ref_record_id <$> refs))) EValueError
    "evidence_source_refs must use unique record identifiers" ≫= λ _,
  guard_that (bool_decide (refs = sort_by ref_leb refs)) EValueError
    "evidence_source_refs must use canonical order" ≫= λ _,
  guard_that (forallb (λ r, evidence_family (ref_family r)) refs) EValueError
    "evidence_source_refs must use an approved evidence authority".

Definition check_CandidateEntry (e : CandidateEntry) : outcome unit :=
  let quant := bool_decide (ce_stage e = QUANT) in
  guard_that (is_digest (ce_feature_hash e) && is_digest (ce_universe_hash e) &&
              is_digest (ce_quarantine_decision_hash e)) EValueError
    "candidate hashes must be SHA-256 digests" ≫= λ _,
  guard_that (digest_or_none (ce_sector_assignment_hash e)) EValueError
    "sector_assignment_hash must be a SHA-256 digest or None" ≫= λ _,
  guard_that (negb (quant && bool_decide (is_Some (ce_sector_assignment_hash e)))) EValueError
    "quant candidates cannot carry a sector-assignment reference" ≫= λ _,
  guard_that (quant || bool_decide (is_Some (ce_sector_assignment_hash e))) EValueError
    "non-quant candidates require a sector-assignment reference" ≫= λ _,
  guard_that (length (ce_evidence_source_refs e) <=? 64)%nat EValueError
    "evidence_source_refs require at most 64 SourceRef values" ≫= λ _,
  check_evidence_refs (ce_evidence_source_refs e) ≫= λ _,
  guard_that (negb (quant && negb (bool_decide (ce_evidence_source_refs e = [])))) EValueError
    "quant candidates cannot carry evidence source references" ≫= λ _,
  guard_that (quant || negb (bool_decide (ce_evidence_source_refs e = []))) EValueError
    "non-quant candidates require typed evidence source references" ≫= λ _,
  guard_that (bool_decide (NoDup (ce_reasons e))) EValueError "reasons must be unique" ≫= λ _,
  guard_that (bool_decide (ce_reasons e =
                sort_by (λ a b, reason_index a <=? reason_index b) (ce_reasons e))) EValueError
    "reasons must use the canonical order".

(** [_finalize_candidate_entry] *)
Definition make_CandidateEntry (e : CandidateEntry) : outcome CandidateEntry :=
  check_CandidateEntry e ≫= λ _, Ok e.

(** The key of the canonical order: the negated scores, then the identifier. *)
Definition score_key (s : CategoryScores) : list Decimal :=
  d_neg <$> [s_composite s; s_trend s; s_quality s; s_value s; s_low_risk s].
Fixpoint keys_leb (a b : list Decimal) (tie : bool) : bool :=
  match a, b with
  | x :: a, y :: b => dec_ltb x y || (dec_eqb x y && keys_leb a b tie)
  | _, _ => tie
  end.
Definition entry_leb (a b : CandidateEntry) : bool :=
  keys_leb (score_key (ce_scores a)) (score_key (ce_scores b))
    (String.leb (ce_security_id a) (ce_security_id b)).

Definition entry_ids (l : list CandidateEntry) : list string := ce_security_id <$> l.

(** [_validated_candidate_sequence]; entries with distinct identifiers are in
    canonical order when their identifiers are. *)
Definition validated_sequence (stage : CandidateStage) (l : list CandidateEntry)
    : outcome (list CandidateEntry) :=
  guard_that (bool_decide (NoDup (entry_ids l))) EValueError "must not repeat a security" ≫= λ _,
  guard_that (forallb (λ e, bool_decide (ce_stage e = stage)) l) EValueError
    "contains an entry from the wrong stage" ≫= λ _,
  guard_that (bool_decide (entry_ids l = entry_ids (sort_by entry_leb l))) EValueError
    "must use the canonical score order" ≫= λ _,
  Ok l.

(** ** Quant *)

Definition scores_eqb (a b : CategoryScores) : bool :=
  dec_eqb (s_trend a) (s_trend b) && dec_eqb (s_quality a) (s_quality b) &&
  dec_eqb (s_value a) (s_value b) && dec_eqb (s_low_risk a) (s_low_risk b) &&
  dec_eqb (s_composite a) (s_composite b).

(** [{raw.name: raw.value for raw in vector.raw if raw.value is not None}]; a
    complete vector has all nine. *)
Definition vector_raw (v : FeatureVector) : RawFactors := λ n,
  default dzero (r ← find (λ r, bool_decide (rf_name r = n)) (fv_raw v); rf_value r).
Definition is_complete (v : FeatureVector) : bool := bool_decide (fv_status v = COMPLETE).

Section quant.
Context (digest : FeatureVector → string) (approved : string) (u : UniverseSnapshot).

Definition complete_scores_match (expected : gmap string CategoryScores) (v : FeatureVector) : bool :=
  match fv_scores v, expected !! fv_security_id v with
  | Some s, Some e => scores_eqb s e
  | _, _ => false
  end.

(** The candidate of one complete vector. *)
Definition quant_entry (v : FeatureVector) : outcome (option CandidateEntry) :=
  match eligible_by_id u !! fv_security_id v with
  | None => raise EValueError "complete vector is not an eligible universe member"
  | Some ue =>
      guard_that (bool_decide (ue_symbol ue = fv_symbol v)) EValueError
        "complete vector is not an eligible universe member" ≫= λ _,
      match ue_quarantine_decision_hash ue with
      | None => raise EValueError "eligible universe members require a quarantine decision reference"
      | Some q =>
          match fv_scores v with
          | None => Ok None
          | Some s =>
              e ← make_CandidateEntry (mk_Candidate (fv_security_id v) (fv_symbol v) s QUANT (digest v)
                    (fv_universe_hash v) q None [] []);
              Ok (Some e)
          end
      end
  end.

Definition quant_candidates (vectors : list FeatureVector) : outcome (list CandidateEntry) :=
  let ids := fv_security_id <$> vectors in
  let complete := filter (λ v, is_complete v = true) vectors in
  guard_that (bool_decide (NoDup ids)) EValueError "vectors must not repeat a security" ≫= λ _,
  guard_that (bool_decide (list_to_set ids =@{gset string} dom (eligible_by_id u))) EValueError
    "feature vectors must cover exactly the eligible universe" ≫= λ _,
  guard_that (forallb (λ v, bool_decide (fv_manifest_hash v = approved)) complete) EValueError
    "complete vector uses a factor manifest other than the approved manifest" ≫= λ _,
  guard_that (forallb (λ v, bool_decide (fv_universe_hash v = un_hash u)) complete) EValueError
    "complete vector uses a different universe" ≫= λ _,
  guard_that (forallb (λ v, un_known_at u <=? fv_known_at v) complete) EValueError
    "complete vector predates the universe knowledge cutoff" ≫= λ _,
  expected ← category_scores (list_to_map ((λ v, (fv_security_id v, vector_raw v)) <$> complete));
  guard_that (forallb (complete_scores_match expected) complete) EValueError
    "complete vector scores must be recomputed from the approved raw factors" ≫= λ _,
  entries ← mapM quant_entry complete;
  Ok (take QUANT_CAP (sort_by entry_leb (omap id entries))).
End quant.

(** ** Evidence *)

Record EvidenceView := mk_View {
  ev_security_id : string;
  ev_authority_complete : bool;
  ev_evidence_fresh : bool;
  ev_evidence_conflict : bool;
  ev_prompt_injection_unresolved : bool;
  ev_quarantine_decision : QuarantineDecision;
  ev_source_refs : list SourceRef;
}.

Definition check_EvidenceView (v : EvidenceView) : outcome unit := check_evidence_refs (ev_source_refs v).

Section evidence.
Context (taxonomy : string) (u : UniverseSnapshot) (as_of : Z).
Context (assignments : gmap string SectorAssignment).
Context (identities : gmap string SecurityIdentityRecord).

(** The division of an assignment, unknown before it is available. *)
Definition sector_of (a : SectorAssignment) : SicDivision :=
  if (as_of <? sa_available_at a) || (un_known_at u <? sa_available_at a) then SECTOR_UNKNOWN
  else sa_division a.

(** What removes a quant candidate at the evidence stage. *)
Definition evidence_gates (v : EvidenceView) (e : CandidateEntry) : option SectorAssignment :=
  let sid := ce_security_id e in
  let q := ev_quarantine_decision v in
  a ← assignments !! sid;
  if bool_decide (sector_of a = SECTOR_UNKNOWN) then None
  else if negb (ev_authority_complete v) || negb (ev_evidence_fresh v) then None
  else if ev_evidence_conflict v || ev_prompt_injection_unresolved v then None
  else
    ue ← eligible_by_id u !! sid;
    i ← identities !! sid;
    if bool_decide (ue_symbol ue = ce_symbol e) &&
       bool_decide (ue_quarantine_decision_hash ue = Some (qd_hash q)) &&
       bool_decide (qd_security_id q = sid) && bool_decide (qd_symbol_as_of q = ce_symbol e) &&
       bool_decide (qd_outcome q = ELIGIBLE) && bool_decide (id_security i = sid) &&
       bool_decide (id_symbol i = ce_symbol e) && bool_decide (Some (id_hash i) = ue_identity_hash ue) &&
       bool_decide (id_status i = ACTIVE) && bool_decide (Some (sa_cik a) = id_cik i) &&
       answers_as_of i as_of (un_known_at u)
    then Some a else None.

Fixpoint keep_evidence (views : gmap string EvidenceView) (kept : nat) (l : list CandidateEntry)
    : outcome (list CandidateEntry) :=
  match l with
  | [] => Ok []
  | e :: l =>
      match views !! ce_security_id e ≫= λ v, a ← evidence_gates v e; Some (v, a) with
      | None => keep_evidence views kept l
      | Some (v, a) =>
          k ← make_CandidateEntry (mk_Candidate (ce_security_id e) (ce_symbol e) (ce_scores e) EVIDENCE
                (ce_feature_hash e) (ce_universe_hash e) (ce_quarantine_decision_hash e)
                (Some (sa_assignment_hash a)) (ev_source_refs v) []);
          if (EVIDENCE_CAP <=? S kept)%nat then Ok [k]
          else rest ← keep_evidence views (S kept) l; Ok (k :: rest)
      end
  end.

Definition evidence_candidates (quant : list CandidateEntry) (views : list EvidenceView)
    : outcome (list CandidateEntry) :=
  q ← validated_sequence QUANT quant;
  guard_that (bool_decide (NoDup (ev_security_id <$> views))) EValueError
    "evidence_views must not repeat a security" ≫= λ _,
  guard_that (forallb (λ v, bool_decide (ev_security_id v ∈ entry_ids q)) views) EValueError
    "evidence_views cannot introduce a security outside quant" ≫= λ _,
  validate_universe_cutoff u as_of ≫= λ _,
  guard_that (bool_decide (map_Forall (λ k i, id_security i = k) identities)) EValueError
    "identity_records mapping must bind exact identity records" ≫= λ _,
  guard_that (bool_decide (map_Forall (λ k a, sa_security_id a = k) assignments)) EValueError
    "sector assignment security id does not match its mapping key" ≫= λ _,
  guard_that (bool_decide (map_Forall (λ _ a, sa_taxonomy_hash a = taxonomy) assignments)) EValueError
    "sector assignment uses an unapproved taxonomy manifest" ≫= λ _,
  keep_evidence (list_to_map ((λ v, (ev_security_id v, v)) <$> views)) 0 q.
End evidence.

(** ** Focus *)

Definition with_stage (s : CandidateStage) (e : CandidateEntry) : CandidateEntry :=
  mk_Candidate (ce_security_id e) (ce_symbol e) (ce_scores e) s (ce_feature_hash e) (ce_universe_hash e)
    (ce_quarantine_decision_hash e) (ce_sector_assignment_hash e) (ce_evidence_source_refs e)
    (ce_reasons e).

(** [_expected_focus_from_evidence] *)
Definition expected_focus (evidence : list CandidateEntry) (stage : CandidateStage)
    : outcome (list CandidateEntry) :=
  guard_that (forallb (λ e, bool_decide (ce_stage e = EVIDENCE)) evidence) EValueError
    "focus evidence must contain EVIDENCE entries" ≫= λ _,
  match stage with
  | FOCUS_OPEN => Ok FOCUS_OPEN_CAP
  | FOCUS_CLOSE => Ok FOCUS_CLOSE_CAP
  | _ => raise EValueError "focus stage must be FOCUS_OPEN or FOCUS_CLOSE"
  end ≫= λ cap,
  mapM (λ e, make_CandidateEntry (with_stage stage e)) (take cap evidence).

Definition focus_stage (w : FocusWindow) : CandidateStage :=
  match w with OPEN_PLUS_60M => FOCUS_OPEN | CLOSE_MINUS_90M => FOCUS_CLOSE end.

Definition focus_candidates (evidence : list CandidateEntry) (w : FocusWindow)
    : outcome (list CandidateEntry) :=
  e ← validated_sequence EVIDENCE evidence; expected_focus e (focus_stage w).

(** ** The candidate set *)

Record CandidateSet := mk_Set {
  cs_as_of : Z;
  cs_known_at : Z;
  cs_universe_hash : string;
  cs_quant : list CandidateEntry;
  cs_evidence : list CandidateEntry;
  cs_focus_open : list CandidateEntry;
  cs_focus_close : list CandidateEntry;
  cs_policy_hash : string;
}.

Definition entry_eqb (a b : CandidateEntry) : bool :=
  bool_decide (ce_security_id a = ce_security_id b) && bool_decide (ce_symbol a = ce_symbol b) &&
  scores_eqb (ce_scores a) (ce_scores b) && bool_decide (ce_stage a = ce_stage b) &&
  bool_decide (ce_feature_hash a = ce_feature_hash b) &&
  bool_decide (ce_universe_hash a = ce_universe_hash b) &&
  bool_decide (ce_quarantine_decision_hash a = ce_quarantine_decision_hash b) &&
  bool_decide (ce_sector_assignment_hash a = ce_sector_assignment_hash b) &&
  bool_decide (ce_evidence_source_refs a = ce_evidence_source_refs b) &&
  bool_decide (ce_reasons a = ce_reasons b).
Fixpoint entries_eqb (a b : list CandidateEntry) : bool :=
  match a, b with
  | [], [] => true
  | x :: a, y :: b => entry_eqb x y && entries_eqb a b
  | _, _ => false
  end.

(** A child entry repeats its parent; a focus entry also its evidence. *)
Definition preserves_lineage (focus : bool) (parents : list CandidateEntry) (e : CandidateEntry) : bool :=
  match find (λ p, bool_decide (ce_security_id p = ce_security_id e)) parents with
  | None => false
  | Some p =>
      bool_decide (ce_symbol e = ce_symbol p) && scores_eqb (ce_scores e) (ce_scores p) &&
      bool_decide (ce_feature_hash e = ce_feature_hash p) &&
      bool_decide (ce_universe_hash e = ce_universe_hash p) &&
      bool_decide (ce_quarantine_decision_hash e = ce_quarantine_decision_hash p) &&
      (negb focus || (bool_decide (ce_evidence_source_refs e = ce_evidence_source_refs p) &&
                      bool_decide (ce_sector_assignment_hash e = ce_sector_assignment_hash p)))
  end.

(** [parent_order]: the position of an identifier in the parent stage. *)
Definition position (l : list CandidateEntry) (i : string) : nat :=
  default 0%nat (fst <$> list_find (λ e, ce_security_id e = i) l).
Definition in_parent_order (parents l : list CandidateEntry) : bool :=
  bool_decide (entry_ids l =
    sort_by (λ a b, (position parents a <=? position parents b)%nat) (entry_ids l)).

Definition check_stage (stage : CandidateStage) (l : list CandidateEntry)
    : outcome unit :=
  guard_that (forallb (λ e, bool_decide (ce_stage e = stage)) l) EValueError
    "contains an entry from the wrong stage" ≫= λ _,
  guard_that (bool_decide (NoDup (entry_ids l))) EValueError "must not repeat a security" ≫= λ _,
  guard_that (bool_decide (entry_ids l = entry_ids (sort_by entry_leb l))) EValueError
    "must use the canonical score order".

Definition check_child (focus : bool) (parents l : list CandidateEntry) : outcome unit :=
  guard_that (forallb (λ e, bool_decide (ce_security_id e ∈ entry_ids parents)) l) EValueError
    "must be a subset of its parent stage" ≫= λ _,
  guard_that (forallb (preserves_lineage focus parents) l) EValueError
    "must preserve parent identity and score lineage" ≫= λ _,
  guard_that (in_parent_order parents l) EValueError "must preserve parent stage order".

Definition check_focus (evidence l : list CandidateEntry) (stage : CandidateStage) : outcome unit :=
  expected ← expected_focus evidence stage;
  guard_that (entries_eqb l expected) EValueError "must equal the canonical evidence prefix".

Definition check_CandidateSet (s : CandidateSet) : outcome unit :=
  let stages := [cs_quant s; cs_evidence s; cs_focus_open s; cs_focus_close s] in
  guard_that (cs_known_at s <=? cs_as_of s) EValueError "known_at cannot be after as_of" ≫= λ _,
  guard_that (is_digest (cs_universe_hash s) && is_digest (cs_policy_hash s)) EValueError
    "candidate set hashes must be SHA-256 digests" ≫= λ _,
  guard_that ((length (cs_quant s) <=? QUANT_CAP)%nat && (length (cs_evidence s) <=? EVIDENCE_CAP)%nat &&
              (length (cs_focus_open s) <=? FOCUS_OPEN_CAP)%nat &&
              (length (cs_focus_close s) <=? FOCUS_CLOSE_CAP)%nat) EValueError
    "stages must be tuples of at most their cap of CandidateEntry values" ≫= λ _,
  guard_that (forallb (forallb (λ e, bool_decide (ce_universe_hash e = cs_universe_hash s))) stages)
    EValueError "candidate entry is bound to a different universe" ≫= λ _,
  check_stage QUANT (cs_quant s) ≫= λ _,
  check_stage EVIDENCE (cs_evidence s) ≫= λ _,
  check_stage FOCUS_OPEN (cs_focus_open s) ≫= λ _,
  check_stage FOCUS_CLOSE (cs_focus_close s) ≫= λ _,
  check_child false (cs_quant s) (cs_evidence s) ≫= λ _,
  check_child true (cs_evidence s) (cs_focus_open s) ≫= λ _,
  check_child true (cs_evidence s) (cs_focus_close s) ≫= λ _,
  check_focus (cs_evidence s) (cs_focus_open s) FOCUS_OPEN ≫= λ _,
  check_focus (cs_evidence s) (cs_focus_close s) FOCUS_CLOSE.

(** [build_candidate_set]: every score is copied from its complete vector. *)
Section candidate_set.
Context (digest : FeatureVector → string).

Definition copied_from (vectors : gmap string FeatureVector) (s : CandidateSet) (e : CandidateEntry)
    : bool :=
  match vectors !! ce_security_id e with
  | None => false
  | Some v =>
      is_complete v && bool_decide (fv_symbol v = ce_symbol e) &&
      bool_decide (digest v = ce_feature_hash e) &&
      bool_decide (fv_universe_hash v = ce_universe_hash e) && bool_decide (fv_as_of v = cs_as_of s) &&
      (fv_known_at v <=? cs_known_at s) &&
      match fv_scores v with Some sc => scores_eqb sc (ce_scores e) | None => false end
  end.

Definition build_candidate_set (vectors : list FeatureVector) (s : CandidateSet) : outcome CandidateSet :=
  guard_that (bool_decide (NoDup (fv_security_id <$> vectors))) EValueError
    "feature_vectors must not repeat a security" ≫= λ _,
  let by_id := list_to_map ((λ v, (fv_security_id v, v)) <$> vectors) in
  guard_that (forallb (copied_from by_id s)
                (cs_quant s ++ cs_evidence s ++ cs_focus_open s ++ cs_focus_close s)) EValueError
    "candidate score is not copied from its complete feature vector" ≫= λ _,
  check_CandidateSet s ≫= λ _, Ok s.
End candidate_set.
