(* ===== verification/ScreeningDemo.v ===== *)
(** * A small cross-section

    Two securities with a year of closes and the filings of one fiscal year, as
    inputs on which the screening definitions are evaluated. *)

From S2P Require Import Prelude Text Orders Decimals Calendar Sources Universe Factors Scores FactorFacts Features Projection.
Local Open Scope Z_scope.

Definition demo_day : Z := 20110.
Definition demo_as_of : Z := demo_day * DAY + 20 * HOUR.
Definition demo_universe_day : Z := 20090.

(** Weekdays are regular sessions from 14:30 to 21:00 UTC. *)
Definition demo_session (d : Z) : MarketSession :=
  if weekday d <? 5
  then mk_Session d REGULAR (Some (mk_Window (d * DAY + 14 * HOUR + 30 * MINUTE) (d * DAY + 21 * HOUR)))
  else mk_Session d CLOSED None.
Definition demo_sessions : list MarketSession := demo_session <$> seqZ (demo_day - 360) 361.

Definition demo_bars : SourceRef := mk_SourceRef "bars-1" ALPACA_HISTORICAL_BARS demo_hash.
Definition demo_closes (sid : string) (step : Z) : list SessionClose :=
  (λ d, mk_SessionClose d (dec_of_Z (if d `mod` step =? 0 then 200 else 100)) demo_bars (d * DAY + 22 * HOUR) (Some sid))
    <$> filter (λ d, weekday d < 5) (seqZ (demo_day - 360) 360).

Definition demo_identity (sid symbol cik : string) : SecurityIdentityRecord :=
  mk_Identity sid symbol NASDAQ US_EQUITY (mk_Validity 0 None) 0 ACTIVE
    [mk_SourceRef "identity-1" ALPACA_ASSETS demo_hash] "1.0.0" demo_hash (Some cik) None None.

(** Framed quarterly facts of 2024, the assets at the end of 2023, and shares. *)
Definition demo_payload (taxonomy concept unit cik : string) (v : Z) (start : option Z) (end_day year : Z)
    (period : string) (frame : option string) : CompanyFact :=
  mk_CompanyFact cik taxonomy concept unit (dec_of_Z v) start end_day year period frame
    "entire_filing_entity" (Some "positive_cash_outflow_provider_value").
Definition demo_record (id : string) (p : CompanyFact) : SecRecord :=
  mk_SecRecord id SEC_EDGAR "companyfacts" (Some (cf_end p * DAY)) demo_hash demo_hash None p.
Definition demo_flow (cik concept : string) (v : Z) : list SecRecord :=
  (λ '(q, d), demo_record ("flow-" +:+ q)
     (demo_payload "us-gaap" concept "USD" cik v (Some (d - 90)) d 2024 q (Some "CY2024")))
    <$> [("Q1", 19812); ("Q2", 19903); ("Q3", 19995); ("Q4", 20087)].
Definition demo_records (cik : string) (income : Z) : list SecRecord :=
  demo_flow cik "NetIncomeLoss" income ++
  demo_flow cik "NetCashProvidedByUsedInOperatingActivities" (income + 20) ++
  demo_flow cik "PaymentsToAcquirePropertyPlantAndEquipment" 20 ++
  ((λ '(q, d), demo_record ("assets-" +:+ q) (demo_payload "us-gaap" "Assets" "USD" cik 5000 None d 2024 q None))
    <$> [("Q1", 19812); ("Q2", 19903); ("Q3", 19995); ("Q4", 20087)]) ++
  [demo_record "assets-start" (demo_payload "us-gaap" "Assets" "USD" cik 4800 None 19721 2023 "FY" None);
   demo_record "shares" (demo_payload "dei" "EntityCommonStockSharesOutstanding" "shares" cik 1000 None
                           20087 2024 "FY" None)].

Definition demo_projection (sid symbol cik : string) (income : Z)
    : outcome (list QuarterlyFact * SharesObservation) :=
  sec_factor_inputs (demo_identity sid symbol cik) demo_as_of (demo_records cik income).

(** The input of a security; [unit] replaces the unit of the projected shares. *)
Definition demo_input (sid symbol cik : string) (income step : Z) (unit : string) : FactorInput :=
  match demo_projection sid symbol cik income with
  | Ok (facts, s) =>
      mk_Input sid symbol (demo_closes sid step) facts
        (mk_Shares (sh_value s) (sh_entity s) unit (sh_consolidation s) (sh_source_ref s)
           (sh_available_at s) (sh_security_id s))
        demo_sessions []
  | Raise _ =>
      mk_Input sid symbol [] [] (mk_Shares dzero "" "" "" demo_sec 0 None) [] []
  end.

Definition demo_entry (sid symbol : string) : UniverseEntry :=
  mk_Entry sid symbol true None (Some demo_hash) (Some ("p4b.securities.v1:" +:+ demo_hash))
    (Some demo_hash) (Some demo_hash) [].
Definition demo_universe : UniverseSnapshot :=
  mk_Universe demo_universe_day (demo_universe_day * DAY + HOUR) ("p4b.securities.v1:" +:+ demo_hash)
    [demo_hash] [demo_entry "00000001" "AAA"; demo_entry "00000002" "BBB"] demo_hash demo_hash.

Definition demo_inputs (unit : string) : list FactorInput :=
  [demo_input "00000002" "BBB" "0000000002" 100 3 unit; demo_input "00000001" "AAA" "0000000001" 200 5 unit].
Definition demo_vectors (unit : string) : outcome (list FeatureVector) :=
  build_feature_vectors demo_hash demo_universe demo_as_of demo_as_of (demo_inputs unit).
Definition vectors_of (o : outcome (list FeatureVector)) : list FeatureVector :=
  match o with Ok vs => vs | Raise _ => [] end.
Definition statuses (vs : list FeatureVector) : list (string * FactorStatus) :=
  (λ v, (fv_security_id v, fv_status v)) <$> vs.

(** The vectors of the two cross-sections: with the shares in the unit of the facts
    both securities are complete; with the unit that the projection gives, neither
    is. *)
Definition usd_vectors : list FeatureVector := Eval vm_compute in vectors_of (demo_vectors "USD").
Definition shares_vectors : list FeatureVector := Eval vm_compute in vectors_of (demo_vectors "shares").
Definition built_vectors (unit : string) (vs : list FeatureVector) : Prop :=
  build_feature_vectors demo_hash demo_universe demo_as_of demo_as_of (demo_inputs unit) = Ok vs.
Lemma demo_vectors_usd : built_vectors "USD" usd_vectors.
Proof. by vm_compute. Qed.
Lemma demo_vectors_shares : built_vectors "shares" shares_vectors.
Proof. by vm_compute. Qed.
Example demo_complete : statuses usd_vectors = [("00000001", COMPLETE); ("00000002", COMPLETE)].
Proof. by vm_compute. Qed.
Example demo_missing :
  statuses shares_vectors = [("00000001", FACTOR_INPUT_MISSING); ("00000002", FACTOR_INPUT_MISSING)].
Proof. by vm_compute. Qed.
