(* ===== verification/FeatureFacts.v ===== *)
(** * Properties of feature vectors

    A cross-section yields one checked vector per eligible security, in identifier
    order, whatever the order of the inputs; and the shares observation that
    the SEC projection builds never binds to its own facts. *)

From S2P Require Import Prelude Text Orders Decimals LedgerFacts Calendar Sources Universe Factors Scores ScoreFacts FactorFacts Features Projection ScreeningDemo.
From Stdlib Require Import QArith Lqa.
Local Open Scope Z_scope.

(** ** One calendar for all inputs *)

Definition sessions_agree (ref : gmap Z MarketSession) (l : list MarketSession) : Prop :=
  ∀ s s', s ∈ l → ref !! ms_trading_date s = Some s' ∨ s' ∈ l ∧ ms_trading_date s' = ms_trading_date s →
    s' = s.

Lemma merge_sessions_ok ref l : (∃ r, merge_sessions ref l = Ok r) ↔ sessions_agree ref l.
Proof.
  revert ref. induction l as [|s l IH]; intros ref; simpl.
  { split; [by intros _ s s' ?%elem_of_nil|by eexists]. }
  unfold merge_session. destruct (ref !! ms_trading_date s) as [seen|] eqn:Hs.
  - unfold guard_that, raise. case_bool_decide as Heq; simpl.
    + subst seen. rewrite IH. split; intros H x x' Hx Hx'.
      * apply elem_of_cons in Hx as [->|Hx].
        { destruct Hx' as [Hx'|[[->|Hx']%elem_of_cons Hd]]; [congruence|done|].
          symmetry. apply (H x'); [done|]. left. by rewrite Hd. }
        destruct Hx' as [Hx'|[[->|Hx']%elem_of_cons Hd]]; (apply H; [done|]); [by left| |by right].
        left. by rewrite <-Hd.
      * apply H; [by right|]. destruct Hx' as [?|[? ?]]; [by left|right; split; [by right|done]].
    + split; [by intros []|]. intros H. destruct Heq. apply (H s seen); [by left|by left].
  - simpl. rewrite IH. split; intros H x x' Hx Hx'.
    + apply elem_of_cons in Hx as [->|Hx].
      { destruct Hx' as [Hx'|[[->|Hx']%elem_of_cons Hd]]; [congruence|done|].
        symmetry. apply (H x'); [done|]. left. rewrite Hd. by rewrite lookup_insert_eq. }
      destruct (decide (ms_trading_date x = ms_trading_date s)) as [Hd|Hd].
      * assert (s = x) as -> by (apply H; [done|]; left; by rewrite Hd, lookup_insert_eq).
        destruct Hx' as [Hx'|[[->|Hx']%elem_of_cons Hd']]; [congruence|done|]. apply H; [done|]. by right.
      * destruct Hx' as [Hx'|[[->|Hx']%elem_of_cons Hd']]; [|congruence|]; (apply H; [done|]); [|by right].
        left. by rewrite lookup_insert_ne.
    + destruct (decide (ms_trading_date x = ms_trading_date s)) as [Hd|Hd].
      * rewrite Hd, lookup_insert_eq in Hx'. destruct Hx' as [Hx'|[Hx' Hd']]; simplify_eq.
        -- symmetry. apply (H x'); [by left|]. right. split; [by right|done].
        -- apply H; [by right|]. right. split; [by right|congruence].
      * rewrite lookup_insert_ne in Hx' by done. apply H; [by right|].
        destruct Hx' as [?|[? ?]]; [by left|right; split; [by right|done]].
Qed.

Lemma merge_sessions_app ref l k :
  merge_sessions ref (l ++ k) = merge_sessions ref l ≫= λ r, merge_sessions r k.
Proof.
  revert ref. induction l as [|s l IH]; intros ref; simpl; [done|].
  destruct (merge_session ref s); simpl; [apply IH|done].
Qed.

Lemma merge_calendars_ok ref inputs :
  (∃ r, merge_calendars ref inputs = Ok r) ↔
  (∀ i, i ∈ inputs → ∃ c, session_calendar (fi_sessions i) = Ok c) ∧
  ∃ r, merge_sessions ref (concat (fi_sessions <$> inputs)) = Ok r.
Proof.
  revert ref. induction inputs as [|i inputs IH]; intros ref.
  { simpl. split; [intros [r H]; split; [by intros i ?%elem_of_nil|by exists r]|by intros [_ H]]. }
  rewrite fmap_cons, concat_cons, merge_sessions_app. simpl.
  destruct (session_calendar (fi_sessions i)) as [c|e] eqn:Hc; simpl.
  2: { split; [by intros []|]. intros [H _]. destruct (H i ltac:(by left)) as [c H']. congruence. }
  destruct (merge_sessions ref (fi_sessions i)) as [r|e] eqn:Hr; simpl.
  2: { split; [by intros []|]. by intros [_ []]. }
  rewrite IH. split; intros [H1 H2]; (split; [|done]); intros j Hj.
  - apply elem_of_cons in Hj as [->|Hj]; [by exists c|auto].
  - apply H1. by right.
Qed.

Lemma merge_calendars_perm inputs inputs' r :
  inputs ≡ₚ inputs' → merge_calendars ∅ inputs = Ok r → ∃ r', merge_calendars ∅ inputs' = Ok r'.
Proof.
  intros Hp H. assert (H' : ∃ r, merge_calendars ∅ inputs = Ok r) by by exists r.
  rewrite merge_calendars_ok, merge_sessions_ok in H'. apply merge_calendars_ok. destruct H' as [H1 H2].
  split; [intros i Hi; apply H1; by rewrite Hp|]. apply merge_sessions_ok.
  assert (Hin : ∀ s, s ∈ concat (fi_sessions <$> inputs') → s ∈ concat (fi_sessions <$> inputs)).
  { intros s. rewrite !list_elem_of_In, !in_concat. intros (k & Hk & Hs). exists k. split; [|done].
    rewrite <-list_elem_of_In in *. by rewrite Hp. }
  intros s s' Hs Hs'. apply H2; [by apply Hin|]. destruct Hs' as [?|[? ?]]; [by left|right; auto].
Qed.

(** ** One input *)

Section build.
Context (approved : string) (u : UniverseSnapshot) (as_of known : Z).
Local Notation evaluate := (evaluate_input approved u as_of known).

Lemma make_FeatureVector_Ok v v' :
  make_FeatureVector approved v = Ok v' → v' = v ∧ check_FeatureVector approved v = Ok ().
Proof.
  unfold make_FeatureVector. intros (? & _ & H)%obind_Ok. apply obind_Ok in H as ([] & Hc & H).
  by injection H as <-.
Qed.

(** A closed input carries a missing vector; a scored one has its raw factors. *)
Inductive evaluates (i : FactorInput) : evaluated → Prop :=
  | evaluates_closed v refs reason :
      missing_vector approved u as_of known i refs reason = Ok v → evaluates i (Closed v)
  | evaluates_scored raw closes ttm refs ue :
      eligible_by_id u !! fi_security_id i = Some ue → ue_symbol ue = fi_symbol i →
      assemble_ttm (fi_facts i) (sh_value (fi_shares i)) as_of (Some known) = Ok ttm →
      raw_subfactors closes (bind_shares i ttm) (sc_close <$> last closes) = Some raw →
      evaluates i (Scored i raw (sc_trading_date <$> last_n FACTOR_SESSION_WINDOW closes) refs).

Lemma close_missing_evaluates i refs reason e :
  (v ← missing_vector approved u as_of known i refs reason; Ok (Closed v)) = Ok e → evaluates i e.
Proof. intros (v & Hv & H)%obind_Ok. injection H as <-. by eapply evaluates_closed. Qed.

Lemma evaluate_input_spec i e : evaluate i = Ok e → evaluates i e.
Proof.
  unfold evaluate_input. intros (refs & _ & H)%obind_Ok.
  destruct (eligible_by_id u !! fi_security_id i) as [ue|] eqn:Hue; [|by apply close_missing_evaluates in H].
  destruct (negb _) eqn:Hsym in H; [by apply close_missing_evaluates in H|].
  apply obind_Ok in H as ([closes|] & _ & H); [|by apply close_missing_evaluates in H].
  apply obind_Ok in H as (cal & _ & H). apply obind_Ok in H as (covered & _ & H).
  destruct (_ || _) in H; [by apply close_missing_evaluates in H|].
  destruct (match applied_split_available _ _ _ with Some _ => _ | None => _ end) in H;
    [by apply close_missing_evaluates in H|].
  apply obind_Ok in H as (ttm & Httm & H).
  destruct (raw_subfactors _ _ _) as [raw|] eqn:Hraw in H; [|by apply close_missing_evaluates in H].
  injection H as <-. apply negb_false_iff, bool_decide_eq_true in Hsym. by eapply evaluates_scored.
Qed.

Definition evaluated_id (e : evaluated) : string :=
  match e with Closed v => fv_security_id v | Scored i _ _ _ => fi_security_id i end.

Lemma evaluates_id i e : evaluates i e → evaluated_id e = fi_security_id i.
Proof.
  destruct 1 as [v refs reason H|]; [|done]. by apply make_FeatureVector_Ok in H as [-> _].
Qed.

Lemma evaluated_ids inputs es :
  mapM evaluate inputs = Ok es → evaluated_id <$> es = fi_security_id <$> inputs.
Proof.
  intros H%mapM_Ok. induction H as [|i e inputs es He _ IH]; [done|].
  rewrite !fmap_cons, IH. f_equal. by apply evaluates_id, evaluate_input_spec.
Qed.

Lemma scored_raw_id e p : scored_raw e = Some p → p.1 = evaluated_id e.
Proof. destruct e; simpl; intros ?; by simplify_eq/=. Qed.
Lemma scored_ids_NoDup es :
  NoDup (evaluated_id <$> es) → NoDup (omap scored_raw es).*1.
Proof.
  induction es as [|e es IH]; intros H; [constructor|]. rewrite fmap_cons in H.
  apply NoDup_cons in H as [Hn Hd]. simpl. destruct (scored_raw e) as [p|] eqn:Hp; [|auto].
  rewrite fmap_cons. constructor; [|auto]. rewrite (scored_raw_id _ _ Hp).
  contradict Hn. apply list_elem_of_fmap in Hn as (q & Hq & Hin).
  apply list_elem_of_omap in Hin as (e' & He' & Hq'). rewrite Hq, (scored_raw_id _ _ Hq').
  by apply list_elem_of_fmap_2.
Qed.

Lemma finish_id scores e v :
  finish approved u as_of known scores e = Ok v → fv_security_id v = evaluated_id e.
Proof.
  destruct e as [v'|i raw dates refs]; simpl; [intros H; by injection H as <-|].
  destruct (scores !! fi_security_id i) as [s|]; [|done].
  intros H%make_FeatureVector_Ok. by destruct H as [-> _].
Qed.
Lemma finish_ids scores es vs :
  mapM (finish approved u as_of known scores) es = Ok vs →
  fv_security_id <$> vs = evaluated_id <$> es.
Proof.
  intros H%mapM_Ok. induction H as [|e v es vs He _ IH]; [done|].
  rewrite !fmap_cons, IH. f_equal. by eapply finish_id.
Qed.

Lemma vector_leb_total a b : vector_leb a b = false → vector_leb b a = true.
Proof. apply str_leb_total. Qed.
Lemma vector_leb_trans a b c : vector_leb a b = true → vector_leb b c = true → vector_leb a c = true.
Proof. apply str_leb_trans. Qed.

(** The steps of a build that succeeds. *)
Record built (inputs : list FactorInput) (es : list evaluated) (sc : gmap string CategoryScores)
    (vs : list FeatureVector) : Prop := {
  bt_cutoff : validate_universe_cutoff u as_of = Ok ();
  bt_known : un_known_at u ≤ known ≤ as_of;
  bt_nodup : NoDup (fi_security_id <$> inputs);
  bt_calendar : (1 < length inputs)%nat → ∃ r, merge_calendars ∅ inputs = Ok r;
  bt_ids : list_to_set (fi_security_id <$> inputs) =@{gset string} dom (eligible_by_id u);
  bt_es : mapM evaluate inputs = Ok es;
  bt_scores : category_scores (list_to_map (omap scored_raw es)) = Ok sc;
  bt_vs : mapM (finish approved u as_of known sc) es = Ok vs;
}.

Lemma build_feature_vectors_Ok inputs vs :
  build_feature_vectors approved u as_of known inputs = Ok vs ↔
  ∃ es sc vs', built inputs es sc vs' ∧ vs = sort_by vector_leb vs'.
Proof.
  unfold build_feature_vectors. split.
  - intros ([] & H1 & H)%obind_Ok. apply obind_Ok in H as ([] & H2%guard_Ok & H).
    apply obind_Ok in H as ([] & H3%guard_Ok & H). apply obind_Ok in H as ([] & H4%guard_Ok & H).
    apply obind_Ok in H as (r & H5 & H). apply obind_Ok in H as ([] & H6%guard_Ok & H).
    apply obind_Ok in H as (es & H7 & H). apply obind_Ok in H as (sc & H8 & H).
    apply obind_Ok in H as (vs' & H9 & H). injection H as <-.
    apply bool_decide_eq_true in H4, H6. exists es, sc, vs'. split; [|done].
    split; try done; [lia|]. intros Hl%Nat.ltb_lt. rewrite Hl in H5. by exists r.
  - intros (es & sc & vs' & [H1 H2 H3 H4 H5 H6 H7 H8] & ->). rewrite H1. simpl.
    rewrite (proj2 (Z.leb_le _ _) (proj1 H2)), (proj2 (Z.leb_le _ _) (proj2 H2)). simpl.
    rewrite bool_decide_true by done. simpl.
    destruct (1 <? length inputs)%nat eqn:Hl; [apply Nat.ltb_lt, H4 in Hl as [r ->]|]; simpl;
      rewrite bool_decide_true by done; simpl; rewrite H6; simpl; rewrite H7; simpl; by rewrite H8.
Qed.

(** The order in which the inputs come never decides a feature vector: whatever
    a build yields, it yields for every reordering of its inputs. *)
Theorem build_feature_vectors_order_free inputs inputs' vs :
  inputs ≡ₚ inputs' → build_feature_vectors approved u as_of known inputs = Ok vs →
  build_feature_vectors approved u as_of known inputs' = Ok vs.
Proof.
  intros Hp. rewrite !build_feature_vectors_Ok.
  intros (es & sc & vs' & [H1 H2 H3 H4 H5 H6 H7 H8] & ->).
  destruct (mapM_Ok_perm _ _ _ _ Hp H6) as (es' & H6' & Hes).
  assert (Hids : NoDup (evaluated_id <$> es)) by by rewrite (evaluated_ids _ _ H6).
  assert (Hmap : list_to_map (omap scored_raw es) =@{gmap string RawFactors}
                 list_to_map (omap scored_raw es')).
  { apply list_to_map_proper; [by apply scored_ids_NoDup|]. by apply omap_Permutation. }
  destruct (mapM_Ok_perm _ _ _ _ Hes H8) as (vs'' & H8' & Hvs).
  exists es', sc, vs''. split.
  - split; try done; [by rewrite <-Hp| |by rewrite <-Hp|by rewrite <-Hmap].
    intros Hl. rewrite <-(Permutation_length Hp) in Hl. apply H4 in Hl as [r Hr].
    by eapply merge_calendars_perm.
  - apply sort_by_unique; [apply vector_leb_total|apply vector_leb_trans| |done].
    intros x y Hx Hy Hxy Hyx. apply (NoDup_fmap_inj_on fv_security_id vs'); try done.
    + by rewrite (finish_ids _ _ _ H8).
    + by apply str_leb_antisym.
Qed.
End build.

(** ** What a build yields *)

Lemma check_UniverseSnapshot_size u :
  check_UniverseSnapshot u = Ok () → Z.of_nat (length (un_entries u)) ≤ MAX_UNIVERSE_SNAPSHOT_ITEMS.
Proof.
  unfold check_UniverseSnapshot. intros H. do 5 (apply obind_Ok in H as ([] & _ & H)).
  apply obind_Ok in H as ([] & Hl%guard_Ok & _). lia.
Qed.

Lemma size_list_to_map_le {A} (l : list (string * A)) :
  (size (list_to_map l : gmap string A) ≤ length l)%nat.
Proof.
  induction l as [|[i x] l IH]; [done|]. simpl.
  destruct ((list_to_map l : gmap string A) !! i) as [y|] eqn:Hi.
  - rewrite map_size_insert_Some by by eexists. lia.
  - rewrite map_size_insert_None by done. lia.
Qed.
Lemma length_omap_le {A B} (f : A → option B) (l : list A) : (length (omap f l) ≤ length l)%nat.
Proof.
  induction l as [|x l IH]; [done|]. cbn. destruct (f x); rewrite ?length_cons; lia.
Qed.

Lemma eligible_size u : (size (eligible_by_id u) ≤ length (un_entries u))%nat.
Proof.
  unfold eligible_by_id. etrans; [apply size_list_to_map_le|].
  rewrite length_reverse, length_fmap. apply length_filter.
Qed.

Section sound.
Context (approved : string) (u : UniverseSnapshot) (as_of known : Z).

Lemma built_length inputs es sc vs :
  built approved u as_of known inputs es sc vs → (length inputs ≤ length (un_entries u))%nat.
Proof.
  intros [_ _ Hnd _ Hids _ _ _]. rewrite <-(length_fmap fi_security_id inputs).
  rewrite <-(size_list_to_set (C := gset string) _ Hnd), Hids, size_dom. apply eligible_size.
Qed.

(** A vector of a build: checked, of this cutoff and universe, and either missing
    or complete with the scores of its security. *)
Definition vector_ok (sc : gmap string CategoryScores) (v : FeatureVector) : Prop :=
  check_FeatureVector approved v = Ok () ∧ fv_as_of v = as_of ∧ fv_known_at v = known ∧
  fv_universe_hash v = un_hash u ∧
  (fv_status v = FACTOR_INPUT_MISSING ∧ sc !! fv_security_id v = None ∨
   fv_status v = COMPLETE ∧ fv_scores v = sc !! fv_security_id v ∧ is_Some (sc !! fv_security_id v)).

Lemma finish_vector_ok inputs es sc vs v :
  built approved u as_of known inputs es sc vs → v ∈ vs → vector_ok sc v.
Proof.
  intros [_ _ Hnd _ _ Hes Hsc Hvs] Hv. destruct (mapM_Ok_elem _ _ _ _ Hvs Hv) as (e & He & Hf).
  destruct (mapM_Ok_elem _ _ _ _ Hes He) as (i & Hi & Hev).
  apply evaluate_input_spec in Hev. pose proof (evaluated_ids _ _ _ _ _ _ Hes) as Hids.
  rewrite <-Hids in Hnd. destruct (category_scores_value (list_to_map (omap scored_raw es)))
    as (sc' & Hsc' & Hval). rewrite Hsc in Hsc'. injection Hsc' as <-.
  destruct Hev as [v' refs reason Hm|raw closes ttm refs ue _ _ _ _].
  - injection Hf as <-. apply make_FeatureVector_Ok in Hm as [-> Hc]. split_and!; try done.
    left. split; [done|]. simpl. rewrite Hval, fmap_None. apply not_elem_of_list_to_map_1.
    intros (p & Hp & (e' & He' & Hs)%list_elem_of_omap)%list_elem_of_fmap.
    match type of He with Closed ?v ∈ _ => assert (Heq : e' = Closed v) end.
    { eapply (NoDup_fmap_inj_on evaluated_id es); [done|done|exact He|].
      by rewrite <-(scored_raw_id _ _ Hs), <-Hp. }
    by rewrite Heq in Hs.
  - simpl in Hf. destruct (sc !! fi_security_id i) as [s|] eqn:Hs; [|done].
    apply make_FeatureVector_Ok in Hf as [-> Hc]. split_and!; try done. right. simpl. by rewrite Hs.
Qed.

(** C27. A build from a valid universe yields exactly one vector per eligible security,
    in strict identifier order; each is consistent (a complete one has all nine
    raw values, its five scores and 252 price sessions, a missing one has a
    reason and no score), and every score lies in [0, 1]. *)
Theorem build_feature_vectors_sound inputs vs :
  check_UniverseSnapshot u = Ok () →
  build_feature_vectors approved u as_of known inputs = Ok vs →
  StronglySorted (λ a b, str_ltb (fv_security_id a) (fv_security_id b) = true) vs ∧
  (∀ sid, sid ∈ fv_security_id <$> vs ↔ is_Some (eligible_by_id u !! sid)) ∧
  un_known_at u ≤ known ≤ as_of ∧
  ∀ v, v ∈ vs → check_FeatureVector approved v = Ok () ∧ fv_as_of v = as_of ∧ fv_known_at v = known ∧
    (fv_status v = FACTOR_INPUT_MISSING ∨
     fv_status v = COMPLETE ∧ ∃ s, fv_scores v = Some s ∧ scores_unit s).
Proof.
  intros Hu Hb. apply build_feature_vectors_Ok in Hb as (es & sc & vs' & Hbt & ->).
  pose proof Hbt as [_ Hk Hnd _ Hids Hes Hsc Hvs].
  assert (Hvids : fv_security_id <$> vs' = fi_security_id <$> inputs)
    by by rewrite (finish_ids _ _ _ _ _ _ _ Hvs), (evaluated_ids _ _ _ _ _ _ Hes).
  assert (Hperm : fv_security_id <$> sort_by vector_leb vs' ≡ₚ fi_security_id <$> inputs).
  { rewrite <-Hvids. by apply fmap_Permutation, sort_by_perm. }
  split_and!; try done.
  - assert (Hs : StronglySorted (λ a b, vector_leb a b = true) (sort_by vector_leb vs'))
      by (apply sort_by_sorted; [apply vector_leb_total|apply vector_leb_trans]).
    assert (Hn : NoDup (fv_security_id <$> sort_by vector_leb vs')) by by rewrite Hperm.
    revert Hs Hn. generalize (sort_by vector_leb vs'). clear.
    induction 1 as [|v l _ IH Hl]; intros Hn; [constructor|]. rewrite fmap_cons in Hn.
    apply NoDup_cons in Hn as [Hv Hn]. constructor; [auto|]. rewrite Forall_forall in *. intros w Hw.
    apply str_ltb_spec. split; [by apply Hl|]. contradict Hv. rewrite Hv. by apply list_elem_of_fmap_2.
  - intros sid. rewrite Hperm, <-elem_of_dom, <-Hids. by rewrite elem_of_list_to_set.
  - lia.
  - lia.
  - intros v Hv. rewrite elem_of_sort_by in Hv.
    destruct (finish_vector_ok _ _ _ _ _ Hbt Hv) as (H1 & H2 & H3 & _ & H4). split_and!; try done.
    destruct H4 as [[? _]|(? & Hs & [s Hss])]; [by left|]. right. split; [done|]. exists s.
    rewrite Hs, Hss. split; [done|].
    destruct (category_scores_sound (list_to_map (omap scored_raw es))) as (sc' & Hsc' & _ & _ & Hunit & _).
    { pose proof (size_list_to_map_le (omap scored_raw es)). pose proof (length_omap_le scored_raw es).
      pose proof (check_UniverseSnapshot_size u Hu). pose proof (built_length _ _ _ _ Hbt).
      assert (length es = length inputs)
        by (apply mapM_Ok, Forall2_length in Hes; done).
      unfold MAX_UNIVERSE_SNAPSHOT_ITEMS in *. lia. }
    rewrite Hsc in Hsc'. injection Hsc' as <-. by eapply Hunit.
Qed.
End sound.

Lemma build_feature_vectors_order_free_witness :
  (demo_inputs "USD" ≡ₚ reverse (demo_inputs "USD") ∧
   built_vectors "USD" usd_vectors) ∧
  build_feature_vectors demo_hash demo_universe demo_as_of demo_as_of (reverse (demo_inputs "USD")) =
    Ok usd_vectors.
Proof.
  assert (Hp : demo_inputs "USD" ≡ₚ reverse (demo_inputs "USD")) by (symmetry; apply reverse_Permutation).
  split; [exact (conj Hp demo_vectors_usd)|].
  exact (build_feature_vectors_order_free demo_hash demo_universe demo_as_of demo_as_of _ _ _ Hp demo_vectors_usd).
Defined.

Lemma build_feature_vectors_sound_witness :
  (check_UniverseSnapshot demo_universe = Ok () ∧
   built_vectors "USD" usd_vectors) ∧
  (∀ v, v ∈ usd_vectors → check_FeatureVector demo_hash v = Ok ()).
Proof.
  assert (Hu : check_UniverseSnapshot demo_universe = Ok ()) by (vm_compute; reflexivity).
  split; [exact (conj Hu demo_vectors_usd)|].
  pose proof (build_feature_vectors_sound demo_hash demo_universe demo_as_of demo_as_of (demo_inputs "USD")
    usd_vectors Hu demo_vectors_usd) as H.
  intros v Hv. exact (proj1 (proj2 (proj2 (proj2 H)) v Hv)).
Defined.
