(* ===== verification/CandidateFacts.v ===== *)
(** * Properties of the candidate funnel

    The quant stage is the top of the canonical order whatever the order of the
    vectors; the evidence stage is the first thirty that pass every gate; and
    what the funnel yields is what the candidate set accepts. *)

From S2P Require Import Prelude Text Orders Decimals LedgerFacts Calendar Sources Universe Factors Scores ScoreFacts FactorFacts Features Projection Candidates ScreeningDemo FeatureFacts.
From Stdlib Require Import QArith Lqa.
Local Open Scope Z_scope.

(** ** The canonical order *)

Lemma keys_leb_total a b t t' :
  length a = length b → (t = false → t' = true) → keys_leb a b t = false → keys_leb b a t' = true.
Proof.
  revert b. induction a as [|x a IH]; intros [|y b] Hl Ht H; simpl in *; try done; [by apply Ht|].
  apply orb_false_iff in H as [H1 H2]. apply orb_true_iff.
  destruct (dec_ltb y x) eqn:Hyx; [by left|]. right. apply andb_true_iff.
  apply dec_ltb_false in H1, Hyx. assert (Heq : dec_eqb x y = true) by (apply dec_eqb_spec; lra).
  rewrite Heq in H2. split; [apply dec_eqb_spec; lra|]. apply IH; [lia|done|done].
Qed.

Lemma keys_leb_trans a b c t1 t2 t3 :
  length a = length b → length b = length c → (t1 = true → t2 = true → t3 = true) →
  keys_leb a b t1 = true → keys_leb b c t2 = true → keys_leb a c t3 = true.
Proof.
  revert b c. induction a as [|x a IH]; intros [|y b] [|z c] Hab Hbc Ht H1 H2; simpl in *; try done.
  { by apply Ht. }
  rewrite orb_true_iff, andb_true_iff, dec_ltb_spec, dec_eqb_spec in *.
  destruct H1 as [H1|[H1 K1]], H2 as [H2|[H2 K2]]; [left; lra|left; lra|left; lra|].
  right. split; [lra|]. eapply (IH b c); eauto; lia.
Qed.

Lemma keys_leb_antisym a b t t' :
  length a = length b → keys_leb a b t = true → keys_leb b a t' = true → t = true ∧ t' = true.
Proof.
  revert b. induction a as [|x a IH]; intros [|y b] Hl H1 H2; simpl in *; try done.
  rewrite orb_true_iff, andb_true_iff, dec_ltb_spec, dec_eqb_spec in *.
  destruct H1 as [H1|[H1 K1]], H2 as [H2|[H2 K2]]; try (exfalso; lra). apply (IH b); [lia|done|done].
Qed.

Lemma entry_leb_total a b : entry_leb a b = false → entry_leb b a = true.
Proof. apply keys_leb_total; [done|]. apply str_leb_total. Qed.
Lemma entry_leb_trans a b c : entry_leb a b = true → entry_leb b c = true → entry_leb a c = true.
Proof. apply keys_leb_trans; [done|done|]. apply str_leb_trans. Qed.
Lemma entry_leb_antisym a b :
  entry_leb a b = true → entry_leb b a = true → ce_security_id a = ce_security_id b.
Proof.
  assert (Hl : length (score_key (ce_scores a)) = length (score_key (ce_scores b))) by done.
  intros H1 H2. destruct (keys_leb_antisym _ _ _ _ Hl H1 H2). by apply str_leb_antisym.
Qed.

Definition canonical (l : list CandidateEntry) : Prop :=
  StronglySorted (λ a b, entry_leb a b = true) l ∧ NoDup (entry_ids l).

Lemma sort_entries_canonical l : NoDup (entry_ids l) → canonical (sort_by entry_leb l).
Proof.
  intros Hn. split; [apply sort_by_sorted; [apply entry_leb_total|apply entry_leb_trans]|].
  unfold entry_ids. by rewrite (fmap_Permutation _ _ _ (sort_by_perm entry_leb l)).
Qed.

Lemma sort_entries_perm l k :
  NoDup (entry_ids l) → l ≡ₚ k → sort_by entry_leb l = sort_by entry_leb k.
Proof.
  intros Hn Hp. apply sort_by_unique; [apply entry_leb_total|apply entry_leb_trans| |done].
  intros x y Hx Hy Hxy Hyx. apply (NoDup_fmap_inj_on ce_security_id l); try done.
  by apply entry_leb_antisym.
Qed.

Lemma canonical_sublist l k : l `sublist_of` k → canonical k → canonical l.
Proof.
  intros Hlk [Hs Hn]. split; [by eapply StronglySorted_sublist|].
  eapply sublist_NoDup; [exact Hn|]. by apply sublist_map.
Qed.
Lemma canonical_take n l : canonical l → canonical (take n l).
Proof. apply canonical_sublist, sublist_take. Qed.

(** ** Quant *)

Section quant.
Context (digest : FeatureVector → string) (approved : string) (u : UniverseSnapshot).

(** The candidate that a complete vector stands for. *)
Definition candidate_of_vector (v : FeatureVector) (e : CandidateEntry) : Prop :=
  is_complete v = true ∧ ce_security_id e = fv_security_id v ∧ ce_symbol e = fv_symbol v ∧
  fv_scores v = Some (ce_scores e) ∧ ce_stage e = QUANT ∧ ce_feature_hash e = digest v ∧
  ce_universe_hash e = fv_universe_hash v ∧ fv_universe_hash v = un_hash u.

Lemma quant_entry_spec v e :
  is_complete v = true → fv_universe_hash v = un_hash u → quant_entry digest u v = Ok (Some e) →
  candidate_of_vector v e.
Proof.
  intros Hc Hu. unfold quant_entry. destruct (eligible_by_id u !! _) as [ue|]; [|done].
  intros ([] & _ & H)%obind_Ok. destruct (ue_quarantine_decision_hash ue) as [q|]; [|done].
  destruct (fv_scores v) as [s|] eqn:Hs; [|done]. apply obind_Ok in H as (e' & He & H).
  injection H as ->. unfold make_CandidateEntry in He. apply obind_Ok in He as ([] & _ & He).
  injection He as <-. by repeat split.
Qed.

(** The steps of a quant stage that succeeds. *)
Record ranked_vectors (vectors : list FeatureVector) (entries : list (option CandidateEntry)) : Prop := {
  rk_nodup : NoDup (fv_security_id <$> vectors);
  rk_ids : list_to_set (fv_security_id <$> vectors) =@{gset string} dom (eligible_by_id u);
  rk_complete : ∀ v, v ∈ vectors → is_complete v = true →
    fv_manifest_hash v = approved ∧ fv_universe_hash v = un_hash u ∧ un_known_at u ≤ fv_known_at v;
  rk_scores : ∃ expected,
    category_scores (list_to_map ((λ v, (fv_security_id v, vector_raw v)) <$>
      filter (λ v, is_complete v = true) vectors)) = Ok expected ∧
    ∀ v, v ∈ vectors → is_complete v = true → complete_scores_match expected v = true;
  rk_entries : mapM (quant_entry digest u) (filter (λ v, is_complete v = true) vectors) = Ok entries;
}.

Lemma quant_candidates_Ok vectors q :
  quant_candidates digest approved u vectors = Ok q ↔
  ∃ entries, ranked_vectors vectors entries ∧ q = take QUANT_CAP (sort_by entry_leb (omap id entries)).
Proof.
  unfold quant_candidates. set (complete := filter _ vectors).
  assert (Hc : ∀ p : FeatureVector → bool, forallb p complete = true ↔
    ∀ v, v ∈ vectors → is_complete v = true → p v = true).
  { intros p. rewrite forallb_forall. split.
    - intros H v Hv Hcv. apply H, list_elem_of_In, list_elem_of_filter. done.
    - intros H v [Hcv Hv]%list_elem_of_In%list_elem_of_filter. by apply H. }
  split.
  - intros ([] & H1%guard_Ok%bool_decide_eq_true & H)%obind_Ok.
    apply obind_Ok in H as ([] & H2%guard_Ok%bool_decide_eq_true & H).
    apply obind_Ok in H as ([] & H3%guard_Ok & H). apply obind_Ok in H as ([] & H4%guard_Ok & H).
    apply obind_Ok in H as ([] & H5%guard_Ok & H). apply obind_Ok in H as (sc & H6 & H).
    apply obind_Ok in H as ([] & H7%guard_Ok & H). apply obind_Ok in H as (entries & H8 & H).
    injection H as <-. rewrite Hc in H3, H4, H5, H7. exists entries. split; [|done]. split; try done.
    + intros v Hv Hcv. split_and!; [by eapply bool_decide_eq_true, H3|by eapply bool_decide_eq_true, H4|].
      specialize (H5 v Hv Hcv). lia.
    + by exists sc.
  - intros (entries & [H1 H2 H3 (sc & H6 & H7) H8] & ->).
    rewrite bool_decide_true by done. simpl. rewrite bool_decide_true by done. simpl.
    assert (∀ p, (∀ v, v ∈ vectors → is_complete v = true → p v = true) → forallb p complete = true) as Hc'
      by (intros p; apply Hc).
    rewrite (Hc' (λ v, bool_decide (fv_manifest_hash v = approved))); simpl.
    2: { intros v Hv Hcv. by apply bool_decide_eq_true, H3. }
    rewrite (Hc' (λ v, bool_decide (fv_universe_hash v = un_hash u))); simpl.
    2: { intros v Hv Hcv. by apply bool_decide_eq_true, H3. }
    rewrite (Hc' (λ v, un_known_at u <=? fv_known_at v)); simpl.
    2: { intros v Hv Hcv. by apply Z.leb_le, H3. }
    fold complete in H6, H8. rewrite H6. simpl. rewrite (Hc' _ H7). simpl. by rewrite H8.
Qed.

Lemma ranked_candidates vectors entries :
  ranked_vectors vectors entries →
  Forall2 candidate_of_vector (filter (λ v, is_complete v = true) vectors) (omap id entries).
Proof.
  intros [_ _ H3 (sc & _ & H7) H8%mapM_Ok].
  assert (Hall : ∀ v, v ∈ filter (λ v, is_complete v = true) vectors →
    is_complete v = true ∧ fv_universe_hash v = un_hash u ∧ is_Some (fv_scores v)).
  { intros v [Hc Hv]%list_elem_of_filter. split_and!; [done|by apply H3|].
    specialize (H7 v Hv Hc). unfold complete_scores_match in H7. by destruct (fv_scores v). }
  revert Hall. induction H8 as [|v o vs os Ho _ IH]; intros Hall; [constructor|].
  destruct (Hall v ltac:(by left)) as (Hc & Hu & [s Hs]). destruct o as [e|].
  - simpl. constructor; [by apply quant_entry_spec|]. apply IH. intros w Hw. apply Hall. by right.
  - exfalso. unfold quant_entry in Ho. destruct (eligible_by_id u !! _) as [ue|]; [|done].
    apply obind_Ok in Ho as ([] & _ & Ho). destruct (ue_quarantine_decision_hash ue); [|done].
    rewrite Hs in Ho. by apply obind_Ok in Ho as (e & _ & Ho).
Qed.

Lemma candidate_ids vs es : Forall2 candidate_of_vector vs es → entry_ids es = fv_security_id <$> vs.
Proof.
  induction 1 as [|v e vs es (_ & He & _) _ IH]; [done|]. unfold entry_ids in *. by rewrite !fmap_cons, He, IH.
Qed.

Lemma ranked_ids_NoDup vectors entries : ranked_vectors vectors entries → NoDup (entry_ids (omap id entries)).
Proof.
  intros H. rewrite (candidate_ids _ _ (ranked_candidates _ _ H)). destruct H as [H _ _ _ _].
  eapply sublist_NoDup; [exact H|]. apply sublist_map, sublist_filter.
Qed.

(** C25. The quant stage is the top 100 of the complete vectors: its entries stand for
    complete vectors of this universe, in the canonical order without repetition,
    as many as there are up to the cap; a complete vector is left out only when
    the cap is reached by entries that all come before it; and any reordering of
    the vectors gives the same entries. *)
Theorem quant_candidates_top vectors q :
  quant_candidates digest approved u vectors = Ok q →
  canonical q ∧ length q = (QUANT_CAP `min` length (filter (λ v, is_complete v = true) vectors))%nat ∧
  (∀ e, e ∈ q → ∃ v, v ∈ vectors ∧ candidate_of_vector v e) ∧
  (∀ v, v ∈ vectors → is_complete v = true → fv_security_id v ∉ entry_ids q →
     length q = QUANT_CAP ∧ ∃ e', candidate_of_vector v e' ∧ ∀ e, e ∈ q → entry_leb e e' = true) ∧
  (∀ vectors', vectors ≡ₚ vectors' → quant_candidates digest approved u vectors' = Ok q).
Proof.
  rewrite quant_candidates_Ok. intros (entries & Hr & ->).
  pose proof (ranked_candidates _ _ Hr) as Hf. pose proof (ranked_ids_NoDup _ _ Hr) as Hn.
  set (es := omap id entries) in *. pose proof (sort_entries_canonical es Hn) as Hcan.
  split_and!; [by apply canonical_take| | | |].
  - by rewrite length_take, (Permutation_length (sort_by_perm entry_leb es)), (Forall2_length _ _ _ Hf).
  - intros e He. assert (e ∈ es) as Hin
      by (apply (elem_of_sort_by entry_leb); eapply sublist_elem; [apply sublist_take|done]).
    apply list_elem_of_lookup_1 in Hin as [i Hi]. destruct (Forall2_lookup_r _ _ _ _ _ Hf Hi) as (v & Hv & Hc).
    apply list_elem_of_lookup_2, list_elem_of_filter in Hv as [_ Hv]. by exists v.
  - intros v Hv Hc Hnot. assert (v ∈ filter (λ v, is_complete v = true) vectors) as Hin
      by (by apply list_elem_of_filter).
    apply list_elem_of_lookup_1 in Hin as [i Hi]. destruct (Forall2_lookup_l _ _ _ _ _ Hf Hi) as (e' & He' & Hce).
    assert (Hdrop : e' ∈ drop QUANT_CAP (sort_by entry_leb es)).
    { assert (e' ∈ sort_by entry_leb es) as H
        by (apply elem_of_sort_by; by eapply list_elem_of_lookup_2).
      rewrite <-(take_drop QUANT_CAP (sort_by entry_leb es)) in H. apply elem_of_app in H as [H|H]; [|done].
      destruct Hnot. destruct Hce as (_ & <- & _). by apply list_elem_of_fmap_2. }
    split.
    + apply list_elem_of_lookup_1 in Hdrop as [j Hj]. apply lookup_lt_Some in Hj.
      rewrite length_drop in Hj. rewrite length_take. lia.
    + exists e'. split; [done|]. intros e He. by eapply (StronglySorted_split _ _ _ _ _ (proj1 Hcan)).
  - intros vectors' Hp. apply quant_candidates_Ok. destruct Hr as [H1 H2 H3 (sc & H6 & H7) H8].
    assert (Hpf : filter (λ v, is_complete v = true) vectors ≡ₚ filter (λ v, is_complete v = true) vectors')
      by by rewrite Hp.
    destruct (mapM_Ok_perm _ _ _ _ Hpf H8) as (entries' & H8' & Hpe).
    exists entries'. split.
    + split; [by rewrite <-Hp|by rewrite <-Hp| | |done].
      * intros v Hv. apply H3. by rewrite Hp.
      * exists sc. split; [|intros v Hv; apply H7; by rewrite Hp]. rewrite <-H6. f_equal. symmetry.
        apply list_to_map_proper; [|by apply fmap_Permutation]. rewrite <-list_fmap_compose.
        eapply (sublist_NoDup _ (fv_security_id <$> vectors)); [exact H1|]. apply sublist_map, sublist_filter.
    + f_equal. apply sort_entries_perm; [done|]. by apply omap_Permutation.
Qed.
End quant.

Definition demo_quant : outcome (list CandidateEntry) :=
  quant_candidates (λ _, demo_hash) demo_hash demo_universe usd_vectors.
Definition candidates_of (o : outcome (list CandidateEntry)) : list CandidateEntry :=
  match o with Ok l => l | Raise _ => [] end.
Definition demo_quant_entries : list CandidateEntry := Eval vm_compute in candidates_of demo_quant.
Definition ranked_demo : Prop :=
  quant_candidates (λ _, demo_hash) demo_hash demo_universe usd_vectors =
    Ok demo_quant_entries.
Lemma demo_ranked : ranked_demo.
Proof. by vm_compute. Qed.

Lemma quant_candidates_top_witness :
  (ranked_demo ∧ entry_ids demo_quant_entries = ["00000001"; "00000002"]) ∧ canonical demo_quant_entries.
Proof.
  split; [split; [exact demo_ranked|by vm_compute]|].
  exact (proj1 (quant_candidates_top (λ _, demo_hash) demo_hash demo_universe usd_vectors
    demo_quant_entries demo_ranked)).
Defined.
