(* ===== verification/FunnelFacts.v ===== *)
(** * From features to the candidate set

    The evidence stage keeps the first thirty candidates that pass every gate,
    the focus lists are its prefixes, and the stages that the funnel derives from
    its feature vectors always form a candidate set. *)

From S2P Require Import Prelude Text Orders Decimals LedgerFacts Calendar Sources Actions Quarantine Universe Factors Scores ScoreFacts FactorFacts Features Projection Candidates ScreeningDemo FeatureFacts CandidateFacts.
From Stdlib Require Import QArith.
Local Open Scope Z_scope.

(** ** Children of a stage *)

(** A child entry has its parent's security, scores and hashes; a focus entry also
    its evidence and sector. *)
Record inherits (focus : bool) (p e : CandidateEntry) : Prop := {
  in_id : ce_security_id e = ce_security_id p;
  in_symbol : ce_symbol e = ce_symbol p;
  in_scores : ce_scores e = ce_scores p;
  in_feature : ce_feature_hash e = ce_feature_hash p;
  in_universe : ce_universe_hash e = ce_universe_hash p;
  in_quarantine : ce_quarantine_decision_hash e = ce_quarantine_decision_hash p;
  in_refs : focus = true → ce_evidence_source_refs e = ce_evidence_source_refs p;
  in_sector : focus = true → ce_sector_assignment_hash e = ce_sector_assignment_hash p;
}.
Definition child_of (focus : bool) (parents l : list CandidateEntry) : Prop :=
  ∃ sub, sub `sublist_of` parents ∧ Forall2 (inherits focus) sub l.

Lemma inherits_ids focus l k : Forall2 (inherits focus) l k → entry_ids k = entry_ids l.
Proof.
  induction 1 as [|p e l k H _ IH]; [done|]. unfold entry_ids in *. by rewrite !fmap_cons, (in_id _ _ _ H), IH.
Qed.
Lemma inherits_leb focus p p' e e' :
  inherits focus p e → inherits focus p' e' → entry_leb e e' = entry_leb p p'.
Proof.
  intros H H'. unfold entry_leb.
  by rewrite (in_id _ _ _ H), (in_id _ _ _ H'), (in_scores _ _ _ H), (in_scores _ _ _ H').
Qed.
Lemma inherits_canonical focus l k : Forall2 (inherits focus) l k → canonical l → canonical k.
Proof.
  intros Hlk [Hs Hn]. split; [|by rewrite (inherits_ids _ _ _ Hlk)]. clear Hn.
  induction Hlk as [|p e l k Hpe Hlk IH]; [constructor|]. inversion Hs as [|? ? Hs' Hp]; subst.
  constructor; [by apply IH|]. clear IH Hs Hs'. revert Hp.
  induction Hlk as [|p' e' l k Hpe' _ IH]; intros Hp; [constructor|]. inversion Hp; subst.
  constructor; [by rewrite (inherits_leb _ _ _ _ _ Hpe Hpe')|by apply IH].
Qed.
Lemma child_canonical focus parents l : child_of focus parents l → canonical parents → canonical l.
Proof.
  intros (sub & Hsub & Hf) Hp. eapply inherits_canonical; [exact Hf|]. by eapply canonical_sublist.
Qed.
Lemma child_elem focus parents l e :
  child_of focus parents l → e ∈ l → ∃ p, p ∈ parents ∧ inherits focus p e.
Proof.
  intros (sub & Hsub & Hf) He. apply list_elem_of_lookup_1 in He as [i Hi].
  destruct (Forall2_lookup_r _ _ _ _ _ Hf Hi) as (p & Hp & Hpe). exists p. split; [|done].
  eapply sublist_elem; [exact Hsub|]. by eapply list_elem_of_lookup_2.
Qed.

Lemma canonical_order l : canonical l → sort_by entry_leb l = l.
Proof. intros [Hs _]. by apply sort_by_sorted_id. Qed.

Lemma check_stage_ok st l :
  canonical l → (∀ e, e ∈ l → ce_stage e = st) → check_stage st l = Ok ().
Proof.
  intros Hc Hst. unfold check_stage.
  replace (forallb (λ e, bool_decide (ce_stage e = st)) l) with true.
  2: { symmetry. apply forallb_forall. intros e He. by apply bool_decide_eq_true, Hst, list_elem_of_In. }
  simpl. rewrite (bool_decide_true (NoDup (entry_ids l))) by apply Hc. simpl. rewrite canonical_order by done.
  by rewrite bool_decide_true.
Qed.

Lemma validated_sequence_ok st l :
  canonical l → (∀ e, e ∈ l → ce_stage e = st) → validated_sequence st l = Ok l.
Proof.
  intros Hc Hst. unfold validated_sequence. rewrite (bool_decide_true (NoDup (entry_ids l))) by apply Hc. simpl.
  replace (forallb (λ e, bool_decide (ce_stage e = st)) l) with true.
  2: { symmetry. apply forallb_forall. intros e He. by apply bool_decide_eq_true, Hst, list_elem_of_In. }
  simpl. rewrite canonical_order by done. by rewrite bool_decide_true.
Qed.

Lemma dec_eqb_refl d : dec_eqb d d = true.
Proof. by apply dec_eqb_spec. Qed.
Lemma scores_eqb_refl s : scores_eqb s s = true.
Proof. unfold scores_eqb. by rewrite !dec_eqb_refl. Qed.
Lemma entries_eqb_refl l : entries_eqb l l = true.
Proof.
  induction l as [|e l IH]; [done|]. simpl. rewrite IH. unfold entry_eqb.
  by rewrite scores_eqb_refl, !bool_decide_true by done.
Qed.

Lemma find_by_id l p :
  NoDup (entry_ids l) → p ∈ l → find (λ q, bool_decide (ce_security_id q = ce_security_id p)) l = Some p.
Proof.
  induction l as [|q l IH]; [by intros _ ?%elem_of_nil|]. unfold entry_ids. rewrite fmap_cons.
  intros [Hq Hn]%NoDup_cons [->|Hp]%elem_of_cons; simpl; [by rewrite bool_decide_true|].
  rewrite bool_decide_false; [by apply IH|]. intros Heq. apply Hq. rewrite Heq. by apply list_elem_of_fmap_2.
Qed.

(** *** Positions *)

Lemma position_head p l : position (p :: l) (ce_security_id p) = 0%nat.
Proof. unfold position. simpl. by destruct (decide _). Qed.
Lemma position_tail p l i :
  ce_security_id p ≠ i → i ∈ entry_ids l → position (p :: l) i = S (position l i).
Proof.
  intros Hp Hi. unfold position. simpl. destruct (decide _); [done|].
  destruct (list_find (λ e, ce_security_id e = i) l) as [[k e]|] eqn:Hf; [done|]. exfalso.
  apply list_elem_of_fmap in Hi as (e & -> & He). apply list_find_None in Hf.
  rewrite Forall_forall in Hf. by apply (Hf e).
Qed.
Lemma positions_sorted l :
  NoDup (entry_ids l) →
  StronglySorted (λ a b, (position l a <=? position l b)%nat = true) (entry_ids l).
Proof.
  induction l as [|p l IH]; [constructor|]. unfold entry_ids. rewrite fmap_cons.
  intros [Hp Hn]%NoDup_cons.
  assert (Hne : ∀ i, i ∈ entry_ids l → ce_security_id p ≠ i) by (intros i Hi Heq; apply Hp; by rewrite Heq).
  constructor.
  - specialize (IH Hn). fold (entry_ids l) in *. revert IH.
    assert (Hsub : ∀ i, i ∈ entry_ids l → i ∈ entry_ids l) by done. revert Hsub.
    generalize (entry_ids l) at 1 3 4. intros k Hsub. induction 1 as [|i k _ IHk Hi]; [constructor|].
    constructor; [apply IHk; intros j Hj; apply Hsub; by right|]. rewrite Forall_forall in *.
    intros j Hj. assert (i ∈ entry_ids l) by (apply Hsub; by left).
    assert (j ∈ entry_ids l) by (apply Hsub; by right). specialize (Hi j Hj). simpl in Hi.
    rewrite !position_tail; try (by apply Hne); done.
  - rewrite Forall_forall. intros i Hi. by rewrite position_head.
Qed.

Lemma check_child_ok focus parents l :
  canonical parents → child_of focus parents l → check_child focus parents l = Ok ().
Proof.
  intros [Hs Hn] Hchild. unfold check_child.
  replace (forallb (λ e, bool_decide (ce_security_id e ∈ entry_ids parents)) l) with true.
  2: { symmetry. apply forallb_forall. intros e He%list_elem_of_In.
       destruct (child_elem _ _ _ _ Hchild He) as (p & Hp & Hpe). apply bool_decide_eq_true.
       rewrite (in_id _ _ _ Hpe). by apply list_elem_of_fmap_2. }
  simpl. replace (forallb (preserves_lineage focus parents) l) with true.
  2: { symmetry. apply forallb_forall. intros e He%list_elem_of_In.
       destruct (child_elem _ _ _ _ Hchild He) as (p & Hp & [H1 H2 H3 H4 H5 H6 H7 H8]).
       unfold preserves_lineage. rewrite H1, find_by_id by done. rewrite H2, H3, H4, H5, H6.
       rewrite scores_eqb_refl, !bool_decide_true by done. destruct focus; [|done].
       by rewrite H7, H8, !bool_decide_true by done. }
  simpl. unfold in_parent_order. destruct Hchild as (sub & Hsub & Hf).
  rewrite sort_by_sorted_id; [by rewrite bool_decide_true|]. rewrite (inherits_ids _ _ _ Hf).
  eapply StronglySorted_sublist; [|by apply positions_sorted]. by apply sublist_map.
Qed.

(** ** Evidence *)

Section evidence.
Context (taxonomy : string) (u : UniverseSnapshot) (as_of : Z).
Context (assignments : gmap string SectorAssignment).
Context (identities : gmap string SecurityIdentityRecord).

Definition views_by_id (views : list EvidenceView) : gmap string EvidenceView :=
  list_to_map ((λ v, (ev_security_id v, v)) <$> views).
(** What the stage asks of a candidate with its view [v] and its assignment [a]: the
    sector is known, and was by the cutoff and by the universe; the evidence is authorised,
    fresh, and free of conflict and of unresolved injection; the universe has the security
    as an eligible entry [ue] of the candidate's symbol; the quarantine decision of the view
    is about this security and symbol, says ELIGIBLE and is the one of that entry; the
    identity record [i] is of this security and symbol, is the one of that entry, is
    active, has the issuer of the assignment, was available to the universe and is in
    force at the cutoff. *)
Record gated (v : EvidenceView) (a : SectorAssignment) (e : CandidateEntry)
    (ue : UniverseEntry) (i : SecurityIdentityRecord) : Prop := {
  ga_assignment : assignments !! ce_security_id e = Some a;
  ga_sector : sa_division a ≠ SECTOR_UNKNOWN;
  ga_available : sa_available_at a ≤ as_of ∧ sa_available_at a ≤ un_known_at u;
  ga_authority : ev_authority_complete v = true ∧ ev_evidence_fresh v = true;
  ga_conflict : ev_evidence_conflict v = false ∧ ev_prompt_injection_unresolved v = false;
  ga_entry : eligible_by_id u !! ce_security_id e = Some ue ∧ ue_symbol ue = ce_symbol e;
  ga_quarantine : qd_security_id (ev_quarantine_decision v) = ce_security_id e ∧
    qd_symbol_as_of (ev_quarantine_decision v) = ce_symbol e ∧ qd_outcome (ev_quarantine_decision v) = ELIGIBLE ∧
    ue_quarantine_decision_hash ue = Some (qd_hash (ev_quarantine_decision v));
  ga_identity : identities !! ce_security_id e = Some i ∧ id_security i = ce_security_id e ∧
    id_symbol i = ce_symbol e ∧ ue_identity_hash ue = Some (id_hash i);
  ga_issuer : id_status i = ACTIVE ∧ id_cik i = Some (sa_cik a);
  ga_current : id_available_at i ≤ un_known_at u ∧ valid_from (id_valid i) ≤ as_of ∧
    match valid_to (id_valid i) with Some t => as_of < t | None => True end;
}.

Lemma sector_of_known a : sector_of u as_of a ≠ SECTOR_UNKNOWN ↔
  sa_division a ≠ SECTOR_UNKNOWN ∧ sa_available_at a ≤ as_of ∧ sa_available_at a ≤ un_known_at u.
Proof.
  unfold sector_of. destruct (_ || _) eqn:Ho; [apply orb_true_iff in Ho|apply orb_false_iff in Ho].
  - split; [done|]. lia.
  - split; [|tauto]. intros ?. split; [done|]. lia.
Qed.
Lemma answers_as_of_spec i : answers_as_of i as_of (un_known_at u) = true ↔
  id_available_at i ≤ un_known_at u ∧ valid_from (id_valid i) ≤ as_of ∧
  match valid_to (id_valid i) with Some t => as_of < t | None => True end.
Proof.
  unfold answers_as_of, identity_known_at, identity_valid_at, interval_contains.
  rewrite !andb_true_iff, !Z.leb_le. destruct (Z.ltb_spec as_of (valid_from (id_valid i))); destruct (valid_to _); rewrite ?Z.ltb_lt; intuition (done || lia).
Qed.

(** The gates of the code are these. *)
Lemma evidence_gates_spec v e a :
  evidence_gates u as_of assignments identities v e = Some a ↔ ∃ ue i, gated v a e ue i.
Proof.
  unfold evidence_gates. split.
  - destruct (assignments !! _) as [a'|] eqn:Ha; [|done]. simpl.
    destruct (bool_decide (sector_of u as_of a' = _)) eqn:Hsec; [done|].
    destruct (negb (ev_authority_complete v) || _) eqn:Haf; [done|].
    destruct (ev_evidence_conflict v || _) eqn:Hci; [done|].
    destruct (eligible_by_id u !! _) as [ue|] eqn:Hue; [|done]. simpl.
    destruct (identities !! _) as [i|] eqn:Hi; [|done]. simpl.
    match goal with |- (if ?b then _ else _) = _ → _ => destruct b eqn:Hall; [|done] end. intros [= <-].
    rewrite !andb_true_iff, !bool_decide_eq_true, answers_as_of_spec in Hall.
    apply bool_decide_eq_false, sector_of_known in Hsec. rewrite orb_false_iff in Haf, Hci.
    rewrite !negb_false_iff in Haf. destruct_and!. exists ue, i. by split.
  - intros (ue & i & [H1 H2 H3 [-> ->] [-> ->] [-> H6] [H7 [H8 [H9 H10]]] [H11 [H12 [H13 H14]]] [H15 H16] H17]).
    rewrite H1. simpl. rewrite bool_decide_false by by apply sector_of_known. rewrite H11. simpl.
    apply answers_as_of_spec in H17. by rewrite H6, H7, H8, H9, H10, H12, H13, H14, H15, H16, H17, !bool_decide_true.
Qed.

(** A candidate that passes every gate with one of the views. *)
Definition passes_with (views : list EvidenceView) (p : CandidateEntry) (v : EvidenceView) (a : SectorAssignment)
    : Prop :=
  v ∈ views ∧ ev_security_id v = ce_security_id p ∧ ∃ ue i, gated v a p ue i.
Definition passes (views : list EvidenceView) (p : CandidateEntry) : Prop := ∃ v a, passes_with views p v a.

Definition passing (views : gmap string EvidenceView) (e : CandidateEntry)
    : option (EvidenceView * SectorAssignment) :=
  v ← views !! ce_security_id e; a ← evidence_gates u as_of assignments identities v e; Some (v, a).
Lemma passing_spec views e v a : NoDup (ev_security_id <$> views) →
  passing (views_by_id views) e = Some (v, a) ↔ passes_with views e v a.
Proof.
  intros Hn. unfold passing, passes_with. rewrite <-evidence_gates_spec.
  assert (Hv : ∀ w, views_by_id views !! ce_security_id e = Some w ↔ w ∈ views ∧ ev_security_id w = ce_security_id e).
  { intros w. unfold views_by_id. rewrite <-elem_of_list_to_map.
    - rewrite list_elem_of_fmap. split; [by intros (x & [= -> ->] & ?)|]. intros [? <-]. by exists w.
    - by rewrite <-list_fmap_compose. }
  destruct (views_by_id views !! _) as [w|]; simpl.
  - destruct (evidence_gates _ _ _ _ w e) as [a'|] eqn:Hg; simpl; specialize (Hv v); naive_solver.
  - specialize (Hv v). naive_solver.
Qed.
#[local] Instance passes_dec views p : Decision (passes views p).
Proof.
  destruct (decide (Exists (λ v, ev_security_id v = ce_security_id p ∧
    is_Some (evidence_gates u as_of assignments identities v p)) views)) as [H|H];
    rewrite Exists_exists in H; [left|right; intros (v & a & Hv & Hid & Hg); apply H; exists v].
  - destruct H as (v & Hv & Hid & a & Hg). exists v, a. split_and!; [done..|]. by apply evidence_gates_spec.
  - split_and!; [done..|]. exists a. by apply evidence_gates_spec.
Defined.

(** The evidence entry of a quant entry. *)
Definition evidence_of (views : list EvidenceView) (p e : CandidateEntry) : Prop :=
  inherits false p e ∧ ce_stage e = EVIDENCE ∧ check_CandidateEntry e = Ok () ∧
  ∃ v a, passes_with views p v a ∧ ce_evidence_source_refs e = ev_source_refs v ∧
    ce_sector_assignment_hash e = Some (sa_assignment_hash a).

Lemma keep_evidence_spec views n l r :
  NoDup (ev_security_id <$> views) → (n < EVIDENCE_CAP)%nat →
  keep_evidence u as_of assignments identities (views_by_id views) n l = Ok r →
  Forall2 (evidence_of views) (take (EVIDENCE_CAP - n) (filter (passes views) l)) r.
Proof.
  intros Hv. revert n r. induction l as [|e l IH]; intros n r Hn H.
  { injection H as <-. change (filter (passes views) []) with (@nil CandidateEntry). by rewrite take_nil. }
  cbn [keep_evidence] in H. fold (passing (views_by_id views) e) in H. rewrite filter_cons.
  destruct (passing (views_by_id views) e) as [[v a]|] eqn:Hp.
  - apply passing_spec in Hp; [|done]. destruct (decide (passes views e)) as [_|Hno]; [|destruct Hno; by exists v, a].
    apply obind_Ok in H as (k & Hk & H). unfold make_CandidateEntry in Hk.
    apply obind_Ok in Hk as ([] & Hck & Hk). injection Hk as <-.
    assert (He : evidence_of views e (mk_Candidate (ce_security_id e) (ce_symbol e) (ce_scores e) EVIDENCE
      (ce_feature_hash e) (ce_universe_hash e) (ce_quarantine_decision_hash e)
      (Some (sa_assignment_hash a)) (ev_source_refs v) [])).
    { split_and!; [by split|done|done|]. by exists v, a. }
    replace (EVIDENCE_CAP - n)%nat with (S (EVIDENCE_CAP - S n)) by lia. rewrite firstn_cons.
    destruct (Nat.leb_spec EVIDENCE_CAP (S n)) as [Hc|Hc].
    + injection H as <-. replace (EVIDENCE_CAP - S n)%nat with 0%nat by lia. by constructor.
    + apply obind_Ok in H as (rest & Hr & H). injection H as <-. constructor; [done|]. by apply IH.
  - destruct (decide (passes views e)) as [(v & a & Hx)|_]; [|by apply IH].
    apply passing_spec in Hx; [congruence|done].
Qed.

Record evidence_run (quant : list CandidateEntry) (views : list EvidenceView) (ev : list CandidateEntry)
    : Prop := {
  er_canonical : canonical quant;
  er_stage : ∀ e, e ∈ quant → ce_stage e = QUANT;
  er_nodup : NoDup (ev_security_id <$> views);
  er_views : ∀ v, v ∈ views → ev_security_id v ∈ entry_ids quant;
  er_kept : keep_evidence u as_of assignments identities (views_by_id views) 0 quant = Ok ev;
}.

Lemma entry_ids_sorted_canonical l :
  NoDup (entry_ids l) → entry_ids l = entry_ids (sort_by entry_leb l) → canonical l.
Proof.
  intros Hn Heq. assert (Hl : sort_by entry_leb l = l); [|rewrite <-Hl; by apply sort_entries_canonical].
  assert (Hp : sort_by entry_leb l ≡ₚ l) by apply sort_by_perm.
  apply list_eq. intros i. destruct (l !! i) as [x|] eqn:Hx.
  - assert (H : entry_ids (sort_by entry_leb l) !! i = Some (ce_security_id x))
      by (rewrite <-Heq; unfold entry_ids; by rewrite list_lookup_fmap, Hx).
    unfold entry_ids in H. rewrite list_lookup_fmap in H. apply fmap_Some in H as (y & Hy & Hid).
    rewrite Hy. f_equal. symmetry. apply (NoDup_fmap_inj_on ce_security_id l); try done.
    + by eapply list_elem_of_lookup_2.
    + rewrite <-Hp. by eapply list_elem_of_lookup_2.
  - apply lookup_ge_None in Hx. apply lookup_ge_None. by rewrite (Permutation_length Hp).
Qed.

Lemma evidence_candidates_Ok quant views ev :
  evidence_candidates taxonomy u as_of assignments identities quant views = Ok ev →
  evidence_run quant views ev.
Proof.
  unfold evidence_candidates, validated_sequence. intros (q & Hq & H)%obind_Ok.
  apply obind_Ok in Hq as ([] & H1%guard_Ok%bool_decide_eq_true & Hq).
  apply obind_Ok in Hq as ([] & H2%guard_Ok & Hq).
  apply obind_Ok in Hq as ([] & H3%guard_Ok%bool_decide_eq_true & Hq). injection Hq as <-.
  apply obind_Ok in H as ([] & H5%guard_Ok%bool_decide_eq_true & H). apply obind_Ok in H as ([] & H4%guard_Ok & H).
  apply obind_Ok in H as ([] & _ & H). apply obind_Ok in H as ([] & _ & H).
  apply obind_Ok in H as ([] & _ & H). apply obind_Ok in H as ([] & _ & H).
  split; [by apply entry_ids_sorted_canonical| |done| |done].
  - intros e He. rewrite forallb_forall in H2. eapply bool_decide_eq_true, H2. by apply list_elem_of_In.
  - intros v Hv. rewrite forallb_forall in H4. eapply bool_decide_eq_true, H4. by apply list_elem_of_In.
Qed.

Lemma evidence_run_kept quant views ev :
  evidence_run quant views ev →
  Forall2 (evidence_of views) (take EVIDENCE_CAP (filter (passes views) quant)) ev.
Proof. intros [_ _ Hv _ H%keep_evidence_spec]; [done|done|unfold EVIDENCE_CAP; lia]. Qed.

Lemma evidence_run_child quant views ev : evidence_run quant views ev → child_of false quant ev.
Proof.
  intros H%evidence_run_kept. eexists. split; [|eapply Forall2_impl; [exact H|by intros ?? [? _]]].
  etrans; [apply sublist_take|apply sublist_filter].
Qed.
Lemma evidence_run_entry quant views ev :
  evidence_run quant views ev → ∀ e, e ∈ ev → ce_stage e = EVIDENCE ∧ check_CandidateEntry e = Ok ().
Proof.
  intros H%evidence_run_kept e He. apply list_elem_of_lookup_1 in He as [i Hi].
  destruct (Forall2_lookup_r _ _ _ _ _ H Hi) as (p & _ & _ & Hst & Hc & _). done.
Qed.

(** C26. The evidence stage keeps exactly the first thirty quant candidates, in quant
    order, that pass every gate - the gates of [gated], each spelled out: the sector
    known when the cutoff and the universe allow it, the evidence authorised, fresh,
    without conflict or injection, an eligible entry of the universe with the symbol, the
    quarantine decision and the identity of the security, of its symbol and of that entry,
    eligible, active and current - and each kept entry repeats its candidate with the
    sources of its view and its sector assignment. So no kept entry failed a gate, and a
    candidate that passes is left out only behind thirty others. *)
Theorem evidence_keeps_first_passing quant views ev :
  evidence_candidates taxonomy u as_of assignments identities quant views = Ok ev →
  Forall2 (evidence_of views) (take EVIDENCE_CAP (filter (passes views) quant)) ev ∧
  canonical ev ∧ (length ev <= EVIDENCE_CAP)%nat ∧
  (∀ e, e ∈ ev → ∃ p v a ue i, p ∈ quant ∧ inherits false p e ∧ v ∈ views ∧
    ev_security_id v = ce_security_id e ∧ gated v a p ue i) ∧
  ∀ p v a ue i, p ∈ quant → v ∈ views → ev_security_id v = ce_security_id p → gated v a p ue i →
    ce_security_id p ∈ entry_ids ev ∨ length ev = EVIDENCE_CAP.
Proof.
  intros Hr%evidence_candidates_Ok. pose proof (evidence_run_kept _ _ _ Hr) as Hf.
  split_and!; [done| | | |].
  - eapply child_canonical; [by eapply evidence_run_child|apply Hr].
  - rewrite <-(Forall2_length _ _ _ Hf), length_take. lia.
  - intros e He. apply list_elem_of_lookup_1 in He as [i Hi].
    destruct (Forall2_lookup_r _ _ _ _ _ Hf Hi) as (p & Hp & Hin & _ & _ & v & a & (Hv & Hid & ue & j & Hg) & _).
    apply list_elem_of_lookup_2 in Hp. exists p, v, a, ue, j. rewrite (in_id _ _ _ Hin).
    split_and!; try done. eapply sublist_elem in Hp; [|apply sublist_take].
    by apply list_elem_of_filter in Hp as [_ Hp].
  - intros p v a ue i Hp Hv Hid Hg.
    assert (Hin : p ∈ filter (passes views) quant).
    { apply list_elem_of_filter. split; [|done]. exists v, a. split_and!; [done..|]. by exists ue, i. }
    pose proof (Forall2_length _ _ _ Hf) as Hlen. rewrite length_take in Hlen.
    destruct (Nat.le_gt_cases EVIDENCE_CAP (length (filter (passes views) quant))) as [Hle|Hgt];
      [right; rewrite <-Hlen; by apply Nat.min_l|left].
    rewrite take_ge in Hf by by apply Nat.lt_le_incl. apply list_elem_of_lookup_1 in Hin as [k Hk].
    destruct (Forall2_lookup_l _ _ _ _ _ Hf Hk) as (e & He & [Hin _]).
    rewrite <-(in_id _ _ _ Hin). apply list_elem_of_fmap_2. by eapply list_elem_of_lookup_2.
Qed.
End evidence.

(** ** Focus *)

Lemma check_with_stage st e :
  st ≠ QUANT → ce_stage e ≠ QUANT → check_CandidateEntry e = Ok () →
  check_CandidateEntry (with_stage st e) = Ok ().
Proof.
  intros H1 H2. unfold check_CandidateEntry. simpl.
  by rewrite (bool_decide_false (st = QUANT)), (bool_decide_false (ce_stage e = QUANT)) by done.
Qed.
Lemma with_stage_inherits st p : inherits true p (with_stage st p).
Proof. by split. Qed.

Definition focus_cap (w : FocusWindow) : nat :=
  match w with OPEN_PLUS_60M => FOCUS_OPEN_CAP | CLOSE_MINUS_90M => FOCUS_CLOSE_CAP end.
Definition focus_prefix (ev : list CandidateEntry) (w : FocusWindow) : list CandidateEntry :=
  with_stage (focus_stage w) <$> take (focus_cap w) ev.

(** Evidence entries that the funnel derived. *)
Record evidence_ok (ev : list CandidateEntry) : Prop := {
  eo_canonical : canonical ev;
  eo_stage : ∀ e, e ∈ ev → ce_stage e = EVIDENCE;
  eo_checked : ∀ e, e ∈ ev → check_CandidateEntry e = Ok ();
}.

Lemma expected_focus_ok ev w :
  evidence_ok ev → expected_focus ev (focus_stage w) = Ok (focus_prefix ev w).
Proof.
  intros [_ Hs Hc]. unfold expected_focus.
  replace (forallb _ ev) with true.
  2: { symmetry. apply forallb_forall. intros e He%list_elem_of_In. by apply bool_decide_eq_true, Hs. }
  assert (H : ∀ cap, mapM (λ e, make_CandidateEntry (with_stage (focus_stage w) e)) (take cap ev) =
    Ok (with_stage (focus_stage w) <$> take cap ev)).
  { intros cap. apply mapM_Ok_fmap. intros e He. assert (He' : e ∈ ev)
      by (eapply sublist_elem; [apply sublist_take|exact He]).
    unfold make_CandidateEntry. rewrite check_with_stage; [done|by destruct w|by rewrite Hs|by apply Hc]. }
  unfold focus_prefix. destruct w; simpl; apply H.
Qed.

Lemma focus_candidates_ok ev w : evidence_ok ev → focus_candidates ev w = Ok (focus_prefix ev w).
Proof.
  intros Hev. unfold focus_candidates.
  rewrite validated_sequence_ok; [|by apply Hev|by apply Hev]. by apply expected_focus_ok.
Qed.

Lemma focus_prefix_child ev w : child_of true ev (focus_prefix ev w).
Proof.
  exists (take (focus_cap w) ev). split; [apply sublist_take|]. unfold focus_prefix.
  apply Forall2_fmap_r, Forall_Forall2_diag, Forall_true. intros p. apply with_stage_inherits.
Qed.
Lemma focus_prefix_stage ev w e : e ∈ focus_prefix ev w → ce_stage e = focus_stage w.
Proof. by intros (p & -> & _)%list_elem_of_fmap. Qed.
Lemma focus_prefix_length ev w : (length (focus_prefix ev w) <= focus_cap w)%nat.
Proof. unfold focus_prefix. rewrite length_fmap, length_take. lia. Qed.

Lemma check_focus_ok ev w : evidence_ok ev → check_focus ev (focus_prefix ev w) (focus_stage w) = Ok ().
Proof. intros H. unfold check_focus. rewrite expected_focus_ok by done. simpl. by rewrite entries_eqb_refl. Qed.

(** ** The candidate set *)

(** Two child relations compose when the second is of evidence lineage. *)
Lemma inherits_weaken p e : inherits true p e → inherits false p e.
Proof. intros [? ? ? ? ? ? _ _]. by split. Qed.
Lemma child_field {A} (f : CandidateEntry → A) focus parents l (P : A → Prop) :
  (∀ p e, inherits focus p e → f e = f p) → child_of focus parents l →
  (∀ p, p ∈ parents → P (f p)) → ∀ e, e ∈ l → P (f e).
Proof.
  intros Hf Hc Hp e He. destruct (child_elem _ _ _ _ Hc He) as (p & Hin & Hi). rewrite (Hf _ _ Hi).
  by apply Hp.
Qed.

Section funnel.
Context (digest : FeatureVector → string) (approved : string) (u : UniverseSnapshot) (as_of known : Z).

(** What a stage entry copies from a vector of the build. *)
Definition copies (vs : list FeatureVector) (e : CandidateEntry) : Prop :=
  ∃ v, v ∈ vs ∧ candidate_of_vector digest u v e ∧ fv_as_of v = as_of ∧ fv_known_at v = known.

Record same_vector (p e : CandidateEntry) : Prop := {
  sv_id : ce_security_id e = ce_security_id p;
  sv_symbol : ce_symbol e = ce_symbol p;
  sv_scores : ce_scores e = ce_scores p;
  sv_feature : ce_feature_hash e = ce_feature_hash p;
  sv_universe : ce_universe_hash e = ce_universe_hash p;
}.

(** The candidate set of the funnel's stages. *)
Definition funnel_set (policy : string) (q ev : list CandidateEntry) : CandidateSet :=
  mk_Set as_of known (un_hash u) q ev (focus_prefix ev OPEN_PLUS_60M) (focus_prefix ev CLOSE_MINUS_90M)
    policy.

Definition stage_entries (policy : string) (q ev : list CandidateEntry) : list CandidateEntry :=
  let s := funnel_set policy q ev in cs_quant s ++ cs_evidence s ++ cs_focus_open s ++ cs_focus_close s.

Record stages_ok (vs : list FeatureVector) (q ev : list CandidateEntry) : Prop := {
  so_nodup : NoDup (fv_security_id <$> vs);
  so_copies : ∀ e, e ∈ q → copies vs e;
  so_quant : canonical q ∧ (∀ e, e ∈ q → ce_stage e = QUANT) ∧ (length q <= QUANT_CAP)%nat;
  so_child : child_of false q ev;
  so_evidence : evidence_ok ev ∧ (length ev <= EVIDENCE_CAP)%nat;
}.

Lemma inherits_same focus p e : inherits focus p e → same_vector p e.
Proof. intros [? ? ? ? ? ? _ _]. by split. Qed.
Lemma same_vector_trans p e f : same_vector p e → same_vector e f → same_vector p f.
Proof. intros [? ? ? ? ?] [? ? ? ? ?]. split; congruence. Qed.

Lemma stage_entry_parent vs q ev policy e :
  stages_ok vs q ev → e ∈ stage_entries policy q ev → ∃ p, p ∈ q ∧ same_vector p e.
Proof.
  intros [_ _ _ Hc _]. unfold stage_entries. simpl.
  assert (Hev : ∀ x, x ∈ ev → ∃ p, p ∈ q ∧ same_vector p x).
  { intros x Hx. destruct (child_elem _ _ _ _ Hc Hx) as (p & Hp & Hi). exists p.
    split; [done|]. by eapply inherits_same. }
  assert (Hfo : ∀ w x, x ∈ focus_prefix ev w → ∃ p, p ∈ q ∧ same_vector p x).
  { intros w x Hx. destruct (child_elem _ _ _ _ (focus_prefix_child ev w) Hx) as (y & Hy & Hi).
    destruct (Hev y Hy) as (p & Hp & Hs). exists p. split; [done|].
    eapply same_vector_trans; [exact Hs|]. by eapply inherits_same. }
  intros [He|[He|[He|He]%elem_of_app]%elem_of_app]%elem_of_app; eauto. by exists e.
Qed.

Lemma stage_entry_copied vs q ev policy e :
  stages_ok vs q ev → e ∈ stage_entries policy q ev →
  copied_from digest (list_to_map ((λ v, (fv_security_id v, v)) <$> vs)) (funnel_set policy q ev) e = true ∧
  ce_universe_hash e = un_hash u.
Proof.
  intros Hs He. destruct (stage_entry_parent _ _ _ _ _ Hs He) as (p & Hp & [H1 H2 H3 H4 H5]).
  destruct (so_copies _ _ _ Hs p Hp) as (v & Hv & (C1 & C2 & C3 & C4 & _ & C5 & C6 & C7) & Ha & Hk).
  split; [|congruence]. unfold copied_from. rewrite H1, C2.
  replace (list_to_map _ !! fv_security_id v) with (Some v).
  2: { symmetry. apply elem_of_list_to_map_1.
       - rewrite <-list_fmap_compose. apply Hs.
       - by apply (list_elem_of_fmap_2 (λ v, (fv_security_id v, v))). }
  rewrite C1, C4, H2, H3, H4, H5, C3, C5, C6, Ha, Hk. simpl.
  by rewrite !bool_decide_true, Z.leb_refl, scores_eqb_refl by done.
Qed.

Lemma stages_form_set vs q ev policy :
  is_digest (un_hash u) = true → is_digest policy = true → known ≤ as_of → stages_ok vs q ev →
  build_candidate_set digest vs (funnel_set policy q ev) = Ok (funnel_set policy q ev).
Proof.
  intros Hu Hpol Hk Hs. unfold build_candidate_set. rewrite bool_decide_true by apply Hs. simpl.
  assert (Hcopy : ∀ e, e ∈ stage_entries policy q ev → _) by (intros e; by apply stage_entry_copied).
  replace (forallb _ _) with true.
  2: { symmetry. apply forallb_forall. intros e He%list_elem_of_In. by apply Hcopy. }
  simpl. destruct Hs as [_ _ (Hq & Hqs & Hql) Hc (Hev & Hevl)].
  unfold check_CandidateSet. simpl. rewrite (proj2 (Z.leb_le _ _) Hk), Hu, Hpol. simpl.
  assert (Hlen : ∀ w, (length (focus_prefix ev w) <=? focus_cap w)%nat = true)
    by (intros w; apply Nat.leb_le, focus_prefix_length).
  pose proof (Hlen OPEN_PLUS_60M) as Ho. pose proof (Hlen CLOSE_MINUS_90M) as Hcl. simpl in Ho, Hcl.
  rewrite (proj2 (Nat.leb_le _ _) Hql), (proj2 (Nat.leb_le _ _) Hevl), Ho, Hcl. simpl.
  assert (Hall : ∀ l, (∀ e, e ∈ l → e ∈ stage_entries policy q ev) →
    forallb (λ e, bool_decide (ce_universe_hash e = un_hash u)) l = true).
  { intros l Hl. apply forallb_forall. intros e He%list_elem_of_In. by apply bool_decide_eq_true, Hcopy, Hl. }
  rewrite !Hall; [simpl|intros e He; unfold stage_entries; simpl; rewrite !elem_of_app; tauto..].
  rewrite (check_stage_ok QUANT) by done. simpl. rewrite (check_stage_ok EVIDENCE) by apply Hev. simpl.
  assert (Hfc : ∀ w, canonical (focus_prefix ev w))
    by (intros w; eapply child_canonical; [apply focus_prefix_child|apply Hev]).
  rewrite (check_stage_ok FOCUS_OPEN); [simpl|by apply Hfc|by intros e He%focus_prefix_stage].
  rewrite (check_stage_ok FOCUS_CLOSE); [simpl|by apply Hfc|by intros e He%focus_prefix_stage].
  rewrite (check_child_ok false) by done. simpl.
  rewrite !check_child_ok by (try apply Hev; try apply focus_prefix_child). simpl.
  pose proof (check_focus_ok ev OPEN_PLUS_60M Hev) as Fo.
  pose proof (check_focus_ok ev CLOSE_MINUS_90M Hev) as Fc. cbn [focus_stage] in Fo, Fc.
  by rewrite Fo, Fc.
Qed.
End funnel.

(** One view whose gates pass, one with stale evidence. *)
Definition demo_view (sid symbol : string) (fresh : bool) : EvidenceView :=
  mk_View sid true fresh false false (mk_Decision sid symbol "1" (demo_universe_day * DAY) ELIGIBLE [] [] [] demo_hash)
    [demo_sec].
Definition demo_views : list EvidenceView :=
  [demo_view "00000001" "AAA" true; demo_view "00000002" "BBB" false].
Definition demo_assignment (sid cik : string) : SectorAssignment :=
  mk_Sector sid cik "3571" DIV_D demo_sec 0 demo_hash demo_hash.
Definition demo_assignments : gmap string SectorAssignment :=
  {["00000001" := demo_assignment "00000001" "0000000001";
    "00000002" := demo_assignment "00000002" "0000000002"]}.
Definition demo_identities : gmap string SecurityIdentityRecord :=
  {["00000001" := demo_identity "00000001" "AAA" "0000000001";
    "00000002" := demo_identity "00000002" "BBB" "0000000002"]}.
Definition demo_evidence : outcome (list CandidateEntry) :=
  evidence_candidates demo_hash demo_universe demo_as_of demo_assignments demo_identities
    demo_quant_entries demo_views.
Definition demo_evidence_entries : list CandidateEntry := Eval vm_compute in candidates_of demo_evidence.
Definition gathered_demo : Prop :=
  evidence_candidates demo_hash demo_universe demo_as_of demo_assignments demo_identities
    demo_quant_entries demo_views = Ok demo_evidence_entries.
Lemma demo_gathered : gathered_demo.
Proof. by vm_compute. Qed.

Lemma evidence_keeps_first_passing_witness :
  (gathered_demo ∧ entry_ids demo_evidence_entries = ["00000001"]) ∧ canonical demo_evidence_entries ∧
  ∀ e, e ∈ demo_evidence_entries → ∃ p v a ue i, p ∈ demo_quant_entries ∧ inherits false p e ∧ v ∈ demo_views ∧
    ev_security_id v = ce_security_id e ∧
    gated demo_universe demo_as_of demo_assignments demo_identities v a p ue i.
Proof.
  destruct (evidence_keeps_first_passing demo_hash demo_universe demo_as_of demo_assignments
    demo_identities demo_quant_entries demo_views demo_evidence_entries demo_gathered) as (_ & Hc & _ & Hg & _).
  split; [split; [exact demo_gathered|by vm_compute]|]. split; [exact Hc|exact Hg].
Defined.
