(* ===== verification/PipelineFacts.v ===== *)
(** * The funnel never refuses its own work

    The quant stage accepts every cross-section of feature vectors that a build
    yields (the scores it recomputes are the scores they carry), and the stages
    that follow from it form a candidate set. *)

From S2P Require Import Prelude Text Orders Decimals LedgerFacts Calendar Sources Actions Quarantine Universe Factors Scores ScoreFacts FactorFacts Features Projection Candidates ScreeningDemo FeatureFacts CandidateFacts FunnelFacts.
From Stdlib Require Import QArith FunctionalExtensionality.
Local Open Scope Z_scope.

Lemma eligible_entry u sid ue :
  eligible_by_id u !! sid = Some ue → ue ∈ un_entries u ∧ ue_eligible ue = true.
Proof.
  unfold eligible_by_id. intros H%elem_of_list_to_map_2.
  apply elem_of_reverse, list_elem_of_fmap in H as (e & [= _ ->] & He).
  apply list_elem_of_filter in He as [He Hin]. done.
Qed.

Lemma eligible_quarantine ue :
  ue_eligible ue = true → check_UniverseEntry ue = Ok () →
  ∃ q, ue_quarantine_decision_hash ue = Some q ∧ is_digest q = true.
Proof.
  intros He H. unfold check_UniverseEntry in H. rewrite He in H.
  repeat (apply obind_Ok in H as ([] & ?%guard_Ok & H)).
  match goal with H : negb (true && bool_decide (_ = None)) = true |- _ =>
    apply negb_true_iff, bool_decide_eq_false in H end.
  destruct (ue_quarantine_decision_hash ue) as [q|]; [by exists q|done].
Qed.

Section total.
Context (digest : FeatureVector → string) (approved : string) (u : UniverseSnapshot) (as_of known : Z).
Hypothesis digest_ok : ∀ v, is_digest (digest v) = true.
Hypothesis entries_ok : ∀ e, e ∈ un_entries u → check_UniverseEntry e = Ok ().
Hypothesis universe_ok : check_UniverseSnapshot u = Ok ().
Local Notation complete := (filter (λ v, is_complete v = true)).
Local Notation row v := (fv_security_id v, vector_raw v).

Lemma universe_digest : is_digest (un_hash u) = true.
Proof.
  pose proof universe_ok as H. unfold check_UniverseSnapshot in H.
  repeat (apply obind_Ok in H as ([] & _ & H)). by apply guard_Ok in H.
Qed.

(** A scored security becomes a complete vector that carries its raw factors. *)
Lemma scored_vector sc i raw dates refs v :
  finish approved u as_of known sc (Scored i raw dates refs) = Ok v →
  is_complete v = true ∧ row v = (fi_security_id i, raw) ∧ fv_symbol v = fi_symbol i ∧
  fv_manifest_hash v = approved.
Proof.
  simpl. destruct (sc !! fi_security_id i) as [s|]; [|done].
  intros [-> _]%make_FeatureVector_Ok. split_and!; try done. simpl. f_equal.
  apply functional_extensionality. by intros [].
Qed.

Lemma closed_vector i v e :
  evaluates approved u as_of known i e → e = Closed v → is_complete v = false.
Proof. intros [v' refs reason [-> _]%make_FeatureVector_Ok|]; [|done]. by intros [= <-]. Qed.

Lemma complete_rows inputs es sc vs :
  built approved u as_of known inputs es sc vs →
  (λ v, row v) <$> complete vs = omap scored_raw es.
Proof.
  intros [_ _ _ _ _ Hes _ Hvs].
  assert (Hev : ∀ e, e ∈ es → ∃ i, evaluates approved u as_of known i e).
  { intros e He. destruct (mapM_Ok_elem _ _ _ _ Hes He) as (i & _ & Hi). exists i.
    by apply evaluate_input_spec. }
  apply mapM_Ok in Hvs. clear Hes. induction Hvs as [|e v es vs Hf _ IH]; [done|].
  assert (IH' := IH (λ x Hx, Hev x (list_elem_of_further _ _ _ Hx))). clear IH.
  destruct (Hev e ltac:(by left)) as (i & Hi). rewrite filter_cons. destruct e as [v'|j raw dates refs].
  - injection Hf as ->. rewrite (closed_vector _ _ _ Hi eq_refl). by rewrite decide_False.
  - destruct (scored_vector _ _ _ _ _ _ Hf) as (Hc & Hr & _). rewrite decide_True by done.
    rewrite fmap_cons, Hr, IH'. done.
Qed.

(** A complete vector is of an eligible security with its symbol. *)
Lemma complete_eligible inputs es sc vs v :
  built approved u as_of known inputs es sc vs → v ∈ vs → is_complete v = true →
  fv_manifest_hash v = approved ∧
  ∃ ue, eligible_by_id u !! fv_security_id v = Some ue ∧ ue_symbol ue = fv_symbol v.
Proof.
  intros [_ _ _ _ _ Hes _ Hvs] Hv Hc. destruct (mapM_Ok_elem _ _ _ _ Hvs Hv) as (e & He & Hf).
  destruct (mapM_Ok_elem _ _ _ _ Hes He) as (i & _ & Hi%evaluate_input_spec).
  destruct e as [v'|j raw dates refs].
  - injection Hf as ->. by rewrite (closed_vector _ _ _ Hi eq_refl) in Hc.
  - destruct (scored_vector _ _ _ _ _ _ Hf) as (_ & [= Hid _] & Hsym & Hm). split; [done|].
    inversion Hi; subst. rewrite Hid, Hsym. by eexists.
Qed.

Lemma quant_entry_ok v s ue :
  eligible_by_id u !! fv_security_id v = Some ue → ue_symbol ue = fv_symbol v → fv_scores v = Some s →
  is_digest (fv_universe_hash v) = true → ∃ e, quant_entry digest u v = Ok (Some e).
Proof.
  intros Hue Hsym Hs Hd. destruct (eligible_entry _ _ _ Hue) as [Hin He].
  destruct (eligible_quarantine ue He (entries_ok _ Hin)) as (q & Hq & Hqd).
  unfold quant_entry. rewrite Hue, bool_decide_true by done. simpl. rewrite Hq, Hs.
  unfold make_CandidateEntry, check_CandidateEntry. simpl. rewrite digest_ok, Hd, Hqd. simpl. by eexists.
Qed.

Lemma built_NoDup inputs es sc vs :
  built approved u as_of known inputs es sc vs → NoDup (fv_security_id <$> vs).
Proof.
  intros [_ _ Hn _ _ Hes _ Hvs].
  by rewrite (finish_ids _ _ _ _ _ _ _ Hvs), (evaluated_ids _ _ _ _ _ _ Hes).
Qed.

Lemma quant_ranks_built inputs es sc vs :
  built approved u as_of known inputs es sc vs →
  ∃ entries, ranked_vectors digest approved u (sort_by vector_leb vs) entries.
Proof.
  intros Hb. pose proof (built_NoDup _ _ _ _ Hb) as Hn.
  pose proof (sort_by_perm vector_leb vs) as Hp.
  assert (Hin : ∀ v, v ∈ sort_by vector_leb vs → v ∈ vs) by (intros v; by rewrite Hp).
  pose proof (λ v Hv, finish_vector_ok _ _ _ _ _ _ _ _ _ Hb (Hin v Hv)) as Hok.
  assert (Hscore : ∀ v, v ∈ sort_by vector_leb vs → is_complete v = true →
    ∃ s, fv_scores v = Some s ∧ sc !! fv_security_id v = Some s).
  { intros v Hv Hc. destruct (Hok v Hv) as (_ & _ & _ & _ & H).
    unfold is_complete in Hc. apply bool_decide_eq_true in Hc.
    destruct H as [[H _]|(_ & Hs & [s Hss])]; [congruence|]. exists s. split; congruence. }
  destruct (mapM_Ok_exists (quant_entry digest u) (complete (sort_by vector_leb vs))) as [entries He].
  { intros v [Hc Hv]%list_elem_of_filter.
    destruct (complete_eligible _ _ _ _ _ Hb (Hin v Hv) Hc) as (_ & ue & Hue & Hsym).
    destruct (Hscore v Hv Hc) as (s & Hs & _). destruct (Hok v Hv) as (_ & _ & _ & Hu & _).
    destruct (quant_entry_ok v s ue Hue Hsym Hs) as [e He]; [|by eexists].
    rewrite Hu. apply universe_digest. }
  exists entries. split; [by rewrite Hp| | | |done].
  - rewrite Hp. destruct Hb as [_ _ _ _ Hids Hes _ Hvs].
    by rewrite (finish_ids _ _ _ _ _ _ _ Hvs), (evaluated_ids _ _ _ _ _ _ Hes).
  - intros v Hv Hc. destruct (complete_eligible _ _ _ _ _ Hb (Hin v Hv) Hc) as [Hm _].
    destruct (Hok v Hv) as (_ & _ & -> & -> & _). split_and!; [done|done|apply Hb].
  - exists sc. split.
    + rewrite <-(bt_scores _ _ _ _ _ _ _ _ Hb). f_equal. rewrite <-(complete_rows _ _ _ _ Hb).
      apply list_to_map_proper; [|apply fmap_Permutation; by rewrite Hp].
      rewrite <-list_fmap_compose. eapply (sublist_NoDup _ (fv_security_id <$> sort_by vector_leb vs));
        [by rewrite Hp|]. apply (sublist_map fv_security_id), sublist_filter.
    + intros v Hv Hc. destruct (Hscore v Hv Hc) as (s & Hs & Hss). unfold complete_scores_match.
      rewrite Hs, Hss. apply scores_eqb_refl.
Qed.

Lemma built_stages inputs es sc vs entries taxonomy assignments identities views ev :
  built approved u as_of known inputs es sc vs →
  ranked_vectors digest approved u (sort_by vector_leb vs) entries →
  evidence_candidates taxonomy u as_of assignments identities
    (take QUANT_CAP (sort_by entry_leb (omap id entries))) views = Ok ev →
  stages_ok digest u as_of known (sort_by vector_leb vs)
    (take QUANT_CAP (sort_by entry_leb (omap id entries))) ev.
Proof.
  intros Hb Hr Hev. pose proof (ranked_candidates _ _ _ _ _ Hr) as Hf.
  pose proof (evidence_candidates_Ok _ _ _ _ _ _ _ _ Hev) as Her.
  assert (Hq : ∀ e, e ∈ take QUANT_CAP (sort_by entry_leb (omap id entries)) →
    ∃ v, v ∈ sort_by vector_leb vs ∧ candidate_of_vector digest u v e).
  { intros e He. assert (e ∈ omap id entries) as Hin
      by (apply (elem_of_sort_by entry_leb); eapply sublist_elem; [apply sublist_take|done]).
    apply list_elem_of_lookup_1 in Hin as [i Hi].
    destruct (Forall2_lookup_r _ _ _ _ _ Hf Hi) as (v & Hv & Hc). exists v. split; [|done].
    by apply list_elem_of_lookup_2, list_elem_of_filter in Hv as [_ Hv]. }
  assert (Hce : canonical ev)
    by (eapply child_canonical; [by eapply evidence_run_child|apply Her]).
  split.
  - rewrite (sort_by_perm vector_leb vs). by eapply built_NoDup.
  - intros e He. destruct (Hq e He) as (v & Hv & Hc). exists v.
    assert (v ∈ vs) as Hin by by rewrite <-(sort_by_perm vector_leb vs).
    destruct (finish_vector_ok _ _ _ _ _ _ _ _ _ Hb Hin) as (_ & Ha & Hk & _). done.
  - split_and!; [apply Her|apply Her|rewrite length_take; lia].
  - by eapply evidence_run_child.
  - split.
    + split; [done| |]; intros e He; by apply (evidence_run_entry _ _ _ _ _ _ _ Her).
    + pose proof (evidence_run_kept _ _ _ _ _ _ _ Her) as H.
      rewrite <-(Forall2_length _ _ _ H), length_take. lia.
Qed.

(** C24. On what a build yields the rest of the funnel never fails by its own fault: the
    quant stage accepts the vectors (the scores it recomputes are the scores they
    carry), and whatever evidence stage follows, both focus lists are its prefixes
    of 12 and 5 entries and the four stages are accepted as a candidate set, with
    every score copied from its vector. *)
Theorem funnel_yields_candidate_set inputs vs policy :
  is_digest policy = true → build_feature_vectors approved u as_of known inputs = Ok vs →
  ∃ q, quant_candidates digest approved u vs = Ok q ∧
    ∀ taxonomy assignments identities views ev,
      evidence_candidates taxonomy u as_of assignments identities q views = Ok ev →
      focus_candidates ev OPEN_PLUS_60M = Ok (focus_prefix ev OPEN_PLUS_60M) ∧
      focus_candidates ev CLOSE_MINUS_90M = Ok (focus_prefix ev CLOSE_MINUS_90M) ∧
      build_candidate_set digest vs (funnel_set u as_of known policy q ev) =
        Ok (funnel_set u as_of known policy q ev).
Proof.
  intros Hpol (es & sc & vs' & Hb & ->)%build_feature_vectors_Ok.
  destruct (quant_ranks_built _ _ _ _ Hb) as [entries Hr].
  exists (take QUANT_CAP (sort_by entry_leb (omap id entries))).
  split; [apply quant_candidates_Ok; by exists entries|].
  intros taxonomy assignments identities views ev Hev.
  pose proof (built_stages _ _ _ _ _ _ _ _ _ _ Hb Hr Hev) as Hst.
  destruct (so_evidence _ _ _ _ _ _ _ Hst) as [He _].
  split_and!; [by apply focus_candidates_ok|by apply focus_candidates_ok|].
  apply stages_form_set; [apply universe_digest|done|apply Hb|done].
Qed.
End total.

Lemma demo_entries_ok e : e ∈ un_entries demo_universe → check_UniverseEntry e = Ok ().
Proof.
  intros H. assert (Hall : Forall (λ e, check_UniverseEntry e = Ok ()) (un_entries demo_universe)).
  { repeat constructor; by vm_compute. }
  by eapply Forall_forall in Hall.
Qed.

Definition demo_universe_checked : Prop := check_UniverseSnapshot demo_universe = Ok ().
Lemma demo_checked : demo_universe_checked.
Proof. by vm_compute. Qed.

Lemma funnel_yields_candidate_set_witness :
  (demo_universe_checked ∧ is_digest demo_hash = true ∧ built_vectors "USD" usd_vectors) ∧
  ∃ q, quant_candidates (λ _, demo_hash) demo_hash demo_universe usd_vectors = Ok q.
Proof.
  assert (Hd : is_digest demo_hash = true) by (vm_compute; reflexivity).
  split; [exact (conj demo_checked (conj Hd demo_vectors_usd))|].
  destruct (funnel_yields_candidate_set (λ _, demo_hash) demo_hash demo_universe demo_as_of demo_as_of
    (λ _, Hd) demo_entries_ok demo_checked (demo_inputs "USD") usd_vectors demo_hash
    Hd demo_vectors_usd) as (q & Hq & _).
  exists q. exact Hq.
Defined.
