(* ===== verification/ProjectionFacts.v ===== *)
(** * The units of projected SEC inputs

    Whatever the records, the projection gives the shares observation the unit
    "shares" and every fact the unit "USD"; since the factor layer requires one
    unit for both, a cross-section built from projected inputs is never complete. *)

From S2P Require Import Prelude Dicts Text Orders Decimals LedgerFacts Calendar Sources Universe Factors Scores ScoreFacts FactorFacts Features Projection ScreeningDemo FeatureFacts.
From Stdlib Require Import QArith Lqa.
Local Open Scope Z_scope.

Section units.
Context (identity : SecurityIdentityRecord) (known_at : Z).

Lemma fact_of_unit r p q f : fact_of identity r p q = Ok f → qf_currency f = cf_unit (sr_payload r).
Proof.
  unfold fact_of. intros (c & _ & H)%obind_Ok. apply obind_Ok in H as (? & _ & H). by injection H as <-.
Qed.
Lemma shares_of_unit r s : shares_of identity r = Ok s → sh_currency s = "shares".
Proof. unfold shares_of. intros (? & _ & H)%obind_Ok. by injection H as <-. Qed.

(** What the loop over the records keeps true of its collections. *)
Definition units_inv (st : projected) : Prop :=
  Forall (λ s, sh_currency s.1.2 = "shares") (pr_shares st) ∧
  Forall (λ f, qf_currency f = "USD") (pr_facts st) ∧
  Forall (λ g, cf_unit (sr_payload g.2.2) = "USD") (pr_unframed st).

Lemma project_record_units st r st' :
  units_inv st → project_record identity st r = Ok st' → units_inv st'.
Proof.
  intros (Hs & Hf & Hu). unfold project_record. intros (c & _ & H)%obind_Ok.
  destruct (sec_period _) as [period|]; [|done]. destruct (decide (c = SHARES_OUTSTANDING)).
  { apply obind_Ok in H as ([] & _ & H). apply obind_Ok in H as (s & Hsh & H). injection H as <-.
    split; [|done]. apply Forall_app. split; [done|]. constructor; [|constructor]. by eapply shares_of_unit. }
  apply obind_Ok in H as ([] & Husd%guard_Ok%bool_decide_eq_true & H).
  apply obind_Ok in H as ([] & _ & H). destruct (decide (c = ASSETS)).
  { apply obind_Ok in H as ([] & _ & H). apply obind_Ok in H as (f & Hfo & H). injection H as <-.
    split; [done|]. split; [|done]. apply Forall_app. split; [done|]. constructor; [|constructor].
    by rewrite (fact_of_unit _ _ _ _ Hfo). }
  destruct (cf_start _) as [start|]; [|done]. destruct (cf_frame _) as [frame|].
  - destruct period as [q|]; [|done]. apply obind_Ok in H as (f & Hfo & H). injection H as <-.
    split; [done|]. split; [|done]. apply Forall_app. split; [done|]. constructor; [|constructor].
    by rewrite (fact_of_unit _ _ _ _ Hfo).
  - injection H as <-. split; [done|]. split; [done|]. apply Forall_app. split; [done|].
    by repeat constructor.
Qed.

Lemma fold_outcome_inv {A B} (I : B → Prop) (f : B → A → outcome B) l b b' :
  (∀ b x b', I b → f b x = Ok b' → I b') → I b → fold_outcome f b l = Ok b' → I b'.
Proof.
  intros Hf. revert b. induction l as [|x l IH]; intros b Hb H; simpl in H; [by injection H as <-|].
  apply obind_Ok in H as (b1 & H1 & H). eapply IH; [|exact H]. by eapply Hf.
Qed.

Lemma cohort_facts_units group fs :
  Forall (λ g, cf_unit (sr_payload g.2.2) = "USD") group → cohort_facts identity group = Ok fs →
  Forall (λ f, qf_currency f = "USD") fs.
Proof.
  intros Hg. unfold cohort_facts. destruct (index_by _ [] group) as [by_q|] eqn:Hi; [|done].
  destruct (mapM _ all_quarters) as [cohort|] eqn:Hc; [|done]. intros ([] & _ & H)%obind_Ok.
  apply Forall_forall. intros f Hf. destruct (mapM_Ok_elem _ _ _ _ H Hf) as ([q g] & Hz & Hfo).
  rewrite (fact_of_unit _ _ _ _ Hfo). apply elem_of_zip_r in Hz.
  destruct (mapM_elem _ _ _ _ Hc Hz) as (q' & _ & Hq'). apply assoc_get_elem in Hq'.
  destruct (index_by_spec _ _ _ _ Hi _ _ Hq') as [Hn|[Hin _]]; [by apply elem_of_nil in Hn|].
  rewrite Forall_forall in Hg. by apply Hg.
Qed.

Lemma sec_factor_inputs_units records facts shares :
  sec_factor_inputs identity known_at records = Ok (facts, shares) →
  sh_currency shares = "shares" ∧ Forall (λ f, qf_currency f = "USD") facts.
Proof.
  unfold sec_factor_inputs. intros H. do 4 (apply obind_Ok in H as (? & _ & H)).
  apply obind_Ok in H as (st & Hst & H). apply obind_Ok in H as (cohorts & Hco & H).
  assert (units_inv st) as (Hs & Hf & Hu).
  { refine (fold_outcome_inv units_inv _ _ _ _ _ _ Hst); [|by repeat split].
    intros st0 r st1. apply project_record_units. }
  destruct (last _) as [latest|] eqn:Hl; [|done]. apply obind_Ok in H as (? & _ & H). injection H as <- <-.
  split.
  - rewrite Forall_forall in Hs. apply Hs. rewrite <-(elem_of_sort_by shares_leb).
    rewrite last_lookup in Hl. by eapply list_elem_of_lookup_2.
  - rewrite (sort_by_perm fact_leb). apply Forall_app. split; [done|].
    apply Forall_forall. intros f (fs & Hfs & Hin)%concat_elem.
    destruct (mapM_Ok_elem _ _ _ _ Hco Hfs) as (g & Hg & Hc). apply group_by_key in Hg as [k Hk].
    assert (Forall (λ f, qf_currency f = "USD") fs) as Hall.
    { eapply cohort_facts_units; [|exact Hc]. rewrite Forall_forall in *. intros y Hy. by apply Hu, Hk. }
    rewrite Forall_forall in Hall. by apply Hall.
Qed.
End units.

Lemma ttm_facts_from facts shares cutoff known_at t :
  assemble_ttm facts shares cutoff known_at = Ok (Some t) → ∀ f, f ∈ ttm_facts t → f ∈ facts.
Proof.
  unfold assemble_ttm. intros ([] & _ & H)%obind_Ok. apply obind_Ok in H as (known & _ & H).
  destruct (negb _); [done|]. injection H as H.
  destruct (unique_quarter_keys facts NET_INCOME_LOSS cutoff known) as [ni|]; [|done].
  destruct (unique_quarter_keys facts NET_CASH_OPERATING cutoff known) as [cfo|]; [|done].
  destruct (unique_quarter_keys facts CAPEX_PPE cutoff known) as [capex|]; [|done]. simpl in H.
  unfold assemble_flows in H. destruct (head ni) as [first|]; [|done]. simpl in H.
  destruct (quarter_label first) as [q|]; [|done]. cbn [mbind option_bind] in H.
  destruct (negb _) in H; [done|]. destruct (existsb _ _ || _) in H; [done|].
  destruct (foldl _ _ _) as [[bp start]|] eqn:Hfold in H; [|done]. simpl in H.
  destruct start as [start|]; [|done]. simpl in H.
  destruct (mapM _ _) as [ordered|] eqn:Hord in H; [|done]. simpl in H.
  destruct (negb _) in H; [done|]. destruct (last ordered) as [final|]; [|done]. simpl in H.
  destruct (_ || _) in H; [done|]. injection H as <-. simpl. intros f Hf.
  destruct (mapM_elem _ _ _ _ Hord Hf) as (k & _ & Hk). apply assoc_get_elem in Hk.
  assert (Hinv : assets_inv (fact_by_concept facts ASSETS cutoff known) (lineage first)
    (if 1 <? quarter_number q then qf_fiscal_year first else qf_fiscal_year first - 1)
    (previous_quarter q) (qf_period_end first) (Some (bp, Some start))).
  { rewrite <-Hfold. apply assets_fold_inv; [done|]. split; [|done]. by intros ? ? ?%elem_of_nil. }
  destruct (proj1 Hinv _ _ Hk) as [Hin _]. by apply elem_of_fact_by_concept in Hin as [Hin _].
Qed.

(** Shares in one unit do not bind to facts in another. *)
Lemma bind_shares_units i ttm cutoff known_at :
  sh_currency (fi_shares i) = "shares" → Forall (λ f, qf_currency f = "USD") (fi_facts i) →
  assemble_ttm (fi_facts i) (sh_value (fi_shares i)) cutoff known_at = Ok ttm →
  bind_shares i ttm = None.
Proof.
  intros Hs Hf Ht. destruct ttm as [t|]; [|done]. simpl.
  destruct (ttm_facts t) as [|anchor fs] eqn:Hfs; [done|]. simpl.
  case_bool_decide as Hl; [|done]. exfalso.
  assert (qf_currency anchor = "USD") as Ha.
  { rewrite Forall_forall in Hf. apply Hf. eapply ttm_facts_from; [exact Ht|]. rewrite Hfs. by left. }
  unfold shares_lineage, lineage in Hl. injection Hl as _ Hc _. congruence.
Qed.

(** The facts and shares of an input come from the projection. *)
Definition projected_input (i : FactorInput) : Prop :=
  ∃ identity known records,
    sec_factor_inputs identity known records = Ok (fi_facts i, fi_shares i).

(** C28. A cross-section whose facts and shares all come from the SEC projection is
    never complete: every security of it is reported as missing its factor
    inputs, because the projected shares carry the unit "shares" and the lineage
    check asks for the unit of the facts, "USD". *)
Theorem projected_inputs_never_complete approved u as_of known inputs vs :
  Forall projected_input inputs → build_feature_vectors approved u as_of known inputs = Ok vs →
  Forall (λ v, fv_status v = FACTOR_INPUT_MISSING) vs.
Proof.
  intros Hp Hb. apply build_feature_vectors_Ok in Hb as (es & sc & vs' & [_ _ _ _ _ Hes _ Hvs] & ->).
  rewrite (sort_by_perm vector_leb). apply Forall_forall. intros v Hv.
  destruct (mapM_Ok_elem _ _ _ _ Hvs Hv) as (e & He & Hf).
  destruct (mapM_Ok_elem _ _ _ _ Hes He) as (i & Hi & Hev). apply evaluate_input_spec in Hev.
  rewrite Forall_forall in Hp. destruct (Hp i Hi) as (identity & k & records & Hr).
  apply sec_factor_inputs_units in Hr as [Hs Hu].
  destruct Hev as [v' refs reason Hm|raw closes ttm refs ue _ _ Ht Hraw].
  - injection Hf as <-. by apply make_FeatureVector_Ok in Hm as [-> _].
  - by rewrite (bind_shares_units i ttm _ _ Hs Hu Ht) in Hraw.
Qed.

Lemma demo_input_projected sid symbol cik income step :
  is_Ok (demo_projection sid symbol cik income) = true →
  (∀ p, demo_projection sid symbol cik income = Ok p → sh_currency p.2 = "shares") →
  projected_input (demo_input sid symbol cik income step "shares").
Proof.
  unfold projected_input, demo_input. intros Hok Hcur.
  exists (demo_identity sid symbol cik), demo_as_of, (demo_records cik income).
  fold (demo_projection sid symbol cik income).
  destruct (demo_projection sid symbol cik income) as [[facts s]|e]; [|done]. simpl.
  specialize (Hcur _ eq_refl). simpl in Hcur. destruct s. simpl in *. by subst.
Qed.

Lemma projected_inputs_never_complete_witness :
  (Forall projected_input (demo_inputs "shares") ∧
   built_vectors "shares" shares_vectors) ∧
  Forall (λ v, fv_status v = FACTOR_INPUT_MISSING) shares_vectors.
Proof.
  assert (Hp : Forall projected_input (demo_inputs "shares")).
  { repeat constructor; apply demo_input_projected; try (vm_compute; reflexivity);
      intros [facts s] H; unfold demo_projection in H;
      exact (proj1 (sec_factor_inputs_units _ _ _ _ _ H)). }
  split; [exact (conj Hp demo_vectors_shares)|].
  exact (projected_inputs_never_complete demo_hash demo_universe demo_as_of demo_as_of (demo_inputs "shares")
    shares_vectors Hp demo_vectors_shares).
Defined.
