(* ===== verification/Clusters.v ===== *)
(** * [build_clusters] of [screening/funnel.py]

    The union-find inside it, with the facts that its loops end and that it computes
    connected components, then the clusters over a year of return observations. *)

From S2P Require Import Prelude Dicts Text Orders Decimals Calendar Sources Factors.
From stdpp Require Import relations.

(** * Connected components: the union-find of [build_clusters] in
    [screening/funnel.py]

    [find] halves paths and [union] links one root under the other, on a dict of
    parents.  The loop of [find] has no bound in the code: here it runs on fuel and
    [None] stands for a loop that has not ended, which never happens on the forests
    that [union] builds. *)

Local Open Scope nat_scope.

(** ** Loops *)

(** [None] when the fuel runs out; otherwise what the code returns or raises. *)
Definition loop (A : Type) : Type := option (outcome A).
#[global] Instance loop_ret : MRet loop := λ A a, Some (Ok a).
#[global] Instance loop_bind : MBind loop := λ A B f m,
  match m with
  | None => None
  | Some (Raise e) => Some (Raise e)
  | Some (Ok a) => f a
  end.
Definition lift_loop {A} (o : outcome A) : loop A := Some o.

(** ** Operations *)

Notation parents := (gmap string string).

Definition parent_of (p : parents) (v : string) : loop string :=
  match p !! v with Some w => mret w | None => lift_loop (raise EKeyError v) end.

(** [while parent[value] != value: parent[value] = parent[parent[value]]; value = parent[value]] *)
Fixpoint find (fuel : nat) (p : parents) (v : string) : loop (parents * string) :=
  match fuel with
  | O => None
  | S fuel =>
      w ← parent_of p v;
      if decide (w = v) then mret (p, v)
      else g ← parent_of p w; find fuel (<[v := g]> p) g
  end.
(** A path is no longer than the dict has keys. *)
Definition find_root (p : parents) (v : string) : loop (parents * string) := find (S (size p)) p v.

Definition union (p : parents) (a b : string) : loop parents :=
  '(p, root_a) ← find_root p a;
  '(p, root_b) ← find_root p b;
  mret (if decide (root_a = root_b) then p else <[root_b := root_a]> p).

Fixpoint unions (p : parents) (edges : list (string * string)) : loop parents :=
  match edges with
  | [] => mret p
  | (a, b) :: edges => p ← union p a b; unions p edges
  end.

(** [components.setdefault(find(sid), []).append(sid)] over the identifiers. *)
Fixpoint collect_roots (p : parents) (d : list (string * list string)) (ids : list string)
    : loop (list (string * list string)) :=
  match ids with
  | [] => mret d
  | x :: ids => '(p, r) ← find_root p x; collect_roots p (group_add (λ _, r) x d) ids
  end.

Definition connect (ids : list string) (edges : list (string * string)) : loop (list (list string)) :=
  p ← unions (list_to_map ((λ x, (x, x)) <$> ids)) edges;
  d ← collect_roots p [] ids;
  mret d.*2.

(** ** Paths to the root *)

Inductive rooted (p : parents) : nat → string → string → Prop :=
  | rooted_here v : p !! v = Some v → rooted p 0 v v
  | rooted_up n v w r : p !! v = Some w → w ≠ v → rooted p n w r → rooted p (S n) v r.
Definition keys (p : parents) : gset string := dom p.
Definition root (p : parents) (v r : string) : Prop := ∃ n, rooted p n v r.
Definition forest (p : parents) : Prop := ∀ v, v ∈ keys p → ∃ r, root p v r.

Lemma rooted_fun p n n' v r r' : rooted p n v r → rooted p n' v r' → n = n' ∧ r = r'.
Proof.
  intros H. revert n' r'. induction H as [v Hv|n v w r Hv Hw _ IH]; intros n' r' H'; inversion H'; subst.
  - done.
  - congruence.
  - congruence.
  - assert (w0 = w) as -> by congruence. match goal with H : rooted p _ w _ |- _ => destruct (IH _ _ H) end.
    split; congruence.
Qed.
Lemma root_fun p v r r' : root p v r → root p v r' → r = r'.
Proof. intros [n H] [n' H']. by destruct (rooted_fun _ _ _ _ _ _ H H'). Qed.
Lemma rooted_end p n v r : rooted p n v r → p !! r = Some r.
Proof. by induction 1. Qed.
Lemma rooted_dom p n v r : rooted p n v r → v ∈ keys p.
Proof. intros H. unfold keys. apply elem_of_dom. inversion H; subst; by eexists. Qed.

(** The nodes on a path are distinct, so a path is shorter than the forest. *)
Lemma rooted_path p n v r :
  rooted p n v r →
  ∃ l, length l = S n ∧ NoDup l ∧ ∀ x, x ∈ l → ∃ m, m ≤ n ∧ rooted p m x r.
Proof.
  induction 1 as [v Hv|n v w r Hv Hw Hp (l & Hl & Hn & Hin)].
  - exists [v]. split_and!; [done|apply NoDup_singleton|]. intros x ->%list_elem_of_singleton.
    exists 0. split; [done|by constructor].
  - exists (v :: l). split_and!; [simpl; lia| |].
    + constructor; [|done]. intros (m & Hm & Hv')%Hin.
      destruct (rooted_fun _ _ _ _ _ _ Hv' (rooted_up _ _ _ _ _ Hv Hw Hp)). lia.
    + intros x [->|Hx]%elem_of_cons; [exists (S n); split; [done|by econstructor]|].
      destruct (Hin x Hx) as (m & Hm & Hx'). exists m. split; [lia|done].
Qed.
Lemma rooted_bound p n v r : rooted p n v r → n < size p.
Proof.
  intros (l & Hl & Hn & Hin)%rooted_path. apply Nat.lt_le_trans with (length l); [lia|].
  rewrite <-(size_dom (D := gset string) p), <-(size_list_to_set (C := gset string) l Hn). apply subseteq_size.
  intros x Hx%elem_of_list_to_set. destruct (Hin x Hx) as (m & _ & H). by eapply rooted_dom.
Qed.

(** ** [find] *)

(** The roots stay, and no path grows. *)
Definition shortens (p p' : parents) : Prop :=
  keys p' = keys p ∧ ∀ n v r, rooted p n v r → ∃ n', n' ≤ n ∧ rooted p' n' v r.
#[global] Instance shortens_preorder : PreOrder shortens.
Proof.
  split; [by split; eauto|]. intros p q s [Hd H] [Hd' H']. split; [congruence|].
  intros n v r (m & Hm & Hq)%H. apply H' in Hq as (k & Hk & Hs). exists k. split; [lia|done].
Qed.

Lemma halve_shortens p v w g :
  p !! v = Some w → w ≠ v → p !! w = Some g → shortens p (<[v := g]> p).
Proof.
  intros Hv Hw Hg. split.
  { unfold keys. apply dom_insert_lookup_L. by eexists. }
  intros n. induction (lt_wf n) as [n _ IH]. intros x r Hx. destruct (decide (x = v)) as [->|Hne].
  - inversion Hx as [|n1 ? ? ? H1 _ H2]; subst; [congruence|].
    assert (w0 = w) as -> by congruence. inversion H2 as [|n2 ? g' ? H3 H4 H5]; subst.
    + assert (g = r) as ->  by congruence. exists 1. split; [lia|].
      econstructor; [by apply lookup_insert_eq|done|]. constructor. by rewrite lookup_insert_ne by congruence.
    + assert (g' = g) as -> by congruence. destruct (IH n2 ltac:(lia) g r H5) as (m & Hm & Hp).
      exists (S m). split; [lia|]. econstructor; [by apply lookup_insert_eq| |done].
      intros ->. destruct (rooted_fun _ _ _ _ _ _ Hx H5). lia.
  - inversion Hx as [? H1|n1 ? w1 ? H1 H2 H3]; subst.
    + exists 0. split; [done|]. constructor. by rewrite lookup_insert_ne.
    + destruct (IH n1 ltac:(lia) w1 r H3) as (m & Hm & Hp). exists (S m). split; [lia|].
      econstructor; [|exact H2|exact Hp]. by rewrite lookup_insert_ne.
Qed.

Lemma find_spec fuel p n v r :
  rooted p n v r → n < fuel → ∃ p', find fuel p v = Some (Ok (p', r)) ∧ shortens p p'.
Proof.
  revert p n v. induction fuel as [|fuel IH]; intros p n v H Hn; [lia|]. simpl. unfold parent_of.
  inversion H as [? Hv|m ? w ? Hv Hw Hr]; subst; rewrite Hv; simpl.
  - rewrite decide_True by done. by exists p.
  - rewrite decide_False by done.
    assert (Hg : ∃ g k, p !! w = Some g ∧ k ≤ m ∧ k < fuel ∧ rooted p k g r).
    { inversion Hr as [? Hg|k ? g ? Hg _ Hk]; subst.
      - exists r, 0. split_and!; [done|lia|lia|done].
      - exists g, k. split_and!; [done|lia|lia|done]. }
    destruct Hg as (g & k & Hg & Hk & Hkf & Hgr). rewrite Hg. simpl.
    pose proof (halve_shortens _ _ _ _ Hv Hw Hg) as Hs. destruct (proj2 Hs _ _ _ Hgr) as (k' & Hk' & Hgr').
    destruct (IH _ _ _ Hgr' ltac:(lia)) as (p' & Hp' & Hs'). exists p'. split; [done|]. by trans (<[v:=g]> p).
Qed.

Lemma find_root_spec p v :
  forest p → v ∈ keys p → ∃ p' r, find_root p v = Some (Ok (p', r)) ∧ root p v r ∧ shortens p p'.
Proof.
  intros Hf (r & n & Hr)%Hf. pose proof (rooted_bound _ _ _ _ Hr).
  destruct (find_spec (S (size p)) p n v r Hr ltac:(lia)) as (p' & Hp' & Hs).
  exists p', r. split_and!; [done|by exists n|done].
Qed.

Lemma shortens_root p p' v r : shortens p p' → root p v r → root p' v r.
Proof. intros [_ H] [n (m & _ & Hm)%H]. by exists m. Qed.
Lemma shortens_forest p p' : shortens p p' → forest p → forest p'.
Proof.
  intros Hs Hf v Hv. rewrite (proj1 Hs) in Hv. destruct (Hf v Hv) as [r Hr]. exists r.
  by eapply shortens_root.
Qed.
Lemma shortens_root_iff p p' v r : shortens p p' → forest p → v ∈ keys p → root p' v r ↔ root p v r.
Proof.
  intros Hs Hf Hv. split; [|by apply shortens_root]. intros Hr'. destruct (Hf v Hv) as [r' Hr].
  by rewrite (root_fun _ _ _ _ Hr' (shortens_root _ _ _ _ Hs Hr)).
Qed.

(** ** [union] *)

Definition together (p : parents) (x y : string) : Prop := ∃ r, root p x r ∧ root p y r.

Lemma together_refl p x : forest p → x ∈ keys p → together p x x.
Proof. intros Hf (r & Hr)%Hf. by exists r. Qed.
Lemma together_sym p x y : together p x y → together p y x.
Proof. intros (r & ? & ?). by exists r. Qed.
Lemma together_trans p x y z : together p x y → together p y z → together p x z.
Proof.
  intros (r & Hx & Hy) (r' & Hy' & Hz). rewrite (root_fun _ _ _ _ Hy' Hy) in Hz. by exists r.
Qed.
Lemma root_end p v r : root p v r → p !! r = Some r.
Proof. intros [n H]. by eapply rooted_end. Qed.
Lemma root_self p r : p !! r = Some r → root p r r.
Proof. exists 0. by constructor. Qed.

Lemma link_root p a b x r :
  p !! a = Some a → p !! b = Some b → a ≠ b → root p x r →
  root (<[b := a]> p) x (if decide (r = b) then a else r).
Proof.
  intros Ha Hb Hab [n H]. induction H as [v Hv|n v w r Hv Hw Hr IH].
  - destruct (decide (v = b)) as [->|Hne].
    + exists 1. econstructor; [by apply lookup_insert_eq|congruence|]. constructor.
      by rewrite lookup_insert_ne.
    + apply root_self. by rewrite lookup_insert_ne.
  - destruct IH as [m Hm]. exists (S m). assert (v ≠ b) by congruence.
    econstructor; [|exact Hw|exact Hm]. by rewrite lookup_insert_ne.
Qed.

(** Linking two roots joins their classes and nothing else. *)
Definition joins (p p' : parents) (a b : string) : Prop :=
  keys p' = keys p ∧ forest p' ∧ ∀ x y, x ∈ keys p → y ∈ keys p →
    together p' x y ↔ together p x y ∨ (together p x a ∧ together p b y) ∨ (together p x b ∧ together p a y).

Lemma shortens_together p p' x y :
  shortens p p' → forest p → x ∈ keys p → y ∈ keys p → together p' x y ↔ together p x y.
Proof.
  intros Hs Hf Hx Hy. unfold together. apply exist_proper. intros r.
  by rewrite (shortens_root_iff _ _ x r Hs Hf Hx), (shortens_root_iff _ _ y r Hs Hf Hy).
Qed.

Lemma union_spec p a b :
  forest p → a ∈ keys p → b ∈ keys p → ∃ p', union p a b = Some (Ok p') ∧ joins p p' a b.
Proof.
  intros Hf Ha Hb. unfold union. destruct (find_root_spec p a Hf Ha) as (p1 & ra & -> & Hra & H1). simpl.
  assert (Hf1 : forest p1) by (by eapply shortens_forest).
  assert (Hb1 : b ∈ keys p1) by (by rewrite (proj1 H1)).
  destruct (find_root_spec p1 b Hf1 Hb1) as (p2 & rb & -> & Hrb & H2). simpl.
  rewrite (shortens_root_iff _ _ _ _ H1 Hf Hb) in Hrb.
  assert (H12 : shortens p p2) by by trans p1. assert (Hf2 : forest p2) by (by eapply shortens_forest).
  assert (Hroot : ∀ x r, x ∈ keys p → root p2 x r ↔ root p x r)
    by (intros x r Hx; by apply shortens_root_iff).
  eexists. split; [done|]. destruct (decide (ra = rb)) as [<-|Hne].
  { split_and!; [apply H12|done|]. intros x y Hx Hy. rewrite (shortens_together _ _ _ _ H12 Hf Hx Hy).
    assert (Hab : together p a b) by (by exists ra). split; [by left|].
    intros [?|[[Hxa Hby]|[Hxb Hay]]]; [done| |].
    - by apply (together_trans _ _ a); [|apply (together_trans _ _ b)].
    - apply (together_trans _ _ b); [done|]. apply (together_trans _ _ a); [by apply together_sym|done]. }
  assert (Ea : p2 !! ra = Some ra) by (eapply root_end, (Hroot a), Hra; done).
  assert (Eb : p2 !! rb = Some rb) by (eapply root_end, (Hroot b), Hrb; done).
  set (p' := <[rb:=ra]> p2). pose proof (λ x r, link_root p2 ra rb x r Ea Eb Hne) as Hl. fold p' in Hl.
  assert (Hk : keys p' = keys p).
  { rewrite <-(proj1 H12). unfold keys, p'. apply dom_insert_lookup_L. by eexists. }
  split_and!; [done| |].
  { intros x Hx. rewrite Hk in Hx. destruct (Hf x Hx) as [r Hr]. eexists. apply Hl, Hroot; done. }
  intros x y Hx Hy. destruct (Hf x Hx) as [rx Hrx], (Hf y Hy) as [ry Hry].
  pose proof (Hl x rx (proj2 (Hroot x rx Hx) Hrx)) as Lx.
  pose proof (Hl y ry (proj2 (Hroot y ry Hy) Hry)) as Ly.
  assert (Ht : ∀ u v ru rv, root p u ru → root p v rv → together p u v ↔ ru = rv).
  { intros u v ru rv Hu Hv. split; [|by intros ->; exists rv]. intros (r & H & H').
    by rewrite <-(root_fun _ _ _ _ H Hu), <-(root_fun _ _ _ _ H' Hv). }
  rewrite (Ht x y rx ry), (Ht x a rx ra), (Ht b y rb ry), (Ht x b rx rb), (Ht a y ra ry) by done.
  split.
  - intros (r & Hxr & Hyr). apply (root_fun _ _ _ _ Lx) in Hxr. apply (root_fun _ _ _ _ Ly) in Hyr.
    destruct (decide (rx = rb)), (decide (ry = rb)); subst; auto.
  - intros H. exists (if decide (rx = rb) then ra else rx). split; [done|].
    destruct (decide (rx = rb)), (decide (ry = rb)); destruct H as [H|[[H H']|[H H']]]; subst; done.
Qed.

(** ** [connect] *)

(** Two nodes are connected when a chain of edges joins them. *)
Definition connected (edges : list (string * string)) : relation string := rtsc (λ x y, (x, y) ∈ edges).

#[global] Instance connected_equiv edges : Equivalence (connected edges).
Proof. apply rtsc_equivalence. Qed.

Lemma connected_snoc edges a b x y :
  connected (edges ++ [(a, b)]) x y ↔
  connected edges x y ∨ (connected edges x a ∧ connected edges b y) ∨
  (connected edges x b ∧ connected edges a y).
Proof.
  assert (Hsub : ∀ u v, connected edges u v → connected (edges ++ [(a, b)]) u v).
  { intros u v. unfold connected. apply (rtsc_congruence (λ z, z)). intros s t Hst. apply elem_of_app. by left. }
  assert (Hab : connected (edges ++ [(a, b)]) a b).
  { apply rtsc_lr. apply elem_of_app. right. by apply list_elem_of_singleton. }
  split.
  - unfold connected at 1. induction 1 as [x|x z y Hxz _ IH]; [by left; constructor|].
    assert (Hstep : connected edges x z ∨ (x = a ∧ z = b) ∨ (x = b ∧ z = a)).
    { destruct Hxz as [[Hin|Hin%list_elem_of_singleton]%elem_of_app|[Hin|Hin%list_elem_of_singleton]%elem_of_app].
      - left. by apply rtsc_lr.
      - injection Hin as -> ->. by right; left.
      - left. by apply rtsc_rl.
      - injection Hin as -> ->. by right; right. }
    assert (Hrefl : ∀ u, connected edges u u) by (intros u; constructor).
    assert (Htrans : ∀ u v w, connected edges u v → connected edges v w → connected edges u w)
      by (intros u v w; apply transitivity).
    destruct Hstep as [Hs|[[-> ->]|[-> ->]]]; destruct IH as [IH|[[IH1 IH2]|[IH1 IH2]]]; eauto 8.
  - intros [H|[[H1 H2]|[H1 H2]]]; [by apply Hsub| |].
    + etrans; [by apply Hsub|]. etrans; [exact Hab|]. by apply Hsub.
    + etrans; [by apply Hsub|]. etrans; [|by apply Hsub]. by symmetry.
Qed.

Definition edges_in (nodes : gset string) (edges : list (string * string)) : Prop :=
  ∀ a b, (a, b) ∈ edges → a ∈ nodes ∧ b ∈ nodes.

(** The forest after the unions of [edges]. *)
Definition joined (nodes : gset string) (edges : list (string * string)) (p : parents) : Prop :=
  keys p = nodes ∧ forest p ∧ ∀ x y, x ∈ nodes → y ∈ nodes → together p x y ↔ connected edges x y.

Lemma unions_spec nodes edges : ∀ done p,
  joined nodes done p → edges_in nodes edges →
  ∃ p', unions p edges = Some (Ok p') ∧ joined nodes (done ++ edges) p'.
Proof.
  induction edges as [|[a b] edges IH]; intros past p (Hk & Hf & Hc) He.
  { exists p. split; [done|]. by rewrite app_nil_r. }
  destruct (He a b ltac:(by left)) as [Ha Hb]. rewrite <-Hk in Ha, Hb.
  destruct (union_spec p a b Hf Ha Hb) as (p1 & Hu & Hk1 & Hf1 & Ht). simpl. rewrite Hu. simpl.
  rewrite Hk in *. destruct (IH (past ++ [(a, b)]) p1) as (p' & Hp' & Hj).
  - split_and!; [congruence|done|]. intros x y Hx Hy. rewrite (Ht x y Hx Hy), connected_snoc, !Hc by done. done.
  - intros u v Huv. apply He. by right.
  - exists p'. split; [done|]. by rewrite <-app_assoc in Hj.
Qed.

Lemma joined_start ids : joined (list_to_set ids) [] (list_to_map ((λ x, (x, x)) <$> ids)).
Proof.
  assert (Hl : ∀ x, x ∈ ids → (list_to_map ((λ x, (x, x)) <$> ids) : parents) !! x = Some x).
  { induction ids as [|y ids IH]; intros x; [by intros ?%elem_of_nil|]. rewrite fmap_cons. simpl.
    intros [->|Hx]%elem_of_cons; [by rewrite lookup_insert_eq|].
    destruct (decide (y = x)) as [->|]; [by rewrite lookup_insert_eq|]. rewrite lookup_insert_ne by done. auto. }
  assert (Hk : keys (list_to_map ((λ x, (x, x)) <$> ids)) = list_to_set ids).
  { unfold keys. rewrite dom_list_to_map_L, <-list_fmap_compose. f_equal. apply list_fmap_id. }
  split_and!; [done| |].
  - intros x. rewrite Hk, elem_of_list_to_set. intros Hx%Hl. exists x. by apply root_self.
  - intros x y. rewrite !elem_of_list_to_set. intros Hx%Hl%root_self Hy%Hl%root_self. split.
    + intros (r & Hxr & Hyr). rewrite (root_fun _ _ _ _ Hx Hxr), (root_fun _ _ _ _ Hy Hyr). constructor.
    + intros H. assert (x = y) as ->; [|by exists y]. unfold connected in H.
      induction H as [|x z y [Hz|Hz]]; [done|by apply elem_of_nil in Hz|by apply elem_of_nil in Hz].
Qed.

Lemma collect_roots_spec (f : string → string) ids : ∀ p d,
  forest p → (∀ x, x ∈ ids → x ∈ keys p ∧ root p x (f x)) →
  collect_roots p d ids = Some (Ok (foldl (λ d x, group_add f x d) d ids)).
Proof.
  induction ids as [|x ids IH]; intros p d Hf H; [done|]. simpl. destruct (H x ltac:(by left)) as [Hx Hr].
  destruct (find_root_spec p x Hf Hx) as (p' & r & -> & Hr' & Hs). simpl.
  rewrite (root_fun _ _ _ _ Hr' Hr).
  replace (group_add (λ _, f x) x d) with (group_add f x d).
  2: { clear. induction d as [|[k g] d IH]; [done|]. simpl. by rewrite IH. }
  apply IH; [by eapply shortens_forest|]. intros y Hy. destruct (H y ltac:(by right)) as [Hk Hry].
  split; [by rewrite (proj1 Hs)|by eapply shortens_root].
Qed.

(** The components are the identifiers grouped by a representative that two of them
    share exactly when they are connected. *)
Lemma connect_spec ids edges :
  edges_in (list_to_set ids) edges →
  ∃ f : string → string, connect ids edges = Some (Ok (group_by f ids)) ∧
    ∀ x y, x ∈ ids → y ∈ ids → f x = f y ↔ connected edges x y.
Proof.
  intros He. unfold connect.
  destruct (unions_spec _ _ [] _ (joined_start ids) He) as (p & -> & Hk & Hf & Hc). simpl.
  set (f := λ x, match find_root p x with Some (Ok (_, r)) => r | _ => x end).
  assert (Hr : ∀ x, x ∈ ids → x ∈ keys p ∧ root p x (f x)).
  { intros x Hx. assert (Hxk : x ∈ keys p) by (rewrite Hk; by apply elem_of_list_to_set).
    split; [done|]. unfold f. by destruct (find_root_spec p x Hf Hxk) as (p' & r & -> & Hr & _). }
  exists f. split.
  - by rewrite (collect_roots_spec f ids p [] Hf Hr).
  - intros x y Hx Hy. rewrite <-(Hc x y) by by apply elem_of_list_to_set.
    destruct (Hr x Hx) as [_ Hrx], (Hr y Hy) as [_ Hry]. split; [intros Heq; exists (f y); by rewrite <-Heq at 1|].
    intros (r & H1 & H2). by rewrite (root_fun _ _ _ _ Hrx H1), (root_fun _ _ _ _ Hry H2).
Qed.

(** * Correlation clusters: [screening/funnel.py]

    [build_clusters] over a year of return observations: which securities have a
    usable series, which pairs are correlated, and the connected components.  A
    cluster id is a digest of the policy, the instant and the members ([cluster_id]);
    private authorities are the two hashes they carry, without fingerprints; the byte
    bound of the serialized cluster is not modelled. *)

Local Open Scope Z_scope.

(** ** Correlation *)

Definition MIN_OBSERVATIONS : nat := 100.

(** Covariance and the two variances, as sums over aligned series. *)
Definition moments (ri rj : list Decimal) : Decimal * Decimal * Decimal :=
  let n := dec_of_Z (Z.of_nat (length ri)) in
  let mean_i := d_div (d_sum ri) n in
  let mean_j := d_div (d_sum rj) n in
  let cov := d_sum (zip_with (λ a b, d_mul (d_sub a mean_i) (d_sub b mean_j)) ri rj) in
  (cov, d_sum ((λ a, d_square (d_sub a mean_i)) <$> ri), d_sum ((λ b, d_square (d_sub b mean_j)) <$> rj)).

Definition aligned (ri rj : list Decimal) : bool :=
  (length ri =? length rj)%nat && (MIN_OBSERVATIONS <=? length ri)%nat.

(** [_pearson] *)
Definition pearson (ri rj : list Decimal) : option Decimal :=
  if negb (aligned ri rj) then None
  else
    let '(cov, var_i, var_j) := moments ri rj in
    if dec_leb var_i dzero || dec_leb var_j dzero then None
    else
      let denominator := d_sqrt (d_mul var_i var_j) in
      if dec_eqb denominator dzero then None else Some (d_div cov denominator).

(** [_pearson_meets_threshold] *)
Definition pearson_meets_threshold (ri rj : list Decimal) (threshold : Decimal) : bool :=
  if negb (aligned ri rj) then false
  else
    let '(cov, var_i, var_j) := moments ri rj in
    if dec_ltb cov dzero || dec_leb var_i dzero || dec_leb var_j dzero then false
    else dec_leb (d_mul (d_mul (d_mul threshold threshold) var_i) var_j) (d_mul cov cov).

Definition THRESHOLD : Decimal := mk_dec 75 (-2).

(** ** Observations *)

Record ReturnObservation := mk_Return {
  ro_trading_date : Z;
  ro_value : Decimal;
  ro_available_at : Z;
  ro_security_id : option string;
  ro_source_ref : option SourceRef;
  ro_source_record_hash : option string;
  ro_identity_hash : option string;
}.

Definition check_ReturnObservation (r : ReturnObservation) : outcome unit :=
  guard_that (match ro_source_ref r with
              | Some s => bool_decide (ref_family s = ALPACA_HISTORICAL_BARS)
              | None => true
              end) EValueError "return observations require the historical-bars authority".

Definition CLUSTER_SESSION_WINDOW : nat := 126.

(** A node's observations of the window, and the sources of its series. *)
Record NodeSeries := mk_Series {
  ns_items : list (Z * Decimal);
  ns_refs : list SourceRef;
}.

Section series.
Context (cal : gmap Z MarketSession) (as_of : Z).

Definition bound_to (sid : string) (r : ReturnObservation) : bool :=
  bool_decide (ro_security_id r = Some sid) &&
  match ro_source_ref r with
  | Some s => bool_decide (ref_family s = ALPACA_HISTORICAL_BARS) &&
              bool_decide (ro_source_record_hash r = Some (ref_record_hash s)) &&
              bool_decide (is_Some (ro_identity_hash r))
  | None => false
  end.
Definition open_session (d : Z) : bool :=
  match cal !! d with
  | Some s => negb (is_closed s) && bool_decide (is_Some (ms_regular_session s))
  | None => false
  end.

(** The body of the loop over the returns for one node; [None] is a [continue]. *)
Definition node_series (sid : string) (series : list ReturnObservation) : outcome (option NodeSeries) :=
  let dates := ro_trading_date <$> series in
  if negb (forallb (bound_to sid) series) then Ok None
  else if (length series <? MIN_OBSERVATIONS)%nat then Ok None
  else if negb (forallb open_session dates) then Ok None
  else if existsb (λ d, utc_date as_of <=? d) dates then Ok None
  else if existsb (λ r, as_of <? ro_available_at r) series then Ok None
  else if negb (strictly_ordered dates) then Ok None
  else
    window ← latest_open_session_dates cal (utc_date as_of) CLUSTER_SESSION_WINDOW;
    if negb (length window =? CLUSTER_SESSION_WINDOW)%nat then Ok None
    else
      let items := filter (λ r, ro_trading_date r ∈ window) series in
      if (length items <? MIN_OBSERVATIONS)%nat then Ok None
      else Ok (Some (mk_Series ((λ r, (ro_trading_date r, ro_value r)) <$> items)
                               (canonical_refs (omap ro_source_ref series)))).

(** The series of the nodes among the returns, in the order of the mapping. *)
Fixpoint collect_series (nodes : list string) (m : gmap string NodeSeries)
    (returns : list (string * list ReturnObservation)) : outcome (gmap string NodeSeries) :=
  match returns with
  | [] => Ok m
  | (sid, series) :: returns =>
      if bool_decide (sid ∈ nodes) then
        s ← node_series sid series;
        collect_series nodes (match s with Some s => <[sid := s]> m | None => m end) returns
      else collect_series nodes m returns
  end.
End series.

(** A constant series has no correlation. *)
Definition degenerate (s : NodeSeries) : bool :=
  let values := (ns_items s).*2 in
  let mean := d_div (d_sum values) (dec_of_Z (Z.of_nat (length values))) in
  dec_leb (d_sum ((λ v, d_square (d_sub v mean)) <$> values)) dzero.

(** ** Pairs *)

Inductive PairVerdict := PAIR_UNKNOWN | PAIR_EDGE | PAIR_APART.
#[global] Instance PairVerdict_eq_dec : EqDecision PairVerdict.
Proof. solve_decision. Defined.

(** The values of a series on the common dates, both in the order of the dates. *)
Definition common_dates (a b : NodeSeries) : list Z :=
  sort_by Z.leb (filter (λ d, d ∈ (ns_items b).*1) (ns_items a).*1).
Definition values_on (s : NodeSeries) (dates : list Z) : list Decimal :=
  omap (λ d, (list_to_map (ns_items s) : gmap Z Decimal) !! d) dates.

Definition pair_verdict (a b : NodeSeries) : PairVerdict :=
  let common := common_dates a b in
  if (length common <? MIN_OBSERVATIONS)%nat then PAIR_UNKNOWN
  else
    let ri := values_on a common in
    let rj := values_on b common in
    match pearson ri rj with
    | None => PAIR_UNKNOWN
    | Some _ => if pearson_meets_threshold ri rj THRESHOLD then PAIR_EDGE else PAIR_APART
    end.

(** [for i, first in enumerate(l): for second in l[i + 1:]] *)
Fixpoint ordered_pairs {A} (l : list A) : list (A * A) :=
  match l with [] => [] | x :: l => ((x,.) <$> l) ++ ordered_pairs l end.

Section pairs.
Context (series : gmap string NodeSeries).

Definition complete_node (sid : string) : bool :=
  match series !! sid with Some s => negb (degenerate s) | None => false end.
Definition verdict (e : string * string) : PairVerdict :=
  match series !! e.1, series !! e.2 with
  | Some a, Some b => pair_verdict a b
  | _, _ => PAIR_UNKNOWN
  end.
(** The nodes of the pairs without a verdict. *)
Definition pair_unknown (complete : list string) : list string :=
  concat ((λ e, [e.1; e.2]) <$> filter (λ e, verdict e = PAIR_UNKNOWN) (ordered_pairs complete)).
Definition pair_edges (complete : list string) : list (string * string) :=
  filter (λ e, verdict e = PAIR_EDGE) (ordered_pairs complete).

(** The nodes with a verdict for every pair, among nodes in order. *)
Definition complete_nodes (nodes : list string) : list string :=
  filter (λ n, complete_node n = true) nodes.
Definition known_nodes (nodes : list string) : list string :=
  let complete := complete_nodes nodes in
  let bad := pair_unknown complete in
  filter (λ n, n ∉ bad) complete.
Definition unknown_nodes (nodes : list string) : list string :=
  let bad := pair_unknown (complete_nodes nodes) in
  filter (λ n, complete_node n = false ∨ n ∈ bad) nodes.
Definition known_edges (nodes : list string) : list (string * string) :=
  let complete := complete_nodes nodes in
  let bad := pair_unknown complete in
  filter (λ e, e.1 ∉ bad ∧ e.2 ∉ bad) (pair_edges complete).
End pairs.

(** ** Clusters *)

Inductive ClusterStatus := ASSIGNED | UNKNOWN.
#[global] Instance ClusterStatus_eq_dec : EqDecision ClusterStatus.
Proof. solve_decision. Defined.

Record ClusterResult := mk_Cluster {
  cl_id : string;
  cl_as_of : Z;
  cl_policy_hash : string;
  cl_manifest_hash : string;
  cl_members : list string;
  cl_status : ClusterStatus;
  cl_source_refs : list SourceRef;
}.

Definition MAX_CLUSTER_MEMBERS : nat := 256.
Definition MAX_CLUSTER_SOURCE_REFS : nat := 1024.

Section clusters.
Context (cluster_id : string → Z → list string → string) (manifest : string).

Definition check_ClusterResult (c : ClusterResult) : outcome unit :=
  guard_that (is_digest (cl_id c)) EValueError "cluster_id must be a SHA-256 digest" ≫= λ _,
  guard_that (is_digest (cl_policy_hash c) && is_digest (cl_manifest_hash c)) EValueError
    "cluster hashes must be SHA-256 digests" ≫= λ _,
  guard_that (length (cl_members c) <=? MAX_CLUSTER_MEMBERS)%nat EValueError
    "cluster members require at most 256 values" ≫= λ _,
  guard_that (length (cl_source_refs c) <=? MAX_CLUSTER_SOURCE_REFS)%nat EValueError
    "cluster source_refs require at most 1024 values" ≫= λ _,
  guard_that (bool_decide (NoDup (ref_record_id <$> cl_source_refs c))) EValueError
    "source_refs must use unique record identifiers" ≫= λ _,
  guard_that (bool_decide (cl_source_refs c = sort_by ref_leb (cl_source_refs c))) EValueError
    "source_refs must use canonical order" ≫= λ _,
  guard_that (forallb (λ r, bool_decide (ref_family r = ALPACA_HISTORICAL_BARS)) (cl_source_refs c))
    EValueError "cluster source_refs require the historical-bars authority" ≫= λ _,
  guard_that (negb (bool_decide (cl_status c = ASSIGNED) && bool_decide (cl_source_refs c = [])))
    EValueError "assigned clusters require typed historical-bars source references" ≫= λ _,
  guard_that (negb (bool_decide (cl_members c = []))) EValueError
    "cluster results must contain at least one member" ≫= λ _,
  guard_that (negb (bool_decide (cl_status c = UNKNOWN) && negb (length (cl_members c) =? 1)%nat))
    EValueError "UNKNOWN cluster results must identify exactly one member" ≫= λ _,
  guard_that (bool_decide (NoDup (cl_members c)) &&
              bool_decide (cl_members c = sort_by String.leb (cl_members c))) EValueError
    "cluster members must be sorted and unique" ≫= λ _,
  guard_that (bool_decide (cl_id c = cluster_id (cl_policy_hash c) (cl_as_of c) (cl_members c)))
    EValueError "cluster_id does not match the closed cluster content" ≫= λ _,
  guard_that (bool_decide (cl_manifest_hash c = manifest)) EValueError
    "cluster result requires the approved cluster manifest".

(** [_finalize_cluster_result] *)
Definition make_ClusterResult (c : ClusterResult) : outcome ClusterResult :=
  check_ClusterResult c ≫= λ _, Ok c.

Section build.
Context (policy : string) (as_of : Z).

Definition make_cluster (status : ClusterStatus) (refs : list SourceRef) (members : list string)
    : outcome ClusterResult :=
  make_ClusterResult (mk_Cluster (cluster_id policy as_of members) as_of policy manifest members
                                 status refs).

Definition node_refs (series : gmap string NodeSeries) (sid : string) : list SourceRef :=
  match series !! sid with Some s => ns_refs s | None => [] end.
Definition assigned_cluster (series : gmap string NodeSeries) (members : list string)
    : outcome ClusterResult :=
  make_cluster ASSIGNED (canonical_refs (concat (node_refs series <$> members))) members.
Definition unknown_cluster (series : gmap string NodeSeries) (sid : string) : outcome ClusterResult :=
  make_cluster UNKNOWN (node_refs series sid) [sid].

(** The order of the components: by their first members. *)
Definition component_leb (a b : list string) : bool := String.leb (default "" (head a)) (default "" (head b)).

(** What precedes the components: the checks, the nodes in order and their series. *)
Definition cluster_inputs (nodes : list string) (returns : list (string * list ReturnObservation))
    (sessions : list MarketSession) : outcome (gmap string NodeSeries) :=
  guard_that (is_digest policy) EValueError "policy_hash must be a SHA-256 digest" ≫= λ _,
  cal ← session_calendar sessions;
  guard_that (open_session cal (utc_date as_of)) EValueError
    "cluster as_of requires an explicit open NYSE session" ≫= λ _,
  guard_that (bool_decide (NoDup nodes)) EValueError "nodes must not repeat a security" ≫= λ _,
  collect_series cal as_of nodes ∅ returns.

(** [edge_order] is the order in which the set of edges is iterated. *)
Definition build_clusters (edge_order : list (string * string) → list (string * string))
    (nodes : list string) (returns : list (string * list ReturnObservation))
    (sessions : list MarketSession) : loop (list ClusterResult) :=
  series ← lift_loop (cluster_inputs nodes returns sessions);
  let ordered := sort_by String.leb nodes in
  components ← connect (known_nodes series ordered) (edge_order (known_edges series ordered));
  let components := sort_by component_leb (sort_by String.leb <$> components) in
  lift_loop (
    assigned ← mapM (assigned_cluster series) components;
    unknown ← mapM (unknown_cluster series) (unknown_nodes series ordered);
    Ok (assigned ++ unknown)).
End build.
End clusters.
