(* ===== verification/ClusterFacts.v ===== *)
(** * Properties of the correlation clusters

    The union-find loops of [build_clusters] always end; the clusters are the
    connected components of the known nodes and one UNKNOWN result per other node,
    whatever the order of the nodes and of the iteration over the set of edges. *)

From S2P Require Import Prelude Dicts Text Orders Decimals LedgerFacts Calendar Sources Factors FactorFacts Features Candidates ScreeningDemo FeatureFacts CandidateFacts Clusters.
From stdpp Require Import relations.
Local Open Scope Z_scope.

(** ** The normal form of a build *)

Lemma component_leb_total a b : component_leb a b = false → component_leb b a = true.
Proof. apply str_leb_total. Qed.
Lemma component_leb_trans a b c :
  component_leb a b = true → component_leb b c = true → component_leb a c = true.
Proof. apply str_leb_trans. Qed.

Lemma StronglySorted_weaken_on {A} (R S : relation A) (l : list A) :
  (∀ x y, x ∈ l → y ∈ l → R x y → S x y) → StronglySorted R l → StronglySorted S l.
Proof.
  intros H Hs. induction Hs as [|x l _ IH Hx]; [constructor|]. constructor.
  - apply IH. intros y z Hy Hz. apply H; by right.
  - apply Forall_forall. intros y Hy. apply H; [by left|by right|]. by apply (proj1 (Forall_forall _ _) Hx).
Qed.

Lemma components_sorted (f : string → string) l :
  StronglySorted (λ a b, String.leb a b = true) l →
  sort_by component_leb (sort_by String.leb <$> group_by f l) = group_by f l.
Proof.
  intros Hl. assert (Hgr : ∀ gr, gr ∈ group_by f l → sort_by String.leb gr = gr).
  { intros gr [_ Hs]%group_by_sublist. apply sort_by_sorted_id. by eapply StronglySorted_sublist. }
  assert (Hmap : sort_by String.leb <$> group_by f l = group_by f l).
  { revert Hgr. generalize (group_by f l). intros k. induction k as [|gr k IH]; intros H; [done|].
    rewrite fmap_cons, H, IH; [done|intros; apply H; by right|by left]. }
  rewrite Hmap. apply sort_by_sorted_id.
  eapply StronglySorted_weaken_on; [|by apply (group_by_heads f)].
  intros a b Ha Hb H. unfold component_leb. destruct (group_by_sublist _ _ _ Ha) as [Hna _].
  destruct (group_by_sublist _ _ _ Hb) as [Hnb _]. destruct a as [|x a], b as [|y b]; try done. by apply H.
Qed.

Lemma connected_incl e e' x y : (∀ p, p ∈ e → p ∈ e') → connected e x y → connected e' x y.
Proof.
  intros H. unfold connected. apply (rtsc_congruence (λ z, z)). intros a b. apply H.
Qed.

Lemma ordered_pairs_elem {A} (l : list A) a b : (a, b) ∈ ordered_pairs l → a ∈ l ∧ b ∈ l.
Proof.
  induction l as [|x l IH]; simpl; [by intros ?%elem_of_nil|].
  intros [(y & [= -> ->] & Hy)%list_elem_of_fmap|H]%elem_of_app.
  - split; [by left|by right].
  - destruct (IH H). split; by right.
Qed.

Lemma known_edges_in series nodes : edges_in (list_to_set (known_nodes series nodes)) (known_edges series nodes).
Proof.
  intros a b [[Ha Hb] [_ Hin]%list_elem_of_filter]%list_elem_of_filter.
  apply ordered_pairs_elem in Hin as [Hca Hcb]. rewrite !elem_of_list_to_set.
  split; by apply list_elem_of_filter.
Qed.

Section build.
Context (cluster_id : string → Z → list string → string) (manifest policy : string) (as_of : Z).
Local Notation build := (build_clusters cluster_id manifest policy as_of).
Local Notation inputs := (cluster_inputs policy as_of).
Local Notation assigned := (assigned_cluster cluster_id manifest policy as_of).
Local Notation unassigned := (unknown_cluster cluster_id manifest policy as_of).
Local Notation in_order := (sort_by String.leb).

Lemma in_order_sorted (l : list string) : StronglySorted (λ a b, String.leb a b = true) (in_order l).
Proof. apply sort_by_sorted; [apply str_leb_total|apply str_leb_trans]. Qed.
Lemma in_order_perm (l k : list string) : l ≡ₚ k → in_order l = in_order k.
Proof.
  intros Hp. apply sort_by_unique; [apply str_leb_total|apply str_leb_trans| |done].
  intros x y _ _. apply str_leb_antisym.
Qed.

(** What follows the components: one cluster for each, then the unknown nodes. *)
Definition clusters_of (series : gmap string NodeSeries) (ordered : list string)
    (components : list (list string)) : outcome (list ClusterResult) :=
  a ← mapM (assigned series) components;
  u ← mapM (unassigned series) (unknown_nodes series ordered);
  Ok (a ++ u).

(** Same key exactly when connected by known edges. *)
Definition component_key (series : gmap string NodeSeries) (ordered : list string) (f : string → string)
    : Prop :=
  ∀ x y, x ∈ known_nodes series ordered → y ∈ known_nodes series ordered →
    f x = f y ↔ connected (known_edges series ordered) x y.

Lemma build_normal edge_order nodes returns sessions series :
  (∀ l, edge_order l ≡ₚ l) → inputs nodes returns sessions = Ok series →
  ∃ f, component_key series (in_order nodes) f ∧
    build edge_order nodes returns sessions =
      Some (clusters_of series (in_order nodes) (group_by f (known_nodes series (in_order nodes)))).
Proof.
  intros Ho Hin. unfold build_clusters. rewrite Hin. simpl. set (ordered := in_order nodes).
  pose proof (Ho (known_edges series ordered)) as Hp.
  assert (He : edges_in (list_to_set (known_nodes series ordered)) (edge_order (known_edges series ordered))).
  { intros a b. rewrite Hp. apply known_edges_in. }
  destruct (connect_spec _ _ He) as (f & Hc & Hf). exists f. split.
  - intros x y Hx Hy. rewrite (Hf x y Hx Hy).
    split; apply connected_incl; intros p; by rewrite Hp.
  - rewrite Hc. simpl. rewrite components_sorted; [done|]. unfold known_nodes, complete_nodes.
    eapply StronglySorted_sublist; [etrans; apply sublist_filter|]. apply in_order_sorted.
Qed.

(** C37. The loops of the union-find end on every input: building clusters always
    returns or raises, whatever the order in which the set of edges is iterated. *)
Theorem build_clusters_terminates edge_order nodes returns sessions :
  (∀ l, edge_order l ≡ₚ l) →
  ∃ o, build_clusters cluster_id manifest policy as_of edge_order nodes returns sessions = Some o.
Proof.
  intros Ho. destruct (inputs nodes returns sessions) as [series|e] eqn:Hin.
  - destruct (build_normal _ _ _ _ _ Ho Hin) as (f & _ & ->). by eexists.
  - exists (Raise e). unfold build_clusters. by rewrite Hin.
Qed.

Lemma collect_series_perm cal nodes nodes' returns : nodes ≡ₚ nodes' → ∀ m,
  collect_series cal as_of nodes m returns = collect_series cal as_of nodes' m returns.
Proof.
  intros Hp. induction returns as [|[sid s] returns IH]; intros m; [done|]. simpl.
  rewrite (bool_decide_ext (sid ∈ nodes) (sid ∈ nodes')) by by rewrite Hp.
  destruct (bool_decide (sid ∈ nodes')); [|apply IH]. destruct (node_series cal as_of sid s); [apply IH|done].
Qed.
Lemma inputs_perm nodes nodes' returns sessions :
  nodes ≡ₚ nodes' → inputs nodes returns sessions = inputs nodes' returns sessions.
Proof.
  intros Hp. unfold cluster_inputs. rewrite (bool_decide_ext (NoDup nodes) (NoDup nodes')) by by rewrite Hp.
  destruct (guard_that _ _ _); [|done]. simpl. destruct (session_calendar sessions) as [cal|]; [|done]. simpl.
  by rewrite (collect_series_perm cal nodes nodes' returns Hp).
Qed.

(** Neither the order of the nodes nor the order in which Python iterates over the
    set of edges shows in the clusters. *)
Theorem build_clusters_order_free order order' nodes nodes' returns sessions :
  (∀ l, order l ≡ₚ l) → (∀ l, order' l ≡ₚ l) → nodes ≡ₚ nodes' →
  build_clusters cluster_id manifest policy as_of order nodes returns sessions =
  build_clusters cluster_id manifest policy as_of order' nodes' returns sessions.
Proof.
  intros Ho Ho' Hp. pose proof (inputs_perm nodes nodes' returns sessions Hp) as Hi.
  destruct (inputs nodes returns sessions) as [series|e] eqn:Hin.
  - symmetry in Hi. destruct (build_normal _ _ _ _ _ Ho Hin) as (f & Hf & ->).
    destruct (build_normal _ _ _ _ _ Ho' Hi) as (g & Hg & ->). rewrite <-(in_order_perm _ _ Hp) in *.
    do 2 f_equal. apply group_by_ext. intros x y Hx Hy. by rewrite (Hf x y Hx Hy), (Hg x y Hx Hy).
  - unfold build_clusters. by rewrite Hin, <-Hi.
Qed.

Lemma make_cluster_spec st refs members c :
  make_cluster cluster_id manifest policy as_of st refs members = Ok c →
  check_ClusterResult cluster_id manifest c = Ok () ∧ cl_members c = members ∧ cl_status c = st.
Proof.
  unfold make_cluster, make_ClusterResult. intros ([] & Hc & H)%obind_Ok. by injection H as <-.
Qed.

Lemma clusters_of_spec series ordered comps cs :
  clusters_of series ordered comps = Ok cs →
  (∀ c, c ∈ cs → check_ClusterResult cluster_id manifest c = Ok ()) ∧
  cl_members <$> cs = comps ++ ((λ x, [x]) <$> unknown_nodes series ordered) ∧
  (∀ m, m ∈ comps → ∃ c, c ∈ cs ∧ cl_status c = ASSIGNED ∧ cl_members c = m) ∧
  ∀ c, c ∈ cs → (cl_status c = ASSIGNED ∧ cl_members c ∈ comps) ∨
    (cl_status c = UNKNOWN ∧ ∃ x, x ∈ unknown_nodes series ordered ∧ cl_members c = [x]).
Proof.
  unfold clusters_of. intros (a & Ha & H)%obind_Ok. apply obind_Ok in H as (b & Hb & H). injection H as <-.
  assert (Hea : ∀ c, c ∈ a → ∃ m, m ∈ comps ∧ assigned series m = Ok c)
    by (intros c Hc; by eapply mapM_Ok_elem).
  assert (Heb : ∀ c, c ∈ b → ∃ x, x ∈ unknown_nodes series ordered ∧ unassigned series x = Ok c)
    by (intros c Hc; by eapply mapM_Ok_elem).
  apply mapM_Ok in Ha, Hb. split_and!.
  - intros c [(m & _ & Hm)%Hea|(x & _ & Hx)%Heb]%elem_of_app; by eapply make_cluster_spec.
  - rewrite fmap_app. f_equal.
    + clear -Ha. induction Ha as [|m c ms cs Hm _ IH]; [done|]. rewrite fmap_cons, IH. f_equal.
      by eapply make_cluster_spec.
    + clear -Hb. induction Hb as [|x c xs cs Hx _ IH]; [done|]. rewrite !fmap_cons, IH. f_equal.
      by eapply make_cluster_spec.
  - intros m [i Hi]%list_elem_of_lookup_1. destruct (Forall2_lookup_l _ _ _ _ _ Ha Hi) as (c & Hc & Hm).
    exists c. apply list_elem_of_lookup_2 in Hc. apply make_cluster_spec in Hm as (_ & Hm & Hs).
    split_and!; [apply elem_of_app; by left|done|done].
  - intros c [(m & Hm & Hc)%Hea|(x & Hx & Hc)%Heb]%elem_of_app;
      apply make_cluster_spec in Hc as (_ & Hm' & Hs); [left|right].
    + split; [done|congruence].
    + split; [done|]. by exists x.
Qed.

Lemma nodes_split series ordered :
  known_nodes series ordered ++ unknown_nodes series ordered ≡ₚ ordered.
Proof.
  unfold known_nodes, unknown_nodes, complete_nodes.
  set (bad := pair_unknown series (filter (λ n, complete_node series n = true) ordered)).
  rewrite list_filter_filter.
  rewrite (filter_iff_on (λ n, complete_node series n = false ∨ n ∈ bad)
    (λ n, ¬ (n ∉ bad ∧ complete_node series n = true)) ordered).
  - apply filter_app_complement.
  - intros x _. destruct (complete_node series x), (decide (x ∈ bad)); intuition congruence.
Qed.

(** C36. The clusters are a partition of the nodes: every node is in exactly one result;
    two nodes share an ASSIGNED cluster exactly when both are known and a chain of
    correlated pairs of known nodes joins them; an UNKNOWN result is a single node
    that is not known; and every result passes its checks. *)
Theorem build_clusters_partition edge_order nodes returns sessions cs :
  (∀ l, edge_order l ≡ₚ l) → build edge_order nodes returns sessions = Some (Ok cs) →
  ∃ series, inputs nodes returns sessions = Ok series ∧
    let known := known_nodes series (in_order nodes) in
    NoDup nodes ∧ concat (cl_members <$> cs) ≡ₚ nodes ∧
    (∀ c, c ∈ cs → check_ClusterResult cluster_id manifest c = Ok ()) ∧
    (∀ x y, (∃ c, c ∈ cs ∧ cl_status c = ASSIGNED ∧ x ∈ cl_members c ∧ y ∈ cl_members c) ↔
       x ∈ known ∧ y ∈ known ∧ connected (known_edges series (in_order nodes)) x y) ∧
    (∀ c, c ∈ cs → cl_status c = UNKNOWN → ∃ x, cl_members c = [x] ∧ x ∈ nodes ∧ x ∉ known).
Proof.
  intros Ho Hb. destruct (inputs nodes returns sessions) as [series|e] eqn:Hin.
  2: { exfalso. unfold build_clusters in Hb. by rewrite Hin in Hb. }
  exists series. split; [done|]. set (ordered := in_order nodes). cbv zeta.
  destruct (build_normal _ _ _ _ _ Ho Hin) as (f & Hf & Hn). rewrite Hn in Hb. injection Hb as Hb.
  apply clusters_of_spec in Hb as (Hck & Hm & Hcomp & Hcs). fold ordered in Hf, Hm, Hcomp, Hcs.
  assert (Hnd : NoDup nodes).
  { unfold cluster_inputs in Hin. apply obind_Ok in Hin as ([] & _ & Hin).
    apply obind_Ok in Hin as (cal & _ & Hin). apply obind_Ok in Hin as ([] & _ & Hin).
    by apply obind_Ok in Hin as ([] & ?%guard_Ok%bool_decide_eq_true & _). }
  assert (Hperm : known_nodes series ordered ++ unknown_nodes series ordered ≡ₚ nodes)
    by (rewrite nodes_split; apply sort_by_perm).
  split_and!; [done| |done| |].
  - rewrite Hm, concat_app, group_by_concat.
    replace (concat ((λ x, [x]) <$> unknown_nodes series ordered)) with (unknown_nodes series ordered); [done|].
    generalize (unknown_nodes series ordered). clear. induction l as [|x l IH]; [done|].
    rewrite fmap_cons. simpl. by rewrite <-IH.
  - intros x y. split.
    + intros (c & Hc & Hs & Hx & Hy). destruct (Hcs c Hc) as [[_ Hg]|[Hu _]]; [|congruence].
      destruct (group_by_sublist f _ _ Hg) as [_ Hsub].
      assert (Hxk : x ∈ known_nodes series ordered) by by eapply sublist_elem.
      assert (Hyk : y ∈ known_nodes series ordered) by by eapply sublist_elem.
      split_and!; [done|done|]. apply (Hf x y Hxk Hyk).
      destruct (group_by_key f _ _ Hg) as [k Hk]. destruct (Hk x Hx) as [_ ->], (Hk y Hy) as [_ ->]. done.
    + intros (Hx & Hy & Hxy). apply (Hf x y Hx Hy) in Hxy.
      destruct (group_by_elem f _ _ _ Hx Hy Hxy) as (gr & Hgr & Hxg & Hyg).
      destruct (Hcomp gr Hgr) as (c & Hc & Hs & <-). by exists c.
  - intros c Hc Hs. destruct (Hcs c Hc) as [[Ha _]|(_ & x & Hx & Hmx)]; [congruence|].
    exists x. assert (Hdis : NoDup (known_nodes series ordered ++ unknown_nodes series ordered)) by by rewrite Hperm.
    apply NoDup_app in Hdis as (_ & Hdis & _). split_and!; [done| |intros Hk; by apply (Hdis x Hk)].
    rewrite <-Hperm. apply elem_of_app. by right.
Qed.
End build.

(** Two securities that move together and one without a series. *)
Definition demo_id (policy : string) (as_of : Z) (members : list string) : string := demo_hash.
Definition demo_observation (sid : string) (d : Z) : ReturnObservation :=
  mk_Return d (mk_dec (if d `mod` 2 =? 0 then 1 else -1) (-2)) (d * DAY + 22 * HOUR) (Some sid)
    (Some demo_bars) (Some demo_hash) (Some demo_hash).
Definition demo_returns (sid : string) : list ReturnObservation :=
  demo_observation sid <$> last_n 100 (filter (λ d, weekday d < 5) (seqZ (demo_day - 160) 160)).
Definition demo_nodes : list string := ["00000003"; "00000002"; "00000001"].
Definition demo_mapping : list (string * list ReturnObservation) :=
  [("00000001", demo_returns "00000001"); ("00000002", demo_returns "00000002")].
Local Notation demo_build order nodes :=
  (build_clusters demo_id demo_hash demo_hash demo_as_of order nodes demo_mapping demo_sessions).
Definition clusters_in (o : loop (list ClusterResult)) : list ClusterResult :=
  match o with Some (Ok cs) => cs | _ => [] end.
Definition demo_clusters : list ClusterResult := Eval vm_compute in clusters_in (demo_build reverse demo_nodes).
Definition clustered_demo : Prop := demo_build reverse demo_nodes = Some (Ok demo_clusters).
Lemma demo_clustered : clustered_demo.
Proof. by vm_compute. Qed.
Example demo_members :
  (λ c, (cl_members c, cl_status c)) <$> demo_clusters =
    [(["00000001"; "00000002"], ASSIGNED); (["00000003"], UNKNOWN)].
Proof. by vm_compute. Qed.

Lemma reverse_order {A} (l : list A) : reverse l ≡ₚ l.
Proof. apply reverse_Permutation. Qed.

Lemma build_clusters_terminates_witness :
  (∀ l : list (string * string), reverse l ≡ₚ l) ∧ ∃ o, demo_build reverse demo_nodes = Some o.
Proof.
  split; [exact reverse_order|].
  exact (build_clusters_terminates demo_id demo_hash demo_hash demo_as_of reverse demo_nodes
    demo_mapping demo_sessions reverse_order).
Defined.

Lemma build_clusters_order_free_witness :
  ((∀ l : list (string * string), reverse l ≡ₚ l) ∧ demo_nodes ≡ₚ reverse demo_nodes) ∧
  demo_build reverse demo_nodes = demo_build (λ l, l) (reverse demo_nodes).
Proof.
  assert (Hp : demo_nodes ≡ₚ reverse demo_nodes) by (symmetry; apply reverse_order).
  split; [exact (conj reverse_order Hp)|].
  exact (build_clusters_order_free demo_id demo_hash demo_hash demo_as_of reverse (λ l, l) demo_nodes
    (reverse demo_nodes) demo_mapping demo_sessions reverse_order (λ l, Permutation_refl l) Hp).
Defined.

Lemma build_clusters_partition_witness :
  ((∀ l : list (string * string), reverse l ≡ₚ l) ∧ clustered_demo) ∧
  concat (cl_members <$> demo_clusters) ≡ₚ demo_nodes.
Proof.
  split; [exact (conj reverse_order demo_clustered)|].
  destruct (build_clusters_partition demo_id demo_hash demo_hash demo_as_of reverse demo_nodes
    demo_mapping demo_sessions demo_clusters reverse_order demo_clustered) as (series & _ & _ & H & _).
  exact H.
Defined.
