(* ===== verification/Promotion.v ===== *)
(** * The state machines of memory: [memory/promotion.py], [memory/reflection.py]

    Two stores under a lock, each method one step: the artifacts with their single current
    pointer and the promoter over them, and the append-only reflection records. *)

From S2P Require Import Prelude Text Calendar Json Instants Sources Memory.

Local Open Scope Z_scope.

(** * Promotion of memory: [memory/promotion.py]

    The repository of artifacts with its single current pointer, and the promoter
    over a content store.  The store is an interface: what it answers and how its state
    changes is its own.  The clock of a promotion is an argument of the call; the lock
    makes each method one step.  Every raise of the repository precedes its writes. *)

(** ** The repository *)

Record PromotionEvent := mk_Promotion { pe_artifact_id : string; pe_promoted_at : Z }.
Record ValidationContext := mk_Context {
  vc_source_records : list (string * DailyReflectionRecord);
  vc_requested_cutoff : Z;
}.
Record PromotionRepo := mk_PromotionRepo {
  pr_artifacts : gmap string MemoryArtifact;
  pr_current_id : option string;
  pr_promotion_history : list PromotionEvent;
  pr_validation_contexts : gmap string ValidationContext;
  pr_invalidation_reasons : gmap string MemoryInvalidationReason.t;
}.
Definition empty_repo : PromotionRepo := mk_PromotionRepo ∅ None [] ∅ ∅.
Definition put_artifact (a : MemoryArtifact) (s : PromotionRepo) : PromotionRepo :=
  mk_PromotionRepo (<[ar_artifact_id a := a]> (pr_artifacts s)) (pr_current_id s) (pr_promotion_history s)
    (pr_validation_contexts s) (pr_invalidation_reasons s).
Definition put_context (i : string) (c : option ValidationContext) (s : PromotionRepo) : PromotionRepo :=
  mk_PromotionRepo (pr_artifacts s) (pr_current_id s) (pr_promotion_history s)
    (partial_alter (λ _, c) i (pr_validation_contexts s)) (pr_invalidation_reasons s).
Definition put_reason (i : string) (r : MemoryInvalidationReason.t) (s : PromotionRepo) : PromotionRepo :=
  mk_PromotionRepo (pr_artifacts s) (pr_current_id s) (pr_promotion_history s) (pr_validation_contexts s)
    (<[i := r]> (pr_invalidation_reasons s)).
Definition is_state (st : ArtifactState.t) (a : MemoryArtifact) : bool := bool_decide (ar_state a = st).

Section promotion.
Context {E : MemoryEnv}.

Definition register_candidate (a : MemoryArtifact) (s : PromotionRepo) : outcome (unit * PromotionRepo) :=
  guard_that (is_state ArtifactState.CANDIDATE a) EValueError "only an exact candidate can be registered" ≫= λ _,
  check_MemoryArtifact a ≫= λ _,
  match pr_artifacts s !! ar_artifact_id a with
  | Some existing =>
      guard_that (bool_decide (ar_content_hash existing = ar_content_hash a)) ERuntimeError
        "memory artifact identity collision" ≫= λ _, Ok ((), s)
  | None =>
      guard_that (bool_decide (ar_previous_artifact_id a = pr_current_id s)) ERuntimeError
        (match pr_current_id s with
         | None => "initial artifact has foreign predecessor lineage"
         | Some _ => "candidate predecessor is not the exact current artifact"
         end) ≫= λ _,
      match ar_previous_artifact_id a with
      | None => Ok ()
      | Some p =>
          match pr_artifacts s !! p with
          | None => raise EKeyError "previous artifact"
          | Some previous =>
              guard_that ((ar_cutoff_at previous <=? ar_cutoff_at a) && (ar_created_at previous <=? ar_created_at a))
                ERuntimeError "candidate predecessor chronology is invalid"
          end
      end ≫= λ _,
      Ok ((), put_artifact a s)
  end.

(** The reason code of a result, where it is INVALID. *)
Definition result_reason (r : ValidationResult) : outcome (option MemoryInvalidationReason.t) :=
  if is_state ArtifactState.INVALID (vr_artifact r) then reason ← invalidation_reason_code r; Ok (Some reason)
  else Ok None.
Definition known_artifact (a : MemoryArtifact) (message : string) (s : PromotionRepo) : outcome MemoryArtifact :=
  match pr_artifacts s !! ar_artifact_id a with
  | Some existing =>
      guard_that (bool_decide (ar_content_hash existing = ar_content_hash a)) ERuntimeError message ≫= λ _,
      Ok existing
  | None => raise ERuntimeError message
  end.
Definition save_validation (r : ValidationResult) (context : option ValidationContext) (s : PromotionRepo)
    : outcome (unit * PromotionRepo) :=
  let a := vr_artifact r in
  guard_that (is_state ArtifactState.VALIDATED a || is_state ArtifactState.INVALID a) EValueError
    "validation result state is invalid" ≫= λ _,
  guard_that (implb (is_state ArtifactState.VALIDATED a) (result_valid r)) EValueError
    "validated artifact requires a successful validation result" ≫= λ _,
  guard_that (implb (is_state ArtifactState.INVALID a) (negb (result_valid r))) EValueError
    "invalid artifact requires an unsuccessful validation result" ≫= λ _,
  reason ← result_reason r;
  existing ← known_artifact a "candidate is unavailable for validation" s;
  if is_state ArtifactState.CURRENT existing then
    guard_that (negb (is_state ArtifactState.INVALID a)) ERuntimeError
      "current artifact cannot be invalidated" ≫= λ _, Ok ((), s)
  else if is_state ArtifactState.INVALID existing then
    guard_that (is_state ArtifactState.INVALID a) ERuntimeError "invalid artifact cannot be revived" ≫= λ _,
    guard_that (bool_decide (pr_invalidation_reasons s !! ar_artifact_id a = reason)) ERuntimeError
      "invalid artifact identity collision" ≫= λ _, Ok ((), s)
  else
    let s := put_artifact a s in
    match reason with
    | Some reason => Ok ((), put_reason (ar_artifact_id a) reason (put_context (ar_artifact_id a) None s))
    | None => Ok ((), put_context (ar_artifact_id a) context s)
    end.
Definition mark_validated (r : ValidationResult) (context : option ValidationContext) (s : PromotionRepo)
    : outcome (unit * PromotionRepo) :=
  guard_that (result_valid r) EValueError
    "only an exact successful validation result can be marked validated" ≫= λ _,
  save_validation r context s.
Definition mark_invalid (r : ValidationResult) (s : PromotionRepo) : outcome (bool * PromotionRepo) :=
  let a := vr_artifact r in
  guard_that (negb (result_valid r)) EValueError
    "only an exact unsuccessful validation result can be marked invalid" ≫= λ _,
  reason ← invalidation_reason_code r;
  guard_that (is_state ArtifactState.INVALID a) EValueError "invalid result must carry an INVALID artifact" ≫= λ _,
  existing ← known_artifact a "candidate is unavailable for invalidation" s;
  guard_that (negb (is_state ArtifactState.CURRENT existing)) ERuntimeError
    "current artifact cannot be invalidated" ≫= λ _,
  if is_state ArtifactState.INVALID existing then
    guard_that (bool_decide (pr_invalidation_reasons s !! ar_artifact_id a = Some reason)) ERuntimeError
      "invalid artifact identity collision" ≫= λ _, Ok (false, s)
  else Ok (true, put_reason (ar_artifact_id a) reason (put_context (ar_artifact_id a) None (put_artifact a s))).

Definition promote (now : Z) (artifact_id content_hash : string) (s : PromotionRepo)
    : outcome (MemoryArtifact * PromotionRepo) :=
  match pr_artifacts s !! artifact_id with
  | None => raise ERuntimeError "validated artifact identity is unavailable"
  | Some a =>
      guard_that (bool_decide (ar_content_hash a = content_hash)) ERuntimeError
        "validated artifact identity is unavailable" ≫= λ _,
      if is_state ArtifactState.CURRENT a then Ok (a, s)
      else
        guard_that (is_state ArtifactState.VALIDATED a) ERuntimeError
          "only a validated artifact can be promoted" ≫= λ _,
        guard_that (bool_decide (ar_previous_artifact_id a = pr_current_id s)) ERuntimeError
          "candidate lost the atomic current-pointer race" ≫= λ _,
        guard_that (ar_created_at a <=? now) ERuntimeError "promotion time predates artifact creation" ≫= λ _,
        guard_that (match last (pr_promotion_history s) with Some e => pe_promoted_at e <=? now | None => true end)
          ERuntimeError "promotion clock moved backwards" ≫= λ _,
        current ← artifact_with_state ArtifactState.CURRENT a;
        Ok (current, mk_PromotionRepo (<[artifact_id := current]> (pr_artifacts s)) (Some artifact_id)
          (pr_promotion_history s ++ [mk_Promotion artifact_id now]) (pr_validation_contexts s)
          (pr_invalidation_reasons s))
  end.
Definition current_artifact (s : PromotionRepo) : option MemoryArtifact := i ← pr_current_id s; pr_artifacts s !! i.
Definition promoted_by (as_of : Z) (s : PromotionRepo) (e : PromotionEvent) : option MemoryArtifact :=
  a ← pr_artifacts s !! pe_artifact_id e;
  if (ar_cutoff_at a <=? as_of) && (ar_created_at a <=? as_of) && (pe_promoted_at e <=? as_of) then Some a else None.
Definition safe_history (as_of : Z) (s : PromotionRepo) : list MemoryArtifact :=
  omap (promoted_by as_of s) (reverse (pr_promotion_history s)).
End promotion.

(** ** The promoter *)

(** [ContentStore]: [put] answers the hash and the size it stored. *)
Class ContentStore (S : Type) := mk_ContentStore {
  cs_put : string → string → M S (string * Z);
  cs_get : string → M S string;
}.
Record PromoterState (S : Type) := mk_Promoter { ps_store : S; ps_repo : PromotionRepo }.
Arguments mk_Promoter {S} _ _.
Arguments ps_store {S} _.
Arguments ps_repo {S} _.
Record MemorySelection := mk_Selection { ms_artifact : option MemoryArtifact; ms_alert : option (string * Z) }.

Section promoter.
Context {E : MemoryEnv} {S : Type} {C : ContentStore S}.

Definition on_store {A} (m : M S A) : M (PromoterState S) A := λ w,
  let '(o, s) := m (ps_store w) in (o, mk_Promoter s (ps_repo w)).
Definition on_repo {A} (f : PromotionRepo → outcome (A * PromotionRepo)) : M (PromoterState S) A := λ w,
  match f (ps_repo w) with
  | Ok (a, r) => (Ok a, mk_Promoter (ps_store w) r)
  | Raise e => (Raise e, w)
  end.

(** [failure_injector], called after each step with its name, may raise. *)
Definition validate_and_promote (inject : string → outcome unit) (now : Z) (a : MemoryArtifact)
    (items : list (string * DailyReflectionRecord)) (requested_cutoff : Z) : M (PromoterState S) ValidationResult :=
  lift (guard_that (is_state ArtifactState.CANDIDATE a) EValueError "promotion requires a candidate artifact") ≫= λ _,
  let content := canonical_content_bytes a in
  stored ← on_store (cs_put content (ar_content_hash a));
  readback ← on_store (cs_get (ar_content_hash a));
  lift (guard_that (bool_decide (readback = content) && bool_decide (stored.1 = ar_content_hash a) &&
                    (stored.2 =? Z.of_nat (String.length content)) &&
                    bool_decide (me_sha256 readback = ar_content_hash a)) ERuntimeError
    "staged memory bytes failed exact verification") ≫= λ _,
  lift (inject "bytes") ≫= λ _,
  on_repo (register_candidate a) ≫= λ _,
  lift (inject "register") ≫= λ _,
  result ← lift (validate a items requested_cutoff);
  (if result_valid result then on_repo (mark_validated result (Some (mk_Context items requested_cutoff)))
   else _ ← on_repo (mark_invalid result); mret ()) ≫= λ _,
  lift (inject "validate") ≫= λ _,
  if result_valid result then
    on_repo (promote now (ar_artifact_id a) (ar_content_hash a)) ≫= λ _,
    lift (inject "promote") ≫= λ _, mret result
  else mret result.

(** The loop of [select_for_as_of] over the history, latest promotion first. *)
Fixpoint select_from (as_of : Z) (contexts : gmap string ValidationContext) (l : list MemoryArtifact)
    : M (PromoterState S) MemorySelection :=
  match l with
  | [] => mret (mk_Selection None (Some ("NO_SAFE_MEMORY", as_of)))
  | a :: l =>
      match contexts !! ar_artifact_id a with
      | None => select_from as_of contexts l
      | Some context =>
          try_else (on_store (cs_get (ar_content_hash a)))
            (λ e, if exn_isa (exn_cls e) EContentStoreMissing then select_from as_of contexts l
                  else if exn_isa (exn_cls e) EContentStore || exn_isa (exn_cls e) EOS
                  then throw EMemorySelection "memory selection content store failure"
                  else rethrow e)
            (λ content,
               match check_MemoryArtifact (set_state ArtifactState.CANDIDATE a) ≫= λ _,
                     validate (set_state ArtifactState.CANDIDATE a) (vc_source_records context)
                       (vc_requested_cutoff context) with
               | Raise _ => throw EMemorySelection "memory selection validation failed"
               | Ok revalidated =>
                   lift (guard_that (bool_decide (content = canonical_content_bytes a) &&
                                     bool_decide (me_sha256 content = ar_content_hash a)) EMemorySelection
                     "memory selection content integrity failed") ≫= λ _,
                   if result_valid revalidated then mret (mk_Selection (Some a) None)
                   else select_from as_of contexts l
               end)
      end
  end.
Definition select_for_as_of (as_of : Z) : M (PromoterState S) MemorySelection := λ w,
  select_from as_of (pr_validation_contexts (ps_repo w)) (safe_history as_of (ps_repo w)) w.
End promoter.

(** * Reflection records: [memory/reflection.py]

    The append-only repository: the list of its records, oldest first; the lock makes
    each method one step.  The pipeline that writes to it is not modelled. *)

Local Open Scope Z_scope.

Definition find_record (i : string) (s : list DailyReflectionRecord) : option DailyReflectionRecord :=
  head (filter (λ r, dr_record_id r = i) s).

Section repository.
Context {E : MemoryEnv}.

(** The walk along the corrections from the target; the fuel bounds the distinct
    records on the path. *)
Fixpoint walk_corrections (fuel : nat) (s : list DailyReflectionRecord) (record_id : string) (visited : list string)
    (cursor : option string) : outcome unit :=
  match fuel, cursor with
  | S fuel, Some c =>
      guard_that (negb (bool_decide (c = record_id) || bool_decide (c ∈ visited))) ERuntimeError
        "correction supersedes lineage contains a cycle" ≫= λ _,
      match find_record c s with
      | None => Ok ()
      | Some prior =>
          check_DailyReflectionRecord prior ≫= λ _,
          walk_corrections fuel s record_id (c :: visited) (mjoin (head (correction_targets prior)))
      end
  | _, _ => Ok ()
  end.
(** No other record supersedes the target. *)
Definition check_head (s : list DailyReflectionRecord) (target : string) : outcome unit :=
  mapM (λ existing,
    check_DailyReflectionRecord existing ≫= λ _,
    guard_that (negb (bool_decide (Some target ∈ correction_targets existing))) ERuntimeError
      "correction supersedes target already has a correction head") s ≫= λ _, Ok ().
Definition check_target (s : list DailyReflectionRecord) (r : DailyReflectionRecord) (target : option string) : outcome unit :=
  match target with
  | None => raise ERuntimeError "correction supersedes target is unknown"
  | Some t =>
      match find_record t s with
      | None => raise EKeyError "correction target"
      | Some prior =>
          check_DailyReflectionRecord prior ≫= λ _,
          guard_that ((dr_available_at prior <=? dr_cutoff_at r) && (dr_cutoff_at prior <=? dr_cutoff_at r) &&
                      (dr_created_at prior <=? dr_created_at r)) ERuntimeError
            "correction supersedes target chronology is invalid" ≫= λ _,
          walk_corrections (S (S (length s))) s (dr_record_id r) [] (Some t) ≫= λ _,
          check_head s t
      end
  end.
Definition is_known (s : list DailyReflectionRecord) (target : option string) : bool :=
  match target with Some t => bool_decide (is_Some (find_record t s)) | None => false end.
Definition append (r : DailyReflectionRecord) (s : list DailyReflectionRecord) : outcome (unit * list DailyReflectionRecord) :=
  check_DailyReflectionRecord r ≫= λ _,
  match find_record (dr_record_id r) s with
  | Some existing =>
      check_DailyReflectionRecord existing ≫= λ _,
      guard_that (bool_decide (dr_content_hash existing = dr_content_hash r) &&
                  bool_decide (dr_correction_reason existing = dr_correction_reason r)) ERuntimeError
        "reflection identity collision" ≫= λ _, Ok ((), s)
  | None =>
      guard_that (forallb (is_known s) (correction_targets r)) ERuntimeError
        "correction supersedes target is unknown" ≫= λ _,
      mapM (check_target s r) (correction_targets r) ≫= λ _,
      Ok ((), s ++ [r])
  end.
Definition get (i : string) (s : list DailyReflectionRecord) : outcome (option DailyReflectionRecord) :=
  match find_record i s with
  | None => Ok None
  | Some r => check_DailyReflectionRecord r ≫= λ _, Ok (Some r)
  end.

Definition reflection_leb (a b : DailyReflectionRecord) : bool :=
  (dr_available_at a <? dr_available_at b) ||
  ((dr_available_at a =? dr_available_at b) && String.leb (dr_record_id a) (dr_record_id b)).
Definition visible_at (as_of : Z) (s : list DailyReflectionRecord) : list DailyReflectionRecord :=
  filter (λ r, dr_available_at r ≤ as_of) s.
Definition superseded_ids (visible : list DailyReflectionRecord) : list string :=
  filter (λ i, i ∈ dr_record_id <$> visible) (omap ob_supersedes_record_id (visible ≫= corrections)).
Definition records_as_of (as_of : Z) (s : list DailyReflectionRecord) : outcome (list DailyReflectionRecord) :=
  mapM check_DailyReflectionRecord s ≫= λ _,
  let visible := visible_at as_of s in
  Ok (sort_by reflection_leb (filter (λ r, dr_record_id r ∉ superseded_ids visible) visible)).
End repository.
