(* ===== verification/MemoryFacts.v ===== *)
(** * Facts about memory

    The validator decides a specification of what an artifact may say: every fact token of
    its text is a typed fact it cites from its own sources, nothing was available only
    later, and category and importance are those derived from the sources.  A selection is
    bounded, ranked and derived from the sources, whatever providers say of importance. *)

From S2P Require Import Prelude Errors Dicts Text LedgerFacts Calendar Json Instants Sources Memory.

Local Open Scope Z_scope.

(** ** Stages *)

Lemma first_issue_app l k : first_issue (l ++ k) =
  o ← first_issue l; match o with Some i => Ok (Some i) | None => first_issue k end.
Proof.
  induction l as [|st l IH]; [done|]. simpl. destruct st as [[i|]|e]; simpl; [done|apply IH|done].
Qed.
Lemma first_issue_pass l : first_issue l = Ok None ↔ Forall (λ st, st = Ok None) l.
Proof.
  induction l as [|st l IH]; simpl; [by split; constructor|]. rewrite Forall_cons, <-IH.
  destruct st as [[i|]|e]; simpl; naive_solver.
Qed.
(** Stages that only stop with issues whose stage has a reason among [ok], and do not raise. *)
Definition reports (ok : MemoryInvalidationReason.t → bool) (st : stage) : Prop :=
  match st with
  | Ok (Some (s, _)) => ∃ r, invalidation_reason s = Some r ∧ ok r = true
  | Ok None => True
  | Raise _ => False
  end.
Lemma reports_expect ok b s code r : invalidation_reason s = Some r → ok r = true → reports ok (expect_that b s code).
Proof. intros. destruct b; simpl; eauto. Qed.
Lemma reports_try ok o s code r : raises EValueError o → invalidation_reason s = Some r → ok r = true →
  reports ok (try_stage o s code).
Proof. intros Hr H1 H2. destruct o as [|e]; simpl; [done|]. simpl in Hr. rewrite Hr. simpl. eauto. Qed.
Lemma reports_first ok l : Forall (reports ok) l → reports ok (first_issue l).
Proof.
  induction 1 as [|st l Hst _ IH]; [done|]. simpl. by destruct st as [[[s c]|]|e].
Qed.
Lemma reports_app ok l k : reports ok (first_issue l) → (first_issue l = Ok None → reports ok (first_issue k)) →
  reports ok (first_issue (l ++ k)).
Proof. rewrite first_issue_app. destruct (first_issue l) as [[[s c]|]|e]; simpl; auto. Qed.

Lemma expect_pass b s code : expect_that b s code = Ok None ↔ b = true.
Proof. by destruct b. Qed.
Lemma try_pass o s code : try_stage o s code = Ok None ↔ o = Ok ().
Proof. destruct o as [[]|e]; simpl; [done|]. by destruct (exn_isa _ _). Qed.

Lemma length_bind_bound {A B} (f : A → list B) n l : (∀ x, x ∈ l → (length (f x) ≤ n)%nat) →
  (length (l ≫= f) ≤ length l * n)%nat.
Proof.
  induction l as [|x l IH]; intros H; [simpl; lia|]. rewrite bind_cons, length_app. simpl.
  pose proof (H x ltac:(by left)). assert ((length (l ≫= f) ≤ length l * n)%nat) by (apply IH; set_solver). lia.
Qed.

(** ** The checks raise [ValueError] only *)

Section facts.
Context {E : MemoryEnv}.

Lemma raises_exact_text n h s : raises EValueError (exact_text n h s).
Proof. unfold exact_text, validate_sanitized_text. auto 10 with raises. Qed.
Lemma raises_check_ref s : raises EValueError (check_ref s).
Proof. unfold check_ref. auto using raises_exact_text with raises. Qed.
Lemma raises_check_version s : raises EValueError (check_version s).
Proof. unfold check_version. auto using raises_exact_text with raises. Qed.
Lemma raises_check_refs n b l : raises EValueError (check_ref_tuple n b l).
Proof. unfold check_ref_tuple, check_tuple. auto 10 using raises_check_ref with raises. Qed.
Lemma raises_close_text t f r : raises EValueError (close_text t f r).
Proof. unfold close_text. auto 10 with raises. Qed.
Lemma raises_closure t f c r : raises EValueError (validate_text_fact_closure t f c r).
Proof. unfold validate_text_fact_closure. auto using raises_close_text with raises. Qed.
Lemma raises_reject t : raises EValueError (reject_instruction_like_text t).
Proof. unfold reject_instruction_like_text. auto with raises. Qed.
#[local] Hint Resolve raises_exact_text raises_check_ref raises_check_version raises_check_refs raises_closure
  raises_reject : raises.
Lemma raises_record r : raises EValueError (check_DailyReflectionRecord r).
Proof.
  unfold check_DailyReflectionRecord, check_lineage, check_corrections, check_hash, check_tuple, check_closure.
  auto 30 with raises.
Qed.
Lemma raises_artifact a : raises EValueError (check_MemoryArtifact a).
Proof. unfold check_MemoryArtifact, check_hash, check_tuple. auto 30 with raises. Qed.

(** ** The closure of a text *)

(** Every token of the text that looks like a fact is the value of a cited fact. *)
Record text_closed (text : string) (cited : list FactRef) (reasons : list string) : Prop := mk_text_closed {
  tc_dates : ∀ m, m ∈ x_finditer DATE_TOKEN text → m.2 ∈ values_of FactKind.DATE cited;
  tc_numbers : ∀ m, m ∈ x_finditer NUMBER_TOKEN text → m.2 ∈ values_of FactKind.NUMBER cited ∨
    ∃ d, d ∈ x_finditer DATE_TOKEN text ∧ in_span m d = true;
  tc_scientific : x_search SCIENTIFIC_TOKEN text = false;
  tc_upper : ∀ m, m ∈ x_finditer UPPER_TOKEN text → m.2 ∈ values_of FactKind.SYMBOL cited ∨ m.2 ∈ reasons;
  tc_reasons : ∀ v, v ∈ reasons → v ∈ values_of FactKind.RISK_REASON cited;
  tc_folded : ∀ v, v ∈ values_of FactKind.SYMBOL cited ++ values_of FactKind.RISK_REASON cited →
    occurs v text = true ∨ x_search (edged (me_casefold v)) (me_casefold text) = false;
}.
Lemma forallb_spec {A} (p : A → bool) l : forallb p l = true ↔ ∀ x, x ∈ l → p x = true.
Proof. rewrite forallb_forall. by setoid_rewrite list_elem_of_In. Qed.
Lemma all_in_spec l k : all_in l k = true ↔ ∀ x, x ∈ l → x ∈ k.
Proof. unfold all_in. rewrite forallb_spec. by setoid_rewrite bool_decide_eq_true. Qed.
Lemma subset_of_spec l k : subset_of l k = true ↔ ∀ x, x ∈ l → x ∈ k.
Proof. apply all_in_spec. Qed.
Lemma elem_snd {A B} (x : A * B) l (P : B → Prop) : (∀ y, y ∈ l.*2 → P y) → x ∈ l → P x.2.
Proof. intros H Hx. by apply H, list_elem_of_fmap_2. Qed.
Lemma close_text_Ok text cited reasons : close_text text cited (Some reasons) = Ok () ↔ text_closed text cited reasons.
Proof.
  unfold close_text. rewrite !guard_bind_Ok, guard_unit_Ok, !all_in_spec, !forallb_spec, negb_true_iff.
  setoid_rewrite orb_true_iff. setoid_rewrite negb_true_iff. setoid_rewrite bool_decide_eq_true. split.
  - intros (H1 & H2 & H3 & H4 & H5 & H6). split; try done.
    + intros m Hm. by apply (elem_snd m (x_finditer DATE_TOKEN text) (λ v, v ∈ values_of FactKind.DATE cited)).
    + intros m Hm. destruct (H3 m Hm) as [Hd|]; [right|by left]. apply existsb_exists in Hd as (d & Hd & ?).
      exists d. by rewrite list_elem_of_In.
    + intros m Hm. apply elem_of_app.
      by apply (elem_snd m (x_finditer UPPER_TOKEN text) (λ v, v ∈ values_of FactKind.SYMBOL cited ++ reasons)).
  - intros [H1 H2 H3 H4 H5 H6]. split_and!; try done.
    + intros v (m & -> & Hm)%list_elem_of_fmap. by apply H1.
    + intros m Hm. destruct (H2 m Hm) as [|(d & Hd & ?)]; [by right|left]. apply existsb_exists. exists d.
      by rewrite <-list_elem_of_In.
    + intros v (m & -> & Hm)%list_elem_of_fmap. apply elem_of_app. by apply H4.
Qed.

(** ** The source records *)

Definition items_facts (items : list (string * DailyReflectionRecord)) : list string := fact_ids_of items.*2.
Definition items_ok (items : list (string * DailyReflectionRecord)) : Prop :=
  (∀ k r, (k, r) ∈ items → k = dr_record_id r ∧ check_DailyReflectionRecord r = Ok ()) ∧ NoDup (items_facts items).
Lemma fact_ids_cons r l : fact_ids_of (r :: l) = (fr_fact_id <$> record_facts r) ++ fact_ids_of l.
Proof. unfold fact_ids_of. by rewrite bind_cons, fmap_app. Qed.
Lemma fact_ids_bind l : fact_ids_of l = l ≫= (λ r, fr_fact_id <$> record_facts r).
Proof. induction l as [|r l IH]; [done|]. by rewrite fact_ids_cons, IH. Qed.
Lemma check_items_pass items : ∀ seen, NoDup seen → check_items seen items = Ok None ↔
  (∀ k r, (k, r) ∈ items → k = dr_record_id r ∧ check_DailyReflectionRecord r = Ok ()) ∧
  NoDup (seen ++ items_facts items).
Proof.
  induction items as [|[k r] items IH]; intros seen Hs; simpl.
  { unfold items_facts, fact_ids_of. simpl. rewrite app_nil_r. split; [|done]. intros _. split; [|done]. set_solver. }
  unfold items_facts. rewrite fmap_cons, fact_ids_cons, app_assoc. simpl.
  destruct (bool_decide_reflect (k = dr_record_id r)) as [->|Hk]; simpl; cycle 1.
  { split; [done|]. intros [H _]. by destruct Hk, (H k r ltac:(by left)). }
  destruct (check_DailyReflectionRecord r) as [[]|e] eqn:Hr; cycle 1.
  { destruct (exn_isa _ _); (split; [done|]); intros [H _]; destruct (H (dr_record_id r) r ltac:(by left)); congruence. }
  unfold no_dup. destruct (bool_decide_reflect (NoDup (seen ++ (fr_fact_id <$> record_facts r)))) as [Hn|Hn]; cycle 1.
  { split; [done|]. intros [_ H]. apply NoDup_app in H as [H _]. done. }
  rewrite IH by done. split; intros [H1 H2]; (split; [|done]).
  - intros k' r' [[= -> ->]|Hin]%elem_of_cons; [done|]. by apply H1.
  - intros k' r' Hin. apply H1. by right.
Qed.
Lemma check_items_reports items : ∀ seen,
  reports (λ r, bool_decide (r = MemoryInvalidationReason.LINEAGE)) (check_items seen items).
Proof.
  induction items as [|[k r] items IH]; intros seen; simpl; [done|].
  destruct (bool_decide _); simpl; [|by eexists].
  pose proof (raises_record r) as Hr. destruct (check_DailyReflectionRecord r) as [|e]; simpl in *.
  - destruct (no_dup _); [apply IH|by eexists].
  - rewrite Hr. by eexists.
Qed.

Lemma NoDup_bind_part {A B} (f : A → list B) (l k : list A) : NoDup (l ≫= f) → NoDup k →
  (∀ x, x ∈ k → x ∈ l) → NoDup (k ≫= f).
Proof.
  intros Hl Hk Hsub. pose proof (NoDup_submseteq k l Hk Hsub) as Hp. apply submseteq_Permutation in Hp as [r Hp].
  rewrite Hp, bind_app in Hl. by apply NoDup_app in Hl as [? _].
Qed.

Section entries.
Context (items : list (string * DailyReflectionRecord)) (Hkeys : NoDup items.*1) (Hok : items_ok items).

Lemma record_map_Some i r : record_map items !! i = Some r ↔ (i, r) ∈ items.
Proof using Hkeys. unfold record_map. by rewrite elem_of_list_to_map. Qed.
Lemma record_own i r : record_map items !! i = Some r → record_map items !! dr_record_id r = Some r.
Proof using Hkeys Hok. rewrite !record_map_Some. intros H. by destruct (proj1 Hok i r H) as [<- _]. Qed.
Lemma records_items ids records : mapM (λ i, record_map items !! i) ids = Some records →
  Forall2 (λ i r, (i, r) ∈ items) ids records.
Proof using Hkeys. intros H%mapM_Some. eapply Forall2_impl; [exact H|]. intros i r. by rewrite record_map_Some. Qed.
Lemma records_found ids : (∀ i, i ∈ ids → i ∈ items.*1) → ∃ records, mapM (λ i, record_map items !! i) ids = Some records.
Proof using Hkeys Hok.
  induction ids as [|i ids IH]; intros H; [by exists []|]. destruct IH as [records Hr]; [set_solver|].
  pose proof (H i ltac:(by left)) as Hi. apply list_elem_of_fmap in Hi as ([i' r] & -> & Hin). exists (r :: records). simpl.
  apply record_map_Some in Hin. by rewrite Hin, Hr.
Qed.
Lemma records_nodup ids records : NoDup ids → Forall2 (λ i r, (i, r) ∈ items) ids records →
  NoDup records ∧ ∀ r, r ∈ records → r ∈ items.*2.
Proof using Hkeys Hok.
  intros Hn H. revert Hn. induction H as [|i r ids records Hi Hrs IH]; intros Hn; [by split; [constructor|set_solver]|].
  apply NoDup_cons in Hn as [Hnot Hn]. destruct (IH Hn) as [IH1 IH2]. split.
  - constructor; [|done]. intros [j Hj]%list_elem_of_lookup.
    destruct (Forall2_lookup_r _ _ _ _ _ Hrs Hj) as (i' & Hi' & Hin). destruct Hok as [Hids _].
    destruct (Hids _ _ Hi) as [-> _], (Hids _ _ Hin) as [-> _]. apply Hnot. by eapply list_elem_of_lookup_2.
  - intros x [->|Hx]%elem_of_cons; [|by apply IH2]. by apply (list_elem_of_fmap_2 snd) in Hi.
Qed.
Lemma sources_checked seen records : (∀ r, r ∈ records → record_map items !! dr_record_id r = Some r) →
  (∀ r, r ∈ records → r ∈ items.*2) → NoDup (seen ++ fact_ids_of records) →
  ∃ seen', foldM_outcome (check_source (record_map items)) seen records = Ok seen'.
Proof using Hkeys Hok.
  revert seen. induction records as [|r records IH]; intros seen Hown Hin Hn; [by exists seen|].
  rewrite fact_ids_cons, app_assoc in Hn. pose proof (Hin r ltac:(by left)) as Hr.
  apply list_elem_of_fmap in Hr as ([k r'] & -> & Hkr). simpl in *.
  assert (Hc : check_source (record_map items) seen r' = Ok (seen ++ (fr_fact_id <$> record_facts r'))).
  { unfold check_source. rewrite bool_decide_true by (apply Hown; by left). destruct (proj1 Hok _ _ Hkr) as [_ ->].
    simpl. unfold no_dup. by rewrite bool_decide_true by by apply NoDup_app in Hn as [? _]. }
  rewrite Hc. simpl. apply IH; [|set_solver|done]. intros x Hx. apply Hown. by right.
Qed.
Lemma derive_decides e records : NoDup (en_source_record_ids e) →
  mapM (λ i, record_map items !! i) (en_source_record_ids e) = Some records →
  derive_entry_policy e (record_map items) = Ok (policy_of e records).
Proof using Hkeys Hok.
  intros Hn Hr. unfold derive_entry_policy.
  assert (He : entry_records e (record_map items) = Ok records).
  { unfold entry_records. apply mapM_Some in Hr. apply mapM_Ok. eapply Forall2_impl; [exact Hr|].
    intros i r Hi. simpl. by rewrite Hi. }
  rewrite He. simpl. pose proof (records_items _ _ Hr) as Hitems.
  destruct (records_nodup _ _ Hn Hitems) as [Hnd Hsub].
  destruct (sources_checked [] records) as [seen ->]; [|done|..|done].
  - intros r [j Hj]%list_elem_of_lookup. destruct (Forall2_lookup_r _ _ _ _ _ Hitems Hj) as (i & _ & Hin).
    apply record_own with i. by apply record_map_Some.
  - destruct Hok as [_ Hf]. unfold items_facts in Hf. simpl. rewrite fact_ids_bind in *. by eapply NoDup_bind_part.
Qed.

(** ** One entry *)

Definition cited_facts (ids : list string) : list FactRef := omap (λ i, all_facts items !! i) ids.
Definition entry_text (e : MemoryEntry) : string := join_lines (entry_texts e).
(** What an entry of a validated artifact says. *)
Record entry_safe (e : MemoryEntry) : Prop := mk_entry_safe {
  es_records : ∃ records, Forall2 (λ i r, (i, r) ∈ items) (en_source_record_ids e) records ∧
    (∀ i, i ∈ en_evidence_ids e → i ∈ fact_ids_of records) ∧
    en_category e = ep_category (policy_of e records) ∧
    en_importance e = deterministic_importance (mk_Candidate e (ep_available_at (policy_of e records))
      (ep_recurrence_count (policy_of e records)) (ep_unresolved (policy_of e records)) 0);
  es_text : text_closed (entry_text e) (cited_facts (en_evidence_ids e)) (en_risk_reason_codes e);
}.
Definition is_entry_reason (r : MemoryInvalidationReason.t) : bool :=
  bool_decide (r = MemoryInvalidationReason.FACT_CLOSURE) || bool_decide (r = MemoryInvalidationReason.BOUNDS).

Lemma record_observations r : check_DailyReflectionRecord r = Ok () → (length (dr_observations r) ≤ 64)%nat.
Proof using Type. unfold check_DailyReflectionRecord, check_tuple. intros H. ok_steps. ok_facts. lia. Qed.
Lemma entry_sources e : check_MemoryEntry e = Ok () →
  NoDup (en_source_record_ids e) ∧ (length (en_source_record_ids e) ≤ 16)%nat.
Proof using Type.
  unfold check_MemoryEntry, check_ref_tuple, check_tuple, no_dup. intros H. ok_steps. by ok_facts.
Qed.
Lemma importance_decides e records : check_MemoryEntry e = Ok () →
  Forall2 (λ i r, (i, r) ∈ items) (en_source_record_ids e) records →
  expected_importance e (policy_of e records) = Ok (deterministic_importance (mk_Candidate e
    (ep_available_at (policy_of e records)) (ep_recurrence_count (policy_of e records))
    (ep_unresolved (policy_of e records)) 0)).
Proof using Hkeys Hok.
  intros He Hr. unfold expected_importance, make_MemoryCandidate, check_MemoryCandidate. simpl.
  set (l := filter _ _). assert (Hl : (length l ≤ 16 * 64)%nat).
  { etrans; [apply length_filter|]. destruct (entry_sources e He) as [_ Hlen]. rewrite (Forall2_length _ _ _ Hr) in Hlen.
    etrans; [apply (length_bind_bound _ 64)|lia]. intros r [j Hj]%list_elem_of_lookup.
    destruct (Forall2_lookup_r _ _ _ _ _ Hr Hj) as (i & _ & Hin). by apply record_observations, (proj1 Hok i r). }
  rewrite (proj2 (Z.leb_le 1 _)), (proj2 (Z.leb_le _ 10000)) by lia. done.
Qed.
Lemma all_facts_lookup i : i ∈ items_facts items → is_Some (all_facts items !! i).
Proof using Type.
  unfold items_facts, fact_ids_of, all_facts, fact_map. generalize (items.*2 ≫= record_facts). intros l.
  assert (H : ∀ l (m : gmap string FactRef), i ∈ fr_fact_id <$> l ∨ is_Some (m !! i) →
    is_Some (foldl (λ m f, <[fr_fact_id f := f]> m) m l !! i)).
  { clear l. induction l as [|f l IH]; intros m Hi; simpl; [by destruct Hi as [Hi%not_elem_of_nil|]|]. apply IH.
    rewrite fmap_cons, elem_of_cons in Hi. destruct (decide (i = fr_fact_id f)) as [->|]; simplify_map_eq; [right; by eexists|].
    naive_solver. }
  intros Hi. apply H. by left.
Qed.
Lemma all_facts_keyed : forallb (λ kf, bool_decide (kf.1 = fr_fact_id kf.2)) (map_to_list (all_facts items)) = true.
Proof using Type.
  apply forallb_spec. intros [k f] Hkf%elem_of_map_to_list. apply bool_decide_eq_true. simpl. revert Hkf.
  unfold all_facts, fact_map. generalize (items.*2 ≫= record_facts). intros l.
  assert (H : ∀ l (m : gmap string FactRef), (∀ k f, m !! k = Some f → k = fr_fact_id f) →
    foldl (λ m f, <[fr_fact_id f := f]> m) m l !! k = Some f → k = fr_fact_id f).
  { clear l. induction l as [|x l IH]; intros m Hm; simpl; [by apply Hm|]. apply IH. intros k' f' Hk'.
    destruct (decide (k' = fr_fact_id x)) as [->|]; simplify_map_eq; [done|by apply Hm]. }
  apply H. intros k' f' Hk'. by rewrite lookup_empty in Hk'.
Qed.

Lemma evidence_found e records : Forall2 (λ i r, (i, r) ∈ items) (en_source_record_ids e) records →
  (∀ i, i ∈ en_evidence_ids e → i ∈ fact_ids_of records) → ∀ i, i ∈ en_evidence_ids e → is_Some (all_facts items !! i).
Proof using Hkeys Hok.
  intros Hr He i Hi. apply all_facts_lookup. unfold items_facts. rewrite fact_ids_bind. specialize (He i Hi).
  rewrite fact_ids_bind in He. apply list_elem_of_bind in He as (r & Hf & [j Hj]%list_elem_of_lookup).
  destruct (Forall2_lookup_r _ _ _ _ _ Hr Hj) as (k & _ & Hin). apply list_elem_of_bind. exists r. split; [done|].
  by apply (list_elem_of_fmap_2 snd) in Hin.
Qed.
Lemma closure_decides e : validate_text_fact_closure [entry_text e] (all_facts items) (en_evidence_ids e)
    (Some (en_risk_reason_codes e)) = Ok () ↔
  (∀ i, i ∈ en_evidence_ids e → is_Some (all_facts items !! i)) ∧
  text_closed (entry_text e) (cited_facts (en_evidence_ids e)) (en_risk_reason_codes e).
Proof using Type.
  unfold validate_text_fact_closure. rewrite !guard_bind_Ok, all_facts_keyed, forallb_spec, close_text_Ok.
  setoid_rewrite bool_decide_eq_true. unfold cited_facts. tauto.
Qed.
Lemma check_entry_spec e : check_MemoryEntry e = Ok () → (∀ i, i ∈ en_source_record_ids e → i ∈ items.*1) →
  reports is_entry_reason (check_entry items e) ∧ (check_entry items e = Ok None ↔ entry_safe e).
Proof using Hkeys Hok.
  intros He Hsub. destruct (records_found _ Hsub) as [records Hr]. destruct (entry_sources e He) as [Hn _].
  pose proof (records_items _ _ Hr) as Hitems. unfold check_entry. rewrite Hr.
  assert (Hp : check_policy items e = if negb (bool_decide (en_category e = ep_category (policy_of e records)))
    then issue "deterministic_policy" "provider_category_override"
    else expect_that (en_importance e =? deterministic_importance (mk_Candidate e (ep_available_at (policy_of e records))
      (ep_recurrence_count (policy_of e records)) (ep_unresolved (policy_of e records)) 0))
      "deterministic_policy" "provider_importance_override").
  { unfold check_policy. rewrite (derive_decides e records Hn Hr). simpl. by rewrite (importance_decides e records He Hitems). }
  unfold entry_stages. rewrite Hp. split.
  - apply reports_first. repeat constructor.
    + by eapply reports_expect.
    + apply reports_try with MemoryInvalidationReason.FACT_CLOSURE; [apply raises_closure|done..].
    + by eapply reports_expect.
    + destruct (bool_decide _); simpl; [by eapply reports_expect|by eexists].
  - fold (entry_text e).
    rewrite first_issue_pass, !Forall_cons, !expect_pass, try_pass, closure_decides, !subset_of_spec. split.
    + intros (H1 & [_ H2] & _ & H4 & _). split; [|done]. exists records.
      destruct (bool_decide_reflect (en_category e = ep_category (policy_of e records))); [|done].
      simpl in H4. apply expect_pass, Z.eqb_eq in H4. done.
    + intros [(records' & Hitems' & H1 & Hcat & Himp) Htext].
      assert (records' = records) as ->.
      { clear -Hitems Hitems' Hkeys. revert records' Hitems'. induction Hitems as [|i r ids rs Hi _ IH]; intros rs' H';
          inversion H' as [|? r' ? ? Hi' H'']; subst; [done|]. f_equal; [|by apply IH].
        apply record_map_Some in Hi, Hi'. congruence. }
      split_and!; [done|by eapply evidence_found|done| | |done]; [apply (tc_reasons _ _ _ Htext)|].
      rewrite bool_decide_true by done. simpl. by apply expect_pass, Z.eqb_eq.
Qed.
End entries.

(** ** The validator *)

Record memory_safe (a : MemoryArtifact) (items : list (string * DailyReflectionRecord)) (cutoff : Z) : Prop := mk_safe {
  sf_sources : ∀ i, i ∈ items.*1 ↔ i ∈ ar_source_record_ids a;
  sf_records : items_ok items;
  sf_corrections : validate_correction_graph items = None;
  sf_cutoff : ar_cutoff_at a = cutoff;
  sf_past : ∀ i r, (i, r) ∈ items → dr_available_at r ≤ cutoff ∧ dr_cutoff_at r ≤ cutoff;
  sf_flags : ∀ i r s, (i, r) ∈ items → s ∈ dr_sources r → rs_prompt_injection_flags s = [];
  sf_instructions : ∀ e, e ∈ ar_entries a → instruction_like [entry_text e] = false;
  sf_entries : ∀ e, e ∈ ar_entries a → entry_safe items e;
}.
Definition is_reported (r : MemoryInvalidationReason.t) : bool :=
  negb (bool_decide (r = MemoryInvalidationReason.SCHEMA) || bool_decide (r = MemoryInvalidationReason.INTEGRITY)).
Lemma reports_weaken (p q : MemoryInvalidationReason.t → bool) st : (∀ r, p r = true → q r = true) → reports p st → reports q st.
Proof. intros H. destruct st as [[[s c]|]|e]; simpl; naive_solver. Qed.

Definition source_stages (a : MemoryArtifact) (items : list (string * DailyReflectionRecord)) (cutoff : Z) : list stage :=
  take 7 (validation_stages a items cutoff).
Definition instruction_stages (a : MemoryArtifact) : list stage :=
  (λ e, try_stage (reject_instruction_like_text [join_lines (entry_texts e)]) "prompt_injection"
     (λ _, "instruction_like_content")) <$> ar_entries a.
Lemma validation_stages_split a items cutoff : validation_stages a items cutoff =
  source_stages a items cutoff ++ instruction_stages a ++ (check_entry items <$> ar_entries a) ++
  [try_stage (check_MemoryArtifact a) "canonical_integrity" (λ _, "artifact_changed")].
Proof. done. Qed.

Lemma sources_stages_spec a items cutoff : check_MemoryArtifact a = Ok () →
  reports is_reported (first_issue (source_stages a items cutoff)) ∧
  (first_issue (source_stages a items cutoff) = Ok None ↔
   (∀ i, i ∈ items.*1 ↔ i ∈ ar_source_record_ids a) ∧ items_ok items ∧ validate_correction_graph items = None ∧
   ar_cutoff_at a = cutoff ∧ (∀ i r, (i, r) ∈ items → dr_available_at r ≤ cutoff ∧ dr_cutoff_at r ≤ ar_cutoff_at a) ∧
   (∀ i r s, (i, r) ∈ items → s ∈ dr_sources r → rs_prompt_injection_flags s = [])).
Proof.
  intros Ha. unfold source_stages, validation_stages. simpl take. split.
  - apply reports_first. repeat constructor; try by eapply reports_expect.
    + rewrite Ha. done.
    + eapply reports_weaken; [|apply check_items_reports]. by intros r ->%bool_decide_eq_true.
    + destruct (validate_correction_graph items); simpl; [by eexists|done].
  - rewrite first_issue_pass, !Forall_cons, !expect_pass, try_pass, check_items_pass by constructor.
    unfold same_set. rewrite andb_true_iff, !subset_of_spec, !forallb_spec, Z.eqb_eq. simpl app. fold (items_ok items).
    setoid_rewrite andb_true_iff. setoid_rewrite Z.leb_le. setoid_rewrite bool_decide_eq_true.
    assert (Hcorr : (match validate_correction_graph items with Some code => issue "correction_lineage" code | None => pass end)
      = Ok None ↔ validate_correction_graph items = None) by by destruct (validate_correction_graph items).
    rewrite Hcorr. split.
    + intros (_ & [H1 H2] & H3 & H4 & H5 & H6 & H7 & _). split_and!; try done; [naive_solver| |].
      * intros i r Hin. apply (H6 (i, r) Hin).
      * intros i r s Hin Hs. apply H7, list_elem_of_bind. exists r. split; [done|].
        by apply (list_elem_of_fmap_2 snd) in Hin.
    + intros (H1 & H3 & H4 & H5 & H6 & H7). split_and!; try done; try naive_solver.
      * intros [i r] Hin. by apply (H6 i r).
      * intros s (r & Hs & ([i r'] & -> & Hin)%list_elem_of_fmap)%list_elem_of_bind. by eapply H7.
Qed.
Lemma instruction_stages_spec a :
  reports is_reported (first_issue (instruction_stages a)) ∧
  (first_issue (instruction_stages a) = Ok None ↔ ∀ e, e ∈ ar_entries a → instruction_like [entry_text e] = false).
Proof.
  unfold instruction_stages. split.
  - apply reports_first, Forall_fmap, Forall_true. intros e. simpl.
    eapply (reports_try _ _ _ _ MemoryInvalidationReason.PROMPT_INJECTION); [apply raises_reject|done..].
  - rewrite first_issue_pass, Forall_fmap, Forall_forall. simpl. setoid_rewrite try_pass.
    unfold reject_instruction_like_text. setoid_rewrite guard_unit_Ok. by setoid_rewrite negb_true_iff.
Qed.
Lemma entries_stages_spec a items : NoDup items.*1 → items_ok items →
  (∀ e, e ∈ ar_entries a → check_MemoryEntry e = Ok ()) →
  (∀ e i, e ∈ ar_entries a → i ∈ en_source_record_ids e → i ∈ items.*1) →
  reports is_reported (first_issue (check_entry items <$> ar_entries a)) ∧
  (first_issue (check_entry items <$> ar_entries a) = Ok None ↔ ∀ e, e ∈ ar_entries a → entry_safe items e).
Proof.
  intros Hk Hok He Hsub. assert (Hspec : ∀ e, e ∈ ar_entries a →
    reports is_entry_reason (check_entry items e) ∧ (check_entry items e = Ok None ↔ entry_safe items e)).
  { intros e Hin. apply check_entry_spec; [done|done|by apply He|]. intros i. by apply Hsub. }
  split.
  - apply reports_first, Forall_fmap, Forall_forall. intros e Hin. simpl.
    eapply reports_weaken; [|by apply Hspec]. intros r Hr%orb_true_iff. unfold is_reported.
    by destruct Hr as [->%bool_decide_eq_true| ->%bool_decide_eq_true].
  - rewrite first_issue_pass, Forall_fmap, Forall_forall. simpl. split; intros H e Hin; by apply (Hspec e Hin), H.
Qed.
Lemma artifact_entry_sources a e i : check_MemoryArtifact a = Ok () → e ∈ ar_entries a → i ∈ en_source_record_ids e →
  i ∈ ar_source_record_ids a.
Proof.
  unfold check_MemoryArtifact. intros H He Hi. ok_steps.
  match goal with H : forallb (λ e, subset_of _ _) _ = true |- _ => pose proof (forallb_elem _ _ _ H He) as Hs end.
  simpl in Hs. rewrite subset_of_spec in Hs. by apply Hs.
Qed.
(** The stages of an artifact that was made decide the specification. *)
Lemma validation_spec a items cutoff : check_MemoryArtifact a = Ok () →
  (∀ e, e ∈ ar_entries a → check_MemoryEntry e = Ok ()) → NoDup items.*1 →
  reports is_reported (first_issue (validation_stages a items cutoff)) ∧
  (first_issue (validation_stages a items cutoff) = Ok None ↔ memory_safe a items cutoff).
Proof.
  intros Ha He Hk. rewrite validation_stages_split.
  destruct (sources_stages_spec a items cutoff Ha) as [R1 P1], (instruction_stages_spec a) as [R2 P2].
  assert (R4 : first_issue [try_stage (check_MemoryArtifact a) "canonical_integrity" (λ _, "artifact_changed")] = Ok None)
    by by rewrite Ha.
  assert (H3 : first_issue (source_stages a items cutoff) = Ok None →
    reports is_reported (first_issue (check_entry items <$> ar_entries a)) ∧
    (first_issue (check_entry items <$> ar_entries a) = Ok None ↔ ∀ e, e ∈ ar_entries a → entry_safe items e)).
  { intros (Hset & Hok & _)%P1. apply entries_stages_spec; try done. intros e i Hin Hi. apply Hset.
    by eapply artifact_entry_sources. }
  split.
  - apply reports_app; [done|]. intros Hp. apply reports_app; [done|]. intros _.
    apply reports_app; [by apply H3|]. intros _. by rewrite R4.
  - rewrite !first_issue_app. split.
    + intros H. destruct (first_issue (source_stages a items cutoff)) as [[|]|] eqn:E1; try done. simpl in H.
      destruct (first_issue (instruction_stages a)) as [[|]|] eqn:E2; try done. simpl in H.
      destruct (first_issue (check_entry items <$> ar_entries a)) as [[|]|] eqn:E3; try done.
      destruct (proj1 P1 eq_refl) as (Hset & Hok & Hc & Hcut & Hpast & Hflags).
      split; try done; [|by apply P2|by apply (proj2 (H3 eq_refl))]. intros i r Hin.
      destruct (Hpast i r Hin). split; [done|lia].
    + intros [Hset Hok Hc Hcut Hpast Hflags Hin Hent].
      assert (E1 : first_issue (source_stages a items cutoff) = Ok None).
      { apply P1. split_and!; try done. rewrite Hcut. done. }
      rewrite E1, (proj2 P2 Hin), (proj2 (proj2 (H3 E1)) Hent). done.
Qed.
Lemma check_set_state st a : check_MemoryArtifact (set_state st a) = check_MemoryArtifact a.
Proof. done. Qed.

Lemma validate_candidate a items cutoff : ar_state a = ArtifactState.CANDIDATE → check_MemoryArtifact a = Ok () →
  validate a items cutoff =
  match first_issue (validation_stages a items cutoff) with
  | Ok (Some (s, code)) => Ok (mk_Result (set_state ArtifactState.INVALID a) [mk_Issue s code])
  | Ok None => Ok (mk_Result (set_state ArtifactState.VALIDATED a) [])
  | Raise e => Raise e
  end.
Proof.
  intros Hs Ha. unfold validate. rewrite bool_decide_true by done.
  generalize (validation_stages a items cutoff). intros l. simpl.
  by destruct (first_issue l) as [[[s c]|]|e]; simpl; unfold artifact_with_state; rewrite ?check_set_state, ?Hs, ?Ha.
Qed.

(** What a VALIDATED answer says of the sources. *)
Lemma validate_valid a items cutoff r : ar_state a = ArtifactState.CANDIDATE → check_MemoryArtifact a = Ok () →
  validate a items cutoff = Ok r → result_valid r = true →
  r = mk_Result (set_state ArtifactState.VALIDATED a) [] ∧ (∀ i, i ∈ items.*1 ↔ i ∈ ar_source_record_ids a) ∧
  items_ok items ∧ ar_cutoff_at a = cutoff ∧
  (∀ i r, (i, r) ∈ items → dr_available_at r ≤ cutoff ∧ dr_cutoff_at r ≤ cutoff).
Proof.
  intros Hs Ha Hv Hr. rewrite validate_candidate in Hv by done.
  destruct (first_issue (validation_stages a items cutoff)) as [[[s c]|]|x] eqn:Hf; [|injection Hv as <-|done].
  { injection Hv as <-. by apply andb_true_iff in Hr as [? _]. }
  rewrite validation_stages_split, first_issue_app in Hf.
  destruct (first_issue (source_stages a items cutoff)) as [[|]|] eqn:Hss; try done.
  apply sources_stages_spec in Hss as (? & ? & _ & Hc & Hp & _); [|done]. rewrite Hc in Hp. done.
Qed.

(** C17. Validating a candidate that was made by its constructor, against any source
    records: the validator always answers.  It answers VALIDATED exactly when the artifact
    is safe - the sources are exactly those it names, unchanged, uncorrupted, unflagged and
    all available by the cutoff it was asked for, no text reads like an instruction, every
    date, number and symbol of an entry is the value of a typed fact it cites from its own
    sources, and category and importance are those the sources give; otherwise it answers
    INVALID with one issue, whose reason code is defined and is neither SCHEMA nor
    INTEGRITY. *)
Theorem validate_decides a items cutoff : ar_state a = ArtifactState.CANDIDATE → check_MemoryArtifact a = Ok () →
  (∀ e, e ∈ ar_entries a → check_MemoryEntry e = Ok ()) → NoDup items.*1 →
  (memory_safe a items cutoff ∧
   validate a items cutoff = Ok (mk_Result (set_state ArtifactState.VALIDATED a) [])) ∨
  (¬ memory_safe a items cutoff ∧ ∃ stage code reason,
     let r := mk_Result (set_state ArtifactState.INVALID a) [mk_Issue stage code] in
     validate a items cutoff = Ok r ∧ invalidation_reason_code r = Ok reason ∧
     reason ≠ MemoryInvalidationReason.SCHEMA ∧ reason ≠ MemoryInvalidationReason.INTEGRITY).
Proof.
  intros Hs Ha He Hk. destruct (validation_spec a items cutoff Ha He Hk) as [Hr Hp].
  rewrite validate_candidate by done.
  destruct (first_issue (validation_stages a items cutoff)) as [[[s c]|]|e] eqn:Hi; [right|left|done].
  - split; [by intros H%Hp|]. destruct Hr as (reason & Hr & Hok). exists s, c, reason. split; [done|].
    unfold is_reported in Hok. apply negb_true_iff, orb_false_iff in Hok as [H1%bool_decide_eq_false H2%bool_decide_eq_false].
    split_and!; try done. unfold invalidation_reason_code, result_valid. simpl. rewrite Hr. done.
  - split; [by apply Hp|done].
Qed.

(** The reason SCHEMA is never reported: an artifact that fails its own checks makes the
    validator raise, as marking it INVALID checks it again. *)
Lemma schema_failure_raises a items cutoff e : check_MemoryArtifact a = Raise e →
  ∃ e', validate a items cutoff = Raise e'.
Proof.
  intros Ha. unfold validate. destruct (bool_decide _); [|by eexists]. rewrite validation_stages_split, first_issue_app.
  unfold source_stages, validation_stages. simpl take. generalize (instruction_stages a ++
    (check_entry items <$> ar_entries a) ++ [try_stage (check_MemoryArtifact a) "canonical_integrity" (λ _, "artifact_changed")]).
  intros l. pose proof (raises_artifact a) as Hr. rewrite Ha in Hr. simpl in Hr. simpl. rewrite Ha. simpl. rewrite Hr. simpl.
  unfold artifact_with_state. rewrite check_set_state, Ha. destruct (bool_decide _); by eexists.
Qed.
End facts.

(** The walk over the corrections of a record ends before its fuel. *)
Lemma has_cycle_fuel (targets : gmap string string) : ∀ fuel visited cursor k, NoDup visited →
  (∀ i, i ∈ visited → is_Some (targets !! i)) → (size targets + 2 ≤ fuel + length visited)%nat →
  has_cycle (fuel + k) targets visited cursor = has_cycle fuel targets visited cursor.
Proof.
  assert (Hsize : ∀ visited, NoDup visited → (∀ i, i ∈ visited → is_Some (targets !! i)) → (length visited ≤ size targets)%nat).
  { intros visited Hn Hv. rewrite <-(size_dom (D := gset string)). rewrite <-(size_list_to_set (C := gset string) visited) by done.
    apply subseteq_size. intros i Hi%elem_of_list_to_set. by apply elem_of_dom, Hv. }
  induction fuel as [|fuel IH]; intros visited [c|] k Hn Hv Hf.
  - pose proof (Hsize visited Hn Hv). lia.
  - by destruct k.
  - simpl. destruct (bool_decide_reflect (c ∈ visited)) as [|Hc]; [done|].
    destruct (targets !! c) as [t|] eqn:Ht.
    + apply IH; [by constructor| |simpl; lia]. intros i [->|Hi]%elem_of_cons; [by eexists|by apply Hv].
    + destruct fuel as [|fuel]; [|done]. by destruct k.
  - done.
Qed.

(** * Facts about the selection of memory entries

    What a selection chooses is bounded, without duplicates, ranked, derived from the
    sources and available by the cutoff; and nothing the provider says of importance,
    recurrence or resolution changes it. *)

Local Open Scope Z_scope.

(** ** Comparisons are orders *)

Record cmp_ok {A} (cmp : A → A → comparison) : Prop := mk_cmp_ok {
  cmp_flip : ∀ a b, cmp b a = CompOpp (cmp a b);
  cmp_lt : ∀ a b c, cmp a b = Lt → cmp b c = Lt → cmp a c = Lt;
  cmp_eq : ∀ a b c, cmp a b = Eq → cmp a c = cmp b c;
}.
Lemma cmp_eq_r {A} (cmp : A → A → comparison) a b c : cmp_ok cmp → cmp b c = Eq → cmp a b = cmp a c.
Proof. intros H Hbc. rewrite (cmp_flip _ H b a), (cmp_flip _ H c a). by rewrite (cmp_eq _ H b c a). Qed.
Lemma not_gt_total {A} (cmp : A → A → comparison) a b : cmp_ok cmp → not_gt (cmp a b) = false → not_gt (cmp b a) = true.
Proof. intros H. rewrite (cmp_flip _ H a b). by destruct (cmp a b). Qed.
Lemma not_gt_trans {A} (cmp : A → A → comparison) a b c : cmp_ok cmp →
  not_gt (cmp a b) = true → not_gt (cmp b c) = true → not_gt (cmp a c) = true.
Proof.
  intros H. destruct (cmp a b) eqn:E1; [|destruct (cmp b c) eqn:E2|done]; intros _.
  - by rewrite (cmp_eq _ H a b c).
  - by rewrite <-(cmp_eq_r _ a b c H E2), E1.
  - by rewrite (cmp_lt _ H a b c).
  - done.
Qed.
Lemma Z_compare_ok : cmp_ok Z.compare.
Proof.
  split.
  - intros a b. apply Z.compare_antisym.
  - intros a b c. rewrite !Z.compare_lt_iff. lia.
  - by intros a b c ->%Z.compare_eq_iff.
Qed.
Lemma str_compare_ok : cmp_ok str_compare.
Proof.
  split; unfold str_compare.
  - intros a b. apply String.compare_antisym.
  - intros a b c Hab Hbc. assert (Hac : String.leb a c = true).
    { apply str_leb_trans with b; unfold String.leb; by rewrite ?Hab, ?Hbc. }
    unfold String.leb in Hac. destruct (String.compare a c) eqn:E; [|done|done].
    apply String.compare_eq_iff in E as ->. rewrite String.compare_antisym, Hbc in Hab. done.
  - by intros a b c ->%String.compare_eq_iff.
Qed.
Lemma on_compare_ok {A B} (f : A → B) (cmp : B → B → comparison) : cmp_ok cmp → cmp_ok (λ a b, cmp (f a) (f b)).
Proof. intros [H1 H2 H3]. split; eauto. Qed.
Lemma flip_compare_ok {A} (cmp : A → A → comparison) : cmp_ok cmp → cmp_ok (λ a b, cmp b a).
Proof. intros H. split; [intros; apply H| |]; intros a b c H1; [intros H2; by eapply (cmp_lt _ H)|]. 
  apply cmp_eq_r; [done|]. rewrite (cmp_flip _ H). by rewrite H1.
Qed.
Lemma then_compare_ok {A} (c1 c2 : A → A → comparison) : cmp_ok c1 → cmp_ok c2 →
  cmp_ok (λ a b, then_compare (c1 a b) (c2 a b)).
Proof.
  intros H1 H2. split; intros a b; [|intros c..]; unfold then_compare.
  - rewrite (cmp_flip _ H1 a b). destruct (c1 a b); simpl; [apply H2|done|done].
  - destruct (c1 a b) eqn:E1; [|destruct (c1 b c) eqn:E2|done]; intros Hab Hbc; try done.
    + rewrite (cmp_eq _ H1 a b c E1). destruct (c1 b c); try done. by eapply (cmp_lt _ H2).
    + by rewrite <-(cmp_eq_r _ a b c H1 E2), E1.
    + by rewrite (cmp_lt _ H1 a b c).
  - destruct (c1 a b) eqn:E1; [|done|done]. intros E2. by rewrite (cmp_eq _ H1 a b c E1), (cmp_eq _ H2 a b c E2).
Qed.
Lemma list_compare_ok {A} (cmp : A → A → comparison) : cmp_ok cmp → cmp_ok (list_compare cmp).
Proof.
  intros H. split.
  - induction a as [|x a IH]; intros [|y b]; simpl; try done. rewrite (cmp_flip _ H x y). destruct (cmp x y); simpl; auto.
  - induction a as [|x a IH]; intros [|y b] [|z c]; simpl; try done.
    destruct (cmp x y) eqn:E1; [|destruct (cmp y z) eqn:E2|done]; intros Hab Hbc; try done.
    + rewrite (cmp_eq _ H x y z E1). destruct (cmp y z); try done. by eapply IH.
    + by rewrite <-(cmp_eq_r _ x y z H E2), E1.
    + by rewrite (cmp_lt _ H x y z).
  - induction a as [|x a IH]; intros [|y b] [|z c]; simpl; try done. destruct (cmp x y) eqn:E1; [|done|done].
    intros Hab. rewrite (cmp_eq _ H x y z E1). destruct (cmp y z); [by apply IH|done|done].
Qed.

Lemma rank_ok {E : MemoryEnv} : cmp_ok rank_compare.
Proof.
  unfold rank_compare. repeat apply then_compare_ok.
  - apply (flip_compare_ok (λ a b : MemoryCandidate * Z, Z.compare a.2 b.2)), (on_compare_ok snd), Z_compare_ok.
  - apply (flip_compare_ok (λ a b : MemoryCandidate * Z, Z.compare (rank_micros (mc_available_at a.1)) (rank_micros (mc_available_at b.1)))).
    apply (on_compare_ok (λ a : MemoryCandidate * Z, rank_micros (mc_available_at a.1))), Z_compare_ok.
  - apply (on_compare_ok (λ a : MemoryCandidate * Z, category_value (en_category (mc_entry a.1)))), str_compare_ok.
  - apply (on_compare_ok (λ a : MemoryCandidate * Z, candidate_key a.1)), str_compare_ok.
  - apply (on_compare_ok (λ a : MemoryCandidate * Z, en_source_record_ids (mc_entry a.1))), list_compare_ok, str_compare_ok.
Qed.

Section facts.
Context {E : MemoryEnv}.

(** ** Choosing under quotas *)

Definition scored_entry (cs : MemoryCandidate * Z) : MemoryEntry := with_importance cs.2 (mc_entry cs.1).
Lemma make_MemoryEntry_Ok e x : make_MemoryEntry e = Ok x → x = e ∧ check_MemoryEntry e = Ok ().
Proof. unfold make_MemoryEntry. intros H. ok_steps. by subst. Qed.
Lemma make_candidate_Ok c x : make_MemoryCandidate c = Ok x → x = c ∧ check_MemoryCandidate c = Ok ().
Proof. unfold make_MemoryCandidate. intros H. ok_steps. by subst. Qed.
Lemma in_category_snoc c l e : in_category c (l ++ [e]) =
  (in_category c l + if decide (en_category e = c) then 1 else 0)%nat.
Proof.
  unfold in_category. rewrite filter_app, length_app, filter_cons, filter_nil. by destruct (decide _).
Qed.
(** What was chosen so far is within its bounds. *)
Record chosen_ok (quotas : MemoryCategory.t → nat) (maximum : nat) (chosen : list MemoryEntry) : Prop := mk_chosen {
  ck_length : (length chosen ≤ maximum)%nat;
  ck_quotas : ∀ c, (in_category c chosen ≤ quotas c)%nat;
  ck_unique : NoDup (dedup_key <$> chosen);
  ck_checked : ∀ e, e ∈ chosen → check_MemoryEntry e = Ok ();
}.
Lemma chosen_snoc quotas maximum chosen e : chosen_ok quotas maximum chosen → (length chosen < maximum)%nat →
  dedup_key e ∉ dedup_key <$> chosen → (in_category (en_category e) chosen < quotas (en_category e))%nat →
  check_MemoryEntry e = Ok () → chosen_ok quotas maximum (chosen ++ [e]).
Proof.
  intros [H1 H2 H3 H4] Hl Hk Hq He. split.
  - rewrite length_app. simpl. lia.
  - intros c. rewrite in_category_snoc. destruct (decide _) as [<-|]; [lia|]. specialize (H2 c). lia.
  - rewrite fmap_app. apply NoDup_app. split_and!; [done| |apply NoDup_singleton].
    intros k Hk'. simpl. rewrite list_elem_of_singleton. by intros ->.
  - intros x [Hx|Hx]%elem_of_app; [by apply H4|]. by apply list_elem_of_singleton in Hx as ->.
Qed.
Lemma choose_spec quotas maximum scored : ∀ chosen out, (length chosen < maximum)%nat →
  chosen_ok quotas maximum chosen → choose_entries quotas maximum chosen scored = Ok out →
  chosen_ok quotas maximum out ∧ ∃ picked, picked `sublist_of` scored ∧ out = chosen ++ (scored_entry <$> picked).
Proof.
  induction scored as [|[c score] scored IH]; intros chosen out Hl Hok H; simpl in H.
  { injection H as <-. split; [done|]. exists []. by rewrite app_nil_r. }
  destruct (_ || _) eqn:Hskip.
  { destruct (IH _ _ Hl Hok H) as (? & picked & Hp & ?). split; [done|]. exists picked. split; [by constructor|done]. }
  apply orb_false_iff in Hskip as [Hk%bool_decide_eq_false Hq%Nat.leb_gt].
  destruct (make_MemoryEntry _) as [e|] eqn:He; [|done]. apply make_MemoryEntry_Ok in He as [-> He]. simpl in H.
  assert (Hok' : chosen_ok quotas maximum (chosen ++ [with_importance score (mc_entry c)])) by by apply chosen_snoc.
  destruct (_ <? _)%nat; [injection H as <-; split; [done|]; exists []; split; [apply sublist_nil_l|by rewrite app_nil_r]|].
  destruct (maximum <=? _)%nat eqn:Hm.
  - injection H as <-. split; [done|]. exists [(c, score)]. split; [by apply sublist_skip, sublist_nil_l|done].
  - apply Nat.leb_gt in Hm. destruct (IH (chosen ++ [with_importance score (mc_entry c)]) out) as (? & picked & Hp & ->);
      [by rewrite length_app|done|done|]. split; [done|]. exists ((c, score) :: picked).
    split; [by apply sublist_skip|]. by rewrite <-app_assoc.
Qed.

(** ** What choosing leaves out *)

(** An entry of a score is accounted for by what was chosen: it, one of its meaning, or
    entries that fill its category, the selection or the artifact's lines, none of them
    less important. *)
Definition accounted (quotas : MemoryCategory.t → nat) (maximum : nat) (out : list MemoryEntry)
    (e : MemoryEntry) (score : Z) : Prop :=
  let above := filter (λ x, score ≤ en_importance x) out in
  dedup_key e ∈ dedup_key <$> above ∨ (quotas (en_category e) ≤ in_category (en_category e) above)%nat ∨
  length above = maximum ∨ (MAX_ARTIFACT_LINES < 5 + 9 * (length above + 1))%nat.
Lemma accounted_app quotas maximum out l e score : (length (out ++ l) ≤ maximum)%nat →
  accounted quotas maximum out e score → accounted quotas maximum (out ++ l) e score.
Proof.
  assert (Hl := length_filter (λ x, score ≤ en_importance x) (out ++ l)). revert Hl.
  unfold accounted, in_category. rewrite filter_app, fmap_app, filter_app, !length_app, elem_of_app.
  intros ? ? [?|[?|[?|?]]]; [tauto|right; left; lia|right; right; left; lia|right; right; right; lia].
Qed.
Lemma list_filter_all {A} (P : A → Prop) {HP : ∀ x, Decision (P x)} (l : list A) :
  (∀ x, x ∈ l → P x) → filter P l = l.
Proof.
  induction l as [|x l IH]; intros Hl; [done|]. rewrite filter_cons_True by (apply Hl; by left).
  f_equal. apply IH. intros y Hy. apply Hl. by right.
Qed.
Lemma accounted_above quotas maximum out e score : (∀ x, x ∈ out → score ≤ en_importance x) →
  dedup_key e ∈ dedup_key <$> out ∨ (quotas (en_category e) ≤ in_category (en_category e) out)%nat ∨
  length out = maximum ∨ (MAX_ARTIFACT_LINES < 5 + 9 * (length out + 1))%nat →
  accounted quotas maximum out e score.
Proof.
  intros Ha. unfold accounted. by rewrite (list_filter_all (λ x, score ≤ en_importance x) out Ha).
Qed.
Lemma choose_complete quotas maximum scored : ∀ chosen out, (length chosen < maximum)%nat →
  chosen_ok quotas maximum chosen → StronglySorted (λ a b : MemoryCandidate * Z, b.2 ≤ a.2) scored →
  (∀ e cs, e ∈ chosen → cs ∈ scored → cs.2 ≤ en_importance e) →
  choose_entries quotas maximum chosen scored = Ok out →
  ∀ cs, cs ∈ scored → accounted quotas maximum out (mc_entry cs.1) cs.2.
Proof.
  induction scored as [|[c score] scored IH]; intros chosen out Hl Hok Hs Hge H cs Hcs; [by apply elem_of_nil in Hcs|].
  pose proof (choose_spec _ _ _ _ _ Hl Hok H) as (Hout & picked & _ & Heq).
  apply StronglySorted_inv in Hs as [Hs Hhead]. rewrite Forall_forall in Hhead. simpl in H.
  assert (Hrest : ∀ e d, e ∈ chosen → d ∈ scored → d.2 ≤ en_importance e) by (intros; apply Hge; [done|by right]).
  destruct (_ || _) eqn:Hskip.
  { apply elem_of_cons in Hcs as [->|Hcs]; [|by eapply IH].
    rewrite Heq. apply accounted_app; [rewrite <-Heq; apply Hout|].
    apply accounted_above; [intros x Hx; apply (Hge x _ Hx); by left|].
    apply orb_true_iff in Hskip as [?%bool_decide_eq_true|?%Nat.leb_le]; tauto. }
  apply orb_false_iff in Hskip as [Hk%bool_decide_eq_false Hq%Nat.leb_gt].
  destruct (make_MemoryEntry _) as [e|] eqn:He; [|done]. apply make_MemoryEntry_Ok in He as [-> He]. simpl in H.
  destruct (_ <? _)%nat eqn:Hlines.
  { injection H as <-. apply Nat.ltb_lt in Hlines. apply accounted_above; [|tauto]. intros x Hx. by apply Hge. }
  assert (Hnew : ∀ e d, e ∈ chosen ++ [with_importance score (mc_entry c)] → d ∈ (c, score) :: scored →
    d.2 ≤ en_importance e).
  { intros e d [He'|He']%elem_of_app Hd; [by apply Hge|]. apply list_elem_of_singleton in He' as ->.
    apply elem_of_cons in Hd as [->|Hd]; [done|by apply Hhead]. }
  destruct (maximum <=? _)%nat eqn:Hm.
  { injection H as <-. apply accounted_above; [by intros x Hx; apply Hnew|]. right; right; left.
    apply Nat.leb_le in Hm. rewrite length_app. simpl. lia. }
  apply Nat.leb_gt in Hm. apply elem_of_cons in Hcs as [->|Hcs].
  - assert (Hok' : chosen_ok quotas maximum (chosen ++ [with_importance score (mc_entry c)])) by by apply chosen_snoc.
    destruct (choose_spec quotas maximum scored (chosen ++ [with_importance score (mc_entry c)]) out)
      as (Hb & picked' & _ & ->); [by rewrite length_app|done..|].
    apply accounted_app; [apply Hb|]. apply accounted_above; [intros x Hx; apply (Hnew x (c, score) Hx); by left|].
    left. rewrite fmap_app. apply elem_of_app. right. by apply list_elem_of_singleton.
  - apply (IH (chosen ++ [with_importance score (mc_entry c)]) out);
      [by rewrite length_app|by apply chosen_snoc|done| |done|done].
    intros x d Hx Hd. apply Hnew; [done|by right].
Qed.

(** ** Merging *)

Lemma foldl_add_new l acc x : x ∈ foldl add_new acc l ↔ x ∈ acc ∨ x ∈ l.
Proof.
  revert acc. induction l as [|y l IH]; intros acc; simpl; [rewrite elem_of_nil; tauto|].
  rewrite IH, elem_of_cons. unfold add_new. case_bool_decide; [naive_solver|].
  rewrite elem_of_app, list_elem_of_singleton. tauto.
Qed.
Lemma elem_of_merge_refs field group x :
  x ∈ merged_refs field group ↔ ∃ c, c ∈ group ∧ x ∈ field (mc_entry c).
Proof.
  unfold merged_refs. rewrite foldl_add_new, elem_of_nil, list_elem_of_bind.
  setoid_rewrite elem_of_sort_by. naive_solver.
Qed.
(** What merging makes of the candidates with the key of [rep]. *)
Record merged_from (candidates : list MemoryCandidate) (rep c : MemoryCandidate) : Prop := mk_merged {
  mg_rep : rep ∈ candidates;
  mg_texts : entry_texts (mc_entry c) = entry_texts (mc_entry rep);
  mg_refs : ∀ field, field = en_evidence_ids ∨ field = en_source_record_ids ∨ field = en_risk_reason_codes →
    ∀ x, x ∈ field (mc_entry c) ↔ ∃ o, o ∈ candidates ∧ candidate_key o = candidate_key rep ∧ x ∈ field (mc_entry o);
  mg_checked : check_MemoryEntry (mc_entry c) = Ok ();
}.
Lemma merge_group_Ok candidates key o :
  merge_group (filter (λ y, candidate_key y = key) candidates) = Ok o →
  (∃ rep m, o = Some m ∧ candidate_key rep = key ∧ merged_from candidates rep m) ∨
  filter (λ y, candidate_key y = key) candidates = [].
Proof.
  unfold merge_group. set (group := filter _ candidates).
  destruct (sort_by tie_leb group) as [|rep rest] eqn:Hs; intros H; ok_steps.
  { right. destruct group as [|x l] eqn:Hgr; [done|]. exfalso. apply (not_elem_of_nil x).
    rewrite <-Hs, elem_of_sort_by. by left. }
  left. assert (Hrep : rep ∈ group) by (rewrite <-(elem_of_sort_by tie_leb), Hs; by left).
  apply list_elem_of_filter in Hrep as [Hk Hrep].
  repeat match goal with
  | H : make_MemoryEntry _ = Ok _ |- _ => apply make_MemoryEntry_Ok in H as [-> ?]
  | H : make_MemoryCandidate _ = Ok _ |- _ => apply make_candidate_Ok in H as [-> _]
  end. simplify_eq. eexists rep, _. split_and!; [done..|]. split; [done|done| |done].
  intros field Hf x. assert (He : field (with_refs (merged_refs en_evidence_ids group)
      (merged_refs en_source_record_ids group) (merged_refs en_risk_reason_codes group) (mc_entry rep)) =
    merged_refs field group).
  { by destruct Hf as [->|[->| ->]]. }
  simpl. rewrite He, elem_of_merge_refs. unfold group. setoid_rewrite list_elem_of_filter. naive_solver.
Qed.
Lemma merge_candidates_spec candidates merged : merge_candidates candidates = Ok merged →
  ∀ c, c ∈ merged → ∃ rep, merged_from candidates rep c.
Proof.
  unfold merge_candidates. intros (l & Hl & [= <-])%obind_Ok c ([c'|] & Hc & [= ->])%list_elem_of_omap.
  destruct (mapM_Ok_elem _ _ _ _ Hl Hc) as (group & Hg%elem_of_sort_by & Hm).
  apply group_by_spec in Hg as (z & Hz & ->).
  destruct (merge_group_Ok _ _ _ Hm) as [(rep & m & [= ->] & _ & Hrep)|Hempty]; [by exists rep|].
  assert (Hin : z ∈ filter (λ y, candidate_key y = candidate_key z) candidates) by by apply list_elem_of_filter.
  rewrite Hempty in Hin. by apply elem_of_nil in Hin.
Qed.
(** Every candidate is merged, with those that have its key. *)
Lemma merge_candidates_complete candidates merged c : merge_candidates candidates = Ok merged →
  c ∈ candidates → ∃ rep m, m ∈ merged ∧ merged_from candidates rep m ∧ candidate_key rep = candidate_key c.
Proof.
  unfold merge_candidates. intros (l & Hl & [= <-])%obind_Ok Hc.
  assert (Hg : filter (λ y, candidate_key y = candidate_key c) candidates ∈
    sort_by group_leb (group_by candidate_key candidates)) by (apply elem_of_sort_by, group_by_spec; eauto).
  destruct (mapM_Ok_image _ _ _ _ Hl Hg) as (o & Ho & Hm).
  destruct (merge_group_Ok _ _ _ Hm) as [(rep & m & -> & Hk & Hrep)|Hempty].
  - exists rep, m. split_and!; [|done|done]. apply list_elem_of_omap. by exists (Some m).
  - exfalso. assert (Hin : c ∈ filter (λ y, candidate_key y = candidate_key c) candidates)
      by by apply list_elem_of_filter.
    rewrite Hempty in Hin. by apply elem_of_nil in Hin.
Qed.

(** ** Deriving *)

Lemma le_maximum x l : x ∈ l → x ≤ maximum l.
Proof.
  assert (Hm : ∀ l a, a ≤ foldl Z.max a l ∧ ∀ x, x ∈ l → x ≤ foldl Z.max a l).
  { clear. induction l as [|y l IH]; intros a; simpl; [split; [lia|by intros ? ?%elem_of_nil]|].
    destruct (IH (Z.max a y)) as [H1 H2]. split; [lia|]. intros x [->|Hx]%elem_of_cons; [lia|by apply H2]. }
  destruct l as [|a l]; [by intros ?%elem_of_nil|]. destruct (Hm l a) as [H1 H2]. intros [->|Hx]%elem_of_cons; auto.
Qed.
(** The importance the policy gives an entry. *)
Definition policy_importance (p : EntryPolicy) (reasons : list string) : Z :=
  Z.min 100 (category_base (ep_category p) + Z.min (ep_recurrence_count p - 1) 8 * 2 +
    Z.min (Z.of_nat (length reasons)) 3 * 2 + (if ep_unresolved p then 6 else 0)).
Lemma derive_entry_Ok e records p : derive_entry_policy e records = Ok p →
  ∃ rs, entry_records e records = Ok rs ∧ p = policy_of e rs.
Proof. unfold derive_entry_policy. intros H. ok_steps. eauto. Qed.
Lemma derive_candidate_Ok records c d : derive_candidate_policy (Some records) c = Ok d → ∃ rs,
  entry_records (mc_entry c) records = Ok rs ∧
  let p := policy_of (mc_entry c) rs in
  d = mk_Candidate (with_category (ep_category p) (mc_entry c)) (ep_available_at p) (ep_recurrence_count p)
        (ep_unresolved p) 0.
Proof.
  unfold derive_candidate_policy. intros H. ok_steps. 
  match goal with Hd : derive_entry_policy _ _ = Ok _ |- _ => apply derive_entry_Ok in Hd as (rs & ? & ->) end.
  match goal with Hd : make_MemoryEntry _ = Ok _ |- _ => apply make_MemoryEntry_Ok in Hd as [-> _] end.
  apply make_candidate_Ok in H as [-> _]. by exists rs.
Qed.

(** ** What is selected *)

(** An entry says what candidates said, with what the sources make of it. *)
Record selected_from (records : gmap string DailyReflectionRecord) (candidates : list MemoryCandidate)
    (cutoff_at : Z) (e : MemoryEntry) : Prop := mk_selected {
  sf_policy : ∃ rs, entry_records e records = Ok rs ∧ Forall (λ r, dr_available_at r ≤ cutoff_at) rs ∧
    en_category e = ep_category (policy_of e rs) ∧
    en_importance e = policy_importance (policy_of e rs) (en_risk_reason_codes e);
  sf_traced : ∃ rep c, merged_from candidates rep c ∧ entry_texts e = entry_texts (mc_entry c) ∧
    en_evidence_ids e = en_evidence_ids (mc_entry c) ∧ en_source_record_ids e = en_source_record_ids (mc_entry c) ∧
    en_risk_reason_codes e = en_risk_reason_codes (mc_entry c);
}.
Lemma scored_elem derived cutoff_at c score : (c, score) ∈ scored_candidates derived cutoff_at →
  c ∈ derived ∧ mc_available_at c ≤ cutoff_at ∧ score = deterministic_importance c.
Proof.
  unfold scored_candidates. rewrite elem_of_sort_by. intros (d & [= -> ->] & Hd)%list_elem_of_fmap.
  by apply list_elem_of_filter in Hd as [? ?].
Qed.
Lemma scored_selected records candidates cutoff_at merged derived c score :
  merge_candidates candidates = Ok merged → mapM (derive_candidate_policy (Some records)) merged = Ok derived →
  (c, score) ∈ scored_candidates derived cutoff_at → selected_from records candidates cutoff_at (scored_entry (c, score)).
Proof.
  intros Hm Hd (Hc & Ha & ->)%scored_elem. destruct (mapM_Ok_elem _ _ _ _ Hd Hc) as (m & Hm' & Hder).
  destruct (merge_candidates_spec _ _ Hm m Hm') as [rep Hrep].
  apply derive_candidate_Ok in Hder as (rs & Hrs & ->). split.
  - exists rs. split_and!; [done| |done|done]. apply Forall_forall. intros r Hr. simpl in Ha.
    assert (dr_available_at r ≤ maximum (dr_available_at <$> rs)); [|lia]. by apply le_maximum, list_elem_of_fmap_2.
  - by exists rep, m.
Qed.
Lemma scored_ranked derived cutoff_at :
  StronglySorted (λ a b, rank_leb a b = true) (scored_candidates derived cutoff_at).
Proof.
  apply sort_by_sorted; intros; unfold rank_leb in *; [by apply not_gt_total; [apply rank_ok|]|].
  by eapply not_gt_trans; [apply rank_ok| |].
Qed.
Lemma rank_importance a b : rank_leb a b = true → b.2 ≤ a.2.
Proof. unfold rank_leb, rank_compare. destruct (Z.compare_spec b.2 a.2); simpl; [lia|lia|done]. Qed.

Lemma checked_sources e : check_MemoryEntry e = Ok () → en_source_record_ids e ≠ [].
Proof.
  unfold check_MemoryEntry, check_ref_tuple, check_tuple. intros H He. rewrite He in H. ok_steps. ok_facts.
  simpl in *. discriminate.
Qed.
Lemma foldl_max_le n l a : a ≤ n → (∀ x, x ∈ l → x ≤ n) → foldl Z.max a l ≤ n.
Proof.
  revert a. induction l as [|y l IH]; intros a Ha Hl; [done|]. simpl. apply IH.
  - apply Z.max_lub; [done|]. apply Hl. by left.
  - intros x Hx. apply Hl. by right.
Qed.
(** The derived form of a merged candidate is among the scored ones when its sources are available. *)
Lemma scored_complete records merged derived cutoff_at m :
  mapM (derive_candidate_policy (Some records)) merged = Ok derived → m ∈ merged →
  check_MemoryEntry (mc_entry m) = Ok () → ∃ rs, entry_records (mc_entry m) records = Ok rs ∧
  (Forall (λ r, dr_available_at r ≤ cutoff_at) rs → ∃ d, (d, deterministic_importance d) ∈ scored_candidates derived cutoff_at ∧
    mc_entry d = with_category (ep_category (policy_of (mc_entry m) rs)) (mc_entry m) ∧
    deterministic_importance d = policy_importance (policy_of (mc_entry m) rs) (en_risk_reason_codes (mc_entry m))).
Proof.
  intros Hd Hm Hcheck. destruct (mapM_Ok_image _ _ _ _ Hd Hm) as (d & Hin & Hder).
  apply derive_candidate_Ok in Hder as (rs & Hrs & ->). exists rs. split; [done|]. intros Hav.
  match type of Hin with ?d ∈ _ => exists d end. split; [|by split]. unfold scored_candidates. apply elem_of_sort_by, list_elem_of_fmap.
  eexists. split; [reflexivity|]. apply list_elem_of_filter. split; [|exact Hin]. simpl.
  unfold entry_records in Hrs. apply mapM_Ok in Hrs as Hlen%Forall2_length.
  apply checked_sources in Hcheck. destruct rs as [|r rs]; [by destruct (en_source_record_ids _)|].
  rewrite Forall_forall in Hav. unfold maximum. simpl.
  apply foldl_max_le; [apply Hav; by left|]. intros x (r' & -> & Hr')%list_elem_of_fmap. apply Hav. by right.
Qed.

(** C20. Selecting entries: at most the maximum, at most the quota of each category, no
    two with one deduplication key, the most important first. Every entry says what one
    candidate said, with the evidence, sources and reasons of all the candidates that have
    its key - the digest of its folded texts and of the category its provider gave - and
    its category and importance are recomputed from source records that were all available
    by the cutoff. And no candidate is left out otherwise: what its key was merged to, with
    its recomputed category, was selected under its new key, or its category, the maximum
    or the lines of the artifact are filled by entries at least as important, unless a
    source record of it was not available by the cutoff. *)
Theorem select_entries_sound candidates cutoff_at quotas maximum records out :
  select_entries candidates cutoff_at quotas maximum (Some records) = Ok out →
  (length out ≤ maximum)%nat ∧ (∀ c, (in_category c out ≤ quotas c)%nat) ∧ NoDup (dedup_key <$> out) ∧
  StronglySorted (λ a b, en_importance b ≤ en_importance a) out ∧
  (∀ e, e ∈ out → check_MemoryEntry e = Ok () ∧ selected_from records candidates cutoff_at e) ∧
  ∀ c, c ∈ candidates → ∃ rep m rs, merged_from candidates rep m ∧ candidate_key rep = candidate_key c ∧
    entry_records (mc_entry m) records = Ok rs ∧
    let p := policy_of (mc_entry m) rs in
    (Forall (λ r, dr_available_at r ≤ cutoff_at) rs →
     accounted quotas maximum out (with_category (ep_category p) (mc_entry m))
       (policy_importance p (en_risk_reason_codes (mc_entry m)))).
Proof.
  unfold select_entries. intros H. ok_steps. ok_facts.
  match goal with
  | Hm : merge_candidates _ = Ok ?m, Hd : mapM _ _ = Ok ?d |- _ =>
      rename m into merged, d into derived, Hm into Hmerged, Hd into Hderived
  end.
  assert (Hnil : chosen_ok quotas maximum [])
    by by split; [simpl; lia|intros; apply Nat.le_0_l|constructor|intros ? ?%elem_of_nil].
  assert (Hlt : (length (@nil MemoryEntry) < maximum)%nat) by (simpl; lia).
  pose proof (scored_ranked derived cutoff_at) as Hs.
  destruct (choose_spec quotas maximum (scored_candidates derived cutoff_at) [] out Hlt Hnil H)
    as ([B1 B2 B3 B4] & picked & Hp & Ho). simpl in Ho.
  split_and!; [done..| | |].
  - rewrite Ho. apply (StronglySorted_sublist _ _ _ Hp) in Hs. clear -Hs.
    induction Hs as [|a l _ IH Ha]; [constructor|]. constructor; [done|]. apply Forall_fmap.
    eapply Forall_impl; [exact Ha|]. intros b. apply rank_importance.
  - intros e He. split; [by apply B4|]. rewrite Ho in He. apply list_elem_of_fmap in He as ([c s] & -> & Hc).
    eapply scored_selected; [done..|]. by eapply sublist_elem.
  - intros c Hc. destruct (merge_candidates_complete _ _ _ Hmerged Hc) as (rep & m & Hm & Hfrom & Hk).
    destruct (scored_complete records merged derived cutoff_at m) as (rs & Hrs & Hd); [done|done|apply Hfrom|].
    exists rep, m, rs. split_and!; [done..|]. intros Hav. destruct (Hd Hav) as (d & Hin & He & Hi).
    rewrite <-He, <-Hi. apply (choose_complete quotas maximum _ [] out Hlt Hnil) in Hin; [done| | |done].
    + eapply StronglySorted_weaken; [|exact Hs]. intros a b. apply rank_importance.
    + by intros ? ? ?%elem_of_nil.
Qed.

(** ** What providers say of importance *)

(** A candidate without what its provider says of ranking. *)
Definition unscored (c : MemoryCandidate) : MemoryCandidate :=
  mk_Candidate (with_importance 0 (mc_entry c)) (mc_available_at c) 1 false 0.
Definition unimportant (c : MemoryCandidate) : MemoryCandidate :=
  mk_Candidate (with_importance 0 (mc_entry c)) (mc_available_at c) (mc_recurrence_count c) (mc_unresolved c)
    (mc_model_importance c).
(** What the constructors check. *)
Definition constructed (c : MemoryCandidate) : Prop :=
  check_MemoryEntry (mc_entry c) = Ok () ∧ check_MemoryCandidate c = Ok ().
Definition outcome_map {A B} (f : A → B) (o : outcome A) : outcome B := o ≫= λ a, Ok (f a).
Lemma mapM_outcome_map {A A' B B'} (f : A → outcome B) (f' : A' → outcome B') (g : A → A') (h : B → B') (l : list A) :
  (∀ x, x ∈ l → f' (g x) = outcome_map h (f x)) →
  mapM f' (g <$> l) = outcome_map (fmap (M:=list) h) (mapM f l).
Proof.
  induction l as [|x l IH]; intros H; [done|]. specialize (IH (λ y Hy, H y (list_elem_of_further y x l Hy))).
  simpl. rewrite (H x) by (by left). destruct (f x) as [y|e]; [|done]. simpl.
  change (g <$> l) with (list_fmap _ _ g l) in IH. rewrite IH. by destruct (mapM f l).
Qed.
Lemma check_importance e n : 0 ≤ en_importance e ≤ 100 → 0 ≤ n ≤ 100 →
  check_MemoryEntry (with_importance n e) = check_MemoryEntry e.
Proof.
  intros H1 H2. unfold check_MemoryEntry. simpl. f_equal. unfold guard_that.
  by replace ((0 <=? en_importance e) && (en_importance e <=? 100)) with ((0 <=? n) && (n <=? 100)) by
    (trans true; [|symmetry]; apply andb_true_iff; lia).
Qed.
Lemma checked_importance e : check_MemoryEntry e = Ok () → 0 ≤ en_importance e ≤ 100.
Proof. unfold check_MemoryEntry. intros H. ok_steps. ok_facts. lia. Qed.
Lemma make_unimportant e : 0 ≤ en_importance e ≤ 100 →
  make_MemoryEntry (with_importance 0 e) = outcome_map (with_importance 0) (make_MemoryEntry e).
Proof. intros H. unfold make_MemoryEntry. rewrite check_importance by lia. by destruct (check_MemoryEntry e). Qed.

Lemma merge_group_unscored group : Forall constructed group →
  merge_group (unscored <$> group) = outcome_map (fmap (M:=option) unscored) (merge_group group).
Proof.
  intros Hg. assert (Hs : sort_by tie_leb (unscored <$> group) = unscored <$> sort_by tie_leb group).
  { by rewrite <-(sort_by_fmap unscored tie_leb). }
  assert (Hr : ∀ field, (∀ n e, field (with_importance n e) = field e) →
    merged_refs field (unscored <$> group) = merged_refs field group).
  { intros field Hf. unfold merged_refs. rewrite Hs, list_fmap_bind. f_equal. apply list_bind_ext; [|done].
    intros c. apply Hf. }
  unfold merge_group. rewrite Hs. destruct (sort_by tie_leb group) as [|rep rest] eqn:Hsort; [done|]. rewrite fmap_cons.
  assert (Hrep : constructed rep).
  { rewrite Forall_forall in Hg. apply Hg. rewrite <-(elem_of_sort_by tie_leb), Hsort. by left. }
  destruct Hrep as [He%checked_importance Hc]. rewrite !Hr by done. unfold outcome_map.
  destruct (guard_that _ _ _); [|done]. cbn [mbind outcome_bind].
  change (with_refs ?a ?b ?c (mc_entry (unscored rep))) with (with_importance 0 (with_refs a b c (mc_entry rep))).
  rewrite make_unimportant by done. unfold outcome_map. destruct (make_MemoryEntry _) as [e|] eqn:Hm; [|done].
  apply make_MemoryEntry_Ok in Hm as [-> _]. simpl. unfold make_MemoryCandidate.
  replace (check_MemoryCandidate (mk_Candidate (with_refs _ _ _ (mc_entry rep)) _ _ _ _)) with (Ok ()) by done. done.
Qed.

Lemma merge_unscored candidates : Forall constructed candidates →
  merge_candidates (unscored <$> candidates) = outcome_map (fmap unscored) (merge_candidates candidates).
Proof.
  intros Hc. unfold merge_candidates. rewrite group_by_fmap by done.
  rewrite <-(sort_by_fmap (fmap unscored) group_leb).
  assert (Hsort : sort_by (λ x y : list MemoryCandidate, group_leb (unscored <$> x) (unscored <$> y)) (group_by candidate_key candidates) =
    sort_by group_leb (group_by candidate_key candidates)).
  { apply sort_by_ext. by intros [|a x] [|b y]. }
  rewrite Hsort, (mapM_outcome_map merge_group merge_group (fmap unscored) (fmap unscored)).
  - destruct (mapM merge_group _) as [l|e]; [|done]. simpl. do 2 f_equal.
    induction l as [|[c|] l IH]; [done| |exact IH]. exact (f_equal (cons (unscored c)) IH).
  - intros group Hg%elem_of_sort_by. apply merge_group_unscored, Forall_forall. intros c Hin.
    rewrite Forall_forall in Hc. apply Hc. apply group_by_spec in Hg as (z & _ & ->).
    by apply list_elem_of_filter in Hin as [_ ?].
Qed.
Lemma merged_importance candidates merged c : merge_candidates candidates = Ok merged → c ∈ merged →
  0 ≤ en_importance (mc_entry c) ≤ 100.
Proof.
  unfold merge_candidates. intros (l & Hl & [= <-])%obind_Ok ([c'|] & Hc & [= ->])%list_elem_of_omap.
  destruct (mapM_Ok_elem _ _ _ _ Hl Hc) as (group & _ & Hm). unfold merge_group in Hm.
  destruct (sort_by tie_leb _); [done|]. ok_steps. subst.
  match goal with H : make_MemoryCandidate _ = Ok _ |- _ => apply make_candidate_Ok in H as [-> _] end.
  match goal with H : make_MemoryEntry _ = Ok _ |- _ => apply make_MemoryEntry_Ok in H as [-> Hentry] end.
  by apply checked_importance in Hentry.
Qed.
Lemma derive_unscored records c : 0 ≤ en_importance (mc_entry c) ≤ 100 →
  derive_candidate_policy records (unscored c) = outcome_map unimportant (derive_candidate_policy records c).
Proof.
  intros Hi. destruct records as [records|]; unfold derive_candidate_policy.
  - change (derive_entry_policy (mc_entry (unscored c)) records) with (derive_entry_policy (mc_entry c) records).
    destruct (derive_entry_policy _ _) as [p|]; [|done]. simpl.
    change (with_category ?k (with_importance 0 ?e)) with (with_importance 0 (with_category k e)).
    rewrite make_unimportant by done. unfold outcome_map. destruct (make_MemoryEntry _); [|done]. simpl.
    unfold make_MemoryCandidate, check_MemoryCandidate. simpl. by destruct (guard_that _ _ _).
  - simpl. change (with_category ?k (with_importance 0 ?e)) with (with_importance 0 (with_category k e)).
    rewrite make_unimportant by done. unfold outcome_map. by destruct (make_MemoryEntry _).
Qed.
Lemma scored_unimportant derived cutoff_at : scored_candidates (unimportant <$> derived) cutoff_at =
  prod_map unimportant id <$> scored_candidates derived cutoff_at.
Proof.
  unfold scored_candidates.
  assert (Hs : ∀ l, prod_map unimportant id <$> sort_by rank_leb l = sort_by rank_leb (prod_map unimportant id <$> l)).
  { intros l. by rewrite <-(sort_by_fmap (prod_map unimportant id) rank_leb). }
  rewrite Hs, (filter_fmap_iff unimportant _ (λ c, mc_available_at c ≤ cutoff_at)) by done.
  by rewrite <-!list_fmap_compose.
Qed.
Lemma choose_unimportant quotas maximum scored : ∀ chosen,
  choose_entries quotas maximum chosen (prod_map unimportant id <$> scored) =
  choose_entries quotas maximum chosen scored.
Proof.
  induction scored as [|[c score] scored IH]; intros chosen; [done|]. simpl.
  change (list_fmap _ _ (prod_map unimportant id) scored) with (prod_map unimportant id <$> scored).
  rewrite IH. destruct (_ || _); [done|].
  change (with_importance score (with_importance 0 ?e)) with (with_importance score e).
  destruct (make_MemoryEntry _); [|done]. simpl. by rewrite IH.
Qed.
Lemma select_unscored candidates cutoff_at quotas maximum records : Forall constructed candidates →
  select_entries (unscored <$> candidates) cutoff_at quotas maximum records =
  select_entries candidates cutoff_at quotas maximum records.
Proof.
  intros Hc. unfold select_entries. do 2 (destruct (guard_that _ _ _); [|done]; cbn [mbind outcome_bind]).
  rewrite merge_unscored by done. destruct (merge_candidates candidates) as [merged|] eqn:Hm; [|done]. simpl.
  rewrite (mapM_outcome_map (derive_candidate_policy records) (derive_candidate_policy records) unscored unimportant)
    by (intros c Hin; by eapply derive_unscored, merged_importance).
  destruct (mapM (derive_candidate_policy records) merged) as [derived|]; [|done]. simpl.
  by rewrite scored_unimportant, choose_unimportant.
Qed.

(** C21. Nothing a provider says of importance, recurrence or resolution changes the
    selection: candidates that differ in these only are selected alike, errors included. *)
Theorem provider_scores_ignored candidates candidates' cutoff_at quotas maximum records :
  Forall constructed candidates → Forall constructed candidates' →
  unscored <$> candidates = unscored <$> candidates' →
  select_entries candidates cutoff_at quotas maximum records =
  select_entries candidates' cutoff_at quotas maximum records.
Proof. intros H H' Heq. rewrite <-select_unscored, Heq by done. by apply select_unscored. Qed.

(** [build_selected_artifact] loops at most once for each selected entry. *)
Lemma fit_artifact_fuel f selected k :
  fit_artifact (length selected + k) f selected = fit_artifact (length selected) f selected.
Proof.
  remember (length selected) as n eqn:Hn. revert selected Hn. induction n as [|n IH]; intros selected Hn.
  - symmetry in Hn. apply length_zero_iff_nil in Hn as ->. by destruct k.
  - destruct selected as [|e l]; [done|]. cbn [Nat.add fit_artifact].
    destruct (build_memory_artifact f (e :: l)); [done|]. destruct (_ && _); [|done]. apply IH.
    rewrite removelast_firstn_len, length_firstn. simpl in Hn |- *. lia.
Qed.
End facts.
