(* ===== verification/PromotionFacts.v ===== *)
(** * Facts about the state machines of memory

    Corrections form chains in time and promotions one chain of predecessors; what is read
    or selected as of an instant uses nothing known later. *)

From S2P Require Import Prelude Errors Text LedgerFacts Calendar Json Instants Sources Memory Promotion MemoryFacts.

(** * Facts about reflection records

    Whatever is appended, corrections form chains in time: a record is superseded at most
    once, by a later record that could see it; and what is seen as of an instant never
    depends on records that become available later. *)

Local Open Scope Z_scope.

Section facts.
Context {E : MemoryEnv}.

(** ** Lookups *)

Lemma find_record_Some i s r : find_record i s = Some r → r ∈ s ∧ dr_record_id r = i.
Proof.
  unfold find_record. intros H%head_Some_elem_of. apply list_elem_of_filter in H as [? ?]. done.
Qed.
Lemma find_record_None i s : find_record i s = None ↔ i ∉ dr_record_id <$> s.
Proof.
  unfold find_record. rewrite head_None. split.
  - intros H (r & -> & Hr)%list_elem_of_fmap. assert (Hin : r ∈ filter (λ x, dr_record_id x = dr_record_id r) s).
    { by apply list_elem_of_filter. } rewrite H in Hin. by apply not_elem_of_nil in Hin.
  - intros H. destruct (filter _ s) as [|r l] eqn:Hf; [done|]. exfalso. apply H.
    assert (Hin : r ∈ filter (λ x, dr_record_id x = i) s) by (rewrite Hf; by left).
    apply list_elem_of_filter in Hin as [<- Hin]. by apply list_elem_of_fmap_2.
Qed.

(** ** The invariant *)

Definition superseded_by (r c : DailyReflectionRecord) : Prop := Some (dr_record_id r) ∈ correction_targets c.
Record reflections_ok (s : list DailyReflectionRecord) : Prop := mk_reflections {
  ro_ids : NoDup (dr_record_id <$> s);
  ro_checked : ∀ r, r ∈ s → check_DailyReflectionRecord r = Ok ();
  ro_earlier : ∀ i c, s !! i = Some c → ∀ o, o ∈ correction_targets c →
    ∃ j p, (j < i)%nat ∧ s !! j = Some p ∧ o = Some (dr_record_id p) ∧
      dr_available_at p ≤ dr_cutoff_at c ∧ dr_created_at p ≤ dr_created_at c;
  ro_once : ∀ r c c', c ∈ s → c' ∈ s → superseded_by r c → superseded_by r c' → c = c';
}.
Lemma reflections_nil : reflections_ok [].
Proof. split; [constructor|..]; intros; set_solver. Qed.

(** The fuel of the walk is enough: the path visits distinct records. *)
Lemma walk_corrections_fuel s i : ∀ fuel visited cursor k, NoDup visited → visited ⊆ dr_record_id <$> s →
  (length s < fuel + length visited)%nat →
  walk_corrections (fuel + k) s i visited cursor = walk_corrections fuel s i visited cursor.
Proof.
  induction fuel as [|fuel IH]; intros visited cursor k Hn Hv Hl.
  { pose proof (NoDup_incl_length (proj1 (NoDup_ListNoDup visited) Hn) (λ x Hx, proj1 (list_elem_of_In _ _)
      (Hv x (proj2 (list_elem_of_In _ _) Hx)))) as Hle. rewrite length_fmap in Hle. simpl in Hl. lia. }
  simpl. destruct cursor as [c|]; [|done]. destruct (_ || _) eqn:Hb; simpl; [done|].
  apply orb_false_iff in Hb as [_ Hc%bool_decide_eq_false].
  destruct (find_record c s) as [p|] eqn:Hp; [|done]. destruct (check_DailyReflectionRecord p); [|done]. simpl.
  apply IH; [by constructor| |simpl; lia]. intros x [->|Hx]%elem_of_cons; [|by apply Hv].
  apply find_record_Some in Hp as [Hp <-]. by apply list_elem_of_fmap_2.
Qed.
Lemma check_target_Ok s r o : check_target s r o = Ok () → ∃ t p, o = Some t ∧ find_record t s = Some p ∧
  dr_available_at p ≤ dr_cutoff_at r ∧ dr_created_at p ≤ dr_created_at r ∧
  ∀ c, c ∈ s → Some t ∉ correction_targets c.
Proof.
  unfold check_target, check_head. intros H. destruct o as [t|]; [|done].
  destruct (find_record t s) as [p|] eqn:Hp; [|done]. ok_steps. ok_facts. exists t, p. split_and!; try done.
  intros c Hc Hin. match goal with H : mapM _ s = _ |- _ => pose proof (mapM_unit_Ok _ _ _ _ H Hc) as Hx end.
  simpl in Hx. ok_steps. by ok_facts.
Qed.
Lemma append_cases r s u s' : append r s = Ok (u, s') →
  s' = s ∨ (s' = s ++ [r] ∧ dr_record_id r ∉ dr_record_id <$> s ∧ check_DailyReflectionRecord r = Ok () ∧
            ∀ o, o ∈ correction_targets r → check_target s r o = Ok ()).
Proof.
  unfold append. intros H. destruct (find_record _ s) as [e|] eqn:Hf; ok_steps; subst; [by left|right].
  split_and!; [done|by apply find_record_None|done|]. intros o Ho. by eapply mapM_unit_Ok.
Qed.

Lemma append_reflections r s u s' : reflections_ok s → append r s = Ok (u, s') → reflections_ok s'.
Proof.
  intros [H1 H2 H3 H4] [->|(-> & Hnew & Hr & Ht)]%append_cases; [done|].
  assert (Hold : ∀ x c, c ∈ s → superseded_by x c → superseded_by x r → False).
  { intros x c Hc Hxc Hxr. destruct (check_target_Ok _ _ _ (Ht _ Hxr)) as (t & p & [= <-] & _ & _ & _ & Hone).
    by apply (Hone c Hc). }
  split.
  - rewrite fmap_app. apply NoDup_app. split_and!; [done| |apply NoDup_singleton].
    intros x Hx. simpl. rewrite list_elem_of_singleton. by intros ->.
  - intros x [Hx|Hx]%elem_of_app; [by apply H2|]. by apply list_elem_of_singleton in Hx as ->.
  - intros i c Hc o Ho. apply lookup_app_Some in Hc as [Hc|[Hi Hc]].
    + destruct (H3 i c Hc o Ho) as (j & p & Hj & Hp & ?). exists j, p. split; [done|].
      rewrite lookup_app_l by by eapply lookup_lt_Some. done.
    + apply list_lookup_singleton_Some in Hc as [_ <-].
      destruct (check_target_Ok _ _ _ (Ht o Ho)) as (t & p & -> & Hp & ? & ? & _).
      apply find_record_Some in Hp as [[j Hj]%list_elem_of_lookup <-]. exists j, p.
      pose proof (lookup_lt_Some _ _ _ Hj). split_and!; [lia|by rewrite lookup_app_l|done..].
  - intros x c c' [Hc|Hc]%elem_of_app [Hc'|Hc']%elem_of_app Hx Hx'.
    + by eapply H4.
    + apply list_elem_of_singleton in Hc' as ->. by destruct (Hold x c Hc).
    + apply list_elem_of_singleton in Hc as ->. by destruct (Hold x c' Hc').
    + by apply list_elem_of_singleton in Hc as ->, Hc' as ->.
Qed.

(** Any records are offered, in any order; those refused leave the repository as it is. *)
Definition offer (s : list DailyReflectionRecord) (r : DailyReflectionRecord) : list DailyReflectionRecord :=
  match append r s with Ok (_, s') => s' | Raise _ => s end.
Definition append_all (rs : list DailyReflectionRecord) (s : list DailyReflectionRecord) : list DailyReflectionRecord := foldl offer s rs.
Lemma offer_ok s r : reflections_ok s → reflections_ok (offer s r).
Proof. intros H. unfold offer. destruct (append r s) as [[u s']|] eqn:Ha; [by eapply append_reflections|done]. Qed.
Lemma append_all_ok rs s : reflections_ok s → reflections_ok (append_all rs s).
Proof. unfold append_all. revert s. induction rs as [|r rs IH]; intros s H; [done|]. by apply IH, offer_ok. Qed.

(** ** What is seen *)

Lemma elem_targets o r : o ∈ correction_targets r ↔ o ∈ ob_supersedes_record_id <$> corrections r.
Proof. unfold correction_targets. apply elem_of_remove_dups. Qed.
Lemma elem_superseded i visible : i ∈ superseded_ids visible ↔
  i ∈ dr_record_id <$> visible ∧ ∃ c, c ∈ visible ∧ Some i ∈ correction_targets c.
Proof.
  unfold superseded_ids. rewrite list_elem_of_filter, list_elem_of_omap. split.
  - intros (Hi & o & (c & Ho & Hc)%list_elem_of_bind & Hs). split; [done|]. exists c. split; [done|].
    apply elem_targets, list_elem_of_fmap. by exists o.
  - intros (Hi & c & Hc & (o & Hs & Ho)%elem_targets%list_elem_of_fmap). split; [done|]. exists o.
    split; [|done]. apply list_elem_of_bind. by exists c.
Qed.
Lemma reflection_leb_spec a b : reflection_leb a b = true ↔ dr_available_at a < dr_available_at b ∨
  (dr_available_at a = dr_available_at b ∧ String.leb (dr_record_id a) (dr_record_id b) = true).
Proof. unfold reflection_leb. rewrite orb_true_iff, andb_true_iff, Z.ltb_lt, Z.eqb_eq. done. Qed.
Lemma reflection_leb_total a b : reflection_leb a b = false → reflection_leb b a = true.
Proof.
  intros H%not_true_iff_false. rewrite reflection_leb_spec in H. apply reflection_leb_spec.
  destruct (Z.lt_total (dr_available_at a) (dr_available_at b)) as [|[Heq|]]; [tauto| |tauto].
  right. split; [done|]. apply str_leb_total, not_true_iff_false. tauto.
Qed.
Lemma reflection_leb_trans a b c : reflection_leb a b = true → reflection_leb b c = true → reflection_leb a c = true.
Proof.
  rewrite !reflection_leb_spec. intros [H1|[H1 H1']] [H2|[H2 H2']]; try (left; lia).
  right. split; [congruence|]. by eapply str_leb_trans.
Qed.

(** A later append that becomes visible later does not change the view. *)
Lemma visible_later as_of s r : as_of < dr_available_at r → visible_at as_of (offer s r) = visible_at as_of s.
Proof.
  intros Hr. unfold offer. destruct (append r s) as [[u s']|] eqn:Ha; [|done].
  apply append_cases in Ha as [->|(-> & _)]; [done|]. unfold visible_at.
  rewrite filter_app, filter_cons, filter_nil, decide_False by lia. apply app_nil_r.
Qed.
Lemma visible_later_all as_of rs s : Forall (λ r, as_of < dr_available_at r) rs →
  visible_at as_of (append_all rs s) = visible_at as_of s.
Proof.
  intros H. revert s. induction H as [|r rs Hr _ IH]; intros s; [done|].
  change (append_all (r :: rs) s) with (append_all rs (offer s r)). by rewrite IH, visible_later.
Qed.
Lemma records_as_of_ok as_of s : reflections_ok s → records_as_of as_of s =
  Ok (sort_by reflection_leb (filter (λ r, dr_record_id r ∉ superseded_ids (visible_at as_of s)) (visible_at as_of s))).
Proof.
  intros H. unfold records_as_of.
  rewrite (mapM_Ok_fmap check_DailyReflectionRecord (λ _, ()) s); [done|]. apply (ro_checked s H).
Qed.

(** ** The properties *)

(** C22. Whatever records are offered to the repository, in whatever order: identifiers are
    unique and every record passes its checks, content hash included; each correction
    supersedes a record that was appended before it, was available at its cutoff and was
    not created later, so corrections have no cycles; and no record has two corrections. *)
Theorem corrections_form_chains rs : reflections_ok (append_all rs []).
Proof. apply append_all_ok, reflections_nil. Qed.

(** C23. What is read as of an instant: exactly the records available by then that no
    record available by then supersedes, in order of availability; and whatever is
    appended later with a later availability, the same question has the same answer. *)
Theorem reflections_point_in_time rs as_of : let s := append_all rs [] in
  ∃ view, records_as_of as_of s = Ok view ∧ StronglySorted (λ a b, reflection_leb a b = true) view ∧
    (∀ r, r ∈ view ↔ r ∈ s ∧ dr_available_at r ≤ as_of ∧
       ¬ ∃ c, c ∈ s ∧ dr_available_at c ≤ as_of ∧ superseded_by r c) ∧
    ∀ later, Forall (λ r, as_of < dr_available_at r) later →
      records_as_of as_of (append_all later s) = Ok view.
Proof.
  intros s. assert (H : reflections_ok s) by apply append_all_ok, reflections_nil.
  eexists. split; [by apply records_as_of_ok|]. split_and!.
  - apply sort_by_sorted; [apply reflection_leb_total|apply reflection_leb_trans].
  - intros r. rewrite elem_of_sort_by, list_elem_of_filter, elem_superseded. unfold visible_at.
    split.
    + intros [Hno [Hv Hr]%list_elem_of_filter]. split_and!; [done..|]. intros (c & Hc & Hcv & Hs). apply Hno.
      split; [apply list_elem_of_fmap_2, list_elem_of_filter; done|]. exists c. by rewrite list_elem_of_filter.
    + intros (Hr & Hv & Hno). split; [|by apply list_elem_of_filter].
      intros (_ & c & [Hcv Hc]%list_elem_of_filter & Hs). apply Hno. by exists c.
  - intros later Hl. rewrite records_as_of_ok by by apply append_all_ok. by rewrite visible_later_all.
Qed.
End facts.

(** * Facts about the promotion of memory

    In every state the repository can reach, the promotions form one chain of
    predecessors, and promoted and invalid artifacts stay what they are; what is selected
    as of an instant was promoted by then and uses nothing known later. *)

Local Open Scope Z_scope.

(** ** The repository as a transition system *)

Inductive PromotionOp :=
  | Register (a : MemoryArtifact)
  | SaveValidation (r : ValidationResult) (c : option ValidationContext)
  | MarkValidated (r : ValidationResult) (c : option ValidationContext)
  | MarkInvalid (r : ValidationResult)
  | Promote (now : Z) (artifact_id content_hash : string).

Section facts.
Context {E : MemoryEnv}.

Definition result_state {A} (s : PromotionRepo) (o : outcome (A * PromotionRepo)) : PromotionRepo :=
  match o with Ok (_, s') => s' | Raise _ => s end.
Definition repo_op (op : PromotionOp) (s : PromotionRepo) : PromotionRepo :=
  match op with
  | Register a => result_state s (register_candidate a s)
  | SaveValidation r c => result_state s (save_validation r c s)
  | MarkValidated r c => result_state s (mark_validated r c s)
  | MarkInvalid r => result_state s (mark_invalid r s)
  | Promote now i h => result_state s (promote now i h s)
  end.
Definition run_repo (ops : list PromotionOp) (s : PromotionRepo) : PromotionRepo := foldl (λ s op, repo_op op s) s ops.

(** The five things a method can do. *)
Inductive repo_step (s : PromotionRepo) : PromotionRepo → Prop :=
  | step_none : repo_step s s
  | step_register a : pr_artifacts s !! ar_artifact_id a = None → ar_state a = ArtifactState.CANDIDATE →
      repo_step s (put_artifact a s)
  | step_validate a old c : pr_artifacts s !! ar_artifact_id a = Some old →
      ar_state old ≠ ArtifactState.CURRENT → ar_state old ≠ ArtifactState.INVALID →
      ar_state a = ArtifactState.VALIDATED →
      repo_step s (put_context (ar_artifact_id a) c (put_artifact a s))
  | step_invalidate a old reason : pr_artifacts s !! ar_artifact_id a = Some old →
      ar_state old ≠ ArtifactState.CURRENT → ar_state old ≠ ArtifactState.INVALID →
      ar_state a = ArtifactState.INVALID →
      repo_step s (put_reason (ar_artifact_id a) reason (put_context (ar_artifact_id a) None (put_artifact a s)))
  | step_promote i a now : pr_artifacts s !! i = Some a → ar_state a = ArtifactState.VALIDATED →
      ar_previous_artifact_id a = pr_current_id s → ar_created_at a ≤ now →
      match last (pr_promotion_history s) with Some e => pe_promoted_at e ≤ now | None => True end →
      repo_step s (mk_PromotionRepo (<[i := set_state ArtifactState.CURRENT a]> (pr_artifacts s)) (Some i)
        (pr_promotion_history s ++ [mk_Promotion i now]) (pr_validation_contexts s) (pr_invalidation_reasons s)).

Lemma is_state_true st a : is_state st a = true ↔ ar_state a = st.
Proof. unfold is_state. apply bool_decide_eq_true. Qed.
Lemma is_state_false st a : is_state st a = false ↔ ar_state a ≠ st.
Proof. unfold is_state. apply bool_decide_eq_false. Qed.
Lemma known_artifact_Ok a m s old : known_artifact a m s = Ok old → pr_artifacts s !! ar_artifact_id a = Some old.
Proof. unfold known_artifact. intros H. destruct (_ !! _) as [x|]; ok_steps; by subst. Qed.

Lemma register_step a s r : register_candidate a s = Ok r → repo_step s r.2.
Proof.
  unfold register_candidate. intros H. ok_steps. rewrite is_state_true in *.
  destruct (pr_artifacts s !! ar_artifact_id a) eqn:Hl; ok_steps; subst; simpl; by constructor.
Qed.
Lemma save_step r c s x : save_validation r c s = Ok x → repo_step s x.2.
Proof.
  unfold save_validation. intros H. ok_steps.
  match goal with H : known_artifact _ _ _ = _ |- _ => apply known_artifact_Ok in H as Hl end.
  destruct (is_state ArtifactState.CURRENT _) eqn:Hc; ok_steps; [subst; constructor|].
  destruct (is_state ArtifactState.INVALID x1) eqn:Hi; ok_steps; [subst; constructor|].
  apply is_state_false in Hc, Hi. unfold result_reason in *.
  destruct (is_state ArtifactState.INVALID (vr_artifact r)) eqn:Ha; ok_steps; subst; ok_steps; subst; simpl.
  - apply is_state_true in Ha. by eapply step_invalidate.
  - rewrite orb_false_r, is_state_true in *. by eapply step_validate.
Qed.
Lemma mark_invalid_step r s x : mark_invalid r s = Ok x → repo_step s x.2.
Proof.
  unfold mark_invalid. intros H. ok_steps. rewrite is_state_true in *.
  match goal with H : known_artifact _ _ _ = _ |- _ => apply known_artifact_Ok in H as Hl end.
  match goal with H : negb _ = true |- _ => apply negb_true_iff in H; fail | _ => idtac end.
  destruct (is_state ArtifactState.INVALID x1) eqn:Hi; ok_steps; subst; simpl; [constructor|].
  rewrite is_state_false in Hi. match goal with H : negb (is_state ArtifactState.CURRENT _) = true |- _ =>
    apply negb_true_iff, is_state_false in H end. by eapply step_invalidate.
Qed.
Lemma promote_step now i h s x : promote now i h s = Ok x → repo_step s x.2.
Proof.
  unfold promote. intros H. destruct (pr_artifacts s !! i) as [a|] eqn:Hl; [|done]. ok_steps.
  destruct (is_state ArtifactState.CURRENT a); ok_steps; subst; [constructor|].
  unfold artifact_with_state in *. ok_steps. rewrite is_state_true in *. ok_facts. subst. simpl. apply step_promote; try done.
  destruct (last _); [|done]. by ok_facts.
Qed.
Lemma op_step op s : repo_step s (repo_op op s).
Proof.
  assert (H : ∀ A (o : outcome (A * PromotionRepo)), (∀ x, o = Ok x → repo_step s x.2) → repo_step s (result_state s o)).
  { intros A [[y s']|e] H; simpl; [by apply (H (y, s'))|constructor]. }
  destruct op; simpl; apply H; intros x Hx.
  - by eapply register_step.
  - by eapply save_step.
  - unfold mark_validated in Hx. ok_steps. by eapply save_step.
  - by eapply mark_invalid_step.
  - by eapply promote_step.
Qed.

(** ** The invariant *)

Definition promoted_ids (s : PromotionRepo) : list string := pe_artifact_id <$> pr_promotion_history s.
Record repo_ok (s : PromotionRepo) : Prop := mk_repo_ok {
  rk_keys : ∀ i a, pr_artifacts s !! i = Some a → ar_artifact_id a = i;
  rk_current : pr_current_id s = last (promoted_ids s);
  rk_once : NoDup (promoted_ids s);
  rk_promoted : ∀ i a, pr_artifacts s !! i = Some a → (ar_state a = ArtifactState.CURRENT ↔ i ∈ promoted_ids s);
  rk_chain : ∀ n e, pr_promotion_history s !! n = Some e →
    ∃ a, pr_artifacts s !! pe_artifact_id e = Some a ∧ ar_created_at a ≤ pe_promoted_at e ∧
      ar_previous_artifact_id a = last (take n (promoted_ids s));
  rk_times : StronglySorted (λ a b, pe_promoted_at a ≤ pe_promoted_at b) (pr_promotion_history s);
  rk_reasons : ∀ i a, pr_artifacts s !! i = Some a →
    (ar_state a = ArtifactState.INVALID ↔ is_Some (pr_invalidation_reasons s !! i));
  rk_contexts : ∀ i, is_Some (pr_validation_contexts s !! i) →
    ∃ a, pr_artifacts s !! i = Some a ∧ (ar_state a = ArtifactState.VALIDATED ∨ ar_state a = ArtifactState.CURRENT);
  rk_fresh : ∀ i, pr_artifacts s !! i = None → i ∉ promoted_ids s ∧ pr_invalidation_reasons s !! i = None;
}.
(** What a later state keeps. *)
Record repo_kept (s s' : PromotionRepo) : Prop := mk_repo_kept {
  kp_history : pr_promotion_history s `prefix_of` pr_promotion_history s';
  kp_final : ∀ i a, pr_artifacts s !! i = Some a →
    ar_state a = ArtifactState.CURRENT ∨ ar_state a = ArtifactState.INVALID → pr_artifacts s' !! i = Some a;
}.
#[local] Instance repo_kept_preorder : PreOrder repo_kept.
Proof.
  split; [by intros s; split|]. intros s1 s2 s3 [H1 H1'] [H2 H2']. split; [by etrans|]. auto.
Qed.
Lemma step_kept s s' : repo_step s s' → repo_kept s s'.
Proof.
  destruct 1 as [|a Hn _|a old c Ho Hc Hi _|a old reason Ho Hc Hi _|i a now Hi Hv _ _ _]; [done|..]; split; simpl;
    try done; try (intros k x Hk Hst; rewrite lookup_insert_ne; [done|intros <-; simplify_eq; naive_solver congruence]).
  by eexists.
Qed.
Lemma repo_empty : repo_ok empty_repo.
Proof.
  split; simpl; try constructor; try done; intros; simplify_map_eq.
  - by destruct H.
  - apply not_elem_of_nil.
Qed.
(** An artifact that was not promoted is put, with its context and reason. *)
Lemma repo_put s a contexts reasons : repo_ok s → ar_artifact_id a ∉ promoted_ids s →
  ar_state a ≠ ArtifactState.CURRENT →
  (∀ i, i ≠ ar_artifact_id a → contexts !! i = pr_validation_contexts s !! i) →
  (is_Some (contexts !! ar_artifact_id a) → ar_state a = ArtifactState.VALIDATED) →
  (∀ i, i ≠ ar_artifact_id a → reasons !! i = pr_invalidation_reasons s !! i) →
  (ar_state a = ArtifactState.INVALID ↔ is_Some (reasons !! ar_artifact_id a)) →
  repo_ok (mk_PromotionRepo (<[ar_artifact_id a := a]> (pr_artifacts s)) (pr_current_id s) (pr_promotion_history s)
    contexts reasons).
Proof.
  intros [H1 H2 H3 H4 H5 H6 H7 H8 H9] Hp Hs Hc Hca Hr Hra. split; try done; simpl.
  - intros i b Hb. destruct (decide (i = ar_artifact_id a)) as [->|]; simplify_map_eq; [done|by apply H1].
  - intros i b Hb. destruct (decide (i = ar_artifact_id a)) as [->|]; simplify_map_eq; [|by apply H4].
    split; [done|]. intros Hin. by destruct Hp.
  - intros n e He. destruct (H5 n e He) as (b & Hb & ?). exists b. rewrite lookup_insert_ne; [done|].
    intros Heq. apply Hp. rewrite Heq. apply list_elem_of_fmap_2. by eapply list_elem_of_lookup_2.
  - intros i b Hb. destruct (decide (i = ar_artifact_id a)) as [->|]; simplify_map_eq; [done|]. rewrite Hr by done. by apply H7.
  - intros i Hi. destruct (decide (i = ar_artifact_id a)) as [->|].
    + exists a. rewrite lookup_insert_eq. auto.
    + rewrite lookup_insert_ne by done. apply H8. by rewrite <-Hc.
  - intros i Hi. destruct (decide (i = ar_artifact_id a)) as [->|]; simplify_map_eq. rewrite Hr by done. by apply H9.
Qed.
Lemma not_promoted s i a : repo_ok s → pr_artifacts s !! i = Some a → ar_state a ≠ ArtifactState.CURRENT → i ∉ promoted_ids s.
Proof. intros H Hi Hs Hin. by apply Hs, (rk_promoted s H i a). Qed.
Lemma no_reason s i a : repo_ok s → pr_artifacts s !! i = Some a → ar_state a ≠ ArtifactState.INVALID →
  pr_invalidation_reasons s !! i = None.
Proof. intros H Hi Hs. apply eq_None_not_Some. intros Hr. by apply Hs, (rk_reasons s H i a). Qed.
Lemma no_context s i : repo_ok s → pr_artifacts s !! i = None → pr_validation_contexts s !! i = None.
Proof.
  intros H Hi. apply eq_None_not_Some. intros Hc. destruct (rk_contexts s H i Hc) as (a & Ha & _). congruence.
Qed.
Lemma StronglySorted_last {A} (R : relation A) l x y : StronglySorted R (l ++ [y]) → x ∈ l → R x y.
Proof.
  induction l as [|z l IH]; simpl; intros Hs Hx; [by apply not_elem_of_nil in Hx|].
  inversion Hs as [|? ? Hs' Hz]; subst. apply elem_of_cons in Hx as [->|Hx]; [|by apply IH].
  rewrite Forall_forall in Hz. apply Hz. set_solver.
Qed.
Lemma repo_promote s i a now : repo_ok s → pr_artifacts s !! i = Some a → ar_state a = ArtifactState.VALIDATED →
  ar_previous_artifact_id a = pr_current_id s → ar_created_at a ≤ now →
  match last (pr_promotion_history s) with Some e => pe_promoted_at e ≤ now | None => True end →
  repo_ok (mk_PromotionRepo (<[i := set_state ArtifactState.CURRENT a]> (pr_artifacts s)) (Some i)
    (pr_promotion_history s ++ [mk_Promotion i now]) (pr_validation_contexts s) (pr_invalidation_reasons s)).
Proof.
  intros H Hi Hv Hprev Hnow Hlast. assert (Hp : i ∉ promoted_ids s) by (eapply not_promoted; [done..|congruence]).
  pose proof H as [H1 H2 H3 H4 H5 H6 H7 H8 H9]. unfold promoted_ids in H2, H3, H4, H5, H9, Hp.
  split; unfold promoted_ids; simpl.
  - intros k b Hb. destruct (decide (k = i)) as [->|]; simplify_map_eq; by apply H1.
  - rewrite fmap_app. simpl. by rewrite last_snoc.
  - rewrite fmap_app. apply NoDup_app. split_and!; [done| |apply NoDup_singleton].
    intros x Hx. simpl. rewrite list_elem_of_singleton. by intros ->.
  - intros k b Hb. rewrite fmap_app, elem_of_app. simpl. rewrite list_elem_of_singleton.
    destruct (decide (k = i)) as [->|]; simplify_map_eq; [tauto|]. rewrite (H4 k b Hb). tauto.
  - intros n e He. rewrite fmap_app. apply lookup_app_Some in He as [He|[Hn He]].
    + destruct (H5 n e He) as (b & Hb & Hbt & Hbp). exists b. pose proof (lookup_lt_Some _ _ _ He).
      rewrite take_app_le by (rewrite length_fmap; lia). rewrite lookup_insert_ne; [done|].
      intros ->. apply Hp, list_elem_of_fmap_2. by eapply list_elem_of_lookup_2.
    + apply list_lookup_singleton_Some in He as [Hn' <-]. exists (set_state ArtifactState.CURRENT a). simpl.
      rewrite lookup_insert_eq. split_and!; [done..|]. rewrite Hprev, H2.
      rewrite take_app_ge by (rewrite length_fmap; lia).
      by rewrite length_fmap, Hn', app_nil_r.
  - apply StronglySorted_snoc; [done|]. destruct (last (pr_promotion_history s)) as [e|] eqn:He.
    + apply last_Some in He as [l He]. rewrite He in *. apply Forall_app. split; [|by constructor].
      apply Forall_forall. intros x Hx. simpl. pose proof (StronglySorted_last _ _ _ _ H6 Hx) as Hxe.
      simpl in Hxe. lia.
    + by apply last_None in He as ->.
  - intros k b Hb. destruct (decide (k = i)) as [->|]; simplify_map_eq; [|by apply H7].
    simpl. split; [done|]. intros Hr%(H7 i a Hi). congruence.
  - intros k Hk. destruct (decide (k = i)) as [->|].
    + eexists. rewrite lookup_insert_eq. split; [done|]. by right.
    + rewrite lookup_insert_ne by done. by apply H8.
  - intros k Hk. destruct (decide (k = i)) as [->|]; simplify_map_eq. destruct (H9 k Hk) as [Hk1 Hk2]. split; [|done].
    rewrite fmap_app, elem_of_app. simpl. rewrite list_elem_of_singleton. tauto.
Qed.
Lemma step_ok s s' : repo_ok s → repo_step s s' → repo_ok s'.
Proof.
  intros H [|a Hn Hs|a old c Ho Hc Hi Hs|a old reason Ho Hc Hi Hs|i a now Hi Hv Hp Hnow Hl]; [done|..|by apply repo_promote].
  - destruct (rk_fresh s H _ Hn) as [Hf Hr]. apply repo_put; try done; try congruence.
    + intros Hx. rewrite no_context in Hx by done. by destruct Hx.
    + rewrite Hr, Hs. split; [done|by intros []].
  - apply (repo_put s a); try done; [by eapply not_promoted|congruence|..].
    + intros i Hne. simpl. by rewrite lookup_partial_alter_ne.
    + simpl. rewrite (no_reason s _ old), Hs by done. split; [done|by intros []].
  - apply (repo_put s a); try done; [by eapply not_promoted|congruence|..]; simpl.
    + intros i Hne. by rewrite lookup_partial_alter_ne.
    + rewrite lookup_partial_alter_eq. by intros [].
    + intros i Hne. by rewrite lookup_insert_ne.
    + rewrite lookup_insert_eq, Hs. split; [by eexists|done].
Qed.
Lemma run_repo_ok ops s : repo_ok s → repo_ok (run_repo ops s) ∧ repo_kept s (run_repo ops s).
Proof.
  unfold run_repo. revert s. induction ops as [|op ops IH]; intros s H; [by split|]. simpl.
  destruct (IH (repo_op op s)) as [H1 H2]; [by eapply step_ok, op_step|]. split; [done|].
  etrans; [apply step_kept, op_step|done].
Qed.
Lemma reachable_repo ops : repo_ok (run_repo ops empty_repo).
Proof. apply run_repo_ok, repo_empty. Qed.

(** ** The properties *)

(** C19. In every state the promotion repository reaches, whatever artifacts, validation
    results, contexts and clocks its methods are called with: the current pointer is the
    last promotion, no artifact is promoted twice, the promoted artifacts are exactly those
    in state CURRENT and each has the promotion before as its predecessor, promotions are in
    order of time and none precedes its artifact's creation, an artifact is INVALID exactly
    when a reason is recorded; and from then on promotions are only added, and a promoted
    or INVALID artifact stays as it is. *)
Theorem promotion_history_consistent ops more : let s := run_repo ops empty_repo in
  repo_ok s ∧ repo_kept s (run_repo more s).
Proof. split; [apply reachable_repo|]. by apply run_repo_ok, reachable_repo. Qed.

(** ** Selection *)

Lemma safe_history_elem as_of s a : repo_ok s → a ∈ safe_history as_of s →
  ∃ e, e ∈ pr_promotion_history s ∧ pe_artifact_id e = ar_artifact_id a ∧ pe_promoted_at e ≤ as_of ∧
    ar_state a = ArtifactState.CURRENT ∧ ar_created_at a ≤ as_of ∧ ar_cutoff_at a ≤ as_of.
Proof.
  intros H (e & He & Ha)%list_elem_of_omap. rewrite elem_of_reverse in He. unfold promoted_by in Ha.
  destruct (pr_artifacts s !! pe_artifact_id e) as [b|] eqn:Hb; [|done]. simpl in Ha.
  destruct (_ && _ && _) eqn:Hif; [|done]. injection Ha as ->. ok_facts.
  exists e. split_and!; try done; [by rewrite (rk_keys s H _ _ Hb)|]. apply (rk_promoted s H _ _ Hb).
  by apply list_elem_of_fmap_2.
Qed.

Section store.
Context {S : Type} {C : ContentStore S}.

Lemma on_store_repo {A} (m : M S A) w : ps_repo (on_store m w).2 = ps_repo w ∧
  ∃ s', m (ps_store w) = ((on_store m w).1, s').
Proof. unfold on_store. destruct (m (ps_store w)) as [o s']. by split; [|exists s']. Qed.
(** An artifact that was chosen from [l]. *)
Definition chosen_from (contexts : gmap string ValidationContext) (l : list MemoryArtifact)
    (o : outcome MemorySelection) : Prop :=
  ∀ a alert, o = Ok (mk_Selection (Some a) alert) → alert = None ∧ a ∈ l ∧ ∃ context s s',
    contexts !! ar_artifact_id a = Some context ∧
    cs_get (ar_content_hash a) s = (Ok (canonical_content_bytes a), s') ∧
    me_sha256 (canonical_content_bytes a) = ar_content_hash a ∧ check_MemoryArtifact a = Ok () ∧
    ∃ r, validate (set_state ArtifactState.CANDIDATE a) (vc_source_records context) (vc_requested_cutoff context) = Ok r ∧
      result_valid r = true.
Lemma select_from_sound as_of contexts l : ∀ w o w', select_from as_of contexts l w = (o, w') →
  ps_repo w' = ps_repo w ∧ chosen_from contexts l o.
Proof.
  induction l as [|b l IH]; intros w o w' H; simpl in H; [by injection H as <- <-|].
  assert (Hskip : ∀ w0, ps_repo w0 = ps_repo w → select_from as_of contexts l w0 = (o, w') →
    ps_repo w' = ps_repo w ∧ chosen_from contexts (b :: l) o).
  { intros w0 H0 Hl. destruct (IH _ _ _ Hl) as [IH1 IH2]. split; [congruence|]. intros a alert Ho.
    destruct (IH2 a alert Ho) as (? & ? & ?). split_and!; [done|by right|done]. }
  destruct (contexts !! ar_artifact_id b) as [context|] eqn:Hctx; [|by apply (Hskip w)].
  unfold try_else in H. destruct (on_store_repo (cs_get (ar_content_hash b)) w) as [Hrepo [s' Hget]].
  destruct (on_store (cs_get (ar_content_hash b)) w) as [[content|x] w1]; simpl in *; cycle 1.
  { destruct (exn_isa _ EContentStoreMissing); [by apply (Hskip w1)|].
    destruct (_ || _); injection H as <- <-; done. }
  rewrite check_set_state in H. destruct (check_MemoryArtifact b) as [[]|x] eqn:Hb; simpl in H; [|by injection H as <- <-].
  destruct (validate _ _ _) as [r|x] eqn:Hv; [|by injection H as <- <-].
  destruct (bool_decide_reflect (content = canonical_content_bytes b)) as [->|]; simpl in H; [|by injection H as <- <-].
  destruct (bool_decide_reflect (me_sha256 (canonical_content_bytes b) = ar_content_hash b)); simpl in H; [|by injection H as <- <-].
  destruct (result_valid r) eqn:Hr; [|by apply (Hskip w1)]. injection H as <- <-. split; [done|].
  intros a alert [= <- <-]. split_and!; [done|by left|]. exists context, (ps_store w), s'. split_and!; try done. by exists r.
Qed.

(** C18. What [select_for_as_of] answers, whatever happened to the repository before and
    whatever the content store does: an artifact that was promoted by the instant asked
    for and created by it, whose stored bytes are exactly its canonical ones under its hash,
    which validates again against its recorded sources, and whose sources, exactly those
    it names, were all available by its cutoff, which is not after that instant.  The
    repository is not changed. *)
Theorem selected_memory_point_in_time ops as_of w a alert w' : ps_repo w = run_repo ops empty_repo →
  select_for_as_of as_of w = (Ok (mk_Selection (Some a) alert), w') →
  ps_repo w' = ps_repo w ∧ alert = None ∧ ∃ e context s s',
    e ∈ pr_promotion_history (ps_repo w) ∧ pe_artifact_id e = ar_artifact_id a ∧ pe_promoted_at e ≤ as_of ∧
    ar_created_at a ≤ as_of ∧ ar_cutoff_at a ≤ as_of ∧
    pr_validation_contexts (ps_repo w) !! ar_artifact_id a = Some context ∧
    cs_get (ar_content_hash a) s = (Ok (canonical_content_bytes a), s') ∧
    me_sha256 (canonical_content_bytes a) = ar_content_hash a ∧
    validate (set_state ArtifactState.CANDIDATE a) (vc_source_records context) (vc_requested_cutoff context) =
      Ok (mk_Result (set_state ArtifactState.VALIDATED a) []) ∧
    (∀ i, i ∈ (vc_source_records context).*1 ↔ i ∈ ar_source_record_ids a) ∧
    (∀ i r, (i, r) ∈ vc_source_records context → i = dr_record_id r ∧ dr_available_at r ≤ ar_cutoff_at a).
Proof.
  intros Hw H. unfold select_for_as_of in H. pose proof (reachable_repo ops) as Hok. rewrite <-Hw in Hok.
  destruct (select_from_sound _ _ _ _ _ _ H) as [Hrepo Hs]. destruct (Hs a alert eq_refl) as (-> & Hin & Hc).
  destruct Hc as (context & s & s' & Hctx & Hget & Hsha & Hcheck & r & Hv & Hr).
  destruct (safe_history_elem _ _ _ Hok Hin) as (e & He & Hid & Hp & _ & Hcr & Hcut).
  destruct (validate_valid (set_state ArtifactState.CANDIDATE a) _ _ _ eq_refl Hcheck Hv Hr) as (-> & Hset & Hok' & Hcut' & Hpast).
  split_and!; try done. exists e, context, s, s'. split_and!; try done.
  intros i x Hix. destruct (proj1 Hok' i x Hix) as [-> _]. split; [done|].
  change (ar_cutoff_at a) with (ar_cutoff_at (set_state ArtifactState.CANDIDATE a)). rewrite Hcut'.
  by apply (Hpast _ _ Hix).
Qed.
End store.
End facts.
