(* ===== verification/MemoryDemo.v ===== *)
(** * A memory at work

    Two reflections, the second correcting the first, two candidates with one meaning,
    the artifact made of them, and a content store that keeps what it is given, for the
    witnesses of the theorems about memory. *)

From S2P Require Import Prelude Text Calendar Json Instants Sources Memory Promotion MemoryFacts PromotionFacts.
Local Open Scope Z_scope.

(** ** The interpreter and the store *)

Definition demo_hex (z : Z) : ascii := ascii_of_nat (Z.to_nat (if z <? 10 then 48 + z else 87 + z)).
Fixpoint hex_text (n : nat) (z : Z) (acc : string) : string :=
  match n with O => acc | S n => hex_text n (z / 16) (String (demo_hex (z mod 16)) acc) end.
Definition demo_digest (s : string) : string :=
  hex_text 64 (foldl (λ h c, Z.land (h * 31 + Z.of_N (N_of_ascii c) + 1) (2 ^ 24 - 1)) 7 (String.list_ascii_of_string s)) "".
#[local] Instance demo_env : MemoryEnv := ascii_env demo_digest.
#[local] Instance demo_store : ContentStore (gmap string string) := mk_ContentStore _
  (λ content hash s, (Ok (hash, Z.of_nat (String.length content)), <[hash := content]> s))
  (λ hash s, match s !! hash with Some c => (Ok c, s) | None => (raise EContentStoreMissing "missing", s) end).

(** ** Reflections *)

Definition demo_hash : string := demo_digest "content".
Definition demo_lesson : string := "Trim AAPL by 20 before the close".
Definition demo_source : ReflectionSourceRef := mk_ReflectionSource "src-1" "open_position" demo_hash 10
  [mk_Fact "f1" FactKind.NUMBER "20"; mk_Fact "f2" FactKind.SYMBOL "AAPL"] [].
Definition demo_observation (kind : ObservationKind.t) (target : option string) : ReflectionObservation :=
  mk_Observation ReflectionObservation_ kind "AAPL moved by 20" demo_lesson [] [] ["f1"; "f2"] target.
Definition demo_record (i : string) (created : Z) (o : ReflectionObservation) (reason : option CorrectionReason)
    : DailyReflectionRecord :=
  let r := mk_Reflection i "v1" created (created + 1) (created - 1) (created - 1) "prop-1" "dec-1" demo_hash demo_hash
    [demo_source] [o] "v1" "v1" "v1" "v1" "v1" "" reason in
  with_reflection_hash (compute_hash r) r.
Definition demo_first : DailyReflectionRecord :=
  demo_record "rec-1" 20 (demo_observation ObservationKind.OPEN_POSITION None) None.
Definition demo_correction : DailyReflectionRecord :=
  demo_record "rec-2" 40 (demo_observation ObservationKind.CORRECTION (Some "rec-1")) (Some FACTUAL_ERROR).
Example demo_records_kept :
  append_all [demo_first; demo_correction; demo_first] [] = [demo_first; demo_correction].
Proof. vm_compute. reflexivity. Qed.

(** ** Candidates and the artifact *)

Definition demo_items : list (string * DailyReflectionRecord) := [("rec-1", demo_first)].
Definition demo_entry (importance : Z) (evidence : list string) : MemoryEntry :=
  mk_Entry MemoryCategory.POSITION_MANAGEMENT importance "AAPL moved by 20" demo_lesson [] [] evidence ["rec-1"] [].
Definition demo_candidates (importance : Z) : list MemoryCandidate :=
  [mk_Candidate (demo_entry importance ["f2"; "f1"]) 21 9 false importance;
   mk_Candidate (demo_entry 5 ["f1"]) 21 1 true importance].
Definition demo_fields : ArtifactFields :=
  mk_ArtifactFields "art-1" "v1" 60 50 ["rec-1"] None "v1" "v1" "v1".
Definition demo_artifact : MemoryArtifact :=
  artifact_with demo_fields [demo_entry 74 ["f1"; "f2"]]
    (me_sha256 (canonical_content_bytes (artifact_with demo_fields [demo_entry 74 ["f1"; "f2"]] ""))).
Example demo_selected :
  build_selected_artifact (demo_candidates 90) (Some (record_map demo_items)) demo_fields = Ok demo_artifact.
Proof. vm_compute. reflexivity. Qed.

(** ** Selection and validation *)

Lemma select_entries_sound_witness : ∃ out,
  select_entries (demo_candidates 90) 50 DEFAULT_CATEGORY_QUOTA 8 (Some (record_map demo_items)) = Ok out ∧
  out ≠ [] ∧ (∀ e, e ∈ out → selected_from (record_map demo_items) (demo_candidates 90) 50 e) ∧
  ∀ c, c ∈ demo_candidates 90 → ∃ rep m, merged_from (demo_candidates 90) rep m ∧ candidate_key rep = candidate_key c.
Proof.
  exists [demo_entry 74 ["f1"; "f2"]].
  assert (H : select_entries (demo_candidates 90) 50 DEFAULT_CATEGORY_QUOTA 8 (Some (record_map demo_items)) =
    Ok [demo_entry 74 ["f1"; "f2"]]) by (vm_compute; reflexivity).
  destruct (select_entries_sound (demo_candidates 90) 50 DEFAULT_CATEGORY_QUOTA 8 (record_map demo_items) _ H)
    as (_ & _ & _ & _ & Hsound & Hcomplete).
  split; [exact H|]. split; [done|]. split; [intros e He; exact (proj2 (Hsound e He))|].
  intros c Hc. destruct (Hcomplete c Hc) as (rep & m & rs & Hm & Hk & _).
  exists rep, m. exact (conj Hm Hk).
Defined.
(** Two candidates with the same texts, of one source, whose providers gave them different
    categories: their keys differ, so they are not merged; both are derived to one category,
    one is selected, and the fact only the other cites is in no entry. *)
Example demo_lineage_lost :
  let risk := mk_Entry MemoryCategory.RISK_REJECTION 5 "AAPL moved by 20" demo_lesson [] [] ["f2"] ["rec-1"] [] in
  let candidates := [mk_Candidate (demo_entry 5 ["f1"]) 21 1 false 0; mk_Candidate risk 21 1 false 0] in
  select_entries candidates 50 DEFAULT_CATEGORY_QUOTA 8 (Some (record_map demo_items)) =
    Ok [demo_entry 74 ["f2"]].
Proof. vm_compute. reflexivity. Qed.
Lemma provider_scores_ignored_witness :
  demo_candidates 90 ≠ demo_candidates 10 ∧
  select_entries (demo_candidates 90) 50 DEFAULT_CATEGORY_QUOTA 8 (Some (record_map demo_items)) =
  select_entries (demo_candidates 10) 50 DEFAULT_CATEGORY_QUOTA 8 (Some (record_map demo_items)).
Proof.
  split; [discriminate|].
  apply provider_scores_ignored; [repeat (constructor; [split; vm_compute; reflexivity|]); constructor..|reflexivity].
Defined.
Lemma validate_decides_witness : memory_safe demo_artifact demo_items 50.
Proof.
  destruct (validate_decides demo_artifact demo_items 50) as [[H _]|(_ & s & c & reason & H & _)].
  - reflexivity.
  - vm_compute. reflexivity.
  - intros e He. apply list_elem_of_singleton in He as ->. vm_compute. reflexivity.
  - apply NoDup_singleton.
  - exact H.
  - exfalso. revert H. vm_compute. discriminate.
Defined.
(** A number that no cited fact states is found. *)
Example demo_invented_number :
  let e := mk_Entry MemoryCategory.POSITION_MANAGEMENT 74 "AAPL moved by 21" demo_lesson [] [] ["f1"; "f2"] ["rec-1"] [] in
  (build_memory_artifact demo_fields [e] ≫= λ a, validate a demo_items 50 ≫= λ r, invalidation_reason_code r) =
  Ok MemoryInvalidationReason.FACT_CLOSURE.
Proof. vm_compute. reflexivity. Qed.

(** ** Reflections and promotion in time *)

Lemma reflections_point_in_time_witness :
  records_as_of 30 (append_all [demo_first] []) = Ok [demo_first] ∧
  records_as_of 30 (append_all [demo_correction] (append_all [demo_first] [])) = Ok [demo_first] ∧
  records_as_of 50 (append_all [demo_correction] (append_all [demo_first] [])) = Ok [demo_correction].
Proof.
  destruct (reflections_point_in_time [demo_first] 30) as (view & Hv & _ & _ & Hl).
  assert (Hview : records_as_of 30 (append_all [demo_first] []) = Ok [demo_first]) by (vm_compute; reflexivity).
  rewrite Hview in Hv. injection Hv as <-. split; [exact Hview|]. split; [|vm_compute; reflexivity].
  apply Hl. repeat constructor.
Defined.

Definition demo_ops : list PromotionOp :=
  [Register demo_artifact;
   MarkValidated (mk_Result (set_state ArtifactState.VALIDATED demo_artifact) []) (Some (mk_Context demo_items 50));
   Promote 70 "art-1" (ar_content_hash demo_artifact)].
Definition demo_promoter : PromoterState (gmap string string) :=
  mk_Promoter {[ar_content_hash demo_artifact := canonical_content_bytes demo_artifact]} (run_repo demo_ops empty_repo).
Definition demo_current : MemoryArtifact := set_state ArtifactState.CURRENT demo_artifact.
Lemma demo_selection : (select_for_as_of 80 demo_promoter).1 = Ok (mk_Selection (Some demo_current) None).
Proof. vm_compute. reflexivity. Qed.
Lemma demo_repo : ps_repo demo_promoter = run_repo demo_ops empty_repo.
Proof. unfold demo_promoter, ps_repo. exact eq_refl. Qed.
Lemma demo_selection_run : select_for_as_of 80 demo_promoter =
  (Ok (mk_Selection (Some demo_current) None), (select_for_as_of 80 demo_promoter).2).
Proof. rewrite <-demo_selection. apply surjective_pairing. Qed.
Lemma demo_selection_early :
  (select_for_as_of 65 demo_promoter).1 = Ok (mk_Selection None (Some ("NO_SAFE_MEMORY", 65))).
Proof. vm_compute. reflexivity. Qed.
Lemma selected_memory_point_in_time_witness :
  (select_for_as_of 80 demo_promoter).1 = Ok (mk_Selection (Some demo_current) None) ∧
  (ar_created_at demo_current ≤ 80 ∧ ar_cutoff_at demo_current ≤ 80) ∧
  (select_for_as_of 65 demo_promoter).1 = Ok (mk_Selection None (Some ("NO_SAFE_MEMORY", 65))).
Proof.
  split; [exact demo_selection|]. split; [|exact demo_selection_early].
  pose proof (selected_memory_point_in_time demo_ops 80 demo_promoter demo_current None _ demo_repo demo_selection_run) as H.
  destruct H as (_ & _ & e & c & s & s' & _ & _ & _ & Hc & Hk & _).
  split; [exact Hc|exact Hk].
Defined.
